(* ===== verification/_CoqProject ===== *)
-Q . S2P
Prelude.v
Types.v
Bignum.v
Value.v
ValueFacts.v
Codec.v
Schema.v
DataTheorems.v
Block.v
Journal.v
JournalFacts.v
JournalCrash.v
Durability.v
Pager.v
PagerFacts.v
PagerTheorems.v
Store.v
Database.v
Integrity.v
Edits.v
StoreFacts.v
Heap.v
Refinement.v
Navigation.v
Transactions.v
Operations.v
StoreRuns.v
EditRefine.v
StoreApi.v
StoreSample.v
StoreTheorems.v
Png.v
PngFacts.v
PngDecode.v
PngEncode.v
PngHuffman.v
PngTheorems.v
Install.v
InstallTheorems.v
Ps2.v
Ps2Facts.v
Rtc.v
RtcFacts.v
InputTheorems.v
UiText.v
UiTextFacts.v
Builder.v
BuilderFacts.v
Font.v
Framebuffer.v
App.v
Screens.v
Ui.v
UiTheorems.v
UiFacts.v
Wellformed.v
UiModals.v
UiDispatch.v
UiEditor.v
UiKeys.v
Listing.v
Editing.v
SessionTheorems.v
FramebufferFacts.v
DisplayFacts.v
Compositing.v
Render.v
RenderFacts.v
Canvas.v
Screenful.v
DisplayTheorems.v
Frames.v
FrameFacts.v
FrameBuilds.v
RunTheorems.v
Acpi.v
AcpiTheorems.v
Ata.v
AtaTheorems.v
AtaSurvey.v
