(* ===== verification/Prelude.v ===== *)
(** * TablesOS: a verification development in Rocq

    TablesOS is an operating system whose only program is a relational table
    store with a text interface, written in Rust.  This library models the
    parts of it that compute (the store down to the sectors of the disk, the
    driver of that disk, the PNG decoder, the installer, the input devices, the
    clock, the soft-off, the user interface from its event handlers to the
    pixels of its frames) and proves what makes them correct.  Every definition is a translation of the source, executable, and
    is named after the Rust item it models where Rocq allows it.

    ** How the program is put together

    The kernel boots, starts the drivers and runs one loop ([App::run] in
    [kernel/src/ui.rs]) that takes an event of the input queue
    ([kernel/src/ps2.rs]), hands it to the screen on top of a stack, and draws.
    The screens call the store ([tablestore/src/store.rs]).  The store runs
    each change as a transaction: its pages are staged in the pager
    ([pager.rs]), which writes them through a redo journal ([journal.rs]) to a
    block device ([block.rs]; in the kernel an ATA or USB drive).  Rows,
    schemas and the catalog are byte strings ([codec.rs], [schema.rs],
    [value.rs], [bignum.rs]) in chains of pages.

    ** The files

    - [Prelude]: outcomes, the state and error monad, machine integers, bytes
      and text, lists; the tactics and the hint database [tos].
    - [Types] ([types.rs], the errors of [lib.rs]), [Bignum] ([bignum.rs]),
      [Value], [ValueFacts] ([value.rs]), [Codec] ([codec.rs]), [Schema]
      ([schema.rs]); [DataTheorems]: round trips, parsing, order.
    - [Block] ([block.rs]): the trait as the class [BlockDevice], the laws of a
      working device as the class [DeviceLaws], and three devices: one that
      never fails, the source's memory disk with its simulated power cut, and
      a drive with a volatile write cache that loses power after any number
      of operations and keeps any part of its cache.
    - [Journal] ([journal.rs]), [JournalFacts], [JournalCrash]; [Durability]:
      a commit is atomic and durable.
    - [Pager] ([pager.rs]), [PagerFacts]; [PagerTheorems]: what a transaction
      sees, and the commit at the level of the superblock and pages.
    - [Store] ([store.rs]): the whole store.  [Database] is its specification:
      tables as schemas and rows, an operation as a function that gives the
      changed database or an error; [Edits] the same for the edits of a schema;
      [Integrity] the invariant of a database (distinct names, typed rows,
      unique columns without duplicates, foreign keys that resolve) and that
      operations keep it.  [StoreFacts], [Heap] and [Refinement] relate pages
      to blobs, blobs to a heap of objects and the heap to a database;
      [Transactions], [Operations] and [EditRefine] prove each transaction
      against the specification; [StoreRuns] and [StoreApi] run them on a
      device, with and without power; [StoreTheorems] states the result and
      [StoreSample] is the volume it is instantiated on.
    - [Png] ([pngdec/src/lib.rs]), [PngFacts], [PngDecode], [PngEncode],
      [PngHuffman]; [PngTheorems].
    - [Install] ([kernel/src/install.rs]), [InstallTheorems].
    - [Ps2] ([ps2.rs]), [Rtc] ([rtc.rs]) and their facts; [InputTheorems].
    - [Acpi] ([acpi.rs]); [AcpiTheorems] gives each search of the firmware's
      tables a declarative counterpart.
    - [Ata] ([ata.rs]): the disk driver and the enumeration of drives over a
      class of ports.  [AtaTheorems] states the ATA standard's drive as laws
      of the ports, with a weakest precondition for the driver's steps on it,
      and proves the driver a disk; [AtaSurvey] proves the enumeration
      read-only on any ports.
    - [UiText] (carets, truncation, hint bars), [Builder] (the value builder),
      [App] (the state of the application), [Screens] (the keys of each
      screen) and [Ui] (modals, the row editor, the mouse, events), all of
      [kernel/src/ui.rs]; [UiTextFacts], [BuilderFacts]; [UiTheorems].
    - The interface over the store: [UiFacts] is a weakest precondition for the
      handlers, with a rule for every read and operation of the store they
      call; [Wellformed] says what a well-formed screen and stack are over a
      database and reads off a screen the operation a key asks for;
      [UiModals], [UiDispatch], [UiEditor] and [UiKeys] prove the handlers of
      the modals, the data and schema screens, the editor with its builder,
      and events and sessions; [Listing] is the order of the browser and
      [Editing] a row read and saved again; [SessionTheorems] states it.
    - [Font] ([font.rs]), [Framebuffer] ([framebuffer.rs]) and [Render]
      ([assets.rs], [render] and the shutdown notice of [ui.rs], the boot trace
      of [main.rs]): the display.  [FramebufferFacts] says what is drawn stays
      in the buffer, [DisplayFacts] that it depends on the scene alone,
      [Compositing] what the cache of backgrounds and the pointer leave;
      [RenderFacts], [Canvas] and [Screenful] carry this to frames and whole
      sessions of drawing, [DisplayTheorems] to the embedded bitmaps, and
      states it.
    - [Frames]: the [frame_*] of [ui.rs], the recording of what a click can
      hit, and the loop of [run] as turns, each the events queued and one
      repaint.  [FrameFacts] says which lines are safe to click, [FrameBuilds]
      that every frame is built and safe, [RunTheorems] runs the loop.

    ** How the code is modelled

    A fallible function gives an [outcome]: a value, an [Err], [Panic] for
    whatever aborts (the kernel is built with overflow checks, and with
    [panic = "abort"]), or [NoFuel].  Code with state is in the monad [stM]; a
    handler of the user interface stops with [PowerOff].  Integers are [Z] with
    the checks and wraps of their width written out where the code computes
    with them; bytes and text are lists of bytes, indexed as the code indexes
    them.  A [BTreeMap] is a [gmap].  Vectors fit in memory: their lengths are
    below [isize::MAX] and allocating them succeeds, so sums of in-memory
    indices are plain sums.

    Interfaces are type classes: [BlockDevice] and its laws between the store
    and the drive, [Hardware] between the user interface and the drivers'
    screens, [MscDevice] between the installer and the USB driver,
    [Chipset] between the soft-off and the ports, [Ports] and [AtaLaws] between
    the disk driver and the drive.  The store's
    theorems are proved against the laws and hold for every device with them;
    the devices of [Block] satisfy them, and the theorems' instances run on
    these.

    The ports of the disk driver are an interface at the level of single
    register accesses; its polls, ten million looks before giving up, are
    iterated by a binary counter.  [AtaLaws] describe a drive that is never
    busy that long and never reports an error.  The laws of a device that
    the store asks for say that any buffer of a sector's length is written;
    the driver keeps the bytes of byte-valued buffers only, which is what
    [AtaTheorems] states of it, so it is not an instance of [DeviceLaws].

    Loops with fuel: following page links takes one step more than the volume
    has pages, which no chain without a cycle exceeds (the refinement shows
    the store has none); the search for a foreign key's name takes one try
    more than there are names; inflating takes one step per input bit, which
    [PngTheorems.inflate_terminates] proves enough; the others recurse on a
    list or on digits.

    Bounds of the display: the theorems take a mode [main] accepts whose sizes
    are below 2^24, texts below 2^48 bytes and an atlas below 2^24 pixels;
    within them no sum of pixel offsets overflows, which the model checks at
    each step.

    ** What the theorems show

    - The store: each operation commits exactly what the specification says or
      is refused with its error and changes nothing, never aborts, keeps
      integrity, and is atomic whatever moment the power goes, the interrupted
      recoveries that follow included; a formatted device runs any sequence of
      operations and opens again with what they left.
    - Journal and pager: the same one level down, with the bounds of the
      journal and the freshness of allocated pages.
    - Data: values, rows and schemas survive their encodings, text parses only
      to canonical values of its type, orders are total and numeric; corrupt
      counts abort the decoders, as recorded.
    - PNG: decoding ends, never reads outside its input, gives back any picture
      of the reference encoder, and decodes canonical Huffman codes as the
      standard says.
    - Installer, input and clock: a successful install leaves the booted
      disk's prefix and an empty volume; every interleaving of interrupts and
      reads is a behaviour of a bounded queue; every printable character can
      be typed; a clock reading is a valid moment.
    - Soft-off: whatever the firmware's tables hold, the search ends inside the
      mapped window (an FADT cut off by its end excepted, as recorded), and the
      ports get the sleep types the tables give.
    - Disk driver: on a drive of the ATA standard every sequence of requests is
      answered as by an ideal disk, and nothing in front of the volume changes;
      the enumeration never aborts and writes nothing, whatever is there.
    - User interface over the store: a key or a click, in any state the screens
      can be in, never aborts, keeps every screen of the stack well-formed and
      runs on the database the one operation it asks for, or none; a refusal
      leaves the database and is told.  Sessions of any events are histories of
      the store's operations.  The browser lists the rows of the filter in a
      stable order, never stale ones; an editor holds the row it was opened on.
      What a user must respect is stated as [fair]: values that fit their
      encodings, and a click on an item of the frame on the screen.
    - The loop: with frames built and recorded by the code itself, clicks are
      safe by construction ([RunTheorems.ui_runs]) unless one is queued behind
      another event of its turn, which can abort
      ([RunTheorems.stale_click_aborts]).
    - Display: drawing never leaves the buffer nor aborts, and the screen shows
      the last frame rendered, whatever was drawn, cached or pointed at before.
    - Text: the inputs are zippers, hint bars wrap into the fewest lines and
      the click on a hint fires its key, the value builder is faithful to every
      type.

    ** What is not modelled

    - The embedded bitmaps (parameters of [Render.install], taken to decode to
      pictures below the bounds), the phase of the blinking caret (drawing with
      it on and off is covered, its timing is not) and the mutex of the display.
    - The hardware screens of [ui.rs] (drives, PCI, xHCI, USB targets, the
      install report), which show what drivers report: one constructor whose
      handler and frame are part of the interface [Hardware].  That they return is thus
      an assumption of the theorems about sessions.
    - Drivers and start-up: [usb/xhci.rs], [pci.rs],
      [interrupts.rs], [gdt.rs], [serial.rs], [time.rs], [allocator.rs],
      [main.rs] of the kernel beyond its notices, the boot loader in assembly and the linker
      scripts: port, memory-mapped and interrupt I/O on the machine.
    - The host tool that assembles the disk image ([src/main.rs], [seed.rs])
      and [kernel/build.rs]: glue that runs programs and copies files. *)

From Stdlib Require Export ZArith Lia Bool.
From stdpp Require Export base tactics numbers list option decidable strings sets.
From Stdlib Require Import Ascii.

(* stdpp opens nat scope where [numbers] is loaded; the development works on Z. *)
#[global] Open Scope Z_scope.

(* [lia] also reasons about division and remainder by constants. *)
Ltac Zify.zify_post_hook ::= Z.div_mod_to_equations.

(** ** Notations of the development *)

Declare Scope tos_scope.
Delimit Scope tos_scope with tos.

(** A Rust [u8], [u32], [u64] or [usize] is a [Z]; a [&[u8]], [Vec<u8>],
    [&str] or [String] is the list of its bytes. *)
Abbreviation byte := Z (only parsing).
Abbreviation bytes := (list Z) (only parsing).

(** The length of a slice as a [usize]. *)
Abbreviation len l := (Z.of_nat (length l)).

(** ** Outcomes

    The result of running fallible Rust code: a value, an [Err], an abort
    (a slice out of bounds, an [unwrap] on [None], an arithmetic overflow:
    the kernel is built with the [dev] profile, whose overflow checks are
    on, and with [panic = "abort"]), or the fuel of a loop whose recursion
    is not structural running out.  [Option]-returning Rust code that can
    abort is an [outcome unit]. *)

Inductive outcome (E A : Type) : Type :=
  | Val (a : A)
  | Fail (e : E)
  | Panic
  | NoFuel.
Arguments Val {E A} a.
Arguments Fail {E A} e.
Arguments Panic {E A}.
Arguments NoFuel {E A}.

#[global] Instance outcome_ret E : MRet (outcome E) := fun A a => Val a.
#[global] Instance outcome_bind E : MBind (outcome E) := fun A B f m =>
  match m with
  | Val a => f a
  | Fail e => Fail e
  | Panic => Panic
  | NoFuel => NoFuel
  end.
#[global] Instance outcome_fmap E : FMap (outcome E) := fun A B f m =>
  match m with
  | Val a => Val (f a)
  | Fail e => Fail e
  | Panic => Panic
  | NoFuel => NoFuel
  end.

#[global] Instance outcome_eq_dec E A `{EqDecision E, EqDecision A} :
  EqDecision (outcome E A).
Proof. solve_decision. Defined.

(** [o.ok_or(e)] and [o?] on an [Option]. *)
Definition ok_or {E A} (e : E) (o : option A) : outcome E A :=
  match o with Some a => Val a | None => Fail e end.

(** [r.map_err(f)]. *)
Definition map_err {E F A} (f : E -> F) (m : outcome E A) : outcome F A :=
  match m with
  | Val a => Val a
  | Fail e => Fail (f e)
  | Panic => Panic
  | NoFuel => NoFuel
  end.

(** An index, an [unwrap] or a slice that must exist. *)
Definition or_panic {E A} (o : option A) : outcome E A :=
  match o with Some a => Val a | None => Panic end.

(** ** State threading

    Code with a [&mut] receiver passes its state explicitly; an [Err] keeps
    the state reached so far. *)

Definition stM (S E A : Type) : Type := S -> outcome E A * S.

#[global] Instance stM_ret S E : MRet (stM S E) := fun A a s => (Val a, s).
#[global] Instance stM_bind S E : MBind (stM S E) := fun A B f m s =>
  match m s with
  | (Val a, s') => f a s'
  | (Fail e, s') => (Fail e, s')
  | (Panic, s') => (Panic, s')
  | (NoFuel, s') => (NoFuel, s')
  end.

Definition lift {S E A} (m : outcome E A) : stM S E A := fun s => (m, s).
Definition gets {S E A} (f : S -> A) : stM S E A := fun s => (Val (f s), s).
Definition modify {S E} (f : S -> S) : stM S E unit := fun s => (Val tt, f s).

(** [for x in l { body(x)?; }] *)
Fixpoint for_each {S E A} (l : list A) (body : A -> stM S E unit) : stM S E unit :=
  match l with
  | [] => mret tt
  | x :: l' => _ ← body x; for_each l' body
  end.

(** [for x in l { out.push(body(x)?); }] *)
Fixpoint for_collect {S E A B} (l : list A) (body : A -> stM S E B) : stM S E (list B) :=
  match l with
  | [] => mret []
  | x :: l' => b ← body x; bs ← for_collect l' body; mret (b :: bs)
  end.

(** A loop that updates one variable: [for x in l { s = f(s, x)?; }] *)
Fixpoint fold_o {E A S} (f : S -> A -> outcome E S) (s : S) (l : list A) : outcome E S :=
  match l with
  | [] => Val s
  | x :: l' => s' ← f s x; fold_o f s' l'
  end.

(** The same loops over code that only returns an outcome. *)
Fixpoint each_o {E A} (f : A -> outcome E unit) (l : list A) : outcome E unit :=
  match l with
  | [] => Val tt
  | x :: l' => _ ← f x; each_o f l'
  end.
Fixpoint map_o {E A B} (f : A -> outcome E B) (l : list A) : outcome E (list B) :=
  match l with
  | [] => Val []
  | x :: l' => b ← f x; bs ← map_o f l'; Val (b :: bs)
  end.

(** [debug_assert!(b)] *)
Definition assert {E} (b : bool) : outcome E unit := if b then Val tt else Panic.

(** ** Machine integers *)

Definition u8max : Z := 2 ^ 8.
Definition u16max : Z := 2 ^ 16.
Definition u32max : Z := 2 ^ 32.
Definition u64max : Z := 2 ^ 64.

(** [x as u8], [x as u16], [x as u32], [x as u64]. *)
Definition as_u8 (x : Z) : Z := x mod 2 ^ 8.
Definition as_u16 (x : Z) : Z := x mod 2 ^ 16.
Definition as_u32 (x : Z) : Z := x mod 2 ^ 32.
Definition as_u64 (x : Z) : Z := x mod 2 ^ 64.

(** [a + b] and [a * b] on [u64] or [usize], with the overflow check. *)
Definition add_u64 {E} (a b : Z) : outcome E Z :=
  if a + b <? 2 ^ 64 then Val (a + b) else Panic.
Definition add_i32 {E} (a b : Z) : outcome E Z :=
  if a + b <? 2 ^ 31 then Val (a + b) else Panic.
Definition mul_u64 {E} (a b : Z) : outcome E Z :=
  if a * b <? 2 ^ 64 then Val (a * b) else Panic.
(** [a.checked_add(b)] and [a.checked_mul(b)] on [usize]. *)
Definition checked_add (a b : Z) : option Z :=
  if a + b <? 2 ^ 64 then Some (a + b) else None.
Definition checked_mul (a b : Z) : option Z :=
  if a * b <? 2 ^ 64 then Some (a * b) else None.

(** ** Slices *)

(** [buf.get(i)] for a [usize] index. *)
Definition nth_z {A} (l : list A) (i : Z) : option A := l !! Z.to_nat i.

(** [&buf[i..j]]: aborts unless [i <= j <= len]. *)
Definition slice {E A} (l : list A) (i j : Z) : outcome E (list A) :=
  if (0 <=? i) && (i <=? j) && (j <=? len l)
  then Val (take (Z.to_nat (j - i)) (drop (Z.to_nat i) l))
  else Panic.

(** [buf[off..off + bs.len()].copy_from_slice(bs)]. *)
Definition splice {E A} (l : list A) (off : Z) (bs : list A) : outcome E (list A) :=
  if (0 <=? off) && (off + len bs <=? len l)
  then Val (take (Z.to_nat off) l ++ bs ++ drop (Z.to_nat (off + len bs)) l)
  else Panic.

(** ** Strings

    Source literals are ASCII; [str] gives their bytes. *)

Definition str (s : string) : bytes :=
  (fun c => Z.of_N (N_of_ascii c)) <$> String.list_ascii_of_string s.
Arguments str s%_string.

Definition is_ascii_digit (b : byte) : bool := (48 <=? b) && (b <=? 57).

(** [s.split_once(c)] for an ASCII character: first occurrence. *)
Fixpoint split_once (c : Z) (s : bytes) : option (bytes * bytes) :=
  match s with
  | [] => None
  | b :: s' =>
      if b =? c then Some ([], s')
      else match split_once c s' with
           | Some (l, r) => Some (b :: l, r)
           | None => None
           end
  end.

(** Last occurrence, the step of [s.rsplitn(n, c)]. *)
Fixpoint rsplit_once (c : Z) (s : bytes) : option (bytes * bytes) :=
  match s with
  | [] => None
  | b :: s' =>
      match rsplit_once c s' with
      | Some (l, r) => Some (b :: l, r)
      | None => if b =? c then Some ([], s') else None
      end
  end.

(** [s.rsplitn(n, c)]: at most [n] pieces, from the end. *)
Fixpoint rsplitn (n : nat) (c : Z) (s : bytes) : list bytes :=
  match n with
  | O => []
  | S O => [s]
  | S n' =>
      match rsplit_once c s with
      | Some (l, r) => r :: rsplitn n' c l
      | None => [s]
      end
  end.

(** [s.split(c)]: the pieces, in order. *)
Fixpoint split (c : Z) (s : bytes) : list bytes :=
  match s with
  | [] => [[]]
  | b :: s' =>
      if b =? c then [] :: split c s'
      else match split c s' with
           | p :: ps => (b :: p) :: ps
           | [] => [[b]]
           end
  end.

(** [s.strip_suffix(c)] for an ASCII character. *)
Definition strip_suffix (c : Z) (s : bytes) : option bytes :=
  match last s with
  | Some b => if b =? c then Some (take (length s - 1) s) else None
  | None => None
  end.

Definition starts_with (c : Z) (s : bytes) : bool :=
  match s with b :: _ => b =? c | [] => false end.

(** A UTF-8 continuation byte, [0b10xx_xxxx]. *)
Definition is_cont (b : byte) : bool := (128 <=? b) && (b <? 192).

(** [s.is_char_boundary(i)]. *)
Definition is_char_boundary (s : bytes) (i : Z) : bool :=
  if i =? 0 then true
  else if i =? len s then true
  else match nth_z s i with Some b => negb (is_cont b) | None => false end.

(** [&s[i..]] and [&s[..i]] on a [str]: abort off a character boundary. *)
Definition str_from {E} (s : bytes) (i : Z) : outcome E bytes :=
  if is_char_boundary s i then Val (drop (Z.to_nat i) s) else Panic.
Definition str_to {E} (s : bytes) (i : Z) : outcome E bytes :=
  if is_char_boundary s i then Val (take (Z.to_nat i) s) else Panic.

(** [core::str::from_utf8]: the well-formed byte sequences of RFC 3629. *)
Fixpoint utf8_valid (s : bytes) : bool :=
  match s with
  | [] => true
  | b0 :: s0 =>
      if (0 <=? b0) && (b0 <? 128) then utf8_valid s0
      else match s0 with
      | b1 :: s1 =>
          if (194 <=? b0) && (b0 <=? 223) then is_cont b1 && utf8_valid s1
          else match s1 with
          | b2 :: s2 =>
              if (224 <=? b0) && (b0 <=? 239) then
                (if b0 =? 224 then (160 <=? b1) && (b1 <? 192)
                 else if b0 =? 237 then (128 <=? b1) && (b1 <? 160)
                 else is_cont b1)
                && is_cont b2 && utf8_valid s2
              else match s2 with
              | b3 :: s3 =>
                  if (240 <=? b0) && (b0 <=? 244) then
                    (if b0 =? 240 then (144 <=? b1) && (b1 <? 192)
                     else if b0 =? 244 then (128 <=? b1) && (b1 <? 144)
                     else is_cont b1)
                    && is_cont b2 && is_cont b3 && utf8_valid s3
                  else false
              | [] => false
              end
          | [] => false
          end
      | [] => false
      end
  end.

(** [parts.join(sep)] *)
Fixpoint join (sep : bytes) (parts : list bytes) : bytes :=
  match parts with
  | [] => []
  | [p] => p
  | p :: ps => p ++ sep ++ join sep ps
  end.

(** ** Searching a slice *)

(** [l.iter().position(f)] *)
Fixpoint position {A} (f : A -> bool) (l : list A) : option nat :=
  match l with
  | [] => None
  | x :: l' => if f x then Some O else S <$> position f l'
  end.

(** [a == b] on strings. *)
Definition str_eqb (a b : bytes) : bool := bool_decide (a = b).

(** [l.iter().enumerate()] *)
Definition enumerate {A} (l : list A) : list (nat * A) := zip (seq 0 (length l)) l.

(** ** Little-endian words *)

(** [x.to_le_bytes()] at [n] bytes, and [from_le_bytes]. *)
Fixpoint le_bytes (n : nat) (x : Z) : bytes :=
  match n with
  | O => []
  | S n' => x mod 256 :: le_bytes n' (x / 256)
  end.
Fixpoint of_le_bytes (bs : bytes) : Z :=
  match bs with
  | [] => 0
  | b :: bs' => b + 256 * of_le_bytes bs'
  end.

(** ** Decimal formatting, [{}] of an unsigned integer *)

Fixpoint fmt_digits (fuel : nat) (n : Z) (acc : bytes) : bytes :=
  match fuel with
  | O => acc
  | S f => let acc' := (48 + n mod 10) :: acc in
           if n / 10 =? 0 then acc' else fmt_digits f (n / 10) acc'
  end.
(** 20 digits hold every [u64]. *)
Definition fmt_u64 (n : Z) : bytes := fmt_digits 20 n [].

(** ** Ordering *)

(** [Ordering::then]. *)
Definition cmp_then (a b : comparison) : comparison :=
  match a with Eq => b | _ => a end.

(** [Ord] of byte slices: lexicographic, the shorter first. *)
Fixpoint lex_cmp (a b : list Z) : comparison :=
  match a, b with
  | [], [] => Eq
  | [], _ :: _ => Lt
  | _ :: _, [] => Gt
  | x :: a', y :: b' => cmp_then (x ?= y) (lex_cmp a' b')
  end.

(** ** Automation *)

Create HintDb tos discriminated.
#[global] Hint Constants Opaque : tos.
Create Rewrite HintDb tos.

Lemma bind_val {E A B} (m : outcome E A) (f : A -> outcome E B) b :
  (m ≫= f) = Val b <-> exists a, m = Val a /\ f a = Val b.
Proof. destruct m; cbn; split; [eauto| |by intros ?| |by intros ?| |by intros ?|]; intros (? & ? & ?); congruence. Qed.

Lemma ok_or_val {E A} (e : E) (o : option A) a : ok_or e o = Val a <-> o = Some a.
Proof. destruct o; naive_solver. Qed.

Lemma stM_bind_val {S E A B} (c : stM S E A) (f : A -> stM S E B) s a s' :
  c s = (Val a, s') -> (c ≫= f) s = f a s'.
Proof. unfold mbind, stM_bind. by intros ->. Qed.
Lemma stM_bind_fail {S E A B} (c : stM S E A) (f : A -> stM S E B) s e s' :
  c s = (Fail e, s') -> (c ≫= f) s = (Fail e, s').
Proof. unfold mbind, stM_bind. by intros ->. Qed.
Lemma lift_bind_val {S E A B} (r : outcome E A) (f : A -> stM S E B) s a :
  r = Val a -> (lift r ≫= f) s = f a s.
Proof. by intros ->. Qed.

(** Runs that end with a value or an error, never an abort. *)
Definition no_abort {E A} (m : outcome E A) : Prop := m <> Panic /\ m <> NoFuel.

Lemma no_abort_val {E A} (a : A) : no_abort (E:=E) (Val a).
Proof. split; discriminate. Qed.
Lemma no_abort_ret {E A} (a : A) : no_abort (mret (M:=outcome E) a).
Proof. split; discriminate. Qed.
Lemma no_abort_fail {E A} (e : E) : no_abort (A:=A) (Fail e).
Proof. split; discriminate. Qed.
Lemma no_abort_ok_or {E A} (e : E) (o : option A) : no_abort (ok_or e o).
Proof. by destruct o; split. Qed.
Lemma no_abort_map_err {E F A} (f : E -> F) (m : outcome E A) :
  no_abort m -> no_abort (map_err f m).
Proof. unfold no_abort. destruct m; cbn; naive_solver. Qed.
Lemma no_abort_bind {E A B} (m : outcome E A) (f : A -> outcome E B) :
  no_abort m -> (forall a, m = Val a -> no_abort (f a)) -> no_abort (m ≫= f).
Proof. unfold no_abort. destruct m; cbn; naive_solver. Qed.
#[export] Hint Resolve no_abort_val no_abort_ret no_abort_fail no_abort_ok_or
  no_abort_map_err : tos.

Lemma no_abort_cases {E A} (m : outcome E A) :
  no_abort m -> (exists a, m = Val a) \/ (exists e, m = Fail e).
Proof. unfold no_abort. destruct m; naive_solver. Qed.

(** Walk through binds, matches and tests; leaves the calls to other code. *)
Ltac no_abort :=
  repeat first
  [ solve [eauto 2 with tos]
  | apply no_abort_bind; [|intros ? ?]
  | apply no_abort_map_err
  | match goal with |- no_abort (match ?x with _ => _ end) => destruct x eqn:? end
  | match goal with |- no_abort ((match ?x with _ => _ end) _) => destruct x eqn:? end ].

(** Open the binds of a successful run. *)
Ltac obind H :=
  match type of H with
  | (?m ≫= _) = Val _ =>
      let a := fresh "a" in let E := fresh "E" in
      apply bind_val in H as (a & E & H); cbn beta in H
  end.

(** Case on the scrutinee of the first [match] or [if] of a hypothesis. *)
Ltac hcase H :=
  match type of H with
  | context [match ?x with _ => _ end] =>
      lazymatch x with context [match _ with _ => _ end] => fail | _ => idtac end;
      let E := fresh "E" in destruct x eqn:E; try discriminate H
  end.
Ltac gcase :=
  match goal with
  | |- context [match ?x with _ => _ end] =>
      lazymatch x with context [match _ with _ => _ end] => fail | _ => idtac end;
      let E := fresh "E" in destruct x eqn:E
  end.

(** Boolean tests to propositions. *)
Ltac bools :=
  repeat match goal with
  | H : (_ =? _) = true |- _ => apply Z.eqb_eq in H
  | H : (_ =? _) = false |- _ => apply Z.eqb_neq in H
  | H : (_ <? _) = true |- _ => apply Z.ltb_lt in H
  | H : (_ <? _) = false |- _ => apply Z.ltb_ge in H
  | H : (_ <=? _) = true |- _ => apply Z.leb_le in H
  | H : (_ <=? _) = false |- _ => apply Z.leb_gt in H
  | H : (_ && _)%bool = true |- _ => apply andb_prop in H as [? ?]
  | H : (_ || _)%bool = false |- _ => apply orb_false_elim in H as [? ?]
  | H : negb _ = true |- _ => apply negb_true_iff in H
  | H : negb _ = false |- _ => apply negb_false_iff in H
  end.

(** Decide the boolean comparisons of the goal by arithmetic. *)
Ltac tests :=
  repeat match goal with
  | |- context [?a =? ?b] =>
      first [rewrite (proj2 (Z.eqb_eq a b)) by lia | rewrite (proj2 (Z.eqb_neq a b)) by lia]
  | |- context [?a <? ?b] =>
      first [rewrite (proj2 (Z.ltb_lt a b)) by lia | rewrite (proj2 (Z.ltb_ge a b)) by lia]
  | |- context [?a <=? ?b] =>
      first [rewrite (proj2 (Z.leb_le a b)) by lia | rewrite (proj2 (Z.leb_gt a b)) by lia]
  end; cbn [andb orb negb].

(** ** Bytes *)

Definition is_byte (b : Z) : Prop := 0 <= b < 256.
Abbreviation is_bytes := (Forall is_byte).

Lemma le_bytes_length n x : length (le_bytes n x) = n.
Proof. revert x; induction n; cbn; auto. Qed.

Lemma le_bytes_is_bytes n x : is_bytes (le_bytes n x).
Proof.
  revert x; induction n; intros x; cbn; constructor; auto.
  apply Z.mod_pos_bound; lia.
Qed.

Lemma of_le_bytes_le_bytes n x :
  of_le_bytes (le_bytes n x) = x mod 256 ^ Z.of_nat n.
Proof.
  revert x; induction n; intros x.
  - cbn. by rewrite Z.mod_1_r.
  - cbn [le_bytes of_le_bytes]. rewrite IHn, Nat2Z.inj_succ, Z.pow_succ_r by lia.
    rewrite Z.rem_mul_r by (try apply Z.pow_pos_nonneg; lia). lia.
Qed.

Lemma of_le_bytes_small n x :
  0 <= x < 256 ^ Z.of_nat n -> of_le_bytes (le_bytes n x) = x.
Proof. intros. rewrite of_le_bytes_le_bytes. by apply Z.mod_small. Qed.

Lemma of_le_bytes_bound bs :
  is_bytes bs -> 0 <= of_le_bytes bs < 256 ^ len bs.
Proof.
  induction 1 as [|b bs Hb _ IH]; [cbn; lia|].
  cbn [of_le_bytes length]. rewrite Nat2Z.inj_succ, Z.pow_succ_r by lia.
  unfold is_byte in Hb. lia.
Qed.

(** A test over all bytes, by computation. *)
Lemma byte_forall (P : Z -> bool) :
  forallb P (Z.of_nat <$> seq 0 256) = true -> forall b, is_byte b -> P b = true.
Proof.
  intros H b Hb. rewrite List.forallb_forall in H. apply H.
  apply list_elem_of_In, list_elem_of_fmap. exists (Z.to_nat b).
  unfold is_byte in Hb. split; [lia|]. apply elem_of_seq. lia.
Qed.

Lemma lor_shiftl_add r x s : 0 <= s -> 0 <= r < 2 ^ s -> 0 <= x ->
  Z.lor r (Z.shiftl x s) = r + x * 2 ^ s.
Proof.
  intros Hs Hr Hx.
  assert (H0 : Z.land r (Z.shiftl x s) = 0).
  { apply Z.bits_inj'. intros n Hn. rewrite Z.land_spec, Z.bits_0.
    destruct (Z.ltb_spec n s).
    - rewrite Z.shiftl_spec_low by done. apply andb_false_r.
    - rewrite <- (Z.mod_small r (2 ^ s)) by done.
      by rewrite Z.mod_pow2_bits_high by lia. }
  rewrite <- Z.lxor_lor, <- Z.add_nocarry_lxor by done.
  by rewrite Z.shiftl_mul_pow2.
Qed.

(** ** Slices of concatenations *)

Lemma slice_app {E A} (a b c : list A) i j :
  i = len a -> j = len a + len b -> slice (E:=E) (a ++ b ++ c) i j = Val b.
Proof.
  intros -> ->. unfold slice. rewrite !length_app. tests.
  f_equal. rewrite Nat2Z.id, drop_app_length.
  replace (Z.to_nat _) with (length b) by lia. apply take_app_length.
Qed.

Lemma slice_val {E A} (l s : list A) i j :
  slice (E:=E) l i j = Val s ->
  0 <= i <= j /\ j <= len l /\ len s = j - i /\
  s = take (Z.to_nat (j - i)) (drop (Z.to_nat i) l).
Proof.
  unfold slice. intros H. hcase H. bools. injection H as <-.
  rewrite length_take, length_drop. repeat split; lia.
Qed.

Lemma splice_app {E A} (a b c bs : list A) off :
  off = len a -> length bs = length b ->
  splice (E:=E) (a ++ b ++ c) off bs = Val (a ++ bs ++ c).
Proof.
  intros -> Hl. unfold splice. rewrite !length_app. tests.
  f_equal. rewrite Nat2Z.id, take_app_length. do 2 f_equal.
  rewrite Hl, <- Nat2Z.inj_add, Nat2Z.id, <- drop_drop.
  by rewrite !drop_app_length.
Qed.

Lemma splice_length {E A} (l bs r : list A) off :
  splice (E:=E) l off bs = Val r -> length r = length l.
Proof.
  unfold splice. intros H. hcase H. bools. injection H as <-.
  rewrite !length_app, length_take, length_drop. lia.
Qed.

(** ** String operations *)

Lemma split_once_app c l r : c ∉ l -> split_once c (l ++ c :: r) = Some (l, r).
Proof.
  induction l as [|b l IH]; intros Hc; cbn.
  - by rewrite Z.eqb_refl.
  - apply not_elem_of_cons in Hc as [Hb Hl]. tests. by rewrite IH.
Qed.

Lemma split_once_none c s : c ∉ s -> split_once c s = None.
Proof.
  induction s as [|b s IH]; intros Hc; cbn; [done|].
  apply not_elem_of_cons in Hc as [Hb Hl]. tests. by rewrite IH.
Qed.

Lemma split_once_some c s l r :
  split_once c s = Some (l, r) -> s = l ++ c :: r /\ c ∉ l.
Proof.
  revert l; induction s as [|b s IH]; intros l H; cbn in H; [done|].
  hcase H; bools.
  - injection H as <- <-. subst. split; [done|]. apply not_elem_of_nil.
  - hcase H. destruct p as [l' r']. injection H as <- <-.
    destruct (IH l') as [-> Hl]; [done|]. split; [done|].
    apply not_elem_of_cons; split; [lia|done].
Qed.

Lemma rsplit_once_none c s : c ∉ s -> rsplit_once c s = None.
Proof.
  induction s as [|b s IH]; intros Hc; cbn; [done|].
  apply not_elem_of_cons in Hc as [Hb Hl]. rewrite IH by done. by tests.
Qed.

Lemma rsplit_once_app c l r : c ∉ r -> rsplit_once c (l ++ c :: r) = Some (l, r).
Proof.
  intros Hc. induction l as [|b l IH]; cbn.
  - by rewrite rsplit_once_none, Z.eqb_refl.
  - by rewrite IH.
Qed.

Lemma split_none c s : c ∉ s -> split c s = [s].
Proof.
  induction s as [|b s IH]; intros Hc; cbn; [done|].
  apply not_elem_of_cons in Hc as [Hb Hl]. tests. by rewrite IH.
Qed.

Lemma split_app c l r : c ∉ l -> split c (l ++ c :: r) = l :: split c r.
Proof.
  induction l as [|b l IH]; intros Hc; cbn.
  - by rewrite Z.eqb_refl.
  - apply not_elem_of_cons in Hc as [Hb Hl]. tests. by rewrite IH.
Qed.

Lemma strip_suffix_snoc c s b :
  strip_suffix c (s ++ [b]) = if b =? c then Some s else None.
Proof.
  unfold strip_suffix. rewrite last_snoc, length_app, Nat.add_sub.
  by rewrite take_app_length.
Qed.

Definition all_ascii (s : bytes) : Prop := Forall (fun b => 0 <= b < 128) s.

Lemma all_ascii_nil : all_ascii [].
Proof. constructor. Qed.
Lemma all_ascii_cons b s : 0 <= b < 128 -> all_ascii s -> all_ascii (b :: s).
Proof. by constructor. Qed.
Lemma all_ascii_app a b : all_ascii a -> all_ascii b -> all_ascii (a ++ b).
Proof. intros. by apply Forall_app. Qed.
#[export] Hint Resolve all_ascii_nil all_ascii_cons all_ascii_app : tos.
#[export] Hint Extern 1 (_ <= _ <= _) => lia : tos.
#[export] Hint Extern 1 (_ <= _ < _) => lia : tos.

Lemma utf8_valid_ascii s : all_ascii s -> utf8_valid s = true.
Proof. induction 1 as [|b s Hb _ IH]; cbn; [done|]. by tests. Qed.

Lemma utf8_head_not_cont c s : utf8_valid (c :: s) = true -> is_cont c = false.
Proof.
  intros H. apply not_true_is_false. intros Hc. unfold is_cont in Hc. bools.
  cbn in H. repeat (hcase H; bools; try lia).
Qed.

Lemma utf8_tail_ascii b s :
  0 <= b < 128 -> utf8_valid (b :: s) = true -> utf8_valid s = true.
Proof.
  intros Hb H. cbn in H.
  by rewrite (proj2 (Z.leb_le 0 b)), (proj2 (Z.ltb_lt b 128)) in H by lia.
Qed.

(** Position 1 is a boundary after an ASCII first character. *)
Lemma ascii_boundary_1 b s : 0 <= b < 128 -> utf8_valid (b :: s) = true ->
  is_char_boundary (b :: s) 1 = true.
Proof.
  intros Hb H%utf8_tail_ascii; [|done]. unfold is_char_boundary.
  destruct s as [|c s]; [done|]. cbn [length]. tests. unfold nth_z.
  change (Z.to_nat 1) with 1%nat. cbn [lookup list_lookup].
  by rewrite (utf8_head_not_cont c s).
Qed.

(** What slicing after an ASCII character needs: no continuation byte follows
    one.  Unlike validity it holds of every piece of a valid string. *)
Definition ascii_safe (s : bytes) : Prop :=
  forall i b c, s !! i = Some b -> 0 <= b < 128 -> s !! S i = Some c -> is_cont c = false.

Lemma utf8_step s : utf8_valid s = true -> s <> [] ->
  exists p r, s = p ++ r /\ p <> [] /\ utf8_valid r = true /\
    ((exists b, p = [b]) \/ Forall (fun b => 128 <= b) p).
Proof.
  intros H Hn. destruct s as [|b0 s]; [done|]. cbn in H.
  hcase H; [exists [b0], s; naive_solver|].
  repeat hcase H; bools; unfold is_cont in *; bools;
  first [ by eexists [_; _], _; split_and!; [done..|right; repeat constructor; lia]
        | by eexists [_; _; _], _; split_and!; [done..|right; repeat constructor; lia]
        | by eexists [_; _; _; _], _; split_and!; [done..|right; repeat constructor; lia] ].
Qed.

Lemma utf8_ascii_safe s : utf8_valid s = true -> ascii_safe s.
Proof.
  induction s as [s IH] using (induction_ltof1 _ (@length Z)). unfold ltof in IH.
  intros H. destruct s as [|x s']; [by intros ???|].
  destruct (utf8_step (x :: s') H) as (p & r & E & Hp & Hr & Hcase); [done|].
  rewrite E in *. clear E.
  assert (Hsafe : ascii_safe r).
  { apply IH; [|done]. rewrite length_app. destruct p; [done|cbn; lia]. }
  intros i b c Hi Hb Hc. destruct (decide (i < length p)%nat) as [Hlt|Hge].
  - destruct Hcase as [[y ->]|Hall].
    + destruct i as [|i]; [|cbn in Hlt; lia]. cbn in Hc.
      destruct r as [|z r]; [done|]. cbn in Hc. injection Hc as <-.
      by apply utf8_head_not_cont in Hr.
    + rewrite lookup_app_l in Hi by done.
      rewrite Forall_lookup in Hall. specialize (Hall i b Hi). cbn in Hall. lia.
  - rewrite lookup_app_r in Hi, Hc by lia.
    replace (S i - length p)%nat with (S (i - length p)) in Hc by lia. eauto.
Qed.

Lemma ascii_safe_app_l a b : ascii_safe (a ++ b) -> ascii_safe a.
Proof.
  intros H i x y Hi Hx Hy.
  apply (H i x y); [by apply lookup_app_l_Some|done|by apply lookup_app_l_Some].
Qed.

Lemma ascii_safe_app_r a b : ascii_safe (a ++ b) -> ascii_safe b.
Proof.
  intros H i x y Hi Hx Hy. apply (H (length a + i)%nat x y); [| done|].
  - rewrite lookup_app_r by lia. by replace (_ + _ - _)%nat with i by lia.
  - rewrite lookup_app_r by lia. by replace (S _ - _)%nat with (S i) by lia.
Qed.

Lemma ascii_safe_boundary_1 b s : 0 <= b < 128 -> ascii_safe (b :: s) ->
  is_char_boundary (b :: s) 1 = true.
Proof.
  intros Hb H. unfold is_char_boundary.
  destruct s as [|c s]; [done|]. cbn [length]. tests. unfold nth_z.
  change (Z.to_nat 1) with 1%nat. cbn [lookup list_lookup].
  by rewrite (H 0%nat b c).
Qed.

(** ** Searching *)

Lemma str_eqb_eq a b : str_eqb a b = true <-> a = b.
Proof. apply bool_decide_eq_true. Qed.

Lemma str_eqb_refl a : str_eqb a a = true.
Proof. by apply str_eqb_eq. Qed.

Lemma position_some {A} (f : A -> bool) l i :
  position f l = Some i -> exists x, l !! i = Some x /\ f x = true.
Proof.
  revert i; induction l as [|x l IH]; intros i H; cbn in H; [done|].
  destruct (f x) eqn:E; [injection H as <-; by exists x|].
  destruct (position f l) as [j|]; [|done]. injection H as <-. cbn. by apply IH.
Qed.

Lemma position_none {A} (f : A -> bool) l :
  position f l = None <-> Forall (fun x => f x = false) l.
Proof.
  induction l as [|x l IH]; cbn; [by split|].
  rewrite Forall_cons, <- IH. destruct (f x) eqn:E; [naive_solver|].
  destruct (position f l); cbn; naive_solver.
Qed.

(** The first match. *)
Lemma position_lookup {A} (f : A -> bool) l i x :
  l !! i = Some x -> f x = true -> (forall j y, (j < i)%nat -> l !! j = Some y -> f y = false) ->
  position f l = Some i.
Proof.
  revert i; induction l as [|z l IH]; intros i Hi Hx Hj; [done|].
  destruct i as [|i]; cbn in *.
  - injection Hi as ->. by rewrite Hx.
  - rewrite (Hj 0%nat z) by (done || lia). rewrite (IH i); [done..|].
    intros j y Hlt Hy. apply (Hj (S j) y); [lia|done].
Qed.

(** ** Comparison functions

    What [Ord] promises: equality agrees with [=], the order is
    antisymmetric and transitive, on the values [wf] of the type. *)

Class OrdLaws {A} (wf : A -> Prop) (cmp : A -> A -> comparison) : Prop := {
  ord_eq a b : wf a -> wf b -> cmp a b = Eq <-> a = b;
  ord_antisym a b : wf a -> wf b -> cmp b a = CompOpp (cmp a b);
  ord_trans a b c o : wf a -> wf b -> wf c ->
    cmp a b = o -> cmp b c = o -> cmp a c = o
}.

#[global] Instance Z_ord_laws : OrdLaws (fun _ => True) Z.compare.
Proof.
  split.
  - intros a b _ _. apply Z.compare_eq_iff.
  - intros a b _ _. apply Z.compare_antisym.
  - intros a b c o _ _ _ H1 H2.
    destruct (Z.compare_spec a b), (Z.compare_spec b c), (Z.compare_spec a c);
      subst; try done; lia.
Qed.

(** An order read off a key that determines the value. *)
Lemma ord_laws_inj {A B} (wfA : A -> Prop) (wfB : B -> Prop) cmpA cmpB (f : A -> B)
    `{!OrdLaws wfB cmpB} :
  (forall a, wfA a -> wfB (f a)) ->
  (forall a b, wfA a -> wfA b -> f a = f b -> a = b) ->
  (forall a b, wfA a -> wfA b -> cmpA a b = cmpB (f a) (f b)) ->
  OrdLaws wfA cmpA.
Proof.
  intros Hwf Hinj Hcmp. split.
  - intros a b Ha Hb. rewrite Hcmp, (ord_eq (f a) (f b)) by auto.
    split; [by apply Hinj|by intros ->].
  - intros a b Ha Hb. rewrite !Hcmp by done. apply ord_antisym; auto.
  - intros a b c o Ha Hb Hc. rewrite !Hcmp by done. apply ord_trans; auto.
Qed.

(** [a.0.cmp(b.0).then(a.1.cmp(b.1))]. *)
Definition pair_cmp {A B} (ca : A -> A -> comparison) (cb : B -> B -> comparison)
    (p q : A * B) : comparison := cmp_then (ca p.1 q.1) (cb p.2 q.2).

#[global] Instance pair_ord_laws {A B} (wa : A -> Prop) (wb : B -> Prop) ca cb
    `{!OrdLaws wa ca, !OrdLaws wb cb} :
  OrdLaws (fun p => wa p.1 /\ wb p.2) (pair_cmp ca cb).
Proof.
  split.
  - intros [a b] [a' b'] [Ha Hb] [Ha' Hb']; cbn in *. unfold pair_cmp; cbn.
    destruct (ca a a') eqn:E; cbn.
    + apply (ord_eq (wf:=wa)) in E as ->; try done. rewrite (ord_eq (wf:=wb)) by done.
      split; congruence.
    + split; [done|]. intros [= -> ->].
      rewrite (proj2 (ord_eq (wf:=wa) a' a' Ha' Ha') eq_refl) in E; done.
    + split; [done|]. intros [= -> ->].
      rewrite (proj2 (ord_eq (wf:=wa) a' a' Ha' Ha') eq_refl) in E; done.
  - intros [a b] [a' b'] [Ha Hb] [Ha' Hb']; cbn in *. unfold pair_cmp; cbn.
    rewrite (ord_antisym (wf:=wa) (cmp:=ca) a a'), (ord_antisym (wf:=wb) (cmp:=cb) b b') by done.
    by destruct (ca a a').
  - intros [a b] [a' b'] [a'' b''] o [Ha Hb] [Ha' Hb'] [Ha'' Hb'']; cbn in *.
    unfold pair_cmp; cbn.
    destruct (ca a a') eqn:E, (ca a' a'') eqn:E'; cbn; intros Ho Ho'; subst; try done;
    repeat match goal with
    | H : ca _ _ = Eq |- _ => apply (ord_eq (wf:=wa)) in H; [subst|done..]
    end;
    rewrite ?E, ?E'; rewrite ?(proj2 (ord_eq (wf:=wa) _ _ Ha'' Ha'') eq_refl); cbn; try done.
    + by apply (ord_trans (wf:=wb) b b' b'').
    + by rewrite (ord_trans (wf:=wa) a a' a'' Lt).
    + by rewrite (ord_trans (wf:=wa) a a' a'' Gt).
Qed.

#[global] Instance lex_ord_laws : OrdLaws (fun _ => True) lex_cmp.
Proof.
  split.
  - intros a b _ _. revert b. induction a as [|x a IH]; intros [|y b]; cbn; try done.
    destruct (Z.compare_spec x y); cbn; [rewrite IH; clear IH; naive_solver|split; [done|]..];
      intros [= -> ->]; lia.
  - intros a b _ _. revert b. induction a as [|x a IH]; intros [|y b]; cbn; try done.
    rewrite (Z.compare_antisym x y), IH. by destruct (x ?= y).
  - intros a b c o _ _ _. revert b c. induction a as [|x a IH]; intros [|y b] [|z c];
      cbn; try (intros <-; done); try (intros ? <-; done).
    destruct (Z.compare_spec x y), (Z.compare_spec y z); cbn; intros Ho Ho'; subst; try done;
    repeat match goal with |- context [?u ?= ?v] =>
      destruct (Z.compare_spec u v); try lia end; cbn; try done.
    by apply (IH b c).
Qed.
