(* ===== verification/Types.v ===== *)
(** * The type system and the error type

    [tablestore/src/types.rs] (the column types, their names and their
    one-byte tags) and the error type of [tablestore/src/lib.rs]. *)

From S2P Require Import Prelude.

(** ** [StoreError] *)

Inductive StoreError :=
  | Io
  | Corrupt (what : bytes)
  | OutOfSpace
  | Parse (msg : bytes)
  | NullViolation (column : bytes)
  | UniqueViolation (column : bytes)
  | ForeignKeyViolation (fk : bytes)
  | SchemaRejected (why : bytes)
  | NotFound (what : bytes)
  | Duplicate (what : bytes).

#[global] Instance StoreError_eq_dec : EqDecision StoreError.
Proof. solve_decision. Defined.

Abbreviation Result := (outcome StoreError).

(** ** [Type] *)

Module Ty.

Inductive t :=
  | Integer
  | UnsignedInteger
  | Decimal
  | String
  | Date
  | DateTz
  | Time
  | DateTime
  | DateTimeTz.

#[global] Instance t_eq_dec : EqDecision t.
Proof. solve_decision. Defined.

(** [Type::ALL] *)
Definition ALL : list t :=
  [Integer; UnsignedInteger; Decimal; String; Date; DateTz; Time; DateTime; DateTimeTz].

Definition name (ty : t) : bytes :=
  match ty with
  | Integer => str "integer"
  | UnsignedInteger => str "unsigned integer"
  | Decimal => str "decimal"
  | String => str "string"
  | Date => str "date"
  | DateTz => str "date tz"
  | Time => str "time"
  | DateTime => str "date time"
  | DateTimeTz => str "date time tz"
  end.

Definition from_name (s : bytes) : option t :=
  List.find (fun ty => bool_decide (name ty = s)) ALL.

Definition tag (ty : t) : byte :=
  match ty with
  | Integer => 1
  | UnsignedInteger => 2
  | Decimal => 3
  | String => 4
  | Date => 5
  | DateTz => 6
  | Time => 7
  | DateTime => 8
  | DateTimeTz => 9
  end.

Definition from_tag (tag_byte : byte) : option t :=
  List.find (fun ty => tag ty =? tag_byte) ALL.

Definition input_hint (ty : t) : bytes :=
  match ty with
  | Integer => str "e.g. -1234567890123456789"
  | UnsignedInteger => str "e.g. 1234567890123456789"
  | Decimal => str "e.g. -3.14159265358979"
  | String => str "any UTF-8 text"
  | Date => str "YYYY-MM-DD (year may be signed)"
  | DateTz => str "YYYY-MM-DD+HH:MM"
  | Time => str "HH:MM:SS[.fraction]"
  | DateTime => str "YYYY-MM-DDTHH:MM:SS[.fraction]"
  | DateTimeTz => str "YYYY-MM-DDTHH:MM:SS[.fraction]+HH:MM"
  end.

(** [perr(msg)] *)
Definition perr (msg : bytes) : StoreError := Parse msg.

(** ** Lemmas *)

Lemma from_tag_tag ty : from_tag (tag ty) = Some ty.
Proof. by destruct ty. Qed.

Lemma from_name_name ty : from_name (name ty) = Some ty.
Proof. by destruct ty. Qed.

Lemma from_tag_some b ty : from_tag b = Some ty -> tag ty = b.
Proof. intros H%List.find_some. destruct H as [_ H]. by apply Z.eqb_eq. Qed.

Lemma from_name_some s ty : from_name s = Some ty -> name ty = s.
Proof. intros H%List.find_some. destruct H as [_ H]. by apply bool_decide_eq_true in H. Qed.

Lemma tag_is_byte ty : is_byte (tag ty).
Proof. destruct ty; cbv; split; congruence. Qed.

Lemma tag_inj ty ty' : tag ty = tag ty' -> ty = ty'.
Proof. by destruct ty, ty'. Qed.

End Ty.

#[global] Hint Resolve Ty.tag_is_byte : tos.
#[global] Hint Rewrite Ty.from_tag_tag Ty.from_name_name : tos.
