(* ===== verification/Bignum.v ===== *)
(** * Integers of unlimited magnitude

    [tablestore/src/bignum.rs]: [BigUint] is the decimal digits, most
    significant first; [BigInt] a sign and a magnitude. *)

From S2P Require Import Prelude.

(** ** Digit strings *)

(** [digits.iter().take_while(|d| **d == 0)] and the drain of that prefix. *)
Fixpoint drop_zeros (ds : list Z) : list Z :=
  match ds with
  | d :: ds' => if d =? 0 then drop_zeros ds' else ds
  | [] => []
  end.

(** [while v.last() == Some(&0) { v.pop(); }] *)
Definition pop_zeros (ds : list Z) : list Z := reverse (drop_zeros (reverse ds)).

(** The loops [for b in s.bytes() { if !b.is_ascii_digit() { return None; }
    digits.push(b - b'0'); }] *)
Fixpoint parse_digits (s : bytes) : option (list Z) :=
  match s with
  | [] => Some []
  | b :: s' =>
      if negb (is_ascii_digit b) then None
      else match parse_digits s' with
           | Some ds => Some (b - 48 :: ds)
           | None => None
           end
  end.

(** [for d in ds { s.push((b'0' + d) as char); }] *)
Definition show_digits (ds : list Z) : bytes := (fun d => 48 + d) <$> ds.

(** ** [BigUint] *)

Module BigUint.

Record t := mk { digits : list Z }.

#[global] Instance t_eq_dec : EqDecision t.
Proof. solve_decision. Defined.

Definition zero : t := mk [].

Definition is_zero (v : t) : bool := match digits v with [] => true | _ => false end.

Definition normalize (v : t) : t := mk (drop_zeros (digits v)).

Definition parse (s : bytes) : option t :=
  match s with
  | [] => None
  | _ => match parse_digits s with
         | Some ds => Some (normalize (mk ds))
         | None => None
         end
  end.

Definition from_digits (ds : list Z) : option t :=
  if existsb (fun d => 9 <? d) ds then None else Some (normalize (mk ds)).

Definition to_dec_string (v : t) : bytes :=
  if is_zero v then [48] else show_digits (digits v).

(** [r = (r * 10 + d) % m] from the first digit; the [u64] cannot overflow
    for a [u32] modulus. *)
Definition rem_u32 (v : t) (m : Z) : Z :=
  fold_left (fun r d => (r * 10 + d) mod m) (digits v) 0.

Definition digit_count (v : t) : nat := length (digits v).

(** The carry loop of [succ], [i] counting down to the digit to change. *)
Fixpoint succ_loop (i : nat) (ds : list Z) : list Z :=
  match i with
  | O => 1 :: ds
  | S i' =>
      match ds !! i' with
      | Some 9 => succ_loop i' (<[i' := 0]> ds)
      | Some d => <[i' := d + 1]> ds
      | None => ds
      end
  end.
Definition succ (v : t) : t :=
  normalize (mk (succ_loop (length (digits v)) (digits v))).

(** The borrow loop of [pred]. *)
Fixpoint pred_loop (i : nat) (ds : list Z) : list Z :=
  match i with
  | O => ds
  | S i' =>
      match ds !! i' with
      | Some 0 => pred_loop i' (<[i' := 9]> ds)
      | Some d => <[i' := d - 1]> ds
      | None => ds
      end
  end.
Definition pred (v : t) : t :=
  normalize (mk (pred_loop (length (digits v)) (digits v))).

(** [Ord for BigUint] *)
Definition cmp (a b : t) : comparison :=
  match len (digits a) ?= len (digits b) with
  | Eq => lex_cmp (digits a) (digits b)
  | ord => ord
  end.

End BigUint.

(** ** [BigInt] *)

Module BigInt.

Record t := mk { negative : bool; mag : BigUint.t }.

#[global] Instance t_eq_dec : EqDecision t.
Proof. solve_decision. Defined.

Definition zero : t := mk false BigUint.zero.

Definition from_parts (neg : bool) (m : BigUint.t) : t :=
  mk (neg && negb (BigUint.is_zero m)) m.

Definition is_negative (v : t) : bool := negative v.
Definition is_zero (v : t) : bool := BigUint.is_zero (mag v).
Definition magnitude (v : t) : BigUint.t := mag v.

(** The optional sign of a numeric field: the sign and the rest of the
    string, [&s[1..]] when there is one. *)
Definition split_sign (s : bytes) : outcome unit (bool * bytes) :=
  match s with
  | 45 :: _ => rest ← str_from s 1; mret (true, rest)    (* - *)
  | 43 :: _ => rest ← str_from s 1; mret (false, rest)   (* + *)
  | _ => mret (false, s)
  end.

Definition parse (s : bytes) : outcome unit t :=
  '(neg, rest) ← split_sign s;
  m ← ok_or tt (BigUint.parse rest);
  mret (from_parts neg m).

Definition to_dec_string (v : t) : bytes :=
  (if negative v then [45] else []) ++ BigUint.to_dec_string (mag v).

Definition succ (v : t) : t :=
  if negative v then from_parts true (BigUint.pred (mag v))
  else from_parts false (BigUint.succ (mag v)).

(** [Ord for BigInt] *)
Definition cmp (a b : t) : comparison :=
  match negative a, negative b with
  | false, true => Gt
  | true, false => Lt
  | false, false => BigUint.cmp (mag a) (mag b)
  | true, true => BigUint.cmp (mag b) (mag a)
  end.

End BigInt.

(** ** The value of a digit string *)

Fixpoint dval (ds : list Z) : Z :=
  match ds with
  | [] => 0
  | d :: ds' => d * 10 ^ len ds' + dval ds'
  end.

Definition is_digit (d : Z) : Prop := 0 <= d <= 9.
Abbreviation is_digits := (Forall is_digit).

(** No leading zero. *)
Definition canonical (ds : list Z) : Prop := is_digits ds /\ head ds <> Some 0.

Lemma pow10_pos n : 0 <= n -> 0 < 10 ^ n.
Proof. intros; apply Z.pow_pos_nonneg; lia. Qed.

Lemma pow10_S (n : nat) : 10 ^ Z.of_nat (S n) = 10 * 10 ^ Z.of_nat n.
Proof. rewrite Nat2Z.inj_succ, Z.pow_succ_r; lia. Qed.

Lemma dval_app a b : dval (a ++ b) = dval a * 10 ^ len b + dval b.
Proof.
  induction a as [|d a IH]; [cbn; lia|].
  cbn [app dval]. rewrite IH, length_app, Nat2Z.inj_add, Z.pow_add_r by lia. lia.
Qed.

Lemma dval_bound ds : is_digits ds -> 0 <= dval ds < 10 ^ len ds.
Proof.
  induction 1 as [|d ds Hd _ IH]; [cbn; lia|].
  cbn [dval length]. rewrite pow10_S. unfold is_digit in Hd. nia.
Qed.

Lemma dval_drop_zeros ds : dval (drop_zeros ds) = dval ds.
Proof.
  induction ds as [|d ds IH]; cbn [drop_zeros]; [done|].
  destruct (Z.eqb_spec d 0) as [->|]; [by rewrite IH|done].
Qed.

Lemma drop_zeros_digits ds : is_digits ds -> is_digits (drop_zeros ds).
Proof. induction 1 as [|d ds Hd H IH]; cbn; [done|]. gcase; [done|by constructor]. Qed.

Lemma drop_zeros_head ds : head (drop_zeros ds) <> Some 0.
Proof.
  induction ds as [|d ds IH]; cbn; [done|]. gcase; [done|]. bools. cbn. congruence.
Qed.

Lemma drop_zeros_canonical ds : is_digits ds -> canonical (drop_zeros ds).
Proof. split; [by apply drop_zeros_digits|apply drop_zeros_head]. Qed.

Lemma drop_zeros_id ds : head ds <> Some 0 -> drop_zeros ds = ds.
Proof. destruct ds as [|d ds]; cbn; [done|]. intros H. gcase; bools; congruence. Qed.

Lemma canonical_lower ds :
  canonical ds -> ds <> [] -> 10 ^ (len ds - 1) <= dval ds.
Proof.
  intros [Hd Hh] Hn. destruct ds as [|d ds]; [done|]. clear Hn.
  apply Forall_cons in Hd as [Hd Hds]. pose proof (dval_bound ds Hds).
  cbn [dval length]. replace (Z.of_nat (S (length ds)) - 1) with (len ds) by lia.
  pose proof (pow10_pos (len ds)). unfold is_digit in Hd. cbn in Hh.
  assert (d <> 0) by congruence. nia.
Qed.

Lemma lex_cmp_dval a b :
  is_digits a -> is_digits b -> length a = length b ->
  lex_cmp a b = (dval a ?= dval b).
Proof.
  intros Ha. revert b. induction Ha as [|x a Hx Ha IH]; intros [|y b] Hb Hl;
    cbn in Hl; try done.
  apply Forall_cons in Hb as [Hy Hb]. injection Hl as Hl.
  cbn [lex_cmp dval]. rewrite (IH b) by done. rewrite Hl.
  pose proof (dval_bound a Ha). pose proof (dval_bound b Hb).
  pose proof (pow10_pos (len b)). rewrite Hl in *.
  destruct (Z.compare_spec x y); cbn [cmp_then]; subst.
  - destruct (Z.compare_spec (dval a) (dval b)); symmetry;
      [apply Z.compare_eq_iff|apply Z.compare_lt_iff|apply Z.compare_gt_iff]; lia.
  - symmetry. apply Z.compare_lt_iff. nia.
  - symmetry. apply Z.compare_gt_iff. nia.
Qed.

(** ** Parsing and printing digits *)

Lemma show_digits_length ds : length (show_digits ds) = length ds.
Proof. apply length_fmap. Qed.

Lemma show_digits_cons d ds : show_digits (d :: ds) = 48 + d :: show_digits ds.
Proof. done. Qed.

Lemma show_digits_app a b : show_digits (a ++ b) = show_digits a ++ show_digits b.
Proof. apply fmap_app. Qed.

Lemma parse_show_digits ds : is_digits ds -> parse_digits (show_digits ds) = Some ds.
Proof.
  induction 1 as [|d ds Hd _ IH]; [done|].
  rewrite show_digits_cons. cbn [parse_digits]. unfold is_digit in Hd.
  unfold is_ascii_digit. tests. rewrite IH. do 2 f_equal. lia.
Qed.

Lemma parse_digits_some s ds :
  parse_digits s = Some ds -> s = show_digits ds /\ is_digits ds.
Proof.
  revert ds; induction s as [|b s IH]; intros ds H; cbn in H.
  - injection H as <-. by split.
  - hcase H. unfold is_ascii_digit in E. hcase H. injection H as <-. bools.
    destruct (IH l eq_refl) as [-> ?]. split.
    + cbn. f_equal. lia.
    + constructor; [unfold is_digit; lia|done].
Qed.

Lemma show_digits_ascii ds : is_digits ds -> all_ascii (show_digits ds).
Proof.
  intros H. apply Forall_fmap. eapply Forall_impl; [exact H|].
  unfold is_digit; cbn; lia.
Qed.

#[export] Hint Resolve show_digits_ascii : tos.

(** A digit string holds none of the separators. *)
Lemma show_digits_not_elem c ds :
  is_digits ds -> (c < 48 \/ 57 < c) -> c ∉ show_digits ds.
Proof.
  intros H Hc (d & -> & Hd)%list_elem_of_fmap.
  rewrite Forall_forall in H. specialize (H d Hd). unfold is_digit in H. lia.
Qed.

(** ** [BigUint]: canonical form, value, order *)

Module BigUintFacts.
Import BigUint.

Definition wf (v : t) : Prop := canonical (digits v).
Definition value (v : t) : Z := dval (digits v).

Lemma zero_wf : wf zero.
Proof. split; [constructor|done]. Qed.

Lemma value_nonneg v : wf v -> 0 <= value v.
Proof. intros [H _]. by apply dval_bound. Qed.

Lemma is_zero_value v : wf v -> is_zero v = true <-> value v = 0.
Proof.
  intros H. unfold is_zero, value. destruct (digits v) as [|d ds] eqn:E; [done|].
  split; [done|]. intros Hv.
  pose proof (canonical_lower (d :: ds)) as Hl. unfold wf in H. rewrite E in H.
  specialize (Hl H ltac:(done)). pose proof (pow10_pos (len (d :: ds) - 1)).
  cbn [length] in *. lia.
Qed.

Lemma normalize_wf ds : is_digits ds -> wf (normalize (mk ds)).
Proof. apply drop_zeros_canonical. Qed.

Lemma normalize_value ds : value (normalize (mk ds)) = dval ds.
Proof. apply dval_drop_zeros. Qed.

Lemma parse_some s v :
  parse s = Some v ->
  wf v /\ exists ds, s = show_digits ds /\ is_digits ds /\ ds <> [] /\ value v = dval ds.
Proof.
  unfold parse. intros H. destruct s as [|b s]; [done|].
  destruct (parse_digits (b :: s)) as [ds|] eqn:E; [|done]. injection H as <-.
  apply parse_digits_some in E as [E Hds]. split; [by apply normalize_wf|].
  exists ds. rewrite normalize_value. repeat split; try done. by intros ->.
Qed.

Lemma parse_show ds : is_digits ds -> ds <> [] ->
  parse (show_digits ds) = Some (normalize (mk ds)).
Proof.
  intros H Hn. unfold parse. rewrite parse_show_digits by done.
  by destruct ds.
Qed.

Lemma biguint_parse_to_dec_string v : wf v -> parse (to_dec_string v) = Some v.
Proof.
  intros [Hd Hh]. unfold to_dec_string, is_zero. destruct v as [ds]; cbn in *.
  destruct ds as [|d ds]; [done|]. rewrite parse_show by done.
  unfold normalize. by rewrite drop_zeros_id.
Qed.

Lemma to_dec_string_digits v : wf v ->
  exists ds, to_dec_string v = show_digits ds /\ is_digits ds /\ ds <> [].
Proof.
  intros [Hd _]. unfold to_dec_string, is_zero.
  destruct (digits v) as [|d ds] eqn:E.
  - exists [0]. split; [done|]. split; [|done]. repeat constructor; lia.
  - by exists (d :: ds).
Qed.

(** The comparison of the code is the comparison of the numbers. *)
Lemma biguint_cmp_value a b : wf a -> wf b -> cmp a b = (value a ?= value b).
Proof.
  intros Ha Hb. unfold cmp, value.
  assert (Hlow : forall x y, canonical x -> canonical y -> len x < len y -> dval x < dval y).
  { intros x y [Hx _] Hy Hl. pose proof (dval_bound x Hx).
    pose proof (canonical_lower y Hy ltac:(intros ->; cbn in Hl; lia)).
    assert (10 ^ len x <= 10 ^ (len y - 1)) by (apply Z.pow_le_mono_r; lia). lia. }
  destruct (Z.compare_spec (len (digits a)) (len (digits b))) as [El|El|El].
  - apply lex_cmp_dval; [apply Ha|apply Hb|lia].
  - symmetry. apply Z.compare_lt_iff. by apply Hlow.
  - symmetry. apply Z.compare_gt_iff. by apply Hlow.
Qed.

Lemma biguint_value_inj a b : wf a -> wf b -> value a = value b -> a = b.
Proof.
  intros Ha Hb Hv. pose proof (biguint_cmp_value a b Ha Hb) as Hc.
  rewrite Hv, Z.compare_refl in Hc. unfold cmp in Hc.
  destruct (_ ?= _) in Hc; try done.
  apply (ord_eq (wf:=fun _ => True) (cmp:=lex_cmp)) in Hc; [|done..].
  destruct a, b; cbn in Hc; by subst.
Qed.

#[global] Instance cmp_ord_laws : OrdLaws wf cmp.
Proof.
  apply (ord_laws_inj wf (fun _ => True) cmp Z.compare value); [done| |].
  - apply biguint_value_inj.
  - apply biguint_cmp_value.
Qed.

(** ** Arithmetic *)

Lemma rem_u32_value v m : 0 < m -> rem_u32 v m = value v mod m.
Proof.
  intros Hm. unfold rem_u32, value.
  enough (H : forall ds r, 0 <= r < m ->
    fold_left (fun r d => (r * 10 + d) mod m) ds r = (r * 10 ^ len ds + dval ds) mod m)
    by (rewrite H by lia; f_equal; lia).
  intros ds; induction ds as [|d ds IH]; intros r Hr.
  - cbn. rewrite Z.mul_1_r, Z.add_0_r. symmetry. by apply Z.mod_small.
  - cbn [fold_left dval]. rewrite IH by (apply Z.mod_pos_bound; lia).
    rewrite <- (Z.add_mod_idemp_l ((_ mod _) * _)) by lia.
    rewrite Z.mul_mod_idemp_l, Z.add_mod_idemp_l by lia.
    f_equal. cbn [length]. rewrite pow10_S. lia.
Qed.

Lemma succ_loop_spec p : forall q,
  is_digits p -> is_digits q ->
  dval (succ_loop (length p) (p ++ q)) = dval (p ++ q) + 10 ^ len q /\
  is_digits (succ_loop (length p) (p ++ q)).
Proof.
  induction p as [|d p IH] using rev_ind; intros q Hp Hq.
  - cbn. split; [lia|]. constructor; [done|done].
  - apply Forall_app in Hp as [Hp [Hd _]%Forall_cons].
    rewrite length_app. cbn [length]. rewrite Nat.add_1_r. cbn [succ_loop].
    rewrite <- app_assoc. cbn [app].
    rewrite lookup_app_r, Nat.sub_diag by lia. cbn [lookup list_lookup].
    rewrite !insert_app_r_alt, !Nat.sub_diag by lia.
    cbn [insert list_insert]. unfold is_digit in Hd.
    destruct (decide (d = 9)) as [->|Hd9].
    + destruct (IH (0 :: q)) as [Hv Hds]; [done|by constructor|].
      rewrite Hv. split; [|done]. rewrite !dval_app. cbn [dval length].
      rewrite !pow10_S. lia.
    + assert (Hm : forall (A : Type) (x y : A),
        match d with 9 => x | _ => y end = y).
      { intros. destruct d as [|p0|p0]; try done; do 4 (destruct p0 as [p0|p0|]; try done). }
      rewrite Hm. split.
      * rewrite !dval_app. cbn [dval length]. lia.
      * apply Forall_app; split; [done|]. constructor; [unfold is_digit; lia|done].
Qed.

Lemma pred_loop_spec p : forall q,
  is_digits p -> is_digits q -> 0 < dval p ->
  dval (pred_loop (length p) (p ++ q)) = dval (p ++ q) - 10 ^ len q /\
  is_digits (pred_loop (length p) (p ++ q)).
Proof.
  induction p as [|d p IH] using rev_ind; intros q Hp Hq H0; [by cbn in H0|].
  apply Forall_app in Hp as [Hp [Hd _]%Forall_cons].
  rewrite length_app. cbn [length]. rewrite Nat.add_1_r. cbn [pred_loop].
  rewrite <- app_assoc. cbn [app].
  rewrite lookup_app_r, Nat.sub_diag by lia. cbn [lookup list_lookup].
  rewrite !insert_app_r_alt, !Nat.sub_diag by lia.
  cbn [insert list_insert]. unfold is_digit in Hd. rewrite dval_app in H0. cbn in H0.
  destruct (decide (d = 0)) as [->|Hd0].
  - destruct (IH (9 :: q)) as [Hv Hds]; [done|by constructor|lia|].
    rewrite Hv. split; [|done]. rewrite !dval_app. cbn [dval length].
    rewrite !pow10_S. lia.
  - assert (Hm : forall (A : Type) (x y : A),
      match d with 0 => x | _ => y end = y) by (intros; by destruct d).
    rewrite Hm. split.
    + rewrite !dval_app. cbn [dval length]. lia.
    + apply Forall_app; split; [done|]. constructor; [unfold is_digit; lia|done].
Qed.

Lemma biguint_succ_value v : wf v -> wf (succ v) /\ value (succ v) = value v + 1.
Proof.
  intros [Hd _]. unfold succ.
  pose proof (succ_loop_spec (digits v) [] Hd ltac:(constructor)) as [Hv Hds].
  rewrite app_nil_r in *. split; [by apply normalize_wf|].
  rewrite normalize_value, Hv. done.
Qed.

Lemma pred_value v : wf v -> wf (pred v) /\ value (pred v) = Z.max 0 (value v - 1).
Proof.
  intros Hwf. unfold pred. destruct (decide (value v = 0)) as [H0|H0].
  - apply is_zero_value in H0; [|done]. destruct v as [[|]]; [|done]. done.
  - pose proof (value_nonneg v Hwf). unfold value in *.
    pose proof (pred_loop_spec (digits v) [] ltac:(apply Hwf) ltac:(constructor) ltac:(lia))
      as [Hv Hds].
    rewrite app_nil_r in *. split; [by apply normalize_wf|].
    change (dval (digits (normalize ?x))) with (value (normalize x)).
    rewrite normalize_value, Hv. cbn. lia.
Qed.

End BigUintFacts.

(** ** [BigInt]: canonical form, value, order *)

Module BigIntFacts.
Import BigInt.

Definition wf (v : t) : Prop :=
  BigUintFacts.wf (mag v) /\ (negative v = true -> BigUintFacts.value (mag v) <> 0).
Definition value (v : t) : Z :=
  if negative v then - BigUintFacts.value (mag v) else BigUintFacts.value (mag v).

Lemma from_parts_spec neg m :
  BigUintFacts.wf m ->
  wf (from_parts neg m) /\
  value (from_parts neg m) = (if neg then - BigUintFacts.value m else BigUintFacts.value m).
Proof.
  intros Hm. unfold wf, value, from_parts; cbn.
  pose proof (BigUintFacts.is_zero_value m Hm) as Hz.
  destruct neg, (BigUint.is_zero m); cbn; (split; [split; [done|]|]); try done.
  - rewrite (proj1 Hz) by done. done.
  - intros _ H0. apply Hz in H0. done.
Qed.

Lemma from_parts_id v : wf v -> from_parts (negative v) (mag v) = v.
Proof.
  intros [Hm Hn]. destruct v as [neg m]; cbn in *. unfold from_parts. f_equal.
  destruct neg; [cbn|done]. apply negb_true_iff, not_true_is_false. intros Hz.
  apply BigUintFacts.is_zero_value in Hz; [|done]. by apply Hn.
Qed.

(** [split_sign] on an ASCII digit, and after a sign. *)
Lemma split_sign_none b s : b <> 45 -> b <> 43 -> split_sign (b :: s) = Val (false, b :: s).
Proof.
  intros H1 H2. unfold split_sign.
  destruct b as [|p|p]; try done; do 6 (destruct p as [p|p|]; try done).
Qed.

Lemma split_sign_minus s : utf8_valid (45 :: s) = true -> split_sign (45 :: s) = Val (true, s).
Proof. intros H. unfold split_sign, str_from. by rewrite ascii_boundary_1. Qed.

Lemma split_sign_plus s : utf8_valid (43 :: s) = true -> split_sign (43 :: s) = Val (false, s).
Proof. intros H. unfold split_sign, str_from. by rewrite ascii_boundary_1. Qed.

(** On (pieces of) UTF-8 text the slice never aborts. *)
Lemma split_sign_total s : ascii_safe s -> exists p, split_sign s = Val p.
Proof.
  intros H. destruct s as [|b s]; [by eexists|].
  destruct (decide (b = 45)) as [->|].
  { eexists. unfold split_sign, str_from. by rewrite ascii_safe_boundary_1. }
  destruct (decide (b = 43)) as [->|].
  { eexists. unfold split_sign, str_from. by rewrite ascii_safe_boundary_1. }
  eexists. by apply split_sign_none.
Qed.

Lemma bigint_parse_total s : ascii_safe s -> no_abort (parse s).
Proof.
  intros H. unfold parse. destruct (split_sign_total s H) as [[neg rest] ->].
  cbn [mbind outcome_bind]. no_abort.
Qed.

Lemma split_sign_val s neg rest :
  split_sign s = Val (neg, rest) ->
  s = rest /\ neg = false \/ s = 45 :: rest /\ neg = true \/ s = 43 :: rest /\ neg = false.
Proof.
  intros H. destruct s as [|b s]; [cbn in H; injection H as <- <-; auto|].
  destruct (decide (b = 45)) as [->|].
  { cbn in H. unfold str_from in H. hcase H. cbn in H. injection H as <- <-. auto. }
  destruct (decide (b = 43)) as [->|].
  { cbn in H. unfold str_from in H. hcase H. cbn in H. injection H as <- <-. auto. }
  rewrite split_sign_none in H by done. injection H as <- <-. auto.
Qed.

Lemma parse_val s v :
  parse s = Val v ->
  wf v /\ exists neg ds, is_digits ds /\ ds <> [] /\
    (s = show_digits ds /\ neg = false \/ s = 45 :: show_digits ds /\ neg = true \/
     s = 43 :: show_digits ds /\ neg = false) /\
    value v = if neg : bool then - dval ds else dval ds.
Proof.
  unfold parse. intros H. obind H. destruct a as [neg rest].
  obind H. apply ok_or_val in E0. injection H as <-.
  apply BigUintFacts.parse_some in E0 as (Hwf & ds & -> & Hds & Hn & Hv).
  destruct (from_parts_spec neg a Hwf) as [Hw Hval]. split; [done|].
  exists neg, ds. rewrite Hval, Hv. apply split_sign_val in E. naive_solver.
Qed.

Lemma show_digits_utf8 c ds : 0 <= c < 128 -> is_digits ds -> utf8_valid (c :: show_digits ds) = true.
Proof. intros. apply utf8_valid_ascii. constructor; [done|by apply show_digits_ascii]. Qed.

Lemma split_sign_show neg ds : is_digits ds -> ds <> [] ->
  split_sign ((if neg : bool then [45] else []) ++ show_digits ds) = Val (neg, show_digits ds).
Proof.
  intros Hds Hn. destruct neg; cbn [app].
  - apply split_sign_minus, show_digits_utf8; [lia|done].
  - destruct ds as [|d ds]; [done|]. apply Forall_cons in Hds as [Hd _].
    unfold is_digit in Hd. rewrite show_digits_cons. apply split_sign_none; lia.
Qed.

Lemma bigint_parse_to_dec_string v : wf v -> parse (to_dec_string v) = Val v.
Proof.
  intros Hwf. pose proof Hwf as [Hm _]. unfold parse, to_dec_string.
  destruct (BigUintFacts.to_dec_string_digits _ Hm) as (ds & Hs & Hds & Hn).
  rewrite Hs, split_sign_show by done. cbn. rewrite <- Hs.
  rewrite BigUintFacts.biguint_parse_to_dec_string by done. cbn.
  by rewrite from_parts_id.
Qed.

Lemma value_neg v : wf v -> negative v = true -> value v < 0.
Proof.
  intros [Hm Hn] E. unfold value. rewrite E. specialize (Hn E).
  pose proof (BigUintFacts.value_nonneg _ Hm). lia.
Qed.

Lemma value_pos v : wf v -> negative v = false -> 0 <= value v.
Proof.
  intros [Hm Hn] E. unfold value. rewrite E. by apply BigUintFacts.value_nonneg.
Qed.

Lemma bigint_cmp_value a b : wf a -> wf b -> cmp a b = (value a ?= value b).
Proof.
  intros Ha Hb. unfold cmp.
  destruct (negative a) eqn:Na, (negative b) eqn:Nb.
  - rewrite BigUintFacts.biguint_cmp_value by (apply Ha || apply Hb).
    unfold value. rewrite Na, Nb. rewrite Z.compare_opp. f_equal; lia.
  - pose proof (value_neg a Ha Na). pose proof (value_pos b Hb Nb).
    symmetry. apply Z.compare_lt_iff. lia.
  - pose proof (value_pos a Ha Na). pose proof (value_neg b Hb Nb).
    symmetry. apply Z.compare_gt_iff. lia.
  - rewrite BigUintFacts.biguint_cmp_value by (apply Ha || apply Hb).
    unfold value. by rewrite Na, Nb.
Qed.

Lemma bigint_value_inj a b : wf a -> wf b -> value a = value b -> a = b.
Proof.
  intros Ha Hb Hv.
  destruct (negative a) eqn:Na, (negative b) eqn:Nb;
  repeat match goal with
  | H : negative ?x = true |- _ => pose proof (value_neg x ltac:(done) H); revert H
  | H : negative ?x = false |- _ => pose proof (value_pos x ltac:(done) H); revert H
  end; intros Nb Na; try lia; unfold value in Hv; rewrite Na, Nb in Hv;
  destruct a as [na ma], b as [nb mb]; cbn in *; subst; f_equal;
  (apply BigUintFacts.biguint_value_inj; [apply Ha|apply Hb|lia]).
Qed.

#[global] Instance cmp_ord_laws : OrdLaws wf cmp.
Proof.
  apply (ord_laws_inj wf (fun _ => True) cmp Z.compare value); [done| |].
  - apply bigint_value_inj.
  - apply bigint_cmp_value.
Qed.

Lemma bigint_succ_value v : wf v -> wf (succ v) /\ value (succ v) = value v + 1.
Proof.
  intros Hwf. pose proof Hwf as [Hm Hn]. unfold succ.
  destruct (negative v) eqn:N.
  - destruct (BigUintFacts.pred_value _ Hm) as [Hp Hpv].
    destruct (from_parts_spec true _ Hp) as [Hw Hv]. split; [done|].
    rewrite Hv, Hpv. unfold value. rewrite N.
    pose proof (BigUintFacts.value_nonneg _ Hm). specialize (Hn eq_refl). lia.
  - destruct (BigUintFacts.biguint_succ_value _ Hm) as [Hp Hpv].
    destruct (from_parts_spec false _ Hp) as [Hw Hv]. split; [done|].
    rewrite Hv, Hpv. unfold value. by rewrite N.
Qed.

End BigIntFacts.

(** ** Machine integers as text *)

(** The digits of a number, as printed. *)
Lemma fmt_digits_spec fuel n ds : 0 <= n < 10 ^ Z.of_nat fuel -> is_digits ds -> n <> 0 \/ (0 < fuel)%nat ->
  exists es, fmt_digits fuel n (show_digits ds) = show_digits (es ++ ds) /\ is_digits es /\ dval es = n /\ es <> [].
Proof.
  revert n ds. induction fuel as [|fuel IH]; intros n ds Hn Hds H0.
  { cbn in Hn. exists []. destruct H0; [lia|lia]. }
  cbn [fmt_digits]. change (48 + n mod 10 :: show_digits ds) with (show_digits (n mod 10 :: ds)).
  assert (Hd : is_digit (n mod 10)) by (unfold is_digit; lia).
  destruct (Z.eqb_spec (n / 10) 0) as [E|E].
  - exists [n mod 10]. split_and!; [done|by constructor| |done]. cbn. lia.
  - destruct (IH (n / 10) (n mod 10 :: ds)) as (es & Ee & He & Hv & Hne); [|by constructor|by left|].
    { rewrite Nat2Z.inj_succ, Z.pow_succ_r in Hn by lia. lia. }
    exists (es ++ [n mod 10]). rewrite <- app_assoc. split_and!; [done| | |by destruct es].
    + apply Forall_app. split; [done|by constructor].
    + rewrite dval_app, Hv. cbn. lia.
Qed.

Lemma fmt_u64_digits n : 0 <= n < 2 ^ 64 ->
  exists ds, fmt_u64 n = show_digits ds /\ is_digits ds /\ ds <> [] /\ dval ds = n.
Proof.
  intros H. destruct (fmt_digits_spec 20 n [] ltac:(lia) ltac:(constructor) ltac:(right; lia)) as (es & E & ? & ? & ?).
  exists es. unfold fmt_u64. change (@nil Z) with (show_digits []) at 1. rewrite E, app_nil_r. by split_and!.
Qed.

(** Different numbers print differently. *)
Lemma fmt_u64_inj n k : 0 <= n < 2 ^ 64 -> 0 <= k < 2 ^ 64 -> fmt_u64 n = fmt_u64 k -> n = k.
Proof.
  intros Hn Hk E. destruct (fmt_u64_digits n Hn) as (ds & E1 & _ & _ & <-).
  destruct (fmt_u64_digits k Hk) as (es & E2 & _ & _ & <-). rewrite E1, E2 in E. f_equal.
  eapply list_fmap_eq_inj; [|exact E]. cbn. intros x y ?. lia.
Qed.
