(* ===== verification/Value.v ===== *)
(** * Typed values

    [tablestore/src/value.rs]: decimals, dates, times of day, zone offsets
    and the [Value] enum, with their parsers, their canonical text and their
    orders. *)

From S2P Require Import Prelude Types Bignum.

(** ** Fixed-width fields *)

(** [parse_fixed(s, width)] *)
Definition parse_fixed (s : bytes) (width : nat) : option Z :=
  if negb (Nat.eqb (length s) width) || negb (forallb is_ascii_digit s) then None
  else Some (fold_left (fun v b => v * 10 + (b - 48)) s 0).

(** [push2(s, v)]: the bytes it appends. *)
Definition push2 (v : Z) : bytes := [48 + v / 10; 48 + v mod 10].

(** [cmp_frac]: position by position, the missing digits read as 0; the loop
    runs over the indices [0..max(a.len(), b.len())]. *)
Fixpoint cmp_frac_loop (idx : list nat) (a b : list Z) : comparison :=
  match idx with
  | [] => Eq
  | i :: idx' =>
      match default 0 (a !! i) ?= default 0 (b !! i) with
      | Eq => cmp_frac_loop idx' a b
      | ord => ord
      end
  end.
Definition cmp_frac (a b : list Z) : comparison :=
  cmp_frac_loop (seq 0 (Nat.max (length a) (length b))) a b.

(** ** [Decimal] *)

Module Decimal.

Record t := mk { negative : bool; int : BigUint.t; frac : list Z }.

#[global] Instance t_eq_dec : EqDecision t.
Proof. solve_decision. Defined.

Definition canonical (neg : bool) (i : BigUint.t) (f : list Z) : t :=
  let f := pop_zeros f in
  mk (neg && negb (BigUint.is_zero i && match f with [] => true | _ => false end)) i f.

Definition parse (s : bytes) : outcome unit t :=
  '(neg, rest) ← BigInt.split_sign s;
  match rest with
  | [] => Fail tt
  | _ =>
    let '(int_part, frac_part) :=
      match split_once 46 rest with Some p => p | None => (rest, []) end in
    match int_part, frac_part with
    | [], [] => Fail tt
    | _, _ =>
      i ← match int_part with
          | [] => mret BigUint.zero
          | _ => ok_or tt (BigUint.parse int_part)
          end;
      f ← ok_or tt (parse_digits frac_part);
      mret (canonical neg i f)
    end
  end.

Definition display (d : t) : bytes :=
  (if negative d then [45] else []) ++ BigUint.to_dec_string (int d) ++
  match frac d with [] => [] | f => 46 :: show_digits f end.

(** [Ord for Decimal] *)
Definition cmp (a b : t) : comparison :=
  match negative a, negative b with
  | false, true => Gt
  | true, false => Lt
  | _, _ =>
      let mag := cmp_then (BigUint.cmp (int a) (int b)) (cmp_frac (frac a) (frac b)) in
      if negative a then CompOpp mag else mag
  end.

End Decimal.

(** ** [Date] *)

Module Date.

Record t := mk { year : BigInt.t; month : Z; day : Z }.

#[global] Instance t_eq_dec : EqDecision t.
Proof. solve_decision. Defined.

Definition is_leap (y : BigInt.t) : bool :=
  let y := BigInt.magnitude y in
  (BigUint.rem_u32 y 4 =? 0) &&
  (negb (BigUint.rem_u32 y 100 =? 0) || (BigUint.rem_u32 y 400 =? 0)).

Definition days_in_month (y : BigInt.t) (m : Z) : Z :=
  match m with
  | 1 | 3 | 5 | 7 | 8 | 10 | 12 => 31
  | 4 | 6 | 9 | 11 => 30
  | 2 => if is_leap y then 29 else 28
  | _ => 0
  end.

Definition parse (s : bytes) : outcome unit t :=
  let neg := starts_with 45 s in
  body ← (if neg then str_from s 1 else mret s);
  match rsplitn 3 45 body with
  | dd :: mm :: yy :: _ =>
      match yy with
      | [] => Fail tt
      | _ =>
        m ← ok_or tt (BigUint.parse yy);
        let y := BigInt.from_parts neg m in
        mo ← ok_or tt (parse_fixed mm 2);
        da ← ok_or tt (parse_fixed dd 2);
        let mo := as_u8 mo in
        let da := as_u8 da in
        if (mo <? 1) || (12 <? mo) then Fail tt
        else if (da <? 1) || (days_in_month y mo <? da) then Fail tt
        else mret (mk y mo da)
      end
  | _ => Fail tt
  end.

Definition display (d : t) : bytes :=
  let yd := BigUint.to_dec_string (BigInt.magnitude (year d)) in
  (if BigInt.is_negative (year d) then [45] else []) ++
  replicate (4 - length yd) 48 ++ yd ++ [45] ++ push2 (month d) ++ [45] ++ push2 (day d).

(** [Ord for Date] *)
Definition cmp (a b : t) : comparison :=
  cmp_then (cmp_then (BigInt.cmp (year a) (year b)) (month a ?= month b)) (day a ?= day b).

End Date.

(** ** [TimeOfDay] *)

Module TimeOfDay.

Record t := mk { secs : Z; frac : list Z }.

#[global] Instance t_eq_dec : EqDecision t.
Proof. solve_decision. Defined.

Definition parse (s : bytes) : outcome unit t :=
  let '(hms, frac_str) :=
    match split_once 46 s with Some (h, f) => (h, Some f) | None => (s, None) end in
  let it := split 58 hms in
  h ← ok_or tt (it !! 0%nat ≫= λ x, parse_fixed x 2);
  m ← ok_or tt (it !! 1%nat ≫= λ x, parse_fixed x 2);
  sec ← ok_or tt (it !! 2%nat ≫= λ x, parse_fixed x 2);
  if bool_decide (is_Some (it !! 3%nat)) || (23 <? h) || (59 <? m) || (59 <? sec) then Fail tt
  else
    f ← match frac_str with
        | Some [] => Fail tt
        | Some f => ds ← ok_or tt (parse_digits f); mret (pop_zeros ds)
        | None => mret []
        end;
    mret (mk (h * 3600 + m * 60 + sec) f).

Definition display (t : t) : bytes :=
  push2 (as_u8 (secs t / 3600)) ++ [58] ++
  push2 (as_u8 ((secs t mod 3600) / 60)) ++ [58] ++
  push2 (as_u8 (secs t mod 60)) ++
  match frac t with [] => [] | f => 46 :: show_digits f end.

(** [Ord for TimeOfDay] *)
Definition cmp (a b : t) : comparison :=
  cmp_then (secs a ?= secs b) (cmp_frac (frac a) (frac b)).

End TimeOfDay.

(** ** Zone offsets, in minutes *)

Definition parse_offset (s : bytes) : outcome unit Z :=
  if bool_decide (s = [90]) || bool_decide (s = [122]) then mret 0
  else
    neg ← match s with
          | 43 :: _ => mret false
          | 45 :: _ => mret true
          | _ => Fail tt
          end;
    body ← str_from s 1;
    '(hh, mm) ← ok_or tt (split_once 58 body);
    h ← ok_or tt (parse_fixed hh 2);
    m ← ok_or tt (parse_fixed mm 2);
    if (23 <? h) || (59 <? m) then Fail tt
    else let total := h * 60 + m in mret (if neg : bool then - total else total).

(** [display_offset(off, out)]: the bytes it appends. *)
Definition display_offset (off : Z) : bytes :=
  let '(sign, a) := if off <? 0 then (45, - off) else (43, off) in
  sign :: push2 (as_u8 (a / 60)) ++ [58] ++ push2 (as_u8 (a mod 60)).

(** [split_tz] *)
Definition split_tz (s : bytes) : outcome unit (bytes * Z) :=
  match (match strip_suffix 90 s with Some p => Some p | None => strip_suffix 122 s end) with
  | Some stripped => mret (stripped, 0)
  | None =>
      if 6 <=? len s then
        let cut := len s - 6 in
        if is_char_boundary s cut then
          tail ← str_from s cut;
          if starts_with 43 tail || starts_with 45 tail then
            b3 ← or_panic (nth_z tail 3);
            if b3 =? 58 then
              match parse_offset tail with
              | Val off => p ← str_to s cut; mret (p, off)
              | Fail _ => Fail tt
              | Panic => Panic
              | NoFuel => NoFuel
              end
            else Fail tt
          else Fail tt
        else Fail tt
      else Fail tt
  end.

(** [split_dt] *)
Definition split_dt (s : bytes) : option (bytes * bytes) :=
  match split_once 84 s with Some p => Some p | None => split_once 32 s end.

(** ** [Value] *)

Module Value.

Inductive t :=
  | Integer (v : BigInt.t)
  | Unsigned (v : BigUint.t)
  | Decimal (v : Decimal.t)
  | Str (s : bytes)
  | Date (d : Date.t)
  | DateTz (d : Date.t) (off : Z)
  | Time (t : TimeOfDay.t)
  | DateTime (d : Date.t) (t : TimeOfDay.t)
  | DateTimeTz (d : Date.t) (t : TimeOfDay.t) (off : Z).

#[global] Instance t_eq_dec : EqDecision t.
Proof. solve_decision. Defined.

Definition type_of (v : t) : Ty.t :=
  match v with
  | Integer _ => Ty.Integer
  | Unsigned _ => Ty.UnsignedInteger
  | Decimal _ => Ty.Decimal
  | Str _ => Ty.String
  | Date _ => Ty.Date
  | DateTz _ _ => Ty.DateTz
  | Time _ => Ty.Time
  | DateTime _ _ => Ty.DateTime
  | DateTimeTz _ _ _ => Ty.DateTimeTz
  end.

Definition parse (ty : Ty.t) (input : bytes) : Result t :=
  let bad {A} (msg : bytes) (o : outcome unit A) : Result A :=
    map_err (fun _ => Ty.perr (str "not a valid " ++ msg)) o in
  match ty with
  | Ty.Integer => bad (str "integer") (v ← BigInt.parse input; mret (Integer v))
  | Ty.UnsignedInteger =>
      bad (str "unsigned integer") (v ← ok_or tt (BigUint.parse input); mret (Unsigned v))
  | Ty.Decimal => bad (str "decimal") (v ← Decimal.parse input; mret (Decimal v))
  | Ty.String => mret (Str input)
  | Ty.Date => bad (str "date") (d ← Date.parse input; mret (Date d))
  | Ty.DateTz =>
      bad (str "date tz")
        ('(d, off) ← split_tz input; d ← Date.parse d; mret (DateTz d off))
  | Ty.Time => bad (str "time") (v ← TimeOfDay.parse input; mret (Time v))
  | Ty.DateTime =>
      bad (str "date time")
        ('(d, t) ← ok_or tt (split_dt input);
         d ← Date.parse d; t ← TimeOfDay.parse t; mret (DateTime d t))
  | Ty.DateTimeTz =>
      bad (str "date time tz")
        ('(dt, off) ← split_tz input;
         '(d, t) ← ok_or tt (split_dt dt);
         d ← Date.parse d; t ← TimeOfDay.parse t; mret (DateTimeTz d t off))
  end.

Definition display (v : t) : bytes :=
  match v with
  | Integer v => BigInt.to_dec_string v
  | Unsigned v => BigUint.to_dec_string v
  | Decimal v => Decimal.display v
  | Str s => s
  | Date d => Date.display d
  | DateTz d off => Date.display d ++ display_offset off
  | Time t => TimeOfDay.display t
  | DateTime d t => Date.display d ++ [84] ++ TimeOfDay.display t
  | DateTimeTz d t off =>
      Date.display d ++ [84] ++ TimeOfDay.display t ++ display_offset off
  end.

Definition ord_tag (v : t) : Z := Ty.tag (type_of v).

(** [Ord for Value] *)
Definition cmp (a b : t) : comparison :=
  if negb (ord_tag a =? ord_tag b) then ord_tag a ?= ord_tag b
  else match a, b with
  | Integer a, Integer b => BigInt.cmp a b
  | Unsigned a, Unsigned b => BigUint.cmp a b
  | Decimal a, Decimal b => Decimal.cmp a b
  | Str a, Str b => lex_cmp a b
  | Date a, Date b => Date.cmp a b
  | DateTz a ao, DateTz b bo => cmp_then (Date.cmp a b) (ao ?= bo)
  | Time a, Time b => TimeOfDay.cmp a b
  | DateTime da ta, DateTime db tb => cmp_then (Date.cmp da db) (TimeOfDay.cmp ta tb)
  | DateTimeTz da ta oa, DateTimeTz db tb ob =>
      cmp_then (cmp_then (Date.cmp da db) (TimeOfDay.cmp ta tb)) (oa ?= ob)
  | _, _ => Eq
  end.

End Value.
