(* ===== verification/ValueFacts.v ===== *)
(** * Typed values: canonical forms, round trips and orders

    Lemmas about the definitions of [Value]: what each parser accepts, that
    printing a canonical value and parsing the text gives the value back, that
    no parser aborts on UTF-8 text, and that [Ord] is a total order that
    agrees with equality. *)

From S2P Require Import Prelude Types Bignum Value.

(** ** Fixed-width fields *)

Lemma push2_digits v : 0 <= v <= 99 ->
  push2 v = show_digits [v / 10; v mod 10] /\ is_digits [v / 10; v mod 10].
Proof.
  intros H. split; [done|].
  repeat constructor; lia.
Qed.

Lemma push2_not_elem c v : 0 <= v <= 99 -> (c < 48 \/ 57 < c) -> c ∉ push2 v.
Proof. intros [-> H]%push2_digits Hc. by apply show_digits_not_elem. Qed.

Lemma push2_ascii v : 0 <= v <= 99 -> all_ascii (push2 v).
Proof. intros [-> H]%push2_digits. by apply show_digits_ascii. Qed.

#[export] Hint Resolve push2_ascii : tos.

Lemma parse_fixed_push2 v : 0 <= v <= 99 -> parse_fixed (push2 v) 2 = Some v.
Proof.
  intros H. unfold parse_fixed, push2. cbn [length Nat.eqb negb orb forallb fold_left].
  assert (0 <= v / 10 <= 9) by lia. assert (0 <= v mod 10 <= 9) by lia.
  unfold is_ascii_digit. tests. f_equal. lia.
Qed.

Lemma parse_fixed_some s v :
  parse_fixed s 2 = Some v -> 0 <= v <= 99 /\ s = push2 v.
Proof.
  unfold parse_fixed. intros H. hcase H. injection H as <-. bools.
  destruct s as [|a [|b [|]]]; cbn in *; try discriminate.
  unfold is_ascii_digit in *. rewrite !andb_true_r in *. bools.
  unfold push2. split; [lia|]. f_equal; [|f_equal]; lia.
Qed.

(** ** Fractions *)

(** No trailing zero. *)
Definition canonical_frac (f : list Z) : Prop := is_digits f /\ last f <> Some 0.

Lemma pop_zeros_canonical ds : is_digits ds -> canonical_frac (pop_zeros ds).
Proof.
  intros H. unfold pop_zeros. split.
  - apply Forall_reverse, drop_zeros_digits, Forall_reverse, H.
  - rewrite last_reverse. apply drop_zeros_head.
Qed.

Lemma pop_zeros_id f : canonical_frac f -> pop_zeros f = f.
Proof.
  intros [_ H]. unfold pop_zeros. rewrite drop_zeros_id.
  - apply reverse_involutive.
  - by rewrite head_reverse.
Qed.

Lemma canonical_frac_cons d f :
  canonical_frac (d :: f) -> is_digit d /\ canonical_frac f.
Proof.
  intros [[Hd Hf]%Forall_cons Hl]. split; [done|]. split; [done|].
  destruct f as [|e f]; [done|]. by rewrite last_cons_cons in Hl.
Qed.

Lemma cmp_frac_loop_shift idx x a y b :
  cmp_frac_loop (S <$> idx) (x :: a) (y :: b) = cmp_frac_loop idx a b.
Proof. induction idx as [|i idx IH]; cbn; [done|]. by rewrite IH. Qed.

Lemma cmp_frac_cons x a y b :
  cmp_frac (x :: a) (y :: b) = cmp_then (x ?= y) (cmp_frac a b).
Proof.
  unfold cmp_frac. cbn [length Nat.max seq cmp_frac_loop].
  cbn [lookup list_lookup default]. rewrite <- fmap_S_seq, cmp_frac_loop_shift.
  cbn. by destruct (x ?= y).
Qed.

Lemma cmp_frac_loop_nil_l idx a b :
  Forall (fun i => (length a <= i)%nat) idx ->
  cmp_frac_loop idx a b = cmp_frac_loop idx [] b.
Proof.
  induction 1 as [|i idx Hi _ IH]; cbn; [done|].
  by rewrite (lookup_ge_None_2 a) by done; rewrite IH.
Qed.

Lemma cmp_frac_nil_cons y b :
  cmp_frac [] (y :: b) = cmp_then (0 ?= y) (cmp_frac [] b).
Proof.
  unfold cmp_frac. cbn [length Nat.max seq cmp_frac_loop].
  cbn [lookup list_lookup default]. rewrite <- fmap_S_seq.
  enough (H : forall idx, cmp_frac_loop (S <$> idx) [] (y :: b) = cmp_frac_loop idx [] b)
    by (rewrite H; cbn; by destruct y).
  intros idx; induction idx as [|i idx IH]; cbn; [done|]. by rewrite IH.
Qed.

Lemma cmp_frac_loop_antisym idx a b :
  cmp_frac_loop idx b a = CompOpp (cmp_frac_loop idx a b).
Proof.
  induction idx as [|i idx IH]; cbn; [done|].
  rewrite (Z.compare_antisym (default 0 (a !! i))), IH. by destruct (_ ?= _).
Qed.

Lemma cmp_frac_antisym a b : cmp_frac b a = CompOpp (cmp_frac a b).
Proof. unfold cmp_frac. rewrite Nat.max_comm. apply cmp_frac_loop_antisym. Qed.

(** The empty fraction is below every canonical non-empty one. *)
Lemma cmp_frac_nil f : canonical_frac f -> f <> [] -> cmp_frac [] f = Lt.
Proof.
  induction f as [|d f IH]; intros Hf Hn; [done|].
  rewrite cmp_frac_nil_cons. pose proof Hf as [Hd Hf']%canonical_frac_cons.
  unfold is_digit in Hd. destruct (Z.compare_spec 0 d) as [<-|H|H]; [|done|lia].
  cbn. apply IH; [done|]. intros ->. destruct Hf as [_ Hl]. by cbn in Hl.
Qed.

(** On canonical fractions padding with zeros is the lexicographic order. *)
Lemma cmp_frac_lex a b :
  canonical_frac a -> canonical_frac b -> cmp_frac a b = lex_cmp a b.
Proof.
  revert b. induction a as [|x a IH]; intros [|y b] Ha Hb; cbn [lex_cmp].
  - done.
  - by apply cmp_frac_nil.
  - rewrite cmp_frac_antisym. by rewrite cmp_frac_nil.
  - rewrite cmp_frac_cons. f_equal.
    apply canonical_frac_cons in Ha as [_ Ha], Hb as [_ Hb]. by apply IH.
Qed.

#[global] Instance cmp_frac_ord_laws : OrdLaws canonical_frac cmp_frac.
Proof.
  apply (ord_laws_inj canonical_frac (fun _ => True) cmp_frac lex_cmp id); [done|done|].
  intros a b. apply cmp_frac_lex.
Qed.

(** ** [Decimal] *)

Module DecimalFacts.
Import Decimal.

Definition wf (d : t) : Prop :=
  BigUintFacts.wf (int d) /\ canonical_frac (frac d) /\
  (negative d = true -> ~ (BigUint.is_zero (int d) = true /\ frac d = [])).

Lemma canonical_wf neg i f :
  BigUintFacts.wf i -> is_digits f -> wf (canonical neg i f).
Proof.
  intros Hi Hf. unfold wf, canonical; cbn.
  split; [done|]. split; [by apply pop_zeros_canonical|].
  intros H [Hz Hp]. rewrite Hz, Hp in H. by destruct neg.
Qed.

Lemma canonical_id d : wf d -> canonical (negative d) (int d) (frac d) = d.
Proof.
  intros (Hi & Hf & Hn). unfold canonical. rewrite pop_zeros_id by done.
  destruct d as [neg i f]; cbn in *. f_equal. destruct neg; [cbn|done].
  apply negb_true_iff, not_true_is_false. intros [Hz Hp]%andb_prop.
  destruct f; [|done]. by apply Hn.
Qed.

Lemma decimal_parse_wf s d : parse s = Val d -> wf d.
Proof.
  unfold parse. intros H. obind H. destruct a as [neg rest].
  destruct rest as [|b rest]; [done|].
  destruct (match split_once 46 (b :: rest) with Some p => p | None => _ end) as [ip fp].
  assert (H' : exists i f, d = canonical neg i f /\ BigUintFacts.wf i /\ is_digits f).
  { destruct ip as [|c ip]; [destruct fp as [|e fp]; [done|]|];
      obind H; obind H; injection H as <-; apply ok_or_val in E1;
      apply parse_digits_some in E1 as [_ Hf].
    - injection E0 as <-. exists BigUint.zero, a0. split; [done|]. split; [apply BigUintFacts.zero_wf|done].
    - apply ok_or_val, BigUintFacts.parse_some in E0 as [Hw _].
      by exists a, a0. }
  destruct H' as (i & f & -> & Hi & Hf). by apply canonical_wf.
Qed.

Lemma decimal_display_eq d : wf d -> exists ds, is_digits ds /\ ds <> [] /\
  BigUint.to_dec_string (int d) = show_digits ds /\
  display d = (if negative d then [45] else []) ++ show_digits ds ++
              match frac d with [] => [] | f => 46 :: show_digits f end.
Proof.
  intros (Hi & _). destruct (BigUintFacts.to_dec_string_digits _ Hi) as (ds & E & Hd & Hn).
  exists ds. unfold display. by rewrite E.
Qed.

Lemma split_sign_digits neg ds r : is_digits ds -> ds <> [] ->
  all_ascii r ->
  BigInt.split_sign ((if neg : bool then [45] else []) ++ show_digits ds ++ r)
  = Val (neg, show_digits ds ++ r).
Proof.
  intros Hds Hn Hr. destruct neg; cbn [app].
  - apply BigIntFacts.split_sign_minus, utf8_valid_ascii. constructor; [lia|].
    apply Forall_app; split; [by apply show_digits_ascii|done].
  - destruct ds as [|d ds]; [done|]. apply Forall_cons in Hds as [Hd _].
    unfold is_digit in Hd. rewrite show_digits_cons.
    apply BigIntFacts.split_sign_none; lia.
Qed.

Lemma decimal_parse_display d : wf d -> parse (display d) = Val d.
Proof.
  intros Hwf. destruct (decimal_display_eq d Hwf) as (ds & Hds & Hn & Hs & ->).
  pose proof Hwf as (Hi & [Hf Hl] & _). unfold parse.
  rewrite split_sign_digits; [|done..|].
  2: { destruct (frac d); [constructor|]. constructor; [lia|by apply show_digits_ascii]. }
  cbn [mbind outcome_bind].
  assert (Hsplit : (match split_once 46 (show_digits ds ++
      match frac d with [] => [] | f => 46 :: show_digits f end) with
      | Some p => p
      | None => (show_digits ds ++ match frac d with [] => [] | f => 46 :: show_digits f end, [])
      end) = (show_digits ds, show_digits (frac d))).
  { destruct (frac d) as [|f0 f].
    - rewrite app_nil_r, split_once_none; [done|]. apply show_digits_not_elem; [done|lia].
    - rewrite split_once_app; [done|]. apply show_digits_not_elem; [done|lia]. }
  rewrite Hsplit. clear Hsplit.
  destruct ds as [|e ds]; [done|]. rewrite !show_digits_cons in *. cbn [app].
  rewrite <- Hs, BigUintFacts.biguint_parse_to_dec_string by done. cbn.
  rewrite parse_show_digits by done. cbn. by rewrite canonical_id.
Qed.

(** A sign, then the magnitude, the order reversed below zero. *)
#[global] Instance cmp_ord_laws : OrdLaws wf cmp.
Proof.
  set (mc := fun a b => cmp_then (BigUint.cmp (int a) (int b)) (cmp_frac (frac a) (frac b))).
  set (wm := fun p : BigUint.t * list Z => BigUintFacts.wf p.1 /\ canonical_frac p.2).
  assert (HL : OrdLaws wm (pair_cmp BigUint.cmp cmp_frac)) by apply _.
  assert (Hmc : forall a b, mc a b = pair_cmp BigUint.cmp cmp_frac (int a, frac a) (int b, frac b))
    by done.
  assert (Hw : forall a, wf a -> wm (int a, frac a)) by (intros a (? & ? & _); done).
  assert (Hc : forall a b, cmp a b =
    match negative a, negative b with
    | false, true => Gt | true, false => Lt
    | false, false => mc a b | true, true => CompOpp (mc a b) end)
    by (intros a b; unfold cmp; by destruct (negative a), (negative b)).
  split.
  - intros a b Ha Hb. rewrite Hc, Hmc.
    destruct a as [na ia fa], b as [nb ib fb]; cbn in *.
    pose proof (ord_eq (OrdLaws:=HL) _ _ (Hw _ Ha) (Hw _ Hb)) as He; cbn in He.
    destruct na, nb; try (split; congruence).
    + destruct (pair_cmp _ _ _ _); clear Hc Hw Hmc; naive_solver.
    + rewrite He. naive_solver.
  - intros a b Ha Hb. rewrite !Hc, !Hmc.
    rewrite (ord_antisym (OrdLaws:=HL) _ _ (Hw _ Ha) (Hw _ Hb)).
    by destruct (negative a), (negative b).
  - intros a b c o Ha Hb Hcc. rewrite !Hc, !Hmc.
    pose proof (ord_trans (OrdLaws:=HL) _ _ _ o (Hw _ Ha) (Hw _ Hb) (Hw _ Hcc)) as Ht.
    pose proof (ord_trans (OrdLaws:=HL) _ _ _ (CompOpp o) (Hw _ Ha) (Hw _ Hb) (Hw _ Hcc)) as Ht'.
    destruct (negative a), (negative b), (negative c); intros H1 H2; subst; try done; auto.
    rewrite Ht'; [apply CompOpp_involutive|by rewrite CompOpp_involutive|].
    rewrite <- (CompOpp_involutive (pair_cmp _ _ (int b, _) _)). by rewrite H2.
Qed.

(** The number itself, in units of [10^-n], for [n] at least the number of
    fractional digits. *)
Definition scaled (n : nat) (d : t) : Z :=
  let m := BigUintFacts.value (int d) * 10 ^ Z.of_nat n +
           dval (frac d ++ replicate (n - length (frac d)) 0) in
  if negative d then - m else m.

Lemma dval_replicate_0 k : dval (replicate k 0) = 0.
Proof. induction k; cbn; [done|]. by rewrite IHk. Qed.

Lemma dval_pad f n : (length f <= n)%nat -> is_digits f ->
  0 <= dval (f ++ replicate (n - length f) 0) < 10 ^ Z.of_nat n.
Proof.
  intros Hn Hf. assert (E : length (f ++ replicate (n - length f) 0) = n)
    by (rewrite length_app, length_replicate; lia).
  pose proof (dval_bound (f ++ replicate (n - length f) 0)) as H. rewrite E in H.
  apply H, Forall_app. split; [done|]. by apply Forall_replicate.
Qed.

Lemma cmp_frac_pad a b n :
  is_digits a -> is_digits b -> (length a <= n)%nat -> (length b <= n)%nat ->
  cmp_frac a b = (dval (a ++ replicate (n - length a) 0) ?= dval (b ++ replicate (n - length b) 0)).
Proof.
  intros Ha. revert b n. induction Ha as [|x a Hx Ha IH]; intros b n Hb Hla Hlb.
  - revert n Hla Hlb. induction Hb as [|y b Hy Hb IHb]; intros n Hla Hlb.
    + cbn. by rewrite Z.compare_refl.
    + rewrite cmp_frac_nil_cons. cbn [length] in *. destruct n as [|n]; [lia|].
      rewrite (IHb n) by (cbn; lia). cbn [length Nat.sub]. rewrite Nat.sub_0_r.
      cbn [app replicate dval]. rewrite dval_replicate_0, !length_app, !length_replicate.
      pose proof (dval_pad b n ltac:(lia) Hb). unfold is_digit in Hy.
      replace (length b + (n - length b))%nat with n by lia.
      destruct (Z.compare_spec 0 y); cbn [cmp_then]; subst.
      * f_equal; lia.
      * symmetry. apply Z.compare_lt_iff. pose proof (pow10_pos (Z.of_nat n)). nia.
      * lia.
  - destruct b as [|y b].
    + rewrite cmp_frac_antisym, cmp_frac_nil_cons, cmp_frac_antisym.
      cbn [length] in *. destruct n as [|n]; [lia|].
      rewrite (IH [] n) by (try constructor; cbn; lia).
      cbn [length Nat.sub]. rewrite Nat.sub_0_r. cbn [app replicate dval].
      rewrite dval_replicate_0, !length_app, !length_replicate.
      pose proof (dval_pad a n ltac:(lia) Ha). unfold is_digit in Hx.
      replace (length a + (n - length a))%nat with n by lia.
      destruct (Z.compare_spec 0 x); cbn [cmp_then CompOpp]; subst.
      * rewrite CompOpp_involutive. f_equal; lia.
      * symmetry. apply Z.compare_gt_iff. pose proof (pow10_pos (Z.of_nat n)). nia.
      * lia.
    + apply Forall_cons in Hb as [Hy Hb]. rewrite cmp_frac_cons.
      cbn [length] in *. destruct n as [|n]; [lia|].
      rewrite (IH b n) by (done || lia). cbn [Nat.sub app dval].
      rewrite !length_app, !length_replicate.
      pose proof (dval_pad a n ltac:(lia) Ha). pose proof (dval_pad b n ltac:(lia) Hb).
      replace (length a + (n - length a))%nat with n by lia.
      replace (length b + (n - length b))%nat with n by lia.
      pose proof (pow10_pos (Z.of_nat n)).
      destruct (Z.compare_spec x y); cbn [cmp_then]; subst.
      * destruct (Z.compare_spec (dval (a ++ replicate (n - length a) 0))
          (dval (b ++ replicate (n - length b) 0))); symmetry;
          [apply Z.compare_eq_iff|apply Z.compare_lt_iff|apply Z.compare_gt_iff]; lia.
      * symmetry. apply Z.compare_lt_iff. nia.
      * symmetry. apply Z.compare_gt_iff. nia.
Qed.

Lemma scaled_sign n d : wf d -> (length (frac d) <= n)%nat ->
  if negative d then scaled n d < 0 else 0 <= scaled n d.
Proof.
  intros (Hi & [Hf Hl] & Hn) Hlen. unfold scaled.
  pose proof (BigUintFacts.value_nonneg _ Hi). pose proof (dval_pad _ _ Hlen Hf).
  pose proof (pow10_pos (Z.of_nat n)). destruct (negative d); [|nia].
  specialize (Hn eq_refl).
  destruct (decide (BigUintFacts.value (int d) = 0)) as [Hz|Hz]; [|nia].
  enough (dval (frac d ++ replicate (n - length (frac d)) 0) <> 0) by nia.
  intros Hd0. apply BigUintFacts.is_zero_value in Hz; [|done].
  assert (Hne : frac d <> []) by (intros E; by apply Hn).
  pose proof (cmp_frac_nil (frac d) (conj Hf Hl) Hne) as Hc.
  rewrite (cmp_frac_pad [] (frac d) n) in Hc by (try done; cbn; lia).
  rewrite Hd0 in Hc. cbn [app length] in Hc. by rewrite dval_replicate_0 in Hc.
Qed.

Lemma cmp_scaled a b n : wf a -> wf b ->
  (length (frac a) <= n)%nat -> (length (frac b) <= n)%nat ->
  cmp a b = (scaled n a ?= scaled n b).
Proof.
  intros Ha Hb Hla Hlb.
  pose proof (scaled_sign n a Ha Hla) as Sa. pose proof (scaled_sign n b Hb Hlb) as Sb.
  destruct Ha as (Hia & [Hfa _] & _), Hb as (Hib & [Hfb _] & _).
  assert (Hm : cmp_then (BigUint.cmp (int a) (int b)) (cmp_frac (frac a) (frac b)) =
    (BigUintFacts.value (int a) * 10 ^ Z.of_nat n +
       dval (frac a ++ replicate (n - length (frac a)) 0) ?=
     BigUintFacts.value (int b) * 10 ^ Z.of_nat n +
       dval (frac b ++ replicate (n - length (frac b)) 0))).
  { rewrite BigUintFacts.biguint_cmp_value, (cmp_frac_pad _ _ n) by done.
    pose proof (dval_pad _ _ Hla Hfa). pose proof (dval_pad _ _ Hlb Hfb).
    pose proof (pow10_pos (Z.of_nat n)).
    destruct (Z.compare_spec (BigUintFacts.value (int a)) (BigUintFacts.value (int b)))
      as [E|E|E]; cbn [cmp_then].
    - rewrite E. symmetry. apply Z.add_compare_mono_l.
    - symmetry. apply Z.compare_lt_iff. nia.
    - symmetry. apply Z.compare_gt_iff. nia. }
  unfold cmp, scaled in *. rewrite Hm. destruct (negative a), (negative b).
  - by rewrite <- Z.compare_antisym, Z.compare_opp.
  - symmetry. apply Z.compare_lt_iff. lia.
  - symmetry. apply Z.compare_gt_iff. lia.
  - done.
Qed.

(** No abort on text. *)
Lemma decimal_parse_total s : ascii_safe s -> no_abort (parse s).
Proof.
  intros H. unfold parse. destruct (BigIntFacts.split_sign_total s H) as [[neg rest] ->].
  cbn [mbind outcome_bind]. no_abort.
Qed.

End DecimalFacts.

(** ** [Date] *)

Module DateFacts.
Import Date.

Definition wf (d : t) : Prop :=
  BigIntFacts.wf (year d) /\ 1 <= month d <= 12 /\
  1 <= day d <= days_in_month (year d) (month d).

(** The Gregorian rule on the absolute value of the year. *)
Lemma is_leap_spec y : BigIntFacts.wf y ->
  is_leap y = true <->
  let n := Z.abs (BigIntFacts.value y) in
  n mod 4 = 0 /\ (n mod 100 <> 0 \/ n mod 400 = 0).
Proof.
  intros [Hm Hn]. unfold is_leap, BigInt.magnitude. cbn zeta.
  rewrite !BigUintFacts.rem_u32_value by lia.
  assert (E : Z.abs (BigIntFacts.value y) = BigUintFacts.value (BigInt.mag y)).
  { unfold BigIntFacts.value. pose proof (BigUintFacts.value_nonneg _ Hm).
    destruct (BigInt.negative y); lia. }
  rewrite E, andb_true_iff, orb_true_iff, negb_true_iff, Z.eqb_neq, !Z.eqb_eq. done.
Qed.

Lemma days_in_month_bound y m : 0 <= days_in_month y m <= 31.
Proof.
  unfold days_in_month.
  repeat match goal with
  | |- context [match ?x with _ => _ end] => destruct x
  end; lia.
Qed.

Lemma wf_ranges d : wf d -> 1 <= month d <= 12 /\ 1 <= day d <= 31.
Proof. intros (_ & Hm & Hd). pose proof (days_in_month_bound (year d) (month d)). lia. Qed.

Lemma date_parse_wf s d : parse s = Val d -> wf d.
Proof.
  unfold parse. intros H. obind H. destruct (rsplitn 3 45 a) as [|dd [|mm [|yy ?]]]; try done.
  destruct yy as [|y0 yy]; [done|].
  obind H. apply ok_or_val, BigUintFacts.parse_some in E0 as [Hm _].
  obind H. apply ok_or_val, parse_fixed_some in E0 as [Hmo _].
  obind H. apply ok_or_val, parse_fixed_some in E0 as [Hda _].
  unfold as_u8 in H. rewrite !Z.mod_small in H by lia.
  hcase H. hcase H. injection H as <-. bools.
  split; cbn; [|lia]. by apply BigIntFacts.from_parts_spec.
Qed.

Lemma dval_zeros_app k ds : dval (replicate k 0 ++ ds) = dval ds.
Proof. rewrite dval_app, DecimalFacts.dval_replicate_0. lia. Qed.

Lemma drop_zeros_replicate k ds : drop_zeros (replicate k 0 ++ ds) = drop_zeros ds.
Proof. induction k; cbn; done. Qed.

(** A text of a date: an optional sign, the year with or without padding, the
    month and the day. *)
Definition date_text (d : t) (s : bytes) : Prop := exists ds,
  is_digits ds /\ ds <> [] /\
  BigUint.parse (show_digits ds) = Some (BigInt.magnitude (year d)) /\
  s = (if BigInt.is_negative (year d) then [45] else []) ++
    show_digits ds ++ [45] ++ push2 (month d) ++ [45] ++ push2 (day d).

(** The canonical text pads the year to four digits. *)
Lemma date_display_text d : wf d -> date_text d (display d).
Proof.
  intros ([Hm Hn] & _). destruct (BigUintFacts.to_dec_string_digits _ Hm) as (ds & E & Hds & Hne).
  exists (replicate (4 - length ds) 0 ++ ds).
  assert (Hd' : is_digits (replicate (4 - length ds) 0 ++ ds)).
  { apply Forall_app. split; [|done]. apply Forall_replicate. unfold is_digit; lia. }
  split; [done|]. split; [by destruct (replicate _ _)|]. split.
  - pose proof (BigUintFacts.biguint_parse_to_dec_string _ Hm) as Hp. rewrite E in Hp.
    rewrite BigUintFacts.parse_show in * by (done || by destruct (replicate _ _)).
    unfold BigInt.magnitude. rewrite <- Hp. unfold BigUint.normalize; cbn. by rewrite drop_zeros_replicate.
  - unfold display, BigInt.magnitude. rewrite E, show_digits_length, show_digits_app.
    rewrite <- !app_assoc. do 2 f_equal.
    unfold show_digits. by rewrite fmap_replicate.
Qed.

Lemma rsplitn_date ys ms ds : 45 ∉ ms -> 45 ∉ ds ->
  rsplitn 3 45 (ys ++ [45] ++ ms ++ [45] ++ ds) = [ds; ms; ys].
Proof.
  intros Hm Hd. cbn [rsplitn].
  replace (ys ++ [45] ++ ms ++ [45] ++ ds) with ((ys ++ 45 :: ms) ++ 45 :: ds)
    by by rewrite <- app_assoc.
  rewrite rsplit_once_app by done. by rewrite rsplit_once_app.
Qed.

Lemma date_sign neg ds tl : is_digits ds -> ds <> [] -> all_ascii tl ->
  let s := (if neg : bool then [45] else []) ++ show_digits ds ++ tl in
  starts_with 45 s = neg /\
  (if neg then str_from (E:=unit) s 1 else mret s) = Val (show_digits ds ++ tl).
Proof.
  intros Hds Hne Htl. destruct neg; cbn [app].
  - split; [done|]. unfold str_from. rewrite ascii_boundary_1; [done|lia|].
    apply utf8_valid_ascii. constructor; [lia|].
    apply Forall_app; split; [by apply show_digits_ascii|done].
  - split; [|done]. destruct ds as [|e ds]; [done|].
    apply Forall_cons in Hds as [He _]. unfold is_digit in He.
    rewrite show_digits_cons. cbn. apply Z.eqb_neq. lia.
Qed.

Lemma date_parse_text d s : wf d -> date_text d s -> parse s = Val d.
Proof.
  intros Hwf (ds & Hds & Hne & Hp & ->). pose proof (wf_ranges d Hwf) as [Hmo Hda]. unfold parse.
  destruct (date_sign (BigInt.is_negative (year d)) ds
    ([45] ++ push2 (month d) ++ [45] ++ push2 (day d))) as [Hs Hb]; [done..| |].
  { eauto 10 with tos. }
  cbn zeta in Hb. rewrite Hs, Hb. cbn [mbind outcome_bind].
  rewrite rsplitn_date by (apply push2_not_elem; lia).
  destruct (show_digits ds) as [|c cs] eqn:E; [by destruct ds|].
  rewrite Hp. cbn [ok_or mbind outcome_bind].
  rewrite !parse_fixed_push2 by lia. cbn [ok_or mbind outcome_bind].
  unfold as_u8. rewrite !Z.mod_small by lia.
  pose proof Hwf as (Hy & _ & Hdd).
  unfold BigInt.magnitude, BigInt.is_negative. rewrite BigIntFacts.from_parts_id by done.
  tests. by destruct d.
Qed.

Lemma date_text_ascii d s : wf d -> date_text d s -> all_ascii s.
Proof.
  intros Hwf (ds & Hds & _ & _ & ->). pose proof (wf_ranges d Hwf) as [Hmo Hda].
  destruct (BigInt.is_negative _); eauto 12 with tos.
Qed.

Lemma date_display_ascii d : wf d -> all_ascii (display d).
Proof. intros H. by eapply date_text_ascii, date_display_text. Qed.

(** A date text holds no ['T'], no space and no colon. *)
Lemma date_text_not_elem c d s : wf d -> date_text d s -> (c < 45 \/ 57 < c) -> c ∉ s.
Proof.
  intros Hwf (ds & Hds & _ & _ & ->) Hc. pose proof (wf_ranges d Hwf) as [Hmo Hda].
  rewrite !elem_of_app. intros [Hin|[Hin|[Hin|[Hin|[Hin|Hin]]]]]; revert Hin;
    try (apply push2_not_elem; lia); try (apply show_digits_not_elem; [done|lia]);
    try (rewrite list_elem_of_singleton; lia).
  destruct (BigInt.is_negative _); [rewrite list_elem_of_singleton; lia|apply not_elem_of_nil].
Qed.

Lemma cmp_pair a b : cmp a b =
  pair_cmp (pair_cmp BigInt.cmp Z.compare) Z.compare
    (year a, month a, day a) (year b, month b, day b).
Proof. done. Qed.

#[global] Instance cmp_ord_laws : OrdLaws wf cmp.
Proof.
  eapply (ord_laws_inj wf _ cmp _ (fun d => (year d, month d, day d)));
    [|intros [] [] _ _; cbn; congruence|intros a b _ _; apply cmp_pair].
  intros a (Hy & _). cbn. split; [split; [exact Hy|exact I]|exact I].
Qed.

Lemma date_parse_total s : ascii_safe s -> no_abort (parse s).
Proof.
  intros H. unfold parse. apply no_abort_bind; [|intros a _; no_abort].
  destruct s as [|b s]; cbn [starts_with]; [by split|]. gcase; [|by split].
  bools. subst. unfold str_from. rewrite ascii_safe_boundary_1 by (done || lia). by split.
Qed.

End DateFacts.

(** ** [TimeOfDay] *)

Module TimeFacts.
Import TimeOfDay.

Definition wf (t : t) : Prop := 0 <= secs t < 86400 /\ canonical_frac (frac t).

Lemma time_parse_wf s t : parse s = Val t -> wf t.
Proof.
  unfold parse. intros H.
  destruct (match split_once 46 s with Some (h, f) => _ | None => _ end) as [hms fs].
  assert (Hf : forall i v, ok_or tt (split 58 hms !! i ≫= λ x, parse_fixed x 2) = Val v ->
    0 <= v <= 99).
  { intros i v Hv%ok_or_val. destruct (split 58 hms !! i); [|done].
    apply parse_fixed_some in Hv. tauto. }
  obind H. apply Hf in E. obind H. apply Hf in E0. obind H. apply Hf in E1.
  hcase H. rewrite !orb_false_iff in E2. destruct E2 as [[[_ ?] ?] ?]. bools.
  obind H. injection H as <-. split; cbn; [lia|].
  destruct fs as [[|c f]|]; [done| |].
  - apply bind_val in E2 as (ds & Hp & E2). injection E2 as <-.
    apply ok_or_val, parse_digits_some in Hp as [_ Hd]. by apply pop_zeros_canonical.
  - injection E2 as <-. split; [constructor|done].
Qed.

Lemma hms_ranges t : wf t ->
  0 <= secs t / 3600 <= 23 /\ 0 <= (secs t mod 3600) / 60 <= 59 /\ 0 <= secs t mod 60 <= 59.
Proof. intros [H _]. lia. Qed.

Lemma time_display_eq t : wf t -> display t =
  (push2 (secs t / 3600) ++ 58 :: push2 ((secs t mod 3600) / 60) ++ 58 ::
   push2 (secs t mod 60)) ++ match frac t with [] => [] | f => 46 :: show_digits f end.
Proof.
  intros H%hms_ranges. unfold display, as_u8. rewrite (Z.mod_small (secs t / 3600)),
    (Z.mod_small (secs t mod 3600 / 60)), (Z.mod_small (secs t mod 60)) by lia.
  reflexivity.
Qed.

Lemma time_parse_display t : wf t -> parse (display t) = Val t.
Proof.
  intros Hwf. pose proof (hms_ranges t Hwf) as (Hh & Hm & Hs).
  pose proof Hwf as [_ [Hf Hl]]. rewrite time_display_eq by done. unfold parse.
  set (hms := push2 _ ++ _).
  assert (Hdot : 46 ∉ hms).
  { unfold hms. rewrite !elem_of_app, !elem_of_cons, !elem_of_app, !elem_of_cons.
    pose proof (push2_not_elem 46 (secs t / 3600) ltac:(lia)) as H1.
    pose proof (push2_not_elem 46 (secs t mod 3600 / 60) ltac:(lia)) as H2.
    pose proof (push2_not_elem 46 (secs t mod 60) ltac:(lia)) as H3. intuition lia. }
  assert (Hsplit : (match split_once 46 (hms ++
      match frac t with [] => [] | f => 46 :: show_digits f end) with
      | Some (h, f) => (h, Some f)
      | None => (hms ++ match frac t with [] => [] | f => 46 :: show_digits f end, None)
      end) = (hms, match frac t with [] => None | f => Some (show_digits f) end)).
  { destruct (frac t) as [|f0 f].
    - by rewrite app_nil_r, split_once_none.
    - by rewrite split_once_app. }
  rewrite Hsplit. clear Hsplit.
  assert (Hit : split 58 hms =
    [push2 (secs t / 3600); push2 ((secs t mod 3600) / 60); push2 (secs t mod 60)]).
  { unfold hms. rewrite !split_app by (apply push2_not_elem; lia).
    by rewrite split_none by (apply push2_not_elem; lia). }
  rewrite Hit. cbn [lookup list_lookup mbind option_bind].
  rewrite !parse_fixed_push2 by lia. cbn [ok_or mbind outcome_bind].
  rewrite bool_decide_false by (intros [? ?]; done). cbn [orb]. tests.
  replace (secs t / 3600 * 3600 + secs t mod 3600 / 60 * 60 + secs t mod 60)
    with (secs t) by lia.
  destruct t as [se fr]; cbn [secs frac] in *. destruct fr as [|f0 f]; [done|].
  rewrite show_digits_cons. rewrite <- show_digits_cons.
  cbn [show_digits fmap list_fmap]. change (48 + f0 :: _) with (show_digits (f0 :: f)).
  rewrite parse_show_digits by done. cbn [ok_or mbind outcome_bind mret outcome_ret].
  by rewrite pop_zeros_id.
Qed.

Lemma time_display_ascii t : wf t -> all_ascii (display t).
Proof.
  intros Hwf. pose proof (hms_ranges t Hwf) as (Hh & Hm & Hs).
  pose proof Hwf as [_ [Hf Hl]]. rewrite time_display_eq by done.
  destruct (frac t); eauto 12 with tos.
Qed.

#[global] Instance cmp_ord_laws : OrdLaws wf cmp.
Proof.
  eapply (ord_laws_inj wf _ cmp (pair_cmp Z.compare cmp_frac) (fun t => (secs t, frac t)));
    [|intros [] [] _ _; cbn; congruence|done].
  intros a (_ & Hf). cbn. split; [exact I|exact Hf].
Qed.

Lemma time_parse_total s : no_abort (parse s).
Proof.
  unfold parse. destruct (match split_once 46 s with Some (h, f) => _ | None => _ end).
  no_abort.
Qed.

End TimeFacts.

(** ** Zone offsets *)

Definition offset_wf (off : Z) : Prop := -1439 <= off <= 1439.

Lemma display_offset_eq off : offset_wf off ->
  display_offset off = (if off <? 0 then 45 else 43) ::
    push2 (Z.abs off / 60) ++ 58 :: push2 (Z.abs off mod 60).
Proof.
  unfold offset_wf, display_offset, as_u8. intros H.
  destruct (Z.ltb_spec off 0).
  - replace (Z.abs off) with (- off) by lia.
    rewrite (Z.mod_small (- off / 60)), (Z.mod_small (- off mod 60)) by lia. done.
  - replace (Z.abs off) with off by lia.
    rewrite (Z.mod_small (off / 60)), (Z.mod_small (off mod 60)) by lia. done.
Qed.

Lemma parse_offset_display off : offset_wf off -> parse_offset (display_offset off) = Val off.
Proof.
  intros H. rewrite display_offset_eq by done. unfold offset_wf in H.
  set (a := Z.abs off). assert (Ha : 0 <= a <= 1439) by lia.
  set (sg := if off <? 0 then 45 else 43).
  assert (Hb : is_char_boundary (sg :: push2 (a / 60) ++ 58 :: push2 (a mod 60)) 1 = true).
  { apply ascii_boundary_1; [unfold sg; destruct (off <? 0); lia|].
    apply utf8_valid_ascii. unfold sg.
    destruct (off <? 0); eauto 10 with tos. }
  unfold parse_offset. rewrite !bool_decide_false by done.
  cbn [orb]. unfold str_from, sg in *.
  destruct (Z.ltb_spec off 0); cbn [mbind outcome_bind mret outcome_ret]; rewrite Hb;
    change (drop (Z.to_nat 1) (?x :: ?l)) with l; cbn [mbind outcome_bind];
    rewrite split_once_app by (apply push2_not_elem; lia);
    cbn [ok_or mbind outcome_bind]; rewrite !parse_fixed_push2 by lia;
    cbn [mbind outcome_bind ok_or mret outcome_ret]; tests; f_equal; lia.
Qed.

Lemma parse_offset_wf s off : parse_offset s = Val off -> offset_wf off.
Proof.
  unfold parse_offset, offset_wf. intros H. hcase H; [injection H as <-; lia|].
  obind H. obind H. obind H. destruct a1 as [hh mm].
  obind H. apply ok_or_val, parse_fixed_some in E3 as [? _].
  obind H. apply ok_or_val, parse_fixed_some in E3 as [? _].
  hcase H. injection H as <-. bools. destruct a; lia.
Qed.

Lemma split_tz_display s off : offset_wf off ->
  split_tz (s ++ display_offset off) = Val (s, off).
Proof.
  intros Hoff. pose proof (parse_offset_display off Hoff) as Hp.
  pose proof (display_offset_eq off Hoff) as Hd. unfold offset_wf in Hoff.
  set (a := Z.abs off) in *. assert (Ha : 0 <= a <= 1439) by lia.
  assert (Hlen : length (display_offset off) = 6%nat) by by rewrite Hd.
  assert (Hcut : len (s ++ display_offset off) - 6 = len s)
    by (rewrite length_app, Hlen; lia).
  assert (Hlast : exists p d, display_offset off = p ++ [d] /\ 48 <= d <= 57).
  { rewrite Hd. eexists [_; _; _; _; _], _. split; [reflexivity|lia]. }
  destruct Hlast as (p & d & Hlast & Hdd).
  unfold split_tz. rewrite Hcut. rewrite Hlast, app_assoc, !strip_suffix_snoc.
  rewrite (proj2 (Z.eqb_neq d 90)), (proj2 (Z.eqb_neq d 122)) by lia.
  rewrite <- app_assoc, <- Hlast.
  replace (6 <=? len (s ++ display_offset off)) with true
    by (symmetry; apply Z.leb_le; rewrite length_app, Hlen; lia).
  assert (Hb : is_char_boundary (s ++ display_offset off) (len s) = true).
  { unfold is_char_boundary, nth_z. rewrite Nat2Z.id, lookup_app_r, Nat.sub_diag by lia.
    rewrite Hd. cbn [lookup list_lookup]. destruct (off <? 0);
      repeat case_match; done. }
  unfold str_from, str_to. rewrite Hb, Nat2Z.id, drop_app_length, take_app_length.
  assert (Hsw : starts_with 43 (display_offset off) || starts_with 45 (display_offset off)
    = true) by (rewrite Hd; by destruct (off <? 0)).
  assert (H3 : nth_z (display_offset off) 3 = Some 58) by by rewrite Hd.
  cbn [mbind outcome_bind]. rewrite Hsw, H3. cbn [or_panic mbind outcome_bind].
  change (58 =? 58) with true. cbn iota. by rewrite Hp.
Qed.

Lemma split_tz_val s p off :
  split_tz s = Val (p, off) -> offset_wf off /\ exists r, s = p ++ r.
Proof.
  unfold split_tz. intros H.
  assert (Hss : forall c q, strip_suffix c s = Some q -> exists r, s = q ++ r).
  { intros c q Hq. unfold strip_suffix in Hq. hcase Hq. hcase Hq. injection Hq as <-.
    eexists. symmetry. apply take_drop. }
  destruct (match strip_suffix 90 s with Some _ => _ | None => _ end) as [q|] eqn:Eq.
  - injection H as <- <-. split; [unfold offset_wf; lia|].
    destruct (strip_suffix 90 s) eqn:E9; [injection Eq as <-|]; eauto.
  - hcase H. hcase H. obind H. hcase H. obind H. hcase H. hcase H.
    obind H. injection H as <- <-. split; [by eapply parse_offset_wf|].
    unfold str_to in E6. hcase E6. injection E6 as <-. eexists. symmetry. apply take_drop.
Qed.

Lemma split_tz_total s : ascii_safe s -> no_abort (split_tz s).
Proof.
  intros Hs. unfold split_tz. destruct (match strip_suffix 90 s with Some _ => _ | None => _ end);
    [by split|].
  destruct (Z.leb_spec 6 (len s)); [|by split].
  destruct (is_char_boundary s (len s - 6)) eqn:Eb; [|by split].
  unfold str_from at 1. rewrite Eb. cbn [mbind outcome_bind].
  set (tail := drop _ s).
  assert (Ht : ascii_safe tail).
  { apply (ascii_safe_app_r (take (Z.to_nat (len s - 6)) s)). unfold tail. by rewrite take_drop. }
  assert (Hl : length tail = 6%nat) by (unfold tail; rewrite length_drop; lia).
  destruct (starts_with 43 tail || starts_with 45 tail) eqn:Esg; [|by split].
  destruct tail as [|t0 [|t1 [|t2 [|t3 tl]]]] eqn:Etl; try done.
  unfold nth_z. change (Z.to_nat 3) with 3%nat. cbn [lookup list_lookup or_panic mbind outcome_bind].
  destruct (t3 =? 58); [|by split].
  assert (Hpo : no_abort (parse_offset (t0 :: t1 :: t2 :: t3 :: tl))).
  { unfold parse_offset. gcase; [by split|].
    assert (Hb1 : is_char_boundary (t0 :: t1 :: t2 :: t3 :: tl) 1 = true).
    { apply ascii_safe_boundary_1; [|done]. cbn in Esg.
      apply orb_prop in Esg as [?|?]; bools; lia. }
    unfold str_from. rewrite Hb1. no_abort. }
  apply no_abort_cases in Hpo as [[off ->]|[[] ->]]; [|by split].
  unfold str_to. rewrite Eb. by split.
Qed.

(** ** [Value] *)

Module ValueFacts.
Import Value.

(** The values the engine can hold: every component in canonical form. *)
Definition wf (v : t) : Prop :=
  match v with
  | Integer v => BigIntFacts.wf v
  | Unsigned v => BigUintFacts.wf v
  | Decimal v => DecimalFacts.wf v
  | Str s => utf8_valid s = true
  | Date d => DateFacts.wf d
  | DateTz d off => DateFacts.wf d /\ offset_wf off
  | Time t => TimeFacts.wf t
  | DateTime d t => DateFacts.wf d /\ TimeFacts.wf t
  | DateTimeTz d t off => DateFacts.wf d /\ TimeFacts.wf t /\ offset_wf off
  end.

Lemma map_err_val {E F A} (f : E -> F) (m : outcome E A) a :
  map_err f m = Val a <-> m = Val a.
Proof. destruct m; cbn; split; congruence. Qed.

Ltac binds H := repeat (
  lazymatch type of H with
  | map_err _ _ = Val _ => apply map_err_val in H
  | (_ ≫= _) = Val _ => obind H
  | (let '(_, _) := ?p in _) = _ => destruct p
  | mret _ = Val _ => injection H as <-
  | match ?p with (_, _) => _ end = Val _ => destruct p
  end).

Lemma parse_spec ty s v :
  utf8_valid s = true -> parse ty s = Val v -> wf v /\ type_of v = ty.
Proof.
  intros Hs H. destruct ty; cbn [parse] in H; binds H; cbn;
  repeat match goal with
  | H : ok_or _ _ = Val _ |- _ => apply ok_or_val in H
  | H : BigInt.parse _ = Val _ |- _ => apply BigIntFacts.parse_val in H as [H _]
  | H : BigUint.parse _ = Some _ |- _ => apply BigUintFacts.parse_some in H as [H _]
  | H : Decimal.parse _ = Val _ |- _ => apply DecimalFacts.decimal_parse_wf in H
  | H : Date.parse _ = Val _ |- _ => apply DateFacts.date_parse_wf in H
  | H : TimeOfDay.parse _ = Val _ |- _ => apply TimeFacts.time_parse_wf in H
  | H : split_tz _ = Val _ |- _ => apply split_tz_val in H as [H _]
  end; done.
Qed.

Lemma split_dt_text d s r : DateFacts.wf d -> DateFacts.date_text d s -> split_dt (s ++ [84] ++ r) = Some (s, r).
Proof.
  intros H Hs. unfold split_dt. cbn [app].
  rewrite split_once_app; [done|]. apply (DateFacts.date_text_not_elem 84 d s H Hs). lia.
Qed.

(** A text of a value: canonical but for the padding of the year. *)
Definition value_text (v : t) (s : bytes) : Prop :=
  match v with
  | Date d => DateFacts.date_text d s
  | DateTz d off => exists ds, DateFacts.date_text d ds /\ s = ds ++ display_offset off
  | DateTime d t => exists ds, DateFacts.date_text d ds /\ s = ds ++ [84] ++ TimeOfDay.display t
  | DateTimeTz d t off => exists ds, DateFacts.date_text d ds /\
      s = ds ++ [84] ++ TimeOfDay.display t ++ display_offset off
  | v => s = display v
  end.

Lemma value_display_text v : wf v -> value_text v (display v).
Proof.
  destruct v; cbn [wf value_text display]; intros H; try done.
  - by apply DateFacts.date_display_text.
  - eexists. split; [|done]. by apply DateFacts.date_display_text, H.
  - eexists. split; [|done]. by apply DateFacts.date_display_text, H.
  - eexists. split; [|done]. by apply DateFacts.date_display_text, H.
Qed.

Lemma value_parse_text v s : wf v -> value_text v s -> parse (type_of v) s = Val v.
Proof.
  destruct v; cbn [wf type_of value_text display parse]; intros H.
  - intros ->. by rewrite BigIntFacts.bigint_parse_to_dec_string.
  - intros ->. by rewrite BigUintFacts.biguint_parse_to_dec_string.
  - intros ->. by rewrite DecimalFacts.decimal_parse_display.
  - by intros ->.
  - intros Hs. by rewrite (DateFacts.date_parse_text d s).
  - intros (ds & Hs & ->). destruct H as [Hd Ho]. rewrite split_tz_display by done. cbn.
    by rewrite (DateFacts.date_parse_text d ds).
  - intros ->. by rewrite TimeFacts.time_parse_display.
  - intros (ds & Hs & ->). destruct H as [Hd Ht]. rewrite (split_dt_text d) by done. cbn [mbind outcome_bind ok_or].
    rewrite (DateFacts.date_parse_text d ds) by done. cbn [mbind outcome_bind]. by rewrite TimeFacts.time_parse_display.
  - intros (ds & Hs & ->). destruct H as (Hd & Ht & Ho).
    replace (ds ++ [84] ++ TimeOfDay.display t0 ++ display_offset off)
      with ((ds ++ [84] ++ TimeOfDay.display t0) ++ display_offset off)
      by by rewrite <- !app_assoc.
    rewrite split_tz_display by done. cbn [mbind outcome_bind].
    rewrite (split_dt_text d) by done. cbn [mbind outcome_bind ok_or].
    rewrite (DateFacts.date_parse_text d ds) by done. cbn [mbind outcome_bind]. by rewrite TimeFacts.time_parse_display.
Qed.

Lemma value_parse_display v : wf v -> parse (type_of v) (display v) = Val v.
Proof. intros H. apply value_parse_text; [done|by apply value_display_text]. Qed.

Lemma display_offset_ascii off : offset_wf off -> all_ascii (display_offset off).
Proof.
  intros H. rewrite display_offset_eq by done. unfold offset_wf in H.
  destruct (off <? 0); eauto 10 with tos.
Qed.

Lemma display_utf8 v : wf v -> utf8_valid (display v) = true.
Proof.
  assert (Hb : forall m, BigUintFacts.wf m -> all_ascii (BigUint.to_dec_string m)).
  { intros m (ds & -> & ? & _)%BigUintFacts.to_dec_string_digits. by apply show_digits_ascii. }
  pose proof DateFacts.date_display_ascii. pose proof TimeFacts.time_display_ascii.
  pose proof display_offset_ascii.
  destruct v; cbn [wf display]; intros Hw; [..|done| | | | |]; apply utf8_valid_ascii.
  - destruct Hw as [Hm _]. unfold BigInt.to_dec_string.
    destruct (BigInt.negative v); eauto with tos.
  - auto.
  - destruct (DecimalFacts.decimal_display_eq v Hw) as (ds & Hds & _ & _ & ->).
    destruct Hw as (_ & [Hf _] & _).
    destruct (Decimal.negative v), (Decimal.frac v); eauto 10 with tos.
  - auto.
  - destruct Hw. eauto with tos.
  - auto.
  - destruct Hw. eauto 10 with tos.
  - destruct Hw as (? & ? & ?). eauto 10 with tos.
Qed.

Lemma value_parse_total ty s : utf8_valid s = true -> no_abort (parse ty s).
Proof.
  intros Hs%utf8_ascii_safe.
  assert (Hsplit : forall c l r x, split_once c x = Some (l, r) -> ascii_safe x -> ascii_safe l).
  { intros c l r x [-> _]%split_once_some. apply ascii_safe_app_l. }
  assert (Hdt : forall x l r, split_dt x = Some (l, r) -> ascii_safe x -> ascii_safe l).
  { intros x l r H. unfold split_dt in H. destruct (split_once 84 x) as [[]|] eqn:E;
      [injection H as <- <-|]; eauto. }
  assert (Htz : forall x p off, split_tz x = Val (p, off) -> ascii_safe x -> ascii_safe p).
  { intros x p off (_ & r & ->)%split_tz_val. apply ascii_safe_app_l. }
  destruct ty; cbn [parse]; try apply no_abort_map_err; try (by split);
  repeat first
    [ solve [eauto 2 with tos]
    | apply BigIntFacts.bigint_parse_total | apply DecimalFacts.decimal_parse_total
    | apply DateFacts.date_parse_total | apply TimeFacts.time_parse_total
    | apply split_tz_total
    | apply no_abort_bind; [|intros ? ?]
    | match goal with |- no_abort (match ?x with (_, _) => _ end) => destruct x end
    | progress (match goal with H : ok_or _ _ = Val _ |- _ => apply ok_or_val in H end)
    | solve [eauto] ].
Qed.

(** ** The order on values *)

Lemma ord_tag_eq a b : ord_tag a = ord_tag b <-> type_of a = type_of b.
Proof. split; [apply Ty.tag_inj|unfold ord_tag; by intros ->]. Qed.

Lemma cmp_tag_ne a b : ord_tag a <> ord_tag b -> cmp a b = (ord_tag a ?= ord_tag b).
Proof. intros H%Z.eqb_neq. unfold cmp. by rewrite H. Qed.

Definition of_type (ty : Ty.t) (v : t) : Prop := wf v /\ type_of v = ty.

(** The payload of a value of a known type, and its order. *)
Definition nodate : Date.t := Date.mk BigInt.zero 0 0.
Definition notime : TimeOfDay.t := TimeOfDay.mk 0 [].
Definition as_dtz (v : t) : Date.t * TimeOfDay.t * Z :=
  match v with
  | Date d => (d, notime, 0)
  | DateTz d off => (d, notime, off)
  | Time t => (nodate, t, 0)
  | DateTime d t => (d, t, 0)
  | DateTimeTz d t off => (d, t, off)
  | _ => (nodate, notime, 0)
  end.

Ltac by_payload c f :=
  eapply (ord_laws_inj _ _ _ c f);
    [ intros [] [Hw [=]]; cbn; cbn in Hw; try exact Hw; exact I
    | intros [] [] [_ [=]] [_ [=]]; cbn; congruence
    | intros [] [] [_ [=]] [_ [=]]; reflexivity ].

#[global] Instance of_type_ord_laws ty : OrdLaws (of_type ty) cmp.
Proof.
  destruct ty.
  - by_payload BigInt.cmp (fun v => match v with Integer x => x | _ => BigInt.zero end).
  - by_payload BigUint.cmp (fun v => match v with Unsigned x => x | _ => BigUint.zero end).
  - by_payload Decimal.cmp (fun v => match v with Decimal x => x
      | _ => Decimal.mk false BigUint.zero [] end).
  - by_payload lex_cmp (fun v => match v with Str x => x | _ => [] end).
  - by_payload Date.cmp (fun v => match v with Date x => x | _ => nodate end).
  - eapply (ord_laws_inj _ _ _ (pair_cmp Date.cmp Z.compare)
      (fun v => match v with DateTz d o => (d, o) | _ => (nodate, 0) end));
      [ intros [] [Hw [=]]; cbn; destruct Hw as [Hw _]; split; [exact Hw|exact I]
      | intros [] [] [_ [=]] [_ [=]]; cbn; congruence
      | intros [] [] [_ [=]] [_ [=]]; reflexivity ].
  - by_payload TimeOfDay.cmp (fun v => match v with Time x => x | _ => notime end).
  - eapply (ord_laws_inj _ _ _ (pair_cmp Date.cmp TimeOfDay.cmp)
      (fun v => match v with DateTime d t => (d, t) | _ => (nodate, notime) end));
      [ intros [] [Hw [=]]; cbn; exact Hw
      | intros [] [] [_ [=]] [_ [=]]; cbn; congruence
      | intros [] [] [_ [=]] [_ [=]]; reflexivity ].
  - eapply (ord_laws_inj _ _ _ (pair_cmp (pair_cmp Date.cmp TimeOfDay.cmp) Z.compare) as_dtz);
      [ intros [] [Hw [=]]; cbn; destruct Hw as (Hd & Ht & _); split; [split; [exact Hd|exact Ht]|exact I]
      | intros [] [] [_ [=]] [_ [=]]; cbn; congruence
      | intros [] [] [_ [=]] [_ [=]]; reflexivity ].
Qed.

#[global] Instance cmp_ord_laws : OrdLaws wf cmp.
Proof.
  split.
  - intros a b Ha Hb. destruct (decide (type_of a = type_of b)) as [E|E].
    + by apply (ord_eq (wf:=of_type (type_of b))).
    + rewrite cmp_tag_ne by by rewrite ord_tag_eq. rewrite Z.compare_eq_iff, ord_tag_eq.
      split; [done|by intros ->].
  - intros a b Ha Hb. destruct (decide (type_of a = type_of b)) as [E|E].
    + by apply (ord_antisym (wf:=of_type (type_of b))).
    + rewrite !cmp_tag_ne by (rewrite ord_tag_eq; congruence). apply Z.compare_antisym.
  - intros a b c o Ha Hb Hc H1 H2.
    destruct (decide (type_of a = type_of b)) as [E|E];
      destruct (decide (type_of b = type_of c)) as [E'|E'].
    + apply (ord_trans (wf:=of_type (type_of b)) a b c o); done.
    + rewrite cmp_tag_ne in * by (rewrite ord_tag_eq; congruence).
      apply ord_tag_eq in E. by rewrite E.
    + rewrite (cmp_tag_ne a b) in H1 by (rewrite ord_tag_eq; congruence).
      rewrite cmp_tag_ne by (rewrite ord_tag_eq; congruence).
      apply ord_tag_eq in E'. by rewrite <- E'.
    + rewrite (cmp_tag_ne a b) in H1 by (rewrite ord_tag_eq; congruence).
      rewrite (cmp_tag_ne b c) in H2 by (rewrite ord_tag_eq; congruence).
      pose proof (ord_trans (wf:=fun _ => True) (cmp:=Z.compare)
        (ord_tag a) (ord_tag b) (ord_tag c) o I I I H1 H2) as H3.
      destruct (decide (type_of a = type_of c)) as [Ec|Ec];
        [|by rewrite cmp_tag_ne by (rewrite ord_tag_eq; congruence)].
      apply ord_tag_eq in Ec. rewrite Ec, Z.compare_refl in H3. rewrite <- H3 in H1.
      apply Z.compare_eq_iff in H1. apply ord_tag_eq in H1. done.
Qed.

End ValueFacts.
