(* ===== verification/Codec.v ===== *)
(** * The byte encoding of values and rows

    [tablestore/src/codec.rs].  A [put_*] function is modelled by the bytes it
    appends; a [get_*] function by a parser over the buffer and the position
    it advances. *)

From S2P Require Import Prelude Types Bignum Value ValueFacts.

(** ** Parsers *)

Definition parser (A : Type) : Type := bytes -> Z -> Result (A * Z).

#[global] Instance parser_ret : MRet parser := fun A a buf pos => Val (a, pos).
#[global] Instance parser_bind : MBind parser := fun A B f m buf pos =>
  match m buf pos with
  | Val (a, pos') => f a buf pos'
  | Fail e => Fail e
  | Panic => Panic
  | NoFuel => NoFuel
  end.

Definition plift {A} (m : Result A) : parser A := fun buf pos => a ← m; mret (a, pos).

(** The byte at [pos], or the error [e], and [pos += 1]. *)
Definition get_byte (e : StoreError) : parser Z := fun buf pos =>
  b ← ok_or e (nth_z buf pos); mret (b, pos + 1).

(** [pos < buf.len()] *)
Definition more : parser bool := fun buf pos => Val (pos <? len buf, pos).

(** [Vec::with_capacity(n)] and [reserve(n)]: a capacity above [isize::MAX]
    aborts whatever the size of the elements; smaller ones succeed. *)
Definition with_capacity (n : Z) : Result unit :=
  if n <? 2 ^ 63 then Val tt else Panic.

(** [for _ in 0..n { out.push(p(buf, pos)?); }].  The fuel is the length of the
    buffer plus one: every use reads at least one byte. *)
Fixpoint get_n_loop {A} (fuel : nat) (n : Z) (p : parser A) : parser (list A) :=
  if n <=? 0 then mret []
  else match fuel with
       | O => fun _ _ => NoFuel
       | S fuel' => a ← p; l ← get_n_loop fuel' (n - 1) p; mret (a :: l)
       end.
Definition get_n {A} (n : Z) (p : parser A) : parser (list A) :=
  fun buf pos => get_n_loop (S (length buf)) n p buf pos.

(** ** Varints *)

(** The loop of [put_uvarint]; ten groups of seven bits hold a [u64]. *)
Fixpoint put_uvarint_loop (fuel : nat) (v : Z) : bytes :=
  match fuel with
  | O => []
  | S fuel' =>
      let b := as_u8 (Z.land v 127) in
      let v := Z.shiftr v 7 in
      let b := if negb (v =? 0) then Z.lor b 128 else b in
      b :: (if v =? 0 then [] else put_uvarint_loop fuel' v)
  end.
Definition put_uvarint (v : Z) : bytes := put_uvarint_loop 10 v.

(** The loop of [get_uvarint]: the eleventh byte is refused. *)
Fixpoint get_uvarint_loop (fuel : nat) (result shift : Z) : parser Z :=
  match fuel with
  | O => fun _ _ => NoFuel
  | S fuel' =>
      b ← get_byte (Corrupt (str "varint eof"));
      if 64 <=? shift then plift (Fail (Corrupt (str "varint overflow")))
      else
        let result := Z.lor result (as_u64 (Z.shiftl (Z.land b 127) shift)) in
        if Z.land b 128 =? 0 then mret result
        else get_uvarint_loop fuel' result (shift + 7)
  end.
Definition get_uvarint : parser Z := get_uvarint_loop 11 0 0.

(** ** Byte strings and text *)

Definition put_bytes (b : bytes) : bytes := put_uvarint (len b) ++ b.

(** The [len] bytes from [pos], checked against the end of the buffer. *)
Definition take_bytes (n : Z) : parser bytes := fun buf pos =>
  e ← ok_or (Corrupt (str "bytes eof"))
        (match checked_add pos n with
         | Some e => if e <=? len buf then Some e else None
         | None => None
         end);
  s ← slice buf pos e;
  mret (s, e).

Definition get_bytes : parser bytes := n ← get_uvarint; take_bytes n.

Definition put_str (s : bytes) : bytes := put_bytes s.

Definition get_str : parser bytes :=
  b ← get_bytes;
  plift (if utf8_valid b then Val b else Fail (Corrupt (str "bad utf8"))).

(** ** Cells and rows *)

Definition cell : Type := option Value.t.

Definition put_cell (c : cell) : bytes :=
  match c with
  | None => [0]
  | Some v => [1] ++ [Ty.tag (Value.type_of v)] ++ put_str (Value.display v)
  end.

Definition get_cell : parser cell :=
  present ← get_byte (Corrupt (str "cell eof"));
  if present =? 0 then mret None
  else
    tag ← get_byte (Corrupt (str "cell tag eof"));
    ty ← plift (ok_or (Corrupt (str "bad type tag")) (Ty.from_tag tag));
    s ← get_str;
    v ← plift (map_err (fun _ => Corrupt (str "undecodable value")) (Value.parse ty s));
    mret (Some v).

Definition encode_row (cells : list cell) : bytes :=
  put_uvarint (len cells) ++ concat (put_cell <$> cells).

Definition get_row : parser (list cell) :=
  n ← get_uvarint;
  _ ← plift (with_capacity n);
  get_n n get_cell.

Definition decode_row (buf : bytes) : Result (list cell) :=
  '(cells, _) ← get_row buf 0; mret cells.

(** ** Encodings and their readers

    [reads p e a]: wherever the bytes [e] lie in a buffer, [p] started there
    returns [a] and stops right after them.  A Rust slice is never longer than
    [isize::MAX]. *)

Definition buf_ok (buf : bytes) : Prop := len buf < 2 ^ 63.

Definition reads {A} (p : parser A) (e : bytes) (a : A) : Prop :=
  forall pre post, buf_ok (pre ++ e ++ post) ->
    p (pre ++ e ++ post) (len pre) = Val (a, len pre + len e).

(** What a type with an encoding promises its users. *)
Class Encoding (A : Type) := {
  enc_ok : A -> Prop;
  enc_put : A -> bytes;
  enc_get : parser A
}.
Class EncodingLaws (A : Type) `{!Encoding A} : Prop := {
  enc_reads a : enc_ok a -> reads enc_get (enc_put a) a;
  enc_nonempty a : enc_put a <> []
}.

Lemma reads_ret {A} (a : A) : reads (mret a) [] a.
Proof. intros pre post _. cbn. by rewrite Z.add_0_r. Qed.

Lemma reads_bind {A B} (p : parser A) (f : A -> parser B) e1 e2 a b :
  reads p e1 a -> reads (f a) e2 b -> reads (p ≫= f) (e1 ++ e2) b.
Proof.
  intros Hp Hf pre post Hb. unfold mbind, parser_bind.
  rewrite <- app_assoc in *. rewrite (Hp pre (e2 ++ post)) by done.
  specialize (Hf (pre ++ e1) post). rewrite <- app_assoc, !length_app, Nat2Z.inj_add in Hf.
  rewrite Hf by done. do 2 f_equal. rewrite length_app. lia.
Qed.

(** A step that reads nothing. *)
Lemma reads_plift {A B} (m : Result A) (f : A -> parser B) e a b :
  m = Val a -> reads (f a) e b -> reads (a ← plift m; f a) e b.
Proof. intros -> Hf. change e with ([] ++ e). eapply reads_bind; [apply reads_ret|done]. Qed.

Lemma reads_plift_end {A} (m : Result A) a : m = Val a -> reads (plift m) [] a.
Proof. intros ->. apply reads_ret. Qed.

Lemma reads_byte e b : reads (get_byte e) [b] b.
Proof.
  intros pre post _. unfold get_byte, nth_z. rewrite Nat2Z.id.
  rewrite lookup_app_r, Nat.sub_diag by lia. done.
Qed.

Lemma reads_n {A} (p : parser A) (enc : A -> bytes) l n :
  n = len l -> (forall a, a ∈ l -> reads p (enc a) a) -> (forall a, enc a <> []) ->
  reads (get_n n p) (concat (enc <$> l)) l.
Proof.
  intros -> Hr Hne.
  enough (H : forall fuel, (length l <= fuel)%nat ->
    reads (get_n_loop fuel (len l) p) (concat (enc <$> l)) l).
  { intros pre post Hb. unfold get_n. apply H; [|done].
    assert (length l <= length (concat (enc <$> l)))%nat.
    { clear -Hne. induction l as [|a l IH]; cbn; [lia|]. rewrite length_app.
      specialize (Hne a). destruct (enc a); [done|cbn; lia]. }
    rewrite !length_app. lia. }
  induction l as [|a l IH]; intros fuel Hf.
  - destruct fuel; apply reads_ret.
  - destruct fuel as [|fuel]; [cbn in Hf; lia|]. cbn [get_n_loop fmap list_fmap concat].
    replace (len (a :: l) <=? 0) with false by (symmetry; apply Z.leb_gt; cbn; lia).
    eapply reads_bind; [apply Hr; left|].
    replace (len (a :: l) - 1) with (len l) by (cbn [length]; lia).
    rewrite <- (app_nil_r (concat _)). eapply reads_bind; [|apply reads_ret].
    apply IH; [|cbn in Hf; lia]. intros x Hx. apply Hr. by right.
Qed.

(** ** Varint round trip *)

Lemma land_127 v : Z.land v 127 = v mod 128.
Proof. change 127 with (Z.ones 7). by rewrite Z.land_ones. Qed.

Lemma group_bits b : 0 <= b < 128 ->
  Z.land b 127 = b /\ Z.land b 128 = 0 /\
  Z.land (Z.lor b 128) 127 = b /\ Z.land (Z.lor b 128) 128 <> 0 /\ is_byte (Z.lor b 128).
Proof.
  intros Hb.
  pose proof (byte_forall (fun b => if b <? 128 then
    (Z.land b 127 =? b) && (Z.land b 128 =? 0) && (Z.land (Z.lor b 128) 127 =? b) &&
    negb (Z.land (Z.lor b 128) 128 =? 0) && (0 <=? Z.lor b 128) && (Z.lor b 128 <? 256)
    else true) ltac:(vm_compute; reflexivity) b ltac:(unfold is_byte; lia)) as H.
  cbn beta in H. rewrite (proj2 (Z.ltb_lt b 128)) in H by lia. bools.
  unfold is_byte. by repeat split.
Qed.

Lemma uvarint_loop_reads n : forall s r v,
  (0 < n)%nat -> 0 <= s -> s + 7 * Z.of_nat n = 70 ->
  0 <= r < 2 ^ s -> 0 <= v -> v * 2 ^ s < 2 ^ 64 ->
  reads (get_uvarint_loop (S n) r s) (put_uvarint_loop n v) (r + v * 2 ^ s).
Proof.
  induction n as [|n IH]; intros s r v Hn Hs Hsn Hr Hv Hv64; [lia|].
  assert (Hs63 : s <= 63) by lia. assert (P : 0 < 2 ^ s) by (apply Z.pow_pos_nonneg; lia).
  set (g := v mod 128). assert (Hg : 0 <= g < 128) by (apply Z.mod_pos_bound; lia).
  destruct (group_bits g Hg) as (B1 & B2 & B3 & B4 & B5).
  assert (Hvg : v = g + 128 * Z.shiftr v 7)
    by (rewrite Z.shiftr_div_pow2 by lia; unfold g; lia).
  assert (Hq : 0 <= Z.shiftr v 7) by (apply Z.shiftr_nonneg; lia).
  assert (Hr' : Z.lor r (as_u64 (Z.shiftl g s)) = r + g * 2 ^ s).
  { unfold as_u64. rewrite Z.mod_small by (rewrite Z.shiftl_mul_pow2 by lia; nia).
    apply lor_shiftl_add; lia. }
  cbn [put_uvarint_loop]. cbn zeta. rewrite land_127. fold g.
  assert (Hu : as_u8 g = g) by (unfold as_u8; apply Z.mod_small; lia). rewrite Hu.
  destruct (Z.eqb_spec (Z.shiftr v 7) 0) as [E|E]; cbn [negb].
  - cbn [get_uvarint_loop]. change [g] with ([g] ++ []).
    eapply reads_bind; [apply reads_byte|].
    rewrite (proj2 (Z.leb_gt 64 s)) by lia. rewrite B1, B2, Hr'. cbn zeta.
    replace (r + v * 2 ^ s) with (r + g * 2 ^ s) by (rewrite Hvg, E; lia).
    apply reads_ret.
  - cbn [get_uvarint_loop]. change (?b :: ?l) with ([b] ++ l).
    eapply reads_bind; [apply reads_byte|].
    rewrite (proj2 (Z.leb_gt 64 s)) by lia. rewrite B3, Hr'. cbn zeta.
    rewrite (proj2 (Z.eqb_neq _ 0) B4).
    assert (P7 : 2 ^ (s + 7) = 128 * 2 ^ s) by (rewrite Z.pow_add_r by lia; lia).
    replace (r + v * 2 ^ s) with ((r + g * 2 ^ s) + Z.shiftr v 7 * 2 ^ (s + 7))
      by (rewrite P7; rewrite Hvg at 2; lia).
    assert (n <> 0%nat).
    { intros ->. replace s with 63 in * by lia.
      assert (v < 2) by (clear -Hv64; lia). lia. }
    apply IH; try lia; rewrite P7; nia.
Qed.

Lemma reads_uvarint v : 0 <= v < 2 ^ 64 -> reads get_uvarint (put_uvarint v) v.
Proof.
  intros Hv. pose proof (uvarint_loop_reads 10 0 0 v) as H.
  rewrite Z.add_0_l, Z.pow_0_r, Z.mul_1_r in H. apply H; lia.
Qed.

Lemma put_uvarint_nonempty v : put_uvarint v <> [].
Proof. by unfold put_uvarint. Qed.

Lemma put_uvarint_bytes v : is_bytes (put_uvarint v).
Proof.
  unfold put_uvarint. generalize 10%nat. intros n; revert v.
  induction n as [|n IH]; intros v; cbn; [constructor|].
  assert (Hg : 0 <= v mod 128 < 128) by (apply Z.mod_pos_bound; lia).
  destruct (group_bits _ Hg) as (_ & _ & _ & _ & B5).
  rewrite land_127. unfold as_u8. rewrite (Z.mod_small (v mod 128)) by lia.
  constructor.
  - destruct (negb _); [done|]. unfold is_byte; lia.
  - destruct (_ =? 0); [constructor|apply IH].
Qed.

(** ** Round trips *)

Definition u64_ok (v : Z) : Prop := 0 <= v < 2 ^ 64.
Definition text_ok (s : bytes) : Prop := utf8_valid s = true /\ len s < 2 ^ 63.
Definition cell_ok (c : cell) : Prop :=
  match c with
  | None => True
  | Some v => ValueFacts.wf v /\ len (Value.display v) < 2 ^ 63
  end.

Lemma reads_take_bytes b : reads (take_bytes (len b)) b b.
Proof.
  intros pre post Hb. unfold take_bytes, checked_add, buf_ok in *.
  rewrite !length_app in *.
  rewrite (proj2 (Z.ltb_lt _ (2 ^ 64))) by lia.
  rewrite (proj2 (Z.leb_le _ _)) by lia. cbn [ok_or mbind outcome_bind].
  by rewrite (slice_app pre b post).
Qed.

Lemma reads_bytes b : len b < 2 ^ 63 -> reads get_bytes (put_bytes b) b.
Proof.
  intros Hb. eapply reads_bind; [apply reads_uvarint; lia|apply reads_take_bytes].
Qed.

Lemma reads_str s : text_ok s -> reads get_str (put_str s) s.
Proof.
  intros [Hu Hl]. unfold get_str, put_str. rewrite <- (app_nil_r (put_bytes s)).
  eapply reads_bind; [by apply reads_bytes|]. apply reads_plift_end. by rewrite Hu.
Qed.

Lemma reads_cell c : cell_ok c -> reads get_cell (put_cell c) c.
Proof.
  destruct c as [v|]; cbn [cell_ok put_cell]; unfold get_cell.
  - intros [Hv Hl]. eapply reads_bind; [apply reads_byte|]. change (1 =? 0) with false. cbn iota.
    eapply reads_bind; [apply reads_byte|].
    eapply reads_plift; [by rewrite Ty.from_tag_tag|].
    rewrite <- (app_nil_r (put_str _)).
    eapply reads_bind; [apply reads_str; split; [by apply ValueFacts.display_utf8|done]|].
    eapply reads_plift; [by rewrite ValueFacts.value_parse_display|]. apply reads_ret.
  - intros _. change [0] with ([0] ++ []). eapply reads_bind; [apply reads_byte|].
    apply reads_ret.
Qed.

Lemma put_cell_nonempty c : put_cell c <> [].
Proof. by destruct c. Qed.

Lemma reads_row cells : Forall cell_ok cells -> len cells < 2 ^ 63 ->
  reads get_row (encode_row cells) cells.
Proof.
  intros Hc Hl. unfold get_row, encode_row.
  eapply reads_bind; [apply reads_uvarint; lia|].
  eapply reads_plift; [unfold with_capacity; by rewrite (proj2 (Z.ltb_lt _ _) Hl)|].
  apply reads_n; [done| |apply put_cell_nonempty].
  intros c Hin. apply reads_cell. rewrite Forall_forall in Hc. auto.
Qed.

#[export] Instance uvarint_encoding : Encoding Z := {
  enc_ok := u64_ok; enc_put := put_uvarint; enc_get := get_uvarint }.
#[export] Instance uvarint_laws : EncodingLaws Z := {
  enc_reads := reads_uvarint; enc_nonempty := put_uvarint_nonempty }.
#[export] Instance cell_encoding : Encoding cell := {
  enc_ok := cell_ok; enc_put := put_cell; enc_get := get_cell }.
#[export] Instance cell_laws : EncodingLaws cell := {
  enc_reads := reads_cell; enc_nonempty := put_cell_nonempty }.

(** ** Totality

    On any buffer the readers end with a value or an error, never past the end
    of the buffer; [k] is the least number of bytes read, [Q] what holds of the
    result. *)

Definition total_parser {A} (k : Z) (p : parser A) (Q : A -> Prop) : Prop :=
  forall buf pos, buf_ok buf -> 0 <= pos <= len buf ->
    no_abort (p buf pos) /\
    forall a pos', p buf pos = Val (a, pos') -> pos + k <= pos' <= len buf /\ Q a.

Lemma total_ret {A} (a : A) (Q : A -> Prop) : Q a -> total_parser 0 (mret a) Q.
Proof. intros HQ buf pos _ Hp. split; [by split|]. intros ? ? [= <- <-]. split; [lia|done]. Qed.

Lemma total_bind {A B} k1 k2 (p : parser A) (f : A -> parser B) Q1 Q2 :
  0 <= k1 -> total_parser k1 p Q1 -> (forall a, Q1 a -> total_parser k2 (f a) Q2) ->
  total_parser (k1 + k2) (p ≫= f) Q2.
Proof.
  intros Hk Hp Hf buf pos Hb Hpos. destruct (Hp buf pos Hb Hpos) as [Hn Hv].
  unfold mbind, parser_bind. apply no_abort_cases in Hn as [[[a pos1] E]|[e E]]; rewrite E.
  - destruct (Hv a pos1 E) as [? HQ].
    destruct (Hf a HQ buf pos1 Hb) as [Hn' Hv']; [lia|]. split; [done|].
    intros b pos' Hb'. destruct (Hv' b pos' Hb'). split; [lia|done].
  - by split.
Qed.

Lemma total_weaken {A} k k' (p : parser A) (Q Q' : A -> Prop) :
  k' <= k -> (forall a, Q a -> Q' a) -> total_parser k p Q -> total_parser k' p Q'.
Proof.
  intros Hk HQ Hp buf pos Hb Hpos. destruct (Hp buf pos Hb Hpos) as [Hn Hv].
  split; [done|]. intros a pos' E. destruct (Hv a pos' E). split; [lia|auto].
Qed.

Lemma total_plift {A} (m : Result A) (Q : A -> Prop) :
  no_abort m -> (forall a, m = Val a -> Q a) -> total_parser 0 (plift m) Q.
Proof.
  intros Hn HQ buf pos _ Hp. unfold plift.
  apply no_abort_cases in Hn as [[a ->]|[e ->]]; [|by split].
  split; [by split|]. intros ? ? [= <- <-]. split; [lia|auto].
Qed.

Lemma total_byte e : total_parser 1 (get_byte e) (fun _ => True).
Proof.
  intros buf pos Hb Hp. unfold get_byte, nth_z.
  destruct (buf !! Z.to_nat pos) as [b|] eqn:E; cbn; [|by split].
  apply lookup_lt_Some in E. split; [by split|]. intros ? ? [= <- <-]. split; [lia|done].
Qed.

Lemma lor_u64 a b : u64_ok a -> u64_ok b -> u64_ok (Z.lor a b).
Proof.
  intros [Ha Ha'] [Hb Hb']. split; [by apply Z.lor_nonneg|].
  destruct (decide (Z.lor a b = 0)) as [->|Hne]; [lia|].
  apply Z.log2_lt_pow2; [pose proof (Z.lor_nonneg a b); lia|].
  rewrite Z.log2_lor by done. apply Z.max_lub_lt.
  - destruct (decide (a = 0)) as [->|]; [done|]. apply Z.log2_lt_pow2; lia.
  - destruct (decide (b = 0)) as [->|]; [done|]. apply Z.log2_lt_pow2; lia.
Qed.

Lemma total_uvarint_loop n : forall r s,
  0 <= s -> s + 7 * Z.of_nat n = 70 -> u64_ok r ->
  total_parser 1 (get_uvarint_loop (S n) r s) u64_ok.
Proof.
  induction n as [|n IH]; intros r s Hs Hsn Hr.
  - cbn [get_uvarint_loop]. replace s with 70 by lia. change (64 <=? 70) with true. cbn iota.
    eapply (total_bind 1 0); [lia|apply total_byte|]. intros b _.
    apply total_plift; [apply no_abort_fail|done].
  - set (m := S n) in *. cbn [get_uvarint_loop]. subst m.
    change 1 with (1 + 0). eapply total_bind; [lia|apply total_byte|]. intros b _.
    destruct (64 <=? s); [apply total_plift; [apply no_abort_fail|done]|]. cbn zeta.
    assert (Hr' : u64_ok (Z.lor r (as_u64 (Z.shiftl (Z.land b 127) s)))).
    { apply lor_u64; [done|]. apply Z.mod_pos_bound. lia. }
    destruct (Z.land b 128 =? 0); [by apply total_ret|].
    eapply total_weaken; [| |apply IH]; [lia|done|lia|lia|done].
Qed.

Lemma total_uvarint : total_parser 1 get_uvarint u64_ok.
Proof. apply total_uvarint_loop; unfold u64_ok; lia. Qed.

Lemma total_take_bytes n : u64_ok n -> total_parser 0 (take_bytes n) (fun _ => True).
Proof.
  intros Hn buf pos Hb Hp. unfold take_bytes, checked_add.
  destruct (Z.ltb_spec (pos + n) (2 ^ 64)); cbn; [|by split].
  destruct (Z.leb_spec (pos + n) (len buf)); cbn; [|by split].
  unfold slice, u64_ok in *. tests. split; [by split|].
  cbn. intros ? ? [= <- <-]. split; [lia|done].
Qed.

Lemma total_str : total_parser 1 get_str (fun s => utf8_valid s = true).
Proof.
  unfold get_str, get_bytes. change 1 with (1 + 0). apply (total_bind _ _ _ _ (fun _ => True)); [lia| |].
  - change 1 with (1 + 0).
    eapply total_bind; [lia|apply total_uvarint|intros a Ha; by apply total_take_bytes].
  - intros b _. apply total_plift; destruct (utf8_valid b) eqn:E; [by split..| |done].
    by intros a [= <-].
Qed.

Definition cell_wf (c : cell) : Prop :=
  match c with None => True | Some v => ValueFacts.wf v end.

Lemma total_cell : total_parser 1 get_cell cell_wf.
Proof.
  unfold get_cell. change 1 with (1 + 0). eapply total_bind; [lia|apply total_byte|].
  intros b _. destruct (b =? 0); [by apply total_ret|].
  eapply total_weaken; [| |eapply (total_bind 1 0); [lia|apply total_byte|]]; [lia|done|].
  intros tag _. change 0 with (0 + 0).
  eapply (total_bind _ _ _ _ (fun _ => True)); [lia|by apply total_plift; [apply no_abort_ok_or|]|].
  intros ty _. eapply total_weaken; [| |eapply (total_bind 1 0); [lia|apply total_str|]]; [lia|done|].
  intros s Hs. change 0 with (0 + 0).
  eapply (total_bind _ _ _ _ (fun v => ValueFacts.wf v));
    [lia|apply total_plift|intros v Hv; by apply total_ret].
  - by apply no_abort_map_err, ValueFacts.value_parse_total.
  - intros v Hv%ValueFacts.map_err_val. by apply (ValueFacts.parse_spec ty s).
Qed.

Lemma total_n {A} (p : parser A) Q n :
  total_parser 1 p Q -> total_parser 0 (get_n n p) (Forall Q).
Proof.
  intros Hp buf pos Hb Hpos. unfold get_n.
  assert (Hf : len buf - pos < Z.of_nat (S (length buf))) by lia.
  revert pos n Hpos Hf. generalize (S (length buf)).
  intros fuel; induction fuel as [|fuel IH]; intros pos n Hpos Hf; [lia|].
  cbn [get_n_loop]. destruct (n <=? 0).
  { split; [by split|]. intros ? ? [= <- <-]. split; [lia|constructor]. }
  unfold mbind, parser_bind. destruct (Hp buf pos Hb Hpos) as [Hn Hv].
  apply no_abort_cases in Hn as [[[a pos1] E]|[e E]]; rewrite E; [|by split].
  destruct (Hv a pos1 E) as [? HQ].
  destruct (IH pos1 (n - 1)) as [Hn' Hv']; [lia|lia|].
  apply no_abort_cases in Hn' as [[[l pos2] E']|[e E']]; rewrite E'; [|by split].
  destruct (Hv' l pos2 E'). split; [by split|].
  intros ? ? [= <- <-]. split; [lia|by constructor].
Qed.
