(* ===== verification/Schema.v ===== *)
(** * The schema model

    [tablestore/src/schema.rs]: columns, foreign keys, tables, the reference
    label of a row, and the serialized schema with its older forms. *)

From S2P Require Import Prelude Types Value ValueFacts Codec.

(** ** Data *)

Module Column.
Record t := mk {
  name : bytes; ty : Ty.t; nullable : bool; unique : bool;
  display_width : option Z
}.
#[global] Instance t_eq_dec : EqDecision t.
Proof. solve_decision. Defined.
End Column.

Module ForeignKey.
Record t := mk { name : bytes; from_col : bytes; to_table : bytes; to_col : bytes }.
#[global] Instance t_eq_dec : EqDecision t.
Proof. solve_decision. Defined.
End ForeignKey.

Module Table.
Record t := mk {
  name : bytes; columns : list Column.t; fks : list ForeignKey.t;
  ref_cols : list bytes
}.
#[global] Instance t_eq_dec : EqDecision t.
Proof. solve_decision. Defined.

(** [Table::new] *)
Definition new (n : bytes) : t := mk n [] [] [].

(** ** Lookups *)

Definition column_index (t : t) (n : bytes) : option nat :=
  position (fun c => str_eqb (Column.name c) n) (columns t).

Definition column (t : t) (n : bytes) : option Column.t :=
  List.find (fun c => str_eqb (Column.name c) n) (columns t).

Definition fk_touches (t : t) (col : bytes) : bool :=
  existsb (fun f => str_eqb (ForeignKey.from_col f) col ||
    (str_eqb (ForeignKey.to_table f) (name t) && str_eqb (ForeignKey.to_col f) col)) (fks t).

Definition ref_col_indices (t : t) : list nat :=
  let mapped := omap (column_index t) (ref_cols t) in
  let uniq := fst <$> List.filter (fun p : nat * Column.t => Column.unique p.2)
                                  (enumerate (columns t)) in
  let fallback :=
    match uniq with
    | _ :: _ => uniq
    | [] => match columns t with [] => [] | _ => [0%nat] end
    end in
  match ref_cols t with
  | [] => fallback
  | _ => match mapped with [] => fallback | _ => mapped end
  end.

(** The loop of [reference_label] over the label columns. *)
Fixpoint label_parts (t : t) (row : list cell) (cis : list nat) : outcome unit (list bytes) :=
  match cis with
  | [] => mret []
  | ci :: cis' =>
      let val := match row !! ci with
                 | Some (Some v) => Value.display v
                 | _ => str "NULL"
                 end in
      c ← or_panic (columns t !! ci);
      ps ← label_parts t row cis';
      mret ((Column.name c ++ str ":" ++ val) :: ps)
  end.
Definition reference_label (t : t) (row : list cell) : outcome unit bytes :=
  parts ← label_parts t row (ref_col_indices t);
  mret (join (str " ") parts).

(** ** Serialization *)

Definition bool_byte (b : bool) : Z := if b then 1 else 0.

Definition put_column (c : Column.t) : bytes :=
  put_str (Column.name c) ++ [Ty.tag (Column.ty c)] ++
  [bool_byte (Column.nullable c)] ++ [bool_byte (Column.unique c)].

Definition put_fk (f : ForeignKey.t) : bytes :=
  put_str (ForeignKey.name f) ++ put_str (ForeignKey.from_col f) ++
  put_str (ForeignKey.to_table f) ++ put_str (ForeignKey.to_col f).

(** The sparse [(column index, width)] list. *)
Definition widths (t : t) : list (nat * Z) :=
  omap (fun p : nat * Column.t => (fun w => (p.1, w)) <$> Column.display_width p.2)
       (enumerate (columns t)).

Definition put_width (p : nat * Z) : bytes :=
  put_uvarint (Z.of_nat p.1) ++ put_uvarint p.2.

Definition encode (t : t) : bytes :=
  put_str (name t) ++
  put_uvarint (len (columns t)) ++ concat (put_column <$> columns t) ++
  put_uvarint (len (fks t)) ++ concat (put_fk <$> fks t) ++
  put_uvarint (len (ref_cols t)) ++ concat (put_str <$> ref_cols t) ++
  put_uvarint (len (widths t)) ++ concat (put_width <$> widths t).

Definition get_column : parser Column.t :=
  n ← get_str;
  tag ← get_byte (Corrupt (str "schema eof"));
  ty ← plift (ok_or (Corrupt (str "schema type")) (Ty.from_tag tag));
  nullable ← get_byte (Corrupt (str "schema eof"));
  unique ← get_byte (Corrupt (str "schema eof"));
  mret (Column.mk n ty (negb (nullable =? 0)) (negb (unique =? 0)) None).

Definition get_fk : parser ForeignKey.t :=
  n ← get_str;
  from ← get_str;
  to_t ← get_str;
  to_c ← get_str;
  mret (ForeignKey.mk n from to_t to_c).

Definition set_width (w : Z) (c : Column.t) : Column.t :=
  Column.mk (Column.name c) (Column.ty c) (Column.nullable c) (Column.unique c)
    (Some (as_u16 w)).

(** One entry of the width list: [columns.get_mut(ci)] ignores an index out
    of range. *)
Definition get_width (cols : list Column.t) : parser (list Column.t) :=
  ci ← get_uvarint;
  w ← get_uvarint;
  mret (if ci <? len cols then alter (set_width w) (Z.to_nat ci) cols else cols).

Fixpoint get_widths_loop (fuel : nat) (n : Z) (cols : list Column.t) : parser (list Column.t) :=
  if n <=? 0 then mret cols
  else match fuel with
       | O => fun _ _ => NoFuel
       | S fuel' => cols ← get_width cols; get_widths_loop fuel' (n - 1) cols
       end.
Definition get_widths (n : Z) (cols : list Column.t) : parser (list Column.t) :=
  fun buf pos => get_widths_loop (S (length buf)) n cols buf pos.

Definition get_ref_cols : parser (list bytes) :=
  m ← more;
  if m : bool then
    n ← get_uvarint;
    _ ← plift (with_capacity n);
    get_n n get_str
  else mret [].

Definition get_display_widths (cols : list Column.t) : parser (list Column.t) :=
  m ← more;
  if m : bool then n ← get_uvarint; get_widths n cols else mret cols.

Definition get_table : parser t :=
  n ← get_str;
  ncols ← get_uvarint;
  _ ← plift (with_capacity ncols);
  cols ← get_n ncols get_column;
  nfks ← get_uvarint;
  _ ← plift (with_capacity nfks);
  fks ← get_n nfks get_fk;
  ref_cols ← get_ref_cols;
  cols ← get_display_widths cols;
  mret (mk n cols fks ref_cols).

Definition decode (buf : bytes) : Result t :=
  '(tbl, _) ← get_table buf 0; mret tbl.

End Table.

(** ** Well-formed schemas *)

Module TableFacts.
Import Table.

Definition width_ok (w : option Z) : Prop :=
  match w with None => True | Some w => 0 <= w < 2 ^ 16 end.
Definition column_ok (c : Column.t) : Prop :=
  text_ok (Column.name c) /\ width_ok (Column.display_width c).
Definition fk_ok (f : ForeignKey.t) : Prop :=
  text_ok (ForeignKey.name f) /\ text_ok (ForeignKey.from_col f) /\
  text_ok (ForeignKey.to_table f) /\ text_ok (ForeignKey.to_col f).

(** What can be written out: texts are UTF-8 and widths are [u16]. *)
Record table_ok (t : t) : Prop := {
  ok_name : text_ok (name t);
  ok_columns : Forall column_ok (columns t);
  ok_fks : Forall fk_ok (fks t);
  ok_refs : Forall text_ok (ref_cols t);
  ok_size : len (encode t) < 2 ^ 63
}.

Definition clear_width (c : Column.t) : Column.t :=
  Column.mk (Column.name c) (Column.ty c) (Column.nullable c) (Column.unique c) None.

(** ** Round trip *)

Lemma reads_column c : text_ok (Column.name c) ->
  reads get_column (put_column c) (clear_width c).
Proof.
  intros Hn. unfold get_column, put_column.
  eapply reads_bind; [by apply reads_str|]. eapply reads_bind; [apply reads_byte|].
  eapply reads_plift; [by rewrite Ty.from_tag_tag|].
  eapply reads_bind; [apply reads_byte|]. rewrite <- (app_nil_r [bool_byte (Column.unique c)]).
  eapply reads_bind; [apply reads_byte|].
  replace (clear_width c) with (Column.mk (Column.name c) (Column.ty c)
    (negb (bool_byte (Column.nullable c) =? 0)) (negb (bool_byte (Column.unique c) =? 0)) None)
    by (unfold clear_width, bool_byte; by destruct (Column.nullable c), (Column.unique c)).
  apply reads_ret.
Qed.

Lemma reads_fk f : fk_ok f -> reads get_fk (put_fk f) f.
Proof.
  intros (H1 & H2 & H3 & H4). unfold get_fk, put_fk.
  eapply reads_bind; [by apply reads_str|]. eapply reads_bind; [by apply reads_str|].
  eapply reads_bind; [by apply reads_str|]. rewrite <- (app_nil_r (put_str (ForeignKey.to_col f))).
  eapply reads_bind; [by apply reads_str|]. destruct f. apply reads_ret.
Qed.

Definition apply_width (cols : list Column.t) (p : nat * Z) : list Column.t :=
  alter (set_width p.2) p.1 cols.

Lemma apply_width_length cols p : length (apply_width cols p) = length cols.
Proof. apply length_alter. Qed.

Lemma reads_widths_loop ws : forall fuel cols,
  (length ws <= fuel)%nat ->
  Forall (fun p => (p.1 < length cols)%nat /\ 0 <= p.2 < 2 ^ 16) ws ->
  len cols < 2 ^ 63 ->
  reads (get_widths_loop fuel (len ws) cols) (concat (put_width <$> ws))
        (fold_left apply_width ws cols).
Proof.
  induction ws as [|[i w] ws IH]; intros fuel cols Hf Hws Hc.
  - destruct fuel; apply reads_ret.
  - destruct fuel as [|fuel]; [cbn in Hf; lia|].
    apply Forall_cons in Hws as [[Hi Hw] Hws]. cbn [fst snd] in Hi, Hw.
    cbn [get_widths_loop fmap list_fmap concat fold_left].
    replace (len ((i, w) :: ws) <=? 0) with false by (symmetry; apply Z.leb_gt; cbn; lia).
    replace (len ((i, w) :: ws) - 1) with (len ws) by (cbn [length]; lia).
    eapply reads_bind.
    + unfold get_width, put_width. cbn [fst snd].
      eapply reads_bind; [apply reads_uvarint; lia|]. rewrite <- (app_nil_r (put_uvarint w)).
      eapply reads_bind; [apply reads_uvarint; lia|]. apply reads_ret.
    + rewrite (proj2 (Z.ltb_lt _ _)) by lia. rewrite Nat2Z.id.
      apply (IH fuel (apply_width cols (i, w)));
        [cbn in Hf; lia| |by rewrite apply_width_length].
      eapply Forall_impl; [exact Hws|]. cbn beta. intros p ?. by rewrite apply_width_length.
Qed.

Lemma reads_widths ws cols :
  Forall (fun p => (p.1 < length cols)%nat /\ 0 <= p.2 < 2 ^ 16) ws ->
  len cols < 2 ^ 63 ->
  reads (get_widths (len ws) cols) (concat (put_width <$> ws)) (fold_left apply_width ws cols).
Proof.
  intros Hws Hc pre post Hb. unfold get_widths. apply reads_widths_loop; [|done..].
  rewrite !length_app. enough (length ws <= length (concat (put_width <$> ws)))%nat by lia.
  clear. induction ws as [|p ws IH]; cbn; [lia|]. rewrite !length_app. lia.
Qed.

(** Replaying the sparse list over cleared columns restores the widths. *)
Lemma fold_widths cols : Forall column_ok cols -> forall pre,
  fold_left apply_width
    (omap (fun p : nat * Column.t => (fun w => (p.1, w)) <$> Column.display_width p.2)
       (zip (seq (length pre) (length cols)) cols))
    (pre ++ (clear_width <$> cols)) = pre ++ cols.
Proof.
  induction 1 as [|c cols [_ Hw] _ IH]; intros pre; [done|].
  cbn [length seq zip_with omap list_omap fmap list_fmap].
  assert (Happ : forall c', (pre ++ c' :: (clear_width <$> cols)) =
    ((pre ++ [c']) ++ (clear_width <$> cols))) by (intros; by rewrite <- app_assoc).
  destruct c as [n ty nu un [w|]]; cbn [Column.display_width fst snd].
  - cbn [fmap option_fmap option_map fold_left]. unfold apply_width at 2. cbn [fst snd].
    rewrite alter_app_r_alt, Nat.sub_diag by lia. cbn [alter list_alter].
    unfold set_width, clear_width at 1; cbn [Column.name Column.ty Column.nullable Column.unique].
    cbn in Hw. unfold as_u16. rewrite Z.mod_small by lia.
    rewrite Happ. replace (S (length pre)) with (length (pre ++ [Column.mk n ty nu un (Some w)]))
      by (rewrite length_app; cbn; lia).
    rewrite IH. by rewrite <- app_assoc.
  - cbn [fmap option_fmap option_map]. unfold clear_width at 1; cbn [Column.name Column.ty Column.nullable Column.unique].
    rewrite Happ. replace (S (length pre)) with (length (pre ++ [Column.mk n ty nu un None]))
      by (rewrite length_app; cbn; lia).
    rewrite IH. by rewrite <- app_assoc.
Qed.

Lemma widths_in_range t : Forall column_ok (columns t) ->
  Forall (fun p => (p.1 < length (clear_width <$> columns t))%nat /\ 0 <= p.2 < 2 ^ 16) (widths t).
Proof.
  intros Hc. rewrite length_fmap. apply Forall_forall. intros [i w] Hin.
  unfold widths in Hin. apply list_elem_of_omap in Hin as ([j c] & Hj & Hw).
  cbn in Hw. destruct (Column.display_width c) as [w'|] eqn:E; [|done].
  injection Hw as -> ->. unfold enumerate in Hj.
  apply list_elem_of_lookup in Hj as [k Hk]. apply lookup_zip_with_Some in Hk as (j' & c' & [= <- <-] & Hs & Hk).
  apply lookup_seq in Hs as [-> Hlt]. cbn. split; [lia|].
  rewrite Forall_lookup in Hc. destruct (Hc _ _ Hk) as [_ Hok]. by rewrite E in Hok.
Qed.

Lemma reads_ref_cols refs :
  Forall text_ok refs -> len refs < 2 ^ 63 ->
  reads get_ref_cols (put_uvarint (len refs) ++ concat (put_str <$> refs)) refs.
Proof.
  intros Hr Hl pre post Hb. unfold get_ref_cols, mbind, parser_bind, more.
  pose proof (put_uvarint_nonempty (len refs)) as Hne.
  rewrite (proj2 (Z.ltb_lt _ _)).
  2: { rewrite !length_app. destruct (put_uvarint _); [done|cbn; lia]. }
  clear Hne. revert pre post Hb.
  change (reads (n ← get_uvarint; _ ← plift (with_capacity n); get_n n get_str)
    (put_uvarint (len refs) ++ concat (put_str <$> refs)) refs).
  eapply reads_bind; [apply reads_uvarint; lia|].
  eapply reads_plift; [unfold with_capacity; by rewrite (proj2 (Z.ltb_lt _ _) Hl)|].
  apply reads_n; [done| |].
  - intros s Hin. apply reads_str. rewrite Forall_forall in Hr. auto.
  - intros s. unfold put_str, put_bytes. intros [H _]%app_nil. by apply put_uvarint_nonempty in H.
Qed.

Lemma reads_display_widths t cols : Forall column_ok (columns t) ->
  cols = clear_width <$> columns t -> len (columns t) < 2 ^ 63 -> len (widths t) < 2 ^ 63 ->
  reads (get_display_widths cols)
    (put_uvarint (len (widths t)) ++ concat (put_width <$> widths t)) (columns t).
Proof.
  intros Hc -> Hl Hw pre post Hb. unfold get_display_widths, mbind, parser_bind, more.
  pose proof (put_uvarint_nonempty (len (widths t))) as Hne.
  rewrite (proj2 (Z.ltb_lt _ _)).
  2: { rewrite !length_app. destruct (put_uvarint _); [done|cbn; lia]. }
  clear Hne. revert pre post Hb.
  change (reads (n ← get_uvarint; get_widths n (clear_width <$> columns t))
    (put_uvarint (len (widths t)) ++ concat (put_width <$> widths t)) (columns t)).
  eapply reads_bind; [apply reads_uvarint; lia|].
  pose proof (fold_widths (columns t) Hc []) as Hf. cbn [app length] in Hf.
  rewrite <- Hf at 2. apply reads_widths; [by apply widths_in_range|].
  by rewrite length_fmap.
Qed.

Lemma length_concat_ge {A} (f : A -> bytes) l :
  (forall x, f x <> []) -> (length l <= length (concat (f <$> l)))%nat.
Proof.
  intros Hf. induction l as [|x l IH]; cbn; [lia|]. rewrite length_app.
  specialize (Hf x). destruct (f x); [done|cbn; lia].
Qed.

Lemma put_str_nonempty s : put_str s <> [].
Proof. unfold put_str, put_bytes. intros [H _]%app_nil. by apply put_uvarint_nonempty in H. Qed.

Lemma put_column_nonempty c : put_column c <> [].
Proof. unfold put_column. intros [H _]%app_nil. by apply put_str_nonempty in H. Qed.

Lemma put_fk_nonempty f : put_fk f <> [].
Proof. unfold put_fk. intros [H _]%app_nil. by apply put_str_nonempty in H. Qed.

Lemma put_width_nonempty p : put_width p <> [].
Proof. unfold put_width. intros [H _]%app_nil. by apply put_uvarint_nonempty in H. Qed.

(** The counts of a schema whose image fits a buffer fit one too. *)
Lemma counts_ok t : table_ok t ->
  len (columns t) < 2 ^ 63 /\ len (fks t) < 2 ^ 63 /\ len (ref_cols t) < 2 ^ 63 /\
  len (widths t) < 2 ^ 63.
Proof.
  intros [_ _ _ _ Hs]. unfold encode in Hs. rewrite !length_app in Hs.
  pose proof (length_concat_ge put_column (columns t) put_column_nonempty).
  pose proof (length_concat_ge put_fk (fks t) put_fk_nonempty).
  pose proof (length_concat_ge put_str (ref_cols t) put_str_nonempty).
  pose proof (length_concat_ge put_width (widths t) put_width_nonempty).
  repeat split; lia.
Qed.

Lemma reads_columns cols : Forall column_ok cols ->
  reads (get_n (len cols) get_column) (concat (put_column <$> cols)) (clear_width <$> cols).
Proof.
  intros Hc.
  assert (E : put_column <$> cols = put_column <$> (clear_width <$> cols)).
  { rewrite <- list_fmap_compose. apply list_fmap_ext. intros i c _. done. }
  rewrite E. rewrite <- (length_fmap clear_width cols).
  apply reads_n; [done| |apply put_column_nonempty].
  intros c (c' & -> & Hin)%list_elem_of_fmap.
  rewrite Forall_forall in Hc. destruct (Hc c' Hin) as [Ht _].
  change (clear_width c') with (clear_width (clear_width c')) at 2.
  by apply reads_column.
Qed.

Lemma reads_table t : table_ok t -> reads get_table (encode t) t.
Proof.
  intros Hok. destruct (counts_ok t Hok) as (Lc & Lf & Lr & Lw).
  destruct Hok as [Hn Hc Hf Hr _]. unfold get_table, encode.
  eapply reads_bind; [by apply reads_str|].
  eapply reads_bind; [apply reads_uvarint; lia|].
  eapply reads_plift; [unfold with_capacity; by rewrite (proj2 (Z.ltb_lt _ _) Lc)|].
  eapply reads_bind; [by apply reads_columns|].
  eapply reads_bind; [apply reads_uvarint; lia|].
  eapply reads_plift; [unfold with_capacity; by rewrite (proj2 (Z.ltb_lt _ _) Lf)|].
  eapply reads_bind.
  { apply reads_n; [done| |apply put_fk_nonempty].
    intros f Hin. apply reads_fk. rewrite Forall_forall in Hf. auto. }
  rewrite app_assoc. eapply reads_bind; [by apply reads_ref_cols|].
  rewrite <- (app_nil_r (put_uvarint (len (widths t)) ++ _)).
  eapply reads_bind; [by apply reads_display_widths|].
  destruct t. apply reads_ret.
Qed.

(** ** Images written before the reference columns and the widths existed *)

(** [reads] where the buffer ends with the encoding. *)
Definition ends {A} (p : parser A) (e : bytes) (a : A) : Prop :=
  forall pre, buf_ok (pre ++ e) -> p (pre ++ e) (len pre) = Val (a, len pre + len e).

Lemma reads_ends {A} (p : parser A) e a : reads p e a -> ends p e a.
Proof. intros H pre Hb. specialize (H pre []). rewrite app_nil_r in H. auto. Qed.

Lemma ends_bind {A B} (p : parser A) (f : A -> parser B) e1 e2 a b :
  reads p e1 a -> ends (f a) e2 b -> ends (p ≫= f) (e1 ++ e2) b.
Proof.
  intros Hp Hf pre Hb. unfold mbind, parser_bind. rewrite (Hp pre e2) by done.
  specialize (Hf (pre ++ e1)). rewrite <- app_assoc, !length_app, Nat2Z.inj_add in Hf.
  rewrite Hf by done. do 2 f_equal. rewrite length_app. lia.
Qed.

Lemma ends_plift {A B} (m : Result A) (f : A -> parser B) e a b :
  m = Val a -> ends (f a) e b -> ends (a ← plift m; f a) e b.
Proof. intros -> Hf. change e with ([] ++ e). eapply ends_bind; [apply reads_ret|done]. Qed.

Lemma ends_ret {A} (a : A) : ends (mret a) [] a.
Proof. apply reads_ends, reads_ret. Qed.

(** An optional trailing block that is absent. *)
Lemma ends_no_more {A} (yes no : parser A) a :
  ends no [] a -> ends (m ← more; if m : bool then yes else no) [] a.
Proof.
  intros H pre Hb. unfold mbind, parser_bind, more.
  rewrite (proj2 (Z.ltb_ge _ _)) by (rewrite app_nil_r; lia). by apply H.
Qed.

Lemma ends_bind_nil {A B} (p : parser A) (f : A -> parser B) a b :
  ends p [] a -> ends (f a) [] b -> ends (p ≫= f) [] b.
Proof.
  intros Hp Hf pre Hb. unfold mbind, parser_bind. rewrite (Hp pre) by done.
  specialize (Hf pre Hb). by rewrite Z.add_0_r in *.
Qed.

(** The image up to the foreign keys, and the reference-column block. *)
Definition base_image (t : t) : bytes :=
  put_str (name t) ++
  put_uvarint (len (columns t)) ++ concat (put_column <$> columns t) ++
  put_uvarint (len (fks t)) ++ concat (put_fk <$> fks t).
Definition refs_image (t : t) : bytes :=
  put_uvarint (len (ref_cols t)) ++ concat (put_str <$> ref_cols t).

(** Reading an image that continues after the foreign keys with [rest]. *)
Lemma ends_base t rest refs cols : table_ok t ->
  ends (ref_cols ← get_ref_cols; cols ← get_display_widths (clear_width <$> columns t);
        mret (mk (name t) cols (fks t) ref_cols)) rest (mk (name t) cols (fks t) refs) ->
  ends get_table (base_image t ++ rest) (mk (name t) cols (fks t) refs).
Proof.
  intros Hok Hrest. destruct (counts_ok t Hok) as (Lc & Lf & Lr & Lw).
  destruct Hok as [Hn Hc Hf Hr _]. unfold get_table, base_image. rewrite <- !app_assoc.
  eapply ends_bind; [by apply reads_str|].
  eapply ends_bind; [apply reads_uvarint; lia|].
  eapply ends_plift; [unfold with_capacity; by rewrite (proj2 (Z.ltb_lt _ _) Lc)|].
  eapply ends_bind; [by apply reads_columns|].
  eapply ends_bind; [apply reads_uvarint; lia|].
  eapply ends_plift; [unfold with_capacity; by rewrite (proj2 (Z.ltb_lt _ _) Lf)|].
  eapply ends_bind; [|exact Hrest].
  apply reads_n; [done| |apply put_fk_nonempty].
  intros f Hin. apply reads_fk. rewrite Forall_forall in Hf. auto.
Qed.

Lemma decode_ends t' e : buf_ok e -> ends get_table e t' -> decode e = Val t'.
Proof. intros Hb H. unfold decode. specialize (H [] Hb). change (get_table e 0 = Val (t', 0 + len e)) in H. by rewrite H. Qed.

Lemma encode_split t : encode t =
  base_image t ++ refs_image t ++
  put_uvarint (len (widths t)) ++ concat (put_width <$> widths t).
Proof. unfold encode, base_image, refs_image. by rewrite <- !app_assoc. Qed.

(** ** The reference label *)

Lemma column_index_some t n i :
  column_index t n = Some i -> exists c, columns t !! i = Some c /\ Column.name c = n.
Proof. intros (c & Hi & He%str_eqb_eq)%position_some. eauto. Qed.

Lemma ref_col_indices_valid t : Forall (fun i => (i < length (columns t))%nat) (ref_col_indices t).
Proof.
  assert (Hm : Forall (fun i => (i < length (columns t))%nat) (omap (column_index t) (ref_cols t))).
  { apply Forall_forall. intros i (n & _ & (c & Hi & _)%column_index_some)%list_elem_of_omap.
    by apply lookup_lt_Some in Hi. }
  set (uniq := fst <$> List.filter (fun p : nat * Column.t => Column.unique p.2) (enumerate (columns t))).
  assert (Hu : Forall (fun i => (i < length (columns t))%nat) uniq).
  { apply Forall_forall. intros i ([j c] & -> & Hin)%list_elem_of_fmap.
    apply list_elem_of_In, List.filter_In in Hin as [Hin _].
    apply list_elem_of_In, elem_of_zip_l in Hin. apply elem_of_seq in Hin. cbn in *. lia. }
  unfold ref_col_indices. fold uniq. cbn zeta.
  assert (Hfb : Forall (fun i => (i < length (columns t))%nat)
    (match uniq with _ :: _ => uniq | [] => match columns t with [] => [] | _ => [0%nat] end end)).
  { destruct uniq; [|done]. destruct (columns t); [constructor|].
    constructor; [cbn; lia|constructor]. }
  destruct (ref_cols t); [done|]. destruct (omap _ _); done.
Qed.

Lemma label_parts_val t row cis :
  Forall (fun i => (i < length (columns t))%nat) cis ->
  exists ps, label_parts t row cis = Val ps /\ length ps = length cis.
Proof.
  induction 1 as [|ci cis Hci _ (ps & IH & Hl)]; [by exists []|].
  destruct (lookup_lt_is_Some_2 _ _ Hci) as [c Hc].
  cbn [label_parts]. rewrite Hc, IH. cbn. eexists. split; [done|]. cbn. by rewrite Hl.
Qed.

End TableFacts.
