(* ===== verification/DataTheorems.v ===== *)
(** * What the data layer guarantees

    The theorems on values, their ordering, the row and schema encodings, each
    with a concrete instance. *)

From S2P Require Import Prelude Types Bignum Value ValueFacts Codec Schema.

(** ** Samples for the instances *)

Definition sample_date : Date.t :=
  Date.mk (BigInt.mk true (BigUint.mk [4])) 2 29.
Definition sample_value : Value.t :=
  Value.DateTimeTz sample_date (TimeOfDay.mk 86399 [5]) (-90).
Definition sample_row : list cell :=
  [Some sample_value; None; Some (Value.Integer (BigInt.mk true (BigUint.mk [1; 2])))].

Lemma sample_date_wf : DateFacts.wf sample_date.
Proof.
  split; [split; [split; [repeat constructor; lia|done]|done]|].
  split; [cbn; lia|]. split; [cbn; lia|]. by vm_compute.
Qed.

Lemma sample_value_wf : ValueFacts.wf sample_value.
Proof.
  split; [apply sample_date_wf|split; [|unfold offset_wf; lia]].
  split; [cbn; lia|split; [repeat constructor; lia|done]].
Qed.

(** ** Values *)

(** C23: what the engine displays, it reads back: every canonical value parses
    back from its text at its own type. *)
Theorem value_roundtrip v : ValueFacts.wf v -> Value.parse (Value.type_of v) (Value.display v) = Val v.
Proof. apply ValueFacts.value_parse_display. Qed.

Lemma value_roundtrip_witness :
  Value.display sample_value = str "-0004-02-29T23:59:59.5-01:30" /\
  Value.parse Ty.DateTimeTz (str "-0004-02-29T23:59:59.5-01:30") = Val sample_value.
Proof.
  split; [reflexivity|].
  pose proof (value_roundtrip sample_value sample_value_wf) as H. exact H.
Defined.

(** C24: parsing user text never aborts, and what it accepts is a canonical
    value of the requested type whose text is valid UTF-8. *)
Theorem value_parse_sound ty s : utf8_valid s = true ->
  (exists v, Value.parse ty s = Val v /\ Value.type_of v = ty /\ ValueFacts.wf v /\
     utf8_valid (Value.display v) = true)
  \/ (exists e, Value.parse ty s = Fail e).
Proof.
  intros Hs. destruct (no_abort_cases _ (ValueFacts.value_parse_total ty s Hs)) as [[v E]|[e E]]; [left|right].
  - destruct (ValueFacts.parse_spec ty s v Hs E) as [Hw Ht].
    exists v. split_and!; [done..|]. by apply ValueFacts.display_utf8.
  - by exists e.
Qed.

Lemma value_parse_sound_witness :
  (exists v, Value.parse Ty.Decimal (str "-.50") = Val v /\ Value.type_of v = Ty.Decimal /\
     ValueFacts.wf v /\ utf8_valid (Value.display v) = true)
  \/ (exists e, Value.parse Ty.Decimal (str "-.50") = Fail e).
Proof. apply (value_parse_sound Ty.Decimal (str "-.50")). reflexivity. Defined.

(** [Value::cmp] is a total order whose equality is equality of values:
    what the sorted listings and the duplicate checks rely on. *)
Theorem value_cmp_total_order a b c :
  ValueFacts.wf a -> ValueFacts.wf b -> ValueFacts.wf c ->
  (Value.cmp a b = Eq <-> a = b) /\
  Value.cmp b a = CompOpp (Value.cmp a b) /\
  (Value.cmp a b = Lt -> Value.cmp b c = Lt -> Value.cmp a c = Lt).
Proof.
  intros Ha Hb Hc. split_and!.
  - apply (ord_eq (wf:=ValueFacts.wf)); done.
  - apply (ord_antisym (wf:=ValueFacts.wf)); done.
  - apply (ord_trans (wf:=ValueFacts.wf)); done.
Qed.

Lemma value_cmp_total_order_witness :
  let i := Value.Integer (BigInt.mk true (BigUint.mk [7])) in
  let s := Value.Str (str "a") in
  Value.cmp s sample_value = Lt /\
  ((Value.cmp i s = Eq <-> i = s) /\ Value.cmp s i = CompOpp (Value.cmp i s) /\
   (Value.cmp i s = Lt -> Value.cmp s sample_value = Lt -> Value.cmp i sample_value = Lt)).
Proof.
  intros i s. split; [reflexivity|]. apply (value_cmp_total_order i s sample_value).
  - split; [split; [repeat constructor; lia|done]|done].
  - reflexivity.
  - apply sample_value_wf.
Defined.

(** Decimals are ordered by their numeric value, however many fraction
    digits each carries: the order is that of the numbers scaled by a common
    power of ten. *)
Theorem decimal_cmp_numeric a b n : DecimalFacts.wf a -> DecimalFacts.wf b ->
  (length (Decimal.frac a) <= n)%nat -> (length (Decimal.frac b) <= n)%nat ->
  Decimal.cmp a b = (DecimalFacts.scaled n a ?= DecimalFacts.scaled n b).
Proof. apply DecimalFacts.cmp_scaled. Qed.

Lemma decimal_cmp_numeric_witness :
  let a := Decimal.mk true (BigUint.mk [1]) [2; 5] in
  let b := Decimal.mk true (BigUint.mk [1]) [3] in
  Decimal.cmp a b = (-125 ?= -130).
Proof.
  intros a b. refine (decimal_cmp_numeric a b 2 _ _ _ _);
    try (cbn; lia);
    (split; [split; [repeat constructor; lia|done]|split; [split; [repeat constructor; lia|done]|]]);
    cbn; intros _ [? ?]; discriminate.
Defined.



(** The calendar.  A date text is accepted only for a month and day that
    exist in its year, and leap years follow the Gregorian rule on years of
    any size, before and after year zero. *)
Theorem date_parse_valid s d : Date.parse s = Val d ->
  1 <= Date.month d <= 12 /\ 1 <= Date.day d <= Date.days_in_month (Date.year d) (Date.month d) /\
  (Date.days_in_month (Date.year d) 2 = 29 <->
   let y := Z.abs (BigIntFacts.value (Date.year d)) in
   y mod 4 = 0 /\ (y mod 100 <> 0 \/ y mod 400 = 0)).
Proof.
  intros H. destruct (DateFacts.date_parse_wf s d H) as (Hy & Hm & Hd). split_and!; [lia..|].
  rewrite <- (DateFacts.is_leap_spec _ Hy). unfold Date.days_in_month. cbn.
  by destruct (Date.is_leap (Date.year d)); split.
Qed.

Lemma date_parse_valid_witness :
  Date.parse (str "-0004-02-29") = Val sample_date /\
  Date.parse (str "1900-02-29") = Fail tt /\
  1 <= Date.month sample_date <= 12.
Proof.
  split; [reflexivity|split; [reflexivity|]].
  exact (proj1 (date_parse_valid (str "-0004-02-29") sample_date eq_refl)).
Defined.

(** The type names and the type tags of the stored format are each read
    back to their type, and nothing else is. *)
Theorem type_names_and_tags (t : Ty.t) (s : bytes) (b : Z) :
  (Ty.from_name s = Some t <-> s = Ty.name t) /\ (Ty.from_tag b = Some t <-> b = Ty.tag t).
Proof.
  split; split.
  - by intros <-%Ty.from_name_some.
  - intros ->. apply Ty.from_name_name.
  - by intros <-%Ty.from_tag_some.
  - intros ->. apply Ty.from_tag_tag.
Qed.

(** ** The row encoding *)

(** A varint of any [u64] reads back from any position of a buffer, and
    the reader stops right after it. *)
Theorem uvarint_roundtrip v pre post : 0 <= v < 2 ^ 64 ->
  buf_ok (pre ++ put_uvarint v ++ post) ->
  get_uvarint (pre ++ put_uvarint v ++ post) (len pre) = Val (v, len pre + len (put_uvarint v)).
Proof. intros Hv Hb. by apply reads_uvarint. Qed.

Lemma uvarint_roundtrip_witness :
  get_uvarint ([9] ++ put_uvarint 300 ++ [7]) 1 = Val (300, 3).
Proof. apply (uvarint_roundtrip 300 [9] [7]); [lia|]. reflexivity. Defined.

(** C26: a row of canonical cells decodes to itself. *)
Theorem row_roundtrip cells : Forall cell_ok cells -> len (encode_row cells) < 2 ^ 63 ->
  decode_row (encode_row cells) = Val cells.
Proof.
  intros Hc Hb. unfold decode_row.
  assert (Hl : len cells < 2 ^ 63).
  { unfold encode_row in Hb. rewrite length_app in Hb.
    enough (length cells <= length (concat (put_cell <$> cells)))%nat by lia.
    apply TableFacts.length_concat_ge, put_cell_nonempty. }
  pose proof (reads_row cells Hc Hl [] []) as H. rewrite app_nil_r in H. cbn [app length] in H.
  change (Z.of_nat 0) with 0 in H. rewrite H; [done|]. unfold buf_ok. lia.
Qed.

Lemma row_roundtrip_witness : decode_row (encode_row sample_row) = Val sample_row.
Proof.
  apply (row_roundtrip sample_row); [|reflexivity].
  apply Forall_cons. split; [split; [apply sample_value_wf|reflexivity]|].
  apply Forall_cons. split; [exact I|]. apply Forall_singleton. split; [|reflexivity].
  split; [split; [repeat constructor; lia|done]|intros _; vm_compute; discriminate].
Defined.

Lemma parser_bind_val {A B} (p : parser A) (f : A -> parser B) buf pos a pos' :
  p buf pos = Val (a, pos') -> (p ≫= f) buf pos = f a buf pos'.
Proof. unfold mbind, parser_bind. by intros ->. Qed.
Lemma plift_bind {A B} (m : Result A) (f : A -> parser B) buf pos :
  (plift m ≫= f) buf pos = a ← m; f a buf pos.
Proof. unfold mbind, parser_bind, plift. by destruct m. Qed.

(** Decoding a stored row is total on bytes whose count is sane: any
    buffer, however corrupt, gives a row of canonical cells or an error, and
    no read leaves the buffer. *)
Theorem decode_row_total buf n pos : buf_ok buf ->
  get_uvarint buf 0 = Val (n, pos) -> n < 2 ^ 63 ->
  (exists cells, decode_row buf = Val cells /\ Forall cell_wf cells) \/
  (exists e, decode_row buf = Fail e).
Proof.
  intros Hb E Hn. unfold decode_row, get_row.
  rewrite (parser_bind_val _ _ _ _ _ _ E), plift_bind.
  unfold with_capacity. rewrite (proj2 (Z.ltb_lt _ _)) by done. cbn [mbind outcome_bind].
  destruct (total_uvarint buf 0 Hb ltac:(lia)) as [_ Hu]. destruct (Hu _ _ E) as [Hpos _].
  destruct (total_n get_cell cell_wf n total_cell buf pos Hb ltac:(lia)) as [Hno Hv].
  destruct (no_abort_cases _ Hno) as [[[cells pos'] E2]|[e E2]]; rewrite E2; [left|right].
  - exists cells. split; [done|]. by apply (Hv _ _ E2).
  - by exists e.
Qed.

Lemma decode_row_total_witness :
  (exists cells, decode_row [2; 1; 0; 3] = Val cells /\ Forall cell_wf cells) \/
  (exists e, decode_row [2; 1; 0; 3] = Fail e).
Proof. apply (decode_row_total [2; 1; 0; 3] 2 1); reflexivity. Defined.

(** C28: a corrupt count is not an error.  [decode_row] and the schema decoder
    hand a count they have not checked to [Vec::with_capacity]: a ten-byte
    buffer makes them abort where every other corruption is reported. *)
Theorem corrupt_count_aborts v : 2 ^ 63 <= v < 2 ^ 64 ->
  decode_row (put_uvarint v) = Panic /\
  Table.decode (put_str [] ++ put_uvarint v) = Panic.
Proof.
  intros Hv.
  assert (Hlen : len (put_uvarint v) <= 10).
  { unfold put_uvarint. clear. enough (H : forall k x, len (put_uvarint_loop k x) <= Z.of_nat k)
      by apply H. induction k as [|k IH]; intros x; cbn [put_uvarint_loop length]; [lia|].
    cbn zeta. destruct (_ =? 0); cbn [length]; [lia|]. specialize (IH (Z.shiftr x 7)). lia. }
  pose proof (reads_uvarint v ltac:(lia)) as Hr.
  assert (Hcap : with_capacity v = Panic) by (unfold with_capacity; by rewrite (proj2 (Z.ltb_ge _ _)) by lia).
  split.
  - specialize (Hr [] []). rewrite app_nil_r in Hr. cbn [app length] in Hr.
    change (Z.of_nat 0) with 0 in Hr. unfold decode_row, get_row.
    rewrite (parser_bind_val _ _ _ _ _ _ (Hr ltac:(unfold buf_ok; lia))), plift_bind.
    by rewrite Hcap.
  - pose proof (reads_str [] ltac:(split; [done|cbn; lia]) [] (put_uvarint v)) as Hs.
    specialize (Hr (put_str []) []). rewrite app_nil_r in Hr. cbn [app length] in Hs.
    change (Z.of_nat 0) with 0 in Hs.
    assert (Hb : buf_ok (put_str [] ++ put_uvarint v)).
    { unfold buf_ok. rewrite length_app. change (length (put_str [])) with 1%nat. lia. }
    unfold Table.decode, Table.get_table.
    rewrite (parser_bind_val _ _ _ _ _ _ (Hs Hb)).
    change (0 + len (put_str [])) with (len (put_str [])).
    by rewrite (parser_bind_val _ _ _ _ _ _ (Hr Hb)), plift_bind, Hcap.
Qed.

Lemma corrupt_count_aborts_witness :
  decode_row [128; 128; 128; 128; 128; 128; 128; 128; 128; 1] = Panic.
Proof. exact (proj1 (corrupt_count_aborts (2 ^ 63) ltac:(lia))). Defined.

(** ** The schema *)

Definition sample_table : Table.t :=
  Table.mk (str "people")
    [ Column.mk (str "id") Ty.UnsignedInteger false true None;
      Column.mk (str "name") Ty.String true false (Some 12) ]
    [ ForeignKey.mk (str "boss") (str "id") (str "people") (str "id") ]
    [ str "name" ].

Lemma sample_table_ok : TableFacts.table_ok sample_table.
Proof.
  split; try reflexivity;
    repeat (apply Forall_cons; split || apply Forall_nil); try done;
    repeat split; reflexivity || (cbn; lia).
Qed.

(** C27: a schema written to the catalog reads back as itself. *)
Theorem schema_roundtrip t : TableFacts.table_ok t -> Table.decode (Table.encode t) = Val t.
Proof.
  intros Hok. apply TableFacts.decode_ends; [apply Hok|].
  by apply TableFacts.reads_ends, TableFacts.reads_table.
Qed.

Lemma schema_roundtrip_witness : Table.decode (Table.encode sample_table) = Val sample_table.
Proof. apply (schema_roundtrip sample_table sample_table_ok). Defined.

(** Databases written by older versions still open.  An image that ends
    after the foreign keys, or after the reference columns, decodes to the
    table without what it lacks. *)
Theorem schema_old_images t : TableFacts.table_ok t ->
  let cols := TableFacts.clear_width <$> Table.columns t in
  Table.decode (TableFacts.base_image t)
    = Val (Table.mk (Table.name t) cols (Table.fks t) []) /\
  Table.decode (TableFacts.base_image t ++ TableFacts.refs_image t)
    = Val (Table.mk (Table.name t) cols (Table.fks t) (Table.ref_cols t)).
Proof.
  intros Hok cols.
  assert (Hb : buf_ok (TableFacts.base_image t ++ TableFacts.refs_image t)).
  { pose proof (TableFacts.ok_size t Hok) as H. rewrite TableFacts.encode_split in H.
    unfold buf_ok. rewrite !length_app in *. lia. }
  destruct (TableFacts.counts_ok t Hok) as (_ & _ & Hr & _).
  split; apply TableFacts.decode_ends; try done.
  - unfold buf_ok in *. rewrite length_app in Hb. lia.
  - rewrite <- (app_nil_r (TableFacts.base_image t)). apply TableFacts.ends_base; [done|].
    eapply TableFacts.ends_bind_nil; [apply TableFacts.ends_no_more, TableFacts.ends_ret|].
    eapply TableFacts.ends_bind_nil; [apply TableFacts.ends_no_more|]; apply TableFacts.ends_ret.
  - apply TableFacts.ends_base; [done|]. rewrite <- (app_nil_r (TableFacts.refs_image t)).
    eapply TableFacts.ends_bind; [apply TableFacts.reads_ref_cols; [apply Hok|done]|].
    eapply TableFacts.ends_bind_nil; [apply TableFacts.ends_no_more|]; apply TableFacts.ends_ret.
Qed.

Lemma schema_old_images_witness :
  Table.decode (TableFacts.base_image sample_table)
    = Val (Table.mk (str "people")
        [ Column.mk (str "id") Ty.UnsignedInteger false true None;
          Column.mk (str "name") Ty.String true false None ]
        [ ForeignKey.mk (str "boss") (str "id") (str "people") (str "id") ] []).
Proof. exact (proj1 (schema_old_images sample_table sample_table_ok)). Defined.

(** The label a foreign key shows is always there.  For any table and
    any stored row, also a row older than the schema, [reference_label]
    neither aborts nor fails: its column indices are in range, whatever the
    table's reference columns name. *)
Theorem reference_label_total t row :
  Forall (fun i => (i < length (Table.columns t))%nat) (Table.ref_col_indices t) /\
  exists l, Table.reference_label t row = Val l.
Proof.
  split; [apply TableFacts.ref_col_indices_valid|].
  destruct (TableFacts.label_parts_val t row _ (TableFacts.ref_col_indices_valid t)) as (ps & E & _).
  unfold Table.reference_label. rewrite E. by eexists.
Qed.
