(* ===== verification/Block.v ===== *)
(** * Block devices

    [tablestore/src/block.rs]: the [BlockDevice] trait, the laws a working
    device satisfies, and the in-memory device with its simulated power cut. *)

From S2P Require Import Prelude Types.

Definition SECTOR : Z := 512.

(** ** The trait *)

(** [read_sector] takes the caller's buffer and returns its new content. *)
Class BlockDevice (D : Type) := {
  sector_count : D -> Z;
  read_sector : Z -> bytes -> stM D StoreError bytes;
  write_sector : Z -> bytes -> stM D StoreError unit;
  flush : stM D StoreError unit
}.

(** ** What a device promises

    The content of a device is a function from sector numbers.  A device
    also has crash images: what its medium may hold when the power goes,
    since a drive may keep written sectors in a volatile cache and drain
    them in any order until the next flush.  A sector write is atomic. *)

Definition medium : Type := Z -> bytes.
Definition upd (m : medium) (lba : Z) (s : bytes) : medium :=
  fun l => if l =? lba then s else m l.
Definition meq : relation medium := pointwise_relation Z eq.

#[global] Instance meq_equiv : Equivalence meq.
Proof. apply _. Qed.

#[global] Instance upd_proper : Proper (meq ==> eq ==> eq ==> meq) upd.
Proof. intros m m' H l _ <- s _ <- k. unfold upd. by destruct (k =? l). Qed.

(** [may_lose]: an operation may fail because the power is lost. *)
Class DeviceLaws (D : Type) `{!BlockDevice D} := {
  may_lose : Prop;
  dev_ok : D -> Prop;
  content : D -> medium;
  images : D -> medium -> Prop;
  law_count d : dev_ok d -> 0 <= sector_count d < 2 ^ 60;
  law_content d l : dev_ok d -> 0 <= l < sector_count d -> len (content d l) = SECTOR;
  law_read d lba buf : dev_ok d -> 0 <= lba < sector_count d -> len buf = SECTOR ->
    exists r d', read_sector lba buf d = (r, d') /\ dev_ok d' /\
      sector_count d' = sector_count d /\ meq (content d') (content d) /\
      (forall x, images d' x -> images d x) /\
      (r = Val (content d lba) \/ may_lose /\ r = Fail Io);
  law_write d lba buf : dev_ok d -> 0 <= lba < sector_count d -> len buf = SECTOR ->
    exists r d', write_sector lba buf d = (r, d') /\ dev_ok d' /\
      sector_count d' = sector_count d /\
      (r = Val tt /\ meq (content d') (upd (content d) lba buf) /\
         (forall x, images d' x ->
            images d x \/ exists y, images d y /\ meq x (upd y lba buf))
       \/ may_lose /\ r = Fail Io /\ forall x, images d' x -> images d x);
  law_flush d : dev_ok d ->
    exists r d', flush d = (r, d') /\ dev_ok d' /\ sector_count d' = sector_count d /\
      (r = Val tt /\ meq (content d') (content d) /\
         (forall x, images d' x -> meq x (content d))
       \/ may_lose /\ r = Fail Io /\ forall x, images d' x -> images d x)
}.

(** ** Reasoning about code that runs on a device

    [runs n m J c Q R]: from any device of [n] sectors with content [m] whose
    crash images all satisfy [J], the code [c] either ends with a value [a], a
    content [m'] and crash images [J'] such that [Q a m' J'], or the power is
    lost and every crash image satisfies [R]. *)

Section Runs.
Context {D : Type} `{!BlockDevice D, !DeviceLaws D}.

Abbreviation images_in d J := (forall x, images d x -> J x) (only parsing).

Definition runs {A} (n : Z) (m : medium) (J : medium -> Prop) (c : stM D StoreError A)
    (Q : A -> medium -> (medium -> Prop) -> Prop) (R : medium -> Prop) : Prop :=
  forall d, dev_ok d -> sector_count d = n -> meq (content d) m -> images_in d J ->
    (exists a d' m' (J' : medium -> Prop), c d = (Val a, d') /\ dev_ok d' /\
       sector_count d' = n /\ meq (content d') m' /\ images_in d' J' /\ Q a m' J')
    \/ (may_lose /\ exists d', c d = (Fail Io, d') /\ dev_ok d' /\ sector_count d' = n /\
          images_in d' R).

Lemma runs_ret {A} n m J (a : A) (Q : A -> medium -> (medium -> Prop) -> Prop) R :
  Q a m J -> runs n m J (mret a) Q R.
Proof. intros H d Hok Hn Hc Hi. left. exists a, d, m, J. by split_and!. Qed.

Lemma runs_bind {A B} n m J (c : stM D StoreError A) (f : A -> stM D StoreError B) Q R :
  runs n m J c (fun a m' J' => runs n m' J' (f a) Q R) R -> runs n m J (c ≫= f) Q R.
Proof.
  intros H d Hok Hn Hc Hi.
  destruct (H d Hok Hn Hc Hi)
    as [(a & d' & m' & J' & E & Hok' & Hn' & Hc' & Hi' & Hf)|(Hl & d' & E & Hrest)].
  - destruct (Hf d' Hok' Hn' Hc' Hi') as [G|G]; [left|right];
      cbn; unfold mbind, stM_bind; by rewrite E.
  - right. split; [done|]. exists d'. split; [|done].
    cbn; unfold mbind, stM_bind; by rewrite E.
Qed.

Lemma runs_lift {A} n m J (o : outcome StoreError A) a
    (Q : A -> medium -> (medium -> Prop) -> Prop) R :
  o = Val a -> Q a m J -> runs n m J (lift o) Q R.
Proof. intros ->. by apply runs_ret. Qed.

(** The content may be replaced by an equal one, the images by more. *)
Lemma runs_conseq {A} n m (J J2 : medium -> Prop) (c : stM D StoreError A)
    (Q Q2 : A -> medium -> (medium -> Prop) -> Prop) (R R2 : medium -> Prop) :
  runs n m J2 c Q2 R2 -> (forall x, J x -> J2 x) ->
  (forall a m' J', Q2 a m' J' ->
     exists m'' J'', meq m' m'' /\ (forall x : medium, J' x -> J'' x) /\ Q a m'' J'') ->
  (forall x, R2 x -> R x) ->
  runs n m J c Q R.
Proof.
  intros H HJ HQ HR d Hok Hn Hc Hi.
  destruct (H d Hok Hn Hc)
    as [(a & d' & m' & J' & E & Hok' & Hn' & Hc' & Hi' & G)|(Hl & d' & E & Hok' & Hn' & G)];
    [auto|left|right].
  - destruct (HQ a m' J' G) as (m'' & J'' & Hm & HJ' & G').
    exists a, d', m'', J''. split_and!; auto. by rewrite Hc'.
  - split; [done|]. exists d'. split_and!; auto; lia.
Qed.

Lemma runs_weaken {A} n m (J J2 : medium -> Prop) (c : stM D StoreError A) Q R :
  runs n m J2 c Q R -> (forall x, J x -> J2 x) -> runs n m J c Q R.
Proof. intros H HJ. eapply runs_conseq; eauto. intros a m' J' ?. by exists m', J'. Qed.

Lemma runs_meq {A} n m m2 J (c : stM D StoreError A) Q R :
  meq m m2 -> runs n m2 J c Q R -> runs n m J c Q R.
Proof. intros Hm H d Hok Hn Hc Hi. apply H; try done. by rewrite Hc. Qed.

(** The sectors of a content have the sector's size. *)
Definition sized (n : Z) (m : medium) : Prop :=
  forall l, 0 <= l < n -> len (m l) = SECTOR.

Lemma runs_sized {A} n m J (c : stM D StoreError A) Q R :
  (sized n m -> 0 <= n < 2 ^ 60 -> runs n m J c Q R) -> runs n m J c Q R.
Proof.
  intros H d Hok Hn Hc Hi. apply H; try done.
  - intros l Hl. rewrite <- (Hc l). apply law_content; [done|lia].
  - rewrite <- Hn. by apply law_count.
Qed.

Lemma runs_read n m J lba buf Q (R : medium -> Prop) :
  0 <= lba < n -> len buf = SECTOR -> (forall x, J x -> R x) ->
  Q (m lba) m J -> runs n m J (read_sector lba buf) Q R.
Proof.
  intros Hl Hb HR HQ d Hok Hn Hc Hi.
  destruct (law_read d lba buf) as (r & d' & E & Hok' & Hn' & Hc' & Hi' & Hr);
    [done|lia|done|].
  rewrite E. destruct Hr as [->|[Hlo ->]]; [left|right].
  - exists (content d lba), d', m, J. rewrite (Hc lba).
    split_and!; try done; [lia|by rewrite Hc'|auto].
  - split; [done|]. exists d'. split_and!; auto; lia.
Qed.

Lemma runs_write n m J lba buf Q (R : medium -> Prop) :
  0 <= lba < n -> len buf = SECTOR -> (forall x, J x -> R x) ->
  Q tt (upd m lba buf) (fun x => J x \/ exists y, J y /\ meq x (upd y lba buf)) ->
  runs n m J (write_sector lba buf) Q R.
Proof.
  intros Hl Hb HR HQ d Hok Hn Hc Hi.
  destruct (law_write d lba buf) as (r & d' & E & Hok' & Hn' & Hr); [done|lia|done|].
  rewrite E. destruct Hr as [(-> & Hc' & Hi')|(Hlo & -> & Hi')]; [left|right].
  - eexists tt, d', _, _. split_and!; [done|done|lia| | |exact HQ].
    + by rewrite Hc', Hc.
    + intros x Hx. destruct (Hi' x Hx) as [?|(y & Hy & ?)]; [left|right]; eauto.
  - split; [done|]. exists d'. split_and!; auto; lia.
Qed.

(** A write that the set of images tolerates. *)
Lemma runs_write_in n m (J : medium -> Prop) lba buf Q (R : medium -> Prop)
    `{!Proper (meq ==> impl) J} :
  0 <= lba < n -> len buf = SECTOR -> (forall x, J x -> R x) ->
  (forall x, J x -> J (upd x lba buf)) ->
  Q tt (upd m lba buf) J -> runs n m J (write_sector lba buf) Q R.
Proof.
  intros Hl Hb HR HJ HQ d Hok Hn Hc Hi.
  destruct (law_write d lba buf) as (r & d' & E & Hok' & Hn' & Hr); [done|lia|done|].
  rewrite E. destruct Hr as [(-> & Hc' & Hi')|(Hlo & -> & Hi')]; [left|right].
  - eexists tt, d', _, _. split_and!; [done|done|lia| | |exact HQ].
    + by rewrite Hc', Hc.
    + intros x Hx. destruct (Hi' x Hx) as [?|(y & Hy & Hxy)]; [auto|].
      rewrite Hxy. auto.
  - split; [done|]. exists d'. split_and!; auto; lia.
Qed.

Lemma runs_flush n m J Q (R : medium -> Prop) :
  (forall x, J x -> R x) -> Q tt m (fun x => meq x m) -> runs n m J flush Q R.
Proof.
  intros HR HQ d Hok Hn Hc Hi.
  destruct (law_flush d Hok) as (r & d' & E & Hok' & Hn' & Hr).
  rewrite E. destruct Hr as [(-> & Hc' & Hi')|(Hlo & -> & Hi')]; [left|right].
  - eexists tt, d', m, _. split_and!; [done|done|lia| | |exact HQ].
    + by rewrite Hc'.
    + intros x Hx. apply Hi' in Hx. exact (transitivity Hx Hc).
  - split; [done|]. exists d'. split_and!; auto; lia.
Qed.

(** A loop with an invariant over the elements already done. *)
Lemma runs_for_each {A} n R (l : list A) (body : A -> stM D StoreError unit)
    (I : list A -> medium -> (medium -> Prop) -> Prop) :
  (forall pre x todo m J, l = pre ++ x :: todo -> I pre m J ->
     runs n m J (body x) (fun _ => I (pre ++ [x])) R) ->
  forall m J, I [] m J -> runs n m J (for_each l body) (fun _ => I l) R.
Proof.
  intros Hstep.
  enough (H : forall todo pre m J, l = pre ++ todo -> I pre m J ->
    runs n m J (for_each todo body) (fun _ => I l) R) by (intros m J; by apply (H l [])).
  induction todo as [|x todo IH]; intros pre m J El HI.
  - rewrite app_nil_r in El. subst. by apply runs_ret.
  - cbn [for_each]. apply runs_bind.
    eapply runs_conseq; [by apply (Hstep pre x todo)|done| |done].
    intros u m' J' HI'. exists m', J'. split_and!; [done..|].
    apply (IH (pre ++ [x])); [|done]. by rewrite <- app_assoc.
Qed.

End Runs.

(** ** [MemBlockDevice] *)

Module MemBlockDevice.

Record t := mk {
  data : bytes; sectors : Z; powered : bool; writes : Z; cut_after : option Z
}.

Definition new (n : Z) : outcome StoreError t :=
  size ← mul_u64 n SECTOR;
  mret (mk (replicate (Z.to_nat size) 0) n true 0 None).

Definition snapshot (d : t) : bytes := data d.

Definition from_snapshot (bs : bytes) : t := mk bs (len bs / SECTOR) true 0 None.

Definition read_sector (lba : Z) (buf : bytes) : stM t StoreError bytes := fun d =>
  if negb (len buf =? SECTOR) || (sectors d <=? lba) then (Fail Io, d)
  else ((off ← mul_u64 lba SECTOR; slice (data d) off (off + SECTOR)), d).

Definition write_sector (lba : Z) (buf : bytes) : stM t StoreError unit := fun d =>
  if negb (len buf =? SECTOR) || (sectors d <=? lba) then (Fail Io, d)
  else if negb (powered d) then (Val tt, d)
  else match (off ← mul_u64 lba SECTOR; splice (data d) off buf) with
       | Val data' =>
           let w := writes d + 1 in
           (Val tt, mk data' (sectors d)
                      (if bool_decide (Some w = cut_after d) then false else powered d)
                      w (cut_after d))
       | Fail e => (Fail e, d)
       | Panic => (Panic, d)
       | NoFuel => (NoFuel, d)
       end.

Definition flush : stM t StoreError unit := fun d =>
  if powered d then (Val tt, d) else (Fail Io, d).

#[global] Instance device : BlockDevice t := {
  sector_count := sectors;
  Block.read_sector := read_sector;
  Block.write_sector := write_sector;
  Block.flush := flush
}.

(** ** It keeps the promise while the power is on *)

Definition ok (d : t) : Prop :=
  powered d = true /\ cut_after d = None /\ 0 <= sectors d < 2 ^ 54 /\
  sectors d * SECTOR <= len (data d) < 2 ^ 63.

Definition sector_at (d : t) : medium := fun l =>
  if (0 <=? l) && (l <? sectors d)
  then take (Z.to_nat SECTOR) (drop (Z.to_nat (l * SECTOR)) (data d)) else [].

Lemma sector_at_length d l : sectors d * SECTOR <= len (data d) ->
  0 <= l < sectors d -> len (sector_at d l) = SECTOR.
Proof.
  intros Hd Hl. unfold sector_at. tests. unfold SECTOR in *. rewrite length_take, length_drop. lia.
Qed.

(** Reading back a spliced list. *)
Lemma take_drop_splice (l bs : bytes) (o : nat) :
  (o + length bs <= length l)%nat ->
  take (length bs) (drop o (take o l ++ bs ++ drop (o + length bs) l)) = bs.
Proof.
  intros H. rewrite drop_app_length' by (rewrite length_take; lia).
  apply take_app_length.
Qed.

Lemma take_drop_splice_ne (l bs : bytes) (o o' k : nat) :
  (o + length bs <= length l)%nat -> (o' + k <= o \/ o + length bs <= o')%nat ->
  take k (drop o' (take o l ++ bs ++ drop (o + length bs) l)) = take k (drop o' l).
Proof.
  intros H Hd. apply list_eq. intros i.
  destruct (decide (i < k)%nat) as [Hi|Hi]; [|rewrite !lookup_take_ge by lia; done].
  rewrite !lookup_take_lt, !lookup_drop by lia.
  destruct Hd as [Hd|Hd].
  - rewrite lookup_app_l by (rewrite length_take; lia). by rewrite lookup_take_lt by lia.
  - rewrite lookup_app_r by (rewrite length_take; lia).
    rewrite lookup_app_r by (rewrite length_take; lia).
    rewrite lookup_drop, length_take. f_equal. lia.
Qed.

Lemma write_content d lba buf :
  sectors d * SECTOR <= len (data d) < 2 ^ 63 -> 0 <= lba < sectors d -> len buf = SECTOR ->
  exists data', (off ← mul_u64 lba SECTOR; splice (E:=StoreError) (data d) off buf) = Val data' /\
    length data' = length (data d) /\
    forall p w c, meq (sector_at (mk data' (sectors d) p w c)) (upd (sector_at d) lba buf).
Proof.
  intros Hd Hl Hb. unfold mul_u64, SECTOR in *. tests.
  cbn [mbind outcome_bind]. unfold splice. tests.
  eexists. split; [done|]. split.
  { rewrite !length_app, length_take, length_drop. lia. }
  intros p w c l. unfold upd, sector_at, SECTOR; cbn [data sectors].
  replace (Z.to_nat (lba * 512 + len buf)) with (Z.to_nat (lba * 512) + length buf)%nat by lia.
  destruct (Z.eqb_spec l lba) as [->|].
  - tests. replace (Z.to_nat 512) with (length buf) by lia.
    apply take_drop_splice. lia.
  - destruct ((0 <=? l) && (l <? sectors d)) eqn:E; [|done]. bools.
    apply take_drop_splice_ne; lia.
Qed.

#[global] Instance laws : DeviceLaws t.
Proof.
  refine {| may_lose := False; dev_ok := ok; content := sector_at;
            images := fun d x => meq x (sector_at d) |}.
  - intros d (_ & _ & H & _). cbn. lia.
  - intros d l (_ & _ & _ & H) Hl. apply sector_at_length; [lia|done].
  - intros d lba buf Hok Hl Hb. pose proof Hok as (_ & _ & Hs & Hd). cbn in Hl.
    exists (Val (sector_at d lba)), d. split_and!; [|done..|auto|by left].
    cbn. unfold read_sector. rewrite Hb, Z.eqb_refl. tests.
    unfold mul_u64, SECTOR in *. tests. cbn [mbind outcome_bind].
    unfold slice. tests. unfold sector_at, SECTOR. tests.
    by replace (lba * 512 + 512 - lba * 512) with 512 by lia.
  - intros d lba buf Hok Hl Hb. pose proof Hok as (Hp & Hc & Hs & Hd). cbn in Hl.
    destruct (write_content d lba buf Hd Hl Hb) as (data' & E & Hlen & Hsec).
    exists (Val tt), (mk data' (sectors d) true (writes d + 1) None). split_and!.
    + cbn. unfold write_sector. rewrite Hb, Z.eqb_refl. tests.
      rewrite Hp. cbn [negb]. by rewrite E, Hc, bool_decide_false.
    + repeat split; cbn; lia.
    + done.
    + left. split_and!; [done|apply Hsec|]. intros x Hx. right. exists (sector_at d).
      split; [done|]. by rewrite Hx, Hsec.
  - intros d Hok. exists (Val tt), d. split_and!; [|done..|].
    + cbn. unfold flush. by destruct Hok as [-> _].
    + left. by split_and!.
Defined.

End MemBlockDevice.

(** ** A drive with a volatile write cache

    The hardware the journal is designed for: writes land in a cache that is
    drained to the medium in any order until a flush, and the power is lost
    after [life] more operations.  It is the instance the crash theorems are
    checked on; it models no code. *)

Module VolatileDisk.

Record t := mk {
  size : Z; durable : medium; cache : list (Z * bytes); life : nat
}.

Definition lookup_cache (c : list (Z * bytes)) (lba : Z) : option bytes :=
  snd <$> List.find (fun e => e.1 =? lba) c.

Definition newest (d : t) : medium := fun l => default (durable d l) (lookup_cache (cache d) l).

(** Each sector of the medium holds its durable value or a cached write. *)
Definition survives (d : t) (x : medium) : Prop :=
  forall l, x l = durable d l \/ exists s, (l, s) ∈ cache d /\ x l = s.

Definition spend {A} (m : stM t StoreError A) : stM t StoreError A := fun d =>
  match life d with
  | O => (Fail Io, d)
  | S k => m (mk (size d) (durable d) (cache d) k)
  end.

#[global] Instance device : BlockDevice t := {
  sector_count := size;
  Block.read_sector lba buf :=
    spend (fun d => if size d <=? lba then (Fail Io, d) else (Val (newest d lba), d));
  Block.write_sector lba buf :=
    spend (fun d => if size d <=? lba then (Fail Io, d)
                    else (Val tt, mk (size d) (durable d) ((lba, buf) :: cache d) (life d)));
  Block.flush := spend (fun d => (Val tt, mk (size d) (newest d) [] (life d)))
}.

Definition ok (d : t) : Prop :=
  0 <= size d < 2 ^ 60 /\
  (forall l, 0 <= l < size d -> len (durable d l) = SECTOR) /\
  Forall (fun e => len e.2 = SECTOR) (cache d).

Lemma lookup_cache_in c l s : lookup_cache c l = Some s -> (l, s) ∈ c.
Proof.
  unfold lookup_cache. intros ([k b] & [Hin Hk]%List.find_some & ->)%fmap_Some.
  cbn in *. bools. subst. by apply list_elem_of_In.
Qed.

Lemma newest_length d l : ok d -> 0 <= l < size d -> len (newest d l) = SECTOR.
Proof.
  intros (_ & Hd & Hc) Hl. unfold newest.
  destruct (lookup_cache (cache d) l) eqn:E; cbn; [|by apply Hd].
  apply lookup_cache_in in E. rewrite Forall_forall in Hc. by apply (Hc _ E).
Qed.

Lemma survives_write d lba s x :
  survives (mk (size d) (durable d) ((lba, s) :: cache d) (life d)) x ->
  survives d x \/ exists y, survives d y /\ meq x (upd y lba s).
Proof.
  intros H. destruct (decide (x lba = s)) as [E|E].
  - right. exists (upd x lba (durable d lba)). split; intros l; unfold upd.
    + destruct (Z.eqb_spec l lba) as [->|Hne]; [by left|].
      destruct (H l) as [?|(s' & [Hin|Hin]%elem_of_cons & ?)]; [by left|congruence|right; eauto].
    + by destruct (Z.eqb_spec l lba) as [->|].
  - left. intros l. destruct (H l) as [?|(s' & [Hin|Hin]%elem_of_cons & ?)];
      [by left|congruence|right; eauto].
Qed.

#[global] Instance laws : DeviceLaws t.
Proof.
  refine {| may_lose := True; dev_ok := ok; content := newest; images := survives |}.
  - by intros d (? & _).
  - intros. by apply newest_length.
  - intros d lba buf Hok Hl Hb. cbn in *. unfold spend. destruct (life d) as [|k].
    + exists (Fail Io), d. split_and!; try done; try by auto.
    + exists (Val (newest d lba)), (mk (size d) (durable d) (cache d) k). cbn. tests.
      split_and!; try done; try by auto.
  - intros d lba buf Hok Hl Hb. cbn in *. unfold spend. destruct (life d) as [|k].
    + exists (Fail Io), d. split_and!; try done; try by auto.
    + exists (Val tt), (mk (size d) (durable d) ((lba, buf) :: cache d) k). cbn. tests.
      split_and!; [done| |done|left; split; [done|split]].
      * destruct Hok as (? & ? & ?). split; [done|split; [done|by constructor]].
      * intros l. unfold newest, upd, lookup_cache; cbn. rewrite (Z.eqb_sym lba l).
        by destruct (l =? lba).
      * apply (survives_write d).
  - intros d Hok. cbn in *. unfold spend. destruct (life d) as [|k].
    + exists (Fail Io), d. split_and!; try done; try by auto.
    + exists (Val tt), (mk (size d) (newest d) [] k). cbn.
      split_and!; [done| |done|left; split_and!; [done..|]].
      * pose proof Hok as (? & ? & ?). split; [done|split; [|by constructor]].
        intros l Hl. by apply (newest_length d).
      * intros x H l. destruct (H l) as [?|(s & Hin & _)]; [done|by apply elem_of_nil in Hin].
Defined.

End VolatileDisk.

(** A drive that writes through and stays powered, over any content. *)

Module SteadyDisk.

Record t := mk { size : Z; mem : medium }.

#[global] Instance device : BlockDevice t := {
  sector_count := size;
  Block.read_sector lba buf d :=
    if size d <=? lba then (Fail Io, d) else (Val (mem d lba), d);
  Block.write_sector lba buf d :=
    if size d <=? lba then (Fail Io, d) else (Val tt, mk (size d) (upd (mem d) lba buf));
  Block.flush d := (Val tt, d)
}.

#[global] Instance laws : DeviceLaws t.
Proof.
  refine {| may_lose := False;
            dev_ok d := 0 <= size d < 2 ^ 60 /\ forall l, 0 <= l < size d -> len (mem d l) = SECTOR;
            content := mem; images d x := meq x (mem d) |}.
  - by intros d [? _].
  - by intros d l [_ H] Hl; apply H.
  - intros d lba buf Hok Hl Hb. exists (Val (mem d lba)), d. cbn in *. tests.
    split_and!; [done|apply Hok|apply Hok|apply Hok|done|done|done|by left].
  - intros d lba buf [Hn Hs] Hl Hb. exists (Val tt), (mk (size d) (upd (mem d) lba buf)).
    cbn in *. tests. split_and!; try done; try lia.
    + intros l Hl'. unfold upd. destruct (l =? lba); auto.
    + left. split; [done|split; [done|]]. intros x Hx. right. exists (mem d). by split.
  - intros d Hok. exists (Val tt), d. split; [done|split; [done|split; [done|]]].
    left. by split_and!.
Defined.

End SteadyDisk.
