(* ===== verification/Journal.v ===== *)
(** * The write-ahead journal

    [tablestore/src/journal.rs]: a transaction's page images go to a fixed
    region, one flip of the control header's state commits them, and recovery
    copies them home.  Module [Journal] holds the code, the lemmas after it
    what it does to the content of a device and to its crash images. *)

From S2P Require Import Prelude Types Block.

(** ** The code *)

Module Journal.

Definition PAGE : Z := 4096.
Definition PAGE_SECTORS : Z := PAGE / SECTOR.
Definition JCTRL_PAGES : Z := 4.
Definition HEADER_LEN : Z := 32.
Definition JCAP : Z := (PAGE - HEADER_LEN) / 8 + 3 * (PAGE / 8).
Definition JDATA_START_PAGE : Z := 1 + JCTRL_PAGES.
Definition JDATA_PAGES : Z := JCAP.
Definition FIRST_DATA_PAGE : Z := JDATA_START_PAGE + JDATA_PAGES.
Definition MAGIC : Z := 0x4a4c4254.
Definition STATE_EMPTY : Z := 0.
Definition STATE_COMMITTED : Z := 1.

(** [vec![0u8; n]] and [[0u8; n]]. *)
Definition zeros (n : Z) : bytes := replicate (Z.to_nat n) 0.

Section Pages.
Context {D : Type} `{!BlockDevice D}.

(** [page * PAGE_SECTORS + i] *)
Definition lba_of (page i : Z) : outcome StoreError Z :=
  base ← mul_u64 page PAGE_SECTORS; add_u64 base i.

(** The buffers [sec] and [out] are threaded through the loop. *)
Fixpoint read_page_loop (page : Z) (idx : list Z) (sec out : bytes) : stM D StoreError bytes :=
  match idx with
  | [] => mret out
  | i :: idx' =>
      lba ← lift (lba_of page i);
      sec' ← read_sector lba sec;
      out' ← lift (splice out (i * SECTOR) sec');
      read_page_loop page idx' sec' out'
  end.

Definition read_page (page : Z) (out : bytes) : stM D StoreError bytes :=
  _ ← lift (assert (len out =? PAGE));
  read_page_loop page (seqZ 0 PAGE_SECTORS) (zeros SECTOR) out.

Definition write_page (page : Z) (data : bytes) : stM D StoreError unit :=
  _ ← lift (assert (len data =? PAGE));
  for_each (seqZ 0 PAGE_SECTORS) (fun i =>
    lba ← lift (lba_of page i);
    sec ← lift (slice data (i * SECTOR) (i * SECTOR + SECTOR));
    write_sector lba sec).

End Pages.

(** ** CRC-32 and words *)

Definition crc_step (crc : Z) : Z :=
  let mask := (- Z.land crc 1) mod 2 ^ 32 in
  Z.lxor (Z.shiftr crc 1) (Z.land 0xEDB88320 mask).
Definition crc_byte (crc b : Z) : Z := Nat.iter 8 crc_step (Z.lxor crc b).
Definition crc32 (bs : bytes) : Z :=
  Z.lxor (foldl crc_byte 0xFFFFFFFF bs) 0xFFFFFFFF.

Definition put_u32 (buf : bytes) (off v : Z) : outcome StoreError bytes :=
  splice buf off (le_bytes 4 v).
Definition put_u64 (buf : bytes) (off v : Z) : outcome StoreError bytes :=
  splice buf off (le_bytes 8 v).
Definition get_u32 (buf : bytes) (off : Z) : outcome StoreError Z :=
  of_le_bytes <$> slice buf off (off + 4).
Definition get_u64 (buf : bytes) (off : Z) : outcome StoreError Z :=
  of_le_bytes <$> slice buf off (off + 8).

(** ** The control pages *)

(** What the CRC covers: [txid], [count] and the entries. *)
Definition crc_in (txid : Z) (entries : list Z) : bytes :=
  le_bytes 8 txid ++ le_bytes 8 (len entries) ++ concat (le_bytes 8 <$> entries).

Definition render_ctrl (entries : list Z) (txid state : Z) : outcome StoreError bytes :=
  buf ← fold_o (fun buf '(i, e) => put_u64 buf (HEADER_LEN + Z.of_nat i * 8) e)
          (zeros (JCTRL_PAGES * PAGE)) (enumerate entries);
  let crc := crc32 (crc_in txid entries) in
  buf ← put_u32 buf 0 MAGIC;
  buf ← put_u32 buf 4 1;
  buf ← put_u32 buf 8 state;
  buf ← put_u32 buf 12 crc;
  buf ← put_u64 buf 16 txid;
  put_u64 buf 24 (len entries).

Record Ctrl := mk_ctrl { state : Z; count : Z; entries : list Z }.

(** [read_ctrl] after the four pages are in [buf]. *)
Definition parse_ctrl (buf : bytes) : outcome StoreError (option Ctrl) :=
  magic ← get_u32 buf 0;
  if negb (magic =? MAGIC) then mret None else
  state ← get_u32 buf 8;
  stored_crc ← get_u32 buf 12;
  txid ← get_u64 buf 16;
  count ← get_u64 buf 24;
  if JCAP <? count then mret None else
  entries ← fold_o (fun es i => e ← get_u64 buf (HEADER_LEN + i * 8); mret (es ++ [e]))
              [] (seqZ 0 count);
  if negb (crc32 (crc_in txid entries) =? stored_crc) then mret None else
  mret (Some (mk_ctrl state count entries)).

Section Protocol.
Context {D : Type} `{!BlockDevice D}.

Fixpoint read_ctrl_loop (ps : list Z) (buf : bytes) : stM D StoreError bytes :=
  match ps with
  | [] => mret buf
  | p :: ps' =>
      pg ← read_page (1 + p) (zeros PAGE);
      buf' ← lift (splice buf (p * PAGE) pg);
      read_ctrl_loop ps' buf'
  end.

Definition read_ctrl : stM D StoreError (option Ctrl) :=
  buf ← read_ctrl_loop (seqZ 0 JCTRL_PAGES) (zeros (JCTRL_PAGES * PAGE));
  lift (parse_ctrl buf).

Definition write_ctrl (buf : bytes) : stM D StoreError unit :=
  for_each (seqZ 0 JCTRL_PAGES) (fun p =>
    pg ← lift (slice buf (p * PAGE) (p * PAGE + PAGE));
    write_page (1 + p) pg).

Definition init : stM D StoreError unit :=
  buf ← lift (render_ctrl [] 0 STATE_EMPTY);
  _ ← write_ctrl buf;
  flush.

(** The redo loop; [page] is the buffer the images pass through. *)
Fixpoint redo_loop (l : list (nat * Z)) (page : bytes) : stM D StoreError unit :=
  match l with
  | [] => mret tt
  | (i, target) :: l' =>
      page' ← read_page (JDATA_START_PAGE + Z.of_nat i) page;
      _ ← write_page target page';
      redo_loop l' page'
  end.

Definition recover : stM D StoreError bool :=
  c ← read_ctrl;
  match c with
  | None => mret false
  | Some ctrl =>
      if negb (state ctrl =? STATE_COMMITTED) then mret false else
      _ ← redo_loop (enumerate (entries ctrl)) (zeros PAGE);
      _ ← flush;
      empty ← lift (render_ctrl (entries ctrl) 0 STATE_EMPTY);
      _ ← write_ctrl empty;
      _ ← flush;
      mret true
  end.

Definition commit (txid : Z) (dirty : list (Z * bytes)) : stM D StoreError unit :=
  if JCAP <? len dirty then lift (Fail OutOfSpace) else
  let entries := dirty.*1 in
  _ ← for_each (enumerate dirty) (fun '(i, (_, img)) =>
        write_page (JDATA_START_PAGE + Z.of_nat i) img);
  buf ← lift (render_ctrl entries txid STATE_EMPTY);
  _ ← write_ctrl buf;
  _ ← flush;
  buf ← lift (render_ctrl entries txid STATE_COMMITTED);
  _ ← write_ctrl buf;
  _ ← flush;
  _ ← for_each dirty (fun '(target, img) => write_page target img);
  _ ← flush;
  buf ← lift (render_ctrl entries txid STATE_EMPTY);
  _ ← write_ctrl buf;
  _ ← flush;
  mret tt.

End Protocol.

End Journal.
