(* ===== verification/JournalFacts.v ===== *)
(** * What the journal does to a disk

    Page reads and writes, the control pages, and the two phases of a commit
    and of a recovery, as facts about the content of the device and its crash
    images. *)

From S2P Require Import Prelude Types Block Journal.
Import Journal.

Ltac unfold_sizes :=
  unfold PAGE_SECTORS, FIRST_DATA_PAGE, JDATA_START_PAGE, JDATA_PAGES, JCAP, JCTRL_PAGES,
    HEADER_LEN, PAGE, SECTOR in *.
(** The layout is arithmetic on constants. *)
Ltac slia := unfold_sizes; lia.

(** ** Pages of a content *)

(** The [i]-th 512-byte piece of a buffer. *)
Definition piece (b : bytes) (i : Z) : bytes :=
  take (Z.to_nat SECTOR) (drop (Z.to_nat (i * SECTOR)) b).

Definition page_of (m : medium) (p : Z) : bytes :=
  concat ((fun i => m (8 * p + i)) <$> seqZ 0 8).

(** The sectors of [k] pages from page [p] replaced by those of [b]. *)
Definition put_pages (m : medium) (p k : Z) (b : bytes) : medium := fun l =>
  if (8 * p <=? l) && (l <? 8 * (p + k)) then piece b (l - 8 * p) else m l.

Abbreviation put_page m p b := (put_pages m p 1 b).

#[export] Instance put_pages_proper : Proper (meq ==> eq ==> eq ==> eq ==> meq) put_pages.
Proof. intros m m' H p _ <- k _ <- b _ <- l. unfold put_pages. by rewrite (H l). Qed.

Lemma piece_length b i : 0 <= i -> (i + 1) * SECTOR <= len b -> len (piece b i) = SECTOR.
Proof. intros. unfold piece, SECTOR in *. rewrite length_take, length_drop. lia. Qed.

Lemma slice_piece {E} b i : 0 <= i -> (i + 1) * SECTOR <= len b ->
  slice (E:=E) b (i * SECTOR) (i * SECTOR + SECTOR) = Val (piece b i).
Proof.
  intros. unfold slice, piece, SECTOR in *. tests.
  by replace (i * 512 + 512 - i * 512) with 512 by lia.
Qed.

Lemma piece_slice b p i : 0 <= p -> 0 <= i < 8 ->
  piece (take (Z.to_nat PAGE) (drop (Z.to_nat (p * PAGE)) b)) i = piece b (8 * p + i).
Proof.
  intros. unfold piece. apply list_eq. intros k. unfold_sizes.
  destruct (decide (k < 512)%nat); [|by rewrite !lookup_take_ge by lia].
  rewrite !lookup_take_lt, !lookup_drop, lookup_take_lt, lookup_drop by lia. f_equal. lia.
Qed.

Lemma concat_length {A} k (ls : list (list A)) :
  Forall (fun l => length l = k) ls -> length (concat ls) = (length ls * k)%nat.
Proof. induction 1; cbn; [done|]. rewrite length_app. lia. Qed.

Lemma page_of_length n m p : sized n m -> 0 <= p -> 8 * p + 8 <= n -> len (page_of m p) = PAGE.
Proof.
  intros Hs Hp Hn. unfold page_of.
  rewrite (concat_length (Z.to_nat SECTOR)), length_fmap, length_seqZ; [done|].
  apply Forall_fmap, Forall_seqZ. intros i Hi. cbn. pose proof (Hs (8 * p + i)). slia.
Qed.

Lemma page_of_ext m m' p :
  (forall l, 8 * p <= l < 8 * p + 8 -> m l = m' l) -> page_of m p = page_of m' p.
Proof.
  intros H. unfold page_of. f_equal. apply list_fmap_ext. intros k i Hi.
  apply lookup_seqZ in Hi. apply H. lia.
Qed.

(** A buffer is the concatenation of its pieces. *)
Lemma pieces_concat b k i :
  len b = (i + Z.of_nat k) * SECTOR -> 0 <= i ->
  concat (piece b <$> seqZ i (Z.of_nat k)) = drop (Z.to_nat (i * SECTOR)) b.
Proof.
  revert i. induction k as [|k IH]; intros i Hb Hi.
  - cbn. rewrite drop_ge; [done|]. unfold SECTOR in *; lia.
  - rewrite seqZ_cons by lia. rewrite fmap_cons. cbn [concat].
    replace (Z.pred (Z.of_nat (S k))) with (Z.of_nat k) by lia. rewrite IH by lia.
    unfold piece.
    replace (Z.to_nat (Z.succ i * SECTOR)) with (Z.to_nat (i * SECTOR) + Z.to_nat SECTOR)%nat
      by (unfold SECTOR in *; lia).
    rewrite <- drop_drop. apply take_drop.
Qed.

Lemma page_of_put_pages m q k b p : 0 <= p < k -> len b = k * PAGE ->
  page_of (put_pages m q k b) (q + p) = take (Z.to_nat PAGE) (drop (Z.to_nat (p * PAGE)) b).
Proof.
  intros Hp Hb. set (s := take _ _). unfold page_of.
  assert (Hs : len s = PAGE) by (subst s; rewrite length_take, length_drop; slia).
  etransitivity; [|apply (pieces_concat s 8 0); slia].
  f_equal. apply list_fmap_ext. intros j i Hi. apply lookup_seqZ in Hi.
  unfold put_pages. tests. subst s. rewrite piece_slice by lia. f_equal. lia.
Qed.

Lemma page_of_put_page m p b : len b = PAGE -> page_of (put_page m p b) p = b.
Proof.
  intros Hb. rewrite <- (Z.add_0_r p) at 2. rewrite page_of_put_pages by slia.
  rewrite Z.mul_0_l, drop_0. apply take_ge. lia.
Qed.

(** ** Reading and writing pages *)

Section Pages.
Context {D : Type} `{!BlockDevice D, !DeviceLaws D}.

Lemma lba_of_val p i : 0 <= p < 2 ^ 57 -> 0 <= i < 8 -> lba_of p i = Val (8 * p + i).
Proof.
  intros. unfold lba_of, mul_u64, add_u64. change PAGE_SECTORS with 8. tests.
  cbn [mbind outcome_bind]. tests. by rewrite Z.mul_comm.
Qed.

Lemma runs_read_loop n m J p k i sec pre rest Q (R : medium -> Prop) :
  (forall x, J x -> R x) -> 0 <= n < 2 ^ 60 -> sized n m -> 0 <= p -> 8 * p + 8 <= n ->
  0 <= i -> i + Z.of_nat k = 8 -> len sec = SECTOR ->
  len pre = i * SECTOR -> len rest = Z.of_nat k * SECTOR ->
  Q (pre ++ concat ((fun i => m (8 * p + i)) <$> seqZ i (Z.of_nat k))) m J ->
  runs n m J (read_page_loop p (seqZ i (Z.of_nat k)) sec (pre ++ rest)) Q R.
Proof.
  intros HR Hn Hs Hp Hpn. revert i sec pre rest.
  induction k as [|k IH]; intros i sec pre rest Hi Hk Hsec Hpre Hrest HQ.
  - destruct rest; [|unfold SECTOR in *; cbn in Hrest; lia]. by apply runs_ret.
  - rewrite seqZ_cons in HQ |- * by lia. rewrite fmap_cons in HQ.
    replace (Z.pred (Z.of_nat (S k))) with (Z.of_nat k) in * by lia.
    cbn [read_page_loop]. apply runs_bind. eapply runs_lift; [apply lba_of_val; lia|].
    apply runs_bind, runs_read; [lia|done|done|]. apply runs_bind.
    assert (Hm : len (m (8 * p + i)) = SECTOR) by (apply Hs; lia).
    rewrite <- (take_drop (Z.to_nat SECTOR) rest). eapply runs_lift.
    + apply splice_app; [lia|]. rewrite length_take. unfold SECTOR in *; lia.
    + rewrite app_assoc. apply IH; try done; try lia.
      * rewrite length_app. unfold SECTOR in *; lia.
      * rewrite length_drop. unfold SECTOR in *; lia.
      * by rewrite <- app_assoc.
Qed.

Lemma runs_read_page n m J p out Q (R : medium -> Prop) :
  (forall x, J x -> R x) -> 0 <= p -> 8 * p + 8 <= n -> len out = PAGE ->
  (len (page_of m p) = PAGE -> Q (page_of m p) m J) -> runs n m J (read_page p out) Q R.
Proof.
  intros HR Hp Hpn Hout HQ. apply runs_sized. intros Hs Hn. unfold read_page.
  apply runs_bind. eapply runs_lift; [by rewrite Hout|].
  apply (runs_read_loop _ _ _ _ 8 0 _ [] out); try done; try slia.
  apply HQ. by apply (page_of_length n).
Qed.

(** A page write tolerated by the crash images. *)
Lemma runs_write_page n m (J : medium -> Prop) p data Q (R : medium -> Prop)
    `{!Proper (meq ==> impl) J} :
  (forall x, J x -> R x) -> 0 <= p -> 8 * p + 8 <= n -> len data = PAGE ->
  (forall x i, J x -> 0 <= i < 8 -> J (upd x (8 * p + i) (piece data i))) ->
  Q tt (put_page m p data) J -> runs n m J (write_page p data) Q R.
Proof.
  intros HR Hp Hpn Hd HJ HQ. apply runs_sized. intros Hs Hn. unfold write_page.
  apply runs_bind. eapply runs_lift; [by rewrite Hd|].
  set (part (k : nat) := fun l =>
    if (8 * p <=? l) && (l <? 8 * p + Z.of_nat k) then piece data (l - 8 * p) else m l).
  eapply runs_conseq; [apply (runs_for_each n R _ _
    (fun pre m' J' => meq m' (part (length pre)) /\ J' = J))|..].
  - intros pre i todo m' J' El [Hm ->].
    assert (Ei : i = Z.of_nat (length pre) /\ 0 <= i < 8).
    { assert (E : seqZ 0 PAGE_SECTORS !! length pre = Some i).
      { by rewrite El, lookup_app_r, Nat.sub_diag. }
      apply lookup_seqZ in E. change PAGE_SECTORS with 8 in E. lia. }
    destruct Ei as [Ei Hi].
    apply runs_bind. eapply runs_lift; [apply lba_of_val; lia|].
    apply runs_bind. eapply runs_lift; [apply slice_piece; slia|].
    apply runs_write_in; auto; [lia|apply piece_length; slia|].
    split; [|done]. intros l. rewrite length_app. cbn [length]. unfold upd.
    rewrite (Hm l). unfold part.
    destruct (Z.eqb_spec l (8 * p + i)) as [->|]; tests.
    + f_equal. lia.
    + destruct (Z.leb_spec (8 * p) l); cbn; [|done].
      destruct (Z.ltb_spec l (8 * p + Z.of_nat (length pre))); by tests.
  - split; [|done]. intros l. unfold part. cbn [length].
    by destruct (Z.leb_spec (8 * p) l); tests.
  - done.
  - intros [] m' J' [Hm ->]. exists (put_page m p data), J. split_and!; [|done|done].
    rewrite Hm. intros l. unfold part, put_pages.
    rewrite length_seqZ. change (Z.of_nat (Z.to_nat PAGE_SECTORS)) with 8.
    by replace (8 * (p + 1)) with (8 * p + 8) by lia.
  - done.
Qed.

(** ** The control pages *)

Lemma runs_write_ctrl n m (J : medium -> Prop) buf Q (R : medium -> Prop)
    `{!Proper (meq ==> impl) J} :
  (forall x, J x -> R x) -> 40 <= n -> len buf = 4 * PAGE ->
  (forall x i, J x -> 0 <= i < 32 -> J (upd x (8 + i) (piece buf i))) ->
  Q tt (put_pages m 1 4 buf) J -> runs n m J (write_ctrl buf) Q R.
Proof.
  intros HR Hn Hb HJ HQ. unfold write_ctrl.
  set (part (k : nat) := put_pages m 1 (Z.of_nat k) buf).
  eapply runs_conseq; [apply (runs_for_each n R _ _
    (fun pre m' J' => meq m' (part (length pre)) /\ J' = J))|..].
  - intros pre p todo m' J' El [Hm ->].
    assert (Ep : p = Z.of_nat (length pre) /\ 0 <= p < 4).
    { assert (E : seqZ 0 JCTRL_PAGES !! length pre = Some p).
      { by rewrite El, lookup_app_r, Nat.sub_diag. }
      apply lookup_seqZ in E. change JCTRL_PAGES with 4 in E. lia. }
    destruct Ep as [Ep Hp]. apply runs_bind. eapply runs_lift.
    { unfold slice. rewrite (proj2 (Z.leb_le 0 _)), !(proj2 (Z.leb_le _ _)) by slia. done. }
    replace (p * PAGE + PAGE - p * PAGE) with PAGE by lia.
    apply runs_write_page; [done|done|lia|lia| | |].
    + rewrite length_take, length_drop. slia.
    + intros x i Hx Hi. rewrite piece_slice by lia.
      replace (8 * (1 + p) + i) with (8 + (8 * p + i)) by lia. apply HJ; [done|lia].
    + split; [|done]. rewrite Hm. intros l. rewrite length_app. cbn [length].
      unfold part, put_pages.
      destruct (Z.leb_spec (8 * (1 + p)) l); cbn [andb];
        [destruct (Z.ltb_spec l (8 * (1 + p + 1))); cbn [andb]|].
      * tests. rewrite piece_slice by lia. f_equal. lia.
      * by tests.
      * by tests.
  - split; [|done]. intros l. unfold part, put_pages. cbn [length].
    by destruct (Z.leb_spec (8 * 1) l); tests.
  - done.
  - intros [] m' J' [Hm ->]. exists (put_pages m 1 4 buf), J. by split_and!.
  - done.
Qed.

Definition ctrl_bytes (m : medium) : bytes :=
  concat ((fun p => page_of m (1 + p)) <$> seqZ 0 4).

Lemma runs_read_ctrl_loop n m J k p pre Q (R : medium -> Prop) :
  (forall x, J x -> R x) -> 40 <= n -> 0 <= p -> p + Z.of_nat k = 4 -> len pre = p * PAGE ->
  Q (pre ++ concat ((fun p => page_of m (1 + p)) <$> seqZ p (Z.of_nat k))) m J ->
  runs n m J (read_ctrl_loop (seqZ p (Z.of_nat k)) (pre ++ zeros (Z.of_nat k * PAGE))) Q R.
Proof.
  intros HR Hn. revert p pre. induction k as [|k IH]; intros p pre Hp Hk Hpre HQ.
  - by apply runs_ret.
  - rewrite seqZ_cons in HQ |- * by lia. rewrite fmap_cons in HQ.
    replace (Z.pred (Z.of_nat (S k))) with (Z.of_nat k) in * by lia.
    cbn [read_ctrl_loop]. apply runs_bind, runs_read_page; [done|lia|lia| |].
    { unfold zeros. by rewrite length_replicate. }
    intros Hlen. apply runs_bind.
    replace (zeros (Z.of_nat (S k) * PAGE)) with (zeros PAGE ++ zeros (Z.of_nat k * PAGE)).
    2:{ unfold zeros. rewrite <- replicate_add. f_equal. slia. }
    eapply runs_lift.
    { apply splice_app; [lia|]. unfold zeros. rewrite length_replicate. lia. }
    rewrite app_assoc. apply IH; [lia|lia|rewrite length_app; lia|].
    by rewrite <- app_assoc.
Qed.

Lemma runs_read_ctrl n m J r Q (R : medium -> Prop) :
  (forall x, J x -> R x) -> 40 <= n ->
  (sized n m -> parse_ctrl (ctrl_bytes m) = Val r) -> Q r m J -> runs n m J read_ctrl Q R.
Proof.
  intros HR Hn Hr HQ. apply runs_sized. intros Hs Hn'. unfold read_ctrl.
  apply runs_bind, (runs_read_ctrl_loop _ _ _ 4 0 []); try done.
  by eapply runs_lift; [apply Hr|].
Qed.

End Pages.

(** ** Rendering and parsing the control pages *)

Definition header (entries : list Z) (txid st : Z) : bytes :=
  le_bytes 4 MAGIC ++ le_bytes 4 1 ++ le_bytes 4 st ++
  le_bytes 4 (crc32 (crc_in txid entries)) ++ le_bytes 8 txid ++ le_bytes 8 (len entries).
Definition body (entries : list Z) : bytes := concat (le_bytes 8 <$> entries).
Definition ctrl_image (entries : list Z) (txid st : Z) : bytes :=
  header entries txid st ++ body entries ++ zeros (4 * PAGE - 32 - 8 * len entries).

Lemma header_length es txid st : length (header es txid st) = 32%nat.
Proof. done. Qed.
Lemma body_length es : len (body es) = 8 * len es.
Proof.
  unfold body. rewrite (concat_length 8), length_fmap; [lia|].
  apply Forall_fmap, Forall_true. intros x. apply le_bytes_length.
Qed.
Lemma body_app a b : body (a ++ b) = body a ++ body b.
Proof. unfold body. by rewrite fmap_app, concat_app. Qed.
Lemma zeros_length n : 0 <= n -> len (zeros n) = n.
Proof. unfold zeros. rewrite length_replicate. lia. Qed.
Lemma zeros_add a b : 0 <= a -> 0 <= b -> zeros (a + b) = zeros a ++ zeros b.
Proof. intros. unfold zeros. by rewrite <- replicate_add, Z2Nat.inj_add. Qed.

Lemma ctrl_image_length es txid st : len es <= JCAP -> len (ctrl_image es txid st) = 4 * PAGE.
Proof.
  intros H. unfold ctrl_image. rewrite !length_app, header_length, !Nat2Z.inj_add, body_length.
  rewrite zeros_length by slia. lia.
Qed.

Lemma put_u32_at a b c off v :
  off = len a -> length b = 4%nat -> put_u32 (a ++ b ++ c) off v = Val (a ++ le_bytes 4 v ++ c).
Proof. intros. by apply splice_app. Qed.
Lemma put_u64_at a b c off v :
  off = len a -> length b = 8%nat -> put_u64 (a ++ b ++ c) off v = Val (a ++ le_bytes 8 v ++ c).
Proof. intros. by apply splice_app. Qed.

Lemma put_entries es k h mid r :
  length h = 32%nat -> len mid = 8 * Z.of_nat k -> 8 * len es <= r ->
  fold_o (fun buf '(i, e) => put_u64 buf (HEADER_LEN + Z.of_nat i * 8) e)
    (h ++ mid ++ zeros r) (zip (seq k (length es)) es)
  = Val (h ++ mid ++ body es ++ zeros (r - 8 * len es)).
Proof.
  revert k mid r. induction es as [|e es IH]; intros k mid r Hh Hm Hr.
  - cbn. by rewrite Z.sub_0_r.
  - cbn [length seq zip zip_with fold_o]. cbn [length] in Hr.
    replace (zeros r) with (zeros 8 ++ zeros (r - 8))
      by (rewrite <- zeros_add by lia; f_equal; lia).
    rewrite (app_assoc h mid), put_u64_at; [|rewrite length_app; slia|done].
    cbn [mbind outcome_bind]. rewrite <- app_assoc, (app_assoc mid), IH.
    + change (body (e :: es)) with (le_bytes 8 e ++ body es). rewrite <- !app_assoc.
      cbn [length]. by replace (r - 8 * Z.of_nat (S (length es))) with (r - 8 - 8 * len es) by lia.
    + done.
    + rewrite length_app, le_bytes_length. lia.
    + lia.
Qed.

Lemma render_ctrl_val es txid st :
  len es <= JCAP -> render_ctrl es txid st = Val (ctrl_image es txid st).
Proof.
  intros H. unfold render_ctrl, enumerate.
  replace (zeros (JCTRL_PAGES * PAGE)) with (zeros 32 ++ [] ++ zeros (4 * PAGE - 32))
    by (cbn [app]; rewrite <- zeros_add by slia; f_equal; slia).
  rewrite put_entries by (done || slia). cbn [mbind outcome_bind app].
  change (zeros 32) with (zeros 4 ++ zeros 4 ++ zeros 4 ++ zeros 4 ++ zeros 8 ++ zeros 8).
  rewrite <- !app_assoc.
  pose proof (put_u32_at [] (zeros 4)) as H0. cbn [app] in H0.
  rewrite H0 by done. cbn [mbind outcome_bind app].
  rewrite (put_u32_at (le_bytes 4 MAGIC)) by done. cbn [mbind outcome_bind].
  rewrite (app_assoc (le_bytes 4 MAGIC)), put_u32_at by done. cbn [mbind outcome_bind].
  rewrite (app_assoc _ (le_bytes 4 st)), put_u32_at by done. cbn [mbind outcome_bind].
  rewrite (app_assoc _ (le_bytes 4 (crc32 _))), put_u64_at by done. cbn [mbind outcome_bind].
  rewrite (app_assoc _ (le_bytes 8 txid)), put_u64_at by done.
  unfold ctrl_image, header. by rewrite <- !app_assoc.
Qed.

(** [get_u32] as a function. *)
Definition get32 (b : bytes) (off : nat) : Z := of_le_bytes (take 4 (drop off b)).

Lemma get_u32_at a v c off :
  off = len a -> 0 <= v < 2 ^ 32 -> get_u32 (a ++ le_bytes 4 v ++ c) off = Val v.
Proof.
  intros -> Hv. unfold get_u32. rewrite (slice_app a) by done. cbn [fmap outcome_fmap].
  by rewrite of_le_bytes_small.
Qed.
Lemma get_u64_at a v c off :
  off = len a -> 0 <= v < 2 ^ 64 -> get_u64 (a ++ le_bytes 8 v ++ c) off = Val v.
Proof.
  intros -> Hv. unfold get_u64. rewrite (slice_app a) by done. cbn [fmap outcome_fmap].
  by rewrite of_le_bytes_small.
Qed.

(** The CRC is a [u32]. *)
Lemma lxor_bound a b : 0 <= a < 2 ^ 32 -> 0 <= b < 2 ^ 32 -> 0 <= Z.lxor a b < 2 ^ 32.
Proof.
  intros Ha Hb. rewrite <- (Z.mod_small a (2 ^ 32)), <- (Z.mod_small b (2 ^ 32)) by done.
  rewrite <- !Z.land_ones by done.
  replace (Z.lxor _ _) with (Z.land (Z.lxor a b) (Z.ones 32)).
  - rewrite Z.land_ones by done. by apply Z.mod_pos_bound.
  - apply Z.bits_inj'. intros k Hk. rewrite !Z.lxor_spec, !Z.land_spec, Z.lxor_spec.
    by destruct (Z.testbit a k), (Z.testbit b k), (Z.testbit (Z.ones 32) k).
Qed.

Lemma crc_step_bound c : 0 <= c < 2 ^ 32 -> 0 <= crc_step c < 2 ^ 32.
Proof.
  intros Hc. unfold crc_step. apply lxor_bound.
  - rewrite Z.shiftr_div_pow2 by done. change (2 ^ 1) with 2. lia.
  - set (x := _ mod _). assert (Hx : 0 <= x < 2 ^ 32) by by apply Z.mod_pos_bound.
    rewrite <- (Z.mod_small x (2 ^ 32)), <- Z.land_ones, Z.land_assoc, Z.land_ones by done.
    by apply Z.mod_pos_bound.
Qed.

Lemma crc32_bound b : is_bytes b -> 0 <= crc32 b < 2 ^ 32.
Proof.
  intros Hb. unfold crc32. apply lxor_bound; [|done].
  assert (H : 0 <= 0xFFFFFFFF < 2 ^ 32) by done. revert H.
  generalize 0xFFFFFFFF. induction Hb as [|x b Hx _ IH]; intros c Hc; cbn; [done|].
  apply IH. unfold crc_byte, is_byte in *.
  do 8 apply crc_step_bound. apply lxor_bound; [done|lia].
Qed.

Lemma crc_in_bytes txid es : is_bytes (crc_in txid es).
Proof.
  unfold crc_in. rewrite !Forall_app. split_and!; try apply le_bytes_is_bytes.
  apply Forall_concat, Forall_fmap, Forall_true. intros e. apply le_bytes_is_bytes.
Qed.

Definition is_u64 (x : Z) : Prop := 0 <= x < 2 ^ 64.

Lemma parse_entries es pre post k acc :
  len pre = HEADER_LEN + 8 * k -> 0 <= k -> Forall is_u64 es ->
  fold_o (fun out i => e ← get_u64 (pre ++ body es ++ post) (HEADER_LEN + i * 8); mret (out ++ [e]))
    acc (seqZ k (len es)) = Val (acc ++ es).
Proof.
  intros Hpre Hk H. revert pre k acc Hpre Hk.
  induction H as [|e es He _ IH]; intros pre k acc Hpre Hk.
  - cbn. by rewrite app_nil_r.
  - rewrite seqZ_cons by (cbn; lia). cbn [fold_o].
    replace (pre ++ body (e :: es) ++ post) with (pre ++ le_bytes 8 e ++ body es ++ post)
      by (change (body (e :: es)) with (le_bytes 8 e ++ body es); by rewrite <- !app_assoc).
    rewrite get_u64_at by (done || lia). cbn [mbind outcome_bind mret outcome_ret].
    replace (Z.pred (len (e :: es))) with (len es) by (cbn [length]; lia).
    rewrite (app_assoc pre). rewrite (IH (pre ++ le_bytes 8 e)).
    + by rewrite <- app_assoc.
    + rewrite length_app, le_bytes_length. lia.
    + lia.
Qed.

(** The control pages read back. *)
Lemma parse_ctrl_image es txid st :
  len es <= JCAP -> Forall is_u64 es -> is_u64 txid -> 0 <= st < 2 ^ 32 ->
  parse_ctrl (ctrl_image es txid st) = Val (Some (mk_ctrl st (len es) es)).
Proof.
  intros Hc Hes Ht Hst. set (crc := crc32 (crc_in txid es)).
  assert (Hcrc : 0 <= crc < 2 ^ 32) by apply crc32_bound, crc_in_bytes.
  assert (Hlen : is_u64 (len es)) by (unfold is_u64; slia).
  unfold parse_ctrl.
  set (rest := body es ++ zeros (4 * PAGE - 32 - 8 * len es)).
  assert (E : ctrl_image es txid st = le_bytes 4 MAGIC ++ le_bytes 4 1 ++ le_bytes 4 st ++
    le_bytes 4 crc ++ le_bytes 8 txid ++ le_bytes 8 (len es) ++ rest).
  { unfold ctrl_image, header. by rewrite <- !app_assoc. }
  pose proof (get_u32_at [] MAGIC) as H0. cbn [app] in H0.
  rewrite E at 1. rewrite H0 by done. cbn [mbind outcome_bind].
  rewrite Z.eqb_refl. cbn [negb].
  rewrite E at 1. rewrite (app_assoc (le_bytes 4 MAGIC)), get_u32_at by done.
  cbn [mbind outcome_bind].
  rewrite E at 1. rewrite (app_assoc (le_bytes 4 MAGIC)), (app_assoc _ (le_bytes 4 st)),
    get_u32_at by done. cbn [mbind outcome_bind].
  rewrite E at 1. rewrite (app_assoc (le_bytes 4 MAGIC)), (app_assoc _ (le_bytes 4 st)),
    (app_assoc _ (le_bytes 4 crc)), get_u64_at by done. cbn [mbind outcome_bind].
  rewrite E at 1. rewrite (app_assoc (le_bytes 4 MAGIC)), (app_assoc _ (le_bytes 4 st)),
    (app_assoc _ (le_bytes 4 crc)), (app_assoc _ (le_bytes 8 txid)), get_u64_at by done.
  cbn [mbind outcome_bind]. tests.
  unfold ctrl_image. rewrite parse_entries by done. cbn [mbind outcome_bind app].
  fold crc. by rewrite Z.eqb_refl.
Qed.

(** Parsing four control pages never aborts, and reads the state at byte 8. *)
Lemma slice_in {E A} (l : list A) i j :
  0 <= i <= j -> j <= len l ->
  slice (E:=E) l i j = Val (take (Z.to_nat (j - i)) (drop (Z.to_nat i) l)).
Proof. intros. unfold slice. by tests. Qed.

Lemma get_u32_in b off :
  0 <= off -> off + 4 <= len b -> get_u32 b off = Val (get32 b (Z.to_nat off)).
Proof.
  intros. unfold get_u32. rewrite slice_in by lia. unfold get32. cbn. f_equal.
  by replace (off + 4 - off) with 4 by lia.
Qed.

Lemma get_u64_in b off : 0 <= off -> off + 8 <= len b -> exists v, get_u64 b off = Val v.
Proof. intros. unfold get_u64. rewrite slice_in by lia. by eexists. Qed.

Lemma parse_ctrl_total b : len b = 4 * PAGE ->
  exists r, parse_ctrl b = Val r /\
    (r = None \/ exists c, r = Some c /\ get32 b 0 = MAGIC /\ state c = get32 b 8).
Proof.
  intros Hb. unfold parse_ctrl.
  rewrite (get_u32_in b 0) by slia. cbn [mbind outcome_bind].
  change (Z.to_nat 0) with 0%nat.
  destruct (Z.eqb_spec (get32 b 0) MAGIC) as [Em|]; cbn [negb]; [|eauto].
  rewrite (get_u32_in b 8) by slia. cbn [mbind outcome_bind].
  rewrite (get_u32_in b 12) by slia. cbn [mbind outcome_bind].
  change (Z.to_nat 8) with 8%nat.
  destruct (get_u64_in b 16) as [txid ->]; [slia..|]. cbn [mbind outcome_bind].
  destruct (get_u64_in b 24) as [cnt ->]; [slia..|]. cbn [mbind outcome_bind].
  destruct (Z.ltb_spec JCAP cnt) as [|Hcnt]; [eauto|].
  assert (H : forall l acc, Forall (fun i => 0 <= i < cnt) l -> exists es,
    fold_o (fun out i => e ← get_u64 b (HEADER_LEN + i * 8); mret (out ++ [e])) acc l = Val es).
  { induction l as [|i l IH]; intros acc Hl; cbn [fold_o]; [eauto|].
    apply Forall_cons in Hl as [Hi Hl].
    destruct (get_u64_in b (HEADER_LEN + i * 8)) as [e ->]; [slia..|].
    cbn [mbind outcome_bind mret outcome_ret]. by apply IH. }
  destruct (H (seqZ 0 cnt) []) as [es ->].
  { apply Forall_seqZ. lia. }
  cbn [mbind outcome_bind]. destruct (crc32 (crc_in txid es) =? _); cbn [negb]; [|eauto].
  eexists. split; [done|]. right. by eexists.
Qed.

(** Only the first sector depends on the transaction and the state. *)
Lemma piece_ctrl_body es txid st txid' st' i : 1 <= i ->
  piece (ctrl_image es txid st) i = piece (ctrl_image es txid' st') i.
Proof.
  intros Hi. unfold piece, ctrl_image, SECTOR. f_equal.
  do 2 rewrite (drop_app_ge (header _ _ _)) by (rewrite header_length; lia).
  by rewrite !header_length.
Qed.

Lemma get32_piece b off : (off + 4 <= 512)%nat -> get32 (piece b 0) off = get32 b off.
Proof.
  intros. unfold get32, piece, SECTOR. f_equal. rewrite Z.mul_0_l, drop_0.
  apply list_eq. intros k. destruct (decide (k < 4)%nat); [|by rewrite !lookup_take_ge by lia].
  by rewrite !lookup_take_lt, !lookup_drop, lookup_take_lt by lia.
Qed.

Lemma get32_ctrl_image es txid st : 0 <= st < 2 ^ 32 ->
  get32 (ctrl_image es txid st) 0 = MAGIC /\ get32 (ctrl_image es txid st) 8 = st.
Proof.
  intros Hst. unfold get32, ctrl_image, header. split; [done|].
  change (take 4 _) with (le_bytes 4 st). by apply of_le_bytes_small.
Qed.
