(* ===== verification/JournalCrash.v ===== *)
(** * Crash safety of the journal

    What a commit and a recovery leave on the disk, at every point where the
    power may be lost. *)

From S2P Require Import Prelude Types Block Journal JournalFacts.
Import Journal.

(** ** The state of a disk *)

(** Sectors of the journal region, pages 1 to [FIRST_DATA_PAGE - 1]. *)
Definition journal_lba (l : Z) : Prop := 8 <= l < 8 * FIRST_DATA_PAGE.

(** Two disks agree outside the journal. *)
Definition home_eq (x m : medium) : Prop := forall l, ~ journal_lba l -> x l = m l.

(** No transaction waits in the journal: its first sector says so. *)
Definition idle (m : medium) : Prop :=
  get32 (m 8) 0 <> MAGIC \/ get32 (m 8) 8 <> STATE_COMMITTED.

(** The pages of a transaction written home, in order. *)
Fixpoint install (m : medium) (dirty : list (Z * bytes)) : medium :=
  match dirty with
  | [] => m
  | (t, img) :: r => install (put_page m t img) r
  end.

(** A transaction the pager may commit on a disk of [n] sectors. *)
Definition dirty_ok (n : Z) (dirty : list (Z * bytes)) : Prop :=
  8 * FIRST_DATA_PAGE <= n /\ len dirty <= JCAP /\
  Forall (fun '(t, img) => len img = PAGE /\ 8 * t + 8 <= n /\ (t = 0 \/ FIRST_DATA_PAGE <= t))
    dirty.

(** The journal holds a committed transaction. *)
Definition staged (m : medium) (dirty : list (Z * bytes)) (txid : Z) : Prop :=
  ctrl_bytes m = ctrl_image dirty.*1 txid STATE_COMMITTED /\
  forall i t img, dirty !! i = Some (t, img) -> page_of m (JDATA_START_PAGE + Z.of_nat i) = img.

(** The disk recovery makes of [x]. *)
Definition recovers_to (n : Z) (x h : medium) : Prop :=
  (idle x /\ home_eq x h) \/
  exists dirty txid, dirty_ok n dirty /\ is_u64 txid /\ staged x dirty txid /\
    home_eq (install x dirty) h.

#[export] Instance home_eq_equiv : Equivalence home_eq.
Proof. split; [by intros ???|intros x y H l Hl; by rewrite H|intros x y z H1 H2 l Hl; by rewrite H1, H2]. Qed.

Lemma meq_home x m : meq x m -> home_eq x m.
Proof. intros H l _. apply H. Qed.

#[export] Instance idle_proper : Proper (meq ==> impl) idle.
Proof. intros x y H Hi. unfold idle. by rewrite <- (H 8). Qed.

#[export] Instance install_proper : Proper (meq ==> eq ==> meq) install.
Proof.
  intros x y H dirty _ <-. revert x y H. induction dirty as [|[t img] r IH]; intros x y H; [done|].
  cbn. apply IH. by rewrite H.
Qed.

Lemma page_of_meq x y p : meq x y -> page_of x p = page_of y p.
Proof. intros H. apply page_of_ext. intros l _. apply H. Qed.

#[export] Instance staged_proper : Proper (meq ==> eq ==> eq ==> impl) staged.
Proof.
  intros x y H d _ <- t _ <- [Hc Hp]. split.
  - rewrite <- Hc. unfold ctrl_bytes. f_equal. apply list_fmap_ext. intros ? p _.
    symmetry. by apply page_of_meq.
  - intros i t' img Hi. rewrite <- (Hp i t' img Hi). symmetry. by apply page_of_meq.
Qed.

#[export] Instance recovers_to_proper n : Proper (meq ==> home_eq ==> impl) (recovers_to n).
Proof.
  intros x y H h h' Hh [[Hi He]|(dirty & txid & Hd & Ht & Hs & He)]; [left|right].
  - split; [by rewrite <- H|]. rewrite <- Hh, <- He. symmetry. by apply meq_home.
  - exists dirty, txid. split_and!; [done..|by rewrite <- H|].
    rewrite <- Hh, <- He. symmetry. apply meq_home. by rewrite H.
Qed.

(** ** Installing pages *)

Definition in_targets (dirty : list (Z * bytes)) (l : Z) : Prop :=
  exists t img, (t, img) ∈ dirty /\ 8 * t <= l < 8 * t + 8.

Lemma put_page_in m t img l : 8 * t <= l < 8 * t + 8 -> put_page m t img l = piece img (l - 8 * t).
Proof. intros. unfold put_pages. by tests. Qed.
Lemma put_page_out m t img l : ~ (8 * t <= l < 8 * t + 8) -> put_page m t img l = m l.
Proof.
  intros. unfold put_pages. destruct (Z.leb_spec (8 * t) l); cbn; [|done]. by tests.
Qed.

Lemma install_agree dirty x m l :
  (~ in_targets dirty l -> x l = m l) -> install x dirty l = install m dirty l.
Proof.
  revert x m. induction dirty as [|[t img] r IH]; intros x m H; cbn.
  - apply H. intros (t & img & Hin & _). by apply elem_of_nil in Hin.
  - apply IH. intros Hr. destruct (decide (8 * t <= l < 8 * t + 8)).
    + by rewrite !put_page_in.
    + rewrite !put_page_out by done. apply H.
      intros (t' & img' & [Hin|Hin]%elem_of_cons & ?); [congruence|].
      apply Hr. by exists t', img'.
Qed.

Lemma install_other dirty m l : ~ in_targets dirty l -> install m dirty l = m l.
Proof.
  revert m. induction dirty as [|[t img] r IH]; intros m H; cbn; [done|].
  rewrite IH, put_page_out; [done| |].
  - intros Hr. apply H. exists t, img. split; [by left|done].
  - intros (t' & img' & ? & ?). apply H. exists t', img'. split; [by right|done].
Qed.

Lemma install_app m a b : install m (a ++ b) = install (install m a) b.
Proof. revert m. induction a as [|[t img] a IH]; intros m; cbn; [done|apply IH]. Qed.

Lemma targets_home n dirty l : dirty_ok n dirty -> in_targets dirty l -> ~ journal_lba l.
Proof.
  intros (_ & _ & Hd) (t & img & Hin & Hl). rewrite Forall_forall in Hd.
  destruct (Hd _ Hin) as (_ & _ & Ht). unfold journal_lba. slia.
Qed.

(** The disks reachable while the pages go home. *)
Definition installing (m : medium) (dirty : list (Z * bytes)) (x : medium) : Prop :=
  forall l, ~ in_targets dirty l -> x l = m l.

#[export] Instance installing_proper m dirty : Proper (meq ==> impl) (installing m dirty).
Proof. intros x y H Hx l Hl. by rewrite <- (H l), Hx. Qed.

Lemma journal_page_same n m dirty x p : dirty_ok n dirty -> installing m dirty x ->
  1 <= p < FIRST_DATA_PAGE -> page_of x p = page_of m p.
Proof.
  intros Hd Hx Hp. apply page_of_ext. intros l Hl. apply Hx. intros Ht.
  apply (targets_home n) in Ht; [|done]. apply Ht. unfold journal_lba. lia.
Qed.

Lemma installing_staged n m dirty txid x :
  dirty_ok n dirty -> staged m dirty txid -> installing m dirty x -> staged x dirty txid.
Proof.
  intros Hd [Hc Hp] Hx. split.
  - rewrite <- Hc. unfold ctrl_bytes. f_equal. apply list_fmap_ext. intros i p Hi.
    apply lookup_seqZ in Hi. apply (journal_page_same n m dirty); [done..|slia].
  - intros i t img Hi. rewrite <- (Hp i t img Hi).
    apply (journal_page_same n m dirty); [done..|].
    apply lookup_lt_Some in Hi. destruct Hd as (_ & Hcap & _). slia.
Qed.

Lemma installing_recovers n m dirty txid x :
  dirty_ok n dirty -> is_u64 txid -> staged m dirty txid -> installing m dirty x ->
  recovers_to n x (install m dirty).
Proof.
  intros Hd Ht Hs Hx. right. exists dirty, txid. split_and!; [done..| |].
  - by apply (installing_staged n m).
  - intros l _. by apply install_agree, Hx.
Qed.

(** ** Rewriting the control pages *)

Lemma concat_piece (f : Z -> bytes) k i :
  (forall j, 0 <= j < k -> len (f j) = SECTOR) -> 0 <= i < k ->
  piece (concat (f <$> seqZ 0 k)) i = f i.
Proof.
  intros Hf Hi.
  replace (seqZ 0 k) with (seqZ 0 i ++ seqZ i (k - i)).
  2:{ pose proof (seqZ_app 0 i (k - i)) as E. rewrite Z.add_0_l in E.
      rewrite <- E by lia. f_equal. lia. }
  rewrite (seqZ_cons i) by lia. rewrite fmap_app, concat_app, fmap_cons. cbn [concat].
  unfold piece. rewrite drop_app_length'.
  - rewrite take_app_length'; [done|]. specialize (Hf i). unfold SECTOR in *; lia.
  - rewrite (concat_length (Z.to_nat SECTOR)), length_fmap, length_seqZ; [unfold SECTOR; lia|].
    apply Forall_fmap, Forall_seqZ. intros j Hj. cbn. specialize (Hf j). unfold SECTOR in *; lia.
Qed.

Lemma ctrl_bytes_sectors m : ctrl_bytes m = concat ((fun i => m (8 + i)) <$> seqZ 0 32).
Proof.
  unfold ctrl_bytes, page_of.
  repeat match goal with
  | |- context [seqZ 0 ?k] => let l := eval vm_compute in (seqZ 0 k) in change (seqZ 0 k) with l
  end.
  cbn [fmap list_fmap concat]. by rewrite !app_nil_r, <- !app_assoc.
Qed.

Lemma piece_ctrl_bytes n m i : sized n m -> 40 <= n -> 0 <= i < 32 ->
  piece (ctrl_bytes m) i = m (8 + i).
Proof.
  intros Hs Hn Hi. rewrite ctrl_bytes_sectors. apply (concat_piece (fun i => m (8 + i))); [|done].
  intros j Hj. apply Hs. lia.
Qed.

Lemma ctrl_bytes_put m buf : len buf = 4 * PAGE -> ctrl_bytes (put_pages m 1 4 buf) = buf.
Proof.
  intros Hb. rewrite ctrl_bytes_sectors.
  transitivity (concat (piece buf <$> seqZ 0 32)); [|apply (pieces_concat buf 32 0); slia].
  apply f_equal, list_fmap_ext. intros k i Hi. apply lookup_seqZ in Hi.
  unfold put_pages. tests. f_equal. lia.
Qed.

Lemma put_ctrl_other m buf l : ~ journal_lba l \/ 40 <= l -> put_pages m 1 4 buf l = m l.
Proof.
  intros H. unfold put_pages, journal_lba in *.
  destruct (Z.leb_spec (8 * 1) l); cbn; [|done]. by rewrite (proj2 (Z.ltb_ge _ _)) by slia.
Qed.

Lemma put_ctrl_home m buf : home_eq (put_pages m 1 4 buf) m.
Proof. intros l Hl. apply put_ctrl_other. by left. Qed.

Lemma put_ctrl_page m buf p : 5 <= p -> page_of (put_pages m 1 4 buf) p = page_of m p.
Proof. intros Hp. apply page_of_ext. intros l Hl. apply put_ctrl_other. right. lia. Qed.

Lemma put_ctrl_head m es txid st : 0 <= st < 2 ^ 32 ->
  get32 (put_pages m 1 4 (ctrl_image es txid st) 8) 0 = MAGIC /\
  get32 (put_pages m 1 4 (ctrl_image es txid st) 8) 8 = st.
Proof.
  intros Hst. change (put_pages m 1 4 ?b 8) with (piece b 0).
  rewrite !get32_piece by lia. by apply get32_ctrl_image.
Qed.

Lemma put_ctrl_idle m es txid : idle (put_pages m 1 4 (ctrl_image es txid STATE_EMPTY)).
Proof. right. by rewrite (proj2 (put_ctrl_head m es txid STATE_EMPTY ltac:(done))). Qed.

Section Phases.
Context {D : Type} `{!BlockDevice D, !DeviceLaws D}.

(** Over control pages with the same entries, only the first sector
    changes: every crash image is the old disk or the new one. *)
Lemma runs_flip n m es txid st txid' st' Q (R : medium -> Prop) :
  40 <= n -> len es <= JCAP -> Proper (meq ==> impl) R ->
  ctrl_bytes m = ctrl_image es txid st ->
  let buf := ctrl_image es txid' st' in
  R m -> R (put_pages m 1 4 buf) ->
  Q tt (put_pages m 1 4 buf) (fun x => meq x m \/ meq x (put_pages m 1 4 buf)) ->
  runs n m (fun x => meq x m) (write_ctrl buf) Q R.
Proof.
  intros Hn Hes HR Hc buf H1 H2 HQ. apply runs_sized. intros Hs _.
  set (m' := put_pages m 1 4 buf) in *.
  set (J x := (x 8 = m 8 \/ x 8 = m' 8) /\ forall l, l <> 8 -> x l = m l).
  assert (Hm' : forall l, l <> 8 -> m' l = m l).
  { intros l Hl. unfold m', put_pages. destruct (Z.leb_spec (8 * 1) l); cbn [andb]; [|done].
    destruct (Z.ltb_spec l (8 * (1 + 4))); [|done].
    rewrite <- (Z.sub_simpl_r l (8 * 1)) at 2. rewrite Z.add_comm, <- (piece_ctrl_bytes n) by (done || lia).
    rewrite Hc. apply piece_ctrl_body. lia. }
  assert (HJ : forall x, J x -> meq x m \/ meq x m').
  { intros x [[E|E] Hx]; [left|right]; intros l; destruct (decide (l = 8)) as [->|];
      rewrite ?Hm', ?Hx by done; done. }
  assert (Proper (meq ==> impl) J).
  { intros x y H [Hx Hx']. split; [by rewrite <- !(H 8)|].
    intros l Hl. by rewrite <- (H l), Hx'. }
  assert (HJR : forall x, J x -> R x).
  { intros x [E|E]%HJ; by rewrite E. }
  eapply (runs_conseq _ _ _ J).
  - apply (runs_write_ctrl n m J buf (fun _ m2 J2 => m2 = m' /\ J2 = J) R); try done.
    + by apply ctrl_image_length.
    + intros x i [Hx8 Hx] Hi.
      assert (E : piece buf i = m' (8 + i)).
      { unfold m', put_pages. tests. f_equal. lia. }
      split; unfold upd.
      * destruct (Z.eqb_spec 8 (8 + i)) as [E8|]; [|done]. right. by rewrite E, <- E8.
      * intros l Hl. destruct (Z.eqb_spec l (8 + i)) as [->|]; [|by apply Hx].
        by rewrite E, Hm'.
  - intros x E. split; [left; apply E|intros l _; apply E].
  - intros [] m2 J2 [-> ->]. exists m', (fun x => meq x m \/ meq x m'). split_and!; [done|exact HJ|done].
  - done.
Qed.

(** ... and after a flush, the new one. *)
Lemma runs_flip_flush {A} n m es txid st txid' st' (k : stM D StoreError A) Q
    (R : medium -> Prop) :
  40 <= n -> len es <= JCAP -> Proper (meq ==> impl) R ->
  ctrl_bytes m = ctrl_image es txid st ->
  let m' := put_pages m 1 4 (ctrl_image es txid' st') in
  R m -> R m' -> runs n m' (fun x => meq x m') k Q R ->
  runs n m (fun x => meq x m) (
    buf ← lift (render_ctrl es txid' st'); _ ← write_ctrl buf; _ ← flush; k) Q R.
Proof.
  intros Hn Hes HR Hc m' H1 H2 HQ.
  apply runs_bind. eapply runs_lift; [by apply render_ctrl_val|].
  apply runs_bind. eapply runs_flip; try done.
  apply runs_bind, runs_flush; [|done]. intros x [E|E]; by rewrite E.
Qed.

(** ** Taking the pages home *)

Lemma runs_install n m dirty (R : medium -> Prop) :
  dirty_ok n dirty -> (forall x, installing m dirty x -> R x) ->
  runs n m (installing m dirty) (for_each dirty (fun '(t, img) => write_page t img))
    (fun _ m' J' => meq m' (install m dirty) /\ J' = installing m dirty) R.
Proof.
  intros (Hn & Hcap & Hd) HR. rewrite Forall_forall in Hd.
  eapply runs_conseq; [apply (runs_for_each n R dirty _
    (fun pre m' J' => meq m' (install m pre) /\ J' = installing m dirty))|..]; try done.
  - intros pre [t img] todo m' J' El [Hm ->].
    assert (Hin : (t, img) ∈ dirty) by (rewrite El; set_solver).
    destruct (Hd _ Hin) as (Himg & Htn & Ht).
    apply runs_write_page; [apply _|done|slia|done|done| |].
    + intros x i Hx Hi l Hl. unfold upd. destruct (Z.eqb_spec l (8 * t + i)) as [->|]; [|by apply Hx].
      destruct Hl. exists t, img. split; [done|lia].
    + split; [|done]. by rewrite install_app, Hm.
  - intros [] m' J' H. by exists m', J'.
Qed.

Lemma installing_prefix m pre l : installing m (pre ++ l) (install m pre).
Proof.
  intros k Hk. apply install_other. intros (t & img & ? & ?). apply Hk.
  exists t, img. split; [set_solver|done].
Qed.

Lemma runs_redo n m dirty txid (R : medium -> Prop) pre l page m' :
  dirty_ok n dirty -> staged m dirty txid -> (forall x, installing m dirty x -> R x) ->
  dirty = pre ++ l -> len page = PAGE -> meq m' (install m pre) ->
  runs n m' (installing m dirty) (redo_loop (zip (seq (length pre) (length l)) l.*1) page)
    (fun _ m' J' => meq m' (install m dirty) /\ J' = installing m dirty) R.
Proof.
  intros Hd Hs HR. revert pre page m'.
  induction l as [|[t img] l IH]; intros pre page m' El Hp Hm.
  - apply runs_ret. rewrite app_nil_r in El. by subst.
  - cbn [length seq fmap list_fmap fst zip zip_with redo_loop].
    assert (Hi : dirty !! length pre = Some (t, img)) by (by rewrite El, list_lookup_middle).
    pose proof Hd as (Hn & Hcap & Hall). rewrite Forall_lookup in Hall.
    destruct (Hall _ _ Hi) as (Himg & Htn & Ht).
    apply lookup_lt_Some in Hi as Hlt.
    assert (Epage : page_of m' (JDATA_START_PAGE + Z.of_nat (length pre)) = img).
    { rewrite (page_of_meq _ _ _ Hm), <- (proj2 Hs _ _ _ Hi).
      apply (journal_page_same n m dirty); [done| |slia]. rewrite El. apply installing_prefix. }
    apply runs_bind, runs_read_page; [done|slia|slia|done|]. intros _. rewrite Epage.
    apply runs_bind, runs_write_page; [apply _|done|slia|done|done| |].
    + intros x i Hx Hi' k Hk. unfold upd.
      destruct (Z.eqb_spec k (8 * t + i)) as [->|]; [|by apply Hx].
      destruct Hk. exists t, img. split; [|lia]. rewrite El. set_solver.
    + replace (S (length pre)) with (length (pre ++ [(t, img)])) by (rewrite length_app; cbn; lia).
      apply IH; [by rewrite <- app_assoc|done|]. by rewrite install_app, Hm.
Qed.

(** Pages home, flush, journal released. *)
Lemma runs_checkpoint {A} n m dirty txid txid' (c : stM D StoreError unit)
    (k : stM D StoreError A) Q (R : medium -> Prop) :
  dirty_ok n dirty -> is_u64 txid -> staged m dirty txid -> Proper (meq ==> impl) R ->
  (forall x, recovers_to n x (install m dirty) -> R x) ->
  runs n m (installing m dirty) c
    (fun _ m' J' => meq m' (install m dirty) /\ J' = installing m dirty) R ->
  let m4 := put_pages (install m dirty) 1 4 (ctrl_image dirty.*1 txid' STATE_EMPTY) in
  runs n m4 (fun x => meq x m4) k Q R ->
  runs n m (fun x => meq x m) (
    _ ← c; _ ← flush;
    buf ← lift (render_ctrl dirty.*1 txid' STATE_EMPTY); _ ← write_ctrl buf; _ ← flush; k) Q R.
Proof.
  intros Hd Ht Hs HRp HR Hc m4 Hk. pose proof Hd as (Hn & Hcap & _).
  set (m3 := install m dirty) in *.
  assert (H3 : installing m dirty m3).
  { intros l Hl. by apply install_other. }
  apply runs_bind. eapply runs_conseq; [exact Hc| | |done].
  { intros x Hx l _. apply Hx. }
  intros [] m' J' [Hm ->]. exists m3, (installing m dirty). split_and!; [done..|].
  apply runs_bind, runs_flush.
  { intros x Hx. apply HR. by apply (installing_recovers n m dirty txid). }
  eapply runs_flip_flush; [slia|by rewrite length_fmap|done| | | |exact Hk].
  - apply (installing_staged n m dirty txid m3); done.
  - apply HR. by apply (installing_recovers n m dirty txid).
  - apply HR. left. split; [apply put_ctrl_idle|apply put_ctrl_home].
Qed.

(** ** Recovery *)

Lemma idle_parse n m : sized n m -> 40 <= n -> idle m ->
  exists r, parse_ctrl (ctrl_bytes m) = Val r /\
    (r = None \/ exists c, r = Some c /\ state c <> STATE_COMMITTED).
Proof.
  intros Hs Hn Hi. destruct (parse_ctrl_total (ctrl_bytes m)) as (r & E & Hr).
  { rewrite ctrl_bytes_sectors, (concat_length (Z.to_nat SECTOR)), length_fmap, length_seqZ.
    - slia.
    - apply Forall_fmap, Forall_seqZ. intros i Hlt. cbn. pose proof (Hs (8 + i)). slia. }
  exists r. split; [done|]. destruct Hr as [?|(c & -> & Hm & Hst)]; [by left|right].
  exists c. split; [done|]. intros Hc.
  assert (E8 : m 8 = piece (ctrl_bytes m) 0) by (by rewrite (piece_ctrl_bytes n) by (done || lia)).
  unfold idle in Hi. rewrite E8, !get32_piece in Hi by lia.
  destruct Hi as [Hi|Hi]; [by rewrite Hm in Hi|by rewrite <- Hst in Hi].
Qed.

Lemma runs_recover_idle n m (J : medium -> Prop) (R : medium -> Prop) :
  40 <= n -> idle m -> (forall x, J x -> R x) ->
  runs n m J recover (fun b m' J' => b = false /\ m' = m /\ J' = J) R.
Proof.
  intros Hn Hi HR. apply runs_sized. intros Hs _. unfold recover.
  destruct (idle_parse n m) as (r & E & Hr); [done..|].
  apply runs_bind. eapply runs_read_ctrl; [done|done|intros _; exact E|].
  destruct Hr as [->|(c & -> & Hne)]; [by apply runs_ret|].
  apply Z.eqb_neq in Hne. rewrite Hne. by apply runs_ret.
Qed.

Lemma runs_recover_staged n m dirty txid (R : medium -> Prop) :
  dirty_ok n dirty -> is_u64 txid -> staged m dirty txid -> Proper (meq ==> impl) R ->
  (forall x, recovers_to n x (install m dirty) -> R x) ->
  runs n m (fun x => meq x m) recover
    (fun b m' J' => b = true /\ idle m' /\ home_eq m' (install m dirty) /\
       J' = (fun x => meq x m')) R.
Proof.
  intros Hd Ht Hst HRp HR. apply runs_sized. intros Hs Hn60.
  pose proof Hd as (Hn & Hcap & Hall). unfold recover.
  apply runs_bind. eapply runs_read_ctrl;
    [|slia|intros _; rewrite (proj1 Hst); apply parse_ctrl_image|].
  - intros x H. apply HR. right. exists dirty, txid. split_and!; [done..|by rewrite H|].
    apply meq_home. by rewrite H.
  - by rewrite length_fmap.
  - apply Forall_fmap. eapply Forall_impl; [exact Hall|].
    intros [t img] (_ & ? & ?). unfold is_u64; cbn. slia.
  - done.
  - done.
  - cbn [state entries]. rewrite Z.eqb_refl. cbn [negb].
    eapply runs_checkpoint; [done..| |].
    + unfold enumerate. rewrite length_fmap.
      apply (runs_redo n m dirty txid _ []); try done.
      intros x Hx. apply HR. by apply (installing_recovers n m dirty txid).
    + apply runs_ret. by split_and!; [|apply put_ctrl_idle|apply put_ctrl_home|].
Qed.

Lemma runs_recover n m h :
  8 * FIRST_DATA_PAGE <= n -> recovers_to n m h ->
  runs n m (fun x => meq x m) recover
    (fun _ m' J' => idle m' /\ home_eq m' h /\ J' = (fun x => meq x m'))
    (fun x => recovers_to n x h).
Proof.
  intros Hn Hrec.
  assert (HRp : Proper (meq ==> impl) (fun x => recovers_to n x h)).
  { intros x y H Hx. by rewrite <- H. }
  destruct Hrec as [[Hi He]|(dirty & txid & Hd & Ht & Hst & He)].
  - eapply runs_conseq; [apply (runs_recover_idle n m (fun x => meq x m)
      (fun x => recovers_to n x h)); [slia|done|]|done| |done].
    + intros x H. rewrite H. by left.
    + intros b m' J' (-> & -> & ->). exists m, (fun x => meq x m). by split_and!.
  - eapply runs_conseq; [apply (runs_recover_staged n m dirty txid (fun x => recovers_to n x h));
      [done..|]|done| |done].
    + intros x Hx. by rewrite <- He.
    + intros b m' J' (_ & ? & ? & ->). exists m', (fun x => meq x m').
      split_and!; [done..|by rewrite <- He|done].
Qed.

(** ** Commit *)

(** The disks reachable before the commit point. *)
Definition staging (m x : medium) : Prop := idle x /\ home_eq x m.

#[local] Instance staging_proper m : Proper (meq ==> impl) (staging m).
Proof.
  intros x y H [Hi He]. split; [by rewrite <- H|]. rewrite <- He. symmetry. by apply meq_home.
Qed.

(** A journal sector that leaves the control header alone, or clears it. *)
Lemma staging_upd m x l b : staging m x -> journal_lba l ->
  (l = 8 -> get32 b 8 <> STATE_COMMITTED) -> staging m (upd x l b).
Proof.
  intros [Hi He] Hl Hb. split.
  - unfold idle, upd. destruct (Z.eqb_spec 8 l) as [<-|]; [right; by apply Hb|done].
  - intros k Hk. unfold upd. destruct (Z.eqb_spec k l) as [->|]; [done|by apply He].
Qed.

(** Step 1: the images go to the journal. *)
Lemma runs_stage n m dirty (R : medium -> Prop) :
  dirty_ok n dirty -> idle m -> (forall x, staging m x -> R x) ->
  runs n m (staging m)
    (for_each (enumerate dirty) (fun '(i, (_, img)) =>
       write_page (JDATA_START_PAGE + Z.of_nat i) img))
    (fun _ m' J' => home_eq m' m /\ J' = staging m /\
       forall i t img, dirty !! i = Some (t, img) -> page_of m' (JDATA_START_PAGE + Z.of_nat i) = img) R.
Proof.
  intros (Hn & Hcap & Hd) Hi HR. rewrite Forall_lookup in Hd.
  assert (Hen : forall j p, enumerate dirty !! j = Some p -> p.1 = j /\ dirty !! j = Some p.2).
  { intros j [k e] Hj. unfold enumerate in Hj. apply lookup_zip_Some in Hj as [Hj He].
    apply lookup_seq in Hj as [-> _]. by split. }
  assert (Hlen : length (enumerate dirty) = length dirty).
  { unfold enumerate. rewrite length_zip, length_seq. lia. }
  eapply runs_conseq; [apply (runs_for_each n R (enumerate dirty) _
    (fun pre m' J' => home_eq m' m /\ J' = staging m /\
       forall i t img, (i < length pre)%nat -> dirty !! i = Some (t, img) ->
         page_of m' (JDATA_START_PAGE + Z.of_nat i) = img))|..].
  - intros pre [i [t img]] todo m' J' El (He & -> & Hp).
    destruct (Hen (length pre) (i, (t, img))) as [Ei Hl].
    { by rewrite El, list_lookup_middle. }
    cbn in Ei, Hl. subst i. destruct (Hd _ _ Hl) as (Himg & _).
    apply lookup_lt_Some in Hl as Hlt.
    apply runs_write_page; [apply _|done|slia|slia|done| |].
    + intros x k Hx Hk. apply staging_upd; [done|unfold journal_lba; slia|slia].
    + split_and!; [|done|].
      * intros l Hn'. rewrite put_page_out; [by apply He|]. unfold journal_lba in Hn'. slia.
      * intros j t' img' Hj Hj'. rewrite length_app in Hj. cbn in Hj.
        destruct (decide (j = length pre)) as [->|].
        -- rewrite Hl in Hj'. injection Hj' as <- <-. by apply page_of_put_page.
        -- rewrite <- (Hp j t' img') by (done || lia). apply page_of_ext.
           intros l Hl'. apply put_page_out. lia.
  - split_and!; [done|done|]. cbn. lia.
  - done.
  - intros [] m' J' (He & -> & Hp). exists m', (staging m). split_and!; try done.
    intros i t img Hl. apply (Hp i t img); [|done]. rewrite Hlen. by apply lookup_lt_Some in Hl.
  - done.
Qed.

Lemma runs_commit n m txid dirty :
  idle m -> dirty_ok n dirty -> is_u64 txid ->
  runs n m (fun x => meq x m) (commit txid dirty)
    (fun _ m' J' => idle m' /\ home_eq m' (install m dirty) /\ J' = (fun x => meq x m'))
    (fun x => recovers_to n x m \/ recovers_to n x (install m dirty)).
Proof.
  intros Hi Hd Ht. apply runs_sized. intros Hs Hn60. pose proof Hd as (Hn & Hcap & Hall).
  set (R x := recovers_to n x m \/ recovers_to n x (install m dirty)).
  assert (HRp : Proper (meq ==> impl) R).
  { intros x y H [Hx|Hx]; [left|right]; by rewrite <- H. }
  assert (HR1 : forall x, staging m x -> R x) by (intros x [? ?]; left; by left).
  assert (Hes : len dirty.*1 <= JCAP) by by rewrite length_fmap.
  unfold commit. rewrite (proj2 (Z.ltb_ge _ _)) by lia.
  apply runs_bind. eapply runs_weaken with (J2 := staging m).
  2:{ intros x H. split; [by rewrite H|by apply meq_home]. }
  eapply runs_conseq; [by apply (runs_stage n m dirty R)|done| |done].
  intros [] m0 J0 (He0 & -> & Hp0). exists m0, (staging m). split_and!; [done..|].
  set (bufE := ctrl_image dirty.*1 txid STATE_EMPTY).
  apply runs_bind. eapply runs_lift; [by apply render_ctrl_val|]. fold bufE.
  apply runs_bind, runs_write_ctrl; [apply _|done|slia|by apply ctrl_image_length| |].
  { intros x i Hx Hi'. apply staging_upd; [done|unfold journal_lba; slia|].
    intros E. replace i with 0 by lia. rewrite get32_piece by lia.
    unfold bufE. by rewrite (proj2 (get32_ctrl_image dirty.*1 txid STATE_EMPTY ltac:(done))). }
  set (m1 := put_pages m0 1 4 bufE).
  assert (He1 : home_eq m1 m) by (unfold m1; by rewrite put_ctrl_home).
  assert (Hi1 : idle m1) by apply put_ctrl_idle.
  apply runs_bind, runs_flush; [done|].
  eapply runs_flip_flush; [slia|done|done|apply ctrl_bytes_put; by apply ctrl_image_length| | |].
  { left. by left. }
  all: set (m2 := put_pages m1 1 4 _).
  all: assert (Hs2 : staged m2 dirty txid) by
    (split; [apply ctrl_bytes_put; by apply ctrl_image_length|];
     intros i t img Hl; rewrite <- (Hp0 i t img Hl); unfold m2, m1;
     by rewrite !put_ctrl_page by slia).
  all: assert (He2 : home_eq (install m2 dirty) (install m dirty)) by
    (intros l Hl; apply install_agree; intros _; unfold m2; rewrite (put_ctrl_home _ _ l Hl);
     by apply He1).
  - right. right. by exists dirty, txid.
  - eapply runs_checkpoint; [done..| | |].
    + intros x Hx. right. by rewrite <- He2.
    + apply runs_install; [done|]. intros x Hx. right. rewrite <- He2.
      by apply (installing_recovers n m2 dirty txid).
    + apply runs_ret. split_and!; [apply put_ctrl_idle| |done]. by rewrite put_ctrl_home.
Qed.

Lemma runs_init n m : 40 <= n ->
  runs n m (fun x => meq x m) init
    (fun _ m' J' => idle m' /\ home_eq m' m /\ J' = (fun x => meq x m'))
    (fun _ => True).
Proof.
  intros Hn. unfold init.
  apply runs_bind. eapply runs_lift; [by apply render_ctrl_val|].
  eapply runs_weaken with (J2 := fun _ => True); [|done].
  apply runs_bind, runs_write_ctrl; [by intros ??|done|done|by apply ctrl_image_length|done|].
  apply runs_flush; [done|]. split_and!; [apply put_ctrl_idle|apply put_ctrl_home|done].
Qed.

End Phases.
