(* ===== verification/Durability.v ===== *)
(** * Durability of transactions

    The guarantees of the journal, stated on whole runs of [Journal.commit]
    and [Journal.recover]: from a drive with a volatile write cache whose power
    may go at any operation, to the drive the next boot finds. *)

From S2P Require Import Prelude Types Block Journal JournalFacts JournalCrash.
Import Journal.

(** ** Running on a drive that loses power *)

(** A drive of [n] sectors holding [m], every write durable, with [life]
    operations before the power goes. *)
Definition drive (n : Z) (m : medium) (life : nat) : VolatileDisk.t :=
  VolatileDisk.mk n m [] life.

(** [y] is what [x] may become when recovery is attempted on it, loses
    power, and is attempted again, any number of times. *)
Inductive failed_recoveries (n : Z) : medium -> medium -> Prop :=
  | no_more x : failed_recoveries n x x
  | one_more x life d y z :
      recover (drive n x life) = (Fail Io, d) -> VolatileDisk.survives d y ->
      failed_recoveries n y z -> failed_recoveries n x z.

(** A disk the next boot finds: its sectors are whole. *)
Definition disk (n : Z) (m : medium) : Prop := 0 <= n < 2 ^ 60 /\ sized n m.

Lemma drive_ok n m life : disk n m -> VolatileDisk.ok (drive n m life).
Proof. intros [Hn Hs]. by split. Qed.

Lemma drive_images n m life x : VolatileDisk.survives (drive n m life) x -> meq x m.
Proof. intros H l. destruct (H l) as [?|(s & Hin & _)]; [done|by apply elem_of_nil in Hin]. Qed.

Lemma survives_sized d x : VolatileDisk.ok d -> VolatileDisk.survives d x ->
  sized (VolatileDisk.size d) x.
Proof.
  intros (_ & Hd & Hc) Hx l Hl. destruct (Hx l) as [->|(s & Hin & ->)]; [by apply Hd|].
  rewrite Forall_forall in Hc. by apply (Hc _ Hin).
Qed.

(** The device [d] of [n] sectors holds [m], all of it durable. *)
Definition intact {D} `{!BlockDevice D, !DeviceLaws D} (n : Z) (m : medium) (d : D) : Prop :=
  dev_ok d /\ sector_count d = n /\ meq (content d) m /\ forall x, images d x -> meq x m.

Lemma drive_intact n m life : disk n m -> intact n m (drive n m life).
Proof. intros Hd. split_and!; [by apply drive_ok|done|by intros l|apply drive_images]. Qed.

Lemma intact_disk {D} `{!BlockDevice D, !DeviceLaws D} n m (d : D) : intact n m d -> disk n m.
Proof.
  intros (Hok & <- & Hm & _). split; [by apply law_count|].
  intros l Hl. rewrite <- (Hm l). by apply law_content.
Qed.

(** A run from a drive, read off [runs]. *)
Lemma run_drive {A} n m d0 (c : stM VolatileDisk.t StoreError A) Q R :
  intact n m d0 -> runs n m (fun x => meq x m) c Q R ->
  (exists a d m' J', c d0 = (Val a, d) /\
     (forall x, VolatileDisk.survives d x -> J' x /\ disk n x) /\ Q a m' J') \/
  (exists d, c d0 = (Fail Io, d) /\
     forall x, VolatileDisk.survives d x -> R x /\ disk n x).
Proof.
  intros Hd H. pose proof (intact_disk n m d0 Hd) as Hdisk. destruct Hd as (Hok0 & Hn0 & Hm0 & Hi0).
  destruct (H d0 Hok0 Hn0 Hm0 Hi0)
    as [(a & d & m' & J' & E & Hok & Hn & _ & Hi & HQ)|(_ & d & E & Hok & Hn & HR)].
  - left. exists a, d, m', J'. split_and!; [done| |done].
    intros x Hx. split; [by apply Hi|]. split; [apply Hdisk|]. rewrite <- Hn. by apply survives_sized.
  - right. exists d. split; [done|].
    intros x Hx. split; [by apply HR|]. split; [apply Hdisk|]. rewrite <- Hn. by apply survives_sized.
Qed.

(** Failed recoveries lose nothing. *)
Lemma failed_recoveries_recovers n x y h :
  8 * FIRST_DATA_PAGE <= n -> failed_recoveries n x y -> disk n x -> recovers_to n x h ->
  recovers_to n y h /\ disk n y.
Proof.
  intros Hn H. induction H as [x|x life d y z E Hy _ IH]; intros Hd Hr; [done|].
  destruct (run_drive n x _ _ _ _ (drive_intact n x life Hd) (runs_recover n x h Hn Hr))
    as [(? & ? & ? & ? & E' & _)|(d' & E' & HR)]; rewrite E in E'; [done|].
  injection E' as <-. destruct (HR y Hy) as [? ?]. by apply IH.
Qed.

(** ** Running on a device that stays powered *)

Section Powered.
Context {D : Type} `{!BlockDevice D, !DeviceLaws D}.

(** The same of a device that does not lose power. *)
Definition powered_on (n : Z) (m : medium) (d : D) : Prop :=
  ~ may_lose (D:=D) /\ intact n m d.

Lemma run_powered {A} (c : stM D StoreError A) n m d Q R :
  powered_on n m d -> runs n m (fun x => meq x m) c Q R ->
  exists a d' m' J', c d = (Val a, d') /\ dev_ok d' /\ sector_count d' = n /\
    meq (content d') m' /\ (forall x, images d' x -> J' x) /\ Q a m' J'.
Proof.
  intros (Hl & Hok & Hn & Hm & Hi) H.
  destruct (H d Hok Hn Hm Hi) as [(a & d' & m' & J' & E & Hok' & Hn' & Hm' & Hi' & HQ)|[? _]];
    [|done].
  exists a, d', m', J'. by split_and!.
Qed.

Lemma powered_recover n x h d : 8 * FIRST_DATA_PAGE <= n ->
  powered_on n x d -> recovers_to n x h ->
  exists b d' m', recover d = (Val b, d') /\ powered_on n m' d' /\ idle m' /\ home_eq m' h.
Proof.
  intros Hn Hd Hr.
  destruct (run_powered _ _ _ _ _ _ Hd (runs_recover n x h Hn Hr))
    as (b & d' & m' & J' & E & Hok & Hn' & Hm & Hi & Hidle & He & ->).
  exists b, d', m'. split_and!; [done| |done..]. split; [apply Hd|by split_and!].
Qed.

End Powered.

(** A blank drive with its power on. *)
Definition blank (n : Z) : MemBlockDevice.t :=
  MemBlockDevice.mk (zeros (n * SECTOR)) n true 0 None.

Lemma blank_powered n : 0 <= n < 2 ^ 50 ->
  powered_on n (MemBlockDevice.sector_at (blank n)) (blank n).
Proof.
  intros Hn. split; [by intros ?|split; [|done]].
  unfold blank. split_and!; cbn; try done; try lia; rewrite zeros_length by (unfold SECTOR; lia);
    unfold SECTOR; lia.
Qed.

Lemma blank_disk n : 0 <= n < 2 ^ 50 -> disk n (MemBlockDevice.sector_at (blank n)).
Proof.
  intros Hn. split; [lia|]. intros l Hl. apply MemBlockDevice.sector_at_length; [|done].
  cbn. rewrite zeros_length by (unfold SECTOR; lia). lia.
Qed.

Lemma blank_idle n : 16 <= n -> idle (MemBlockDevice.sector_at (blank n)).
Proof.
  intros Hn. left. unfold MemBlockDevice.sector_at, get32. cbn [MemBlockDevice.sectors blank].
  tests. cbn [MemBlockDevice.data blank]. unfold zeros, SECTOR.
  rewrite drop_replicate, take_replicate, drop_0, take_replicate.
  rewrite !Nat.min_l by lia. done.
Qed.

(** ** The guarantees *)

Lemma crash_atomic {D} `{!BlockDevice D, !DeviceLaws D}
    n m txid dirty d0 r d x y (d2 : D) :
  intact n m d0 -> idle m -> dirty_ok n dirty -> is_u64 txid ->
  commit txid dirty d0 = (r, d) ->
  VolatileDisk.survives d x -> failed_recoveries n x y -> powered_on n y d2 ->
  (r = Val tt \/ r = Fail Io) /\
  exists b d3 m', recover d2 = (Val b, d3) /\ powered_on n m' d3 /\ idle m' /\
    (home_eq m' m \/ home_eq m' (install m dirty)) /\
    (r = Val tt -> home_eq m' (install m dirty)).
Proof.
  intros Hdisk Hi Hd Ht E Hx Hy H2. pose proof (proj1 Hd) as Hn.
  destruct (run_drive n m d0 _ _ _ Hdisk (runs_commit n m txid dirty Hi Hd Ht))
    as [([] & d' & m' & J' & E' & HJ & Hi' & He & ->)|(d' & E' & HR)];
    rewrite E in E'; injection E' as -> <-; (split; [by auto|]);
    destruct (HJ x Hx) as [HxJ Hxd] || destruct (HR x Hx) as [[HxR|HxR] Hxd].
  - destruct (failed_recoveries_recovers n x y (install m dirty)) as [Hyr _]; [done..| |].
    { left. split; [by rewrite HxJ|]. rewrite (meq_home _ _ HxJ). done. }
    destruct (powered_recover n y _ d2 Hn H2 Hyr) as (b & d3 & m3 & ? & ? & ? & ?).
    exists b, d3, m3. split_and!; auto.
  - destruct (failed_recoveries_recovers n x y m) as [Hyr _]; [done..|].
    destruct (powered_recover n y _ d2 Hn H2 Hyr) as (b & d3 & m3 & ? & ? & ? & ?).
    exists b, d3, m3. by split_and!; auto.
  - destruct (failed_recoveries_recovers n x y (install m dirty)) as [Hyr _]; [done..|].
    destruct (powered_recover n y _ d2 Hn H2 Hyr) as (b & d3 & m3 & ? & ? & ? & ?).
    exists b, d3, m3. split_and!; auto.
Qed.

(** C2: a transaction is atomic whenever the power goes.  [commit] runs on a
    drive with a volatile write cache that loses power after [life]
    operations; the medium keeps any mix [x] of durable sectors and cached
    writes; recovery is attempted any number of times, losing power again;
    then the next boot's recovery ends on a disk whose pages outside the
    journal are all old or all new, and all new if [commit] had returned
    [Ok].  [commit] itself never aborts. *)
Theorem commit_crash_atomic {D} `{!BlockDevice D, !DeviceLaws D}
    n m txid dirty life r d x y (d2 : D) :
  disk n m -> idle m -> dirty_ok n dirty -> is_u64 txid ->
  commit txid dirty (drive n m life) = (r, d) ->
  VolatileDisk.survives d x -> failed_recoveries n x y -> powered_on n y d2 ->
  (r = Val tt \/ r = Fail Io) /\
  exists b d3 m', recover d2 = (Val b, d3) /\ powered_on n m' d3 /\ idle m' /\
    (home_eq m' m \/ home_eq m' (install m dirty)) /\
    (r = Val tt -> home_eq m' (install m dirty)).
Proof. intros Hd. by apply crash_atomic, drive_intact. Qed.

(** A page of one byte. *)
Definition filled (b : Z) : bytes := replicate (Z.to_nat PAGE) b.
Lemma filled_length b : len (filled b) = PAGE.
Proof. unfold filled. by rewrite length_replicate. Qed.

(** Two page images for the witnesses: the superblock page and a data page. *)
Definition sample : list (Z * bytes) :=
  [(0, filled 1); (2050, filled 2)].
Definition sample_n : Z := 8 * 2060.

Lemma sample_ok : dirty_ok sample_n sample.
Proof.
  split; [by unfold sample_n; slia|split; [done|]].
  repeat constructor; unfold sample_n; rewrite ?filled_length; slia.
Qed.

Lemma commit_crash_atomic_witness :
  let m := MemBlockDevice.sector_at (blank sample_n) in
  let r := commit 7 sample (drive sample_n m 5) in
  r.1 = Fail Io /\ exists b d3 m', recover (blank sample_n) = (Val b, d3) /\
    powered_on sample_n m' d3 /\ idle m' /\
    (home_eq m' m \/ home_eq m' (install m sample)) /\
    (r.1 = Val tt -> home_eq m' (install m sample)).
Proof.
  intros m r.
  assert (Hd : disk sample_n m) by by apply blank_disk.
  assert (Hi : idle m) by by apply blank_idle.
  assert (Hp : powered_on sample_n m (blank sample_n)) by by apply blank_powered.
  assert (Ht : is_u64 7) by done.
  split; [reflexivity|]. destruct r as [o d] eqn:E. cbn [fst].
  assert (Ed : VolatileDisk.durable d = m).
  { change (VolatileDisk.durable (o, d).2 = m). rewrite <- E. reflexivity. }
  refine (proj2 (commit_crash_atomic (D:=MemBlockDevice.t) sample_n m 7 sample 5 o d m m
    (blank sample_n) Hd Hi sample_ok Ht E _ (no_more _ m) Hp)).
  intros l. left. exact (f_equal (fun f => f l) (eq_sym Ed)).
Defined.

(** ** Without a power loss *)

Lemma page_of_install m dirty t img :
  NoDup dirty.*1 -> (t, img) ∈ dirty -> len img = PAGE -> page_of (install m dirty) t = img.
Proof.
  revert m. induction dirty as [|[t' img'] r IH]; intros m Hnd Hin Himg.
  - by apply elem_of_nil in Hin.
  - cbn in *. apply NoDup_cons in Hnd as [Ht Hnd]. apply elem_of_cons in Hin as [[= -> ->]|Hin].
    + transitivity (page_of (put_page m t' img') t'); [|by apply page_of_put_page].
      apply page_of_ext. intros l Hl. apply install_other. intros (u & i & Hu & Hul). apply Ht.
      replace t' with u by lia. apply list_elem_of_fmap. by exists (u, i).
    + by apply IH.
Qed.

Lemma powered_commit {D} `{!BlockDevice D, !DeviceLaws D} n m txid dirty (d : D) :
  powered_on n m d -> idle m -> dirty_ok n dirty -> is_u64 txid -> NoDup dirty.*1 ->
  exists d' m', commit txid dirty d = (Val tt, d') /\ powered_on n m' d' /\ idle m' /\
    (forall t img, (t, img) ∈ dirty -> page_of m' t = img) /\
    (forall p, (p = 0 \/ FIRST_DATA_PAGE <= p) -> p ∉ dirty.*1 -> page_of m' p = page_of m p).
Proof.
  intros Hp Hi Hd Ht Hnd.
  destruct (run_powered _ _ _ _ _ _ Hp (runs_commit n m txid dirty Hi Hd Ht))
    as ([] & d' & m' & J' & E & Hok & Hn & Hm & HJ & Hi' & He & ->).
  destruct Hd as (Hn' & _ & Hall). rewrite Forall_forall in Hall.
  assert (Hpage : forall p, (p = 0 \/ FIRST_DATA_PAGE <= p) ->
    page_of m' p = page_of (install m dirty) p).
  { intros p Hp'. apply page_of_ext. intros l Hl. apply He. unfold journal_lba. slia. }
  exists d', m'. split_and!; [done| |done| |].
  - split; [apply Hp|by split_and!].
  - intros t img Hin. destruct (Hall _ Hin) as (Himg & _ & Hh).
    rewrite Hpage by done. by apply page_of_install.
  - intros p Hp' Hnot. rewrite Hpage by done. apply page_of_ext. intros l Hl.
    apply install_other. intros (u & i & Hu & Hul). apply Hnot.
    replace p with u by lia. apply list_elem_of_fmap. by exists (u, i).
Qed.

(** On a device that stays powered [commit] succeeds; every page of the
    transaction then reads back as its image, every page outside the
    transaction and the journal is unchanged, and the journal is released. *)
Theorem commit_installs {D} `{!BlockDevice D, !DeviceLaws D} n m txid dirty (d : D) :
  powered_on n m d -> idle m -> dirty_ok n dirty -> is_u64 txid -> NoDup dirty.*1 ->
  exists d' m', commit txid dirty d = (Val tt, d') /\ powered_on n m' d' /\ idle m' /\
    (forall t img, (t, img) ∈ dirty -> page_of m' t = img) /\
    (forall p, (p = 0 \/ FIRST_DATA_PAGE <= p) -> p ∉ dirty.*1 -> page_of m' p = page_of m p).
Proof. apply powered_commit. Qed.

Lemma commit_installs_witness :
  exists d' m', commit 7 sample (blank sample_n) = (Val tt, d') /\
    page_of m' 2050 = filled 2 /\
    page_of m' 2051 = page_of (MemBlockDevice.sector_at (blank sample_n)) 2051.
Proof.
  destruct (commit_installs sample_n _ 7 sample (blank sample_n)
    (blank_powered sample_n ltac:(done)) (blank_idle sample_n ltac:(done)) sample_ok ltac:(done))
    as (d' & m' & E & _ & _ & Hin & Hout).
  { cbn. apply NoDup_cons. split; [|apply NoDup_singleton].
    by intros [= ]%list_elem_of_singleton. }
  exists d', m'. split; [exact E|split].
  - apply Hin. right. left.
  - apply Hout; [right; discriminate|].
    cbn. intros [[= ]|[[= ]|[]%elem_of_nil]%elem_of_cons]%elem_of_cons.
Defined.

(** C21: recovery redoes a committed transaction, once.  If the journal of a
    disk holds a committed transaction, [recover] answers [true] and takes its
    pages home; run again it answers [false] and changes nothing. *)
Theorem recover_redoes_once {D} `{!BlockDevice D, !DeviceLaws D} n m dirty txid (d : D) :
  powered_on n m d -> dirty_ok n dirty -> is_u64 txid -> staged m dirty txid ->
  exists d1 m1, recover d = (Val true, d1) /\ home_eq m1 (install m dirty) /\
  exists d2, recover d1 = (Val false, d2) /\ powered_on n m1 d2.
Proof.
  intros Hp Hd Ht Hs.
  destruct (run_powered _ _ _ _ _ _ Hp (runs_recover_staged n m dirty txid (fun _ => True)
    Hd Ht Hs ltac:(by intros ??) ltac:(done)))
    as (b & d1 & m1 & J1 & E & Hok & Hn & Hm & HJ & -> & Hi & He & ->).
  assert (Hp1 : powered_on n m1 d1) by (split; [apply Hp|by split_and!]).
  exists d1, m1. split_and!; [done..|].
  destruct Hd as [Hn' _].
  destruct (run_powered _ _ _ _ _ _ Hp1 (runs_recover_idle n m1 (fun x => meq x m1) (fun _ => True)
    ltac:(slia) Hi ltac:(done)))
    as (b & d2 & m2 & J2 & E2 & Hok2 & Hn2 & Hm2 & HJ2 & -> & -> & ->).
  exists d2. split; [done|]. split; [apply Hp|by split_and!].
Qed.

(** A disk with the sample transaction committed in its journal. *)
Definition committed_disk (m : medium) : medium :=
  put_pages (put_pages (put_pages m 5 1 (filled 1))
    6 1 (filled 2)) 1 4 (ctrl_image sample.*1 7 STATE_COMMITTED).

Lemma committed_disk_staged m : staged (committed_disk m) sample 7.
Proof.
  split; [by apply ctrl_bytes_put, ctrl_image_length|].
  intros i t img Hi. unfold committed_disk.
  rewrite put_ctrl_page by (unfold JDATA_START_PAGE, JCTRL_PAGES; lia).
  destruct i as [|[|i]]; [injection Hi as <- <-|injection Hi as <- <-|done].
  - change (JDATA_START_PAGE + Z.of_nat 0) with 5.
    etransitivity; [|apply (page_of_put_page m), filled_length].
    apply page_of_ext. intros l Hl. rewrite put_page_out; [done|lia].
  - change (JDATA_START_PAGE + Z.of_nat 1) with 6. apply page_of_put_page.
    apply filled_length.
Qed.

Lemma put_pages_sized n m p k b : sized n m -> len b = k * PAGE ->
  sized n (put_pages m p k b).
Proof.
  intros Hs Hb l Hl. unfold put_pages.
  destruct ((8 * p <=? l) && (l <? 8 * (p + k))) eqn:E; [|by apply Hs]. bools.
  apply piece_length; slia.
Qed.

Lemma steady_powered n m : disk n m -> powered_on n m (SteadyDisk.mk n m).
Proof. intros Hd. split; [by intros ?|]. by split_and!. Qed.

Lemma recover_redoes_once_witness :
  let m := committed_disk (fun _ => zeros SECTOR) in
  exists d1 m1, recover (SteadyDisk.mk sample_n m) = (Val true, d1) /\
    home_eq m1 (install m sample) /\
    exists d2, recover d1 = (Val false, d2) /\ powered_on sample_n m1 d2.
Proof.
  intros m. apply (recover_redoes_once sample_n m sample 7 (SteadyDisk.mk sample_n m)).
  - apply steady_powered. split; [done|].
    do 3 (apply put_pages_sized; [|first [by rewrite filled_length | by apply ctrl_image_length]]).
    by intros l _.
  - apply sample_ok.
  - done.
  - apply committed_disk_staged.
Defined.

(** [init] leaves an idle journal and touches nothing else. *)
Theorem init_idle {D} `{!BlockDevice D, !DeviceLaws D} n m (d : D) :
  powered_on n m d -> 40 <= n ->
  exists d' m', init d = (Val tt, d') /\ powered_on n m' d' /\ idle m' /\ home_eq m' m.
Proof.
  intros Hp Hn.
  destruct (run_powered _ _ _ _ _ _ Hp (runs_init n m Hn))
    as ([] & d' & m' & J' & E & Hok & Hn' & Hm & HJ & Hi & He & ->).
  exists d', m'. split_and!; [done| |done..]. split; [apply Hp|by split_and!].
Qed.

Lemma init_idle_witness :
  exists d' m', init (blank sample_n) = (Val tt, d') /\ powered_on sample_n m' d' /\
    idle m' /\ home_eq m' (MemBlockDevice.sector_at (blank sample_n)).
Proof. apply (init_idle sample_n _ (blank sample_n)); [by apply blank_powered|done]. Defined.

Lemma powered_recover_idle {D} `{!BlockDevice D, !DeviceLaws D} n m (d : D) :
  powered_on n m d -> 40 <= n -> idle m ->
  exists d', recover d = (Val false, d') /\ powered_on n m d'.
Proof.
  intros Hp Hn Hi.
  destruct (run_powered _ _ _ _ _ _ Hp (runs_recover_idle n m (fun x => meq x m) (fun _ => True)
    Hn Hi ltac:(done)))
    as (b & d' & m' & J' & E & Hok & Hn' & Hm & HJ & -> & -> & ->).
  exists d'. split; [done|]. split; [apply Hp|by split_and!].
Qed.

(** Recovery never aborts and never fails on a readable disk whose
    journal is idle, whatever else the control pages hold; it changes
    nothing. *)
Theorem recover_idle {D} `{!BlockDevice D, !DeviceLaws D} n m (d : D) :
  powered_on n m d -> 40 <= n -> idle m ->
  exists d', recover d = (Val false, d') /\ powered_on n m d'.
Proof. apply powered_recover_idle. Qed.

Lemma recover_idle_witness :
  exists d', recover (blank sample_n) = (Val false, d') /\
    powered_on sample_n (MemBlockDevice.sector_at (blank sample_n)) d'.
Proof.
  apply (recover_idle sample_n _ (blank sample_n));
    [by apply blank_powered|done|by apply blank_idle].
Defined.
