(* ===== verification/Pager.v ===== *)
(** * The pager

    [tablestore/src/pager.rs]: the superblock, the free list and the write
    buffer of the transaction in flight, over the journal.  A [BTreeMap] is a
    [gmap] read in key order. *)

From stdpp Require Import gmap sorting.
From S2P Require Import Prelude Types Block Journal.

Definition SB_MAGIC : Z := 0x534c4254.
Definition SB_VERSION : Z := 1.

Definition zeroed_page : bytes := Journal.zeros Journal.PAGE.

(** ** The superblock *)

Module Superblock.

Record t := mk {
  total_pages : Z; hwm : Z; free_head : Z; catalog_head : Z; generation : Z
}.

#[global] Instance t_eq_dec : EqDecision t.
Proof. solve_decision. Defined.

(** Bytes 16 to 56: what the checksum covers. *)
Definition fields (sb : t) : bytes :=
  le_bytes 8 (total_pages sb) ++ le_bytes 8 (hwm sb) ++ le_bytes 8 (free_head sb) ++
  le_bytes 8 (catalog_head sb) ++ le_bytes 8 (generation sb).

Definition encode (sb : t) : bytes :=
  le_bytes 4 SB_MAGIC ++ le_bytes 4 SB_VERSION ++ le_bytes 4 (as_u32 Journal.PAGE) ++
  le_bytes 4 (Journal.crc32 (fields sb)) ++ fields sb ++ Journal.zeros (Journal.PAGE - 56).

Definition decode (p : bytes) : Result t :=
  magic ← Journal.get_u32 p 0;
  if negb (magic =? SB_MAGIC) then Fail (Corrupt (str "not a TablesOS volume")) else
  crc ← Journal.get_u32 p 12;
  covered ← slice p 16 56;
  if negb (Journal.crc32 covered =? crc) then Fail (Corrupt (str "superblock checksum")) else
  total_pages ← Journal.get_u64 p 16;
  hwm ← Journal.get_u64 p 24;
  free_head ← Journal.get_u64 p 32;
  catalog_head ← Journal.get_u64 p 40;
  generation ← Journal.get_u64 p 48;
  mret (mk total_pages hwm free_head catalog_head generation).

Definition set_free_head (h : Z) (sb : t) : t :=
  mk (total_pages sb) (hwm sb) h (catalog_head sb) (generation sb).
Definition set_hwm (h : Z) (sb : t) : t :=
  mk (total_pages sb) h (free_head sb) (catalog_head sb) (generation sb).
Definition set_generation (g : Z) (sb : t) : t :=
  mk (total_pages sb) (hwm sb) (free_head sb) (catalog_head sb) g.
Definition set_catalog_head (h : Z) (sb : t) : t :=
  mk (total_pages sb) (hwm sb) (free_head sb) h (generation sb).

End Superblock.

(** ** The pager *)

Definition CACHE_MAX : Z := 8192.

(** The entries of a [BTreeMap], by increasing key. *)
Definition key_le {A} (p q : Z * A) : Prop := p.1 <= q.1.
#[global] Instance key_le_dec {A} : RelDecision (key_le (A:=A)).
Proof. intros p q. unfold key_le. apply _. Defined.
Definition btree_iter {A} (m : gmap Z A) : list (Z * A) := merge_sort key_le (map_to_list m).

Module Pager.
Section Pager.
Context {D : Type} `{!BlockDevice D}.

Record t := mk {
  dev : D; sb : Superblock.t; dirty : gmap Z bytes; cache : gmap Z bytes
}.

Abbreviation M := (stM t StoreError) (only parsing).

Definition set_sb (f : Superblock.t -> Superblock.t) : M unit :=
  modify (fun p => mk (dev p) (f (sb p)) (dirty p) (cache p)).
Definition set_dirty (f : gmap Z bytes -> gmap Z bytes) : M unit :=
  modify (fun p => mk (dev p) (sb p) (f (dirty p)) (cache p)).

(** A call on [&mut self.dev]. *)
Definition on_dev {A} (m : stM D StoreError A) : M A := fun p =>
  let '(r, d) := m (dev p) in (r, mk d (sb p) (dirty p) (cache p)).

(** Drop the cache when it is full, then insert. *)
Definition cache_insert (page : Z) (img : bytes) : M unit :=
  modify (fun p =>
    let c := if CACHE_MAX <=? Z.of_nat (size (cache p)) then ∅ else cache p in
    mk (dev p) (sb p) (dirty p) (<[page := img]> c)).

(** [Pager::format] and [Pager::mount] take the device and drop it on an
    error. *)
Definition format_dev : stM D StoreError Superblock.t :=
  n ← gets sector_count;
  let total_pages := n / Journal.PAGE_SECTORS in
  if total_pages <=? Journal.FIRST_DATA_PAGE + 1 then lift (Fail OutOfSpace) else
  _ ← Journal.init;
  let sb := Superblock.mk total_pages Journal.FIRST_DATA_PAGE 0 0 1 in
  _ ← Journal.write_page 0 (Superblock.encode sb);
  _ ← flush;
  mret sb.

Definition mount_dev : stM D StoreError Superblock.t :=
  _ ← Journal.recover;
  p ← Journal.read_page 0 zeroed_page;
  lift (Superblock.decode p).

Definition open_with (m : stM D StoreError Superblock.t) (d : D) : Result t :=
  let '(r, d') := m d in sb ← r; mret (mk d' sb ∅ ∅).

Definition format : D -> Result t := open_with format_dev.
Definition mount : D -> Result t := open_with mount_dev.

Definition read_page (page : Z) : M bytes := fun p =>
  match dirty p !! page with
  | Some img => (Val img, p)
  | None =>
      match cache p !! page with
      | Some img => (Val img, p)
      | None =>
          if Superblock.total_pages (sb p) <=? page
          then (Fail (Corrupt (str "page out of range")), p)
          else (buf ← on_dev (Journal.read_page page zeroed_page);
                _ ← cache_insert page buf;
                mret buf) p
      end
  end.

Definition write_page (page : Z) (data : bytes) : M unit :=
  _ ← lift (assert (len data =? Journal.PAGE));
  set_dirty (<[page := data]>).

(** [u64::from_le_bytes(img[0..8])] *)
Definition next_of (img : bytes) : Result Z := Journal.get_u64 img 0.

Definition alloc_page : M Z :=
  s ← gets sb;
  page ← (if negb (Superblock.free_head s =? 0) then
            let p := Superblock.free_head s in
            img ← read_page p;
            next ← lift (next_of img);
            _ ← set_sb (Superblock.set_free_head next);
            mret p
          else if Superblock.hwm s <? Superblock.total_pages s then
            h ← lift (add_u64 (Superblock.hwm s) 1);
            _ ← set_sb (Superblock.set_hwm h);
            mret (Superblock.hwm s)
          else lift (Fail OutOfSpace));
  _ ← write_page page zeroed_page;
  mret page.

Definition free_page (page : Z) : M unit :=
  s ← gets sb;
  img ← lift (Journal.put_u64 zeroed_page 0 (Superblock.free_head s));
  _ ← write_page page img;
  set_sb (Superblock.set_free_head page).

(** The write set: the superblock, then the staged pages in order. *)
Definition batch (s : Superblock.t) (pages : list (Z * bytes)) : Result (list (Z * bytes)) :=
  _ ← assert (forallb (fun q : Z * bytes => negb (q.1 =? 0)) pages);
  mret ((0, Superblock.encode s) :: pages).

Definition commit : M unit := fun p =>
  if bool_decide (dirty p = ∅) then (Val tt, p) else
  (txid ← lift (add_u64 (Superblock.generation (sb p)) 1);
   let s := Superblock.set_generation txid (sb p) in
   b ← lift (batch s (btree_iter (dirty p)));
   _ ← on_dev (Journal.commit txid b);
   _ ← set_sb (fun _ => s);
   _ ← for_each (btree_iter (dirty p)) (fun '(q, img) => cache_insert q img);
   set_dirty (fun _ => ∅)) p.

Definition rollback : M unit :=
  _ ← set_dirty (fun _ => ∅);
  p ← on_dev (Journal.read_page 0 zeroed_page);
  s ← lift (Superblock.decode p);
  set_sb (fun _ => s).

End Pager.
Arguments t : clear implicits.
End Pager.
