(* ===== verification/PagerFacts.v ===== *)
(** * What the pager does to its volume

    The superblock's encoding, the order of the write set, and an abstraction
    of the pager: the superblock and the page contents a transaction sees,
    over the committed content of the disk. *)

From stdpp Require Import gmap sorting.
From S2P Require Import Prelude Types Block Journal JournalFacts JournalCrash Durability Pager.
Import Journal.

(** ** The entries of a [BTreeMap] *)

#[global] Instance key_le_total {A} : Total (key_le (A:=A)).
Proof. intros p q. unfold key_le. lia. Qed.
#[global] Instance key_le_trans {A} : Transitive (key_le (A:=A)).
Proof. intros p q r. unfold key_le. lia. Qed.

Lemma btree_iter_perm {A} (m : gmap Z A) : btree_iter m ≡ₚ map_to_list m.
Proof. apply merge_sort_Permutation. Qed.

Lemma btree_iter_elem {A} (m : gmap Z A) q a : (q, a) ∈ btree_iter m <-> m !! q = Some a.
Proof. rewrite btree_iter_perm. apply elem_of_map_to_list. Qed.

Lemma btree_iter_nodup {A} (m : gmap Z A) : NoDup (btree_iter m).*1.
Proof. rewrite btree_iter_perm. apply NoDup_fst_map_to_list. Qed.

Lemma btree_iter_sorted {A} (m : gmap Z A) : StronglySorted key_le (btree_iter m).
Proof. apply StronglySorted_merge_sort; apply _. Qed.

Lemma btree_iter_length {A} (m : gmap Z A) : length (btree_iter m) = size m.
Proof. rewrite btree_iter_perm. by rewrite length_map_to_list. Qed.

(** ** The superblock *)

Module SuperblockFacts.
Import Superblock.

Definition wf (s : t) : Prop :=
  is_u64 (total_pages s) /\ is_u64 (hwm s) /\ is_u64 (free_head s) /\
  is_u64 (catalog_head s) /\ is_u64 (generation s).

Lemma fields_bytes s : is_bytes (fields s).
Proof. unfold fields. rewrite !Forall_app. split_and!; apply le_bytes_is_bytes. Qed.

Lemma encode_length s : len (encode s) = PAGE.
Proof.
  unfold encode, fields. rewrite !length_app, !le_bytes_length, !Nat2Z.inj_add.
  rewrite zeros_length by slia. slia.
Qed.

Lemma decode_encode s : wf s -> decode (encode s) = Val s.
Proof.
  intros (H1 & H2 & H3 & H4 & H5). unfold decode, encode.
  set (z := zeros (PAGE - 56)).
  set (hd := le_bytes 4 SB_MAGIC ++ le_bytes 4 SB_VERSION ++ le_bytes 4 (as_u32 PAGE)).
  set (c := crc32 (fields s)).
  assert (Hc : 0 <= c < 2 ^ 32) by apply crc32_bound, fields_bytes.
  pose proof (get_u32_at [] SB_MAGIC) as H0. cbn [app] in H0. rewrite (H0 _ 0) by done.
  cbn [mbind outcome_bind]. rewrite Z.eqb_refl. cbn [negb].
  rewrite (app_assoc (le_bytes 4 SB_VERSION)), (app_assoc (le_bytes 4 SB_MAGIC)). fold hd.
  change (le_bytes 4 SB_MAGIC ++ _) with hd.
  rewrite (get_u32_at hd) by done. cbn [mbind outcome_bind].
  rewrite (app_assoc hd), (slice_app (hd ++ le_bytes 4 c)) by done. cbn [mbind outcome_bind].
  fold c. rewrite Z.eqb_refl. cbn [negb].
  unfold fields. rewrite <- !app_assoc, (app_assoc hd).
  set (h1 := hd ++ le_bytes 4 c).
  rewrite (get_u64_at h1 _ _ 16) by done. cbn [mbind outcome_bind].
  rewrite (app_assoc h1), (get_u64_at (h1 ++ _) _ _ 24) by done. cbn [mbind outcome_bind].
  rewrite (app_assoc (h1 ++ _)), (get_u64_at ((h1 ++ _) ++ _) _ _ 32) by done. cbn [mbind outcome_bind].
  rewrite (app_assoc ((h1 ++ _) ++ _)), (get_u64_at (((h1 ++ _) ++ _) ++ _) _ _ 40) by done. cbn [mbind outcome_bind].
  rewrite (app_assoc (((h1 ++ _) ++ _) ++ _)), (get_u64_at ((((h1 ++ _) ++ _) ++ _) ++ _) _ _ 48) by done. cbn [mbind outcome_bind].
  by destruct s.
Qed.

Lemma decode_total p : len p = PAGE -> no_abort (decode p).
Proof.
  intros Hp. unfold decode.
  assert (H32 : forall o, 0 <= o <= 4000 -> no_abort (get_u32 p o)).
  { intros o Ho. rewrite get_u32_in by slia. by split. }
  assert (H64 : forall o, 0 <= o <= 4000 -> no_abort (get_u64 p o)).
  { intros o Ho. destruct (get_u64_in p o) as [v ->]; [slia..|]. by split. }
  assert (Hs : no_abort (slice (E:=StoreError) p 16 56)).
  { rewrite slice_in by slia. by split. }
  repeat (no_abort; first [apply H32; lia | apply H64; lia | exact Hs | idtac]).
Qed.

End SuperblockFacts.

(** ** The volume and the transaction's view of it *)

(** Pages outside the superblock and the journal, on [n] sectors. *)
Definition home_page (n q : Z) : Prop := FIRST_DATA_PAGE <= q < n / 8.

(** A formatted volume on [n] sectors with the superblock [s]. *)
Record volume (n : Z) (m : medium) (s : Superblock.t) : Prop := {
  vol_disk : disk n m;
  vol_idle : idle m;
  vol_room : FIRST_DATA_PAGE + 1 < n / 8;
  vol_sb : page_of m 0 = Superblock.encode s;
  vol_wf : SuperblockFacts.wf s;
  vol_total : Superblock.total_pages s = n / 8
}.

(** What a transaction sees: the superblock and the data pages; and the pages
    it has staged. *)
Record view := mk_view { v_sb : Superblock.t; v_page : Z -> bytes; v_staged : gset Z }.

(** Nothing staged. *)
Definition at_rest (s : Superblock.t) (pages : Z -> bytes) : view := mk_view s pages ∅.

Definition view_upd (v : view) (q : Z) (img : bytes) : view :=
  mk_view (v_sb v) (fun p => if p =? q then img else v_page v p) ({[q]} ∪ v_staged v).
Definition view_sb (f : Superblock.t -> Superblock.t) (v : view) : view :=
  mk_view (f (v_sb v)) (v_page v) (v_staged v).

Section View.
Context {D : Type} `{!BlockDevice D, !DeviceLaws D}.
Implicit Types P : Pager.t D.

Definition sees (m : medium) P (q : Z) : bytes := default (page_of m q) (Pager.dirty P !! q).

(** The pager [P] runs a transaction that sees [v] over the committed content
    [m]: the cache mirrors the disk, the dirty pages are data pages. *)
Record in_tx (n : Z) (m : medium) P (v : view) : Prop := {
  tx_dev : intact n m (Pager.dev P);
  tx_total : Superblock.total_pages (Pager.sb P) = n / 8;
  tx_dirty q img : Pager.dirty P !! q = Some img -> home_page n q /\ len img = PAGE;
  tx_cache q img : Pager.cache P !! q = Some img ->
    len img = PAGE /\ (FIRST_DATA_PAGE <= q -> q < n / 8 /\ img = page_of m q);
  tx_sb : Pager.sb P = v_sb v;
  tx_page q : home_page n q -> sees m P q = v_page v q;
  tx_staged : dom (Pager.dirty P) = v_staged v
}.

(** Every image a crash of [P] leaves is [m]. *)
Definition keeps (n : Z) (m : medium) P : Prop :=
  dev_ok (Pager.dev P) /\ sector_count (Pager.dev P) = n /\
  forall x, images (Pager.dev P) x -> meq x m.

(** From [P] the power goes while [c] runs, which has committed nothing. *)
Definition cut {A} (n : Z) (m : medium) (c : stM (Pager.t D) StoreError A) P : Prop :=
  may_lose (D:=D) /\ exists P', c P = (Fail Io, P') /\ keeps n m P'.

(** [pwp n m v c Q]: run in a transaction that sees [v], [c] ends with an
    outcome and a view that satisfy [Q], or the power goes; it commits
    nothing. *)
Definition pwp {A} (n : Z) (m : medium) (v : view) (c : stM (Pager.t D) StoreError A)
    (Q : outcome StoreError A -> view -> Prop) : Prop :=
  forall P, in_tx n m P v ->
    (exists r P' v', c P = (r, P') /\ in_tx n m P' v' /\ Q r v') \/ cut n m c P.

Lemma pwp_ret {A} n m v (a : A) (Q : outcome StoreError A -> view -> Prop) :
  Q (Val a) v -> pwp n m v (mret a) Q.
Proof. intros HQ P HP. left. by exists (Val a), P, v. Qed.

Lemma pwp_lift {A} n m v (r : outcome StoreError A) (Q : outcome StoreError A -> view -> Prop) :
  Q r v -> pwp n m v (lift r) Q.
Proof. intros HQ P HP. left. by exists r, P, v. Qed.

Lemma pwp_bind {A B} n m v (c : stM (Pager.t D) StoreError A)
    (f : A -> stM (Pager.t D) StoreError B) (Q : outcome StoreError B -> view -> Prop) :
  pwp n m v c (fun r v' => match r with
    | Val a => pwp n m v' (f a) Q
    | Fail e => Q (Fail e) v'
    | Panic => Q Panic v'
    | NoFuel => Q NoFuel v'
    end) -> pwp n m v (c ≫= f) Q.
Proof.
  intros H P HP. unfold cut, mbind, stM_bind.
  destruct (H P HP) as [(r & P' & v' & E & HP' & HQ)|(Hl & P' & E & Hk)]; rewrite E.
  2:{ right. split; [done|]. by exists P'. }
  destruct r as [a|e| |].
  - destruct (HQ P' HP') as [(r & P2 & v2 & E2 & ? & ?)|(Hl & P2 & E2 & Hk)]; rewrite E2.
    + left. by exists r, P2, v2.
    + right. split; [done|]. by exists P2.
  - left. by exists (Fail e), P', v'.
  - left. by exists Panic, P', v'.
  - left. by exists NoFuel, P', v'.
Qed.

Lemma pwp_conseq {A} n m v (c : stM (Pager.t D) StoreError A)
    (Q Q' : outcome StoreError A -> view -> Prop) :
  pwp n m v c Q' -> (forall r v', Q' r v' -> Q r v') -> pwp n m v c Q.
Proof.
  intros H HQ P HP. destruct (H P HP) as [(r & P' & v' & ? & ? & ?)|?]; [left|by right].
  exists r, P', v'. auto.
Qed.

(** On a device that stays powered. *)
Lemma pwp_powered {A} n m v (c : stM (Pager.t D) StoreError A) Q P : ~ may_lose (D:=D) ->
  pwp n m v c Q -> in_tx n m P v -> exists r P' v', c P = (r, P') /\ in_tx n m P' v' /\ Q r v'.
Proof. intros Hl H HP. by destruct (H P HP) as [?|[? _]]. Qed.

(** The pager's views that differ by equal functions are the same. *)
Lemma in_tx_ext n m P v v' :
  in_tx n m P v -> v_sb v = v_sb v' -> (forall q, home_page n q -> v_page v q = v_page v' q) ->
  v_staged v = v_staged v' -> in_tx n m P v'.
Proof.
  intros [] Hs Hp Hst. split; try done; [by rewrite <- Hs| |by rewrite <- Hst].
  intros q Hq. rewrite <- Hp by done. auto.
Qed.

Lemma pwp_sb n m v (Q : outcome StoreError Superblock.t -> view -> Prop) :
  Q (Val (v_sb v)) v -> pwp n m v (gets Pager.sb) Q.
Proof.
  intros HQ P HP. left. exists (Val (v_sb v)), P, v. split_and!; [|done|done].
  unfold gets. by rewrite (tx_sb _ _ _ _ HP).
Qed.

Lemma pwp_set_sb n m v f (Q : outcome StoreError unit -> view -> Prop) :
  Superblock.total_pages (f (v_sb v)) = Superblock.total_pages (v_sb v) ->
  Q (Val tt) (view_sb f v) -> pwp n m v (Pager.set_sb f) Q.
Proof.
  intros Hf HQ P HP. left. eexists (Val tt), _, (view_sb f v). split_and!; [reflexivity| |done].
  destruct HP as [H1 H2 H3 H4 H5 H6 H7]. split; cbn; try done.
  - rewrite H5, Hf, <- H5. done.
  - by rewrite H5.
Qed.

Lemma pwp_write_page n m v q img (Q : outcome StoreError unit -> view -> Prop) :
  home_page n q -> len img = PAGE ->
  Q (Val tt) (view_upd v q img) -> pwp n m v (Pager.write_page q img) Q.
Proof.
  intros Hq Hi HQ. unfold Pager.write_page. apply pwp_bind, pwp_lift.
  rewrite Hi. change (assert (PAGE =? PAGE)) with (Val (E:=StoreError) tt).
  intros P HP. left. eexists (Val tt), _, (view_upd v q img). split_and!; [reflexivity| |done].
  destruct HP as [H1 H2 H3 H4 H5 H6 H7]. split; cbn; try done.
  - intros p b Hp. destruct (decide (p = q)) as [->|Hne].
    + rewrite lookup_insert_eq in Hp. by injection Hp as <-.
    + rewrite lookup_insert_ne in Hp by done. by apply H3 in Hp.
  - intros p Hp. specialize (H6 p Hp). unfold sees in *; cbn.
    destruct (Z.eqb_spec p q) as [->|]; [by rewrite lookup_insert_eq|].
    by rewrite lookup_insert_ne by done.
  - by rewrite dom_insert_L, H7.
Qed.

Lemma zeroed_page_length : len zeroed_page = PAGE.
Proof. unfold zeroed_page. apply zeros_length. slia. Qed.

(** Reading from the disk leaves the volume as it is. *)
Lemma intact_read n m (d : D) p out :
  intact n m d -> 0 <= p < n / 8 -> len out = PAGE ->
  (exists d', Journal.read_page p out d = (Val (page_of m p), d') /\ intact n m d' /\
    len (page_of m p) = PAGE) \/
  (may_lose (D:=D) /\ exists d', Journal.read_page p out d = (Fail Io, d') /\
    dev_ok d' /\ sector_count d' = n /\ forall x, images d' x -> meq x m).
Proof.
  intros (Hok & Hn & Hm & Hi) Hr Ho.
  destruct (runs_read_page n m (fun x => meq x m) p out
    (fun r m' J => r = page_of m p /\ m' = m /\ J = (fun x => meq x m) /\ len (page_of m p) = PAGE)
    (fun x => meq x m) ltac:(done) ltac:(lia) ltac:(lia) Ho ltac:(done) d Hok Hn Hm Hi)
    as [(r & d' & m' & J & E & Hok' & Hn' & Hm' & Hi' & -> & -> & -> & Hlen)|(Hl & d' & E & Hok' & Hn' & HR)].
  - left. exists d'. split_and!; [done| |done]. by split_and!.
  - right. split; [done|]. exists d'. by split_and!.
Qed.

Lemma powered_read n m (d : D) p out :
  powered_on n m d -> 0 <= p < n / 8 -> len out = PAGE ->
  exists d', Journal.read_page p out d = (Val (page_of m p), d') /\ powered_on n m d' /\
    len (page_of m p) = PAGE.
Proof.
  intros [Hl Hp] Hr Ho. destruct (intact_read n m d p out Hp Hr Ho) as [(d' & E & ? & ?)|[? _]]; [|done].
  exists d'. by split_and!.
Qed.

Lemma in_tx_cache_insert n m P v q img c :
  in_tx n m P v -> (c = Pager.cache P \/ c = ∅) ->
  len img = PAGE -> (FIRST_DATA_PAGE <= q -> q < n / 8 /\ img = page_of m q) ->
  in_tx n m (Pager.mk (Pager.dev P) (Pager.sb P) (Pager.dirty P) (<[q := img]> c)) v.
Proof.
  intros [H1 H2 H3 H4 H5 H6 H7] Hc Hl Hi. split; cbn; try done.
  intros p b Hp. destruct (decide (p = q)) as [->|Hne].
  - rewrite lookup_insert_eq in Hp. by injection Hp as <-.
  - rewrite lookup_insert_ne in Hp by done.
    destruct Hc as [->| ->]; [by apply H4 in Hp|by rewrite lookup_empty in Hp].
Qed.

Lemma pwp_cache_insert n m v q img (Q : outcome StoreError unit -> view -> Prop) :
  len img = PAGE -> (FIRST_DATA_PAGE <= q -> q < n / 8 /\ img = page_of m q) ->
  Q (Val tt) v -> pwp n m v (Pager.cache_insert q img) Q.
Proof.
  intros Hl Hi HQ P HP. left. eexists (Val tt), _, v. split_and!; [reflexivity| |done].
  apply in_tx_cache_insert; try done. destruct (_ <=? _); auto.
Qed.

Lemma in_tx_dev n m P v d : in_tx n m P v -> intact n m d ->
  in_tx n m (Pager.mk d (Pager.sb P) (Pager.dirty P) (Pager.cache P)) v.
Proof. by intros [] ?; split. Qed.

(** A page read: from the transaction, the cache or the disk. *)
Lemma pwp_read_raw n m v q (Q : outcome StoreError bytes -> view -> Prop) :
  0 <= q ->
  (forall img, len img = PAGE -> q < n / 8 \/ q < FIRST_DATA_PAGE ->
     (home_page n q -> img = v_page v q) -> Q (Val img) v) ->
  (n / 8 <= q -> Q (Fail (Corrupt (str "page out of range"))) v) ->
  pwp n m v (Pager.read_page q) Q.
Proof.
  intros Hq HV HF P HP. pose proof HP as [H1 H2 H3 H4 H5 H6 H7]. unfold cut, Pager.read_page.
  destruct (Pager.dirty P !! q) as [img|] eqn:Ed.
  { destruct (H3 _ _ Ed) as [Hh Hl]. left. exists (Val img), P, v. split_and!; [done..|].
    apply HV; [done|left; apply Hh|]. intros _. rewrite <- H6 by done. unfold sees. by rewrite Ed. }
  destruct (Pager.cache P !! q) as [img|] eqn:Ec.
  { destruct (H4 _ _ Ec) as [Hl Hc]. left. exists (Val img), P, v. split_and!; [done..|].
    apply HV; [done| |].
    - destruct (decide (FIRST_DATA_PAGE <= q)) as [?|?]; [left; by apply Hc|right; lia].
    - intros Hh. rewrite <- H6 by done. unfold sees. rewrite Ed. cbn. by apply Hc, Hh. }
  rewrite H2. destruct (Z.leb_spec (n / 8) q) as [Hout|Hin].
  { left. exists (Fail (Corrupt (str "page out of range"))), P, v. split_and!; auto. }
  unfold mbind, stM_bind, Pager.on_dev.
  destruct (intact_read n m (Pager.dev P) q zeroed_page)
    as [(d' & E & Hp & Hlen)|(Hl & d' & E & Hk)]; [done|lia|apply zeroed_page_length|..].
  2:{ right. split; [done|]. rewrite E. by eexists. }
  rewrite E. left. eexists (Val (page_of m q)), _, v. split_and!; [reflexivity| |].
  - apply (in_tx_cache_insert n m (Pager.mk d' (Pager.sb P) (Pager.dirty P) (Pager.cache P)));
      [by apply in_tx_dev| |done|done].
    cbn. destruct (_ <=? _); auto.
  - apply HV; [done|by left|]. intros Hh. rewrite <- H6 by done. unfold sees. by rewrite Ed.
Qed.

Lemma pwp_read_page n m v q (Q : outcome StoreError bytes -> view -> Prop) :
  home_page n q -> (len (v_page v q) = PAGE -> Q (Val (v_page v q)) v) ->
  pwp n m v (Pager.read_page q) Q.
Proof.
  intros Hq HQ. pose proof Hq as [? ?]. apply pwp_read_raw; [slia| |lia].
  intros img Hl _ Hi. rewrite Hi in * by done. auto.
Qed.

(** ** The free list *)

(** The link a page of the free list holds. *)
Definition link (img : bytes) : Z := of_le_bytes (take 8 img).

(** The pages [l] are the free list of the view [v]. *)
Fixpoint chained (v : view) (h : Z) (l : list Z) : Prop :=
  match l with
  | [] => h = 0
  | p :: l' => h = p /\ chained v (link (v_page v p)) l'
  end.

(** Free pages are distinct data pages below the high-water mark. *)
Record free_list (n : Z) (v : view) (l : list Z) : Prop := {
  fl_chain : chained v (Superblock.free_head (v_sb v)) l;
  fl_nodup : NoDup l;
  fl_range : Forall (fun p => FIRST_DATA_PAGE <= p < Superblock.hwm (v_sb v)) l;
  fl_hwm : FIRST_DATA_PAGE <= Superblock.hwm (v_sb v) <= n / 8;
  fl_total : Superblock.total_pages (v_sb v) = n / 8;
  fl_size : 0 <= n < 2 ^ 60
}.

Lemma chained_ext v v' h l :
  (forall p, p ∈ l -> v_page v p = v_page v' p) -> chained v h l -> chained v' h l.
Proof.
  revert h. induction l as [|p l IH]; intros h Hp; cbn; [done|].
  intros [-> Hc]. split; [done|]. rewrite <- Hp by left. apply IH; [|done].
  intros q Hq. apply Hp. by right.
Qed.

Lemma next_of_link img : len img = PAGE -> Pager.next_of img = Val (link img).
Proof.
  intros Hl. unfold Pager.next_of, get_u64. rewrite slice_in by slia. done.
Qed.

Lemma link_put f : is_u64 f ->
  exists img, put_u64 zeroed_page 0 f = Val img /\ len img = PAGE /\ link img = f.
Proof.
  intros Hf. exists (le_bytes 8 f ++ zeros (PAGE - 8)). split_and!.
  - change zeroed_page with ([] ++ zeros 8 ++ zeros (PAGE - 8)). by apply put_u64_at.
  - rewrite length_app, le_bytes_length, Nat2Z.inj_add, zeros_length by slia. slia.
  - unfold link. rewrite take_app_length'; [by apply of_le_bytes_small|done].
Qed.

(** Allocation takes a page the volume does not use: the head of the free
    list, or the next page never used. *)
Lemma pwp_alloc_page n m v l (Q : outcome StoreError Z -> view -> Prop) :
  free_list n v l ->
  (forall q l' v', home_page n q -> free_list n v' l' -> q ∉ l' ->
     (l = q :: l' \/ l = [] /\ l' = [] /\ q = Superblock.hwm (v_sb v)) ->
     v_page v' q = zeroed_page -> (forall p, p <> q -> v_page v' p = v_page v p) ->
     q < Superblock.hwm (v_sb v') ->
     Superblock.hwm (v_sb v) <= Superblock.hwm (v_sb v') ->
     Superblock.catalog_head (v_sb v') = Superblock.catalog_head (v_sb v) ->
     Superblock.generation (v_sb v') = Superblock.generation (v_sb v) ->
     v_staged v' = {[q]} ∪ v_staged v ->
     Q (Val q) v') ->
  (l = [] -> Superblock.hwm (v_sb v) = n / 8 -> Q (Fail OutOfSpace) v) ->
  pwp n m v Pager.alloc_page Q.
Proof.
  intros Hfl HV HF. pose proof Hfl as [Hc Hnd Hr Hh Ht Hs].
  unfold Pager.alloc_page. apply pwp_bind, pwp_sb, pwp_bind.
  destruct l as [|p l].
  - cbn in Hc. rewrite Hc. cbn [Z.eqb negb].
    rewrite Ht. destruct (Z.ltb_spec (Superblock.hwm (v_sb v)) (n / 8)) as [Hlt|Hge].
    2:{ apply pwp_lift. apply HF; [done|lia]. }
    apply pwp_bind, pwp_lift. unfold add_u64.
    rewrite (proj2 (Z.ltb_lt _ (2 ^ 64))) by lia.
    apply pwp_bind, pwp_set_sb; [done|]. apply pwp_ret.
    assert (Hq : home_page n (Superblock.hwm (v_sb v))) by (unfold home_page; lia).
    apply pwp_bind, pwp_write_page; [done|apply zeroed_page_length|]. apply pwp_ret.
    apply (HV _ []); cbn; try done.
    + split; cbn; try done; try lia.
    + apply not_elem_of_nil.
    + by right.
    + by rewrite Z.eqb_refl.
    + intros q Hne. by rewrite (proj2 (Z.eqb_neq _ _)).
    + lia.
    + lia.
  - destruct Hc as [Hhead Hc]. apply Forall_cons in Hr as [Hp Hr]. apply NoDup_cons in Hnd as [Hpl Hnd].
    rewrite Hhead, (proj2 (Z.eqb_neq p 0)) by slia. cbn [negb].
    assert (Hq : home_page n p) by (unfold home_page; lia).
    apply pwp_bind, pwp_read_page; [done|]. intros Hlen.
    apply pwp_bind, pwp_lift. rewrite next_of_link by done.
    apply pwp_bind, pwp_set_sb; [done|]. apply pwp_ret.
    apply pwp_bind, pwp_write_page; [done|apply zeroed_page_length|]. apply pwp_ret.
    apply (HV _ l); cbn; try done.
    + split; cbn; try done.
      eapply chained_ext; [|exact Hc]. intros q Hql. cbn.
      destruct (Z.eqb_spec q p) as [->|]; [by apply Hpl in Hql|done].
    + by left.
    + by rewrite Z.eqb_refl.
    + intros q Hne. by rewrite (proj2 (Z.eqb_neq _ _)).
    + lia.
Qed.

(** Freeing a page puts it at the head of the list. *)
Lemma pwp_free_page n m v l q (Q : outcome StoreError unit -> view -> Prop) :
  free_list n v l -> FIRST_DATA_PAGE <= q < Superblock.hwm (v_sb v) -> q ∉ l ->
  (forall v', free_list n v' (q :: l) -> (forall p, p <> q -> v_page v' p = v_page v p) ->
     Superblock.hwm (v_sb v') = Superblock.hwm (v_sb v) ->
     Superblock.catalog_head (v_sb v') = Superblock.catalog_head (v_sb v) ->
     Superblock.generation (v_sb v') = Superblock.generation (v_sb v) ->
     v_staged v' = {[q]} ∪ v_staged v ->
     Q (Val tt) v') ->
  pwp n m v (Pager.free_page q) Q.
Proof.
  intros [Hc Hnd Hr Hh Ht Hs] Hq Hql HV. unfold Pager.free_page.
  assert (Hf : is_u64 (Superblock.free_head (v_sb v))).
  { destruct l as [|p l]; cbn in Hc; [rewrite Hc; done|].
    destruct Hc as [-> _]. apply Forall_cons in Hr as [Hp _]. unfold is_u64. slia. }
  destruct (link_put _ Hf) as (img & Ei & Hl & Hlink).
  assert (Hhome : home_page n q) by (unfold home_page; lia).
  apply pwp_bind, pwp_sb, pwp_bind, pwp_lift. rewrite Ei.
  apply pwp_bind, pwp_write_page; [done..|]. apply pwp_set_sb; [done|].
  apply HV; cbn -[link]; try done.
  - split; cbn -[link]; try done.
    + split; [done|]. rewrite Z.eqb_refl, Hlink.
      eapply chained_ext; [|exact Hc]. intros p Hp. cbn.
      destruct (Z.eqb_spec p q) as [->|]; [done|done].
    + by apply NoDup_cons.
    + by apply Forall_cons.
  - intros p Hne. by rewrite (proj2 (Z.eqb_neq _ _)).
Qed.

(** ** Commit, rollback, format and mount *)

Lemma volume_powered_sb n m s (d : D) : powered_on n m d -> volume n m s ->
  exists d', Journal.read_page 0 zeroed_page d = (Val (Superblock.encode s), d') /\
    powered_on n m d'.
Proof.
  intros Hp [Hd Hi Hroom Hsb Hwf Ht].
  destruct (powered_read n m d 0 zeroed_page Hp) as (d' & E & Hp' & _); [slia|apply zeroed_page_length|].
  exists d'. by rewrite E, Hsb.
Qed.

(** The write set of a transaction. *)
Definition write_set (s : Superblock.t) (dirty : gmap Z bytes) : list (Z * bytes) :=
  (0, Superblock.encode s) :: btree_iter dirty.

Lemma batch_val s (g : gmap Z bytes) :
  (forall q img, g !! q = Some img -> q <> 0) ->
  Pager.batch s (btree_iter g) = Val (write_set s g).
Proof.
  intros H. unfold Pager.batch. rewrite (proj2 (List.forallb_forall _ _)); [done|].
  intros [q img] Hin%list_elem_of_In%btree_iter_elem. cbn.
  specialize (H q img Hin). by rewrite (proj2 (Z.eqb_neq _ _)).
Qed.

Lemma write_set_ok n m P v s s' : in_tx n m P v -> volume n m s' ->
  Z.of_nat (size (Pager.dirty P)) < JCAP -> dirty_ok n (write_set s (Pager.dirty P)).
Proof.
  intros [H1 H2 H3 H4 H5 H6 H7] [Hd Hi Hroom Hsb Hwf Ht] Hsz. unfold write_set, dirty_ok. split_and!.
  - unfold FIRST_DATA_PAGE in *. slia.
  - cbn [length]. rewrite btree_iter_length. lia.
  - apply Forall_cons. split.
    + split_and!; [apply SuperblockFacts.encode_length|slia|by left].
    + apply Forall_forall. intros [q img] Hq%btree_iter_elem. destruct (H3 _ _ Hq) as [[? ?] ?].
      split_and!; [done|lia|by right].
Qed.

Lemma write_set_nodup n m P v s : in_tx n m P v -> NoDup (write_set s (Pager.dirty P)).*1.
Proof.
  intros [H1 H2 H3 H4 H5 H6 H7]. cbn. apply NoDup_cons. split; [|apply btree_iter_nodup].
  intros ([q img] & E & Hq%btree_iter_elem)%list_elem_of_fmap. cbn in E. subst.
  apply H3 in Hq as [[? _] _]. slia.
Qed.

(** Installing a write set on a volume. *)
Lemma install_view n m m' P v s s0 :
  in_tx n m P v -> volume n m s0 -> disk n m' -> idle m' ->
  SuperblockFacts.wf s -> Superblock.total_pages s = n / 8 ->
  (forall t img, (t, img) ∈ write_set s (Pager.dirty P) -> page_of m' t = img) ->
  (forall p, p = 0 \/ FIRST_DATA_PAGE <= p -> p ∉ (write_set s (Pager.dirty P)).*1 ->
     page_of m' p = page_of m p) ->
  volume n m' s /\ forall q, home_page n q -> page_of m' q = v_page v q.
Proof.
  intros [H1 H2 H3 H4 H5 H6 H7] [Hd Hi Hroom Hsb Hwf0 Ht0] Hd' Hi' Hwf Ht Hin Hout. split.
  - split; try done. apply Hin. by left.
  - intros q Hq. rewrite <- H6 by done. unfold sees.
    destruct (Pager.dirty P !! q) as [img|] eqn:E; cbn.
    + apply Hin. right. by apply btree_iter_elem.
    + apply Hout; [right; apply Hq|]. cbn. intros [->|Hf]%elem_of_cons.
      * destruct Hq. slia.
      * apply list_elem_of_fmap in Hf as ([q' img] & -> & Hf%btree_iter_elem). cbn in E. congruence.
Qed.

(** The cache after a commit. *)
Lemma cache_fold (n : Z) (m : medium) (l : list (Z * bytes)) : forall P (HP : forall q img, Pager.cache P !! q = Some img ->
    len img = PAGE /\ (FIRST_DATA_PAGE <= q -> q < n / 8 /\ img = page_of m q \/ (q ∈ l.*1))),
  Forall (fun '(q, img) => len img = PAGE /\ (FIRST_DATA_PAGE <= q < n / 8) /\ img = page_of m q) l ->
  exists c, for_each l (fun '(q, img) => Pager.cache_insert q img) P
      = (Val tt, Pager.mk (Pager.dev P) (Pager.sb P) (Pager.dirty P) c) /\
    forall q img, c !! q = Some img ->
      len img = PAGE /\ (FIRST_DATA_PAGE <= q -> q < n / 8 /\ img = page_of m q).
Proof.
  induction l as [|[q img] l IH]; intros P HP Hl.
  - exists (Pager.cache P). split; [by destruct P|].
    intros q img Hq. destruct (HP q img Hq) as [? H]. split; [done|].
    intros Hf. destruct (H Hf) as [?|Hn]; [done|by apply elem_of_nil in Hn].
  - apply Forall_cons in Hl as [(Hi & Hq & E) Hl].
    cbn [for_each]. unfold mbind, stM_bind, Pager.cache_insert at 1, modify at 1.
    set (c := if CACHE_MAX <=? Z.of_nat (size (Pager.cache P)) then ∅ else Pager.cache P).
    destruct (IH (Pager.mk (Pager.dev P) (Pager.sb P) (Pager.dirty P) (<[q := img]> c)))
      as (c' & E' & Hc'); [|done|by exists c'].
    cbn. intros p b Hp. destruct (decide (p = q)) as [->|Hne].
    + rewrite lookup_insert_eq in Hp. injection Hp as <-. split; [done|]. intros _. left. by split; [lia|].
    + rewrite lookup_insert_ne in Hp by done.
      assert (Hp' : Pager.cache P !! p = Some b).
      { subst c. destruct (CACHE_MAX <=? _) in Hp; [by rewrite lookup_empty in Hp|done]. }
      destruct (HP p b Hp') as [? H]. split; [done|]. intros Hf.
      destruct (H Hf) as [?|[Hx|Hx]%elem_of_cons]; [by left|done|by right].
Qed.

Lemma powered_disk n m (d : D) : powered_on n m d -> disk n m.
Proof. intros [_ Hd]. by eapply intact_disk. Qed.

(** The superblock a commit writes. *)
Definition committed_sb (s : Superblock.t) : Superblock.t :=
  Superblock.set_generation (Superblock.generation s + 1) s.

(** A commit with pages to write is the journal's commit of the write set,
    then bookkeeping. *)
Lemma commit_head n m v P s (D' : Type) `{!BlockDevice D'} (d : D') :
  in_tx n m P v -> Superblock.generation (v_sb v) + 1 < 2 ^ 64 -> Pager.dirty P <> ∅ ->
  s = committed_sb (v_sb v) ->
  Pager.commit (Pager.mk d (Pager.sb P) (Pager.dirty P) (Pager.cache P)) =
  (_ ← Pager.on_dev (Journal.commit (Superblock.generation s) (write_set s (Pager.dirty P)));
   _ ← Pager.set_sb (fun _ => s);
   _ ← for_each (btree_iter (Pager.dirty P)) (fun '(q, img) => Pager.cache_insert q img);
   Pager.set_dirty (fun _ => ∅)) (Pager.mk d (Pager.sb P) (Pager.dirty P) (Pager.cache P)).
Proof.
  intros Htx Hg Hne ->. unfold Pager.commit. cbn [Pager.dirty Pager.sb].
  rewrite bool_decide_false by done. rewrite (tx_sb _ _ _ _ Htx).
  rewrite (lift_bind_val _ _ _ (Superblock.generation (v_sb v) + 1)).
  2:{ unfold add_u64. by rewrite (proj2 (Z.ltb_lt _ _)). }
  rewrite (lift_bind_val _ _ _ (write_set (committed_sb (v_sb v)) (Pager.dirty P))); [done|].
  apply batch_val. intros q img Hq ->. apply (tx_dirty _ _ _ _ Htx) in Hq as [[? _] _]. slia.
Qed.

Lemma commit_spec n m P v s0 : ~ may_lose (D:=D) ->
  in_tx n m P v -> volume n m s0 -> SuperblockFacts.wf (v_sb v) ->
  Superblock.generation (v_sb v) + 1 < 2 ^ 64 ->
  Pager.dirty P <> ∅ -> Z.of_nat (size (Pager.dirty P)) < JCAP ->
  let s := committed_sb (v_sb v) in
  exists P' m', Pager.commit P = (Val tt, P') /\ volume n m' s /\
    in_tx n m' P' (at_rest s (v_page v)) /\ Pager.dirty P' = ∅ /\
    forall q, home_page n q -> page_of m' q = v_page v q.
Proof.
  intros Hlose Htx Hvol Hwf Hg Hne Hsz s. pose proof Htx as [H1 H2 H3 H4 H5 H6 H7].
  pose proof Hwf as (W1 & W2 & W3 & W4 & W5).
  assert (Hs : SuperblockFacts.wf s) by (unfold s, committed_sb, SuperblockFacts.wf, is_u64 in *; cbn; lia).
  assert (Hst : Superblock.total_pages s = n / 8) by (cbn; by rewrite <- H5).
  destruct (powered_commit n m (Superblock.generation s) (write_set s (Pager.dirty P)) (Pager.dev P))
    as (d' & m' & E & [_ Hp'] & Hi' & Hin & Hout).
  { done. } { apply Hvol. } { by eapply write_set_ok. } { apply Hs. } { by eapply write_set_nodup. }
  destruct (install_view n m m' P v s s0) as [Hv' Hpg]; try done.
  { by eapply intact_disk. }
  destruct (cache_fold n m' (btree_iter (Pager.dirty P))
    (Pager.mk d' s (Pager.dirty P) (Pager.cache P))) as (c & Ec & Hc).
  { cbn. intros q img Hq. destruct (H4 q img Hq) as [? Hc]. split; [done|]. intros Hf.
    destruct (Hc Hf) as [Hlt ->].
    destruct (decide (q ∈ (btree_iter (Pager.dirty P)).*1)) as [|Hn]; [by right|left].
    split; [done|]. symmetry. apply Hout; [by right|].
    cbn. intros [->|?]%elem_of_cons; [slia|done]. }
  { apply Forall_forall. intros [q img] Hq. pose proof Hq as Hq'%btree_iter_elem.
    destruct (H3 _ _ Hq') as [Hh ?]. split_and!; [done|apply Hh|apply Hh|].
    symmetry. apply Hin. by right. }
  exists (Pager.mk d' s ∅ c), m'. split; [|split; [done|split; [|by split]]].
  - destruct P as [d sb g c0]. cbn [Pager.dirty Pager.sb Pager.cache Pager.dev] in *.
    rewrite (commit_head n m v (Pager.mk d sb g c0) s D d) by done. cbn [Pager.dirty Pager.sb Pager.cache].
    erewrite stM_bind_val by (unfold Pager.on_dev; cbn [Pager.dev]; by rewrite E).
    cbn [Pager.dirty Pager.sb Pager.cache].
    rewrite (stM_bind_val _ _ _ tt (Pager.mk d' s g c0)) by done.
    by rewrite (stM_bind_val _ _ _ _ _ Ec).
  - by split.
Qed.

(** A write set that does not fit the journal is refused, nothing written. *)
Lemma commit_too_big n m P v s0 :
  in_tx n m P v -> volume n m s0 -> Superblock.generation (v_sb v) + 1 < 2 ^ 64 ->
  JCAP <= Z.of_nat (size (Pager.dirty P)) ->
  exists P', Pager.commit P = (Fail OutOfSpace, P') /\ in_tx n m P' v.
Proof.
  intros Htx Hvol Hg Hsz. pose proof Htx as [H1 H2 H3 H4 H5 H6 H7].
  assert (Hne : Pager.dirty P <> ∅).
  { intros E. rewrite E, map_size_empty in Hsz. slia. }
  exists P. split; [|done]. destruct P as [d sb g c]. cbn [Pager.dirty] in *.
  rewrite (commit_head n m v (Pager.mk d sb g c) _ D d) by done.
  apply stM_bind_fail. unfold Pager.on_dev, Journal.commit. cbn [Pager.dirty Pager.dev].
  rewrite (proj2 (Z.ltb_lt _ _)); [done|].
  cbn [write_set length]. rewrite btree_iter_length. lia.
Qed.

(** Rollback returns to the committed volume. *)
Lemma rollback_spec n m P v s0 : ~ may_lose (D:=D) ->
  in_tx n m P v -> volume n m s0 ->
  exists P', Pager.rollback P = (Val tt, P') /\ in_tx n m P' (at_rest s0 (page_of m)) /\
    Pager.dirty P' = ∅.
Proof.
  intros Hlose Htx Hvol. pose proof Htx as [H1 H2 H3 H4 H5 H6 H7].
  destruct (volume_powered_sb n m s0 (Pager.dev P) (conj Hlose H1) Hvol) as (d' & E & [_ Hp']).
  exists (Pager.mk d' s0 ∅ (Pager.cache P)). split_and!; [| |done].
  - unfold Pager.rollback, mbind, stM_bind, Pager.set_dirty, modify, Pager.on_dev; cbn -[Journal.read_page].
    rewrite E. unfold lift. by rewrite SuperblockFacts.decode_encode by apply Hvol.
  - split; cbn; try done. apply Hvol.
Qed.

(** Mounting the volume recovery leaves. *)
Lemma mount_after n m s (d d' : D) b :
  Journal.recover d = (Val b, d') -> powered_on n m d' -> volume n m s ->
  exists P, Pager.mount d = Val P /\ in_tx n m P (at_rest s (page_of m)) /\ Pager.dirty P = ∅.
Proof.
  intros E Hp Hv. destruct (volume_powered_sb n m s d' Hp Hv) as (d2 & E2 & [_ Hp2]).
  exists (Pager.mk d2 s ∅ ∅). split; [|split; [|done]].
  - unfold Pager.mount, Pager.open_with, Pager.mount_dev.
    rewrite (stM_bind_val _ _ _ _ _ E), (stM_bind_val _ _ _ _ _ E2).
    unfold lift. by rewrite SuperblockFacts.decode_encode by apply Hv.
  - split; cbn; try done. apply Hv.
Qed.

Lemma home_eq_page m m' p : home_eq m m' -> p = 0 \/ FIRST_DATA_PAGE <= p ->
  page_of m p = page_of m' p.
Proof. intros H Hp. apply page_of_ext. intros l Hl. apply H. unfold journal_lba. slia. Qed.

Lemma volume_home n m m' s : volume n m s -> home_eq m' m -> disk n m' -> idle m' -> volume n m' s.
Proof.
  intros [Hd Hi Hroom Hsb Hwf Ht] He Hd' Hi'. split; try done.
  rewrite <- Hsb. apply home_eq_page; [done|by left].
Qed.

Definition fresh_sb (n : Z) : Superblock.t := Superblock.mk (n / 8) FIRST_DATA_PAGE 0 0 1.

Lemma fresh_sb_wf n : 0 <= n < 2 ^ 60 -> SuperblockFacts.wf (fresh_sb n).
Proof. intros Hn. unfold SuperblockFacts.wf, fresh_sb, is_u64; cbn -[FIRST_DATA_PAGE]. slia. Qed.

(** Formatting gives an empty volume with nothing on the free list. *)
Lemma format_spec n m (d : D) :
  powered_on n m d -> FIRST_DATA_PAGE + 1 < n / 8 ->
  exists P m', Pager.format d = Val P /\ volume n m' (fresh_sb n) /\
    in_tx n m' P (at_rest (fresh_sb n) (page_of m')) /\ Pager.dirty P = ∅ /\
    free_list n (at_rest (fresh_sb n) (page_of m')) [].
Proof.
  intros Hp Hroom. pose proof (powered_disk n m d Hp) as Hdisk.
  destruct (run_powered Pager.format_dev n m d
    (fun s m' J => s = fresh_sb n /\ idle m' /\ page_of m' 0 = Superblock.encode (fresh_sb n) /\
       J = (fun x => meq x m')) (fun _ => True) Hp)
    as (s & d' & m' & J & E & Hok & Hn & Hm & Hi & -> & Hidle & Hsb & ->).
  { unfold Pager.format_dev. apply runs_bind. intros d0 Hok0 Hn0 Hc0 Hi0. left.
    exists (sector_count d0), d0, m, (fun x => meq x m). split_and!; try done.
    revert d0 Hok0 Hn0 Hc0 Hi0. intros ? _ -> _ _.
    change PAGE_SECTORS with 8. rewrite (proj2 (Z.leb_gt _ _)) by done.
    apply runs_bind. eapply runs_conseq; [apply runs_init; slia|done| |done].
    intros [] m1 J1 (Hi1 & _ & ->). exists m1, (fun _ => True). split_and!; try done.
    apply runs_bind, runs_write_page; [by intros ??|done|lia|slia|apply SuperblockFacts.encode_length|done|].
    apply runs_bind, runs_flush; [done|]. apply runs_ret. split_and!; [done| | |done].
    - unfold idle. rewrite put_page_out by lia. exact Hi1.
    - apply page_of_put_page, SuperblockFacts.encode_length. }
  assert (Hp' : powered_on n m' d') by (split; [apply Hp|by split_and!]).
  exists (Pager.mk d' (fresh_sb n) ∅ ∅), m'. split_and!; [|split; try done|split; done|done|].
  - unfold Pager.format, Pager.open_with. by rewrite E.
  - by apply (powered_disk n m' d').
  - apply fresh_sb_wf, Hdisk.
  - split; cbn -[FIRST_DATA_PAGE]; try done; [constructor|lia|apply Hdisk].
Qed.

End View.

Lemma cache_fold_dev {D} (l : list (Z * bytes)) : forall (P : Pager.t D),
  exists c, for_each l (fun '(q, img) => Pager.cache_insert q img) P
    = (Val tt, Pager.mk (Pager.dev P) (Pager.sb P) (Pager.dirty P) c).
Proof.
  induction l as [|[q img] l IH]; intros P; [exists (Pager.cache P); by destruct P|].
  cbn [for_each]. erewrite stM_bind_val by done. eapply (IH (Pager.mk _ _ _ _)).
Qed.

(** A commit cut by a power loss, and the next mount. *)
Lemma commit_crash {D2} `{!BlockDevice D2, !DeviceLaws D2}
    n m s0 (P : Pager.t VolatileDisk.t) v r P1 x y (d2 : D2) :
  in_tx n m P v -> volume n m s0 -> SuperblockFacts.wf (v_sb v) ->
  Superblock.generation (v_sb v) + 1 < 2 ^ 64 ->
  Pager.dirty P <> ∅ -> Z.of_nat (size (Pager.dirty P)) < JCAP ->
  Pager.commit P = (r, P1) ->
  VolatileDisk.survives (Pager.dev P1) x -> failed_recoveries n x y -> powered_on n y d2 ->
  exists P2 m2, Pager.mount d2 = Val P2 /\
    ((volume n m2 s0 /\ in_tx n m2 P2 (at_rest s0 (page_of m)) /\ r <> Val tt) \/
     (volume n m2 (committed_sb (v_sb v)) /\
      in_tx n m2 P2 (at_rest (committed_sb (v_sb v)) (v_page v)))).
Proof.
  intros Htx Hvol Hwf Hg Hne Hsz E Hx Hy H2. pose proof Htx as [H1 T2 T3 T4 T5 T6].
  set (s := committed_sb (v_sb v)).
  assert (Hs : SuperblockFacts.wf s) by (unfold s, committed_sb, SuperblockFacts.wf, is_u64 in *; cbn; lia).
  assert (Hst : Superblock.total_pages s = n / 8) by (cbn; by rewrite <- T5).
  destruct (Journal.commit (Superblock.generation s) (write_set s (Pager.dirty P)) (Pager.dev P))
    as [r' d'] eqn:Ej.
  assert (Hdev : Pager.dev P1 = d' /\ (r = Val tt -> r' = Val tt)).
  { revert E. replace P with (Pager.mk (Pager.dev P) (Pager.sb P) (Pager.dirty P) (Pager.cache P)) at 1
      by (by destruct P).
    rewrite (commit_head n m v P s VolatileDisk.t) by done.
    unfold mbind at 1, stM_bind at 1, Pager.on_dev. cbn [Pager.dev Pager.sb Pager.dirty Pager.cache].
    rewrite Ej. destruct r' as [[]|e| |]; [|by intros [= <- <-]..].
    rewrite (stM_bind_val _ _ _ tt (Pager.mk d' s (Pager.dirty P) (Pager.cache P))) by done.
    destruct (cache_fold_dev (btree_iter (Pager.dirty P))
      (Pager.mk d' s (Pager.dirty P) (Pager.cache P))) as [c Ec].
    rewrite (stM_bind_val _ _ _ _ _ Ec). by intros [= <- <-]. }
  destruct Hdev as [<- Hr].
  destruct (crash_atomic n m (Superblock.generation s) (write_set s (Pager.dirty P)) (Pager.dev P) r'
    (Pager.dev P1) x y d2) as (_ & b & d3 & m3 & Erec & Hp3 & Hi3 & He3 & Hr3);
    [done|apply Hvol|by eapply write_set_ok|apply Hs|done..|].
  pose proof (powered_disk n m3 d3 Hp3) as Hd3.
  assert (Hold : home_eq m3 m -> r <> Val tt -> exists P2 m2, Pager.mount d2 = Val P2 /\
    (volume n m2 s0 /\ in_tx n m2 P2 (at_rest s0 (page_of m)) /\ r <> Val tt)).
  { intros He Hrt. assert (Hv : volume n m3 s0) by (by eapply volume_home).
    destruct (mount_after n m3 s0 d2 d3 b Erec Hp3 Hv) as (P2 & E2 & Htx2 & _).
    exists P2, m3. split_and!; [done..| |done].
    eapply in_tx_ext; [exact Htx2|done| |done]. intros q Hq. cbn.
    apply home_eq_page; [done|right; apply Hq]. }
  assert (Hnew : home_eq m3 (install m (write_set s (Pager.dirty P))) ->
    exists P2 m2, Pager.mount d2 = Val P2 /\
      volume n m2 s /\ in_tx n m2 P2 (at_rest s (v_page v))).
  { intros He. pose proof (write_set_nodup n m P v s Htx) as Hnd.
    pose proof (write_set_ok n m P v s s0 Htx Hvol Hsz) as (_ & _ & Hall).
    rewrite Forall_forall in Hall.
    destruct (install_view n m m3 P v s s0) as [Hv Hpg]; try done.
    - intros t img Hin. destruct (Hall _ Hin) as (Hl & _ & Ht).
      rewrite (home_eq_page _ _ _ He) by done. by apply page_of_install.
    - intros p Hp Hnot. rewrite (home_eq_page _ _ _ He) by done.
      apply page_of_ext. intros l Hl. apply install_other. intros (u & i & Hu & Hul). apply Hnot.
      replace p with u by lia. apply list_elem_of_fmap. by exists (u, i).
    - destruct (mount_after n m3 s d2 d3 b Erec Hp3 Hv) as (P2 & E2 & Htx2 & _).
      exists P2, m3. split_and!; [done..|]. by eapply in_tx_ext. }
  destruct (decide (r = Val tt)) as [Hrt|Hrt]; [|destruct He3 as [He3|He3]].
  - destruct (Hnew (Hr3 (Hr Hrt))) as (P2 & m2 & ? & ? & ?). exists P2, m2. auto.
  - destruct (Hold He3 Hrt) as (P2 & m2 & ? & ?). exists P2, m2. auto.
  - destruct (Hnew He3) as (P2 & m2 & ? & ? & ?). exists P2, m2. auto.
Qed.
