(* ===== verification/PagerTheorems.v ===== *)
(** * What the pager guarantees

    Transactions on pages: atomic under power loss, visible to their own
    reads, durable after a commit, gone after a rollback; and the allocator
    that never hands out a page in use. *)

From stdpp Require Import gmap.
From S2P Require Import Prelude Types Block Journal JournalFacts JournalCrash Durability Pager.
From S2P Require Import PagerFacts.
Import Journal.

(** ** A sample volume for the instances *)

Definition vol_n : Z := 8 * 2060.
Definition vol_sb : Superblock.t := Superblock.mk 2060 2051 0 0 1.
Definition vol_m : medium := put_page (fun _ => zeros SECTOR) 0 (Superblock.encode vol_sb).

Lemma vol_disk_ok : disk vol_n vol_m.
Proof.
  split; [done|]. apply put_pages_sized; [by intros l _|apply SuperblockFacts.encode_length].
Qed.

Lemma vol_wf : SuperblockFacts.wf vol_sb.
Proof. by split_and!. Qed.

Lemma vol_volume : volume vol_n vol_m vol_sb.
Proof.
  split; [apply vol_disk_ok| |done| |apply vol_wf|done].
  - left. unfold vol_m. rewrite put_page_out by lia. vm_compute. discriminate.
  - apply page_of_put_page, SuperblockFacts.encode_length.
Qed.

(** A transaction that has staged data page 2050. *)
Definition vol_pager_on {D} (d : D) : Pager.t D := Pager.mk d vol_sb {[2050 := filled 2]} ∅.
Definition vol_pager : Pager.t SteadyDisk.t := vol_pager_on (SteadyDisk.mk vol_n vol_m).
Definition vol_view : view :=
  mk_view vol_sb (fun q => if q =? 2050 then filled 2 else page_of vol_m q) {[2050]}.

Lemma vol_in_tx_on {D} `{!BlockDevice D, !DeviceLaws D} (d : D) : intact vol_n vol_m d ->
  in_tx vol_n vol_m (vol_pager_on d) vol_view.
Proof.
  intros Hd. split; cbn -[page_of filled].
  - exact Hd.
  - done.
  - intros q img [<- <-]%lookup_singleton_Some. split; [|apply filled_length].
    unfold home_page, vol_n. slia.
  - intros q img H. by rewrite lookup_empty in H.
  - done.
  - intros q Hq. unfold sees, vol_pager_on; cbn -[page_of filled].
    destruct (Z.eqb_spec q 2050) as [->|Hne]; [by rewrite lookup_singleton_eq|].
    by rewrite lookup_singleton_ne.
  - apply dom_singleton_L.
Qed.

Lemma vol_in_tx : in_tx vol_n vol_m vol_pager vol_view.
Proof. apply vol_in_tx_on, steady_powered, vol_disk_ok. Qed.

Lemma steady_stays : ~ may_lose (D:=SteadyDisk.t).
Proof. by intros ?. Qed.

Lemma vol_dirty : Pager.dirty vol_pager <> ∅.
Proof. apply map_non_empty_singleton. Qed.

Lemma vol_size : Z.of_nat (size (Pager.dirty vol_pager)) < JCAP.
Proof. cbn [Pager.dirty vol_pager vol_pager_on]. rewrite map_size_singleton. slia. Qed.

(** ** Power loss *)

(** C18: a pager transaction is atomic across a power loss and the next mount.
    Whatever operation of [Pager.commit] the power goes at, whatever the
    drive's cache kept, and however often recovery is itself interrupted, the
    next [Pager.mount] succeeds on a valid volume: either the old superblock
    and pages, or the transaction's; and if [commit] had returned [Ok], the
    transaction's. *)
Theorem pager_commit_crash_atomic {D2} `{!BlockDevice D2, !DeviceLaws D2}
    n m s0 (P : Pager.t VolatileDisk.t) v r P1 x y (d2 : D2) :
  in_tx n m P v -> volume n m s0 -> SuperblockFacts.wf (v_sb v) ->
  Superblock.generation (v_sb v) + 1 < 2 ^ 64 ->
  Pager.dirty P <> ∅ -> Z.of_nat (size (Pager.dirty P)) < JCAP ->
  Pager.commit P = (r, P1) ->
  VolatileDisk.survives (Pager.dev P1) x -> failed_recoveries n x y -> powered_on n y d2 ->
  exists P2 m2, Pager.mount d2 = Val P2 /\
    ((volume n m2 s0 /\ in_tx n m2 P2 (at_rest s0 (page_of m)) /\ r <> Val tt) \/
     (volume n m2 (committed_sb (v_sb v)) /\
      in_tx n m2 P2 (at_rest (committed_sb (v_sb v)) (v_page v)))).
Proof. apply commit_crash. Qed.

(** The sample transaction on a drive that loses power after three
    operations. *)
Definition dying_pager : Pager.t VolatileDisk.t := vol_pager_on (drive vol_n vol_m 3).

Lemma pager_commit_crash_atomic_witness :
  exists P2 m2, Pager.mount (SteadyDisk.mk vol_n vol_m) = Val P2 /\
    ((volume vol_n m2 vol_sb /\ in_tx vol_n m2 P2 (at_rest vol_sb (page_of vol_m)) /\
      (Pager.commit dying_pager).1 <> Val tt) \/
     (volume vol_n m2 (committed_sb vol_sb) /\
      in_tx vol_n m2 P2 (at_rest (committed_sb vol_sb) (v_page vol_view)))).
Proof.
  pose proof (steady_powered vol_n vol_m vol_disk_ok) as Hp.
  assert (Ed : VolatileDisk.durable (Pager.dev (Pager.commit dying_pager).2) = vol_m) by reflexivity.
  refine (pager_commit_crash_atomic (D2:=SteadyDisk.t) vol_n vol_m vol_sb
    dying_pager vol_view _ (Pager.commit dying_pager).2 vol_m vol_m _
    (vol_in_tx_on _ (drive_intact _ _ _ vol_disk_ok)) vol_volume vol_wf _ vol_dirty vol_size
    (surjective_pairing _) _ (no_more _ _) Hp).
  - reflexivity.
  - intros l. left. exact (f_equal (fun f => f l) (eq_sym Ed)).
Defined.

(** ** Transactions without a power loss *)

(** A commit that fits the journal succeeds, is durable and keeps what the
    transaction saw: mounting the device again gives the committed superblock
    and every data page as the transaction saw it, and so does the pager
    itself, its cache included. *)
Theorem pager_commit_durable {D} `{!BlockDevice D, !DeviceLaws D} n m s0 (P : Pager.t D) v :
  ~ may_lose (D:=D) -> in_tx n m P v -> volume n m s0 -> SuperblockFacts.wf (v_sb v) ->
  Superblock.generation (v_sb v) + 1 < 2 ^ 64 ->
  Pager.dirty P <> ∅ -> Z.of_nat (size (Pager.dirty P)) < JCAP ->
  let v' := at_rest (committed_sb (v_sb v)) (v_page v) in
  exists P' m', Pager.commit P = (Val tt, P') /\ volume n m' (v_sb v') /\ in_tx n m' P' v' /\
    Pager.dirty P' = ∅ /\
    exists P2, Pager.mount (Pager.dev P') = Val P2 /\ in_tx n m' P2 v' /\ Pager.dirty P2 = ∅.
Proof.
  intros Hl Htx Hvol Hwf Hg Hne Hsz v'.
  destruct (commit_spec n m P v s0 Hl Htx Hvol Hwf Hg Hne Hsz) as (P' & m' & E & Hv & Htx' & Hd & Hpg).
  exists P', m'. split_and!; [done..|].
  destruct (powered_recover_idle n m' (Pager.dev P')) as (d3 & E3 & Hp3).
  { split; [done|apply Htx']. } { pose proof (vol_room _ _ _ Hv). slia. } { apply Hv. }
  destruct (mount_after n m' _ (Pager.dev P') d3 false E3 Hp3 Hv) as (P2 & E2 & Htx2 & Hd2).
  exists P2. split_and!; [done| |done]. by eapply in_tx_ext.
Qed.

Lemma pager_commit_durable_witness :
  exists P' m', Pager.commit vol_pager = (Val tt, P') /\
    volume vol_n m' (committed_sb vol_sb) /\
    in_tx vol_n m' P' (at_rest (committed_sb vol_sb) (v_page vol_view)) /\
    Pager.dirty P' = ∅ /\
    exists P2, Pager.mount (Pager.dev P') = Val P2 /\
      in_tx vol_n m' P2 (at_rest (committed_sb vol_sb) (v_page vol_view)) /\ Pager.dirty P2 = ∅.
Proof.
  apply (pager_commit_durable vol_n vol_m vol_sb vol_pager vol_view
    steady_stays vol_in_tx vol_volume vol_wf ltac:(done) vol_dirty vol_size).
Defined.

(** C19: a transaction of more pages than the journal holds is refused with
    [OutOfSpace] and changes nothing. *)
Theorem pager_commit_bounded {D} `{!BlockDevice D, !DeviceLaws D} n m s0 (P : Pager.t D) v :
  in_tx n m P v -> volume n m s0 -> Superblock.generation (v_sb v) + 1 < 2 ^ 64 ->
  JCAP <= Z.of_nat (size (Pager.dirty P)) ->
  exists P', Pager.commit P = (Fail OutOfSpace, P') /\ in_tx n m P' v.
Proof. apply commit_too_big. Qed.

(** A transaction of as many pages as the journal has room for. *)
Definition big_dirty : gmap Z bytes := gset_to_gmap (filled 2) (list_to_set (seqZ 2049 2044)).
Definition big_n : Z := 8 * 5000.

Lemma big_dirty_home q img : big_dirty !! q = Some img -> home_page big_n q /\ len img = PAGE.
Proof.
  intros [Hq <-]%lookup_gset_to_gmap_Some. apply elem_of_list_to_set, elem_of_seqZ in Hq.
  split; [|apply filled_length]. unfold home_page. change (big_n / 8) with 5000. slia.
Qed.
Lemma big_size : JCAP <= Z.of_nat (size big_dirty).
Proof.
  unfold big_dirty. rewrite <- size_dom, dom_gset_to_gmap, size_list_to_set by apply NoDup_seqZ.
  rewrite length_seqZ. change JCAP with 2044. lia.
Qed.

Definition big_sb : Superblock.t := Superblock.mk 5000 4500 0 0 1.
Definition big_m : medium := put_page (fun _ => zeros SECTOR) 0 (Superblock.encode big_sb).
Definition big_pager : Pager.t SteadyDisk.t :=
  Pager.mk (SteadyDisk.mk big_n big_m) big_sb big_dirty ∅.
Definition big_view : view :=
  mk_view big_sb (fun q => sees (D:=SteadyDisk.t) big_m big_pager q) (dom big_dirty).

Lemma pager_commit_bounded_witness :
  exists P', Pager.commit big_pager = (Fail OutOfSpace, P') /\ in_tx big_n big_m P' big_view.
Proof.
  assert (Hd : disk big_n big_m).
  { split; [done|]. apply put_pages_sized; [by intros l _|apply SuperblockFacts.encode_length]. }
  assert (Hv : volume big_n big_m big_sb).
  { split; [exact Hd| |done| |by split_and!|done].
    - left. unfold big_m. rewrite put_page_out by lia. vm_compute. discriminate.
    - apply page_of_put_page, SuperblockFacts.encode_length. }
  apply (pager_commit_bounded big_n big_m big_sb big_pager big_view);
    [|exact Hv|reflexivity|exact big_size].
  split.
  - apply steady_powered, Hd.
  - reflexivity.
  - exact big_dirty_home.
  - intros q img H. cbn in H. by rewrite lookup_empty in H.
  - reflexivity.
  - intros q _. reflexivity.
  - reflexivity.
Defined.

(** Rollback forgets the transaction: the pager sees the committed
    superblock and pages again, whatever had been staged, allocated or freed. *)
Theorem pager_rollback_restores {D} `{!BlockDevice D, !DeviceLaws D} n m s0 (P : Pager.t D) v :
  ~ may_lose (D:=D) -> in_tx n m P v -> volume n m s0 ->
  exists P', Pager.rollback P = (Val tt, P') /\ in_tx n m P' (at_rest s0 (page_of m)) /\
    Pager.dirty P' = ∅.
Proof. apply rollback_spec. Qed.

Lemma pager_rollback_restores_witness :
  exists P', Pager.rollback vol_pager = (Val tt, P') /\
    in_tx vol_n vol_m P' (at_rest vol_sb (page_of vol_m)) /\ Pager.dirty P' = ∅.
Proof. apply (pager_rollback_restores vol_n vol_m vol_sb vol_pager vol_view
  steady_stays vol_in_tx vol_volume). Defined.

(** ** Reads, writes and the allocator *)

(** A transaction reads its own writes.  After a page is written, reading
    it gives the new image, from the write buffer, and reading any other data
    page gives what it gave before, from the buffer, the cache or the disk. *)
Theorem pager_read_your_writes {D} `{!BlockDevice D, !DeviceLaws D} n m (P : Pager.t D) v q img p :
  ~ may_lose (D:=D) -> in_tx n m P v -> home_page n q -> home_page n p -> len img = PAGE ->
  exists P', (_ ← Pager.write_page q img; Pager.read_page p) P =
      (Val (if p =? q then img else v_page v p), P') /\
    in_tx n m P' (view_upd v q img).
Proof.
  intros Hl Htx Hq Hp Hi.
  assert (H : pwp n m v (_ ← Pager.write_page q img; Pager.read_page p)
    (fun r v' => r = Val (if p =? q then img else v_page v p) /\ v' = view_upd v q img)).
  { apply pwp_bind, pwp_write_page; [done..|]. apply pwp_read_page; [done|]. by intros _. }
  destruct (pwp_powered _ _ _ _ _ _ Hl H Htx) as (r & P' & v' & E & Htx' & -> & ->). by exists P'.
Qed.

Lemma pager_read_your_writes_witness :
  exists P', (_ ← Pager.write_page 2051 (filled 7); Pager.read_page 2050) vol_pager =
      (Val (filled 2), P') /\ in_tx vol_n vol_m P' (view_upd vol_view 2051 (filled 7)).
Proof.
  apply (pager_read_your_writes vol_n vol_m vol_pager vol_view 2051 (filled 7) 2050 steady_stays vol_in_tx);
    [done|done|apply filled_length].
Defined.

(** C20: the allocator never hands out a page in use.  With [l] the free list,
    a page allocated is a data page that was free or never used, is not on
    the list any more, reads as zeros, and no other page changes; the pages
    the volume uses ([used], off the list and below the high-water mark) stay
    disjoint from the free list.  Allocation fails only on a full volume. *)
Theorem pager_alloc_fresh {D} `{!BlockDevice D, !DeviceLaws D} n m (P : Pager.t D) v l
    (used : gset Z) :
  ~ may_lose (D:=D) -> in_tx n m P v -> free_list n v l ->
  (forall p, p ∈ used -> p < Superblock.hwm (v_sb v) /\ p ∉ l) ->
  (exists q P' v' l', Pager.alloc_page P = (Val q, P') /\ in_tx n m P' v' /\ free_list n v' l' /\
     home_page n q /\ q ∉ used /\ v_page v' q = zeroed_page /\
     (forall p, p <> q -> v_page v' p = v_page v p) /\
     (forall p, p ∈ ({[q]} ∪ used) -> p < Superblock.hwm (v_sb v') /\ p ∉ l')) \/
  (l = [] /\ Superblock.hwm (v_sb v) = n / 8 /\
   exists P', Pager.alloc_page P = (Fail OutOfSpace, P') /\ in_tx n m P' v).
Proof.
  intros Hlose Htx Hfl Hused.
  assert (H : pwp n m v Pager.alloc_page (fun r v' =>
    (exists q l', r = Val q /\ free_list n v' l' /\
       home_page n q /\ q ∉ used /\ v_page v' q = zeroed_page /\
       (forall p, p <> q -> v_page v' p = v_page v p) /\
       (forall p, p ∈ ({[q]} ∪ used) -> p < Superblock.hwm (v_sb v') /\ p ∉ l')) \/
    (r = Fail OutOfSpace /\ v' = v /\ l = [] /\ Superblock.hwm (v_sb v) = n / 8))).
  { apply (pwp_alloc_page n m v l); [done| |auto].
    intros q l' v' Hq Hfl' Hql Hl Hz Hsame Hlt Hle _ _ _. left. exists q, l'.
    assert (Hqu : q ∉ used).
    { intros Hin. destruct (Hused q Hin) as [? Hnot].
      destruct Hl as [->|(_ & _ & ->)]; [apply Hnot; left|lia]. }
    split_and!; try done.
    intros p [->%elem_of_singleton|Hin]%elem_of_union; [done|].
    destruct (Hused p Hin) as [? Hnot]. split; [lia|]. intros Hp. apply Hnot.
    destruct Hl as [->|(-> & -> & _)]; [by right|done]. }
  destruct (pwp_powered _ _ _ _ _ _ Hlose H Htx) as (r & P' & v' & E & Htx' & [(q & l' & -> & H1 & H2 & H3 & H4 & H5 & H6)|(-> & -> & ? & ?)]).
  - left. exists q, P', v', l'. by split_and!.
  - right. split_and!; [done..|]. by exists P'.
Qed.

Lemma vol_free_list : free_list vol_n vol_view [].
Proof. split; cbn; try done; try constructor; unfold vol_n; slia. Qed.

Lemma pager_alloc_fresh_witness :
  (exists q P' v' l', Pager.alloc_page vol_pager = (Val q, P') /\
     in_tx vol_n vol_m P' v' /\ free_list vol_n v' l' /\
     home_page vol_n q /\ q ∉ ({[2049; 2050]} : gset Z) /\ v_page v' q = zeroed_page /\
     (forall p, p <> q -> v_page v' p = v_page vol_view p) /\
     (forall p, p ∈ ({[q]} ∪ {[2049; 2050]} : gset Z) ->
        p < Superblock.hwm (v_sb v') /\ p ∉ l')) \/
  (([] : list Z) = [] /\ Superblock.hwm (v_sb vol_view) = vol_n / 8 /\
   exists P', Pager.alloc_page vol_pager = (Fail OutOfSpace, P') /\ in_tx vol_n vol_m P' vol_view).
Proof.
  apply (pager_alloc_fresh vol_n vol_m vol_pager vol_view [] {[2049; 2050]}
    steady_stays vol_in_tx vol_free_list).
  intros p [->%elem_of_singleton| ->%elem_of_singleton]%elem_of_union; (split; [done|apply not_elem_of_nil]).
Defined.

(** Formatting a device of more than 2050 pages gives a mountable empty
    volume: journal idle, nothing free, nothing used. *)
Theorem pager_format_ok {D} `{!BlockDevice D, !DeviceLaws D} n m (d : D) :
  powered_on n m d -> FIRST_DATA_PAGE + 1 < n / 8 ->
  exists P m', Pager.format d = Val P /\ volume n m' (fresh_sb n) /\
    in_tx n m' P (at_rest (fresh_sb n) (page_of m')) /\ Pager.dirty P = ∅ /\
    free_list n (at_rest (fresh_sb n) (page_of m')) [].
Proof. apply format_spec. Qed.

Lemma pager_format_ok_witness :
  exists P m', Pager.format (blank vol_n) = Val P /\ volume vol_n m' (fresh_sb vol_n) /\
    in_tx vol_n m' P (at_rest (fresh_sb vol_n) (page_of m')) /\ Pager.dirty P = ∅ /\
    free_list vol_n (at_rest (fresh_sb vol_n) (page_of m')) [].
Proof.
  apply (pager_format_ok vol_n (MemBlockDevice.sector_at (blank vol_n)) (blank vol_n));
    [by apply blank_powered|done].
Defined.

(** The superblock reads back from its page, and any other page is
    refused or read without an abort. *)
Theorem superblock_roundtrip s p : SuperblockFacts.wf s -> len p = PAGE ->
  Superblock.decode (Superblock.encode s) = Val s /\ len (Superblock.encode s) = PAGE /\
  no_abort (Superblock.decode p).
Proof.
  intros Hs Hp. split_and!.
  - by apply SuperblockFacts.decode_encode.
  - apply SuperblockFacts.encode_length.
  - by apply SuperblockFacts.decode_total.
Qed.

Lemma superblock_roundtrip_witness :
  Superblock.decode (Superblock.encode vol_sb) = Val vol_sb /\
  len (Superblock.encode vol_sb) = PAGE /\ no_abort (Superblock.decode (filled 3)).
Proof. apply (superblock_roundtrip vol_sb (filled 3) vol_wf (filled_length 3)). Defined.
