(* ===== verification/Store.v ===== *)
(** * The relational store

    [tablestore/src/store.rs]: blob chains, the catalog, index chains and
    every operation of [Store], over the pager.  A loop that follows page links
    has as fuel one more than the pages of the volume: a chain without a cycle
    is shorter, and the code loops for ever on a cycle. *)

From stdpp Require Import gmap.
From S2P Require Import Prelude Types Value Codec Schema Block Journal Pager.

Module Store.

Definition CHAIN_HDR : Z := 16.
Definition CHAIN_CAP : Z := Journal.PAGE - CHAIN_HDR.
Definition IDX_HDR : Z := 16.
Definition IDX_CAP : Z := (Journal.PAGE - IDX_HDR) / 8.

Module RowId.
Record t := mk { index_page : Z; slot : Z }.
#[global] Instance t_eq_dec : EqDecision t.
Proof. solve_decision. Defined.
End RowId.

Module TableInfo.
Record t := mk { name : bytes; columns : Z; rows : Z }.
End TableInfo.

Module CatEntry.
Record t := mk { name : bytes; schema_head : Z; data_head : Z; row_count : Z }.
#[global] Instance t_eq_dec : EqDecision t.
Proof. solve_decision. Defined.
Definition set_schema_head (h : Z) (e : t) : t := mk (name e) h (data_head e) (row_count e).
Definition set_row_count (c : Z) (e : t) : t := mk (name e) (schema_head e) (data_head e) c.
End CatEntry.

Definition rd_u64 (b : bytes) (o : Z) : Result Z := Journal.get_u64 b o.
Definition wr_u64 (b : bytes) (o v : Z) : Result bytes := Journal.put_u64 b o v.

(** [row.get(i).cloned().flatten()] *)
Definition cell_at (row : list cell) (i : nat) : cell :=
  match row !! i with Some c => c | None => None end.

(** [format!("table '{name}'")] and the like. *)
Definition quoted (what n : bytes) : bytes := what ++ str " '" ++ n ++ str "'".

(** ** Edits of a schema

    The closures that the operations on schemas hand to [put_schema]. *)

Definition with_columns (cols : list Column.t) (t : Table.t) : Table.t :=
  Table.mk (Table.name t) cols (Table.fks t) (Table.ref_cols t).

Definition with_new_column (col : Column.t) (t : Table.t) : Result Table.t :=
  match Table.column t (Column.name col) with
  | Some _ => Fail (Duplicate (quoted (str "column") (Column.name col)))
  | None => mret (with_columns (Table.columns t ++ [col]) t)
  end.

Definition without_column (idx : nat) (col : bytes) (t : Table.t) : Result Table.t :=
  _ ← or_panic (Table.columns t !! idx);
  mret (Table.mk (Table.name t) (delete idx (Table.columns t)) (Table.fks t)
          (List.filter (fun n => negb (str_eqb n col)) (Table.ref_cols t))).

(** [l.insert(i, x)]: aborts past the end. *)
Definition insert_at {A} (i : nat) (x : A) (l : list A) : Result (list A) :=
  if (i <=? length l)%nat then Val (take i l ++ x :: drop i l) else Panic.

(** The old position of each new one. *)
Definition move_perm (n old new_index : nat) : Result (list nat) :=
  let order := seq 0 n in
  v ← or_panic (order !! old);
  insert_at new_index v (delete old order).

(** [cells[new_i] = original[old_i]] along the permutation. *)
Fixpoint permute_loop (new_i : nat) (perm : list nat) (original cells : list cell) :
    Result (list cell) :=
  match perm with
  | [] => mret cells
  | old_i :: perm' =>
      v ← or_panic (original !! old_i);
      _ ← or_panic (cells !! new_i);
      permute_loop (S new_i) perm' original (<[new_i := v]> cells)
  end.
Definition permute (n : nat) (perm : list nat) (cells : list cell) : Result (list cell) :=
  let cells := resize n None cells in
  permute_loop 0 perm cells cells.

Definition with_moved (old new_index : nat) (t : Table.t) : Result Table.t :=
  c ← or_panic (Table.columns t !! old);
  cols ← insert_at new_index c (delete old (Table.columns t));
  mret (with_columns cols t).

Definition with_unique (ci : nat) (unique : bool) (t : Table.t) : Result Table.t :=
  c ← or_panic (Table.columns t !! ci);
  mret (with_columns (<[ci := Column.mk (Column.name c) (Column.ty c) (Column.nullable c)
                                unique (Column.display_width c)]> (Table.columns t)) t).

Definition with_fk (fk : ForeignKey.t) (t : Table.t) : Result Table.t :=
  mret (Table.mk (Table.name t) (Table.columns t) (Table.fks t ++ [fk]) (Table.ref_cols t)).

Definition without_fk (fk_name : bytes) (t : Table.t) : Result Table.t :=
  let kept := List.filter (fun f => negb (str_eqb (ForeignKey.name f) fk_name)) (Table.fks t) in
  if (length kept =? length (Table.fks t))%nat
  then Fail (NotFound (quoted (str "foreign key") fk_name))
  else mret (Table.mk (Table.name t) (Table.columns t) kept (Table.ref_cols t)).

(** The checks on reference columns: each exists, none occurs twice. *)
Fixpoint check_refs (t : Table.t) (cols seen : list bytes) : Result unit :=
  match cols with
  | [] => mret tt
  | c :: cols' =>
      match Table.column t c with
      | None => Fail (NotFound (quoted (str "column") c))
      | Some _ =>
          if existsb (str_eqb c) seen
          then Fail (Duplicate (quoted (str "reference column") c))
          else check_refs t cols' (seen ++ [c])
      end
  end.

Definition with_ref_cols (cols : list bytes) (t : Table.t) : Result Table.t :=
  _ ← check_refs t cols [];
  mret (Table.mk (Table.name t) (Table.columns t) (Table.fks t) cols).

Definition with_width (col : bytes) (width : option Z) (t : Table.t) : Result Table.t :=
  ci ← ok_or (NotFound (quoted (str "column") col)) (Table.column_index t col);
  c ← or_panic (Table.columns t !! ci);
  mret (with_columns (<[ci := Column.mk (Column.name c) (Column.ty c) (Column.nullable c)
                                (Column.unique c) width]> (Table.columns t)) t).

Section Store.
Context {D : Type} `{!BlockDevice D}.

(** [Store] has one field, the pager. *)
Abbreviation M := (stM (Pager.t D) StoreError) (only parsing).

Definition open (d : D) : Result (Pager.t D) :=
  match Pager.mount d with
  | Fail (Corrupt _) => Fail (Corrupt (str "uninitialised"))
  | r => r
  end.

Definition format (d : D) : Result (Pager.t D) := Pager.format d.

(** Fuel for a walk along page links. *)
Definition with_fuel {A} (f : nat -> M A) : M A := fun p =>
  f (S (Z.to_nat (Superblock.total_pages (Pager.sb p)))) p.

(** ** Blob chains *)

Fixpoint read_chain_loop (fuel : nat) (p : Z) (out : bytes) : M bytes :=
  if p =? 0 then mret out else
  match fuel with
  | O => lift NoFuel
  | S fuel' =>
      page ← Pager.read_page p;
      next ← lift (rd_u64 page 0);
      n ← lift (rd_u64 page 8);
      if CHAIN_CAP <? n then lift (Fail (Corrupt (str "chain length"))) else
      chunk ← lift (slice page CHAIN_HDR (CHAIN_HDR + n));
      read_chain_loop fuel' next (out ++ chunk)
  end.
Definition read_chain (head : Z) : M bytes := with_fuel (fun fuel => read_chain_loop fuel head []).

Definition nchunks (bs : bytes) : Z :=
  match bs with [] => 1 | _ => (len bs + CHAIN_CAP - 1) / CHAIN_CAP end.

(** The page image of the chunk [i]. *)
Definition chunk_image (bs : bytes) (pages : list Z) (n i : Z) : Result bytes :=
  let start := i * CHAIN_CAP in
  let stop := Z.min (start + CHAIN_CAP) (len bs) in
  chunk ← slice bs start stop;
  next ← (if i + 1 <? n then or_panic (nth_z pages (i + 1)) else mret 0);
  img ← wr_u64 zeroed_page 0 next;
  img ← wr_u64 img 8 (len chunk);
  splice img CHAIN_HDR chunk.

Definition write_chain (bs : bytes) : M Z :=
  let n := nchunks bs in
  pages ← for_collect (seqZ 0 n) (fun _ => Pager.alloc_page);
  _ ← for_each (seqZ 0 n) (fun i =>
        img ← lift (chunk_image bs pages n i);
        p ← lift (or_panic (nth_z pages i));
        Pager.write_page p img);
  lift (or_panic (nth_z pages 0)).

Fixpoint free_chain_loop (fuel : nat) (p : Z) : M unit :=
  if p =? 0 then mret tt else
  match fuel with
  | O => lift NoFuel
  | S fuel' =>
      page ← Pager.read_page p;
      next ← lift (rd_u64 page 0);
      _ ← Pager.free_page p;
      free_chain_loop fuel' next
  end.
Definition free_chain (head : Z) : M unit := with_fuel (fun fuel => free_chain_loop fuel head).

(** ** The catalog *)

Definition get_entry : parser CatEntry.t :=
  n ← get_str;
  sh ← get_uvarint;
  dh ← get_uvarint;
  rc ← get_uvarint;
  mret (CatEntry.mk n sh dh rc).

Definition get_catalog : parser (list CatEntry.t) :=
  n ← get_uvarint;
  _ ← plift (with_capacity n);
  get_n n get_entry.

Definition load_catalog : M (list CatEntry.t) :=
  s ← gets Pager.sb;
  let head := Superblock.catalog_head s in
  if head =? 0 then mret [] else
  bs ← read_chain head;
  '(cat, _) ← lift (get_catalog bs 0);
  mret cat.

Definition put_entry (e : CatEntry.t) : bytes :=
  put_str (CatEntry.name e) ++ put_uvarint (CatEntry.schema_head e) ++
  put_uvarint (CatEntry.data_head e) ++ put_uvarint (CatEntry.row_count e).

Definition put_catalog (cat : list CatEntry.t) : bytes :=
  put_uvarint (len cat) ++ concat (put_entry <$> cat).

Definition store_catalog (cat : list CatEntry.t) : M unit :=
  s ← gets Pager.sb;
  let old := Superblock.catalog_head s in
  new ← write_chain (put_catalog cat);
  _ ← Pager.set_sb (Superblock.set_catalog_head new);
  if negb (old =? 0) then free_chain old else mret tt.

Definition cat_index (cat : list CatEntry.t) (name : bytes) : Result nat :=
  ok_or (NotFound (quoted (str "table") name))
    (position (fun e => str_eqb (CatEntry.name e) name) cat).

Definition schema_of (e : CatEntry.t) : M Table.t :=
  bs ← read_chain (CatEntry.schema_head e);
  lift (Table.decode bs).

(** [cat[i]] *)
Definition entry (cat : list CatEntry.t) (i : nat) : M CatEntry.t := lift (or_panic (cat !! i)).

(** ** Index chains *)

(** The slots [s..n] of an index page; reading slot 510 leaves the page. *)
Fixpoint collect_slots (fuel : nat) (p : Z) (page : bytes) (s n : Z)
    (out : list (RowId.t * Z)) : Result (list (RowId.t * Z)) :=
  if n <=? s then mret out else
  match fuel with
  | O => NoFuel
  | S fuel' =>
      head ← rd_u64 page (IDX_HDR + s * 8);
      collect_slots fuel' p page (s + 1) n
        (if negb (head =? 0) then out ++ [(RowId.mk p (as_u32 s), head)] else out)
  end.

Fixpoint index_collect_loop (fuel : nat) (p : Z) (out : list (RowId.t * Z)) :
    M (list (RowId.t * Z)) :=
  if p =? 0 then mret out else
  match fuel with
  | O => lift NoFuel
  | S fuel' =>
      page ← Pager.read_page p;
      next ← lift (rd_u64 page 0);
      n ← lift (rd_u64 page 8);
      out' ← lift (collect_slots (S (Z.to_nat IDX_CAP)) p page 0 n out);
      index_collect_loop fuel' next out'
  end.
Definition index_collect (data_head : Z) : M (list (RowId.t * Z)) :=
  with_fuel (fun fuel => index_collect_loop fuel data_head []).

Fixpoint index_append_loop (fuel : nat) (p row_head : Z) : M RowId.t :=
  match fuel with
  | O => lift NoFuel
  | S fuel' =>
      page ← Pager.read_page p;
      next ← lift (rd_u64 page 0);
      n ← lift (rd_u64 page 8);
      if next =? 0 then
        if n <? IDX_CAP then
          page ← lift (wr_u64 page (IDX_HDR + n * 8) row_head);
          page ← lift (wr_u64 page 8 (n + 1));
          _ ← Pager.write_page p page;
          mret (RowId.mk p (as_u32 n))
        else
          np ← Pager.alloc_page;
          newp ← lift (wr_u64 zeroed_page 8 1);
          newp ← lift (wr_u64 newp IDX_HDR row_head);
          _ ← Pager.write_page np newp;
          page ← lift (wr_u64 page 0 np);
          _ ← Pager.write_page p page;
          mret (RowId.mk np 0)
      else index_append_loop fuel' next row_head
  end.
Definition index_append (data_head row_head : Z) : M RowId.t :=
  with_fuel (fun fuel => index_append_loop fuel data_head row_head).

Definition index_set (index_page slot value : Z) : M unit :=
  page ← Pager.read_page index_page;
  n ← lift (rd_u64 page 8);
  if n <=? slot then lift (Fail (NotFound (str "row"))) else
  page ← lift (wr_u64 page (IDX_HDR + slot * 8) value);
  Pager.write_page index_page page.

Definition row_head_at (id : RowId.t) : M Z :=
  page ← Pager.read_page (RowId.index_page id);
  n ← lift (rd_u64 page 8);
  if n <=? RowId.slot id then lift (Fail (NotFound (str "row"))) else
  h ← lift (rd_u64 page (IDX_HDR + RowId.slot id * 8));
  if h =? 0 then lift (Fail (NotFound (str "row (deleted)"))) else mret h.

Definition row_at (head : Z) : M (list cell) :=
  bs ← read_chain head;
  lift (decode_row bs).

Definition decode_row_fitted (head : Z) (ncols : nat) : M (list cell) :=
  cells ← row_at head;
  mret (resize ncols None cells).

(** ** Transactions *)

Definition tx {R} (f : M R) : M R := fun s =>
  match f s with
  | (Val r, s1) =>
      match Pager.commit s1 with
      | (Val _, s2) => (Val r, s2)
      | (Fail e, s2) =>
          match Pager.rollback s2 with
          | (Val _, s3) | (Fail _, s3) => (Fail e, s3)
          | (Panic, s3) => (Panic, s3)
          | (NoFuel, s3) => (NoFuel, s3)
          end
      | (Panic, s2) => (Panic, s2)
      | (NoFuel, s2) => (NoFuel, s2)
      end
  | (Fail e, s1) =>
      match Pager.rollback s1 with
      | (Val _, s2) | (Fail _, s2) => (Fail e, s2)
      | (Panic, s2) => (Panic, s2)
      | (NoFuel, s2) => (NoFuel, s2)
      end
  | (Panic, s1) => (Panic, s1)
  | (NoFuel, s1) => (NoFuel, s1)
  end.

(** ** Reading *)

Definition list_tables : M (list TableInfo.t) :=
  cat ← load_catalog;
  for_collect cat (fun e =>
    t ← schema_of e;
    mret (TableInfo.mk (CatEntry.name e) (len (Table.columns t)) (CatEntry.row_count e))).

Definition get_table (name : bytes) : M Table.t :=
  cat ← load_catalog;
  i ← lift (cat_index cat name);
  e ← entry cat i;
  schema_of e.

Definition scan (name : bytes) : M (list (RowId.t * list cell)) :=
  cat ← load_catalog;
  i ← lift (cat_index cat name);
  e ← entry cat i;
  t ← schema_of e;
  rows ← index_collect (CatEntry.data_head e);
  for_collect rows (fun '(id, head) =>
    cells ← decode_row_fitted head (length (Table.columns t));
    mret (id, cells)).

Definition get_row (name : bytes) (id : RowId.t) : M (list cell) :=
  cat ← load_catalog;
  i ← lift (cat_index cat name);
  e ← entry cat i;
  t ← schema_of e;
  head ← row_head_at id;
  decode_row_fitted head (length (Table.columns t)).

(** ** Integrity *)

(** The value of a column in a stored row, unfitted. *)
Definition stored_value (head : Z) (col : nat) : M cell :=
  row ← row_at head;
  mret (cell_at row col).

Definition all_values_in (e : CatEntry.t) (col : nat) : M (list cell) :=
  rows ← index_collect (CatEntry.data_head e);
  for_collect rows (fun '(_, head) => stored_value head col).

(** Types and NOT NULL, column by column. *)
Fixpoint check_cells (cols : list Column.t) (cells : list cell) : Result unit :=
  match cols, cells with
  | c :: cols', cell :: cells' =>
      _ ← match cell with
          | None => if negb (Column.nullable c)
                    then Fail (NullViolation (Column.name c)) else mret tt
          | Some v => if negb (bool_decide (Value.type_of v = Column.ty c))
                      then Fail (Parse (quoted (str "column") (Column.name c) ++
                                        str " expects " ++ Ty.name (Column.ty c)))
                      else mret tt
          end;
      check_cells cols' cells'
  | _, _ => mret tt
  end.

(** The UNIQUE check of one column against the stored rows. *)
Definition check_unique (cat : list CatEntry.t) (ti : nat) (ci : nat) (c : Column.t)
    (cells : list cell) (exclude : option RowId.t) : M unit :=
  if negb (Column.unique c) then mret tt else
  cell ← lift (or_panic (cells !! ci));
  match cell with
  | None => mret tt
  | Some v =>
      e ← entry cat ti;
      rows ← index_collect (CatEntry.data_head e);
      for_each rows (fun '(id, head) =>
        if bool_decide (Some id = exclude) then mret tt else
        other ← stored_value head ci;
        if bool_decide (other = Some v) then lift (Fail (UniqueViolation (Column.name c)))
        else mret tt)
  end.

(** Whether a row of the target table holds [v]; stops at the first. *)
Fixpoint fk_exists (rows : list (RowId.t * Z)) (tcol : nat) (self : bool) (cells : list cell)
    (exclude : option RowId.t) (v : Value.t) : M bool :=
  match rows with
  | [] => mret false
  | (rid, head) :: rows' =>
      val ← (if self && bool_decide (Some rid = exclude) then mret (cell_at cells tcol)
             else stored_value head tcol);
      if bool_decide (val = Some v) then mret true
      else fk_exists rows' tcol self cells exclude v
  end.

Definition check_fk (cat : list CatEntry.t) (ti : nat) (t : Table.t) (cells : list cell)
    (exclude : option RowId.t) (fk : ForeignKey.t) : M unit :=
  fi ← lift (ok_or (Corrupt (str "fk source column"))
               (Table.column_index t (ForeignKey.from_col fk)));
  cell ← lift (or_panic (cells !! fi));
  match cell with
  | None => mret tt
  | Some v =>
      tj ← lift (cat_index cat (ForeignKey.to_table fk));
      e ← entry cat tj;
      tt ← schema_of e;
      tcol ← lift (ok_or (Corrupt (str "fk target column"))
                     (Table.column_index tt (ForeignKey.to_col fk)));
      rows ← index_collect (CatEntry.data_head e);
      found ← fk_exists rows tcol (tj =? ti)%nat cells exclude v;
      if negb found then lift (Fail (ForeignKeyViolation (ForeignKey.name fk)))
      else mret Datatypes.tt
  end.

Definition validate (cat : list CatEntry.t) (ti : nat) (t : Table.t) (cells : list cell)
    (exclude : option RowId.t) : M unit :=
  if negb (length cells =? length (Table.columns t))%nat
  then lift (Fail (Parse (str "row has " ++ fmt_u64 (len cells) ++ str " cells, table has " ++
                          fmt_u64 (len (Table.columns t)) ++ str " columns")))
  else
    _ ← lift (check_cells (Table.columns t) cells);
    _ ← for_each (enumerate (Table.columns t)) (fun '(ci, c) =>
          check_unique cat ti ci c cells exclude);
    for_each (Table.fks t) (check_fk cat ti t cells exclude).

(** ** Schema operations *)

Definition create_table_body (name : bytes) : M unit :=
  cat ← load_catalog;
  if existsb (fun e => str_eqb (CatEntry.name e) name) cat
  then lift (Fail (Duplicate (quoted (str "table") name))) else
  schema_head ← write_chain (Table.encode (Table.new name));
  data_head ← write_chain [];
  store_catalog (cat ++ [CatEntry.mk name schema_head data_head 0]).
Definition create_table (name : bytes) : M unit :=
  match name with
  | [] => lift (Fail (SchemaRejected (str "table name is empty")))
  | _ => tx (create_table_body name)
  end.

(** The first table other than [i] with a foreign key to [name] refuses. *)
Definition check_unreferenced (name : bytes) (i : nat) (cat : list CatEntry.t) : M unit :=
  for_each (enumerate cat) (fun '(j, e) =>
    if (j =? i)%nat then mret tt else
    ot ← schema_of e;
    if existsb (fun f => str_eqb (ForeignKey.to_table f) name) (Table.fks ot)
    then lift (Fail (SchemaRejected (quoted (str "table") name ++
           str " is referenced by a foreign key in '" ++ CatEntry.name e ++ str "'")))
    else mret tt).

Definition drop_table_body (name : bytes) : M unit :=
  cat ← load_catalog;
  i ← lift (cat_index cat name);
  _ ← check_unreferenced name i cat;
  e ← entry cat i;
  rows ← index_collect (CatEntry.data_head e);
  _ ← for_each rows (fun '(_, head) => free_chain head);
  _ ← free_chain (CatEntry.data_head e);
  _ ← free_chain (CatEntry.schema_head e);
  store_catalog (delete i cat).
Definition drop_table (name : bytes) : M unit := tx (drop_table_body name).

(** One row of the rewrite of a schema edit. *)
Definition rewrite_row (map : list cell -> Result (list cell)) (id : RowId.t) (head : Z) : M unit :=
  cells ← row_at head;
  cells ← lift (map cells);
  _ ← free_chain head;
  nh ← write_chain (encode_row cells);
  index_set (RowId.index_page id) (RowId.slot id) nh.

Definition put_schema_body (name : bytes) (mutate : Table.t -> Result Table.t)
    (rewrite : option (list cell -> Result (list cell))) : M unit :=
  cat ← load_catalog;
  i ← lift (cat_index cat name);
  e ← entry cat i;
  t ← schema_of e;
  t ← lift (mutate t);
  _ ← match rewrite with
      | None => mret tt
      | Some map =>
          rows ← index_collect (CatEntry.data_head e);
          for_each rows (fun '(id, head) => rewrite_row map id head)
      end;
  let old := CatEntry.schema_head e in
  new ← write_chain (Table.encode t);
  _ ← free_chain old;
  store_catalog (alter (CatEntry.set_schema_head new) i cat).
Definition put_schema (name : bytes) (mutate : Table.t -> Result Table.t)
    (rewrite : option (list cell -> Result (list cell))) : M unit :=
  tx (put_schema_body name mutate rewrite).

Definition add_column (table : bytes) (col : Column.t) : M unit :=
  _ ← (if negb (Column.nullable col) then
         cat ← load_catalog;
         i ← lift (cat_index cat table);
         e ← entry cat i;
         if 0 <? CatEntry.row_count e
         then lift (Fail (SchemaRejected (str
                "table has rows; a new column must be nullable (existing rows receive NULL)")))
         else mret tt
       else mret tt);
  put_schema table (with_new_column col) (Some (fun cells => mret (cells ++ [None]))).

(** Some table of [cat] has a foreign key to [table.col]. *)
Definition refuse_if_targeted (table col : bytes) (cat : list CatEntry.t)
    (why : CatEntry.t -> bytes) : M unit :=
  for_each cat (fun e =>
    ot ← schema_of e;
    if existsb (fun f => str_eqb (ForeignKey.to_table f) table &&
                         str_eqb (ForeignKey.to_col f) col) (Table.fks ot)
    then lift (Fail (SchemaRejected (why e)))
    else mret tt).

Definition drop_column (table col : bytes) : M unit :=
  cat ← load_catalog;
  i ← lift (cat_index cat table);
  e ← entry cat i;
  t ← schema_of e;
  idx ← lift (ok_or (NotFound (quoted (str "column") col)) (Table.column_index t col));
  if existsb (fun f => str_eqb (ForeignKey.from_col f) col) (Table.fks t)
  then lift (Fail (SchemaRejected (quoted (str "column") col ++ str " carries a foreign key"))) else
  _ ← refuse_if_targeted table col cat (fun e =>
        quoted (str "column") col ++ str " is targeted by a foreign key in '" ++
        CatEntry.name e ++ str "'");
  put_schema table (without_column idx col) (Some (fun cells =>
       mret (if (idx <? length cells)%nat then delete idx cells else cells))).

Definition move_column (table col : bytes) (new_index : nat) : M unit :=
  cat ← load_catalog;
  i ← lift (cat_index cat table);
  e ← entry cat i;
  t ← schema_of e;
  let n := length (Table.columns t) in
  old ← lift (ok_or (NotFound (quoted (str "column") col)) (Table.column_index t col));
  if (n <=? new_index)%nat
  then lift (Fail (SchemaRejected (str "new column index " ++ fmt_u64 (Z.of_nat new_index) ++
              str " out of range (0.." ++ fmt_u64 (Z.of_nat n) ++ str ")"))) else
  if (new_index =? old)%nat then mret tt else
  perm ← lift (move_perm n old new_index);
  put_schema table (with_moved old new_index) (Some (permute n perm)).

Definition rename_str (old new n : bytes) : bytes := if str_eqb n old then new else n.

(** The schema of a table after the rename, and whether it changed; [owns]:
    it is the table whose column is renamed. *)
Definition rename_in (table old new : bytes) (owns : bool) (t : Table.t) : Table.t * bool :=
  let col (c : Column.t) :=
    Column.mk (rename_str old new (Column.name c)) (Column.ty c) (Column.nullable c)
      (Column.unique c) (Column.display_width c) in
  let fk (f : ForeignKey.t) :=
    let from := if owns then rename_str old new (ForeignKey.from_col f) else ForeignKey.from_col f in
    let to := if str_eqb (ForeignKey.to_table f) table
              then rename_str old new (ForeignKey.to_col f) else ForeignKey.to_col f in
    ForeignKey.mk (ForeignKey.name f) from (ForeignKey.to_table f) to in
  let changed :=
    (owns && (existsb (fun c => str_eqb (Column.name c) old) (Table.columns t) ||
              existsb (fun rc => str_eqb rc old) (Table.ref_cols t))) ||
    existsb (fun f => (owns && str_eqb (ForeignKey.from_col f) old) ||
      (str_eqb (ForeignKey.to_table f) table && str_eqb (ForeignKey.to_col f) old)) (Table.fks t) in
  (Table.mk (Table.name t)
     (if owns then col <$> Table.columns t else Table.columns t)
     (fk <$> Table.fks t)
     (if owns then rename_str old new <$> Table.ref_cols t else Table.ref_cols t),
   changed).

(** The loop over the catalog, which it updates. *)
Fixpoint rename_loop (table old new : bytes) (idxs : list nat) (cat : list CatEntry.t) :
    M (list CatEntry.t) :=
  match idxs with
  | [] => mret cat
  | idx :: idxs' =>
      e ← entry cat idx;
      ot ← schema_of e;
      let '(ot', changed) :=
        rename_in table old new (str_eqb (CatEntry.name e) table) ot in
      if changed : bool then
        let old_head := CatEntry.schema_head e in
        nh ← write_chain (Table.encode ot');
        _ ← free_chain old_head;
        rename_loop table old new idxs' (alter (CatEntry.set_schema_head nh) idx cat)
      else rename_loop table old new idxs' cat
  end.

Definition rename_column (table old new : bytes) : M unit :=
  match new with
  | [] => lift (Fail (SchemaRejected (str "column name is empty")))
  | _ =>
    if str_eqb old new then mret tt else
    tx (cat ← load_catalog;
        i ← lift (cat_index cat table);
        e ← entry cat i;
        t ← schema_of e;
        match Table.column t old, Table.column t new with
        | None, _ => lift (Fail (NotFound (quoted (str "column") old)))
        | Some _, Some _ => lift (Fail (Duplicate (quoted (str "column") new)))
        | Some _, None =>
            cat' ← rename_loop table old new (seq 0 (length cat)) cat;
            store_catalog cat'
        end)
  end.

(** Some non-NULL value occurs twice. *)
Fixpoint has_duplicate (vals : list cell) (seen : list Value.t) : bool :=
  match vals with
  | [] => false
  | None :: vals' => has_duplicate vals' seen
  | Some v :: vals' =>
      if existsb (fun w => bool_decide (w = v)) seen then true
      else has_duplicate vals' (seen ++ [v])
  end.

Definition set_unique (table col : bytes) (unique : bool) : M unit :=
  cat ← load_catalog;
  i ← lift (cat_index cat table);
  e ← entry cat i;
  t ← schema_of e;
  ci ← lift (ok_or (NotFound (quoted (str "column") col)) (Table.column_index t col));
  _ ← (if negb unique then
         refuse_if_targeted table col cat (fun _ =>
           str "'" ++ col ++ str "' is a foreign-key target and must stay UNIQUE")
       else
         vals ← all_values_in e ci;
         if has_duplicate vals []
         then lift (Fail (SchemaRejected (quoted (str "column") col ++
                            str " already contains duplicate values")))
         else mret tt);
  put_schema table (with_unique ci unique) None.

(** The first free name among [base], [{from_col}_fk2], [{from_col}_fk3]...;
    one more try than there are names always finds one.  [n] is an [i32]. *)
Fixpoint fk_name_loop (fuel : nat) (from_col base : bytes) (existing : list bytes) (n : Z) :
    Result bytes :=
  if negb (existsb (str_eqb base) existing) then mret base else
  match fuel with
  | O => NoFuel
  | S fuel' =>
      n' ← add_i32 n 1;
      fk_name_loop fuel' from_col (from_col ++ str "_fk" ++ fmt_u64 n) existing n'
  end.
Definition fk_name (from_col : bytes) (existing : list bytes) : Result bytes :=
  fk_name_loop (S (length existing)) from_col (from_col ++ str "_fk") existing 2.

(** The first value of [vals] with no match among [targets]. *)
Definition unmatched (targets vals : list cell) : option Value.t :=
  head (List.filter (fun v => negb (existsb (fun x => bool_decide (x = Some v)) targets))
                    (omap id vals)).

Definition add_fk (table from_col to_table to_col : bytes) : M unit :=
  cat ← load_catalog;
  i ← lift (cat_index cat table);
  e ← entry cat i;
  t ← schema_of e;
  fc ← lift (ok_or (NotFound (quoted (str "column") from_col)) (Table.column t from_col));
  j ← lift (cat_index cat to_table);
  te ← entry cat j;
  tt ← schema_of te;
  tc ← lift (ok_or (NotFound (quoted (str "column") (to_table ++ str "." ++ to_col)))
               (Table.column tt to_col));
  if negb (Column.unique tc)
  then lift (Fail (SchemaRejected (quoted (str "foreign-key target") (to_table ++ str "." ++ to_col)
              ++ str " must be UNIQUE"))) else
  if negb (bool_decide (Column.ty fc = Column.ty tc))
  then lift (Fail (SchemaRejected (str "foreign-key column and target must share a type"))) else
  tci ← lift (or_panic (Table.column_index tt to_col));
  targets ← all_values_in te tci;
  fci ← lift (or_panic (Table.column_index t from_col));
  vals ← all_values_in e fci;
  match unmatched targets vals with
  | Some v => lift (Fail (SchemaRejected (str "existing value " ++ Value.display v ++
                str " has no match in " ++ to_table ++ str "." ++ to_col)))
  | None =>
      name ← lift (fk_name from_col (ForeignKey.name <$> Table.fks t));
      put_schema table (with_fk (ForeignKey.mk name from_col to_table to_col)) None
  end.

Definition drop_fk (table fk_name : bytes) : M unit :=
  put_schema table (without_fk fk_name) None.

Definition set_reference_columns (table : bytes) (cols : list bytes) : M unit :=
  put_schema table (with_ref_cols cols) None.

Definition set_display_width (table col : bytes) (width : option Z) : M unit :=
  put_schema table (with_width col width) None.

(** ** Data operations *)

(** The closures the data operations hand to [tx], then the operations. *)
Definition insert_body (table : bytes) (cells : list cell) : M RowId.t :=
  cat ← load_catalog;
  i ← lift (cat_index cat table);
  e ← entry cat i;
  t ← schema_of e;
  _ ← validate cat i t cells None;
  head ← write_chain (encode_row cells);
  id ← index_append (CatEntry.data_head e) head;
  n ← lift (add_u64 (CatEntry.row_count e) 1);
  _ ← store_catalog (alter (CatEntry.set_row_count n) i cat);
  mret id.
Definition insert (table : bytes) (cells : list cell) : M RowId.t := tx (insert_body table cells).

(** No live row other than [(i, id)] of the table [e], schema [ot], holds
    [key] in a foreign key [fk]. *)
Definition check_no_reference (j : nat) (e : CatEntry.t) (fk : ForeignKey.t) (fci : nat)
    (key : Value.t) (i : nat) (id : RowId.t) : M unit :=
  rows ← index_collect (CatEntry.data_head e);
  for_each rows (fun '(rid, rh) =>
    if (j =? i)%nat && bool_decide (rid = id) then mret tt else
    v ← stored_value rh fci;
    if bool_decide (v = Some key)
    then lift (Fail (ForeignKeyViolation (ForeignKey.name fk)))
    else mret tt).

(** The restriction on inbound references, shared by update and delete:
    [key_of tci] is the key that must not be referenced any more, if any. *)
Definition restrict (cat : list CatEntry.t) (table : bytes) (t : Table.t) (i : nat) (id : RowId.t)
    (key_of : nat -> option Value.t) : M unit :=
  for_each (enumerate cat) (fun '(j, e) =>
    ot ← schema_of e;
    for_each (Table.fks ot) (fun fk =>
      if negb (str_eqb (ForeignKey.to_table fk) table) then mret tt else
      tci ← lift (or_panic (Table.column_index t (ForeignKey.to_col fk)));
      match key_of tci with
      | None => mret tt
      | Some key =>
          fci ← lift (or_panic (Table.column_index ot (ForeignKey.from_col fk)));
          check_no_reference j e fk fci key i id
      end)).

Definition update_body (table : bytes) (id : RowId.t) (cells : list cell) : M unit :=
  cat ← load_catalog;
  i ← lift (cat_index cat table);
  e ← entry cat i;
  t ← schema_of e;
  _ ← validate cat i t cells (Some id);
  old ← row_head_at id;
  old_row ← decode_row_fitted old (length (Table.columns t));
  _ ← restrict cat table t i id (fun tci =>
        match cell_at old_row tci with
        | None => None
        | Some old_key => if bool_decide (cell_at cells tci = Some old_key) then None
                          else Some old_key
        end);
  new ← write_chain (encode_row cells);
  _ ← index_set (RowId.index_page id) (RowId.slot id) new;
  free_chain old.
Definition update (table : bytes) (id : RowId.t) (cells : list cell) : M unit :=
  tx (update_body table id cells).

Definition delete_body (table : bytes) (id : RowId.t) : M unit :=
  cat ← load_catalog;
  i ← lift (cat_index cat table);
  e ← entry cat i;
  t ← schema_of e;
  head ← row_head_at id;
  row ← decode_row_fitted head (length (Table.columns t));
  _ ← restrict cat table t i id (cell_at row);
  _ ← free_chain head;
  _ ← index_set (RowId.index_page id) (RowId.slot id) 0;
  store_catalog (alter (fun e => CatEntry.set_row_count
                              (Z.max 0 (CatEntry.row_count e - 1)) e) i cat).
Definition delete_row (table : bytes) (id : RowId.t) : M unit := tx (delete_body table id).

(** ** Relationship navigation *)

(** The rows of a list whose column [ci] holds [key], fitted to [ncols]. *)
Fixpoint rows_with (rows : list (RowId.t * Z)) (ncols ci : nat) (key : Value.t) :
    M (list (RowId.t * list cell)) :=
  match rows with
  | [] => mret []
  | (rid, rh) :: rows' =>
      row ← decode_row_fitted rh ncols;
      more ← rows_with rows' ncols ci key;
      mret (if bool_decide (cell_at row ci = Some key) then (rid, row) :: more else more)
  end.

Definition follow_fk (table : bytes) (id : RowId.t) (fk_name : bytes) :
    M (bytes * list (RowId.t * list cell)) :=
  cat ← load_catalog;
  i ← lift (cat_index cat table);
  e ← entry cat i;
  t ← schema_of e;
  fk ← lift (ok_or (NotFound (quoted (str "foreign key") fk_name))
               (List.find (fun f => str_eqb (ForeignKey.name f) fk_name) (Table.fks t)));
  fci ← lift (or_panic (Table.column_index t (ForeignKey.from_col fk)));
  head ← row_head_at id;
  row ← decode_row_fitted head (length (Table.columns t));
  match cell_at row fci with
  | None => mret (ForeignKey.to_table fk, [])
  | Some key =>
      j ← lift (cat_index cat (ForeignKey.to_table fk));
      te ← entry cat j;
      tt ← schema_of te;
      tci ← lift (or_panic (Table.column_index tt (ForeignKey.to_col fk)));
      rows ← index_collect (CatEntry.data_head te);
      matches ← rows_with rows (length (Table.columns tt)) tci key;
      mret (ForeignKey.to_table fk, matches)
  end.

Definition referencing_rows (table : bytes) (id : RowId.t) :
    M (list (bytes * bytes * RowId.t * list cell)) :=
  cat ← load_catalog;
  i ← lift (cat_index cat table);
  e ← entry cat i;
  t ← schema_of e;
  head ← row_head_at id;
  row ← decode_row_fitted head (length (Table.columns t));
  found ← for_collect cat (fun e =>
    ot ← schema_of e;
    per_fk ← for_collect (Table.fks ot) (fun fk =>
      if negb (str_eqb (ForeignKey.to_table fk) table) then mret [] else
      tci ← lift (or_panic (Table.column_index t (ForeignKey.to_col fk)));
      match cell_at row tci with
      | None => mret []
      | Some key =>
          fci ← lift (or_panic (Table.column_index ot (ForeignKey.from_col fk)));
          rows ← index_collect (CatEntry.data_head e);
          matches ← rows_with rows (length (Table.columns ot)) fci key;
          mret ((fun '(rid, orow) => (CatEntry.name e, ForeignKey.name fk, rid, orow)) <$> matches)
      end);
    mret (concat per_fk));
  mret (concat found).

Definition sync : M unit := Pager.on_dev flush.

Definition generation (p : Pager.t D) : Z := Superblock.generation (Pager.sb p).

End Store.
End Store.
