(* ===== verification/Database.v ===== *)
(** * The database a store promises

    The abstract specification of [tablestore/src/store.rs]: a database is a
    list of tables, a table a schema and rows in the slots of numbered pages.
    The operations are pure functions; [integrity] is what they keep: distinct
    names, typed rows, unique columns, references that resolve. *)

From stdpp Require Import gmap.
From S2P Require Import Prelude Types Value ValueFacts Codec Schema Store.
Import Store.

Abbreviation row := (list cell) (only parsing).

(** ** Rows in slots *)

Section Slots.
Context {A : Type}.
Implicit Types (l : list (option A)) (pgs : list (Z * list (option A))).

(** The live slots from the [i]th, with their row identifiers. *)
Fixpoint live_from (p : Z) (i : nat) (l : list (option A)) : list (RowId.t * A) :=
  match l with
  | [] => []
  | None :: l' => live_from p (S i) l'
  | Some a :: l' => (RowId.mk p (Z.of_nat i), a) :: live_from p (S i) l'
  end.

Definition live (pgs : list (Z * list (option A))) : list (RowId.t * A) :=
  concat ((fun '(p, l) => live_from p 0 l) <$> pgs).

(** One slot's share. *)
Definition live_slot (id : RowId.t) (o : option A) : list (RowId.t * A) :=
  match o with Some a => [(id, a)] | None => [] end.

Lemma live_from_app p i l1 l2 :
  live_from p i (l1 ++ l2) = live_from p i l1 ++ live_from p (i + length l1) l2.
Proof.
  revert i. induction l1 as [|o l1 IH]; intros i; cbn; [by rewrite Nat.add_0_r|].
  rewrite IH. replace (S i + length l1)%nat with (i + S (length l1))%nat by lia. by destruct o.
Qed.

Lemma live_app pgs1 pgs2 : live (pgs1 ++ pgs2) = live pgs1 ++ live pgs2.
Proof. unfold live. by rewrite fmap_app, concat_app. Qed.

Lemma live_from_elem p i l id a :
  (id, a) ∈ live_from p i l <->
  exists j, l !! j = Some (Some a) /\ id = RowId.mk p (Z.of_nat (i + j)).
Proof.
  revert i. induction l as [|o l IH]; intros i; cbn.
  - split; [by intros ?%elem_of_nil|by intros (j & ? & _)].
  - destruct o as [b|].
    + rewrite elem_of_cons, IH. split.
      * intros [[= -> ->]|(j & Hj & ->)]; [exists 0%nat|exists (S j)].
        -- split; [done|]. by rewrite Nat.add_0_r.
        -- split; [done|]. by rewrite Nat.add_succ_r.
      * intros ([|j] & Hj & ->); [left|right; exists j].
        -- injection Hj as ->. by rewrite Nat.add_0_r.
        -- split; [done|]. by rewrite Nat.add_succ_r.
    + rewrite IH. split.
      * intros (j & Hj & ->). exists (S j). split; [done|]. by rewrite Nat.add_succ_r.
      * intros ([|j] & Hj & ->); [done|]. exists j. split; [done|]. by rewrite Nat.add_succ_r.
Qed.

Lemma live_elem pgs id a :
  (id, a) ∈ live pgs <->
  exists k p l i, pgs !! k = Some (p, l) /\ l !! i = Some (Some a) /\ id = RowId.mk p (Z.of_nat i).
Proof.
  unfold live. rewrite list_elem_of_In, in_concat. split.
  - intros (x & Hx%list_elem_of_In & Ha%list_elem_of_In).
    apply list_elem_of_fmap in Hx as ([p l] & -> & Hp). apply list_elem_of_lookup in Hp as [k Hk].
    apply live_from_elem in Ha as (i & Hi & ->). exists k, p, l, i. by split_and!.
  - intros (k & p & l & i & Hk & Hi & ->). exists (live_from p 0 l). split.
    + apply list_elem_of_In, list_elem_of_fmap. exists (p, l). split; [done|].
      by eapply list_elem_of_lookup_2.
    + apply list_elem_of_In, live_from_elem. by exists i.
Qed.

Lemma live_from_nodup p i l : NoDup (live_from p i l).*1.
Proof.
  revert i. induction l as [|o l IH]; intros i; cbn; [by apply NoDup_nil|].
  destruct o as [a|]; cbn; [|apply IH]. apply NoDup_cons. split; [|apply IH].
  intros ([id b] & E & Hin)%list_elem_of_fmap. apply live_from_elem in Hin as (j & _ & ->).
  injection E as E. lia.
Qed.

(** Row identifiers are distinct when the page numbers are. *)
Lemma live_nodup pgs : NoDup pgs.*1 -> NoDup (live pgs).*1.
Proof.
  induction pgs as [|[p l] pgs IH]; intros Hnd; [by apply NoDup_nil|].
  cbn in Hnd. apply NoDup_cons in Hnd as [Hp Hnd].
  change (live ((p, l) :: pgs)) with (live_from p 0 l ++ live pgs).
  rewrite fmap_app. apply NoDup_app. split_and!; [apply live_from_nodup| |by apply IH].
  intros id ([i1 a] & -> & H1)%list_elem_of_fmap ([i2 b] & E & H2)%list_elem_of_fmap.
  cbn in E. subst. apply live_from_elem in H1 as (i & _ & ->).
  apply live_elem in H2 as (k & q & l' & j & Hk & _ & E). injection E as <- _.
  apply Hp, list_elem_of_fmap. exists (p, l'). split; [done|]. by eapply list_elem_of_lookup_2.
Qed.

(** What changing one slot does to the live rows. *)
Lemma live_update pgs k p l i o :
  pgs !! k = Some (p, l) -> l !! i = Some o ->
  exists a b, forall o', live (<[k := (p, <[i := o']> l)]> pgs) =
    a ++ live_slot (RowId.mk p (Z.of_nat i)) o' ++ b.
Proof.
  intros Hk Hi.
  exists (live (take k pgs) ++ live_from p 0 (take i l)), (live_from p (S i) (drop (S i) l) ++ live (drop (S k) pgs)).
  intros o'. rewrite insert_take_drop by (by eapply lookup_lt_Some).
  rewrite live_app. change (live ((p, ?x) :: ?y)) with (live_from p 0 x ++ live y).
  rewrite (insert_take_drop l) by (by eapply lookup_lt_Some).
  rewrite live_from_app. rewrite length_take_le by (apply lookup_lt_Some in Hi; lia).
  rewrite <- !app_assoc. by destruct o'.
Qed.

Lemma live_update_same pgs k p l i o :
  pgs !! k = Some (p, l) -> l !! i = Some o -> <[k := (p, <[i := o]> l)]> pgs = pgs.
Proof. intros Hk Hi. rewrite (list_insert_id l) by done. by apply list_insert_id. Qed.

End Slots.

(** Appending an entry to the last page, or to a page of its own. *)
Inductive appended {A} (pgs : list (Z * list A)) (x : A) : RowId.t -> list (Z * list A) -> Prop :=
  | append_slot init p slots :
      pgs = init ++ [(p, slots)] -> len slots < IDX_CAP ->
      appended pgs x (RowId.mk p (len slots)) (init ++ [(p, slots ++ [x])])
  | append_page np :
      np ∉ pgs.*1 -> appended pgs x (RowId.mk np 0) (pgs ++ [(np, [x])]).

(** The new row comes last. *)
Lemma appended_live {A} (pgs pgs' : list (Z * list (option A))) a id :
  appended pgs (Some a) id pgs' -> live pgs' = live pgs ++ [(id, a)].
Proof.
  intros [init p slots -> _|np _]; rewrite !live_app; [|done].
  rewrite <- app_assoc. f_equal. unfold live. cbn. rewrite !app_nil_r, live_from_app. done.
Qed.

Lemma appended_nodup {A} (pgs pgs' : list (Z * list A)) x id :
  appended pgs x id pgs' -> NoDup pgs.*1 -> NoDup pgs'.*1.
Proof.
  intros [init p slots -> _|np Hnp]; rewrite !fmap_app; [done|].
  intros Hnd. apply NoDup_app. split_and!; [done| |apply NoDup_singleton].
  by intros q Hq ->%list_elem_of_singleton.
Qed.

(** ** Tables and databases *)

Record dtable := mk_dtable { dt_schema : Table.t; dt_pages : list (Z * list (option row)) }.
Abbreviation database := (list dtable).

Definition dt_name (t : dtable) : bytes := Table.name (dt_schema t).
Definition dt_cols (t : dtable) : list Column.t := Table.columns (dt_schema t).
Definition dt_rows (t : dtable) : list (RowId.t * row) := live (dt_pages t).
Definition set_pages (pgs : list (Z * list (option row))) (t : dtable) : dtable :=
  mk_dtable (dt_schema t) pgs.

(** The catalog of the database fits a byte vector: an entry is a name and four
    varints of at most ten bytes. *)
Definition catalog_room (d : database) : Prop :=
  Z.of_nat (sum_list_with (fun t => length (dt_name t) + 40)%nat d) + 10 < 2 ^ 63.

(** A row as the readers return it: as many cells as there are columns. *)
Definition fit (t : dtable) (r : row) : row := resize (length (dt_cols t)) None r.

Definition find_table (d : database) (name : bytes) : Result nat :=
  ok_or (NotFound (quoted (str "table") name)) (position (fun t => str_eqb (dt_name t) name) d).
Definition table_at (d : database) (i : nat) : Result dtable := or_panic (d !! i).

(** The page of a row identifier, and the row in its slot. *)
Definition page_index (t : dtable) (id : RowId.t) : option nat :=
  position (fun q => q.1 =? RowId.index_page id) (dt_pages t).
Definition row_of (l : list (option row)) (i : Z) : Result row :=
  match nth_z l i with
  | None => Fail (NotFound (str "row"))
  | Some None => Fail (NotFound (str "row (deleted)"))
  | Some (Some r) => Val r
  end.
Definition get_slot (t : dtable) (id : RowId.t) : Result row :=
  k ← or_panic (page_index t id);
  q ← or_panic (dt_pages t !! k);
  row_of q.2 (RowId.slot id).
Definition set_slot (id : RowId.t) (o : option row) (t : dtable) : dtable :=
  match k ← page_index t id; q ← dt_pages t !! k; Some (k, q) with
  | Some (k, (p, l)) =>
      set_pages (<[k := (p, <[Z.to_nat (RowId.slot id) := o]> l)]> (dt_pages t)) t
  | None => t
  end.

(** The identifier is of a slot of an index page of the table, live or not. *)
Definition owns_id (t : dtable) (id : RowId.t) : Prop :=
  0 <= RowId.slot id /\ is_Some (page_index t id).
(** The same of the table a name stands for, if it stands for one. *)
Definition valid_id (d : database) (name : bytes) (id : RowId.t) : Prop :=
  forall i t, find_table d name = Val i -> d !! i = Some t -> owns_id t id.

(** ** Reading *)

Definition spec_list_tables (d : database) : list TableInfo.t :=
  (fun t => TableInfo.mk (dt_name t) (len (dt_cols t)) (len (dt_rows t))) <$> d.
Definition spec_get_table (d : database) (name : bytes) : Result Table.t :=
  i ← find_table d name; t ← table_at d i; Val (dt_schema t).
Definition spec_scan (d : database) (name : bytes) : Result (list (RowId.t * row)) :=
  i ← find_table d name; t ← table_at d i; Val (prod_map id (fit t) <$> dt_rows t).
Definition spec_get_row (d : database) (name : bytes) (id : RowId.t) : Result row :=
  i ← find_table d name; t ← table_at d i; r ← get_slot t id; Val (fit t r).

(** ** Integrity checks *)

Definition spec_check_unique (t : dtable) (ci : nat) (c : Column.t) (cells : row)
    (exclude : option RowId.t) : Result unit :=
  if negb (Column.unique c) then Val tt else
  cell ← or_panic (cells !! ci);
  match cell with
  | None => Val tt
  | Some v =>
      if existsb (fun '(id, r) => negb (bool_decide (Some id = exclude)) &&
                                  bool_decide (cell_at r ci = Some v)) (dt_rows t)
      then Fail (UniqueViolation (Column.name c)) else Val tt
  end.

Definition spec_check_fk (d : database) (ti : nat) (t : dtable) (cells : row)
    (exclude : option RowId.t) (fk : ForeignKey.t) : Result unit :=
  fi ← ok_or (Corrupt (str "fk source column")) (Table.column_index (dt_schema t) (ForeignKey.from_col fk));
  cell ← or_panic (cells !! fi);
  match cell with
  | None => Val tt
  | Some v =>
      tj ← find_table d (ForeignKey.to_table fk);
      u ← table_at d tj;
      tcol ← ok_or (Corrupt (str "fk target column")) (Table.column_index (dt_schema u) (ForeignKey.to_col fk));
      if existsb (fun '(rid, r) =>
           bool_decide (cell_at (if (tj =? ti)%nat && bool_decide (Some rid = exclude)
                                 then cells else r) tcol = Some v)) (dt_rows u)
      then Val tt else Fail (ForeignKeyViolation (ForeignKey.name fk))
  end.

Definition spec_validate (d : database) (ti : nat) (t : dtable) (cells : row)
    (exclude : option RowId.t) : Result unit :=
  if negb (length cells =? length (dt_cols t))%nat
  then Fail (Parse (str "row has " ++ fmt_u64 (len cells) ++ str " cells, table has " ++
                    fmt_u64 (len (dt_cols t)) ++ str " columns"))
  else
    _ ← check_cells (dt_cols t) cells;
    _ ← each_o (fun '(ci, c) => spec_check_unique t ci c cells exclude) (enumerate (dt_cols t));
    each_o (spec_check_fk d ti t cells exclude) (Table.fks (dt_schema t)).

(** No live row but [(i, id)] refers to a key of the row. *)
Definition spec_restrict (d : database) (table : bytes) (t : dtable) (i : nat) (id : RowId.t)
    (key_of : nat -> option Value.t) : Result unit :=
  each_o (fun '(j, u) =>
    each_o (fun fk =>
      if negb (str_eqb (ForeignKey.to_table fk) table) then Val tt else
      tci ← or_panic (Table.column_index (dt_schema t) (ForeignKey.to_col fk));
      match key_of tci with
      | None => Val tt
      | Some key =>
          fci ← or_panic (Table.column_index (dt_schema u) (ForeignKey.from_col fk));
          if existsb (fun '(rid, r) => negb ((j =? i)%nat && bool_decide (rid = id)) &&
                                       bool_decide (cell_at r fci = Some key)) (dt_rows u)
          then Fail (ForeignKeyViolation (ForeignKey.name fk)) else Val tt
      end) (Table.fks (dt_schema u))) (enumerate d).

(** The keys an update gives up. *)
Definition changed_key (old cells : row) (tci : nat) : option Value.t :=
  match cell_at old tci with
  | None => None
  | Some k => if bool_decide (cell_at cells tci = Some k) then None else Some k
  end.

(** ** Changing data

    The guards, then the new database. *)

Definition spec_insert (d : database) (name : bytes) (cells : row) : Result (nat * dtable) :=
  i ← find_table d name; t ← table_at d i;
  _ ← spec_validate d i t cells None;
  Val (i, t).

Definition spec_update (d : database) (name : bytes) (id : RowId.t) (cells : row) : Result database :=
  i ← find_table d name; t ← table_at d i;
  _ ← spec_validate d i t cells (Some id);
  old ← get_slot t id;
  _ ← spec_restrict d name t i id (changed_key (fit t old) cells);
  Val (<[i := set_slot id (Some cells) t]> d).

Definition spec_delete (d : database) (name : bytes) (id : RowId.t) : Result database :=
  i ← find_table d name; t ← table_at d i;
  r ← get_slot t id;
  _ ← spec_restrict d name t i id (cell_at (fit t r));
  Val (<[i := set_slot id None t]> d).

Definition spec_create_table (d : database) (name : bytes) : Result unit :=
  match name with
  | [] => Fail (SchemaRejected (str "table name is empty"))
  | _ => if existsb (fun t => str_eqb (dt_name t) name) d
         then Fail (Duplicate (quoted (str "table") name)) else Val tt
  end.

(** No other table has a foreign key to the table. *)
Definition spec_check_unreferenced (d : database) (name : bytes) (i : nat) : Result unit :=
  each_o (fun '(j, u) =>
    if (j =? i)%nat then Val tt else
    if existsb (fun f => str_eqb (ForeignKey.to_table f) name) (Table.fks (dt_schema u))
    then Fail (SchemaRejected (quoted (str "table") name ++
           str " is referenced by a foreign key in '" ++ dt_name u ++ str "'"))
    else Val tt) (enumerate d).
Definition spec_drop_table (d : database) (name : bytes) : Result database :=
  i ← find_table d name;
  _ ← spec_check_unreferenced d name i;
  Val (delete i d).

(** ** Integrity *)

Definition typed (c : Column.t) (x : cell) : Prop :=
  match x with
  | None => Column.nullable c = true
  | Some v => Value.type_of v = Column.ty c
  end.

(** Two live rows never share a value of a unique column. *)
Definition unique_col (t : dtable) (ci : nat) : Prop :=
  forall id1 id2 r1 r2 v, (id1, r1) ∈ dt_rows t -> (id2, r2) ∈ dt_rows t ->
    cell_at r1 ci = Some v -> cell_at r2 ci = Some v -> id1 = id2.

(** A foreign key names a column, and a unique column of the same type of a
    table of the database, which holds every value it refers to. *)
Record fk_resolves (d : database) (t : dtable) (fk : ForeignKey.t) (j ci tci : nat) (u : dtable) : Prop := {
  fkr_from : Table.column_index (dt_schema t) (ForeignKey.from_col fk) = Some ci;
  fkr_table : d !! j = Some u;
  fkr_name : dt_name u = ForeignKey.to_table fk;
  fkr_to : Table.column_index (dt_schema u) (ForeignKey.to_col fk) = Some tci;
  fkr_types c tc : dt_cols t !! ci = Some c -> dt_cols u !! tci = Some tc ->
    Column.ty c = Column.ty tc /\ Column.unique tc = true;
  fkr_rows id r v : (id, r) ∈ dt_rows t -> cell_at r ci = Some v ->
    exists id' r', (id', r') ∈ dt_rows u /\ cell_at r' tci = Some v
}.

Record table_integrity (d : database) (t : dtable) : Prop := {
  ti_pages : NoDup (dt_pages t).*1;
  ti_cols : NoDup (Column.name <$> dt_cols t);
  ti_typed id r : (id, r) ∈ dt_rows t -> Forall2 typed (dt_cols t) r;
  ti_unique ci c : dt_cols t !! ci = Some c -> Column.unique c = true -> unique_col t ci;
  ti_fks fk : fk ∈ Table.fks (dt_schema t) -> exists j ci tci u, fk_resolves d t fk j ci tci u
}.

Record integrity (d : database) : Prop := {
  in_names : NoDup (dt_name <$> d);
  in_tables i t : d !! i = Some t -> table_integrity d t
}.
