(* ===== verification/Integrity.v ===== *)
(** * The operations keep the integrity of the database

    Every accepted change of [Database] leads from a database with distinct
    names, typed rows, unique columns and resolved references to another. *)

From stdpp Require Import gmap.
From S2P Require Import Prelude Types Value ValueFacts Codec Schema Store Database.
Import Store.

(** ** The loops of the checks *)

Lemma each_o_val {E A} (f : A -> outcome E unit) l :
  each_o f l = Val tt <-> forall x, x ∈ l -> f x = Val tt.
Proof.
  induction l as [|x l IH]; cbn.
  - split; [|done]. by intros _ x ?%elem_of_nil.
  - split.
    + destruct (f x) as [[]|e| |] eqn:E'; try done. cbn. rewrite IH.
      intros H y [->|Hy]%elem_of_cons; [done|by apply H].
    + intros H. rewrite (H x) by left. cbn. apply IH. intros y Hy. apply H. by right.
Qed.

Lemma elem_of_enumerate {A} (l : list A) i x : (i, x) ∈ enumerate l <-> l !! i = Some x.
Proof.
  unfold enumerate. rewrite list_elem_of_lookup. split.
  - intros (j & Hj). apply lookup_zip_Some in Hj as [H1 H2]. apply lookup_seq in H1 as [-> _]. done.
  - intros H. exists i. apply lookup_zip_Some. split; [|done].
    apply lookup_seq. split; [done|]. by eapply lookup_lt_Some.
Qed.

Lemma existsb_false {A} (f : A -> bool) l :
  existsb f l = false <-> forall x, x ∈ l -> f x = false.
Proof.
  split.
  - intros H x Hx%list_elem_of_In. destruct (f x) eqn:E; [|done].
    assert (existsb f l = true) by (apply existsb_exists; by exists x). congruence.
  - intros H. destruct (existsb f l) eqn:E; [|done].
    apply existsb_exists in E as (x & Hx%list_elem_of_In & Hf). by rewrite (H x Hx) in Hf.
Qed.

Lemma check_cells_typed cols cells : length cells = length cols ->
  check_cells cols cells = Val tt <-> Forall2 typed cols cells.
Proof.
  revert cells. induction cols as [|c cols IH]; intros [|x cells] Hl; try done.
  cbn [check_cells]. injection Hl as Hl. rewrite Forall2_cons, <- (IH cells) by done.
  destruct x as [v|]; cbn [typed].
  - case_bool_decide as E; cbn [negb mbind outcome_bind]; [|by split; [|intros []]].
    by split; [|intros []].
  - destruct (Column.nullable c); cbn [negb mbind outcome_bind]; [|by split; [|intros []]].
    by split; [|intros []].
Qed.

(** ** Tables by name *)

Lemma find_table_val d name i : find_table d name = Val i ->
  exists t, d !! i = Some t /\ dt_name t = name.
Proof.
  unfold find_table. destruct (position _ d) as [j|] eqn:E; [|done]. intros [= ->].
  apply position_some in E as (t & Ht & E%str_eqb_eq). by exists t.
Qed.

Lemma names_inj d i j t u : NoDup (dt_name <$> d) -> d !! i = Some t -> d !! j = Some u ->
  dt_name t = dt_name u -> i = j.
Proof.
  intros Hnd Hi Hj E. eapply NoDup_lookup; [exact Hnd| |].
  - by rewrite list_lookup_fmap, Hi.
  - by rewrite list_lookup_fmap, Hj, E.
Qed.

Lemma find_table_name d i t : NoDup (dt_name <$> d) -> d !! i = Some t ->
  find_table d (dt_name t) = Val i.
Proof.
  intros Hnd Hi. unfold find_table. erewrite position_lookup; [done|exact Hi|apply str_eqb_refl|].
  intros j u Hj Hu. destruct (str_eqb _ _) eqn:E; [|done]. apply str_eqb_eq in E.
  assert (j = i) by (by eapply names_inj). lia.
Qed.

(** A typed row has a cell per column. *)
Lemma typed_fit t r : Forall2 typed (dt_cols t) r -> fit t r = r.
Proof. intros H%Forall2_length. unfold fit. by rewrite H, resize_all. Qed.

(** ** Slots *)

Lemma get_slot_pages t id r : 0 <= RowId.slot id -> get_slot t id = Val r ->
  exists k p l i, dt_pages t !! k = Some (p, l) /\ l !! i = Some (Some r) /\
    id = RowId.mk p (Z.of_nat i) /\ page_index t id = Some k /\
    forall o, set_slot id o t = set_pages (<[k := (p, <[i := o]> l)]> (dt_pages t)) t.
Proof.
  intros H0. unfold get_slot, set_slot. destruct (page_index t id) as [k|] eqn:Ek; [|done].
  pose proof Ek as (q & Hk & Eq%Z.eqb_eq)%position_some. cbn [or_panic mbind outcome_bind option_bind].
  rewrite Hk. cbn [or_panic mbind outcome_bind option_bind]. unfold row_of, nth_z.
  destruct (q.2 !! Z.to_nat (RowId.slot id)) as [[r'|]|] eqn:Ei; try done. intros [= ->].
  destruct q as [p l]. cbn [fst snd] in *.
  exists k, p, l, (Z.to_nat (RowId.slot id)). split_and!; [done..| |done|done].
  rewrite Z2Nat.id by done. subst p. by destruct id.
Qed.

(** A slot that is changed: its place among the rows. *)
Lemma get_slot_val t id r : 0 <= RowId.slot id -> get_slot t id = Val r ->
  exists a b, dt_rows t = a ++ (id, r) :: b /\
    forall o, dt_rows (set_slot id o t) = a ++ live_slot id o ++ b /\
      (dt_pages (set_slot id o t)).*1 = (dt_pages t).*1 /\
      dt_schema (set_slot id o t) = dt_schema t.
Proof.
  intros H0 Hg. destruct (get_slot_pages t id r H0 Hg) as (k & p & l & i & Hk & Hi & -> & _ & Hset).
  destruct (live_update (dt_pages t) k p l i _ Hk Hi) as (a & b & Hab). exists a, b. split.
  - specialize (Hab (Some r)). by rewrite (live_update_same _ _ _ _ _ _ Hk Hi) in Hab.
  - intros o. rewrite Hset. split_and!; [apply Hab| |done]. cbn.
    rewrite list_fmap_insert. apply list_insert_id. by rewrite list_lookup_fmap, Hk.
Qed.

(** The rows after one slot is changed. *)
Lemma set_slot_rows t id old o : NoDup (dt_pages t).*1 -> 0 <= RowId.slot id ->
  get_slot t id = Val old ->
  (id, old) ∈ dt_rows t /\ (forall y, (id, y) ∈ dt_rows t -> y = old) /\
  NoDup (dt_pages (set_slot id o t)).*1 /\ dt_schema (set_slot id o t) = dt_schema t /\
  forall x y, (x, y) ∈ dt_rows (set_slot id o t) <->
    ((x, y) ∈ dt_rows t /\ x <> id) \/ (x = id /\ o = Some y).
Proof.
  intros P1 H0 Hg. destruct (get_slot_val t id old H0 Hg) as (a & b & Erows & Hset).
  destruct (Hset o) as (Erows' & Epg & Esch).
  assert (Hnid : forall x y, (x, y) ∈ a ++ b -> x <> id).
  { pose proof (live_nodup _ P1) as Hnd. fold (dt_rows t) in Hnd. rewrite Erows, fmap_app in Hnd.
    intros x y Hx ->. apply NoDup_app in Hnd as (_ & Hd1 & Hnd). cbn in Hnd.
    apply NoDup_cons in Hnd as [Hnb _]. apply elem_of_app in Hx as [Hx|Hx].
    - apply (Hd1 id); [|left]. apply list_elem_of_fmap. by exists (id, y).
    - apply Hnb, list_elem_of_fmap. by exists (id, y). }
  split_and!; [| |by rewrite Epg|done|].
  - rewrite Erows. set_solver.
  - intros y Hy. rewrite Erows in Hy. specialize (Hnid id y). set_solver.
  - intros x y. rewrite Erows', Erows. specialize (Hnid x y). destruct o; cbn [live_slot]; set_solver.
Qed.

(** ** A table whose rows change *)

Lemma integrity_rows d i t t' : integrity d -> d !! i = Some t -> dt_schema t' = dt_schema t ->
  NoDup (dt_pages t').*1 ->
  (forall id r, (id, r) ∈ dt_rows t' -> Forall2 typed (dt_cols t) r) ->
  (forall ci c, dt_cols t !! ci = Some c -> Column.unique c = true -> unique_col t' ci) ->
  (forall j u fk k ci tci w w', d !! j = Some u -> fk ∈ Table.fks (dt_schema u) ->
     fk_resolves d u fk k ci tci w ->
     w' = (if decide (k = i) then t' else w) ->
     forall id r v, (id, r) ∈ dt_rows (if decide (j = i) then t' else u) -> cell_at r ci = Some v ->
     exists id' r', (id', r') ∈ dt_rows w' /\ cell_at r' tci = Some v) ->
  integrity (<[i := t']> d).
Proof.
  intros [Hn Ht] Hi Es Hpg Hty Hu Hfk.
  assert (En : dt_name t' = dt_name t) by (unfold dt_name; by rewrite Es).
  assert (Ec : dt_cols t' = dt_cols t) by (unfold dt_cols; by rewrite Es).
  assert (Hlk : forall j u, d !! j = Some u ->
    <[i := t']> d !! j = Some (if decide (j = i) then t' else u)).
  { intros j u Hj. destruct (decide (j = i)) as [->|Hne].
    - apply list_lookup_insert_eq. by eapply lookup_lt_Some.
    - by rewrite list_lookup_insert_ne. }
  assert (Hback : forall j u', <[i := t']> d !! j = Some u' ->
    exists u, d !! j = Some u /\ u' = if decide (j = i) then t' else u).
  { intros j u' Hj. assert (Hlt : (j < length d)%nat).
    { apply lookup_lt_Some in Hj. by rewrite length_insert in Hj. }
    apply lookup_lt_is_Some in Hlt as [u Hu']. exists u. split; [done|].
    rewrite (Hlk j u Hu') in Hj. by injection Hj. }
  split.
  - rewrite list_fmap_insert, En. rewrite list_insert_id; [done|]. by rewrite list_lookup_fmap, Hi.
  - intros j u' Hj. destruct (Hback j u' Hj) as (u & Hju & ->).
    pose proof (Ht j u Hju) as [P1 P2 P3 P4 P5].
    assert (Efk : dt_schema (if decide (j = i) then t' else u) = dt_schema u).
    { destruct (decide (j = i)) as [->|]; [|done]. congruence. }
    assert (Hfks : forall fk, fk ∈ Table.fks (dt_schema u) -> exists k ci tci w,
      fk_resolves (<[i := t']> d) (if decide (j = i) then t' else u) fk k ci tci w).
    { intros fk Hfk'. destruct (P5 fk Hfk') as (k & ci & tci & w & Hr).
      exists k, ci, tci, (if decide (k = i) then t' else w).
      pose proof Hr as [Q1 Q2 Q3 Q4 Q5 Q6].
      assert (Ew : dt_schema (if decide (k = i) then t' else w) = dt_schema w).
      { destruct (decide (k = i)) as [->|]; [|done]. congruence. }
      split.
      - by rewrite Efk.
      - by apply Hlk.
      - unfold dt_name. by rewrite Ew.
      - by rewrite Ew.
      - unfold dt_cols. rewrite Efk, Ew. exact Q5.
      - by eapply Hfk. }
    split; [..|by rewrite Efk];
      destruct (decide (j = i)) as [->|]; try done; assert (u = t) by congruence; subst u;
      rewrite ?Ec; done.
Qed.

(** ** What the checks establish *)

Lemma cell_at_lookup (r : row) i v : cell_at r i = Some v <-> r !! i = Some (Some v).
Proof. unfold cell_at. destruct (r !! i) as [[w|]|]; naive_solver. Qed.

Record validated (d : database) (i : nat) (t : dtable) (cells : row) (ex : option RowId.t) : Prop := {
  va_typed : Forall2 typed (dt_cols t) cells;
  va_unique ci c v : dt_cols t !! ci = Some c -> Column.unique c = true ->
    cell_at cells ci = Some v -> forall id r, (id, r) ∈ dt_rows t -> Some id <> ex ->
    cell_at r ci <> Some v;
  va_fks fk : fk ∈ Table.fks (dt_schema t) -> spec_check_fk d i t cells ex fk = Val tt
}.

Lemma spec_validate_val d i t cells ex :
  spec_validate d i t cells ex = Val tt -> validated d i t cells ex.
Proof.
  unfold spec_validate. destruct (Nat.eqb_spec (length cells) (length (dt_cols t))) as [Hl|]; [|done].
  cbn [negb]. destruct (check_cells (dt_cols t) cells) as [[]|e| |] eqn:E1; try done.
  cbn [mbind outcome_bind].
  destruct (each_o _ (enumerate (dt_cols t))) as [[]|e| |] eqn:E2; try done. cbn [mbind outcome_bind].
  intros E3. rewrite each_o_val in E2. rewrite each_o_val in E3. split; [by apply check_cells_typed| |done].
  intros ci c v Hc Hu Hv id r Hr Hne Hrv.
  specialize (E2 (ci, c) (proj2 (elem_of_enumerate _ _ _) Hc)). cbn in E2.
  unfold spec_check_unique in E2. rewrite Hu in E2. cbn [negb] in E2.
  apply cell_at_lookup in Hv. rewrite Hv in E2. cbn [or_panic mbind outcome_bind] in E2.
  destruct (existsb _ (dt_rows t)) eqn:Ex; [done|]. rewrite existsb_false in Ex.
  specialize (Ex (id, r) Hr). cbn in Ex. by rewrite bool_decide_false, bool_decide_true in Ex.
Qed.

Lemma spec_check_fk_val d i t cells ex fk k ci tci w v :
  NoDup (dt_name <$> d) -> fk_resolves d t fk k ci tci w ->
  spec_check_fk d i t cells ex fk = Val tt -> cell_at cells ci = Some v ->
  exists rid r, (rid, r) ∈ dt_rows w /\
    cell_at (if (k =? i)%nat && bool_decide (Some rid = ex) then cells else r) tci = Some v.
Proof.
  intros Hn [Q1 Q2 Q3 Q4 _ _] Hc Hv. unfold spec_check_fk in Hc.
  rewrite Q1 in Hc. cbn [ok_or mbind outcome_bind] in Hc.
  apply cell_at_lookup in Hv. rewrite Hv in Hc. cbn [or_panic mbind outcome_bind] in Hc.
  rewrite <- Q3, (find_table_name d k w Hn Q2) in Hc. cbn [mbind outcome_bind] in Hc.
  unfold table_at in Hc. rewrite Q2 in Hc. cbn [or_panic mbind outcome_bind] in Hc.
  rewrite Q4 in Hc. cbn [ok_or mbind outcome_bind] in Hc.
  destruct (existsb _ (dt_rows w)) eqn:E; [|done].
  apply existsb_exists in E as ([rid r] & Hr%list_elem_of_In & E%bool_decide_eq_true). by exists rid, r.
Qed.

Lemma spec_restrict_val d name t i id key_of j u fk tci fci key rid r :
  spec_restrict d name t i id key_of = Val tt ->
  d !! j = Some u -> fk ∈ Table.fks (dt_schema u) -> ForeignKey.to_table fk = name ->
  Table.column_index (dt_schema t) (ForeignKey.to_col fk) = Some tci -> key_of tci = Some key ->
  Table.column_index (dt_schema u) (ForeignKey.from_col fk) = Some fci ->
  (rid, r) ∈ dt_rows u -> cell_at r fci = Some key -> j = i /\ rid = id.
Proof.
  intros H Hj Hfk <- Htc Hk Hfc Hr Hv. unfold spec_restrict in H. rewrite each_o_val in H.
  specialize (H (j, u) (proj2 (elem_of_enumerate _ _ _) Hj)). cbn in H. rewrite each_o_val in H.
  specialize (H fk Hfk). cbn in H. rewrite str_eqb_refl in H. cbn [negb] in H.
  rewrite Htc in H. cbn [or_panic mbind outcome_bind] in H. rewrite Hk, Hfc in H.
  cbn [or_panic mbind outcome_bind] in H.
  destruct (existsb _ (dt_rows u)) eqn:E; [done|]. rewrite existsb_false in E.
  specialize (E (rid, r) Hr). cbn in E. rewrite (bool_decide_true (cell_at r fci = Some key)) in E by done.
  rewrite andb_true_r in E. apply negb_false_iff, andb_true_iff in E as [E1 E2].
  apply Nat.eqb_eq in E1. by apply bool_decide_eq_true in E2.
Qed.

(** ** The operations *)

Lemma spec_insert_val d name cells i t : spec_insert d name cells = Val (i, t) ->
  d !! i = Some t /\ dt_name t = name /\ validated d i t cells None.
Proof.
  unfold spec_insert. destruct (find_table d name) as [j|e| |] eqn:Ei; try done.
  cbn [mbind outcome_bind]. destruct (find_table_val _ _ _ Ei) as (u & Hj & En).
  unfold table_at. rewrite Hj. cbn [or_panic mbind outcome_bind].
  destruct (spec_validate _ _ _ _ _) as [[]|e| |] eqn:Ev; try done.
  cbn [mbind outcome_bind]. intros [= <- <-]. split_and!; [done..|]. by apply spec_validate_val.
Qed.

Lemma insert_integrity d name cells i t id pgs : integrity d ->
  spec_insert d name cells = Val (i, t) -> appended (dt_pages t) (Some cells) id pgs ->
  integrity (<[i := set_pages pgs t]> d).
Proof.
  intros Hd Hs Ha. destruct (spec_insert_val _ _ _ _ _ Hs) as (Hi & _ & [V1 V2 V3]).
  pose proof (in_tables _ Hd i t Hi) as [P1 P2 P3 P4 P5].
  pose proof (appended_nodup _ _ _ _ Ha P1) as Hnd'.
  assert (Er : dt_rows (set_pages pgs t) = dt_rows t ++ [(id, cells)]) by (by apply appended_live).
  assert (Hin : forall id' r, (id', r) ∈ dt_rows (set_pages pgs t) <->
    (id', r) ∈ dt_rows t \/ (id' = id /\ r = cells)).
  { intros id' r. rewrite Er, elem_of_app, list_elem_of_singleton. naive_solver. }
  apply (integrity_rows d i t); try done.
  - intros id' r [Hr|[-> ->]]%Hin; [by eapply P3|done].
  - intros ci c Hc Hu id1 id2 r1 r2 v H1 H2 Hv1 Hv2.
    apply Hin in H1 as [H1|[-> ->]], H2 as [H2|[-> ->]]; [by eapply P4| | |done].
    + exfalso. by eapply (V2 ci c v Hc Hu Hv2 id1 r1).
    + exfalso. by eapply (V2 ci c v Hc Hu Hv1 id2 r2).
  - intros j u fk k ci tci w w' Hj Hfk Hres -> id' r v Hr Hv.
    pose proof Hres as [Q1 Q2 Q3 Q4 Q5 Q6].
    assert (Hmono : forall x y, (x, y) ∈ dt_rows w ->
      (x, y) ∈ dt_rows (if decide (k = i) then set_pages pgs t else w)).
    { intros x y Hx. destruct (decide (k = i)) as [->|]; [|done].
      apply Hin. left. congruence. }
    assert (Hor : (id', r) ∈ dt_rows u \/ (j = i /\ id' = id /\ r = cells)).
    { destruct (decide (j = i)) as [->|]; [|by left]. apply Hin in Hr as [Hr|[-> ->]]; [|auto].
      left. congruence. }
    destruct Hor as [Hu|(-> & -> & ->)].
    + destruct (Q6 id' r v Hu Hv) as (x & y & Hx & Hy). exists x, y. auto.
    + assert (u = t) by congruence. subst u.
      destruct (spec_check_fk_val _ _ _ _ _ _ _ _ _ _ v (in_names _ Hd) Hres (V3 fk Hfk) Hv)
        as (x & y & Hx & Hy).
      rewrite (bool_decide_false (Some x = None)), andb_false_r in Hy by done. exists x, y. auto.
Qed.

Lemma spec_update_val d name id cells d' : spec_update d name id cells = Val d' ->
  exists i t old, d !! i = Some t /\ dt_name t = name /\ validated d i t cells (Some id) /\
    get_slot t id = Val old /\
    spec_restrict d name t i id (changed_key (fit t old) cells) = Val tt /\
    d' = <[i := set_slot id (Some cells) t]> d.
Proof.
  unfold spec_update. destruct (find_table d name) as [i|e| |] eqn:Ei; try done.
  cbn [mbind outcome_bind]. destruct (find_table_val _ _ _ Ei) as (t & Hi & En).
  unfold table_at. rewrite Hi. cbn [or_panic mbind outcome_bind].
  destruct (spec_validate _ _ _ _ _) as [[]|e| |] eqn:Ev; try done. cbn [mbind outcome_bind].
  destruct (get_slot t id) as [old|e| |] eqn:Eg; try done. cbn [mbind outcome_bind].
  destruct (spec_restrict _ _ _ _ _ _) as [[]|e| |] eqn:Er; try done. cbn [mbind outcome_bind].
  intros [= <-]. exists i, t, old. split_and!; try done. by apply spec_validate_val.
Qed.

Lemma spec_delete_val d name id d' : spec_delete d name id = Val d' ->
  exists i t old, d !! i = Some t /\ dt_name t = name /\ get_slot t id = Val old /\
    spec_restrict d name t i id (cell_at (fit t old)) = Val tt /\
    d' = <[i := set_slot id None t]> d.
Proof.
  unfold spec_delete. destruct (find_table d name) as [i|e| |] eqn:Ei; try done.
  cbn [mbind outcome_bind]. destruct (find_table_val _ _ _ Ei) as (t & Hi & En).
  unfold table_at. rewrite Hi. cbn [or_panic mbind outcome_bind].
  destruct (get_slot t id) as [old|e| |] eqn:Eg; try done. cbn [mbind outcome_bind].
  destruct (spec_restrict _ _ _ _ _ _) as [[]|e| |] eqn:Er; try done. cbn [mbind outcome_bind].
  intros [= <-]. exists i, t, old. by split_and!.
Qed.

Lemma changed_key_some old cells tci k :
  cell_at old tci = Some k -> changed_key old cells tci = Some k \/ cell_at cells tci = Some k.
Proof. intros E. unfold changed_key. rewrite E. case_bool_decide; auto. Qed.

Lemma update_integrity d name id cells d' : integrity d -> 0 <= RowId.slot id ->
  spec_update d name id cells = Val d' -> integrity d'.
Proof.
  intros Hd H0 Hs.
  destruct (spec_update_val _ _ _ _ _ Hs) as (i & t & old & Hi & Hn & [V1 V2 V3] & Hg & Hr & ->).
  pose proof (in_tables _ Hd i t Hi) as [P1 P2 P3 P4 P5].
  destruct (set_slot_rows t id old (Some cells) P1 H0 Hg) as (Hold & Hid & Hpg & Esch & Hin0).
  set (t' := set_slot id (Some cells) t) in *.
  assert (Hin : forall x y, (x, y) ∈ dt_rows t' <-> ((x, y) ∈ dt_rows t /\ x <> id) \/ (x = id /\ y = cells)).
  { intros x y. rewrite Hin0. naive_solver. }
  rewrite (typed_fit t old) in Hr by (by eapply P3).
  apply (integrity_rows d i t); try done.
  - intros x y [[Hx _]|[-> ->]]%Hin; [by eapply P3|done].
  - intros ci c Hc Hu id1 id2 r1 r2 v H1 H2 Hv1 Hv2.
    apply Hin in H1 as [[H1 N1]|[-> ->]], H2 as [[H2 N2]|[-> ->]]; [by eapply P4| | |done].
    + exfalso. eapply (V2 ci c v Hc Hu Hv2 id1 r1); [done|congruence|done].
    + exfalso. eapply (V2 ci c v Hc Hu Hv1 id2 r2); [done|congruence|done].
  - intros j u fk k ci tci w w' Hj Hfk Hres -> x r v Hx Hv.
    pose proof Hres as [Q1 Q2 Q3 Q4 Q5 Q6].
    assert (Hor : ((x, r) ∈ dt_rows u /\ ~ (j = i /\ x = id)) \/ (j = i /\ x = id /\ r = cells)).
    { destruct (decide (j = i)) as [->|Hne]; [|left; naive_solver].
      assert (u = t) by congruence. subst u. apply Hin in Hx as [[Hx N]|[-> ->]]; naive_solver. }
    destruct Hor as [[Hu Hnot]|(-> & -> & ->)].
    + destruct (Q6 x r v Hu Hv) as (y & s & Hy & Hs'). destruct (decide (k = i)) as [->|]; [|by exists y, s].
      assert (w = t) by congruence. subst w. destruct (decide (y = id)) as [->|Hne].
      * rewrite (Hid s Hy) in Hs'. destruct (changed_key_some old cells tci v Hs') as [Hk|Hk].
        -- exfalso. apply Hnot. eapply spec_restrict_val; try done. congruence.
        -- exists id, cells. split; [|done]. apply Hin. by right.
      * exists y, s. split; [|done]. apply Hin. by left.
    + assert (u = t) by congruence. subst u.
      destruct (spec_check_fk_val _ _ _ _ _ _ _ _ _ _ v (in_names _ Hd) Hres (V3 fk Hfk) Hv)
        as (y & s & Hy & Hs').
      destruct (decide (k = i)) as [->|Hne].
      * assert (w = t) by congruence. subst w. rewrite Nat.eqb_refl in Hs'. cbn [andb] in Hs'.
        case_bool_decide as E.
        -- injection E as ->. exists id, cells. split; [|done]. apply Hin. by right.
        -- exists y, s. split; [|done]. apply Hin. left. split; [done|congruence].
      * rewrite (proj2 (Nat.eqb_neq k i)) in Hs' by done. by exists y, s.
Qed.

Lemma delete_integrity d name id d' : integrity d -> 0 <= RowId.slot id ->
  spec_delete d name id = Val d' -> integrity d'.
Proof.
  intros Hd H0 Hs. destruct (spec_delete_val _ _ _ _ Hs) as (i & t & old & Hi & Hn & Hg & Hr & ->).
  pose proof (in_tables _ Hd i t Hi) as [P1 P2 P3 P4 P5].
  destruct (set_slot_rows t id old None P1 H0 Hg) as (Hold & Hid & Hpg & Esch & Hin0).
  set (t' := set_slot id None t) in *.
  assert (Hin : forall x y, (x, y) ∈ dt_rows t' <-> (x, y) ∈ dt_rows t /\ x <> id).
  { intros x y. rewrite Hin0. naive_solver. }
  rewrite (typed_fit t old) in Hr by (by eapply P3).
  apply (integrity_rows d i t); try done.
  - intros x y [Hx _]%Hin. by eapply P3.
  - intros ci c Hc Hu id1 id2 r1 r2 v [H1 _]%Hin [H2 _]%Hin Hv1 Hv2. by eapply P4.
  - intros j u fk k ci tci w w' Hj Hfk Hres -> x r v Hx Hv.
    pose proof Hres as [Q1 Q2 Q3 Q4 Q5 Q6].
    assert (Hor : (x, r) ∈ dt_rows u /\ ~ (j = i /\ x = id)).
    { destruct (decide (j = i)) as [->|Hne]; [|naive_solver].
      assert (u = t) by congruence. subst u. apply Hin in Hx as [Hx N]. naive_solver. }
    destruct Hor as [Hu Hnot].
    destruct (Q6 x r v Hu Hv) as (y & s & Hy & Hs'). destruct (decide (k = i)) as [->|]; [|by exists y, s].
    assert (w = t) by congruence. subst w. destruct (decide (y = id)) as [->|Hne].
    + rewrite (Hid s Hy) in Hs'. exfalso. apply Hnot. eapply spec_restrict_val; try done. congruence.
    + exists y, s. split; [|done]. by apply Hin.
Qed.

(** References move with their table. *)
Lemma fk_resolves_move d d' t fk k k' ci tci w :
  fk_resolves d t fk k ci tci w -> d' !! k' = Some w -> fk_resolves d' t fk k' ci tci w.
Proof. by intros [] ?; split. Qed.

Definition new_table (name : bytes) (h : Z) : dtable := mk_dtable (Table.new name) [(h, [])].

Lemma create_integrity d name h : integrity d -> spec_create_table d name = Val tt ->
  integrity (d ++ [new_table name h]).
Proof.
  intros [Hn Ht] Hs.
  assert (Hnew : forall t, t ∈ d -> dt_name t <> name).
  { unfold spec_create_table in Hs. destruct name as [|b name]; [done|].
    destruct (existsb _ d) eqn:E; [done|]. rewrite existsb_false in E.
    intros t Ht' En. specialize (E t Ht'). by rewrite En, str_eqb_refl in E. }
  split.
  - rewrite fmap_app. apply NoDup_app. split_and!; [done| |apply NoDup_singleton].
    intros x (t & -> & Hin)%list_elem_of_fmap E%list_elem_of_singleton. by apply (Hnew t).
  - intros j u Hj. apply lookup_app_Some in Hj as [Hj|[_ Hj]].
    + destruct (Ht j u Hj) as [P1 P2 P3 P4 P5]. split; try done.
      intros fk Hfk. destruct (P5 fk Hfk) as (k & ci & tci & w & Hr).
      exists k, ci, tci, w. eapply fk_resolves_move; [done|]. apply lookup_app_l_Some, Hr.
    + apply list_lookup_singleton_Some in Hj as [_ <-]. split; cbn.
      * apply NoDup_singleton.
      * by apply NoDup_nil.
      * by intros id r ?%elem_of_nil.
      * done.
      * by intros fk ?%elem_of_nil.
Qed.

Lemma spec_drop_table_val d name d' : spec_drop_table d name = Val d' ->
  exists i t, d !! i = Some t /\ dt_name t = name /\ d' = delete i d /\
    forall j u fk, d !! j = Some u -> j <> i -> fk ∈ Table.fks (dt_schema u) ->
      ForeignKey.to_table fk <> name.
Proof.
  unfold spec_drop_table. destruct (find_table d name) as [i|e| |] eqn:Ei; try done.
  cbn [mbind outcome_bind]. destruct (find_table_val _ _ _ Ei) as (t & Hi & En).
  destruct (spec_check_unreferenced d name i) as [[]|e| |] eqn:E; try done. cbn [mbind outcome_bind].
  intros [= <-]. exists i, t. split_and!; try done. intros j u fk Hj Hne Hfk.
  unfold spec_check_unreferenced in E. rewrite each_o_val in E. specialize (E (j, u) (proj2 (elem_of_enumerate _ _ _) Hj)). cbn in E.
  rewrite (proj2 (Nat.eqb_neq _ _)) in E by done.
  destruct (existsb _ _) eqn:Ex; [done|]. rewrite existsb_false in Ex. specialize (Ex fk Hfk).
  intros Et. by rewrite Et, str_eqb_refl in Ex.
Qed.

Lemma delete_index (d : database) (i k : nat) (u : dtable) : k <> i -> d !! k = Some u ->
  exists k', delete i d !! k' = Some u.
Proof.
  intros Hne Hk. destruct (decide (k < i)%nat).
  - exists k. by rewrite list_lookup_delete_lt.
  - destruct k as [|k]; [lia|]. exists k. by rewrite list_lookup_delete_ge by lia.
Qed.

Lemma drop_integrity d name d' : integrity d -> spec_drop_table d name = Val d' -> integrity d'.
Proof.
  intros [Hn Ht] (i & t & Hi & En & -> & Hfks)%spec_drop_table_val.
  assert (Hback : forall j u, delete i d !! j = Some u -> exists k, d !! k = Some u /\ k <> i).
  { intros j u Hj. destruct (decide (j < i)%nat).
    - rewrite list_lookup_delete_lt in Hj by done. exists j. split; [done|lia].
    - rewrite list_lookup_delete_ge in Hj by lia. exists (S j). split; [done|lia]. }
  split.
  - apply NoDup_alt. intros j1 j2 x H1 H2.
    rewrite list_lookup_fmap in H1, H2.
    destruct (delete i d !! j1) as [u1|] eqn:E1; [|done].
    destruct (delete i d !! j2) as [u2|] eqn:E2; [|done].
    destruct (decide (j1 = j2)) as [|Hne]; [done|]. exfalso. cbn in H1, H2.
    assert (dt_name u1 = dt_name u2) by congruence. clear H1 H2.
    destruct (decide (j1 < i)%nat), (decide (j2 < i)%nat);
      rewrite ?list_lookup_delete_lt in E1 by done; rewrite ?list_lookup_delete_ge in E1 by lia;
      rewrite ?list_lookup_delete_lt in E2 by done; rewrite ?list_lookup_delete_ge in E2 by lia;
      pose proof (names_inj _ _ _ _ _ Hn E1 E2); lia.
  - intros j u Hj. destruct (Hback j u Hj) as (k & Hk & Hki).
    destruct (Ht k u Hk) as [P1 P2 P3 P4 P5]. split; try done.
    intros fk Hfk. destruct (P5 fk Hfk) as (q & ci & tci & w & Hr).
    assert (Hq : q <> i).
    { intros ->. apply (Hfks k u fk Hk Hki Hfk). rewrite <- (fkr_name _ _ _ _ _ _ _ Hr), <- En.
      f_equal. pose proof (fkr_table _ _ _ _ _ _ _ Hr). congruence. }
    destruct (delete_index d i q w Hq (fkr_table _ _ _ _ _ _ _ Hr)) as [q' Hq'].
    exists q', ci, tci, w. by eapply fk_resolves_move.
Qed.

(** ** No check aborts *)

Lemma each_o_no_abort {E A} (f : A -> outcome E unit) l :
  (forall x, x ∈ l -> no_abort (f x)) -> no_abort (each_o f l).
Proof.
  induction l as [|x l IH]; intros H; cbn [each_o]; [apply no_abort_val|].
  apply no_abort_bind; [apply H; left|]. intros _ _. apply IH. intros y Hy. apply H. by right.
Qed.

Lemma find_table_no_abort d name : no_abort (find_table d name).
Proof. apply no_abort_ok_or. Qed.

Lemma check_cells_no_abort cols cells : no_abort (check_cells cols cells).
Proof.
  revert cells. induction cols as [|c cols IH]; intros [|x cells]; cbn [check_cells]; try apply no_abort_val.
  apply no_abort_bind; [|by intros]. destruct x; repeat case_match; auto with tos.
Qed.

Lemma no_abort_index {E A B} (l : list A) i (f : A -> outcome E B) :
  (i < length l)%nat -> (forall x, no_abort (f x)) -> no_abort (or_panic (l !! i) ≫= f).
Proof. intros [x ->]%lookup_lt_is_Some_2 Hf. apply Hf. Qed.

Lemma spec_validate_no_abort d i t cells ex : no_abort (spec_validate d i t cells ex).
Proof.
  unfold spec_validate. destruct (Nat.eqb_spec (length cells) (length (dt_cols t))) as [Hl|];
    cbn [negb]; [|apply no_abort_fail].
  apply no_abort_bind; [apply check_cells_no_abort|]. intros _ _.
  apply no_abort_bind; [|intros _ _]; apply each_o_no_abort.
  - intros [ci c] Hc%elem_of_enumerate. cbn beta iota. unfold spec_check_unique.
    destruct (Column.unique c); cbn [negb]; [|apply no_abort_val].
    apply no_abort_index; [apply lookup_lt_Some in Hc; by rewrite <- Hl in Hc|]. intros x.
    destruct x; [|apply no_abort_val]. case_match; auto with tos.
  - intros fk _. unfold spec_check_fk. apply no_abort_bind; [apply no_abort_ok_or|]. intros fi Hfi.
    destruct (Table.column_index _ _) as [fi'|] eqn:E; [|done]. injection Hfi as ->.
    apply position_some in E as (c & Hc & _). fold (dt_cols t) in Hc.
    apply no_abort_index; [apply lookup_lt_Some in Hc; by rewrite <- Hl in Hc|]. intros x.
    destruct x; [|apply no_abort_val].
    apply no_abort_bind; [apply find_table_no_abort|]. intros j Hj.
    destruct (find_table_val _ _ _ Hj) as (u & Hu & _). unfold table_at. rewrite Hu.
    cbn [or_panic mbind outcome_bind]. apply no_abort_bind; [apply no_abort_ok_or|]. intros tcol _.
    case_match; auto with tos.
Qed.

Lemma get_slot_no_abort t id : owns_id t id -> no_abort (get_slot t id).
Proof.
  intros [_ [k Hk]]. unfold get_slot. rewrite Hk. cbn [or_panic mbind outcome_bind].
  pose proof Hk as (q & Hq & _)%position_some. rewrite Hq. cbn [or_panic mbind outcome_bind].
  unfold row_of. repeat case_match; auto with tos.
Qed.

(** The restriction looks up the columns of foreign keys; they exist. *)
Lemma spec_restrict_no_abort d name i t id key_of : integrity d -> d !! i = Some t -> dt_name t = name ->
  no_abort (spec_restrict d name t i id key_of).
Proof.
  intros [Hn Ht] Hi <-. apply each_o_no_abort. intros [j u] Hj%elem_of_enumerate.
  apply each_o_no_abort. intros fk Hfk.
  destruct (str_eqb _ _) eqn:E; cbn [negb]; [|apply no_abort_val]. apply str_eqb_eq in E.
  destruct (ti_fks _ _ (Ht j u Hj) fk Hfk) as (k & ci & tci & w & [Q1 Q2 Q3 Q4 _ _]).
  assert (k = i) as -> by (eapply names_inj; [done..|congruence]).
  assert (w = t) as -> by congruence. rewrite Q1, Q4. cbn [or_panic mbind outcome_bind].
  destruct (key_of tci); [|apply no_abort_val]. case_match; auto with tos.
Qed.
