(* ===== verification/Edits.v ===== *)
(** * Edits of a schema, on the database

    What the operations of [tablestore/src/store.rs] that change a table's
    columns, foreign keys and display promise: the guards, the new schema and
    what becomes of the rows; and that each keeps the integrity of the
    database. *)

From stdpp Require Import gmap.
From S2P Require Import Prelude Types Value ValueFacts Codec Schema Store Database Integrity.
Import Store.

(** ** Specification *)

Inductive edit : Type :=
  | AddColumn (table : bytes) (col : Column.t)
  | DropColumn (table col : bytes)
  | MoveColumn (table col : bytes) (new_index : nat)
  | RenameColumn (table old new : bytes)
  | SetUnique (table col : bytes) (unique : bool)
  | AddFk (table from_col to_table to_col : bytes)
  | DropFk (table fk : bytes)
  | SetRefs (table : bytes) (cols : list bytes)
  | SetWidth (table col : bytes) (width : option Z).

#[global] Instance edit_eq_dec : EqDecision edit.
Proof. solve_decision. Defined.

(** A table with another schema, its rows mapped. *)
Definition map_slots (f : row -> row) (pgs : list (Z * list (option row))) : list (Z * list (option row)) :=
  prod_map id (fmap (M:=list) (fmap (M:=option) f)) <$> pgs.
Definition edit_table (s : Table.t) (f : row -> row) (t : dtable) : dtable :=
  mk_dtable s (map_slots f (dt_pages t)).

Definition spec_alter (d : database) (name : bytes) (g : Table.t -> Result Table.t) (f : row -> row) :
    Result database :=
  i ← find_table d name; t ← table_at d i; s ← g (dt_schema t);
  Val (<[i := edit_table s f t]> d).

(** The table of a name, and a column of it. *)
Definition spec_table (d : database) (name : bytes) : Result dtable := i ← find_table d name; table_at d i.
Definition spec_col (t : dtable) (shown col : bytes) : Result nat :=
  ok_or (NotFound (quoted (str "column") shown)) (Table.column_index (dt_schema t) col).

(** No foreign key of the database is to [table.col]. *)
Definition spec_targeted (d : database) (table col : bytes) (why : dtable -> bytes) : Result unit :=
  each_o (fun u =>
    if existsb (fun f => str_eqb (ForeignKey.to_table f) table && str_eqb (ForeignKey.to_col f) col)
         (Table.fks (dt_schema u))
    then Fail (SchemaRejected (why u)) else Val tt) d.

(** The cells of a column, row by row. *)
Definition column_cells (t : dtable) (ci : nat) : list cell := (fun r => cell_at r ci) <$> (dt_rows t).*2.

(** The cells of a row at the indices [perm]. *)
Definition pick {A} (perm : list nat) (l : list A) : list A := omap (fun i => l !! i) perm.
Definition move_order (n old new : nat) : list nat :=
  take new (delete old (seq 0 n)) ++ old :: drop new (delete old (seq 0 n)).

Definition rename_table (table old new : bytes) (u : dtable) : dtable :=
  mk_dtable (rename_in table old new (str_eqb (dt_name u) table) (dt_schema u)).1 (dt_pages u).

Definition spec_add_column d table (col : Column.t) : Result database :=
  t ← spec_table d table;
  if negb (Column.nullable col) && (0 <? len (dt_rows t))
  then Fail (SchemaRejected (str
         "table has rows; a new column must be nullable (existing rows receive NULL)"))
  else spec_alter d table (with_new_column col) (fun r => r ++ [None]).

Definition spec_drop_column d table col : Result database :=
  t ← spec_table d table;
  idx ← spec_col t col col;
  if existsb (fun f => str_eqb (ForeignKey.from_col f) col) (Table.fks (dt_schema t))
  then Fail (SchemaRejected (quoted (str "column") col ++ str " carries a foreign key")) else
  _ ← spec_targeted d table col (fun u =>
        quoted (str "column") col ++ str " is targeted by a foreign key in '" ++ dt_name u ++ str "'");
  spec_alter d table (without_column idx col) (delete idx).

Definition spec_move_column d table col (new : nat) : Result database :=
  t ← spec_table d table;
  let n := length (dt_cols t) in
  old ← spec_col t col col;
  if (n <=? new)%nat
  then Fail (SchemaRejected (str "new column index " ++ fmt_u64 (Z.of_nat new) ++
              str " out of range (0.." ++ fmt_u64 (Z.of_nat n) ++ str ")")) else
  if (new =? old)%nat then Val d else
  spec_alter d table (with_moved old new) (pick (move_order n old new)).

Definition spec_rename_column d table old new : Result database :=
  match new with
  | [] => Fail (SchemaRejected (str "column name is empty"))
  | _ =>
      if str_eqb old new then Val d else
      t ← spec_table d table;
      match Table.column (dt_schema t) old, Table.column (dt_schema t) new with
      | None, _ => Fail (NotFound (quoted (str "column") old))
      | Some _, Some _ => Fail (Duplicate (quoted (str "column") new))
      | Some _, None => Val (rename_table table old new <$> d)
      end
  end.

Definition spec_set_unique d table col (unique : bool) : Result database :=
  t ← spec_table d table;
  ci ← spec_col t col col;
  _ ← (if negb unique then
         spec_targeted d table col (fun _ =>
           str "'" ++ col ++ str "' is a foreign-key target and must stay UNIQUE")
       else if has_duplicate (column_cells t ci) []
         then Fail (SchemaRejected (quoted (str "column") col ++ str " already contains duplicate values"))
         else Val tt);
  spec_alter d table (with_unique ci unique) id.

Definition spec_add_fk d table from_col to_table to_col : Result database :=
  t ← spec_table d table;
  fc ← ok_or (NotFound (quoted (str "column") from_col)) (Table.column (dt_schema t) from_col);
  u ← spec_table d to_table;
  tc ← ok_or (NotFound (quoted (str "column") (to_table ++ str "." ++ to_col)))
         (Table.column (dt_schema u) to_col);
  if negb (Column.unique tc)
  then Fail (SchemaRejected (quoted (str "foreign-key target") (to_table ++ str "." ++ to_col) ++
              str " must be UNIQUE")) else
  if negb (bool_decide (Column.ty fc = Column.ty tc))
  then Fail (SchemaRejected (str "foreign-key column and target must share a type")) else
  tci ← or_panic (Table.column_index (dt_schema u) to_col);
  fci ← or_panic (Table.column_index (dt_schema t) from_col);
  match unmatched (column_cells u tci) (column_cells t fci) with
  | Some v => Fail (SchemaRejected (str "existing value " ++ Value.display v ++
                str " has no match in " ++ to_table ++ str "." ++ to_col))
  | None =>
      name ← fk_name from_col (ForeignKey.name <$> Table.fks (dt_schema t));
      spec_alter d table (with_fk (ForeignKey.mk name from_col to_table to_col)) id
  end.

Definition spec_edit (d : database) (e : edit) : Result database :=
  match e with
  | AddColumn table col => spec_add_column d table col
  | DropColumn table col => spec_drop_column d table col
  | MoveColumn table col new => spec_move_column d table col new
  | RenameColumn table old new => spec_rename_column d table old new
  | SetUnique table col unique => spec_set_unique d table col unique
  | AddFk table from_col to_table to_col => spec_add_fk d table from_col to_table to_col
  | DropFk table fk => spec_alter d table (without_fk fk) id
  | SetRefs table cols => spec_alter d table (with_ref_cols cols) id
  | SetWidth table col width => spec_alter d table (with_width col width) id
  end.

(** ** Rows and columns of an edited table *)

Lemma map_slots_id pgs : map_slots id pgs = pgs.
Proof.
  unfold map_slots. rewrite <- (list_fmap_id pgs) at 2. apply list_fmap_ext. intros _ [p l] _.
  unfold prod_map. cbn. f_equal. rewrite <- (list_fmap_id l) at 2. apply list_fmap_ext. by intros _ [] _.
Qed.

Lemma map_slots_live f pgs : live (map_slots f pgs) = prod_map id f <$> live pgs.
Proof.
  unfold live, map_slots. induction pgs as [|[p l] pgs IH]; [done|]. cbn [fmap list_fmap concat prod_map].
  rewrite fmap_app, IH. f_equal. unfold prod_map at 1. cbn [fst snd id]. generalize 0%nat as i.
  induction l as [|[r|] l IHl]; intros i; cbn; [done|by rewrite IHl|apply IHl].
Qed.

Lemma map_slots_pages f pgs : (map_slots f pgs).*1 = pgs.*1.
Proof. unfold map_slots. rewrite <- list_fmap_compose. by apply list_fmap_ext. Qed.

Lemma edit_rows s f t : dt_rows (edit_table s f t) = prod_map id f <$> dt_rows t.
Proof. apply map_slots_live. Qed.

Lemma elem_of_edit_rows s f t id r' : (id, r') ∈ dt_rows (edit_table s f t) <->
  exists r, (id, r) ∈ dt_rows t /\ r' = f r.
Proof.
  rewrite edit_rows, list_elem_of_fmap. split.
  - intros ([i r] & [= -> ->] & H). by exists r.
  - intros (r & H & ->). by exists (id, r).
Qed.

(** The index of a column in a schema without duplicate names. *)
Lemma column_index_nodup t ci c : NoDup (Column.name <$> Table.columns t) ->
  Table.columns t !! ci = Some c -> Table.column_index t (Column.name c) = Some ci.
Proof.
  intros Hn Hc. apply (position_lookup _ _ _ c Hc); [apply str_eqb_refl|].
  intros j y Hj Hy. apply not_true_is_false. intros E%str_eqb_eq.
  assert (j = ci); [|lia]. eapply NoDup_lookup; [exact Hn|by rewrite list_lookup_fmap, Hy|].
  rewrite list_lookup_fmap, Hc. cbn. by rewrite E.
Qed.

Lemma column_index_names t t' n : Column.name <$> Table.columns t' = Column.name <$> Table.columns t ->
  Table.column_index t' n = Table.column_index t n.
Proof.
  unfold Table.column_index. generalize (Table.columns t) (Table.columns t'). intros l l'.
  revert l. induction l' as [|c' l' IH]; intros [|c l] E; try done. injection E as E1 E2.
  cbn. by rewrite E1, (IH l).
Qed.

(** Picking cells. *)

Lemma pick_lookup {A} (perm : list nat) (l : list A) k : Forall (fun i => i < length l)%nat perm ->
  pick perm l !! k = (i ← perm !! k; l !! i).
Proof.
  unfold pick. intros H. revert k. induction H as [|i perm Hi _ IH]; intros k; [done|].
  destruct (lookup_lt_is_Some_2 l i Hi) as [x Hx]. cbn. rewrite Hx. destruct k; [done|]. apply IH.
Qed.

Lemma pick_length {A} (perm : list nat) (l : list A) : Forall (fun i => i < length l)%nat perm ->
  length (pick perm l) = length perm.
Proof.
  unfold pick. induction 1 as [|i perm Hi _ IH]; [done|].
  destruct (lookup_lt_is_Some_2 l i Hi) as [x Hx]. cbn. rewrite Hx. cbn. by rewrite IH.
Qed.

Lemma pick_app {A} p q (l : list A) : pick (p ++ q) l = pick p l ++ pick q l.
Proof. apply omap_app. Qed.

Lemma pick_seq {A} (l : list A) i n : (i + n <= length l)%nat -> pick (seq i n) l = take n (drop i l).
Proof.
  revert i. induction n as [|n IH]; intros i H; [done|]. cbn [seq].
  destruct (lookup_lt_is_Some_2 l i) as [x Hx]; [lia|].
  change (pick (i :: seq (S i) n) l) with (pick ([i] ++ seq (S i) n) l).
  rewrite pick_app, IH by lia. unfold pick. cbn. rewrite Hx. cbn. by rewrite (drop_S l x i Hx).
Qed.

Lemma seq_delete n idx : (idx < n)%nat -> delete idx (seq 0 n) = seq 0 idx ++ seq (S idx) (n - S idx).
Proof.
  intros H. rewrite delete_take_drop. replace n with (idx + S (n - S idx))%nat at 1 2 by lia.
  rewrite seq_app, take_app_length' by (by rewrite length_seq).
  rewrite drop_app_ge by (rewrite length_seq; lia). rewrite length_seq.
  replace (S idx - idx)%nat with 1%nat by lia. done.
Qed.

Lemma pick_delete {A} (l : list A) idx : (idx < length l)%nat ->
  delete idx l = pick (delete idx (seq 0 (length l))) l.
Proof.
  intros H. rewrite seq_delete, pick_app, !pick_seq, delete_take_drop by lia.
  f_equal. rewrite take_ge; [done|]. rewrite length_drop. lia.
Qed.

Lemma order_lt n idx : Forall (fun i => i < n)%nat (delete idx (seq 0 n)).
Proof.
  apply Forall_forall. intros i Hi%list_elem_of_delete_inv%elem_of_seq. lia.
Qed.

Lemma move_order_perm n old new : (old < n)%nat -> move_order n old new ≡ₚ seq 0 n.
Proof.
  intros H. unfold move_order. rewrite <- Permutation_middle, take_drop.
  rewrite seq_delete by done. rewrite Permutation_middle.
  replace (seq 0 n) with (seq 0 (old + S (n - S old))) by (f_equal; lia). by rewrite seq_app.
Qed.

Lemma move_order_lt n old new : (old < n)%nat -> Forall (fun i => i < n)%nat (move_order n old new).
Proof.
  intros H. rewrite (move_order_perm n old new H). apply Forall_forall. intros i Hi%elem_of_seq. lia.
Qed.

Lemma pick_take_drop {A} k (p : list nat) (l : list A) : Forall (fun i => i < length l)%nat p ->
  pick (take k p) l = take k (pick p l) /\ pick (drop k p) l = drop k (pick p l).
Proof.
  intros H. pose proof H as H'. rewrite <- (take_drop k p) in H'. apply Forall_app in H' as [H1 H2].
  assert (E : pick p l = pick (take k p) l ++ pick (drop k p) l) by (by rewrite <- pick_app, take_drop).
  assert (L1 : length (pick (take k p) l) = (k `min` length p)%nat) by (by rewrite pick_length, length_take).
  assert (L2 : length (pick (drop k p) l) = (length p - k)%nat) by (by rewrite pick_length, length_drop).
  rewrite E. destruct (decide (k <= length p)%nat) as [Hk|Hk].
  - rewrite take_app_length', drop_app_length' by lia. done.
  - rewrite (nil_length_inv (pick (drop k p) l)), app_nil_r by lia.
    rewrite (take_ge (pick _ _)), (drop_ge (pick _ _)) by lia. done.
Qed.

(** Moving an element is picking in another order. *)
Lemma pick_move {A} (l : list A) old new x : l !! old = Some x ->
  take new (delete old l) ++ x :: drop new (delete old l) = pick (move_order (length l) old new) l.
Proof.
  intros Hx. pose proof (lookup_lt_Some _ _ _ Hx) as Hl. unfold move_order. rewrite pick_app.
  destruct (pick_take_drop new (delete old (seq 0 (length l))) l (order_lt _ _)) as [E1 E2].
  rewrite E1. change (pick (old :: ?r) l) with (pick ([old] ++ r) l). rewrite pick_app, E2, <- pick_delete by done.
  f_equal. unfold pick. cbn. by rewrite Hx.
Qed.

(** ** The integrity of an edited table *)

(** A column the edit keeps: its type, and the cells of every row. *)
Definition keeps (t : dtable) (s : Table.t) (f : row -> row) (n : bytes) (unique : bool) : Prop :=
  forall ci c, Table.column_index (dt_schema t) n = Some ci -> dt_cols t !! ci = Some c ->
    exists ci' c', Table.column_index s n = Some ci' /\ Table.columns s !! ci' = Some c' /\
      Column.ty c' = Column.ty c /\ (unique = true -> Column.unique c = true -> Column.unique c' = true) /\
      forall id r, (id, r) ∈ dt_rows t -> cell_at (f r) ci' = cell_at r ci.

Record edited (d : database) (i : nat) (t : dtable) (s : Table.t) (f : row -> row) : Prop := {
  ed_name : Table.name s = dt_name t;
  ed_cols : NoDup (Column.name <$> Table.columns s);
  ed_typed id r : (id, r) ∈ dt_rows t -> Forall2 typed (Table.columns s) (f r);
  ed_unique ci c : Table.columns s !! ci = Some c -> Column.unique c = true -> unique_col (edit_table s f t) ci;
  ed_fks fk : fk ∈ Table.fks s ->
    (fk ∈ Table.fks (dt_schema t) /\ keeps t s f (ForeignKey.from_col fk) false) \/
    exists j ci tci u, fk_resolves (<[i := edit_table s f t]> d) (edit_table s f t) fk j ci tci u;
  ed_targets j u fk : d !! j = Some u -> fk ∈ Table.fks (dt_schema u) -> ForeignKey.to_table fk = dt_name t ->
    keeps t s f (ForeignKey.to_col fk) true
}.

(** A reference that survives the edit of the table it is from or to. *)
Lemma resolves_edited d i t s f j u fk k ci tci w : integrity d -> d !! i = Some t -> edited d i t s f ->
  d !! j = Some u -> fk ∈ Table.fks (dt_schema u) -> fk_resolves d u fk k ci tci w ->
  (j = i -> keeps t s f (ForeignKey.from_col fk) false) ->
  exists ci' tci' w', fk_resolves (<[i := edit_table s f t]> d)
    (if decide (j = i) then edit_table s f t else u) fk k ci' tci' w'.
Proof.
  intros Hd Hi [En Hcols _ _ _ Htg] Hj Hfk [F1 F2 F3 F4 F5 F6] Hkeep.
  set (t' := edit_table s f t) in *. set (u' := if decide (j = i) then t' else u).
  set (w' := if decide (k = i) then t' else w).
  assert (Hu : exists c ci' c', dt_cols u !! ci = Some c /\
    Table.column_index (dt_schema u') (ForeignKey.from_col fk) = Some ci' /\ dt_cols u' !! ci' = Some c' /\
    Column.ty c' = Column.ty c /\
    forall id r', (id, r') ∈ dt_rows u' -> exists r, (id, r) ∈ dt_rows u /\ cell_at r' ci' = cell_at r ci).
  { destruct (TableFacts.column_index_some _ _ _ F1) as (c & Hc & _). exists c. unfold u'. destruct (decide (j = i)) as [->|].
    - rewrite Hi in Hj. injection Hj as <-.
      destruct (Hkeep eq_refl ci c F1 Hc) as (ci' & c' & H1 & H2 & H3 & _ & H5).
      exists ci', c'. split_and!; [done..|]. intros id r' (r & Hr & ->)%elem_of_edit_rows. exists r.
      split; [done|]. by eapply H5.
    - exists ci, c. split_and!; [done..|]. intros id r' Hr. by exists r'. }
  assert (Hw : exists tc tci' tc', dt_cols w !! tci = Some tc /\
    Table.column_index (dt_schema w') (ForeignKey.to_col fk) = Some tci' /\ dt_cols w' !! tci' = Some tc' /\
    Column.ty tc' = Column.ty tc /\ (Column.unique tc = true -> Column.unique tc' = true) /\
    forall id r, (id, r) ∈ dt_rows w -> exists r', (id, r') ∈ dt_rows w' /\ cell_at r' tci' = cell_at r tci).
  { destruct (TableFacts.column_index_some _ _ _ F4) as (c & Hc & _). exists c. unfold w'. destruct (decide (k = i)) as [->|].
    - rewrite Hi in F2. injection F2 as <-.
      destruct (Htg j u fk Hj Hfk (eq_sym F3) tci c F4 Hc) as (ci' & c' & H1 & H2 & H3 & H4 & H5).
      exists ci', c'. split_and!; [done|done|done|done|by apply H4|]. intros id r Hr. exists (f r).
      split; [apply elem_of_edit_rows; by exists r|]. by eapply H5.
    - exists tci, c. split_and!; [done..|]. intros id r Hr. by exists r. }
  destruct Hu as (c & ci' & c' & U1 & U2 & U3 & U4 & U5).
  destruct Hw as (tc & tci' & tc' & W1 & W2 & W3 & W4 & W5 & W6).
  exists ci', tci', w'. destruct (F5 c tc U1 W1) as [Ety Euq]. split; try done.
  - unfold w'. destruct (decide (k = i)) as [->|]; [|by rewrite list_lookup_insert_ne].
    apply list_lookup_insert_eq. by eapply lookup_lt_Some.
  - unfold w'. destruct (decide (k = i)) as [->|]; [|done]. rewrite Hi in F2. injection F2 as <-.
    unfold t', dt_name. cbn. by rewrite En.
  - intros x y Hx Hy. rewrite U3 in Hx. rewrite W3 in Hy. injection Hx as <-. injection Hy as <-.
    split; [congruence|by apply W5].
  - intros id r' v Hr' Hv. destruct (U5 id r' Hr') as (r & Hr & Ec). rewrite Ec in Hv.
    destruct (F6 id r v Hr Hv) as (id2 & r2 & H2 & Hv2). destruct (W6 id2 r2 H2) as (r2' & H2' & Ec2).
    exists id2, r2'. split; [done|]. congruence.
Qed.

Lemma edit_table_integrity d i t s f : integrity d -> d !! i = Some t -> edited d i t s f ->
  integrity (<[i := edit_table s f t]> d).
Proof.
  intros Hd Hi Hed. pose proof Hed as [En Hcols Hty Hun Hfks Htg]. pose proof Hd as [Hn Ht].
  set (t' := edit_table s f t) in *. split.
  - rewrite list_fmap_insert. unfold dt_name at 1, t'. cbn. rewrite En.
    rewrite list_insert_id; [done|]. by rewrite list_lookup_fmap, Hi.
  - intros j u Hj. destruct (decide (j = i)) as [->|Hne].
    + rewrite list_lookup_insert_eq in Hj by (by eapply lookup_lt_Some). injection Hj as <-.
      destruct (Ht i t Hi) as [P1 P2 P3 P4 P5]. split.
      * unfold t'. cbn. by rewrite map_slots_pages.
      * done.
      * intros id r' (r & Hr & ->)%elem_of_edit_rows. by eapply Hty.
      * done.
      * intros fk Hfk. destruct (Hfks fk Hfk) as [[Hold Hk]|Hnew]; [|done].
        destruct (P5 fk Hold) as (k & ci & tci & w & Hr).
        destruct (resolves_edited d i t s f i t fk k ci tci w Hd Hi Hed Hi Hold Hr) as (ci' & tci' & w' & Hr');
          [done|].
        exists k, ci', tci', w'. by rewrite decide_True in Hr'.
    + rewrite list_lookup_insert_ne in Hj by done. destruct (Ht j u Hj) as [P1 P2 P3 P4 P5]. split; try done.
      intros fk Hfk. destruct (P5 fk Hfk) as (k & ci & tci & w & Hr).
      destruct (resolves_edited d i t s f j u fk k ci tci w Hd Hi Hed Hj Hfk Hr) as (ci' & tci' & w' & Hr');
        [done|].
      exists k, ci', tci', w'. by rewrite decide_False in Hr'.
Qed.

(** ** Every edit keeps the integrity *)

Lemma spec_table_val d name t : spec_table d name = Val t ->
  exists i, find_table d name = Val i /\ d !! i = Some t /\ dt_name t = name.
Proof.
  unfold spec_table. intros (i & Hi & H)%bind_val.
  destruct (find_table_val _ _ _ Hi) as (u & Hu & En). unfold table_at in H. rewrite Hu in H.
  injection H as <-. by exists i.
Qed.

Lemma spec_alter_val d name g f d' : spec_alter d name g f = Val d' ->
  exists i t s, find_table d name = Val i /\ d !! i = Some t /\ dt_name t = name /\
    g (dt_schema t) = Val s /\ d' = <[i := edit_table s f t]> d.
Proof.
  unfold spec_alter. intros (i & Hi & H)%bind_val.
  destruct (find_table_val _ _ _ Hi) as (u & Hu & En). unfold table_at in H. rewrite Hu in H.
  cbn in H. apply bind_val in H as (s & Hs & [= <-]). by exists i, u, s.
Qed.

(** The guards and the edit speak of the same table. *)
Lemma spec_alter_at d name i t g f d' : find_table d name = Val i -> d !! i = Some t ->
  spec_alter d name g f = Val d' -> exists s, g (dt_schema t) = Val s /\ d' = <[i := edit_table s f t]> d.
Proof.
  intros Hi Ht (i' & t' & s & Hi' & Ht' & _ & Hg & ->)%spec_alter_val.
  rewrite Hi in Hi'. injection Hi' as <-. rewrite Ht in Ht'. injection Ht' as <-. by exists s.
Qed.

Lemma row_length d i t id r : integrity d -> d !! i = Some t -> (id, r) ∈ dt_rows t ->
  length r = length (dt_cols t).
Proof. intros Hd Hi Hr. symmetry. eapply Forall2_length, ti_typed; [by eapply in_tables|done]. Qed.

Lemma cell_at_eq (r r' : row) i j : r !! i = r' !! j -> cell_at r i = cell_at r' j.
Proof. unfold cell_at. by intros ->. Qed.

(** The same columns, at most their uniqueness and width changed. *)
Definition same_col (c' c : Column.t) : Prop :=
  Column.name c' = Column.name c /\ Column.ty c' = Column.ty c /\ Column.nullable c' = Column.nullable c.

Lemma same_col_refl c : same_col c c.
Proof. done. Qed.

Lemma same_cols_names l' l : Forall2 same_col l' l -> Column.name <$> l' = Column.name <$> l.
Proof. induction 1 as [|c' c l' l (E & _) _ IH]; [done|]. cbn. by rewrite E, IH. Qed.

Lemma typed_same c' c x : same_col c' c -> typed c x -> typed c' x.
Proof. intros (_ & E1 & E2). unfold typed. by rewrite E1, E2. Qed.

Lemma keeps_same t s n b : Forall2 same_col (Table.columns s) (dt_cols t) ->
  (forall ci c c', b = true -> dt_cols t !! ci = Some c -> Table.columns s !! ci = Some c' -> Column.name c = n ->
     Column.unique c = true -> Column.unique c' = true) ->
  keeps t s id n b.
Proof.
  intros Hs Hu ci c Hci Hc. destruct (Forall2_lookup_r _ _ _ _ _ Hs Hc) as (c' & Hc' & E1 & E2 & _).
  exists ci, c'. split_and!; [by rewrite (column_index_names _ _ n (same_cols_names _ _ Hs))|done|done| |done].
  intros Hb. eapply Hu; try done. destruct (TableFacts.column_index_some _ _ _ Hci) as (c0 & Hc0 & <-).
  unfold dt_cols in Hc. congruence.
Qed.

Lemma edit_table_id s t : dt_rows (edit_table s id t) = dt_rows t.
Proof. unfold edit_table, dt_rows. cbn. by rewrite map_slots_id. Qed.

Lemma same_edited d i t s : integrity d -> d !! i = Some t -> Table.name s = dt_name t ->
  Forall2 same_col (Table.columns s) (dt_cols t) ->
  (forall ci c, Table.columns s !! ci = Some c -> Column.unique c = true -> unique_col t ci) ->
  (forall ci c c', dt_cols t !! ci = Some c -> Table.columns s !! ci = Some c' -> Column.unique c = true ->
     Column.unique c' = true \/ forall j u fk, d !! j = Some u -> fk ∈ Table.fks (dt_schema u) ->
       ~ (ForeignKey.to_table fk = dt_name t /\ ForeignKey.to_col fk = Column.name c)) ->
  (forall fk, fk ∈ Table.fks s -> fk ∈ Table.fks (dt_schema t) \/
     exists j ci tci u, fk_resolves (<[i := edit_table s id t]> d) (edit_table s id t) fk j ci tci u) ->
  edited d i t s id.
Proof.
  intros Hd Hi En Hs Hu Huq Hfks. pose proof (in_tables _ Hd i t Hi) as [P1 P2 P3 P4 P5]. split; try done.
  - by rewrite (same_cols_names _ _ Hs).
  - intros id r Hr. eapply Forall2_same_length_lookup_2.
    { rewrite (Forall2_length _ _ _ Hs). by eapply Forall2_length, P3. }
    intros k c' x Hc' Hx. destruct (Forall2_lookup_l _ _ _ _ _ Hs Hc') as (c & Hc & E).
    eapply typed_same; [done|]. by eapply Forall2_lookup_lr; [apply (P3 id r Hr)|..].
  - intros ci c Hc Hcu. unfold unique_col. rewrite edit_table_id. by eapply Hu.
  - intros fk Hfk. destruct (Hfks fk Hfk) as [Hold|Hnew]; [left|by right]. split; [done|]. by apply keeps_same.
  - intros j u fk Hj Hfk Hto. apply keeps_same; [done|]. intros ci c c' _ Hc Hc' Ec Hcu.
    destruct (Huq ci c c' Hc Hc' Hcu) as [|Hno]; [done|]. destruct (Hno j u fk Hj Hfk). by split.
Qed.

(** Columns and cells picked by the same order. *)
Lemma picked_edited d i t s perm f : integrity d -> d !! i = Some t -> Table.name s = dt_name t ->
  Table.fks s = Table.fks (dt_schema t) ->
  NoDup perm -> Forall (fun k => k < length (dt_cols t))%nat perm ->
  Table.columns s = pick perm (dt_cols t) ->
  (forall id r, (id, r) ∈ dt_rows t -> f r = pick perm r) ->
  (forall j u fk ci, d !! j = Some u -> fk ∈ Table.fks (dt_schema u) -> ForeignKey.to_table fk = dt_name t ->
     Table.column_index (dt_schema t) (ForeignKey.to_col fk) = Some ci -> ci ∈ perm) ->
  (forall fk ci, fk ∈ Table.fks (dt_schema t) ->
     Table.column_index (dt_schema t) (ForeignKey.from_col fk) = Some ci -> ci ∈ perm) ->
  edited d i t s f.
Proof.
  intros Hd Hi En Efk Hnd Hlt Ec Hf Hto Hfrom. pose proof (in_tables _ Hd i t Hi) as [P1 P2 P3 P4 P5].
  assert (Hcol : forall k ci c, perm !! k = Some ci -> dt_cols t !! ci = Some c -> Table.columns s !! k = Some c).
  { intros k ci c Hk Hc. rewrite Ec, pick_lookup, Hk by done. done. }
  assert (Hback : forall k c, Table.columns s !! k = Some c -> exists ci, perm !! k = Some ci /\ dt_cols t !! ci = Some c).
  { intros k c Hc. rewrite Ec, pick_lookup in Hc by done. destruct (perm !! k) as [ci|]; [|done]. by exists ci. }
  assert (Hrow : forall id r k ci, (id, r) ∈ dt_rows t -> perm !! k = Some ci -> f r !! k = r !! ci).
  { intros id r k ci Hr Hk. rewrite (Hf id r Hr), pick_lookup; [by rewrite Hk|].
    by rewrite (row_length d i t id r). }
  assert (Hnames : NoDup (Column.name <$> Table.columns s)).
  { apply NoDup_fmap_2_strong.
    - intros c1 c2 [k1 H1]%list_elem_of_lookup [k2 H2]%list_elem_of_lookup E.
      destruct (Hback k1 c1 H1) as (i1 & _ & G1). destruct (Hback k2 c2 H2) as (i2 & _ & G2).
      assert (i1 = i2); [|congruence]. eapply (NoDup_lookup _ _ _ (Column.name c1) P2); rewrite list_lookup_fmap.
      + by rewrite G1.
      + by rewrite G2, E.
    - apply NoDup_alt. intros k1 k2 c H1 H2.
      destruct (Hback k1 c H1) as (i1 & G1 & C1). destruct (Hback k2 c H2) as (i2 & G2 & C2).
      assert (i1 = i2) as ->; [|by eapply (NoDup_lookup perm)].
      eapply (NoDup_lookup _ _ _ (Column.name c) P2); rewrite list_lookup_fmap; [by rewrite C1|by rewrite C2]. }
  assert (Hkeep : forall n b, (forall ci, Table.column_index (dt_schema t) n = Some ci -> ci ∈ perm) -> keeps t s f n b).
  { intros n b Hin ci c Hci Hc. destruct (list_elem_of_lookup_1 _ _ (Hin ci Hci)) as [k Hk].
    exists k, c. pose proof (Hcol k ci c Hk Hc) as Hk'. split_and!; [|done|done|done|].
    - destruct (TableFacts.column_index_some _ _ _ Hci) as (c0 & Hc0 & <-).
      assert (c0 = c) as -> by (unfold dt_cols in Hc; congruence). by apply column_index_nodup.
    - intros id r Hr. apply cell_at_eq. by eapply Hrow. }
  split; try done.
  - intros id r Hr. pose proof (row_length d i t id r Hd Hi Hr) as Hl. apply Forall2_same_length_lookup_2.
    + rewrite Ec, (Hf id r Hr), !pick_length; [done| |done]. by rewrite Hl.
    + intros k c x Hc Hx. destruct (Hback k c Hc) as (ci & Hk & Hci). rewrite (Hrow id r k ci Hr Hk) in Hx.
      by eapply Forall2_lookup_lr; [apply (P3 id r Hr)|..].
  - intros k c Hc Hcu id1 id2 r1' r2' v (r1 & H1 & ->)%elem_of_edit_rows (r2 & H2 & ->)%elem_of_edit_rows.
    destruct (Hback k c Hc) as (ci & Hk & Hci).
    rewrite (cell_at_eq _ r1 k ci) by (by eapply Hrow). rewrite (cell_at_eq (f r2) r2 k ci) by (by eapply Hrow).
    intros V1 V2. by eapply (P4 ci c Hci Hcu).
  - intros fk Hfk. left. rewrite Efk in Hfk. split; [done|]. apply Hkeep. intros ci Hci. by eapply Hfrom.
  - intros j u fk Hj Hfk E. apply Hkeep. intros ci Hci. by eapply Hto.
Qed.

Lemma column_none t n : Table.column t n = None <-> n ∉ (Column.name <$> Table.columns t).
Proof.
  unfold Table.column. split.
  - intros H (c & -> & Hc)%list_elem_of_fmap. apply list_elem_of_In in Hc.
    pose proof (List.find_none _ _ H c Hc) as E. cbv beta in E. by rewrite str_eqb_refl in E.
  - intros H. destruct (List.find _ _) as [c|] eqn:E; [|done].
    apply List.find_some in E as [Hc%list_elem_of_In E%str_eqb_eq]. exfalso. apply H.
    apply list_elem_of_fmap. by exists c.
Qed.

Lemma column_some t n c : Table.column t n = Some c ->
  exists ci, Table.column_index t n = Some ci /\ Table.columns t !! ci = Some c /\ Column.name c = n.
Proof.
  unfold Table.column, Table.column_index. generalize (Table.columns t) as l. induction l as [|x l IH]; [done|].
  cbn. destruct (str_eqb (Column.name x) n) eqn:E.
  - intros [= <-]. apply str_eqb_eq in E. by exists 0%nat.
  - intros H. destruct (IH H) as (ci & H1 & H2 & H3). exists (S ci). by rewrite H1.
Qed.

Lemma position_app {A} (f : A -> bool) l l' i : position f l = Some i -> position f (l ++ l') = Some i.
Proof.
  revert i. induction l as [|x l IH]; intros i H; [done|]. cbn in *. destruct (f x); [done|].
  destruct (position f l) as [j|]; [|done]. by rewrite (IH j).
Qed.

Lemma spec_col_val t shown col ci : spec_col t shown col = Val ci -> Table.column_index (dt_schema t) col = Some ci.
Proof. by intros ?%ok_or_val. Qed.

Lemma add_column_integrity d table col d' : integrity d -> spec_add_column d table col = Val d' -> integrity d'.
Proof.
  intros Hd (t & (i & Hi & Ht & En)%spec_table_val & H)%bind_val.
  destruct (negb (Column.nullable col) && (0 <? len (dt_rows t))) eqn:Eb; [done|].
  destruct (spec_alter_at _ _ _ _ _ _ _ Hi Ht H) as (s & Hs & ->).
  unfold with_new_column in Hs. destruct (Table.column _ _) eqn:Ec; [done|]. injection Hs as <-.
  apply column_none in Ec. pose proof (in_tables _ Hd i t Ht) as [P1 P2 P3 P4 P5].
  assert (Hcell : forall id r ci, (id, r) ∈ dt_rows t -> (ci < length (dt_cols t))%nat ->
    cell_at (r ++ [None]) ci = cell_at r ci).
  { intros id r ci Hr Hci. apply cell_at_eq. apply lookup_app_l. by rewrite (row_length d i t id r). }
  assert (Hkeep : forall n b, keeps t (with_columns (Table.columns (dt_schema t) ++ [col]) (dt_schema t))
    (fun r => r ++ [None]) n b).
  { intros n b ci c Hci Hc. exists ci, c. split_and!; [by apply position_app| |done|done|].
    - cbn. by apply lookup_app_l_Some.
    - intros id r Hr. eapply Hcell; [done|]. by eapply lookup_lt_Some. }
  apply edit_table_integrity; [done..|]. split; try done.
  - cbn. rewrite fmap_app. apply NoDup_app. split_and!; [done| |apply NoDup_singleton].
    by intros n Hn ->%list_elem_of_singleton.
  - intros id r Hr. cbn. apply Forall2_app; [by eapply P3|]. constructor; [|constructor]. cbn.
    destruct (Column.nullable col); [done|]. cbn in Eb. apply Z.ltb_ge in Eb.
    destruct (dt_rows t); [by apply elem_of_nil in Hr|cbn in Eb; lia].
  - intros ci c Hc Hcu id1 id2 r1' r2' v (r1 & H1 & ->)%elem_of_edit_rows (r2 & H2 & ->)%elem_of_edit_rows V1 V2.
    cbn in Hc. destruct (decide (ci < length (dt_cols t))%nat) as [Hlt|Hge].
    + rewrite lookup_app_l in Hc by done. erewrite Hcell in V1, V2 by done. by eapply (P4 ci c).
    + exfalso. apply cell_at_lookup in V1. pose proof (row_length d i t id1 r1 Hd Ht H1) as El.
      apply lookup_app_Some in V1 as [V1%lookup_lt_Some|[_ V1]]; [by apply Hge, (Nat.lt_le_trans _ _ _ V1), Nat.eq_le_incl|].
      by apply list_lookup_singleton_Some in V1 as [_ ?].
  - intros fk Hfk. by left.
Qed.

Lemma targeted_val d table col why : spec_targeted d table col why = Val tt ->
  forall j u fk, d !! j = Some u -> fk ∈ Table.fks (dt_schema u) ->
    ~ (ForeignKey.to_table fk = table /\ ForeignKey.to_col fk = col).
Proof.
  unfold spec_targeted. rewrite each_o_val. intros H j u fk Hj Hfk [E1 E2].
  specialize (H u ltac:(by eapply list_elem_of_lookup_2)).
  destruct (existsb _ _) eqn:E; [done|]. rewrite existsb_false in E. specialize (E fk Hfk).
  apply andb_false_iff in E as [E|E]; [rewrite E1 in E|rewrite E2 in E]; by rewrite str_eqb_refl in E.
Qed.

Lemma column_index_inj t n1 n2 ci : Table.column_index t n1 = Some ci -> Table.column_index t n2 = Some ci -> n1 = n2.
Proof. intros (c1 & H1 & <-)%TableFacts.column_index_some (c2 & H2 & <-)%TableFacts.column_index_some. congruence. Qed.

Lemma drop_column_integrity d table col d' : integrity d -> spec_drop_column d table col = Val d' -> integrity d'.
Proof.
  intros Hd (t & (i & Hi & Ht & En)%spec_table_val & H)%bind_val.
  apply bind_val in H as (idx & Hidx%spec_col_val & H).
  destruct (existsb _ _) eqn:Ec; [done|]. rewrite existsb_false in Ec.
  apply bind_val in H as ([] & Htg & H). pose proof (targeted_val _ _ _ _ Htg) as Hno.
  destruct (spec_alter_at _ _ _ _ _ _ _ Hi Ht H) as (s & Hs & ->).
  destruct (TableFacts.column_index_some _ _ _ Hidx) as (c & Hc & Enc).
  unfold without_column in Hs. rewrite Hc in Hs. injection Hs as <-.
  pose proof (lookup_lt_Some _ _ _ Hc) as Hlt. fold (dt_cols t) in Hlt.
  assert (Hin : forall n ci, n <> col -> Table.column_index (dt_schema t) n = Some ci ->
    ci ∈ delete idx (seq 0 (length (dt_cols t)))).
  { intros n ci Hn Hci. destruct (TableFacts.column_index_some _ _ _ Hci) as (c' & Hc' & _).
    apply lookup_lt_Some in Hc'. fold (dt_cols t) in Hc'. rewrite seq_delete by done.
    apply elem_of_app. rewrite !elem_of_seq. destruct (decide (ci = idx)) as [->|]; [|lia].
    by destruct Hn; eapply column_index_inj. }
  apply edit_table_integrity; [done..|].
  apply (picked_edited d i t _ (delete idx (seq 0 (length (dt_cols t))))); try done.
  - eapply sublist_NoDup; [apply NoDup_seq|apply sublist_delete].
  - apply order_lt.
  - cbn. by apply pick_delete.
  - intros id r Hr. pose proof (row_length d i t id r Hd Ht Hr) as El. rewrite <- El. apply pick_delete. lia.
  - intros j u fk ci Hj Hfk E Hci. eapply Hin; [|done]. intros E2. apply (Hno j u fk Hj Hfk). by rewrite E, En.
  - intros fk ci Hfk Hci. eapply Hin; [|done]. intros E2. specialize (Ec fk Hfk). rewrite E2 in Ec.
    by rewrite str_eqb_refl in Ec.
Qed.

Lemma with_moved_val old new t s c : Table.columns t !! old = Some c -> with_moved old new t = Val s ->
  s = with_columns (pick (move_order (length (Table.columns t)) old new) (Table.columns t)) t.
Proof.
  unfold with_moved. intros Hc. rewrite Hc. cbn. intros (cols & Hi & [= <-])%bind_val.
  unfold insert_at in Hi. destruct (_ <=? _)%nat; [|done]. injection Hi as <-.
  by rewrite (pick_move _ old new c).
Qed.

Lemma move_column_integrity d table col new d' : integrity d -> spec_move_column d table col new = Val d' -> integrity d'.
Proof.
  intros Hd (t & (i & Hi & Ht & En)%spec_table_val & H)%bind_val.
  apply bind_val in H as (old & Hold%spec_col_val & H).
  destruct (_ <=? _)%nat eqn:Hn; [done|]. destruct (new =? old)%nat; [by injection H as <-|].
  destruct (spec_alter_at _ _ _ _ _ _ _ Hi Ht H) as (s & Hs & ->).
  destruct (TableFacts.column_index_some _ _ _ Hold) as (c & Hc & _).
  pose proof (lookup_lt_Some _ _ _ Hc) as Hlt. fold (dt_cols t) in Hlt.
  rewrite (with_moved_val _ _ _ _ _ Hc Hs). fold (dt_cols t).
  assert (Hin : forall n ci, Table.column_index (dt_schema t) n = Some ci -> ci ∈ move_order (length (dt_cols t)) old new).
  { intros n ci Hci. destruct (TableFacts.column_index_some _ _ _ Hci) as (c' & Hc' & _).
    apply lookup_lt_Some in Hc'. rewrite move_order_perm by done. apply elem_of_seq. unfold dt_cols. lia. }
  apply edit_table_integrity; [done..|].
  apply (picked_edited d i t _ (move_order (length (dt_cols t)) old new)); try done.
  - rewrite move_order_perm by done. apply NoDup_seq.
  - by apply move_order_lt.
  - intros j u fk ci _ _ _. apply Hin.
  - intros fk ci _. apply Hin.
Qed.

(** *** Renaming *)

Lemma rename_str_inj old new n m : n <> new -> m <> new ->
  str_eqb (rename_str old new n) (rename_str old new m) = str_eqb n m.
Proof.
  intros Hn Hm. unfold rename_str, str_eqb. repeat case_bool_decide; congruence.
Qed.

(** The schema of a renamed table, part by part. *)
Definition rename_col (old new : bytes) (c : Column.t) : Column.t :=
  Column.mk (rename_str old new (Column.name c)) (Column.ty c) (Column.nullable c) (Column.unique c)
    (Column.display_width c).
Definition rename_fk (table old new : bytes) (owns : bool) (f : ForeignKey.t) : ForeignKey.t :=
  ForeignKey.mk (ForeignKey.name f)
    (if owns then rename_str old new (ForeignKey.from_col f) else ForeignKey.from_col f)
    (ForeignKey.to_table f)
    (if str_eqb (ForeignKey.to_table f) table then rename_str old new (ForeignKey.to_col f)
     else ForeignKey.to_col f).

Section Rename.
Context (table old new : bytes).

Lemma rename_name u : dt_name (rename_table table old new u) = dt_name u.
Proof. done. Qed.
Lemma rename_cols u : dt_cols (rename_table table old new u) =
  if str_eqb (dt_name u) table then rename_col old new <$> dt_cols u else dt_cols u.
Proof. unfold rename_table, dt_cols, rename_in. cbn. by destruct (str_eqb _ _). Qed.
Lemma rename_fks u : Table.fks (dt_schema (rename_table table old new u)) =
  rename_fk table old new (str_eqb (dt_name u) table) <$> Table.fks (dt_schema u).
Proof. done. Qed.
Lemma rename_rows u : dt_rows (rename_table table old new u) = dt_rows u.
Proof. done. Qed.

Lemma rename_lookup u ci c' : dt_cols (rename_table table old new u) !! ci = Some c' ->
  exists c, dt_cols u !! ci = Some c /\ same_col (Column.mk (Column.name c) (Column.ty c') (Column.nullable c') (Column.unique c') (Column.display_width c')) c /\
    Column.unique c' = Column.unique c.
Proof.
  rewrite rename_cols. destruct (str_eqb _ _); [|intros H; by exists c'].
  rewrite list_lookup_fmap. destruct (dt_cols u !! ci) as [c|]; [|done]. intros [= <-]. by exists c.
Qed.

(** The renamed column stays where it is. *)
Lemma rename_index u n ci : (dt_name u = table -> new ∉ (Column.name <$> dt_cols u)) ->
  Table.column_index (dt_schema u) n = Some ci ->
  Table.column_index (dt_schema (rename_table table old new u))
    (if str_eqb (dt_name u) table then rename_str old new n else n) = Some ci.
Proof.
  intros Hno Hci. pose proof (rename_cols u) as Ec. unfold dt_cols in Ec. unfold Table.column_index in *. rewrite Ec.
  destruct (str_eqb (dt_name u) table) eqn:E; [|done]. apply str_eqb_eq in E. specialize (Hno E).
  assert (Hn : n <> new).
  { intros ->. destruct (TableFacts.column_index_some _ _ _ Hci) as (c & Hc & En). apply Hno, list_elem_of_fmap.
    exists c. split; [done|]. by eapply list_elem_of_lookup_2. }
  unfold dt_cols in Hno. revert ci Hci Hno. generalize (Table.columns (dt_schema u)) as l.
  induction l as [|c l IH]; intros ci Hci Hno; [done|]. cbn in *. apply not_elem_of_cons in Hno as [H1 H2].
  rewrite rename_str_inj by done. destruct (str_eqb (Column.name c) n); [done|].
  destruct (position _ l) as [k|]; [|done]. by rewrite (IH k).
Qed.

Lemma rename_integrity d i t : integrity d -> find_table d table = Val i -> d !! i = Some t ->
  new ∉ (Column.name <$> dt_cols t) -> integrity (rename_table table old new <$> d).
Proof.
  intros Hd Hi Ht Hnew. destruct (find_table_val _ _ _ Hi) as (t0 & Ht0 & En). rewrite Ht in Ht0. injection Ht0 as <-.
  assert (Hno : forall j u, d !! j = Some u -> dt_name u = table -> new ∉ (Column.name <$> dt_cols u)).
  { intros j u Hj Eu. assert (j = i) as -> by (eapply (names_inj d); [apply Hd|done|done|congruence]). congruence. }
  split.
  - rewrite <- list_fmap_compose. by apply Hd.
  - intros j u' Hj'. rewrite list_lookup_fmap in Hj'. destruct (d !! j) as [u|] eqn:Hj; [|done]. injection Hj' as <-.
    pose proof (in_tables _ Hd j u Hj) as [P1 P2 P3 P4 P5]. split; [done| | | |].
    + rewrite rename_cols. destruct (str_eqb (dt_name u) table) eqn:E; [|done]. apply str_eqb_eq in E.
      specialize (Hno j u Hj E). rewrite <- list_fmap_compose. revert P2 Hno. generalize (dt_cols u) as l.
      induction l as [|c l IH]; intros H1 H2; [constructor|]. cbn in *.
      apply NoDup_cons in H1 as [H1 H1']. apply not_elem_of_cons in H2 as [H2 H2'].
      constructor; [|by apply IH]. intros (c2 & E2 & Hc2)%list_elem_of_fmap. cbn in E2.
      assert (Hc2' : Column.name c2 ∈ (Column.name <$> l)) by (apply list_elem_of_fmap; by exists c2).
      assert (Eb : str_eqb (Column.name c) (Column.name c2) = true).
      { rewrite <- (rename_str_inj old new) by congruence. by apply str_eqb_eq. }
      apply str_eqb_eq in Eb. by rewrite Eb in H1.
    + intros id r Hr. rewrite rename_rows in Hr. apply Forall2_same_length_lookup_2.
      { rewrite rename_cols. destruct (str_eqb _ _); rewrite ?length_fmap; by eapply Forall2_length, P3. }
      intros k c' x Hc' Hx. destruct (rename_lookup _ _ _ Hc') as (c & Hc & (_ & E1 & E2) & _). cbn in E1, E2.
      pose proof (Forall2_lookup_lr _ _ _ _ _ _ (P3 id r Hr) Hc Hx) as Hty. unfold typed in *. by rewrite E1, E2.
    + intros ci c' Hc' Hcu. destruct (rename_lookup _ _ _ Hc') as (c & Hc & _ & Eu).
      apply (P4 ci c Hc). congruence.
    + intros fk' Hfk'. rewrite rename_fks in Hfk'. apply list_elem_of_fmap in Hfk' as (fk & -> & Hfk).
      destruct (P5 fk Hfk) as (k & ci & tci & w & [F1 F2 F3 F4 F5 F6]).
      exists k, ci, tci, (rename_table table old new w). split.
      * cbn. by apply rename_index; [apply (Hno j u)|].
      * by rewrite list_lookup_fmap, F2.
      * done.
      * cbn. rewrite <- F3. by apply rename_index; [apply (Hno k w)|].
      * intros c' tc' Hc' Htc'. destruct (rename_lookup _ _ _ Hc') as (c & Hc & (_ & E1 & _) & _).
        destruct (rename_lookup _ _ _ Htc') as (tc & Htc & (_ & E2 & _) & Eu). cbn in E1, E2.
        destruct (F5 c tc Hc Htc). split; congruence.
      * exact F6.
Qed.
End Rename.

Lemma rename_column_integrity d table old new d' : integrity d -> spec_rename_column d table old new = Val d' -> integrity d'.
Proof.
  intros Hd H. unfold spec_rename_column in H. destruct new as [|b new]; [done|].
  destruct (str_eqb _ _); [by injection H as <-|].
  apply bind_val in H as (t & (i & Hi & Ht & En)%spec_table_val & H).
  destruct (Table.column _ old); [|done]. destruct (Table.column _ (b :: new)) eqn:Ec; [done|]. injection H as <-.
  apply column_none in Ec. by eapply rename_integrity.
Qed.

(** *** Uniqueness, foreign keys and display *)

Lemma no_duplicate vals : forall seen, has_duplicate vals seen = false ->
  forall i v, vals !! i = Some (Some v) -> v ∉ seen /\ forall j, vals !! j = Some (Some v) -> j = i.
Proof.
  induction vals as [|[w|] vals IH]; intros seen H i v Hi; [done| |].
  - cbn in H. destruct (existsb _ _) eqn:E; [done|]. rewrite existsb_false in E.
    assert (Hw : w ∉ seen) by (intros Hw; specialize (E w Hw); by rewrite bool_decide_eq_true_2 in E).
    destruct i as [|i]; cbn in Hi.
    + injection Hi as <-. split; [done|]. intros [|j] Hj; [done|]. cbn in Hj.
      destruct (IH _ H j w Hj) as [Hnot _]. destruct Hnot. apply elem_of_app. right. left.
    + destruct (IH _ H i v Hi) as [Hnot Hj]. apply not_elem_of_app in Hnot as [H1 H2]. split; [done|].
      intros [|j] Hj'; cbn in Hj'; [|f_equal; by apply Hj]. injection Hj' as ->. by destruct H2; left.
  - destruct i as [|i]; [done|]. cbn in Hi, H. destruct (IH _ H i v Hi) as [Hnot Hj]. split; [done|].
    intros [|j] Hj'; [done|]. f_equal. by apply Hj.
Qed.

Lemma same_cols_set (cols : list Column.t) ci c c' : cols !! ci = Some c -> same_col c' c ->
  Forall2 same_col (<[ci := c']> cols) cols.
Proof.
  intros Hc Hs. rewrite <- (list_insert_id cols ci c) at 2 by done.
  apply Forall2_insert; [|done]. by apply Forall_Forall2_diag, Forall_true.
Qed.

Lemma set_unique_integrity d table col u d' : integrity d -> spec_set_unique d table col u = Val d' -> integrity d'.
Proof.
  intros Hd (t & (i & Hi & Ht & En)%spec_table_val & H)%bind_val.
  apply bind_val in H as (ci & Hci%spec_col_val & H). apply bind_val in H as ([] & Hg & H).
  destruct (spec_alter_at _ _ _ _ _ _ _ Hi Ht H) as (s & Hs & ->).
  destruct (TableFacts.column_index_some _ _ _ Hci) as (c & Hc & Enc). pose proof (in_tables _ Hd i t Ht) as [P1 P2 P3 P4 P5].
  unfold with_unique in Hs. rewrite Hc in Hs. injection Hs as <-. cbn [Table.columns with_columns].
  apply edit_table_integrity; [done..|]. apply same_edited; try done.
  - by apply (same_cols_set _ ci c).
  - intros k c' Hk Hcu. cbn in Hk. destruct (decide (k = ci)) as [->|Hne].
    + rewrite list_lookup_insert_eq in Hk by (by eapply lookup_lt_Some). injection Hk as <-. cbn in Hcu. subst u.
      cbn in Hg. destruct (has_duplicate _ _) eqn:Hdup; [done|].
      intros id1 id2 r1 r2 v [k1 H1]%list_elem_of_lookup [k2 H2]%list_elem_of_lookup V1 V2.
      assert (Hv : forall k id r, dt_rows t !! k = Some (id, r) -> cell_at r ci = Some v ->
        column_cells t ci !! k = Some (Some v)).
      { intros k id r Hk V. unfold column_cells. by rewrite !list_lookup_fmap, Hk, <- V. }
      destruct (no_duplicate _ _ Hdup k1 v (Hv _ _ _ H1 V1)) as [_ Hk].
      assert (k2 = k1) by (by apply Hk; eapply Hv). congruence.
    + rewrite list_lookup_insert_ne in Hk by done. by apply (P4 k c').
  - intros k c0 c' Hk Hk' Hcu. cbn in Hk'. destruct (decide (k = ci)) as [->|Hne].
    + rewrite list_lookup_insert_eq in Hk' by (by eapply lookup_lt_Some). injection Hk' as <-. cbn.
      destruct u; [by left|right]. cbn in Hg. intros j w fk Hj Hfk [E1 E2].
      apply (targeted_val _ _ _ _ Hg j w fk Hj Hfk). unfold dt_cols in Hk. split; congruence.
    + rewrite list_lookup_insert_ne in Hk' by done. left. unfold dt_cols in Hk. congruence.
  - intros fk Hfk. by left.
Qed.

Lemma unmatched_none targets vals : unmatched targets vals = None ->
  forall v, Some v ∈ vals -> Some v ∈ targets.
Proof.
  unfold unmatched. intros H v Hv. destruct (existsb (fun x => bool_decide (x = Some v)) targets) eqn:E.
  { apply existsb_exists in E as (x & Hx%list_elem_of_In & ->%bool_decide_eq_true). done. }
  exfalso. assert (Hin : v ∈ omap id vals) by (apply list_elem_of_omap; by exists (Some v)).
  apply list_elem_of_In in Hin.
  assert (In v (List.filter (fun v => negb (existsb (fun x => bool_decide (x = Some v)) targets)) (omap id vals))) as Hf.
  { apply filter_In. split; [done|]. by rewrite E. }
  by destruct (List.filter _ _).
Qed.

Lemma elem_of_cells t ci v : Some v ∈ column_cells t ci <-> exists id r, (id, r) ∈ dt_rows t /\ cell_at r ci = Some v.
Proof.
  unfold column_cells. rewrite list_elem_of_fmap. split.
  - intros (r & E & Hr). apply list_elem_of_fmap in Hr as ([id r'] & -> & Hr). by exists id, r'.
  - intros (id & r & Hr & E). exists r. split; [done|]. apply list_elem_of_fmap. by exists (id, r).
Qed.

Lemma add_fk_integrity d table from_col to_table to_col d' : integrity d ->
  spec_add_fk d table from_col to_table to_col = Val d' -> integrity d'.
Proof.
  intros Hd (t & (i & Hi & Ht & En)%spec_table_val & H)%bind_val.
  apply bind_val in H as (fc & Hfc%ok_or_val & H).
  apply bind_val in H as (u & (k & Hk & Hu & Eu)%spec_table_val & H).
  apply bind_val in H as (tc & Htc%ok_or_val & H).
  destruct (Column.unique tc) eqn:Hun; [|done]. cbn [negb] in H. case_bool_decide as Hty; [|done]. cbn [negb] in H.
  destruct (column_some _ _ _ Htc) as (tci & Htci & Htc' & _). destruct (column_some _ _ _ Hfc) as (fci & Hfci & Hfc' & _).
  rewrite Htci, Hfci in H. cbn [or_panic mbind outcome_bind] in H.
  destruct (unmatched _ _) eqn:Hm; [done|]. apply bind_val in H as (name & _ & H).
  destruct (spec_alter_at _ _ _ _ _ _ _ Hi Ht H) as (s & Hs & ->). injection Hs as <-.
  pose proof (in_tables _ Hd i t Ht) as [P1 P2 P3 P4 P5]. apply edit_table_integrity; [done..|].
  apply same_edited; try done.
  - by apply Forall_Forall2_diag, Forall_true.
  - intros ci c c' Hc Hc' ?. left. unfold dt_cols in Hc. cbn in Hc'. congruence.
  - cbn. intros fk [Hfk| ->%list_elem_of_singleton]%elem_of_app; [by left|right].
    set (t' := edit_table _ id t). set (u' := if decide (k = i) then t' else u).
    assert (Hu' : dt_cols u' = dt_cols u /\ dt_rows u' = dt_rows u /\ dt_name u' = dt_name u /\
      forall n, Table.column_index (dt_schema u') n = Table.column_index (dt_schema u) n).
    { unfold u'. destruct (decide (k = i)) as [->|]; [|done]. assert (u = t) as -> by congruence.
      unfold t'. by rewrite edit_table_id. }
    destruct Hu' as (E1 & E2 & E3 & E4). exists k, fci, tci, u'. split; cbn.
    + done.
    + unfold u'. destruct (decide (k = i)) as [->|]; [|by rewrite list_lookup_insert_ne].
      apply list_lookup_insert_eq. by eapply lookup_lt_Some.
    + by rewrite E3.
    + by rewrite E4.
    + intros c c2 Hc Hc2. rewrite E1 in Hc2. unfold dt_cols in Hc, Hc2. cbn in Hc. split; congruence.
    + intros rid r v Hr Hv. rewrite map_slots_id in Hr. fold (dt_rows t) in Hr. rewrite E2.
      apply elem_of_cells. eapply unmatched_none; [done|]. apply elem_of_cells. by exists rid, r.
Qed.

Lemma same_alter_integrity d table g d' : integrity d -> spec_alter d table g id = Val d' ->
  (forall t s, g t = Val s -> Table.name s = Table.name t /\ Forall2 same_col (Table.columns s) (Table.columns t) /\
     (Column.unique <$> Table.columns s) = (Column.unique <$> Table.columns t) /\ (forall fk, fk ∈ Table.fks s -> fk ∈ Table.fks t)) ->
  integrity d'.
Proof.
  intros Hd (i & t & s & Hi & Ht & En & Hg & ->)%spec_alter_val H. destruct (H _ _ Hg) as (H1 & H2 & H3 & H4).
  assert (Hu : forall ci c c', dt_cols t !! ci = Some c -> Table.columns s !! ci = Some c' -> Column.unique c' = Column.unique c).
  { intros ci c c' Hc Hc'. apply (f_equal (lookup ci)) in H3. unfold dt_cols in Hc.
    rewrite !list_lookup_fmap, Hc, Hc' in H3. cbn in H3. congruence. }
  apply edit_table_integrity; [done..|]. apply same_edited; try done.
  - intros ci c' Hc' Hcu. destruct (Forall2_lookup_l _ _ _ _ _ H2 Hc') as (c & Hc & _).
    apply (ti_unique _ _ (in_tables _ Hd i t Ht) ci c Hc). rewrite <- (Hu ci c c' Hc Hc'). done.
  - intros ci c c' Hc Hc' ?. left. by rewrite (Hu ci c c').
  - intros fk Hfk. left. auto.
Qed.

(** Whatever edit is accepted, integrity stays. *)
Lemma edit_integrity d e d' : integrity d -> spec_edit d e = Val d' -> integrity d'.
Proof.
  intros Hd H. destruct e; cbn [spec_edit] in H.
  - by eapply add_column_integrity.
  - by eapply drop_column_integrity.
  - by eapply move_column_integrity.
  - by eapply rename_column_integrity.
  - by eapply set_unique_integrity.
  - by eapply add_fk_integrity.
  - eapply same_alter_integrity; [done|exact H|]. intros t s. unfold without_fk. destruct (_ =? _)%nat; [done|].
    intros [= <-]. cbn. split_and!; [done|by apply Forall_Forall2_diag, Forall_true|done|].
    intros f Hf%list_elem_of_In. apply filter_In in Hf as [Hf _]. by apply list_elem_of_In.
  - eapply same_alter_integrity; [done|exact H|]. intros t s. unfold with_ref_cols.
    intros (? & _ & [= <-])%bind_val. cbn. split_and!; [done|by apply Forall_Forall2_diag, Forall_true|done|done].
  - eapply same_alter_integrity; [done|exact H|]. intros t s. unfold with_width.
    intros (ci & Hci & Hs)%bind_val. apply bind_val in Hs as (c & Hc & [= <-]). cbn.
    destruct (Table.columns t !! ci) as [c0|] eqn:E; [|done]. injection Hc as ->. split_and!; [done| | |done].
    + by apply (same_cols_set _ ci c).
    + rewrite list_fmap_insert. cbn. apply list_insert_id. by rewrite list_lookup_fmap, E.
Qed.
