(* ===== verification/StoreFacts.v ===== *)
(** * Chains of pages

    What the store's blob chains hold, and that writing, reading and freeing
    them do what their names say: the storage contract the catalog, the
    schemas and the rows rely on. *)

From stdpp Require Import gmap.
From S2P Require Import Prelude Types Block Journal JournalFacts JournalCrash Durability Pager.
From S2P Require Import PagerFacts Store.
Import Journal Store.

(** ** Pages of a chain *)

(** The length field and the payload of a chain page. *)
Definition page_len (img : bytes) : Z := of_le_bytes (take 8 (drop 8 img)).
Definition payload (img : bytes) : bytes :=
  take (Z.to_nat (page_len img)) (drop (Z.to_nat CHAIN_HDR) img).

(** The chain from [h] runs through the pages [l] and holds [bs]. *)
Fixpoint blob (v : view) (h : Z) (l : list Z) (bs : bytes) : Prop :=
  match l with
  | [] => h = 0 /\ bs = []
  | p :: l' =>
      h = p /\ page_len (v_page v p) = len (payload (v_page v p)) /\
      len (payload (v_page v p)) <= CHAIN_CAP /\
      exists rest, bs = payload (v_page v p) ++ rest /\ blob v (link (v_page v p)) l' rest
  end.

(** Distinct data pages below the high-water mark. *)
Definition pages_ok (v : view) (l : list Z) : Prop :=
  NoDup l /\ Forall (fun p => FIRST_DATA_PAGE <= p < Superblock.hwm (v_sb v)) l.

Lemma blob_ext v v' h l bs :
  (forall p, p ∈ l -> v_page v' p = v_page v p) -> blob v h l bs -> blob v' h l bs.
Proof.
  revert h bs. induction l as [|p l IH]; intros h bs Hp; cbn; [done|].
  intros (-> & Hl & Hc & rest & -> & Hb). rewrite Hp by left. split_and!; [done..|].
  exists rest. split; [done|]. apply IH; [|done]. intros q Hq. apply Hp. by right.
Qed.

Lemma blob_chained v h l bs : blob v h l bs -> chained v h l.
Proof.
  revert h bs. induction l as [|p l IH]; intros h bs; cbn; [by intros [-> _]|].
  intros (-> & _ & _ & rest & _ & Hb). split; [done|]. by eapply IH.
Qed.

Lemma rd_next img : len img = PAGE -> rd_u64 img 0 = Val (link img).
Proof. intros Hl. unfold rd_u64, get_u64. rewrite slice_in by slia. done. Qed.
Lemma rd_len img : len img = PAGE -> rd_u64 img 8 = Val (page_len img).
Proof. intros Hl. unfold rd_u64, get_u64. rewrite slice_in by slia. done. Qed.

Lemma slice_payload img : len img = PAGE -> 0 <= page_len img <= CHAIN_CAP ->
  slice (E:=StoreError) img CHAIN_HDR (CHAIN_HDR + page_len img) = Val (payload img).
Proof.
  intros Hl Hn. unfold CHAIN_CAP, CHAIN_HDR in *. rewrite slice_in by slia.
  unfold payload. do 2 f_equal. unfold CHAIN_HDR. lia.
Qed.

(** A page image with a link, a length and a payload. *)
Lemma chunk_image_spec bs pages n i next c :
  0 <= i -> slice (E:=StoreError) bs (i * CHAIN_CAP) (Z.min (i * CHAIN_CAP + CHAIN_CAP) (len bs)) = Val c ->
  (if i + 1 <? n then or_panic (nth_z pages (i + 1)) else mret 0) = Val (E:=StoreError) next ->
  is_u64 next -> len c <= CHAIN_CAP ->
  exists img, chunk_image bs pages n i = Val img /\ len img = PAGE /\
    link img = next /\ page_len img = len c /\ payload img = c.
Proof.
  intros Hi Hc Hnext Hu Hlen. unfold chunk_image. cbn zeta. rewrite Hc. cbn [mbind outcome_bind].
  rewrite Hnext. cbn [mbind outcome_bind]. unfold wr_u64.
  assert (Hsz : len c <= PAGE - 16) by (unfold CHAIN_CAP, CHAIN_HDR in *; lia).
  set (z := zeros (PAGE - 16 - len c)).
  replace zeroed_page with ([] ++ zeros 8 ++ (zeros 8 ++ zeros (len c) ++ z)).
  2:{ unfold zeroed_page, z. cbn [app]. rewrite <- !zeros_add by slia. f_equal. slia. }
  rewrite put_u64_at by done. cbn [mbind outcome_bind app].
  rewrite (put_u64_at (le_bytes 8 next)) by done. cbn [mbind outcome_bind].
  rewrite (app_assoc (le_bytes 8 next)).
  rewrite (splice_app _ (zeros (len c)) z c CHAIN_HDR).
  2:{ done. } 2:{ unfold zeros. rewrite length_replicate. lia. }
  exists ((le_bytes 8 next ++ le_bytes 8 (len c)) ++ c ++ z). split; [done|].
  assert (Epl : page_len ((le_bytes 8 next ++ le_bytes 8 (len c)) ++ c ++ z) = len c).
  { unfold page_len. rewrite <- app_assoc, drop_app_length' by done.
    rewrite take_app_length' by done. apply of_le_bytes_small. change (256 ^ Z.of_nat 8) with (2 ^ 64). slia. }
  split_and!.
  - rewrite !length_app, !le_bytes_length, !Nat2Z.inj_add. unfold z. rewrite zeros_length by slia. lia.
  - unfold link. rewrite <- app_assoc, take_app_length' by done. by apply of_le_bytes_small.
  - done.
  - unfold payload. rewrite Epl, drop_app_length' by done. apply take_app_length'. lia.
Qed.

Section Chains.
Context {D : Type} `{!BlockDevice D, !DeviceLaws D}.

Lemma pwp_with_fuel {A} n m v (f : nat -> stM (Pager.t D) StoreError A) Q :
  pwp n m v (f (S (Z.to_nat (n / 8)))) Q -> pwp n m v (with_fuel f) Q.
Proof. intros H P HP. unfold with_fuel, cut. rewrite (tx_total _ _ _ _ HP). by apply H. Qed.

Lemma pages_ok_length n v l : pages_ok v l -> 0 <= Superblock.hwm (v_sb v) <= n / 8 ->
  (length l <= Z.to_nat (n / 8))%nat.
Proof.
  intros [Hnd Hr] Hh.
  assert (Hsub : l ⊆+ seqZ 0 (n / 8)).
  { apply NoDup_submseteq; [done|]. intros p Hp. rewrite Forall_forall in Hr.
    apply elem_of_seqZ. specialize (Hr p Hp). slia. }
  apply submseteq_length in Hsub. by rewrite length_seqZ in Hsub.
Qed.

Lemma pages_ok_home n v l p : pages_ok v l -> Superblock.hwm (v_sb v) <= n / 8 -> p ∈ l ->
  home_page n p.
Proof.
  intros [_ Hr] Hh Hp. rewrite Forall_forall in Hr. specialize (Hr p Hp). unfold home_page. lia.
Qed.

Lemma pwp_read_chain_loop n m v l : forall fuel h out bs Q,
  blob v h l bs -> Forall (home_page n) l -> (length l < fuel)%nat ->
  Q (Val (out ++ bs)) v -> pwp n m v (read_chain_loop fuel h out) Q.
Proof.
  induction l as [|p l IH]; intros fuel h out bs Q Hb Hh Hf HQ.
  - destruct Hb as [-> ->]. rewrite app_nil_r in HQ. destruct fuel; by apply pwp_ret.
  - destruct fuel as [|fuel]; [cbn in Hf; lia|]. cbn in Hf.
    destruct Hb as (-> & Hlen & Hcap & rest & -> & Hb). apply Forall_cons in Hh as [Hp Hh].
    cbn [read_chain_loop]. rewrite (proj2 (Z.eqb_neq p 0)) by (destruct Hp; slia).
    apply pwp_bind, pwp_read_page; [done|]. intros Hpl.
    apply pwp_bind, pwp_lift. rewrite rd_next by done.
    apply pwp_bind, pwp_lift. rewrite rd_len by done.
    rewrite (proj2 (Z.ltb_ge _ _)) by lia.
    apply pwp_bind, pwp_lift. rewrite slice_payload by (done || lia).
    apply (IH fuel _ _ rest); [done|done|lia|]. by rewrite <- app_assoc.
Qed.

(** Reading a chain gives the bytes it holds. *)
Lemma pwp_read_chain n m v h l bs Q :
  blob v h l bs -> pages_ok v l -> 0 <= Superblock.hwm (v_sb v) <= n / 8 ->
  Q (Val bs) v -> pwp n m v (read_chain h) Q.
Proof.
  intros Hb Hl Hh HQ. unfold read_chain. apply pwp_with_fuel.
  apply (pwp_read_chain_loop n m v l _ _ _ bs); [done| | |done].
  - apply Forall_forall. intros p Hp. eapply pages_ok_home; [done| |done]. lia.
  - pose proof (pages_ok_length n v l Hl Hh). lia.
Qed.

(** ** Allocating *)

(** The pages [ps] were taken from the free list [fl] of [v] or from beyond
    its high-water mark; nothing else changed. *)
Record allocated (n : Z) (v : view) (fl : list Z) (v' : view) (fl' ps : list Z) : Prop := {
  al_free : free_list n v' fl';
  al_ok : pages_ok v' ps;
  al_disj p : p ∈ ps -> p ∉ fl';
  al_src p : p ∈ ps -> p ∈ fl \/ Superblock.hwm (v_sb v) <= p;
  al_sub p : p ∈ fl' -> p ∈ fl;
  al_hwm : Superblock.hwm (v_sb v) <= Superblock.hwm (v_sb v');
  al_same q : q ∉ ps -> v_page v' q = v_page v q;
  al_cat : Superblock.catalog_head (v_sb v') = Superblock.catalog_head (v_sb v);
  al_gen : Superblock.generation (v_sb v') = Superblock.generation (v_sb v);
  al_staged : v_staged v' = list_to_set ps ∪ v_staged v
}.

Lemma allocated_refl n v fl : free_list n v fl -> allocated n v fl v fl [].
Proof.
  intros H. split; try done; try lia; [|set_solver..].
  split; [by apply NoDup_nil|by apply Forall_nil].
Qed.

Lemma allocated_snoc n v fl v1 fl1 ps q v2 fl2 :
  allocated n v fl v1 fl1 ps -> allocated n v1 fl1 v2 fl2 [q] ->
  allocated n v fl v2 fl2 (ps ++ [q]).
Proof.
  intros [F1 [N1 R1] D1 S1 U1 H1 E1 C1 G1 T1] [F2 [N2 R2] D2 S2 U2 H2 E2 C2 G2 T2].
  assert (Hq : q ∉ ps).
  { intros Hq. destruct (S2 q) as [Hf|Hf]; [by left|by apply D1 in Hq|].
    rewrite Forall_forall in R1. specialize (R1 q Hq). lia. }
  split; try done; try lia; try congruence.
  - split.
    + apply NoDup_app. split; [done|split; [|done]].
      intros p Hp ->%list_elem_of_singleton. done.
    + apply Forall_app. split; [|done]. eapply Forall_impl; [exact R1|]. cbn. intros p ?. lia.
  - intros p [Hp|Hp]%elem_of_app; [|by apply D2]. intros Hf. by apply (D1 p), U2.
  - intros p [Hp|Hp]%elem_of_app; [by apply S1|].
    destruct (S2 p Hp) as [Hf|Hf]; [left; by apply U1|right; lia].
  - intros p Hp. by apply U1, U2.
  - intros p Hp. apply not_elem_of_app in Hp as [Hp Hp']. by rewrite E2, E1.
  - rewrite T2, T1, list_to_set_app_L. set_solver.
Qed.

(** A page in use stays out of what is allocated and of the free list. *)
Lemma allocated_used n v fl v' fl' ps p : allocated n v fl v' fl' ps ->
  p < Superblock.hwm (v_sb v) -> p ∉ fl -> p ∉ ps /\ p ∉ fl' /\ v_page v' p = v_page v p.
Proof.
  intros H Hp Hf. assert (Hps : p ∉ ps).
  { intros Hin. destruct (al_src _ _ _ _ _ _ H p Hin) as [?|?]; [done|lia]. }
  split_and!; [done| |by apply (al_same _ _ _ _ _ _ H)].
  intros Hin. by apply Hf, (al_sub _ _ _ _ _ _ H).
Qed.

Lemma pwp_alloc_one n m v fl Q :
  free_list n v fl ->
  (forall q v' fl', allocated n v fl v' fl' [q] -> home_page n q -> Q (Val q) v') ->
  Q (Fail OutOfSpace) v ->
  pwp n m v Pager.alloc_page Q.
Proof.
  intros Hfl HV HF. apply (pwp_alloc_page n m v fl); [done| |done].
  intros q l' v' Hq Hfl' Hql Hl Hz Hsame Hlt Hle Hcat Hgen Hst.
  apply (HV q v' l'); [|done]. split; try done.
  - split; [apply NoDup_singleton|]. apply Forall_singleton. destruct Hq. lia.
  - by intros p ->%list_elem_of_singleton.
  - intros p ->%list_elem_of_singleton.
    destruct Hl as [->|(_ & _ & ->)]; [left; by left|right; lia].
  - intros p Hp. destruct Hl as [->|(-> & -> & _)]; [by right|done].
  - intros p Hp. apply Hsame. intros ->. apply Hp. by left.
  - rewrite Hst. set_solver.
Qed.

(** Allocating once per element of a list. *)
Lemma pwp_alloc_many {A} n m (ks : list A) : forall v fl Q,
  free_list n v fl ->
  (forall ps v' fl', allocated n v fl v' fl' ps -> length ps = length ks ->
     Forall (home_page n) ps -> Q (Val ps) v') ->
  (forall ps v' fl', allocated n v fl v' fl' ps -> Q (Fail OutOfSpace) v') ->
  pwp n m v (for_collect ks (fun _ => Pager.alloc_page)) Q.
Proof.
  enough (H : forall (ks : list A) pre v0 fl0 v fl (Q : outcome StoreError (list Z) -> view -> Prop),
    allocated n v0 fl0 v fl pre -> Forall (home_page n) pre ->
    (forall ps v' fl', allocated n v0 fl0 v' fl' (pre ++ ps) -> length ps = length ks ->
       Forall (home_page n) (pre ++ ps) -> Q (Val ps) v') ->
    (forall ps v' fl', allocated n v0 fl0 v' fl' ps -> Q (Fail OutOfSpace) v') ->
    pwp n m v (for_collect ks (fun _ => Pager.alloc_page)) Q).
  { intros v fl Q Hfl HV HF.
    apply (H ks [] v fl v fl); [by apply allocated_refl|by apply Forall_nil|done|done]. }
  clear ks. induction ks as [|k ks IH]; intros pre v0 fl0 v fl Q Hal Hh HV HF.
  - apply pwp_ret. apply (HV [] v fl); rewrite ?app_nil_r; done.
  - cbn [for_collect]. apply pwp_bind.
    eapply pwp_alloc_one; [apply Hal| |by eapply HF].
    intros q v1 fl1 Hq Hqh. apply pwp_bind.
    apply (IH (pre ++ [q]) v0 fl0 v1 fl1); [by eapply allocated_snoc| | |done].
    + apply Forall_app. by split; [|apply Forall_singleton].
    + intros ps v2 fl2 Hal2 Hlen Hh2. apply pwp_ret.
      rewrite <- app_assoc in Hal2, Hh2. apply (HV (q :: ps) v2 fl2); [done|cbn; lia|done].
Qed.

(** ** Writing *)

Lemma pwp_for_each {A} n m (l : list A) (body : A -> stM (Pager.t D) StoreError unit)
    (I : list A -> view -> Prop) :
  (forall pre x todo v, l = pre ++ x :: todo -> I pre v ->
     pwp n m v (body x) (fun r v' => r = Val tt /\ I (pre ++ [x]) v')) ->
  forall v, I [] v -> pwp n m v (for_each l body) (fun r v' => r = Val tt /\ I l v').
Proof.
  intros Hstep.
  enough (H : forall todo pre v, l = pre ++ todo -> I pre v ->
    pwp n m v (for_each todo body) (fun r v' => r = Val tt /\ I l v')) by (intros v; by apply (H l [])).
  induction todo as [|x todo IH]; intros pre v El HI.
  - rewrite app_nil_r in El. subst. by apply pwp_ret.
  - cbn [for_each]. apply pwp_bind. eapply pwp_conseq; [by apply (Hstep pre x todo)|].
    intros r v' [-> HI']. apply (IH (pre ++ [x])); [by rewrite <- app_assoc|done].
Qed.

(** The chunk [i] of [bs]. *)
Definition chunk (bs : bytes) (i : Z) : bytes :=
  take (Z.to_nat CHAIN_CAP) (drop (Z.to_nat (i * CHAIN_CAP)) bs).

Lemma nchunks_spec bs : let n := nchunks bs in
  1 <= n /\ len bs <= n * CHAIN_CAP /\ (n - 1) * CHAIN_CAP <= len bs.
Proof.
  unfold nchunks. destruct bs as [|b bs]; [done|].
  set (x := len (b :: bs)). assert (0 < x) by (unfold x; cbn [length]; lia).
  change CHAIN_CAP with 4080. cbn zeta. lia.
Qed.

Lemma slice_chunk bs i : 0 <= i < nchunks bs ->
  slice (E:=StoreError) bs (i * CHAIN_CAP) (Z.min (i * CHAIN_CAP + CHAIN_CAP) (len bs))
    = Val (chunk bs i) /\ len (chunk bs i) <= CHAIN_CAP.
Proof.
  intros Hi. pose proof (nchunks_spec bs) as (H1 & H2 & H3). cbn zeta in *.
  change CHAIN_CAP with 4080 in *. unfold chunk. change CHAIN_CAP with 4080. split.
  - rewrite slice_in by lia. f_equal.
    destruct (Z.le_ge_cases (i * 4080 + 4080) (len bs)).
    + rewrite Z.min_l by lia. by replace (i * 4080 + 4080 - i * 4080) with 4080 by lia.
    + rewrite Z.min_r by lia. rewrite !take_ge; [done|rewrite length_drop; lia..].
  - rewrite length_take. lia.
Qed.

(** The chain a list of pages makes once each holds its chunk. *)
Lemma blob_of_pages v bs ps (k : nat) :
  length ps = Z.to_nat (nchunks bs) -> Forall (fun p => p <> 0) ps ->
  (forall j p, ps !! j = Some p ->
     link (v_page v p) = default 0 (ps !! S j) /\
     page_len (v_page v p) = len (chunk bs (Z.of_nat j)) /\
     payload (v_page v p) = chunk bs (Z.of_nat j)) ->
  (k <= length ps)%nat ->
  blob v (default 0 (ps !! k)) (drop k ps) (drop (Z.to_nat (Z.of_nat k * CHAIN_CAP)) bs).
Proof.
  intros Hlen Hnz Hp. remember (length ps - k)%nat as d eqn:Ed. revert k Ed.
  pose proof (nchunks_spec bs) as (H1 & H2 & H3). cbn zeta in *.
  induction d as [|d IH]; intros k Ed Hk.
  - rewrite drop_ge by lia. rewrite lookup_ge_None_2 by lia. split; [done|].
    apply drop_ge. change CHAIN_CAP with 4080 in *. lia.
  - destruct (lookup_lt_is_Some_2 ps k) as [p E]; [lia|].
    rewrite (drop_S _ p) by done. rewrite E. cbn [default blob].
    destruct (Hp k p E) as (HL & HN & HP).
    split; [done|]. rewrite HL, HN, HP.
    destruct (slice_chunk bs (Z.of_nat k)) as [_ Hc]; [lia|]. split; [done|]. split; [done|].
    exists (drop (Z.to_nat (Z.of_nat (S k) * CHAIN_CAP)) bs). split.
    + unfold chunk. change CHAIN_CAP with 4080.
      replace (Z.to_nat (Z.of_nat (S k) * 4080)) with (Z.to_nat (Z.of_nat k * 4080) + Z.to_nat 4080)%nat
        by lia.
      rewrite <- drop_drop. by rewrite take_drop.
    + apply IH; lia.
Qed.

Lemma allocated_write n v fl v' fl' ps p img :
  allocated n v fl v' fl' ps -> p ∈ ps -> allocated n v fl (view_upd v' p img) fl' ps.
Proof.
  intros [[Fc Fn Fr Fh Ft Fs] HR HD HS HU HH HE HC HG HT] Hp. split; try done.
  - split; try done. eapply chained_ext; [|exact Fc]. intros q Hq. cbn.
    destruct (Z.eqb_spec q p) as [->|]; [by apply HD in Hp|done].
  - intros q Hq. cbn. destruct (Z.eqb_spec q p) as [->|]; [done|by apply HE].
  - cbn. rewrite HT. set_solver.
Qed.

(** What a chain page holds after it is written. *)
Definition chunk_at (bs : bytes) (ps : list Z) (v : view) (j : nat) : Prop :=
  forall p, ps !! j = Some p ->
    link (v_page v p) = default 0 (ps !! S j) /\
    page_len (v_page v p) = len (chunk bs (Z.of_nat j)) /\
    payload (v_page v p) = chunk bs (Z.of_nat j).

Lemma pwp_write_chunks n m v fl v1 fl' ps bs :
  allocated n v fl v1 fl' ps -> Forall (home_page n) ps -> length ps = Z.to_nat (nchunks bs) ->
  pwp n m v1 (for_each (seqZ 0 (nchunks bs)) (fun i =>
        img ← lift (chunk_image bs ps (nchunks bs) i);
        p ← lift (or_panic (nth_z ps i));
        Pager.write_page p img))
    (fun r v' => r = Val tt /\ allocated n v fl v' fl' ps /\
       forall j, (j < length ps)%nat -> chunk_at bs ps v' j).
Proof.
  intros Hal Hh Hlen. pose proof (nchunks_spec bs) as (Hn & _). cbn zeta in Hn.
  pose proof (al_ok _ _ _ _ _ _ Hal) as [Hnd _].
  pose proof (fl_size _ _ _ (al_free _ _ _ _ _ _ Hal)) as Hsz.
  eapply pwp_conseq; [apply (pwp_for_each n m _ _ (fun pre v' =>
    allocated n v fl v' fl' ps /\ forall j, (j < length pre)%nat -> chunk_at bs ps v' j))|].
  - intros pre i todo v' El [Hal' Hj].
    assert (Ei : i = Z.of_nat (length pre) /\ 0 <= i < nchunks bs).
    { assert (E : seqZ 0 (nchunks bs) !! length pre = Some i).
      { by rewrite El, lookup_app_r, Nat.sub_diag. }
      apply lookup_seqZ in E. lia. }
    destruct Ei as [Ei Hi].
    destruct (lookup_lt_is_Some_2 ps (length pre)) as [p Ep]; [lia|].
    rewrite Forall_lookup in Hh. pose proof (Hh _ _ Ep) as Hhome.
    destruct (slice_chunk bs i Hi) as [Hs Hcl].
    destruct (chunk_image_spec bs ps (nchunks bs) i (default 0 (ps !! S (length pre))) (chunk bs i))
      as (img & Eimg & Himg & HL & HN & HP); [lia|done| | |done|].
    { unfold nth_z. replace (Z.to_nat (i + 1)) with (S (length pre)) by lia.
      destruct (Z.ltb_spec (i + 1) (nchunks bs)).
      - destruct (lookup_lt_is_Some_2 ps (S (length pre))) as [q Eq]; [lia|]. by rewrite Eq.
      - by rewrite lookup_ge_None_2 by lia. }
    { destruct (ps !! S (length pre)) as [q|] eqn:Eq; [|done]. cbn.
      destruct (Hh _ _ Eq). unfold is_u64. slia. }
    apply pwp_bind, pwp_lift. rewrite Eimg. apply pwp_bind, pwp_lift.
    unfold nth_z. replace (Z.to_nat i) with (length pre) by lia. rewrite Ep. cbn [or_panic].
    apply pwp_write_page; [done|done|]. split; [done|].
    split; [apply allocated_write; [done|by eapply list_elem_of_lookup_2]|].
    intros j Hjl q Eq. rewrite length_app in Hjl. cbn in Hjl. unfold view_upd; cbn [v_page].
    destruct (Z.eqb_spec q p) as [->|Hne].
    + replace j with (length pre) by (eapply NoDup_lookup; eauto).
      rewrite HL, HN, HP. by replace (Z.of_nat (length pre)) with i by lia.
    + apply (Hj j); [|done]. destruct (decide (j = length pre)) as [->|]; [|lia].
      rewrite Ep in Eq. by injection Eq as ->.
  - split; [done|]. intros j Hjl. cbn in Hjl. lia.
  - intros r v' (-> & Hal' & Hj). split_and!; [done..|]. intros j Hjl. apply Hj.
    rewrite length_seqZ. lia.
Qed.

(** Writing a blob makes a chain that holds it, on fresh pages. *)
Lemma pwp_write_chain n m v fl bs Q :
  free_list n v fl ->
  (forall h ps v' fl', allocated n v fl v' fl' (h :: ps) -> blob v' h (h :: ps) bs ->
     len (h :: ps) = nchunks bs -> Q (Val h) v') ->
  (forall ps v' fl', allocated n v fl v' fl' ps -> Q (Fail OutOfSpace) v') ->
  pwp n m v (write_chain bs) Q.
Proof.
  intros Hfl HV HF. unfold write_chain. cbn zeta.
  pose proof (nchunks_spec bs) as (Hn & _). cbn zeta in Hn.
  apply pwp_bind, (pwp_alloc_many n m _ v fl); [done| |apply HF].
  intros ps v1 fl1 Hal Hlen Hh. rewrite length_seqZ in Hlen.
  apply pwp_bind. eapply pwp_conseq; [by eapply pwp_write_chunks|].
  intros r v2 (-> & Hal2 & Hc).
  assert (Hnz : Forall (fun p => p <> 0) ps).
  { eapply Forall_impl; [exact Hh|]. intros p [? _]. slia. }
  destruct ps as [|p ps]; [cbn in Hlen; lia|].
  apply pwp_lift. unfold nth_z. cbn [Z.to_nat lookup list_lookup or_panic].
  apply (HV p ps v2 fl1); [done| |lia].
  pose proof (blob_of_pages v2 bs (p :: ps) 0) as Hb. rewrite drop_0 in Hb.
  change (Z.to_nat (Z.of_nat 0 * CHAIN_CAP)) with 0%nat in Hb. rewrite drop_0 in Hb.
  apply Hb; [done|done| |lia]. intros j q Hq. apply (Hc j); [|done].
  by eapply lookup_lt_Some.
Qed.

(** ** Freeing *)

(** The pages [ps] went back to the free list; other pages kept. *)
Record freed (n : Z) (v : view) (fl : list Z) (v' : view) (fl' ps : list Z) : Prop := {
  fr_free : free_list n v' fl';
  fr_elem p : p ∈ fl' <-> p ∈ ps \/ p ∈ fl;
  fr_same q : q ∉ ps -> v_page v' q = v_page v q;
  fr_hwm : Superblock.hwm (v_sb v') = Superblock.hwm (v_sb v);
  fr_cat : Superblock.catalog_head (v_sb v') = Superblock.catalog_head (v_sb v);
  fr_gen : Superblock.generation (v_sb v') = Superblock.generation (v_sb v);
  fr_staged : v_staged v' = list_to_set ps ∪ v_staged v
}.

Lemma pwp_free_chain_loop n m l : forall fuel v h fl Q,
  free_list n v fl -> chained v h l -> pages_ok v l -> (forall p, p ∈ l -> p ∉ fl) ->
  (length l < fuel)%nat ->
  (forall v' fl', freed n v fl v' fl' l -> Q (Val tt) v') ->
  pwp n m v (free_chain_loop fuel h) Q.
Proof.
  induction l as [|p l IH]; intros fuel v h fl Q Hfl Hb [Hnd Hr] Hdisj Hf HQ.
  - cbn in Hb. subst h. destruct fuel; apply pwp_ret; apply (HQ v fl);
      (split; try done; set_solver).
  - destruct fuel as [|fuel]; [cbn in Hf; lia|]. cbn in Hf.
    destruct Hb as (-> & Hb).
    apply NoDup_cons in Hnd as [Hp Hnd]. apply Forall_cons in Hr as [Hpr Hr].
    pose proof (fl_hwm _ _ _ Hfl) as Hh.
    cbn [free_chain_loop]. rewrite (proj2 (Z.eqb_neq p 0)) by slia.
    apply pwp_bind, pwp_read_page; [unfold home_page; lia|]. intros Hpl.
    apply pwp_bind, pwp_lift. rewrite rd_next by done.
    apply pwp_bind. apply (pwp_free_page n m v fl p); [done|done|apply Hdisj; by left|].
    intros v1 Hfl1 Hsame Hhwm Hcat Hgen Hst.
    apply (IH fuel v1 _ (p :: fl)); [done| | | |lia|].
    + eapply chained_ext; [|exact Hb]. intros q Hq. symmetry. apply Hsame. by intros ->.
    + split; [done|]. eapply Forall_impl; [exact Hr|]. cbn. intros q ?. lia.
    + intros q Hq [->|Hq']%elem_of_cons; [done|]. apply (Hdisj q); [by right|done].
    + intros v2 fl2 [F1 F2 F3 F4 F5 F6 F7]. apply (HQ v2 fl2). split; try done; try congruence.
      * intros q. rewrite F2, !elem_of_cons. naive_solver.
      * intros q Hq. apply not_elem_of_cons in Hq as [Hq1 Hq2]. rewrite F3 by done. by apply Hsame.
      * rewrite F7, Hst. set_solver.
Qed.

(** Freeing a chain gives its pages, and no others, back. *)
Lemma pwp_free_chain n m v h l fl Q :
  free_list n v fl -> chained v h l -> pages_ok v l -> (forall p, p ∈ l -> p ∉ fl) ->
  (forall v' fl', freed n v fl v' fl' l -> Q (Val tt) v') ->
  pwp n m v (free_chain h) Q.
Proof.
  intros Hfl Hb Hl Hd HQ. unfold free_chain. apply pwp_with_fuel.
  eapply pwp_free_chain_loop; try done.
  pose proof (fl_hwm _ _ _ Hfl). pose proof (pages_ok_length n v l Hl ltac:(slia)). lia.
Qed.

End Chains.
