(* ===== verification/Heap.v ===== *)
(** * The store's heap

    The pages of a volume seen as a heap of objects: blobs and row indexes, each
    on a chain of pages of its own, named by the first page of its chain.  The
    rules of this file give what the store's page routines do to the heap; no
    file after it looks at a page. *)

From stdpp Require Import gmap functions.
From S2P Require Import Prelude Types Block Journal JournalFacts JournalCrash Durability Pager.
From S2P Require Import PagerFacts Store Database StoreFacts.
Import Journal Store.

(** ** Objects *)

Inductive obj : Type :=
  | Blob (bs : bytes)
  | Index (pgs : list (Z * list Z)).

(** The slot [i] of an index page. *)
Definition slot_at (img : bytes) (i : nat) : Z :=
  of_le_bytes (take 8 (drop (Z.to_nat IDX_HDR + i * 8) img)).

Record page_slots (img : bytes) (slots : list Z) : Prop := {
  ps_len : page_len img = len slots;
  ps_cap : len slots <= IDX_CAP;
  ps_slot i s : slots !! i = Some s -> slot_at img i = s
}.

(** The index from [h] is made of the pages [pgs] with their slots. *)
Fixpoint index (v : view) (h : Z) (pgs : list (Z * list Z)) : Prop :=
  match pgs with
  | [] => h = 0
  | (p, slots) :: pgs' =>
      h = p /\ page_slots (v_page v p) slots /\ index v (link (v_page v p)) pgs'
  end.

(** The object [o] at [h] on the pages [l]. *)
Definition obj_at (v : view) (h : Z) (l : list Z) (o : obj) : Prop :=
  head l = Some h /\
  match o with
  | Blob bs => blob v h l bs
  | Index pgs => l = pgs.*1 /\ index v h pgs
  end.

(** ** Index pages *)

(** A zero slot is a deleted row. *)
Definition slot_opt (s : Z) : option Z := if s =? 0 then None else Some s.
Definition index_rows (pgs : list (Z * list Z)) : list (RowId.t * Z) :=
  live (prod_map id (fmap (M:=list) slot_opt) <$> pgs).

(** The word at an offset of a page. *)
Definition word (img : bytes) (o : nat) : Z := of_le_bytes (take 8 (drop o img)).

Lemma put_word img off x : len img = PAGE -> 0 <= off -> off + 8 <= PAGE -> is_u64 x ->
  exists img', wr_u64 img off x = Val img' /\ len img' = PAGE /\
    word img' (Z.to_nat off) = x /\
    forall o, Z.of_nat o + 8 <= off \/ off + 8 <= Z.of_nat o -> word img' o = word img o.
Proof.
  intros Hl H0 H1 Hx. set (k := Z.to_nat off).
  assert (Hk : (k + 8 <= length img)%nat) by lia.
  set (a := take k img). set (c := drop (k + 8) img).
  assert (Ha : length a = k) by (apply length_take_le; lia).
  exists (a ++ le_bytes 8 x ++ c).
  assert (Ei : img = a ++ take 8 (drop k img) ++ c).
  { unfold a, c. rewrite <- drop_drop, take_drop. by rewrite take_drop. }
  split_and!.
  - unfold wr_u64. rewrite Ei at 1. apply put_u64_at; [lia|].
    rewrite length_take, length_drop. lia.
  - rewrite !length_app, le_bytes_length. unfold c. rewrite length_drop. lia.
  - unfold word. rewrite drop_app_length' by done. rewrite take_app_length' by done.
    by apply of_le_bytes_small.
  - intros o Ho. unfold word. destruct Ho as [Ho|Ho].
    + rewrite Ei at 1. rewrite !drop_app_le by lia. rewrite !take_app_le; [done|rewrite length_drop; lia..].
    + rewrite !drop_app_ge by (rewrite ?le_bytes_length; lia). rewrite le_bytes_length, Ha.
      unfold c. rewrite drop_drop. do 3 f_equal. lia.
Qed.

Lemma rd_word img o : len img = PAGE -> 0 <= o -> o + 8 <= PAGE ->
  rd_u64 img o = Val (word img (Z.to_nat o)).
Proof.
  intros Hl Ho H8. unfold rd_u64, get_u64. rewrite slice_in by lia.
  by replace (Z.to_nat (o + 8 - o)) with 8%nat by lia.
Qed.

Lemma link_word img : link img = word img 0. Proof. done. Qed.
Lemma page_len_word img : page_len img = word img 8. Proof. done. Qed.
Lemma slot_word img i : slot_at img i = word img (Z.to_nat (IDX_HDR + Z.of_nat i * 8)).
Proof. unfold slot_at, word, IDX_HDR. do 3 f_equal. lia. Qed.

(** Reading and writing the slots of an index page. *)
Lemma rd_slot img slots i s : len img = PAGE -> page_slots img slots -> slots !! i = Some s ->
  rd_u64 img (IDX_HDR + Z.of_nat i * 8) = Val s.
Proof.
  intros Hl [Hn Hc Hs] Hi. pose proof (lookup_lt_Some _ _ _ Hi).
  change IDX_CAP with 510 in Hc. rewrite rd_word by (unfold IDX_HDR; slia).
  rewrite <- slot_word. f_equal. auto.
Qed.

Lemma write_slot img slots i x : len img = PAGE -> page_slots img slots ->
  (i < length slots)%nat -> is_u64 x ->
  exists img', wr_u64 img (IDX_HDR + Z.of_nat i * 8) x = Val img' /\ len img' = PAGE /\
    link img' = link img /\ page_slots img' (<[i := x]> slots).
Proof.
  intros Hl [Hn Hc Hs] Hi Hx. change IDX_CAP with 510 in Hc.
  destruct (put_word img (IDX_HDR + Z.of_nat i * 8) x) as (img' & E & Hl' & Hw & Ho);
    [done|unfold IDX_HDR; slia..|done|].
  unfold IDX_HDR in *. exists img'. split_and!; [done|done| |split].
  - rewrite !link_word. apply Ho. lia.
  - rewrite page_len_word, Ho by lia. by rewrite length_insert.
  - change IDX_CAP with 510. by rewrite length_insert.
  - intros j s Hj. rewrite slot_word. unfold IDX_HDR. destruct (decide (j = i)) as [->|Hne].
    + rewrite list_lookup_insert_eq in Hj by done. injection Hj as <-. done.
    + rewrite list_lookup_insert_ne in Hj by done. rewrite Ho by lia.
      specialize (Hs j s Hj). by rewrite slot_word in Hs.
Qed.

(** A page with one more slot. *)
Lemma push_slot img slots x : len img = PAGE -> page_slots img slots -> len slots < IDX_CAP ->
  is_u64 x ->
  exists img1 img', wr_u64 img (IDX_HDR + len slots * 8) x = Val img1 /\
    wr_u64 img1 8 (len slots + 1) = Val img' /\ len img' = PAGE /\
    link img' = link img /\ page_slots img' (slots ++ [x]).
Proof.
  intros Hl [Hn Hc Hs] Hi Hx. change IDX_CAP with 510 in *.
  destruct (put_word img (IDX_HDR + len slots * 8) x) as (img1 & E1 & Hl1 & Hw1 & Ho1);
    [done|unfold IDX_HDR; slia..|done|].
  destruct (put_word img1 8 (len slots + 1)) as (img' & E & Hl' & Hw & Ho);
    [done|slia..|unfold is_u64; lia|].
  unfold IDX_HDR in *. exists img1, img'. split_and!; [done..| |split].
  - rewrite !link_word, Ho, Ho1 by lia. done.
  - change (Z.to_nat 8) with 8%nat in Hw. rewrite page_len_word, Hw, length_app. cbn. lia.
  - change IDX_CAP with 510. rewrite length_app. cbn. lia.
  - intros j s Hj. rewrite slot_word. unfold IDX_HDR. pose proof (lookup_lt_Some _ _ _ Hj) as Hjl.
    rewrite length_app in Hjl. cbn in Hjl. rewrite Ho by lia.
    destruct (decide (j = length slots)) as [->|Hne].
    + rewrite lookup_app_r, Nat.sub_diag in Hj by done. injection Hj as <-. done.
    + rewrite lookup_app_l in Hj by lia. rewrite Ho1 by lia.
      specialize (Hs j s Hj). by rewrite slot_word in Hs.
Qed.

(** A new page with one slot, and a page with another link. *)
Lemma new_index_page x : is_u64 x ->
  exists img1 img', wr_u64 zeroed_page 8 1 = Val img1 /\ wr_u64 img1 IDX_HDR x = Val img' /\
    len img' = PAGE /\ link img' = 0 /\ page_slots img' [x].
Proof.
  intros Hx.
  destruct (put_word zeroed_page 8 1) as (img1 & E1 & Hl1 & Hw1 & Ho1);
    [apply zeroed_page_length|slia..|done|].
  destruct (put_word img1 IDX_HDR x) as (img' & E & Hl' & Hw & Ho); [done|unfold IDX_HDR; slia..|done|].
  unfold IDX_HDR in *. exists img1, img'. split_and!; [done..| |split].
  - rewrite link_word, Ho, Ho1 by lia. reflexivity.
  - rewrite page_len_word, Ho by lia. by change 8%nat with (Z.to_nat 8).
  - done.
  - intros j s Hj. destruct j as [|j]; [|done]. injection Hj as <-. by rewrite slot_word.
Qed.

Lemma set_link img slots x : len img = PAGE -> page_slots img slots -> is_u64 x ->
  exists img', wr_u64 img 0 x = Val img' /\ len img' = PAGE /\ link img' = x /\
    page_slots img' slots.
Proof.
  intros Hl [Hn Hc Hs] Hx.
  destruct (put_word img 0 x) as (img' & E & Hl' & Hw & Ho); [done|slia..|done|].
  exists img'. split_and!; [done..|split; [|done|]].
  - rewrite page_len_word, Ho by lia. done.
  - intros j s Hj. rewrite slot_word, Ho by (unfold IDX_HDR; lia). rewrite <- slot_word. auto.
Qed.

(** The rows of an index page, read slot by slot. *)
Lemma collect_slots_spec img slots p : len img = PAGE -> page_slots img slots ->
  forall fuel i out, (length slots < fuel + i)%nat ->
  collect_slots fuel p img (Z.of_nat i) (len slots) out =
    Val (out ++ live_from p i (slot_opt <$> drop i slots)).
Proof.
  intros Hl Hs. pose proof (ps_cap _ _ Hs) as Hc. change IDX_CAP with 510 in Hc.
  induction fuel as [|fuel IH]; intros i out Hf; cbn [collect_slots].
  - rewrite (proj2 (Z.leb_le _ _)) by lia. rewrite drop_ge by lia. by rewrite app_nil_r.
  - destruct (Z.leb_spec (len slots) (Z.of_nat i)) as [Hge|Hlt].
    { rewrite drop_ge by lia. by rewrite app_nil_r. }
    destruct (lookup_lt_is_Some_2 slots i) as [s E]; [lia|].
    rewrite (rd_slot img slots i s) by done. cbn [mbind outcome_bind].
    rewrite (drop_S _ s) by done. replace (Z.of_nat i + 1) with (Z.of_nat (S i)) by lia.
    rewrite IH by lia. unfold as_u32. rewrite Z.mod_small by lia.
    cbn [fmap list_fmap]. change (slot_opt s) with (if s =? 0 then None else Some s).
    destruct (s =? 0); cbn [negb live_from]; [done|]. by rewrite <- app_assoc.
Qed.

(** ** The heap *)

Record hstate := mk_hstate {
  hs_gen : Z;
  hs_catalog : Z;
  hs_wrote : bool;
  hs_heap : gmap Z obj
}.

Definition hs_upd (f : gmap Z obj -> gmap Z obj) (σ : hstate) : hstate :=
  mk_hstate (hs_gen σ) (hs_catalog σ) true (f (hs_heap σ)).
Definition hs_set_catalog (h : Z) (σ : hstate) : hstate :=
  mk_hstate (hs_gen σ) h (hs_wrote σ) (hs_heap σ).

(** The view [v] holds the heap [σ] on the extents [ext]; [fl] is free. *)
Record heap_at (n : Z) (v : view) (fl : list Z) (ext : Z -> list Z) (σ : hstate) : Prop := {
  hp_free : free_list n v fl;
  hp_obj h o : hs_heap σ !! h = Some o -> obj_at v h (ext h) o /\ pages_ok v (ext h);
  hp_used h p : is_Some (hs_heap σ !! h) -> p ∈ ext h -> p ∉ fl;
  hp_disj h1 h2 p : is_Some (hs_heap σ !! h1) -> is_Some (hs_heap σ !! h2) ->
    p ∈ ext h1 -> p ∈ ext h2 -> h1 = h2;
  hp_catalog : Superblock.catalog_head (v_sb v) = hs_catalog σ;
  hp_catalog_u64 : is_u64 (hs_catalog σ);
  hp_gen : Superblock.generation (v_sb v) = hs_gen σ;
  hp_wrote : hs_wrote σ = true -> v_staged v <> ∅
}.

Definition heap_ok (n : Z) (v : view) (σ : hstate) : Prop :=
  exists fl ext, heap_at n v fl ext σ.

Lemma index_ext v v' h pgs :
  (forall p, p ∈ pgs.*1 -> v_page v' p = v_page v p) -> index v h pgs -> index v' h pgs.
Proof.
  revert h. induction pgs as [|[p slots] pgs IH]; intros h Hp; cbn; [done|].
  intros (-> & Hs & Hi). rewrite Hp by left. split_and!; [done..|].
  apply IH; [|done]. intros q Hq. apply Hp. by right.
Qed.

Lemma index_chained v h pgs : index v h pgs -> chained v h pgs.*1.
Proof.
  revert h. induction pgs as [|[p slots] pgs IH]; intros h; cbn; [done|].
  intros (-> & _ & Hi). split; [done|]. by apply IH.
Qed.

Lemma obj_at_ext v v' h l o :
  (forall p, p ∈ l -> v_page v' p = v_page v p) -> obj_at v h l o -> obj_at v' h l o.
Proof.
  intros Hp [Hh Ho]. split; [done|]. destruct o as [bs|pgs].
  - by eapply blob_ext.
  - destruct Ho as [-> Ho]. split; [done|]. by eapply index_ext.
Qed.

Lemma obj_at_chained v h l o : obj_at v h l o -> chained v h l.
Proof.
  intros [_ Ho]. destruct o as [bs|pgs]; [by eapply blob_chained|].
  destruct Ho as [-> Ho]. by eapply index_chained.
Qed.

Lemma obj_at_head v h l o : obj_at v h l o -> h ∈ l.
Proof. intros [Hh _]. destruct l; [done|]. injection Hh as ->. left. Qed.

Lemma pages_ok_mono v v' l : pages_ok v l ->
  Superblock.hwm (v_sb v) <= Superblock.hwm (v_sb v') -> pages_ok v' l.
Proof.
  intros [Hn Hr] Hh. split; [done|]. eapply Forall_impl; [exact Hr|]. cbn. intros p ?. lia.
Qed.

Lemma heap_home n v fl ext σ h o p : heap_at n v fl ext σ ->
  hs_heap σ !! h = Some o -> p ∈ ext h -> home_page n p.
Proof.
  intros Hh Ho Hp. destruct (hp_obj _ _ _ _ _ Hh _ _ Ho) as [_ Hok].
  eapply pages_ok_home; [done| |done]. apply (fl_hwm _ _ _ (hp_free _ _ _ _ _ Hh)).
Qed.

(** The head of an object is a data page. *)
Lemma heap_head n v σ h o : heap_ok n v σ -> hs_heap σ !! h = Some o -> home_page n h.
Proof.
  intros (fl & ext & Hh) Ho. eapply heap_home; [done..|].
  eapply obj_at_head. by apply (hp_obj _ _ _ _ _ Hh).
Qed.

(** A view that keeps the pages in use keeps the heap. *)
Lemma heap_frame n v fl ext σ v' fl' :
  heap_at n v fl ext σ -> free_list n v' fl' ->
  (forall h p, is_Some (hs_heap σ !! h) -> p ∈ ext h -> v_page v' p = v_page v p /\ p ∉ fl') ->
  Superblock.hwm (v_sb v) <= Superblock.hwm (v_sb v') ->
  Superblock.catalog_head (v_sb v') = Superblock.catalog_head (v_sb v) ->
  Superblock.generation (v_sb v') = Superblock.generation (v_sb v) ->
  (v_staged v <> ∅ -> v_staged v' <> ∅) ->
  heap_at n v' fl' ext σ.
Proof.
  intros Hh Hfl Hp Hhwm Hcat Hgen Hst. split; try done.
  - intros h o Ho. destruct (hp_obj _ _ _ _ _ Hh h o Ho) as [Ha Hok]. split.
    + eapply obj_at_ext; [|done]. intros p Hin. by apply (Hp h p).
    + by eapply pages_ok_mono.
  - intros h p Hs Hin. by apply (Hp h p).
  - by apply (hp_disj _ _ _ _ _ Hh).
  - rewrite Hcat. apply Hh.
  - apply Hh.
  - rewrite Hgen. apply Hh.
  - intros Hw. apply Hst. by apply (hp_wrote _ _ _ _ _ Hh).
Qed.

(** A new object on pages nothing uses. *)
Lemma heap_insert n v fl ext σ h l o :
  heap_at n v fl ext σ -> hs_heap σ !! h = None -> obj_at v h l o -> pages_ok v l ->
  (forall p, p ∈ l -> p ∉ fl) -> (forall h' p, is_Some (hs_heap σ !! h') -> p ∈ ext h' -> p ∉ l) ->
  v_staged v <> ∅ ->
  heap_at n v fl (<[h := l]> ext) (hs_upd <[h := o]> σ).
Proof.
  intros Hh Hn Ho Hok Hfl Hd Hst.
  assert (Hne : forall h', is_Some (hs_heap σ !! h') -> h' <> h) by (intros h' [? ?] ->; congruence).
  split; cbn; try apply Hh; try done.
  - intros h' o' Ho'. destruct (decide (h' = h)) as [->|Hn'].
    + rewrite lookup_insert_eq in Ho'. injection Ho' as <-. by rewrite fn_lookup_insert.
    + rewrite lookup_insert_ne in Ho' by done. rewrite fn_lookup_insert_ne by done.
      by apply (hp_obj _ _ _ _ _ Hh).
  - intros h' p Hs. destruct (decide (h' = h)) as [->|Hn'].
    + rewrite fn_lookup_insert. auto.
    + rewrite lookup_insert_ne in Hs by done. rewrite fn_lookup_insert_ne by done.
      by apply (hp_used _ _ _ _ _ Hh).
  - intros h1 h2 p Hs1 Hs2.
    destruct (decide (h1 = h)) as [->|Hn1], (decide (h2 = h)) as [->|Hn2]; [done|..].
    + rewrite lookup_insert_ne in Hs2 by done. rewrite fn_lookup_insert, fn_lookup_insert_ne by done.
      intros Hp1 Hp2. by apply (Hd h2 p) in Hp1.
    + rewrite lookup_insert_ne in Hs1 by done. rewrite fn_lookup_insert, fn_lookup_insert_ne by done.
      intros Hp1 Hp2. by apply (Hd h1 p) in Hp1.
    + rewrite lookup_insert_ne in Hs1 by done. rewrite lookup_insert_ne in Hs2 by done.
      rewrite !fn_lookup_insert_ne by done. by apply (hp_disj _ _ _ _ _ Hh).
Qed.

Lemma heap_delete n v fl ext σ h b : heap_at n v fl ext σ -> (b = true -> v_staged v <> ∅) ->
  heap_at n v fl ext (mk_hstate (hs_gen σ) (hs_catalog σ) b (delete h (hs_heap σ))).
Proof.
  intros Hh Hst. split; cbn; try apply Hh; try done.
  - intros h' o [_ Ho]%lookup_delete_Some. by apply (hp_obj _ _ _ _ _ Hh).
  - intros h' p [o [_ Ho]%lookup_delete_Some]. by apply (hp_used _ _ _ _ _ Hh).
  - intros h1 h2 p [o1 [_ Ho1]%lookup_delete_Some] [o2 [_ Ho2]%lookup_delete_Some].
    by apply (hp_disj _ _ _ _ _ Hh).
Qed.

(** An object that changes, with its pages. *)
Lemma heap_replace n v fl ext σ h o v' fl' l' o' :
  heap_at n v fl ext σ -> hs_heap σ !! h = Some o -> free_list n v' fl' ->
  obj_at v' h l' o' -> pages_ok v' l' -> (forall p, p ∈ l' -> p ∉ fl') ->
  (forall h' p, h' <> h -> is_Some (hs_heap σ !! h') -> p ∈ ext h' ->
     v_page v' p = v_page v p /\ p ∉ fl' /\ p ∉ l') ->
  Superblock.hwm (v_sb v) <= Superblock.hwm (v_sb v') ->
  Superblock.catalog_head (v_sb v') = Superblock.catalog_head (v_sb v) ->
  Superblock.generation (v_sb v') = Superblock.generation (v_sb v) ->
  v_staged v' <> ∅ ->
  heap_at n v' fl' (<[h := l']> ext) (hs_upd <[h := o']> σ).
Proof.
  intros Hh Ho Hfl Ha Hok Hf Hd Hhwm Hcat Hgen Hst.
  set (σ0 := mk_hstate (hs_gen σ) (hs_catalog σ) false (delete h (hs_heap σ))).
  assert (H0 : forall h' p, is_Some (hs_heap σ0 !! h') -> p ∈ ext h' ->
    v_page v' p = v_page v p /\ p ∉ fl' /\ p ∉ l').
  { intros h' p [o1 Ho1] Hp. cbn in Ho1. apply lookup_delete_Some in Ho1 as [Hne Ho1].
    apply (Hd h' p); [congruence|done..]. }
  assert (H1 : heap_at n v' fl' ext σ0).
  { eapply heap_frame; [by apply heap_delete|done| |done..].
    intros h' p Hs Hp. by destruct (H0 h' p Hs Hp) as (? & ? & ?). }
  pose proof (heap_insert n v' fl' ext σ0 h l' o' H1) as H2.
  unfold hs_upd in *. cbn [σ0 hs_gen hs_catalog hs_heap] in H2. rewrite insert_delete_eq in H2.
  apply H2; try done; [apply lookup_delete_eq|]. intros h' p Hs Hp. by apply (H0 h' p).
Qed.

Lemma index_lookup v h pgs k p slots : index v h pgs -> pgs !! k = Some (p, slots) ->
  page_slots (v_page v p) slots.
Proof.
  revert h k. induction pgs as [|[q sl] pgs IH]; intros h k Hi Hk; [done|].
  destruct Hi as (-> & Hs & Hi). destruct k as [|k]; [by injection Hk as -> ->|]. by eapply IH.
Qed.

(** Other slots in one page of an index. *)
Lemma index_insert v v' h pgs k p slots slots' :
  index v h pgs -> pgs !! k = Some (p, slots) -> NoDup pgs.*1 ->
  (forall q, q <> p -> v_page v' q = v_page v q) ->
  link (v_page v' p) = link (v_page v p) -> page_slots (v_page v' p) slots' ->
  index v' h (<[k := (p, slots')]> pgs).
Proof.
  intros Hi Hk Hnd Hq Hl Hs. revert h k Hi Hk. induction pgs as [|[q sl] pgs IH]; intros h k Hi Hk; [done|].
  cbn in Hnd. apply NoDup_cons in Hnd as [Hn Hnd]. destruct Hi as (-> & Hsl & Hi).
  destruct k as [|k].
  - injection Hk as -> ->. cbn. split_and!; [done..|]. rewrite Hl.
    eapply index_ext; [|exact Hi]. intros r Hr. apply Hq. by intros ->.
  - cbn in Hk. assert (Hne : q <> p).
    { intros ->. apply Hn. apply list_elem_of_fmap. exists (p, slots).
      split; [done|]. by eapply list_elem_of_lookup_2. }
    cbn. rewrite (Hq q) by done. split_and!; [done..|]. by apply IH.
Qed.

(** Another end of an index. *)
Lemma index_tail v v' h init p slots b :
  index v h (init ++ [(p, slots)]) -> (forall q, q ∈ init.*1 -> v_page v' q = v_page v q) ->
  index v' p b -> index v' h (init ++ b).
Proof.
  revert h. induction init as [|[q sl] init IH]; intros h; cbn.
  - by intros (-> & _).
  - intros (-> & Hs & Hi) Hq Hb. rewrite (Hq q) by left. split_and!; [done..|].
    apply IH; [done| |done]. intros r Hr. apply Hq. by right.
Qed.

Lemma index_last v h init p slots : index v h (init ++ [(p, slots)]) ->
  page_slots (v_page v p) slots /\ link (v_page v p) = 0.
Proof.
  revert h. induction init as [|[q sl] init IH]; intros h; cbn.
  - by intros (-> & ? & ?).
  - intros (-> & _ & Hi). by eapply IH.
Qed.

(** ** Programs on the heap *)

Section HeapWp.
Context {D : Type} `{!BlockDevice D, !DeviceLaws D}.
Abbreviation M := (stM (Pager.t D) StoreError) (only parsing).

(** [hwp n m σ c Q]: run in a transaction that sees the heap [σ], [c] ends
    with an outcome and a heap that satisfy [Q]. *)
Definition hwp {A} (n : Z) (m : medium) (σ : hstate) (c : M A)
    (Q : outcome StoreError A -> hstate -> Prop) : Prop :=
  forall v, heap_ok n v σ -> pwp n m v c (fun r v' => exists σ', heap_ok n v' σ' /\ Q r σ').

Lemma hwp_ret {A} n m σ (a : A) (Q : outcome StoreError A -> hstate -> Prop) :
  Q (Val a) σ -> hwp n m σ (mret a) Q.
Proof. intros HQ v Hv. apply pwp_ret. by exists σ. Qed.

Lemma hwp_lift {A} n m σ (r : outcome StoreError A) (Q : outcome StoreError A -> hstate -> Prop) :
  Q r σ -> hwp n m σ (lift r) Q.
Proof. intros HQ v Hv. apply pwp_lift. by exists σ. Qed.

Lemma hwp_bind {A B} n m σ (c : M A) (f : A -> M B) (Q : outcome StoreError B -> hstate -> Prop) :
  hwp n m σ c (fun r σ' => match r with
    | Val a => hwp n m σ' (f a) Q
    | Fail e => Q (Fail e) σ'
    | Panic => Q Panic σ'
    | NoFuel => Q NoFuel σ'
    end) -> hwp n m σ (c ≫= f) Q.
Proof.
  intros H v Hv. apply pwp_bind. eapply pwp_conseq; [by apply H|].
  intros [a|e| |] v' (σ' & Hv' & HQ); [by apply HQ|by exists σ'..].
Qed.

Lemma hwp_conseq {A} n m σ (c : M A) (Q Q' : outcome StoreError A -> hstate -> Prop) :
  hwp n m σ c Q' -> (forall r σ', Q' r σ' -> Q r σ') -> hwp n m σ c Q.
Proof.
  intros H HQ v Hv. eapply pwp_conseq; [by apply H|]. intros r v' (σ' & ? & ?). exists σ'. auto.
Qed.

(** [returns n m σ c r]: [c] ends with [r] and leaves every page as it is. *)
Definition returns {A} (n : Z) (m : medium) (σ : hstate) (c : M A) (r0 : outcome StoreError A) : Prop :=
  forall v, heap_ok n v σ -> pwp n m v c (fun r v' => r = r0 /\ v' = v).

Lemma returns_lift {A} n m σ (r : outcome StoreError A) : returns n m σ (lift r) r.
Proof. intros v Hv. by apply pwp_lift. Qed.
Lemma returns_ret {A} n m σ (a : A) : returns n m σ (mret a) (Val a).
Proof. intros v Hv. by apply pwp_ret. Qed.

Lemma returns_bind {A B} n m σ (c : M A) (f : A -> M B) r (g : A -> outcome StoreError B) :
  returns n m σ c r -> (forall a, r = Val a -> returns n m σ (f a) (g a)) ->
  returns n m σ (c ≫= f) (r ≫= g).
Proof.
  intros Hc Hf v Hv. apply pwp_bind. eapply pwp_conseq; [by apply Hc|].
  intros r' v' [-> ->]. destruct r as [a|e| |]; try done. by apply Hf.
Qed.

(** A read in front of a program. *)
Lemma hwp_read {A B} n m σ (c : M A) (f : A -> M B) r (Q : outcome StoreError B -> hstate -> Prop) :
  returns n m σ c r ->
  match r with
  | Val a => hwp n m σ (f a) Q
  | Fail e => Q (Fail e) σ
  | Panic => Q Panic σ
  | NoFuel => Q NoFuel σ
  end -> hwp n m σ (c ≫= f) Q.
Proof.
  intros Hc HQ v Hv. apply pwp_bind. eapply pwp_conseq; [by apply Hc|]. intros r' v' [-> ->].
  destruct r as [a|e| |]; [by apply HQ|by exists σ..].
Qed.

Lemma returns_if {A} n m σ (b : bool) (c1 c2 : M A) r1 r2 :
  (b = true -> returns n m σ c1 r1) -> (b = false -> returns n m σ c2 r2) ->
  returns n m σ (if b then c1 else c2) (if b then r1 else r2).
Proof. destruct b; auto. Qed.

(** Loops over related lists. *)
Lemma returns_for_each2 {A B} (R : A -> B -> Prop) n m σ l l' (body : A -> M unit) g :
  Forall2 R l l' -> (forall x y, R x y -> returns n m σ (body x) (g y)) ->
  returns n m σ (for_each l body) (each_o g l').
Proof.
  intros H Hb. induction H as [|x y l l' Hxy _ IH]; [apply returns_ret|].
  cbn [for_each each_o]. apply returns_bind; [by apply Hb|]. intros _ _. apply IH.
Qed.

Lemma returns_for_collect2 {A B C} (R : A -> B -> Prop) n m σ l l' (body : A -> M C) g :
  Forall2 R l l' -> (forall x y, R x y -> returns n m σ (body x) (g y)) ->
  returns n m σ (for_collect l body) (map_o g l').
Proof.
  intros H Hb. induction H as [|x y l l' Hxy _ IH]; [apply returns_ret|].
  cbn [for_collect map_o]. apply returns_bind; [by apply Hb|]. intros b _.
  apply returns_bind; [apply IH|]. intros bs _. apply returns_ret.
Qed.

(** ** The superblock's fields *)

Lemma returns_sb {A} n m σ (f : Superblock.t -> M A) r :
  (forall s, Superblock.catalog_head s = hs_catalog σ -> returns n m σ (f s) r) ->
  returns n m σ (gets Pager.sb ≫= f) r.
Proof.
  intros H v (fl & ext & Hh). apply pwp_bind, pwp_sb. apply (H (v_sb v)); [apply Hh|].
  by exists fl, ext.
Qed.

Lemma hwp_sb {A} n m σ (f : Superblock.t -> M A) Q :
  (forall s, Superblock.catalog_head s = hs_catalog σ -> hwp n m σ (f s) Q) ->
  hwp n m σ (gets Pager.sb ≫= f) Q.
Proof.
  intros H v (fl & ext & Hh). apply pwp_bind, pwp_sb. apply (H (v_sb v)); [apply Hh|].
  by exists fl, ext.
Qed.

Lemma hwp_set_catalog n m σ h (Q : outcome StoreError unit -> hstate -> Prop) :
  is_u64 h -> Q (Val tt) (hs_set_catalog h σ) ->
  hwp n m σ (Pager.set_sb (Superblock.set_catalog_head h)) Q.
Proof.
  intros Hu HQ v (fl & ext & Hh). apply pwp_set_sb; [done|].
  exists (hs_set_catalog h σ). split; [|done]. exists fl, ext.
  destruct Hh as [[Fc Fn Fr Fh Ft Fs] H2 H3 H4 H5 H6 H7 H8]. split; try done.
  { split; try done. by apply (chained_ext v). }
  intros h' o Ho. destruct (H2 h' o Ho) as [Ha Hok].
  split; [by apply (obj_at_ext v)|exact Hok].
Qed.

(** ** Blobs *)

Lemma returns_read_chain n m σ h bs :
  hs_heap σ !! h = Some (Blob bs) -> returns n m σ (read_chain h) (Val bs).
Proof.
  intros Ho v (fl & ext & Hh). destruct (hp_obj _ _ _ _ _ Hh h _ Ho) as [[_ Ha] Hok].
  pose proof (fl_hwm _ _ _ (hp_free _ _ _ _ _ Hh)).
  by apply (pwp_read_chain n m v h (ext h) bs); [done|done|slia|].
Qed.

(** What is used stays when pages are allocated. *)
Lemma heap_allocated n v fl ext σ v' fl' ps : heap_at n v fl ext σ ->
  allocated n v fl v' fl' ps ->
  heap_at n v' fl' ext σ /\
  (forall h p, is_Some (hs_heap σ !! h) -> p ∈ ext h -> p ∉ ps).
Proof.
  intros Hh Hal.
  assert (Hu : forall h p, is_Some (hs_heap σ !! h) -> p ∈ ext h ->
    p ∉ ps /\ p ∉ fl' /\ v_page v' p = v_page v p).
  { intros h p Hs Hp. eapply allocated_used; [done| |by eapply hp_used].
    destruct Hs as [o Ho]. destruct (hp_obj _ _ _ _ _ Hh h o Ho) as [_ [_ Hr]].
    rewrite Forall_forall in Hr. by apply Hr. }
  split; [|intros h p Hs Hp; by apply (Hu h p)].
  eapply heap_frame; [done|apply Hal| |apply Hal|apply Hal|apply Hal|].
  - intros h p Hs Hp. destruct (Hu h p Hs Hp) as (? & ? & ?). by split.
  - rewrite (al_staged _ _ _ _ _ _ Hal). set_solver.
Qed.

Lemma heap_fresh n v fl ext σ h ps : heap_at n v fl ext σ ->
  (forall h' p, is_Some (hs_heap σ !! h') -> p ∈ ext h' -> p ∉ (h :: ps)) ->
  hs_heap σ !! h = None.
Proof.
  intros Hh Hd. destruct (hs_heap σ !! h) as [o|] eqn:E; [|done]. exfalso.
  apply (Hd h h); [by rewrite E| |by left].
  eapply obj_at_head. by apply (hp_obj _ _ _ _ _ Hh).
Qed.

Lemma hwp_write_obj n m σ bs (o : Z -> obj) (Q : outcome StoreError Z -> hstate -> Prop) :
  (forall v h ps, len (h :: ps) = nchunks bs -> blob v h (h :: ps) bs -> obj_at v h (h :: ps) (o h)) ->
  (forall h, hs_heap σ !! h = None -> home_page n h -> Q (Val h) (hs_upd <[h := o h]> σ)) ->
  Q (Fail OutOfSpace) σ ->
  hwp n m σ (write_chain bs) Q.
Proof.
  intros Ho HV HF v (fl & ext & Hh).
  apply (pwp_write_chain n m v fl bs); [apply Hh| |].
  - intros h ps v' fl' Hal Hb Hlen. destruct (heap_allocated _ _ _ _ _ _ _ _ Hh Hal) as [Hh' Hd].
    pose proof (heap_fresh _ _ _ _ _ _ _ Hh' Hd) as Hn.
    assert (Hnew : heap_at n v' fl' (<[h := h :: ps]> ext) (hs_upd <[h := o h]> σ)).
    { apply heap_insert; [done|done|by apply Ho|apply Hal|apply Hal|done|].
      rewrite (al_staged _ _ _ _ _ _ Hal). set_solver. }
    exists (hs_upd <[h := o h]> σ). split; [by eexists _, _|]. apply HV; [done|].
    eapply (heap_home _ _ _ _ _ h _ h Hnew); [apply lookup_insert_eq|].
    rewrite fn_lookup_insert. left.
  - intros ps v' fl' Hal. exists σ. split; [|done]. exists fl', ext. by eapply heap_allocated.
Qed.

Lemma hwp_write_chain n m σ bs (Q : outcome StoreError Z -> hstate -> Prop) :
  (forall h, hs_heap σ !! h = None -> home_page n h -> Q (Val h) (hs_upd <[h := Blob bs]> σ)) ->
  Q (Fail OutOfSpace) σ ->
  hwp n m σ (write_chain bs) Q.
Proof. intros HV HF. by apply hwp_write_obj with (o := fun _ => Blob bs). Qed.

(** The empty blob is an index page without slots. *)
Lemma hwp_write_index n m σ (Q : outcome StoreError Z -> hstate -> Prop) :
  (forall h, hs_heap σ !! h = None -> home_page n h ->
     Q (Val h) (hs_upd <[h := Index [(h, [])]]> σ)) ->
  Q (Fail OutOfSpace) σ ->
  hwp n m σ (write_chain []) Q.
Proof.
  intros HV HF. apply hwp_write_obj with (o := fun h => Index [(h, [])]); [|done..].
  intros v h ps Hlen Hb. destruct ps as [|p ps]; [|cbn in Hlen; lia].
  destruct Hb as (_ & Hl & _ & rest & E & Hn & Hr).
  split; [done|]. split; [done|]. cbn. split_and!; [done| |done].
  symmetry in E. apply app_nil in E as [E _]. rewrite E in Hl. by split.
Qed.

(** Freeing an object. *)
Lemma hwp_free_chain n m σ h o (Q : outcome StoreError unit -> hstate -> Prop) :
  hs_heap σ !! h = Some o -> Q (Val tt) (hs_upd (delete h) σ) ->
  hwp n m σ (free_chain h) Q.
Proof.
  intros Ho HQ v (fl & ext & Hh). destruct (hp_obj _ _ _ _ _ Hh h o Ho) as [Ha Hok].
  apply (pwp_free_chain n m v h (ext h) fl); [apply Hh|by eapply obj_at_chained|done| |].
  { intros p. apply (hp_used _ _ _ _ _ Hh). by rewrite Ho. }
  intros v' fl' Hfr. exists (hs_upd (delete h) σ). split; [|done]. exists fl', ext.
  assert (Hst : v_staged v' <> ∅).
  { rewrite (fr_staged _ _ _ _ _ _ Hfr). pose proof (obj_at_head _ _ _ _ Ha). set_solver. }
  set (σ0 := mk_hstate (hs_gen σ) (hs_catalog σ) false (delete h (hs_heap σ))).
  assert (H0 : heap_at n v' fl' ext σ0).
  { eapply heap_frame; [by apply heap_delete|apply Hfr| | |apply Hfr|apply Hfr|done].
    - intros h' p [o' Ho'] Hp. cbn in Ho'. apply lookup_delete_Some in Ho' as [Hne Ho'].
      assert (Hs : is_Some (hs_heap σ !! h')) by done.
      assert (Hnot : p ∉ ext h).
      { intros Hp'. apply Hne. symmetry. eapply (hp_disj _ _ _ _ _ Hh h' h p); try done. }
      split; [by apply (fr_same _ _ _ _ _ _ Hfr)|].
      rewrite (fr_elem _ _ _ _ _ _ Hfr). intros [?|?]; [done|]. by eapply hp_used.
    - rewrite (fr_hwm _ _ _ _ _ _ Hfr). done. }
  destruct H0. by split.
Qed.


(** ** Indexes *)

Lemma pwp_index_collect_loop n m v : forall pgs fuel h out (Q : outcome StoreError (list (RowId.t * Z)) -> view -> Prop),
  index v h pgs -> Forall (home_page n) pgs.*1 -> (length pgs < fuel)%nat ->
  Q (Val (out ++ index_rows pgs)) v -> pwp n m v (index_collect_loop fuel h out) Q.
Proof.
  induction pgs as [|[p slots] pgs IH]; intros fuel h out Q Hi Hh Hf HQ.
  - cbn in Hi. subst h. unfold index_rows, live in HQ. cbn in HQ. rewrite app_nil_r in HQ.
    destruct fuel; by apply pwp_ret.
  - destruct fuel as [|fuel]; [cbn in Hf; lia|]. cbn in Hf.
    destruct Hi as (-> & Hs & Hi). apply Forall_cons in Hh as [Hp Hh]. cbn in Hp.
    cbn [index_collect_loop]. rewrite (proj2 (Z.eqb_neq p 0)) by (destruct Hp; slia).
    apply pwp_bind, pwp_read_page; [done|]. intros Hpl.
    apply pwp_bind, pwp_lift. rewrite rd_next by done.
    apply pwp_bind, pwp_lift. rewrite rd_len by done. rewrite (ps_len _ _ Hs).
    apply pwp_bind, pwp_lift. pose proof (ps_cap _ _ Hs).
    pose proof (collect_slots_spec (v_page v p) slots p Hpl Hs (S (Z.to_nat IDX_CAP)) 0 out ltac:(lia)) as E.
    change (Z.of_nat 0) with 0 in E. rewrite E. apply IH; [done|done|lia|].
    rewrite <- app_assoc. exact HQ.
Qed.

Lemma index_extent n v fl ext σ h pgs : heap_at n v fl ext σ ->
  hs_heap σ !! h = Some (Index pgs) ->
  ext h = pgs.*1 /\ index v h pgs /\ pages_ok v pgs.*1 /\ Forall (home_page n) pgs.*1 /\
  (length pgs <= Z.to_nat (n / 8))%nat.
Proof.
  intros Hh Ho. destruct (hp_obj _ _ _ _ _ Hh h _ Ho) as [[Hhd [El Hi]] Hok].
  rewrite El in *. split_and!; try done.
  - apply Forall_forall. intros p Hp. eapply heap_home; [done..|]. by rewrite El.
  - pose proof (fl_hwm _ _ _ (hp_free _ _ _ _ _ Hh)).
    pose proof (pages_ok_length n v _ Hok ltac:(slia)) as Hl. by rewrite length_fmap in Hl.
Qed.

Lemma returns_index_collect n m σ h pgs :
  hs_heap σ !! h = Some (Index pgs) ->
  returns n m σ (index_collect h) (Val (index_rows pgs)).
Proof.
  intros Ho v (fl & ext & Hh).
  destruct (index_extent _ _ _ _ _ _ _ Hh Ho) as (El & Hi & Hok & Hhome & Hlen).
  apply pwp_with_fuel. by apply (pwp_index_collect_loop n m v pgs); [done|done|lia|].
Qed.

(** Reading one slot. *)
Definition slot_outcome (slots : list Z) (i : Z) : outcome StoreError Z :=
  match nth_z slots i with
  | None => Fail (NotFound (str "row"))
  | Some s => if s =? 0 then Fail (NotFound (str "row (deleted)")) else Val s
  end.

Lemma returns_row_head_at n m σ h pgs k p slots i :
  hs_heap σ !! h = Some (Index pgs) -> pgs !! k = Some (p, slots) -> 0 <= i ->
  returns n m σ (row_head_at (RowId.mk p i)) (slot_outcome slots i).
Proof.
  intros Ho Hk H0 v (fl & ext & Hh).
  destruct (index_extent _ _ _ _ _ _ _ Hh Ho) as (El & Hi & Hok & Hhome & Hlen).
  pose proof (index_lookup _ _ _ _ _ _ Hi Hk) as Hs.
  rewrite Forall_lookup in Hhome.
  assert (Hp : home_page n p) by (apply (Hhome k); by rewrite list_lookup_fmap, Hk).
  unfold row_head_at. cbn [RowId.index_page RowId.slot].
  apply pwp_bind, pwp_read_page; [done|]. intros Hpl.
  apply pwp_bind, pwp_lift. rewrite rd_len by done. rewrite (ps_len _ _ Hs).
  destruct (Z.leb_spec (len slots) i) as [Hge|Hlt].
  { apply pwp_lift. unfold slot_outcome, nth_z. by rewrite lookup_ge_None_2 by lia. }
  destruct (lookup_lt_is_Some_2 slots (Z.to_nat i)) as [s E]; [lia|].
  pose proof (rd_slot _ _ _ _ Hpl Hs E) as Er. rewrite Z2Nat.id in Er by lia.
  apply pwp_bind, pwp_lift. rewrite Er.
  assert (Es : slot_outcome slots i = if s =? 0 then Fail (NotFound (str "row (deleted)")) else Val s)
    by (unfold slot_outcome, nth_z; by rewrite E).
  destruct (s =? 0); [apply pwp_lift|apply pwp_ret]; by rewrite Es.
Qed.

(** Writing one slot. *)
Lemma hwp_index_set n m σ h pgs k p slots i x (Q : outcome StoreError unit -> hstate -> Prop) :
  hs_heap σ !! h = Some (Index pgs) -> pgs !! k = Some (p, slots) -> (i < length slots)%nat ->
  is_u64 x ->
  Q (Val tt) (hs_upd <[h := Index (<[k := (p, <[i := x]> slots)]> pgs)]> σ) ->
  hwp n m σ (index_set p (Z.of_nat i) x) Q.
Proof.
  intros Ho Hk Hi Hx HQ v (fl & ext & Hh).
  destruct (index_extent _ _ _ _ _ _ _ Hh Ho) as (El & Hidx & Hok & Hhome & Hlen).
  pose proof (index_lookup _ _ _ _ _ _ Hidx Hk) as Hs.
  assert (Hpin : p ∈ pgs.*1) by (apply (list_elem_of_lookup_2 _ k); by rewrite list_lookup_fmap, Hk).
  assert (Hp : home_page n p) by (by eapply Forall_forall in Hhome).
  unfold index_set. apply pwp_bind, pwp_read_page; [done|]. intros Hpl.
  apply pwp_bind, pwp_lift. rewrite rd_len by done. rewrite (ps_len _ _ Hs).
  rewrite (proj2 (Z.leb_gt _ _)) by lia.
  destruct (write_slot _ _ i x Hpl Hs Hi Hx) as (img & E & Hl & Hlk & Hs').
  apply pwp_bind, pwp_lift. rewrite E. apply pwp_write_page; [done..|].
  eexists. split; [|exact HQ].
  assert (Hsame : forall q, q <> p -> v_page (view_upd v p img) q = v_page v q).
  { intros q Hq. cbn. by rewrite (proj2 (Z.eqb_neq _ _)). }
  assert (Ep : v_page (view_upd v p img) p = img) by (cbn; by rewrite Z.eqb_refl).
  exists fl, (<[h := pgs.*1]> ext). eapply heap_replace; try done.
  - destruct (hp_free _ _ _ _ _ Hh). split; try done. eapply chained_ext; [|done].
    intros q Hq. symmetry. apply Hsame. intros ->.
    eapply (hp_used _ _ _ _ _ Hh h p); [by rewrite Ho|by rewrite El|done].
  - destruct (hp_obj _ _ _ _ _ Hh h _ Ho) as [[Hhd _] _]. rewrite El in Hhd.
    split; [done|]. split.
    + rewrite list_fmap_insert. cbn. symmetry. apply list_insert_id. by rewrite list_lookup_fmap, Hk.
    + eapply index_insert; [done|done|apply Hok|done|by rewrite Ep|by rewrite Ep].
  - intros q Hq. apply (hp_used _ _ _ _ _ Hh h); [by rewrite Ho|by rewrite El].
  - intros h' q Hne Hs0 Hq.
    assert (Hnot : q ∉ pgs.*1).
    { rewrite <- El. intros Hq'. apply Hne. eapply (hp_disj _ _ _ _ _ Hh h' h q); try done. }
    split_and!; [apply Hsame; by intros ->|by eapply hp_used|done].
  - cbn. set_solver.
Qed.

(** The walk ends at the last page. *)
Lemma pwp_index_walk n m v init p slots x : forall fuel h (Q : outcome StoreError RowId.t -> view -> Prop),
  index v h (init ++ [(p, slots)]) -> Forall (home_page n) (init ++ [(p, slots)]).*1 ->
  (length init < fuel)%nat ->
  (forall fuel', pwp n m v (index_append_loop (S fuel') p x) Q) ->
  pwp n m v (index_append_loop fuel h x) Q.
Proof.
  induction init as [|[q sl] init IH]; intros fuel h Q Hi Hh Hf HQ.
  - destruct Hi as (-> & _ & _). destruct fuel as [|fuel]; [cbn in Hf; lia|]. apply HQ.
  - destruct fuel as [|fuel]; [cbn in Hf; lia|]. cbn in Hf.
    destruct Hi as (-> & Hs & Hi). cbn in Hh. apply Forall_cons in Hh as [Hq Hh].
    cbn [index_append_loop].
    apply pwp_bind, pwp_read_page; [done|]. intros Hpl.
    apply pwp_bind, pwp_lift. rewrite rd_next by done.
    apply pwp_bind, pwp_lift. rewrite rd_len by done.
    assert (Hnz : link (v_page v q) <> 0).
    { destruct init as [|[r sl'] init]; destruct Hi as (-> & _); apply Forall_cons in Hh as [[? _] _];
        cbn in *; slia. }
    rewrite (proj2 (Z.eqb_neq _ 0)) by done. apply IH; [done|done|lia|done].
Qed.

(** Appending in the last page. *)
Lemma append_in_page n m σ h init p slots x v fl ext (Q : outcome StoreError RowId.t -> view -> Prop) fuel :
  heap_at n v fl ext σ -> hs_heap σ !! h = Some (Index (init ++ [(p, slots)])) ->
  is_u64 x -> len slots < IDX_CAP ->
  (forall v', heap_ok n v' (hs_upd <[h := Index (init ++ [(p, slots ++ [x])])]> σ) ->
     Q (Val (RowId.mk p (len slots))) v') ->
  pwp n m v (index_append_loop (S fuel) p x) Q.
Proof.
  intros Hh Ho Hx Hcap HQ.
  destruct (index_extent _ _ _ _ _ _ _ Hh Ho) as (El & Hidx & Hok & Hhome & Hlen).
  destruct (index_last _ _ _ _ _ Hidx) as [Hs Hlk].
  assert (Hpin : p ∈ (init ++ [(p, slots)]).*1) by (rewrite fmap_app; set_solver).
  assert (Hp : home_page n p) by (by eapply Forall_forall in Hhome).
  cbn [index_append_loop]. apply pwp_bind, pwp_read_page; [done|]. intros Hpl.
  apply pwp_bind, pwp_lift. rewrite rd_next, Hlk by done.
  apply pwp_bind, pwp_lift. rewrite rd_len by done. rewrite (ps_len _ _ Hs). cbn [Z.eqb].
  rewrite (proj2 (Z.ltb_lt _ _)) by done.
  destruct (push_slot _ _ x Hpl Hs Hcap Hx) as (img1 & img & E1 & E & Hl & Hlk' & Hs').
  apply pwp_bind, pwp_lift. rewrite E1. apply pwp_bind, pwp_lift. rewrite E.
  apply pwp_bind, pwp_write_page; [done..|]. apply pwp_ret.
  unfold as_u32. change IDX_CAP with 510 in Hcap. rewrite Z.mod_small by lia. apply HQ.
  assert (Hsame : forall q, q <> p -> v_page (view_upd v p img) q = v_page v q).
  { intros q Hq. cbn. by rewrite (proj2 (Z.eqb_neq _ _)). }
  assert (Ep : v_page (view_upd v p img) p = img) by (cbn; by rewrite Z.eqb_refl).
  assert (Hni : p ∉ init.*1).
  { destruct Hok as [Hnd _]. rewrite fmap_app in Hnd. apply NoDup_app in Hnd as (_ & Hd & _).
    intros Hin. apply (Hd p Hin). by left. }
  exists fl, (<[h := (init ++ [(p, slots)]).*1]> ext). eapply heap_replace; try done.
  - destruct (hp_free _ _ _ _ _ Hh). split; try done. eapply chained_ext; [|done].
    intros q Hq. symmetry. apply Hsame. intros ->.
    eapply (hp_used _ _ _ _ _ Hh h p); [by rewrite Ho|by rewrite El|done].
  - destruct (hp_obj _ _ _ _ _ Hh h _ Ho) as [[Hhd _] _]. rewrite El in Hhd.
    split; [done|]. split; [by rewrite !fmap_app|].
    eapply index_tail; [exact Hidx| |].
    + intros q Hq. apply Hsame. by intros ->.
    + cbn -[view_upd]. rewrite Ep, Hlk', Hlk. done.
  - intros q Hq. apply (hp_used _ _ _ _ _ Hh h); [by rewrite Ho|by rewrite El].
  - intros h' q Hne Hs0 Hq.
    assert (Hnot : q ∉ (init ++ [(p, slots)]).*1).
    { rewrite <- El. intros Hq'. apply Hne. eapply (hp_disj _ _ _ _ _ Hh h' h q); try done. }
    split_and!; [apply Hsame; by intros ->|by eapply hp_used|done].
  - cbn. set_solver.
Qed.

(** Appending a page. *)
Lemma append_new_page n m σ h init p slots x v fl ext (Q : outcome StoreError RowId.t -> view -> Prop) fuel :
  heap_at n v fl ext σ -> hs_heap σ !! h = Some (Index (init ++ [(p, slots)])) ->
  is_u64 x -> IDX_CAP <= len slots ->
  (forall v' np, np ∉ (init ++ [(p, slots)]).*1 ->
     heap_ok n v' (hs_upd <[h := Index ((init ++ [(p, slots)]) ++ [(np, [x])])]> σ) ->
     Q (Val (RowId.mk np 0)) v') ->
  (forall v', heap_ok n v' σ -> Q (Fail OutOfSpace) v') ->
  pwp n m v (index_append_loop (S fuel) p x) Q.
Proof.
  intros Hh Ho Hx Hcap HQ HF.
  destruct (index_extent _ _ _ _ _ _ _ Hh Ho) as (El & Hidx & Hok & Hhome & Hlen).
  destruct (index_last _ _ _ _ _ Hidx) as [Hs Hlk].
  assert (Hpin : p ∈ (init ++ [(p, slots)]).*1) by (rewrite fmap_app; set_solver).
  assert (Hp : home_page n p) by (by eapply Forall_forall in Hhome).
  cbn [index_append_loop]. apply pwp_bind, pwp_read_page; [done|]. intros Hpl.
  apply pwp_bind, pwp_lift. rewrite rd_next, Hlk by done.
  apply pwp_bind, pwp_lift. rewrite rd_len by done. rewrite (ps_len _ _ Hs). cbn [Z.eqb].
  rewrite (proj2 (Z.ltb_ge _ _)) by done.
  apply pwp_bind. apply (pwp_alloc_one n m v fl); [apply Hh| |apply HF; by exists fl, ext].
  intros np v1 fl1 Hal Hnp. destruct (heap_allocated _ _ _ _ _ _ _ _ Hh Hal) as [Hh1 Hd1].
  destruct (new_index_page x Hx) as (i1 & newp & E1 & E2 & Hln & Hlkn & Hsn).
  apply pwp_bind, pwp_lift. rewrite E1. apply pwp_bind, pwp_lift. rewrite E2.
  apply pwp_bind, pwp_write_page; [done..|].
  destruct (set_link (v_page v p) slots np Hpl Hs) as (img & E & Hl & Hlk' & Hs').
  { destruct Hnp. unfold is_u64. pose proof (fl_size _ _ _ (hp_free _ _ _ _ _ Hh)). slia. }
  apply pwp_bind, pwp_lift. rewrite E.
  apply pwp_bind, pwp_write_page; [done..|]. apply pwp_ret.
  assert (Hnpf : np ∉ (init ++ [(p, slots)]).*1).
  { rewrite <- El. intros Hin. apply (Hd1 h np); [by rewrite Ho|done|by left]. }
  apply (HQ _ np); [done|].
  assert (Hne : np <> p) by (by intros ->).
  set (v2 := view_upd (view_upd v1 np newp) p img).
  assert (Hsame : forall q, q <> p -> q <> np -> v_page v2 q = v_page v1 q).
  { intros q Hq Hq'. cbn. by rewrite !(proj2 (Z.eqb_neq _ _)). }
  assert (Ep : v_page v2 p = img) by (cbn; by rewrite Z.eqb_refl).
  assert (En : v_page v2 np = newp) by (cbn; by rewrite (proj2 (Z.eqb_neq _ _)), Z.eqb_refl).
  destruct (index_extent _ _ _ _ _ _ _ Hh1 Ho) as (_ & Hidx1 & Hok1 & _ & _).
  assert (Hni : p ∉ init.*1).
  { destruct Hok as [Hnd _]. rewrite fmap_app in Hnd. apply NoDup_app in Hnd as (_ & Hd & _).
    intros Hin. apply (Hd p Hin). by left. }
  exists fl1, (<[h := ((init ++ [(p, slots)]) ++ [(np, [x])]).*1]> ext). eapply heap_replace; try done.
  - destruct (hp_free _ _ _ _ _ Hh1). split; try done. eapply chained_ext; [|done].
    intros q Hq. symmetry. apply Hsame; intros ->.
    + eapply (hp_used _ _ _ _ _ Hh1 h p); [by rewrite Ho|by rewrite El|done].
    + eapply (al_disj _ _ _ _ _ _ Hal); [by left|done].
  - destruct (hp_obj _ _ _ _ _ Hh h _ Ho) as [[Hhd _] _]. rewrite El in Hhd.
    split; [by rewrite fmap_app, head_app, Hhd|]. split; [done|].
    rewrite <- app_assoc. eapply index_tail; [exact Hidx1| |].
    + intros q Hq. apply Hsame; intros ->; [done|]. apply Hnpf. rewrite fmap_app. set_solver.
    + cbn -[v2]. rewrite Ep, Hlk', En, Hlkn. done.
  - rewrite fmap_app. destruct Hok1 as [Hnd Hr], (al_ok _ _ _ _ _ _ Hal) as [_ Hr']. split.
    + apply NoDup_app. split_and!; [done| |apply NoDup_singleton].
      by intros q Hq ->%list_elem_of_singleton.
    + apply Forall_app. by split.
  - intros q Hq Hf. rewrite fmap_app in Hq. apply elem_of_app in Hq as [Hq|Hq].
    + eapply (hp_used _ _ _ _ _ Hh1 h); [by rewrite Ho|by rewrite El|done].
    + by eapply (al_disj _ _ _ _ _ _ Hal).
  - intros h' q Hne' Hs0 Hq.
    assert (Hnot : q ∉ (init ++ [(p, slots)]).*1).
    { rewrite <- El. intros Hq'. apply Hne'. eapply (hp_disj _ _ _ _ _ Hh h' h q); try done. }
    assert (Hnn : q ∉ [np]) by (by eapply Hd1).
    split_and!; [apply Hsame; [by intros ->|intros ->; apply Hnn; by left]|by eapply hp_used|].
    rewrite fmap_app. intros [?|?]%elem_of_app; done.
  - cbn. set_solver.
Qed.

Lemma hwp_index_append n m σ h pgs x (Q : outcome StoreError RowId.t -> hstate -> Prop) :
  hs_heap σ !! h = Some (Index pgs) -> is_u64 x ->
  (forall id pgs', appended pgs x id pgs' -> Q (Val id) (hs_upd <[h := Index pgs']> σ)) ->
  Q (Fail OutOfSpace) σ ->
  hwp n m σ (index_append h x) Q.
Proof.
  intros Ho Hx HV HF v (fl & ext & Hh).
  destruct (index_extent _ _ _ _ _ _ _ Hh Ho) as (El & Hidx & Hok & Hhome & Hlen).
  destruct pgs as [|[p slots] init _] using rev_ind.
  { destruct (hp_obj _ _ _ _ _ Hh h _ Ho) as [[Hhd _] _]. by rewrite El in Hhd. }
  apply pwp_with_fuel. apply (pwp_index_walk n m v init p slots); [done|done| |].
  { rewrite length_app in Hlen. cbn in Hlen. lia. }
  intros fuel. destruct (Z.lt_ge_cases (len slots) IDX_CAP) as [Hc|Hc].
  - eapply append_in_page; [done..|]. intros v' Hv'. eexists. split; [exact Hv'|].
    apply HV. by constructor.
  - eapply append_new_page; [done..| |].
    + intros v' np Hnp Hv'. eexists. split; [exact Hv'|]. apply HV. by constructor.
    + intros v' Hv'. by exists σ.
Qed.

End HeapWp.
