(* ===== verification/Refinement.v ===== *)
(** * The heap represents a database

    How a database of [Database] lies in the heap of [Heap]: the catalog, a
    schema, an index and the row blobs of each table.  The readers and the
    integrity checks of the store return what the specification says. *)

From stdpp Require Import gmap.
From S2P Require Import Prelude Types Value ValueFacts Codec Schema Block Journal JournalFacts.
From S2P Require Import Pager PagerFacts Store Database Integrity StoreFacts Heap.
Import Store.

(** ** The catalog's encoding *)

Definition entry_ok (e : CatEntry.t) : Prop :=
  text_ok (CatEntry.name e) /\ is_u64 (CatEntry.schema_head e) /\
  is_u64 (CatEntry.data_head e) /\ is_u64 (CatEntry.row_count e).

Lemma put_entry_nonempty e : put_entry e <> [].
Proof.
  unfold put_entry, put_str, put_bytes. intros H.
  apply app_nil in H as [H _]. apply app_nil in H as [H _]. by apply put_uvarint_nonempty in H.
Qed.

Lemma reads_entry e : entry_ok e -> reads get_entry (put_entry e) e.
Proof.
  intros (H1 & H2 & H3 & H4). unfold get_entry, put_entry.
  eapply reads_bind; [by apply reads_str|].
  eapply reads_bind; [by apply reads_uvarint|].
  eapply reads_bind; [by apply reads_uvarint|].
  rewrite <- (app_nil_r (put_uvarint (CatEntry.row_count e))).
  eapply reads_bind; [by apply reads_uvarint|]. destruct e. apply reads_ret.
Qed.

Lemma decode_catalog cat : Forall entry_ok cat -> len (put_catalog cat) < 2 ^ 63 ->
  exists pos, get_catalog (put_catalog cat) 0 = Val (cat, pos).
Proof.
  intros Hc Hb. assert (Hl : len cat < 2 ^ 63).
  { unfold put_catalog in Hb. rewrite length_app in Hb.
    pose proof (TableFacts.length_concat_ge put_entry cat put_entry_nonempty). lia. }
  assert (H : reads get_catalog (put_catalog cat) cat).
  { unfold get_catalog, put_catalog. eapply reads_bind; [apply reads_uvarint; lia|].
    eapply reads_plift; [unfold with_capacity; by rewrite (proj2 (Z.ltb_lt _ _) Hl)|].
    apply reads_n; [done| |apply put_entry_nonempty].
    intros e He. apply reads_entry. rewrite Forall_forall in Hc. auto. }
  specialize (H [] []). rewrite app_nil_r in H. eexists. by apply H.
Qed.

(** ** Representation *)

Definition row_ok (r : row) : Prop := Forall cell_ok r /\ len (encode_row r) < 2 ^ 63.

Lemma decode_encode_row r : row_ok r -> decode_row (encode_row r) = Val r.
Proof.
  intros [Hc Hb]. unfold decode_row.
  assert (Hl : len r < 2 ^ 63).
  { unfold encode_row in Hb. rewrite length_app in Hb.
    pose proof (TableFacts.length_concat_ge put_cell r put_cell_nonempty). lia. }
  pose proof (reads_row r Hc Hl [] []) as H. rewrite app_nil_r in H. cbn [app length] in H.
  change (Z.of_nat 0) with 0 in H. rewrite H; [done|]. unfold buf_ok. lia.
Qed.

Lemma decode_encode_table t : TableFacts.table_ok t -> Table.decode (Table.encode t) = Val t.
Proof.
  intros Hok. apply TableFacts.decode_ends; [apply Hok|].
  by apply TableFacts.reads_ends, TableFacts.reads_table.
Qed.

Abbreviation index_pages := (list (Z * list Z)) (only parsing).

(** The stored row [h] holds [r]. *)
Definition stored (H : gmap Z obj) (h : Z) (r : row) : Prop :=
  h <> 0 /\ is_u64 h /\ H !! h = Some (Blob (encode_row r)) /\ row_ok r.

Definition stored_row (H : gmap Z obj) (x : RowId.t * Z) (y : RowId.t * row) : Prop :=
  x.1 = y.1 /\ stored H x.2 y.2.

Definition slot_repr (H : gmap Z obj) (s : Z) (o : option row) : Prop :=
  match o with None => s = 0 | Some r => stored H s r end.

Definition page_repr (H : gmap Z obj) (p : Z * list Z) (q : Z * list (option row)) : Prop :=
  p.1 = q.1 /\ Forall2 (slot_repr H) p.2 q.2.

Record table_repr (H : gmap Z obj) (x : CatEntry.t * index_pages) (t : dtable) : Prop := {
  tr_name : CatEntry.name x.1 = dt_name t;
  tr_schema : H !! CatEntry.schema_head x.1 = Some (Blob (Table.encode (dt_schema t)));
  tr_schema_u64 : is_u64 (CatEntry.schema_head x.1);
  tr_data : H !! CatEntry.data_head x.1 = Some (Index x.2);
  tr_data_u64 : is_u64 (CatEntry.data_head x.1);
  tr_count : CatEntry.row_count x.1 = len (dt_rows t);
  tr_table : TableFacts.table_ok (dt_schema t);
  tr_pages : Forall2 (page_repr H) x.2 (dt_pages t)
}.

(** The objects of a table, and of the catalog. *)
Definition table_heads (x : CatEntry.t * index_pages) : list Z :=
  CatEntry.schema_head x.1 :: CatEntry.data_head x.1 :: (index_rows x.2).*2.
Definition catalog_heads (h : Z) : list Z := if h =? 0 then [] else [h].
Definition keys (H : gmap Z obj) : list Z := (map_to_list H).*1.

Abbreviation layout := (list (CatEntry.t * index_pages)).

(** The heap [σ], laid out as [L], holds the database [d] and nothing else. *)
Record repr (σ : hstate) (L : layout) (d : database) : Prop := {
  rp_catalog : if hs_catalog σ =? 0 then L = []
    else hs_heap σ !! hs_catalog σ = Some (Blob (put_catalog L.*1));
  rp_room : catalog_room d;
  rp_tables : Forall2 (table_repr (hs_heap σ)) L d;
  rp_keys : keys (hs_heap σ) ≡ₚ catalog_heads (hs_catalog σ) ++ concat (table_heads <$> L);
  rp_count : len (keys (hs_heap σ)) < 2 ^ 60
}.

Lemma put_uvarint_length v : (length (put_uvarint v) <= 10)%nat.
Proof.
  unfold put_uvarint. generalize 10%nat. intros k; revert v.
  induction k as [|k IH]; intros v; cbn; [lia|].
  destruct (_ =? 0); cbn; [lia|]. specialize (IH (Z.shiftr v 7)). lia.
Qed.

Lemma catalog_size H L d : Forall2 (table_repr H) L d -> catalog_room d ->
  len (put_catalog L.*1) < 2 ^ 63.
Proof.
  intros Ht Hroom. unfold put_catalog. rewrite length_app.
  enough (length (concat (put_entry <$> L.*1)) <=
    sum_list_with (fun t => length (dt_name t) + 40)%nat d)%nat.
  { pose proof (put_uvarint_length (len L.*1)). unfold catalog_room in Hroom. lia. }
  clear Hroom. induction Ht as [|x t L d Hx _ IH]; [done|]. cbn [fmap list_fmap concat sum_list_with].
  rewrite length_app. unfold put_entry at 1, put_str, put_bytes. rewrite !length_app.
  rewrite (tr_name _ _ _ Hx).
  pose proof (put_uvarint_length (len (dt_name t))).
  pose proof (put_uvarint_length (CatEntry.schema_head x.1)).
  pose proof (put_uvarint_length (CatEntry.data_head x.1)).
  pose proof (put_uvarint_length (CatEntry.row_count x.1)).
  lia.
Qed.

Lemma repr_table σ L d i t : repr σ L d -> d !! i = Some t ->
  exists x, L !! i = Some x /\ table_repr (hs_heap σ) x t.
Proof.
  intros Hr Hi. pose proof (rp_tables _ _ _ Hr) as H.
  destruct (Forall2_lookup_r _ _ _ _ _ H Hi) as (x & ? & ?). by exists x.
Qed.

Lemma repr_entry σ L d i x : repr σ L d -> L !! i = Some x ->
  exists t, d !! i = Some t /\ table_repr (hs_heap σ) x t.
Proof.
  intros Hr Hi. pose proof (rp_tables _ _ _ Hr) as H.
  destruct (Forall2_lookup_l _ _ _ _ _ H Hi) as (t & ? & ?). by exists t.
Qed.

(** The rows of the index are the rows of the table. *)
Lemma index_rows_repr H pgs qs : Forall2 (page_repr H) pgs qs ->
  Forall2 (stored_row H) (index_rows pgs) (live qs).
Proof.
  assert (Hs : forall p i l l', Forall2 (slot_repr H) l l' ->
    Forall2 (stored_row H)
      (live_from p i (slot_opt <$> l)) (live_from p i l')).
  { intros p i l l' Hl. revert i. induction Hl as [|s o l l' Ho Hl IH]; intros i; [constructor|].
    cbn [fmap list_fmap live_from]. destruct o as [r|]; cbn [slot_repr] in Ho.
    - unfold slot_opt at 1. rewrite (proj2 (Z.eqb_neq s 0)) by apply Ho. constructor; [done|apply IH].
    - subst s. cbn. apply IH. }
  unfold index_rows, live. induction 1 as [|[p l] [p' l'] pgs qs [E Hl] _ IH]; [constructor|].
  cbn in E, Hl. subst p'. cbn [fmap list_fmap concat prod_map fst snd]. apply Forall2_app; [by apply Hs|done].
Qed.

Lemma table_rows_repr H x t : table_repr H x t ->
  Forall2 (stored_row H) (index_rows x.2) (dt_rows t).
Proof. intros Ht. apply index_rows_repr, Ht. Qed.

Lemma repr_rows_bound σ L d i x : repr σ L d -> L !! i = Some x ->
  len (index_rows x.2) < 2 ^ 60.
Proof.
  intros Hr Hi. pose proof (rp_count _ _ _ Hr) as Hc. rewrite (rp_keys _ _ _ Hr) in Hc.
  rewrite length_app in Hc. rewrite <- (take_drop_middle L i x Hi) in Hc.
  rewrite fmap_app, concat_app, length_app in Hc.
  cbn [fmap list_fmap concat] in Hc. rewrite length_app in Hc. unfold table_heads in Hc.
  cbn [length] in Hc. rewrite length_fmap in Hc. lia.
Qed.

Lemma repr_entries_ok σ L d : repr σ L d -> Forall entry_ok L.*1.
Proof.
  intros Hr. apply Forall_forall. intros e (x & -> & Hx)%list_elem_of_fmap.
  apply list_elem_of_lookup in Hx as [i Hi]. destruct (repr_entry _ _ _ _ _ Hr Hi) as (t & _ & Ht).
  split_and!; try apply Ht.
  - rewrite (tr_name _ _ _ Ht). apply Ht.
  - rewrite (tr_count _ _ _ Ht). pose proof (repr_rows_bound _ _ _ _ _ Hr Hi).
    rewrite <- (Forall2_length _ _ _ (table_rows_repr _ _ _ Ht)). unfold is_u64. lia.
Qed.

(** The catalog's index is the database's. *)
Lemma position_forall2 {A B} (R : A -> B -> Prop) (f : A -> bool) (g : B -> bool) l k :
  Forall2 R l k -> (forall x y, R x y -> f x = g y) -> position f l = position g k.
Proof.
  intros H Hfg. induction H as [|x y l k Hx _ IH]; [done|]. cbn. by rewrite (Hfg x y Hx), IH.
Qed.

Lemma fmap_forall2 {A B C} (R : A -> B -> Prop) (f : C -> A) l k :
  Forall2 (fun x y => R (f x) y) l k -> Forall2 R (f <$> l) k.
Proof. induction 1; constructor; auto. Qed.

Lemma cat_index_repr σ L d name : repr σ L d -> cat_index L.*1 name = find_table d name.
Proof.
  intros Hr. unfold cat_index, find_table. f_equal.
  apply (position_forall2 (fun e t => CatEntry.name e = dt_name t)).
  - apply fmap_forall2. eapply Forall2_impl; [apply Hr|]. intros x t Ht. apply Ht.
  - by intros e t ->.
Qed.

(** The loops of a search, as one test. *)
Lemma each_o_search {E A} (f : A -> bool) (e : E) l :
  each_o (fun x => if f x then Fail e else Val tt) l = if existsb f l then Fail e else Val tt.
Proof. induction l as [|x l IH]; [done|]. cbn. destruct (f x); [done|]. apply IH. Qed.

Lemma map_o_val {E A B} (f : A -> B) (l : list A) :
  map_o (E:=E) (fun x => Val (f x)) l = Val (f <$> l).
Proof. induction l as [|x l IH]; [done|]. cbn. by rewrite IH. Qed.

Lemma map_o_ext {E A B} (f g : A -> outcome E B) l : (forall x, x ∈ l -> f x = g x) ->
  map_o f l = map_o g l.
Proof.
  induction l as [|x l IH]; intros H; [done|]. cbn. rewrite H by left. rewrite IH; [done|].
  intros y Hy. apply H. by right.
Qed.

Lemma each_o_ext {E A} (f g : A -> outcome E unit) l : (forall x, x ∈ l -> f x = g x) ->
  each_o f l = each_o g l.
Proof.
  induction l as [|x l IH]; intros H; [done|]. cbn. rewrite H by left. rewrite IH; [done|].
  intros y Hy. apply H. by right.
Qed.

(** ** Reading the represented database *)

Section Reading.
Context {D : Type} `{!BlockDevice D, !DeviceLaws D}.
Context (n : Z) (m : medium) (σ : hstate) (L : layout) (d : database).
Hypothesis Hrepr : repr σ L d.

Abbreviation returns := (returns (D:=D) n m σ).

Lemma returns_load_catalog : returns load_catalog (Val L.*1).
Proof.
  unfold load_catalog. apply returns_sb. intros s ->. pose proof (rp_catalog _ _ _ Hrepr) as Hc.
  destruct (hs_catalog σ =? 0); [subst L; apply returns_ret|].
  destruct (decode_catalog L.*1) as [pos E]; [by eapply repr_entries_ok|eapply catalog_size; apply Hrepr|].
  pose proof (returns_bind n m σ _ (fun bs => '(cat, _) ← lift (get_catalog bs 0); mret cat)
    _ (fun bs => '(cat, _) ← get_catalog bs 0; Val cat) (returns_read_chain n m σ _ _ Hc)) as H.
  cbn [mbind outcome_bind] in H. rewrite E in H. apply H. intros bs [= <-].
  eapply returns_bind; [apply returns_lift|]. intros [cat pos'] _. apply returns_ret.
Qed.

Lemma returns_cat_index name : returns (lift (cat_index L.*1 name)) (find_table d name).
Proof. rewrite (cat_index_repr σ L d) by done. apply returns_lift. Qed.

Lemma returns_entry i x : L !! i = Some x -> returns (entry L.*1 i) (Val x.1).
Proof. intros Hi. unfold entry. rewrite list_lookup_fmap, Hi. apply returns_lift. Qed.

Lemma returns_schema_of x t : table_repr (hs_heap σ) x t ->
  returns (schema_of x.1) (Val (dt_schema t)).
Proof.
  intros Ht. unfold schema_of.
  rewrite <- (decode_encode_table (dt_schema t)) by apply Ht.
  change (Table.decode (Table.encode (dt_schema t)))
    with (bs ← Val (Table.encode (dt_schema t)); Table.decode bs).
  apply returns_bind; [apply returns_read_chain, Ht|]. intros bs _. apply returns_lift.
Qed.

Lemma returns_rows x t : table_repr (hs_heap σ) x t ->
  returns (index_collect (CatEntry.data_head x.1)) (Val (index_rows x.2)).
Proof. intros Ht. apply returns_index_collect, Ht. Qed.

Lemma returns_row_at h r : stored (hs_heap σ) h r -> returns (row_at h) (Val r).
Proof.
  intros (_ & _ & Hb & Hok). unfold row_at. rewrite <- (decode_encode_row r) by done.
  change (decode_row (encode_row r)) with (bs ← Val (encode_row r); decode_row bs).
  apply returns_bind; [by apply returns_read_chain|]. intros bs _. apply returns_lift.
Qed.

Lemma returns_fitted h r t : stored (hs_heap σ) h r ->
  returns (decode_row_fitted h (length (dt_cols t))) (Val (fit t r)).
Proof.
  intros Hs. unfold decode_row_fitted.
  change (Val (fit t r)) with (cells ← Val (E:=StoreError) r; Val (resize (length (dt_cols t)) None cells)).
  apply returns_bind; [by apply returns_row_at|]. intros cells _. apply returns_ret.
Qed.

Lemma returns_stored_value h r ci : stored (hs_heap σ) h r ->
  returns (stored_value h ci) (Val (cell_at r ci)).
Proof.
  intros Hs. unfold stored_value.
  change (Val (cell_at r ci)) with (row ← Val (E:=StoreError) r; Val (cell_at row ci)).
  apply returns_bind; [by apply returns_row_at|]. intros row _. apply returns_ret.
Qed.

(** A loop over the stored rows is a loop over the rows. *)
Lemma returns_each_row rows rows' body g :
  Forall2 (stored_row (hs_heap σ)) rows rows' ->
  (forall id h r, stored (hs_heap σ) h r -> returns (body (id, h)) (g (id, r))) ->
  returns (for_each rows body) (each_o g rows').
Proof.
  intros H Hb. eapply returns_for_each2; [exact H|]. intros [id h] [id' r] [E Hs].
  cbn in E, Hs. subst id'. by apply Hb.
Qed.

Lemma returns_collect_rows {B} rows rows' (body : RowId.t * Z -> stM (Pager.t D) StoreError B) g :
  Forall2 (stored_row (hs_heap σ)) rows rows' ->
  (forall id h r, stored (hs_heap σ) h r -> returns (body (id, h)) (Val (g (id, r)))) ->
  returns (for_collect rows body) (Val (g <$> rows')).
Proof.
  intros H Hb. rewrite <- map_o_val. eapply returns_for_collect2; [exact H|].
  intros [id h] [id' r] [E Hs]. cbn in E, Hs. subst id'. by apply Hb.
Qed.

(** ** The read operations *)

(** The start of every operation on a table. *)
Lemma returns_on_table {B} name (f : list CatEntry.t -> nat -> CatEntry.t -> stM (Pager.t D) StoreError B)
    (g : nat -> dtable -> Result B) :
  (forall i x t, L !! i = Some x -> d !! i = Some t -> find_table d name = Val i ->
     table_repr (hs_heap σ) x t -> returns (f L.*1 i x.1) (g i t)) ->
  returns (cat ← load_catalog; i ← lift (cat_index cat name); e ← entry cat i; f cat i e)
    (i ← find_table d name; t ← table_at d i; g i t).
Proof.
  intros Hf.
  change (i ← find_table d name; t ← table_at d i; g i t) with
    (_ ← Val (E:=StoreError) L.*1; i ← find_table d name; t ← table_at d i; g i t).
  apply returns_bind; [apply returns_load_catalog|]. intros cat [= <-].
  apply returns_bind; [apply returns_cat_index|]. intros i Hi.
  destruct (find_table_val _ _ _ Hi) as (t & Ht & En).
  destruct (repr_table _ _ _ _ _ Hrepr Ht) as (x & Hx & Hxt).
  unfold table_at. rewrite Ht. cbn [or_panic mbind outcome_bind].
  change (g i t) with (_ ← Val (E:=StoreError) x.1; g i t).
  apply returns_bind; [by apply returns_entry|]. intros e [= <-]. by apply Hf.
Qed.

Lemma returns_get_table name : returns (Store.get_table name) (spec_get_table d name).
Proof.
  unfold get_table, spec_get_table. apply returns_on_table.
  intros i x t Hx Ht En Hxt. by eapply returns_schema_of.
Qed.

Lemma returns_scan name : returns (Store.scan name) (spec_scan d name).
Proof.
  unfold scan, spec_scan. apply returns_on_table. intros i x t Hx Ht En Hxt.
  change (Val (prod_map id (fit t) <$> dt_rows t)) with
    (_ ← Val (E:=StoreError) (dt_schema t); _ ← Val (E:=StoreError) (index_rows x.2);
     Val (E:=StoreError) (prod_map id (fit t) <$> dt_rows t)).
  apply returns_bind; [by eapply returns_schema_of|]. intros sch [= <-].
  apply returns_bind; [by eapply returns_rows|]. intros rows [= <-].
  apply returns_collect_rows; [by apply table_rows_repr|]. intros id h r Hs. cbn.
  change (Val (id, fit t r)) with (c ← Val (E:=StoreError) (fit t r); Val (E:=StoreError) (id, c)).
  apply returns_bind; [by apply (returns_fitted h r t)|]. intros c _. apply returns_ret.
Qed.


(** Reading a slot. *)
Lemma slot_repr_read x t id : table_repr (hs_heap σ) x t -> owns_id t id ->
  exists k slots, x.2 !! k = Some (RowId.index_page id, slots) /\ page_index t id = Some k /\
    match get_slot t id with
    | Val r => exists h, slot_outcome slots (RowId.slot id) = Val h /\ stored (hs_heap σ) h r
    | Fail e => slot_outcome slots (RowId.slot id) = Fail e
    | _ => False
    end.
Proof.
  intros Ht [H0 [k Hk]]. unfold get_slot. rewrite Hk. cbn [or_panic mbind outcome_bind].
  pose proof Hk as (q & Hq & Eq%Z.eqb_eq)%position_some.
  destruct (Forall2_lookup_r _ _ _ _ _ (tr_pages _ _ _ Ht) Hq) as ([p slots] & Hp & E & Hs).
  cbn in E, Hs. exists k, slots. rewrite Hq. split_and!; [congruence|done|].
  cbn [or_panic mbind outcome_bind]. unfold row_of, slot_outcome, nth_z.
  destruct (q.2 !! Z.to_nat (RowId.slot id)) as [o|] eqn:Eo.
  - destruct (Forall2_lookup_r _ _ _ _ _ Hs Eo) as (s & Es & Hso). rewrite Es.
    destruct o as [r|]; cbn [slot_repr] in Hso.
    + exists s. rewrite (proj2 (Z.eqb_neq s 0)) by apply Hso. done.
    + by subst s.
  - rewrite lookup_ge_None_2; [done|]. rewrite (Forall2_length _ _ _ Hs). by apply lookup_ge_None.
Qed.

Lemma returns_on_slot {B} x t id (f : Z -> stM (Pager.t D) StoreError B) (g : row -> Result B) :
  table_repr (hs_heap σ) x t -> owns_id t id ->
  (forall h r, stored (hs_heap σ) h r -> get_slot t id = Val r -> returns (f h) (g r)) ->
  returns (h ← row_head_at id; f h) (r ← get_slot t id; g r).
Proof.
  intros Ht Hid Hf. destruct (slot_repr_read x t id Ht Hid) as (k & slots & Hk & _ & Hs).
  assert (Hr : returns (row_head_at id) (slot_outcome slots (RowId.slot id))).
  { destruct id as [p i]. eapply returns_row_head_at; [apply Ht|exact Hk|apply Hid]. }
  destruct (get_slot t id) as [r|e| |] eqn:Eg; try done.
  - destruct Hs as (h & Es & Hst). rewrite Es in Hr.
    change (r ← Val r; g r) with (_ ← Val (E:=StoreError) h; g r).
    apply returns_bind; [done|]. intros h' [= <-]. by apply Hf.
  - rewrite Hs in Hr. change (r ← Fail e; g r) with (_ ← Fail (A:=Z) e; g inhabitant).
    apply returns_bind; [done|]. by intros h'.
Qed.

Lemma returns_get_row name id : valid_id d name id ->
  returns (Store.get_row name id) (spec_get_row d name id).
Proof.
  intros Hid. unfold get_row, spec_get_row. apply returns_on_table. intros i x t Hx Ht En Hxt.
  change (r ← get_slot t id; Val (fit t r)) with
    (_ ← Val (E:=StoreError) (dt_schema t); r ← get_slot t id; Val (fit t r)).
  apply returns_bind; [by eapply returns_schema_of|]. intros sch [= <-].
  eapply returns_on_slot; [done|by apply (Hid i t)|intros h r Hs _; by apply (returns_fitted h r t)].
Qed.

Lemma returns_all_values x t ci : table_repr (hs_heap σ) x t ->
  returns (all_values_in x.1 ci) (Val ((fun r => cell_at r ci) <$> (dt_rows t).*2)).
Proof.
  intros Ht. unfold all_values_in. rewrite <- list_fmap_compose.
  change (Val (?f <$> dt_rows t)) with
    (_ ← Val (E:=StoreError) (index_rows x.2); Val (E:=StoreError) (f <$> dt_rows t)).
  apply returns_bind; [by eapply returns_rows|]. intros rows [= <-].
  apply returns_collect_rows; [by apply table_rows_repr|]. intros id h r Hs.
  by apply returns_stored_value.
Qed.

(** ** The integrity checks *)

(** A step that keeps the heap, in front of what comes next. *)
Lemma returns_then {A B} (c : stM (Pager.t D) StoreError A) (f : A -> stM (Pager.t D) StoreError B) a r :
  returns c (Val a) -> returns (f a) r -> returns (c ≫= f) r.
Proof.
  intros Hc Hf. change r with (_ ← Val (E:=StoreError) a; r).
  apply returns_bind; [done|]. by intros a' [= <-].
Qed.

Lemma returns_check_unique i x t ci c cells ex : L !! i = Some x -> table_repr (hs_heap σ) x t ->
  returns (check_unique L.*1 i ci c cells ex) (spec_check_unique t ci c cells ex).
Proof.
  intros Hx Ht. unfold check_unique, spec_check_unique.
  apply returns_if; [intros _; apply returns_ret|intros _].
  apply returns_bind; [apply returns_lift|]. intros [v|] _; [|apply returns_ret].
  eapply returns_then; [by apply returns_entry|]. eapply returns_then; [by eapply returns_rows|].
  rewrite <- each_o_search. apply returns_each_row; [by apply table_rows_repr|].
  intros id h r Hs. cbn. case_bool_decide; cbn [negb andb]; [apply returns_ret|].
  eapply returns_then; [by apply returns_stored_value|].
  repeat case_bool_decide; try done; [apply returns_lift|apply returns_ret].
Qed.

Lemma returns_fk_exists rows rows' tcol self cells ex v :
  Forall2 (stored_row (hs_heap σ)) rows rows' ->
  returns (fk_exists rows tcol self cells ex v)
    (Val (existsb (fun '(rid, r) =>
       bool_decide (cell_at (if self && bool_decide (Some rid = ex) then cells else r) tcol = Some v))
       rows')).
Proof.
  induction 1 as [|[id h] [id' r] rows rows' [E Hs] _ IH]; [apply returns_ret|].
  cbn in E, Hs. subst id'. cbn [fk_exists existsb].
  eapply returns_then with (a := cell_at (if self && bool_decide (Some id = ex) then cells else r) tcol).
  - destruct (self && _); [apply returns_ret|by apply returns_stored_value].
  - repeat case_bool_decide; try done; cbn [orb]; first [apply returns_ret|apply IH].
Qed.

Lemma returns_check_fk i t cells ex fk :
  returns (check_fk L.*1 i (dt_schema t) cells ex fk) (spec_check_fk d i t cells ex fk).
Proof.
  unfold check_fk, spec_check_fk. apply returns_bind; [apply returns_lift|]. intros fi _.
  apply returns_bind; [apply returns_lift|]. intros [v|] _; [|apply returns_ret].
  apply returns_bind; [apply returns_cat_index|]. intros j Hj.
  destruct (find_table_val _ _ _ Hj) as (u & Hu & _).
  destruct (repr_table _ _ _ _ _ Hrepr Hu) as (x & Hx & Hxu).
  unfold table_at. rewrite Hu. cbn [or_panic mbind outcome_bind].
  eapply returns_then; [by apply returns_entry|]. eapply returns_then; [by eapply returns_schema_of|].
  apply returns_bind; [apply returns_lift|]. intros tcol _.
  eapply returns_then; [by eapply returns_rows|].
  eapply returns_then; [apply returns_fk_exists; by apply table_rows_repr|].
  destruct (existsb _ (dt_rows u)); [apply returns_ret|apply returns_lift].
Qed.

Lemma returns_validate i x t cells ex : L !! i = Some x -> table_repr (hs_heap σ) x t ->
  returns (validate L.*1 i (dt_schema t) cells ex) (spec_validate d i t cells ex).
Proof.
  intros Hx Ht. unfold validate, spec_validate.
  apply returns_if; [intros _; apply returns_lift|intros _].
  apply returns_bind; [apply returns_lift|]. intros _ _.
  apply returns_bind.
  - eapply (returns_for_each2 eq); [reflexivity|]. intros [ci c] _ <-.
    by eapply returns_check_unique.
  - intros _ _. eapply (returns_for_each2 eq); [reflexivity|]. intros fk _ <-.
    apply returns_check_fk.
Qed.

(** Over the tables of the catalog. *)
Definition numbered (a : nat * CatEntry.t) (b : nat * dtable) : Prop :=
  a.1 = b.1 /\ exists x, L !! b.1 = Some x /\ a.2 = x.1 /\ d !! b.1 = Some b.2 /\
    table_repr (hs_heap σ) x b.2.

Lemma numbered_tables : Forall2 numbered (enumerate L.*1) (enumerate d).
Proof.
  pose proof (rp_tables _ _ _ Hrepr) as H. pose proof (Forall2_length _ _ _ H) as Hl.
  apply Forall2_same_length_lookup_2.
  { unfold enumerate. rewrite !length_zip_with, !length_seq, length_fmap. lia. }
  intros k [j e] [j' u] H1 H2. unfold enumerate in H1, H2.
  apply lookup_zip_Some in H1 as [H1 He], H2 as [H2 Hu].
  apply lookup_seq in H1 as [-> _], H2 as [-> _]. cbn.
  rewrite list_lookup_fmap in He. destruct (L !! k) as [x|] eqn:Ex; [|done].
  injection He as <-. split; [done|]. exists x. split_and!; [done..|]. by eapply Forall2_lookup_lr.
Qed.

Lemma returns_each_entry (body : nat * CatEntry.t -> stM (Pager.t D) StoreError unit) g :
  (forall j x u, L !! j = Some x -> d !! j = Some u -> table_repr (hs_heap σ) x u ->
     returns (body (j, x.1)) (g (j, u))) ->
  returns (for_each (enumerate L.*1) body) (each_o g (enumerate d)).
Proof.
  intros Hb. eapply returns_for_each2; [apply numbered_tables|].
  intros [j e] [j' u] (E & x & Hx & Ee & Hu & Hxu). cbn in *. subst. by apply Hb.
Qed.

Lemma returns_restrict name t i id key_of :
  returns (restrict L.*1 name (dt_schema t) i id key_of) (spec_restrict d name t i id key_of).
Proof.
  unfold restrict, spec_restrict. apply returns_each_entry. intros j x u Hx Hu Hxu. cbn.
  eapply returns_then; [by eapply returns_schema_of|].
  eapply (returns_for_each2 eq); [reflexivity|]. intros fk _ <-.
  apply returns_if; [intros _; apply returns_ret|intros _].
  apply returns_bind; [apply returns_lift|]. intros tci _.
  destruct (key_of tci) as [key|]; [|apply returns_ret].
  apply returns_bind; [apply returns_lift|]. intros fci _.
  unfold check_no_reference. eapply returns_then; [by eapply returns_rows|].
  rewrite <- each_o_search. apply returns_each_row; [by apply table_rows_repr|].
  intros rid h r Hs. cbn. destruct ((j =? i)%nat && bool_decide (rid = id)); cbn [negb andb];
    [apply returns_ret|].
  eapply returns_then; [by apply returns_stored_value|].
  repeat case_bool_decide; try done; [apply returns_lift|apply returns_ret].
Qed.

Lemma returns_check_unreferenced name i :
  returns (check_unreferenced name i L.*1) (spec_check_unreferenced d name i).
Proof.
  unfold check_unreferenced. apply returns_each_entry. intros j x u Hx Hu Hxu. cbn.
  apply returns_if; [intros _; apply returns_ret|intros _].
  eapply returns_then; [by eapply returns_schema_of|]. rewrite (tr_name _ _ _ Hxu).
  apply returns_if; intros _; [apply returns_lift|apply returns_ret].
Qed.

Lemma returns_list_tables : returns list_tables (Val (spec_list_tables d)).
Proof.
  unfold list_tables, spec_list_tables.
  eapply returns_then; [apply returns_load_catalog|]. rewrite <- map_o_val.
  eapply (returns_for_collect2 (fun e t => exists x, e = x.1 /\ table_repr (hs_heap σ) x t)).
  - apply fmap_forall2. eapply Forall2_impl; [apply Hrepr|]. intros x t Hxt. by exists x.
  - intros e t (x & -> & Hxt).
    eapply returns_then; [by eapply returns_schema_of|].
    rewrite (tr_name _ _ _ Hxt), (tr_count _ _ _ Hxt). apply returns_ret.
Qed.

End Reading.
