(* ===== verification/Navigation.v ===== *)
(** * Following foreign keys

    What [follow_fk] and [referencing_rows] of [tablestore/src/store.rs] answer
    on a database, and that they answer it. *)

From stdpp Require Import gmap.
From S2P Require Import Prelude Types Value ValueFacts Codec Schema Block Journal JournalFacts.
From S2P Require Import Pager PagerFacts Store Database Integrity StoreFacts Heap Refinement.
Import Store.

(** ** Specification *)

(** The rows of a table, fitted to its columns, whose column [ci] holds [key]. *)
Definition matching (u : dtable) (ci : nat) (key : Value.t) : list (RowId.t * row) :=
  List.filter (fun p : RowId.t * row => bool_decide (cell_at p.2 ci = Some key))
    (prod_map id (fit u) <$> dt_rows u).

Definition spec_follow_fk (d : database) (table : bytes) (id : RowId.t) (fk_name : bytes) :
    Result (bytes * list (RowId.t * row)) :=
  i ← find_table d table; t ← table_at d i;
  fk ← ok_or (NotFound (quoted (str "foreign key") fk_name))
         (List.find (fun f => str_eqb (ForeignKey.name f) fk_name) (Table.fks (dt_schema t)));
  fci ← or_panic (Table.column_index (dt_schema t) (ForeignKey.from_col fk));
  r ← get_slot t id;
  match cell_at (fit t r) fci with
  | None => Val (ForeignKey.to_table fk, [])
  | Some key =>
      j ← find_table d (ForeignKey.to_table fk); u ← table_at d j;
      tci ← or_panic (Table.column_index (dt_schema u) (ForeignKey.to_col fk));
      Val (ForeignKey.to_table fk, matching u tci key)
  end.

Abbreviation reference := (bytes * bytes * RowId.t * row)%type (only parsing).

(** The references by one foreign key of the table [u] to the row [row] of [t]. *)
Definition spec_references (table : bytes) (t : dtable) (row : row) (u : dtable) (fk : ForeignKey.t) :
    Result (list reference) :=
  if negb (str_eqb (ForeignKey.to_table fk) table) then Val [] else
  tci ← or_panic (Table.column_index (dt_schema t) (ForeignKey.to_col fk));
  match cell_at row tci with
  | None => Val []
  | Some key =>
      fci ← or_panic (Table.column_index (dt_schema u) (ForeignKey.from_col fk));
      Val ((fun '(rid, orow) => (dt_name u, ForeignKey.name fk, rid, orow)) <$> matching u fci key)
  end.

Definition spec_referencing_rows (d : database) (table : bytes) (id : RowId.t) : Result (list reference) :=
  i ← find_table d table; t ← table_at d i;
  r ← get_slot t id;
  found ← map_o (fun u =>
    per_fk ← map_o (spec_references table t (fit t r) u) (Table.fks (dt_schema u));
    Val (concat per_fk)) d;
  Val (concat found).

(** ** The code answers it *)

Section Reading.
Context {D : Type} `{!BlockDevice D, !DeviceLaws D}.
Context (n : Z) (m : medium) (σ : hstate) (L : layout) (d : database).
Hypothesis Hrepr : repr σ L d.
Abbreviation returns := (returns (D:=D) n m σ).

Lemma returns_rows_with u rows rows' ci key :
  Forall2 (stored_row (hs_heap σ)) rows rows' ->
  returns (rows_with rows (length (dt_cols u)) ci key)
    (Val (List.filter (fun p : RowId.t * row => bool_decide (cell_at p.2 ci = Some key))
            (prod_map id (fit u) <$> rows'))).
Proof.
  induction 1 as [|[id h] [id' r] rows rows' [Eid Hs] _ IH]; [apply returns_ret|].
  cbn in Eid, Hs. subst id'. cbn [rows_with].
  eapply returns_then; [by apply (returns_fitted n m σ h r u)|].
  eapply returns_then; [exact IH|]. cbn. case_bool_decide; apply returns_ret.
Qed.

Lemma returns_matching x u ci key : table_repr (hs_heap σ) x u ->
  returns (rows ← index_collect (CatEntry.data_head x.1); rows_with rows (length (dt_cols u)) ci key)
    (Val (matching u ci key)).
Proof.
  intros Hx. eapply returns_then; [by eapply returns_rows|].
  by apply returns_rows_with, table_rows_repr.
Qed.

(** A step in front that gives a value or fails. *)
Lemma returns_step {A B} (o : Result A) (f : A -> stM (Pager.t D) StoreError B) (g : A -> Result B) :
  (forall a, o = Val a -> returns (f a) (g a)) -> returns (a ← lift o; f a) (a ← o; g a).
Proof. intros H. apply returns_bind; [apply returns_lift|done]. Qed.

Lemma returns_follow_fk name id fk_name : valid_id d name id ->
  returns (follow_fk name id fk_name) (spec_follow_fk d name id fk_name).
Proof.
  intros Hid. unfold follow_fk, spec_follow_fk. apply (returns_on_table n m σ L d Hrepr).
  intros i x t Hx Ht Hi Hxt. eapply returns_then; [by eapply returns_schema_of|].
  apply returns_step. intros fk _. apply returns_step. intros fci _.
  eapply returns_on_slot; [done|by eapply Hid|]. intros h r Hs _.
  eapply returns_then; [by apply (returns_fitted n m σ h r t)|].
  destruct (cell_at (fit t r) fci) as [key|]; [|apply returns_ret].
  rewrite <- (cat_index_repr _ _ _ _ Hrepr). apply returns_step. intros j Hj.
  rewrite (cat_index_repr _ _ _ _ Hrepr) in Hj. destruct (find_table_val _ _ _ Hj) as (u & Hu & _).
  destruct (repr_table _ _ _ _ _ Hrepr Hu) as (y & Hy & Hyu).
  eapply returns_then; [by apply returns_entry|]. eapply returns_then; [by eapply returns_schema_of|].
  unfold table_at. rewrite Hu. cbn [or_panic mbind outcome_bind].
  apply returns_step. intros tci _.
  eapply returns_then; [by eapply returns_rows|].
  eapply returns_then; [by apply returns_rows_with, table_rows_repr|]. apply returns_ret.
Qed.

Lemma returns_referencing_rows name id : valid_id d name id ->
  returns (referencing_rows name id) (spec_referencing_rows d name id).
Proof.
  intros Hid. unfold referencing_rows, spec_referencing_rows. apply (returns_on_table n m σ L d Hrepr).
  intros i x t Hx Ht Hi Hxt. eapply returns_then; [by eapply returns_schema_of|].
  eapply returns_on_slot; [done|by eapply Hid|]. intros h r Hs _.
  eapply returns_then; [by apply (returns_fitted n m σ h r t)|].
  apply returns_bind; [|intros found _; apply returns_ret].
  eapply (returns_for_collect2 (fun e u => exists x, e = x.1 /\ table_repr (hs_heap σ) x u)).
  { apply fmap_forall2. eapply Forall2_impl; [apply Hrepr|]. intros y u Hyu. by exists y. }
  intros e u (y & -> & Hyu). eapply returns_then; [by eapply returns_schema_of|].
  apply returns_bind; [|intros per_fk _; apply returns_ret].
  eapply (returns_for_collect2 eq); [by apply Forall2_same_length_lookup; split; [|intros; congruence]|].
  intros fk _ <-. unfold spec_references. apply returns_if; intros _; [apply returns_ret|].
  apply returns_step. intros tci _. destruct (cell_at (fit t r) tci) as [key|]; [|apply returns_ret].
  apply returns_step. intros fci _. eapply returns_then; [by eapply returns_rows|].
  eapply returns_then; [by apply returns_rows_with, table_rows_repr|].
  rewrite (tr_name _ _ _ Hyu). apply returns_ret.
Qed.

End Reading.

(** ** They never abort on a database with integrity *)

Lemma find_some_elem {A} (p : A -> bool) l x : List.find p l = Some x -> x ∈ l.
Proof. intros [H _]%find_some. by apply list_elem_of_In. Qed.

Section NoAbort.
Context (d : database) (table : bytes) (id : RowId.t).
Hypothesis Hd : integrity d.
Hypothesis Hid : valid_id d table id.

Lemma table_at_val name i : find_table d name = Val i -> exists t, d !! i = Some t /\ table_at d i = Val t.
Proof. intros (t & Ht & _)%find_table_val. exists t. split; [done|]. unfold table_at. by rewrite Ht. Qed.

Lemma spec_follow_no_abort fk_name : no_abort (spec_follow_fk d table id fk_name).
Proof.
  unfold spec_follow_fk. apply no_abort_bind; [apply find_table_no_abort|]. intros i Hi.
  destruct (table_at_val _ _ Hi) as (t & Ht & ->). cbn [mbind outcome_bind].
  apply no_abort_bind; [apply no_abort_ok_or|]. intros fk Hfk.
  destruct (List.find _ _) as [fk'|] eqn:Ef; [|done]. injection Hfk as ->. apply find_some_elem in Ef.
  destruct (ti_fks _ _ (in_tables _ Hd i t Ht) fk Ef) as (j & ci & tci & u & [F1 F2 F3 F4 F5 F6]).
  rewrite F1. cbn [or_panic mbind outcome_bind].
  apply no_abort_bind; [by eapply get_slot_no_abort, Hid|]. intros r _.
  destruct (cell_at (fit t r) ci); [|apply no_abort_val].
  apply no_abort_bind; [apply find_table_no_abort|]. intros j' Hj'.
  destruct (find_table_val _ _ _ Hj') as (u' & Hu' & En').
  assert (j' = j) as -> by (eapply (names_inj d); [apply Hd|done|done|congruence]).
  rewrite F2 in Hu'. injection Hu' as <-. unfold table_at. rewrite F2. cbn [or_panic mbind outcome_bind].
  rewrite F4. apply no_abort_val.
Qed.

Lemma map_o_no_abort {E A B} (f : A -> outcome E B) l : (forall x, x ∈ l -> no_abort (f x)) -> no_abort (map_o f l).
Proof.
  induction l as [|x l IH]; intros H; cbn; [no_abort|]. apply no_abort_bind; [apply H; left|]. intros b _.
  apply no_abort_bind; [|intros; no_abort]. apply IH. intros y Hy. apply H. by right.
Qed.

Lemma spec_referencing_no_abort : no_abort (spec_referencing_rows d table id).
Proof.
  unfold spec_referencing_rows. apply no_abort_bind; [apply find_table_no_abort|]. intros i Hi.
  destruct (find_table_val _ _ _ Hi) as (t & Ht & En). unfold table_at. rewrite Ht. cbn [or_panic mbind outcome_bind].
  apply no_abort_bind; [by eapply get_slot_no_abort, Hid|]. intros r _.
  apply no_abort_bind; [|intros; no_abort]. apply map_o_no_abort. intros u [k Hk]%list_elem_of_lookup.
  apply no_abort_bind; [|intros; no_abort]. apply map_o_no_abort. intros fk Hfk.
  unfold spec_references. destruct (str_eqb _ table) eqn:Eto; [|apply no_abort_val]. apply str_eqb_eq in Eto. cbn [negb].
  destruct (ti_fks _ _ (in_tables _ Hd k u Hk) fk Hfk) as (j & ci & tci & w & [F1 F2 F3 F4 F5 F6]).
  assert (j = i) as -> by (eapply (names_inj d); [apply Hd|done|done|congruence]).
  rewrite F2 in Ht. injection Ht as ->. rewrite F4. cbn [or_panic mbind outcome_bind].
  destruct (cell_at _ tci); [|apply no_abort_val]. rewrite F1. apply no_abort_val.
Qed.

End NoAbort.
