(* ===== verification/Transactions.v ===== *)
(** * Changing the represented database

    The bodies of the transactions of [Store], on the heap: each either fails
    as the specification says, or without space, or leads to a heap that
    represents the changed database. *)

From stdpp Require Import gmap.
From S2P Require Import Prelude Types Value ValueFacts Codec Schema Block Journal JournalFacts.
From S2P Require Import Pager PagerFacts Store Database Integrity StoreFacts Heap Refinement.
Import Store.

(** ** The names of a heap *)

Section Keys.
Implicit Types (H : gmap Z obj) (h : Z) (o : obj).

Lemma elem_of_keys H h : h ∈ keys H <-> is_Some (H !! h).
Proof.
  unfold keys. rewrite list_elem_of_fmap. split.
  - intros ([h' o] & -> & Ho%elem_of_map_to_list). by exists o.
  - intros [o Ho]. exists (h, o). split; [done|]. by apply elem_of_map_to_list.
Qed.

Lemma keys_nodup H : NoDup (keys H).
Proof. apply NoDup_fst_map_to_list. Qed.

Lemma keys_new H h o : H !! h = None -> keys (<[h := o]> H) ≡ₚ h :: keys H.
Proof. intros Hn. unfold keys. by rewrite map_to_list_insert. Qed.

Lemma keys_delete H h o : H !! h = Some o -> keys H ≡ₚ h :: keys (delete h H).
Proof. intros Ho. unfold keys. by rewrite <- (map_to_list_delete H h o). Qed.

Lemma keys_set H h o o' : H !! h = Some o' -> keys (<[h := o]> H) ≡ₚ keys H.
Proof.
  intros Ho. rewrite (keys_delete H h o') by done. rewrite <- insert_delete_eq.
  apply keys_new, lookup_delete_eq.
Qed.

End Keys.

(** ** The tables, whatever the catalog says *)

Record body (H : gmap Z obj) (c : Z) (L : layout) (d : database) : Prop := {
  bd_tables : Forall2 (table_repr H) L d;
  bd_keys : keys H ≡ₚ catalog_heads c ++ concat (table_heads <$> L)
}.

Lemma repr_body σ L d : repr σ L d -> body (hs_heap σ) (hs_catalog σ) L d.
Proof. by intros []. Qed.

(** An index's rows lie where their heads say, a table where its objects do. *)
Lemma pages_frame H H' pgs qs : (forall h, h ∈ (index_rows pgs).*2 -> H' !! h = H !! h) ->
  Forall2 (page_repr H) pgs qs -> Forall2 (page_repr H') pgs qs.
Proof.
  intros Hf Hp0.
  assert (Hrow : forall k p l i s, pgs !! k = Some (p, l) -> l !! i = Some s -> s <> 0 ->
    H' !! s = H !! s).
  { intros k p l i s Hk Hi Hs. apply Hf.
    apply list_elem_of_fmap. exists (RowId.mk p (Z.of_nat i), s). split; [done|].
    apply live_elem. exists k, p, (slot_opt <$> l), i. split_and!; [|rewrite list_lookup_fmap, Hi|done].
    - by rewrite list_lookup_fmap, Hk.
    - cbn. unfold slot_opt. by rewrite (proj2 (Z.eqb_neq s 0)). }
  apply Forall2_same_length_lookup_2; [by eapply Forall2_length|].
  intros k [p l] [q l'] Hp Hq. pose proof (Forall2_lookup_lr _ _ _ _ _ _ Hp0 Hp Hq) as [E Hs].
  split; [done|]. cbn in *. apply Forall2_same_length_lookup_2; [by eapply Forall2_length|].
  intros i s o Hi Ho. pose proof (Forall2_lookup_lr _ _ _ _ _ _ Hs Hi Ho) as Hso.
  destruct o as [r|]; [|done]. destruct Hso as (H1 & H2 & H3 & H4). split_and!; [done..| |done].
  by rewrite (Hrow k p l i s).
Qed.

Lemma table_repr_frame H H' x t : (forall h, h ∈ table_heads x -> H' !! h = H !! h) ->
  table_repr H x t -> table_repr H' x t.
Proof.
  intros Hf [T1 T2 T3 T4 T5 T6 T7 T8]. unfold table_heads in Hf. split; try done.
  - rewrite Hf; [done|]. left.
  - rewrite Hf; [done|]. right. left.
  - eapply pages_frame; [|done]. intros h Hh. apply Hf. by right; right.
Qed.

(** The objects of all tables but one. *)
Definition heads_but (i : nat) (L : layout) : list Z :=
  concat (table_heads <$> take i L) ++ concat (table_heads <$> drop (S i) L).

Lemma heads_but_insert L i x x' : L !! i = Some x ->
  concat (table_heads <$> <[i := x']> L) ≡ₚ table_heads x' ++ heads_but i L.
Proof.
  intros Hi. unfold heads_but. rewrite insert_take_drop by (by eapply lookup_lt_Some).
  rewrite fmap_app, concat_app. cbn [fmap list_fmap concat]. rewrite !app_assoc.
  f_equiv. apply Permutation_app_comm.
Qed.

Lemma heads_but_split L i x : L !! i = Some x ->
  concat (table_heads <$> L) ≡ₚ table_heads x ++ heads_but i L.
Proof.
  intros Hi. rewrite <- (heads_but_insert L i x x) by done. by rewrite list_insert_id.
Qed.

Lemma heads_but_delete L i : heads_but i L = concat (table_heads <$> delete i L).
Proof. unfold heads_but. by rewrite delete_take_drop, fmap_app, concat_app. Qed.

Lemma heads_but_elem L i j y h : L !! j = Some y -> j <> i -> h ∈ table_heads y -> h ∈ heads_but i L.
Proof.
  intros Hj Hne Hh. unfold heads_but. apply elem_of_app.
  rewrite !list_elem_of_In, !in_concat.
  destruct (decide (j < i)%nat); [left|right]; exists (table_heads y);
    (split; [|by apply list_elem_of_In]); apply list_elem_of_In, list_elem_of_fmap; exists y;
    (split; [done|]).
  - apply (list_elem_of_lookup_2 _ j). by rewrite lookup_take_lt.
  - apply (list_elem_of_lookup_2 _ (j - S i)). rewrite lookup_drop. rewrite <- Hj. f_equal. lia.
Qed.

Lemma body_split H c L d i x : body H c L d -> L !! i = Some x ->
  keys H ≡ₚ table_heads x ++ (catalog_heads c ++ heads_but i L) /\
  forall h, h ∈ table_heads x -> h ∉ catalog_heads c ++ heads_but i L.
Proof.
  intros [Ht Hk] Hx.
  assert (Hk' : keys H ≡ₚ table_heads x ++ (catalog_heads c ++ heads_but i L)).
  { rewrite Hk, (heads_but_split L i x Hx), !app_assoc. f_equiv. apply Permutation_app_comm. }
  split; [done|]. pose proof (keys_nodup H) as Hnd. rewrite Hk' in Hnd.
  apply NoDup_app in Hnd as (_ & Hdisj & _). exact Hdisj.
Qed.

(** One table changes, with its objects. *)
Lemma body_update H c L d i x t H' x' t' :
  body H c L d -> L !! i = Some x -> d !! i = Some t ->
  table_repr H' x' t' ->
  (forall h, h ∈ keys H -> h ∉ table_heads x -> H' !! h = H !! h) ->
  (forall rest, keys H ≡ₚ table_heads x ++ rest -> keys H' ≡ₚ table_heads x' ++ rest) ->
  body H' c (<[i := x']> L) (<[i := t']> d).
Proof.
  intros Hb Hx Hd Hxt Hf Hkeys. destruct (body_split _ _ _ _ _ _ Hb Hx) as [Hk' Hdisj].
  pose proof Hb as [Ht Hk]. split.
  - apply Forall2_same_length_lookup_2.
    { rewrite !length_insert. by eapply Forall2_length. }
    intros j y u Hy Hu. destruct (decide (j = i)) as [->|Hne].
    { rewrite list_lookup_insert_eq in Hy by (by eapply lookup_lt_Some).
      rewrite list_lookup_insert_eq in Hu by (by eapply lookup_lt_Some). congruence. }
    rewrite list_lookup_insert_ne in Hy by done. rewrite list_lookup_insert_ne in Hu by done.
    eapply table_repr_frame; [|by eapply Forall2_lookup_lr].
    intros h Hh. pose proof (heads_but_elem L i j y h Hy Hne Hh) as Hin. apply Hf.
    + rewrite Hk'. apply elem_of_app. right. apply elem_of_app. by right.
    + intros Hx'. apply (Hdisj h Hx'), elem_of_app. by right.
  - rewrite (Hkeys (catalog_heads c ++ heads_but i L) Hk').
    rewrite (heads_but_insert L i x x' Hx). rewrite !app_assoc. f_equiv.
    apply Permutation_app_comm.
Qed.

(** ** The rows of a table *)

(** The heads of a table are distinct objects. *)
Lemma table_heads_nodup H c L d i x : body H c L d -> L !! i = Some x ->
  NoDup (table_heads x) /\ forall h, h ∈ table_heads x -> is_Some (H !! h).
Proof.
  intros Hb Hx. destruct (body_split _ _ _ _ _ _ Hb Hx) as [Hk _]. split.
  - pose proof (keys_nodup H) as Hnd. rewrite Hk in Hnd. by apply NoDup_app in Hnd as (? & _).
  - intros h Hh. apply elem_of_keys. rewrite Hk. apply elem_of_app. by left.
Qed.

Lemma appended_map {A B} (f : A -> B) pgs x id pgs' : appended pgs x id pgs' ->
  appended (prod_map Datatypes.id (fmap (M:=list) f) <$> pgs) (f x) id
    (prod_map Datatypes.id (fmap (M:=list) f) <$> pgs').
Proof.
  intros [init p slots -> Hc|np Hnp]; rewrite !fmap_app; cbn [fmap list_fmap prod_map fst snd].
  - rewrite fmap_app. cbn. rewrite <- (length_fmap f slots). apply append_slot; [done|].
    by rewrite length_fmap.
  - apply append_page. by rewrite <- list_fmap_compose.
Qed.

Lemma appended_index_rows pgs h id pgs' : h <> 0 -> appended pgs h id pgs' ->
  index_rows pgs' = index_rows pgs ++ [(id, h)].
Proof.
  intros Hh Ha. apply appended_live. pose proof (appended_map slot_opt _ _ _ _ Ha) as H.
  unfold slot_opt in H at 2. by rewrite (proj2 (Z.eqb_neq h 0)) in H.
Qed.

Lemma page_numbers H pgs qs : Forall2 (page_repr H) pgs qs -> pgs.*1 = qs.*1.
Proof. induction 1 as [|p q pgs qs [E _] _ IH]; [done|]. cbn. by rewrite E, IH. Qed.

Lemma appended_repr H pgs qs h id pgs' cells : Forall2 (page_repr H) pgs qs -> stored H h cells ->
  appended pgs h id pgs' ->
  exists qs', appended qs (Some cells) id qs' /\ Forall2 (page_repr H) pgs' qs'.
Proof.
  intros Hp Hs [init p slots -> Hc|np Hnp].
  - apply Forall2_app_inv_l in Hp as (qi & ql & Hi & Hl & ->).
    apply Forall2_cons_inv_l in Hl as ([q l] & ql' & [E Hsl] & Hn & ->).
    apply Forall2_nil_inv_l in Hn as ->. cbn in E, Hsl. subst q.
    rewrite (Forall2_length _ _ _ Hsl) in *. eexists. split; [by apply append_slot|].
    apply Forall2_app; [done|]. constructor; [|constructor]. split; [done|].
    apply Forall2_app; [done|]. by constructor.
  - eexists. split; [apply append_page; by rewrite <- (page_numbers _ _ _ Hp)|].
    apply Forall2_app; [done|]. constructor; [|constructor]. split; [done|]. by constructor.
Qed.

(** A row comes to a table. *)
Lemma table_insert H c L d i x t h cells id pgs' cnt :
  body H c L d -> L !! i = Some x -> d !! i = Some t ->
  H !! h = None -> h <> 0 -> is_u64 h -> row_ok cells -> appended x.2 h id pgs' ->
  cnt = CatEntry.row_count x.1 + 1 ->
  let H' := <[CatEntry.data_head x.1 := Index pgs']> (<[h := Blob (encode_row cells)]> H) in
  exists qs, appended (dt_pages t) (Some cells) id qs /\
    body H' c (<[i := (CatEntry.set_row_count cnt x.1, pgs')]> L) (<[i := set_pages qs t]> d).
Proof.
  intros Hb Hx Hd Hn Hnz Hu Hok Ha -> H'.
  destruct (table_heads_nodup _ _ _ _ _ _ Hb Hx) as [Hnd Hdef].
  pose proof (Forall2_lookup_lr _ _ _ _ _ _ (bd_tables _ _ _ _ Hb) Hx Hd) as Hxt.
  pose proof Hxt as [T1 T2 T3 T4 T5 T6 T7 T8].
  assert (Hne : forall h', is_Some (H !! h') -> h' <> h) by (intros h' [o Ho] ->; congruence).
  set (dh := CatEntry.data_head x.1) in *.
  unfold table_heads in Hnd, Hdef. fold dh in Hnd, Hdef.
  apply NoDup_cons in Hnd as [Hsh Hnd]. apply NoDup_cons in Hnd as [Hdh Hnd].
  assert (Hkeep : forall h', is_Some (H !! h') -> h' <> dh -> H' !! h' = H !! h').
  { intros h' Hs Hne'. unfold H'. rewrite lookup_insert_ne by congruence.
    apply lookup_insert_ne. intros <-. by apply (Hne h). }
  assert (Hst : stored H' h cells).
  { split_and!; [done..| |done]. unfold H'. rewrite lookup_insert_ne, lookup_insert_eq; [done|].
    intros <-. apply (Hne dh); [by rewrite T4|done]. }
  assert (T8' : Forall2 (page_repr H') x.2 (dt_pages t)).
  { eapply pages_frame; [|exact T8]. intros h' Hh'. apply Hkeep.
    - apply Hdef. by right; right.
    - intros ->. done. }
  destruct (appended_repr _ _ _ _ _ _ _ T8' Hst Ha) as (qs & Haq & Hq).
  exists qs. split; [done|].
  assert (Er : index_rows pgs' = index_rows x.2 ++ [(id, h)]) by (by apply appended_index_rows).
  eapply (body_update H c L d i x t H'); try done.
  - split; cbn [fst snd CatEntry.set_row_count CatEntry.name CatEntry.schema_head
      CatEntry.data_head CatEntry.row_count dt_schema dt_pages set_pages]; try assumption.
    + rewrite Hkeep; [done|by rewrite T2|]. intros E. apply Hsh. rewrite E. left.
    + apply lookup_insert_eq.
    + rewrite T6. unfold dt_rows. cbn [dt_pages set_pages].
      rewrite (appended_live _ _ _ _ Haq), length_app. cbn [length]. lia.
  - intros h' Hin Hnot. apply Hkeep; [by apply elem_of_keys|].
    intros ->. apply Hnot. unfold table_heads. fold dh. right. left.
  - intros rest Hrest. unfold H'.
    assert (Hdhv : <[h := Blob (encode_row cells)]> H !! dh = Some (Index x.2)).
    { rewrite lookup_insert_ne; [exact T4|]. intros <-. congruence. }
    rewrite (keys_set _ dh _ _ Hdhv).
    rewrite keys_new, Hrest by done. unfold table_heads. cbn [fst snd CatEntry.set_row_count CatEntry.schema_head CatEntry.data_head].
    fold dh. rewrite Er, fmap_app. cbn [fmap list_fmap]. cbn [app].
    rewrite <- app_assoc. cbn [app snd]. apply (Permutation_middle (CatEntry.schema_head x.1 :: dh :: (index_rows x.2).*2)).
Qed.

Lemma pages_set H pgs qs k p slots l j s o :
  Forall2 (page_repr H) pgs qs -> pgs !! k = Some (p, slots) -> qs !! k = Some (p, l) ->
  slot_repr H s o ->
  Forall2 (page_repr H) (<[k := (p, <[j := s]> slots)]> pgs) (<[k := (p, <[j := o]> l)]> qs).
Proof.
  intros Hp Hk Hq Hs. destruct (Forall2_lookup_lr _ _ _ _ _ _ Hp Hk Hq) as [_ Hl]. cbn in Hl.
  apply Forall2_insert; [done|]. split; [done|]. by apply Forall2_insert.
Qed.

Lemma index_rows_update pgs k p slots j old :
  pgs !! k = Some (p, slots) -> slots !! j = Some old ->
  exists a b, forall s, index_rows (<[k := (p, <[j := s]> slots)]> pgs) =
    a ++ live_slot (RowId.mk p (Z.of_nat j)) (slot_opt s) ++ b.
Proof.
  intros Hk Hj.
  destruct (live_update (prod_map id (fmap (M:=list) slot_opt) <$> pgs) k p (slot_opt <$> slots) j
    (slot_opt old)) as (a & b & Hab).
  { by rewrite list_lookup_fmap, Hk. } { by rewrite list_lookup_fmap, Hj. }
  exists a, b. intros s. rewrite <- Hab. unfold index_rows. f_equal.
  rewrite list_fmap_insert. cbn. by rewrite list_fmap_insert.
Qed.

Lemma perm_replace {A} (new a b rest : list A) old :
  new ++ (a ++ old :: b) ++ rest ≡ₚ old :: (a ++ new ++ b) ++ rest.
Proof.
  rewrite <- (Permutation_middle a b old). cbn [app]. rewrite <- Permutation_middle. constructor.
  rewrite app_assoc. f_equiv. apply Permutation_app_swap_app.
Qed.

(** The heap of a table whose row at [old] is replaced by the one at [s], or
    removed. *)
Definition set_row_heap (dh : Z) (pgs : index_pages) (old s : Z) (o : option row)
    (H : gmap Z obj) : gmap Z obj :=
  <[dh := Index pgs]> (match o with
    | Some cells => <[s := Blob (encode_row cells)]> (delete old H)
    | None => delete old H
    end).

(** The new row's place is free once the old row is. *)
Definition new_row_ok (H : gmap Z obj) (old s : Z) (o : option row) : Prop :=
  match o with
  | Some cells => delete old H !! s = None /\ s <> 0 /\ is_u64 s /\ row_ok cells
  | None => s = 0
  end.

(** A row of a table changes, or goes. *)
Lemma table_set_row H c L d i x t k p slots l j old r0 s o cnt :
  body H c L d -> L !! i = Some x -> d !! i = Some t ->
  x.2 !! k = Some (p, slots) -> slots !! j = Some old -> old <> 0 ->
  dt_pages t !! k = Some (p, l) -> l !! j = Some (Some r0) ->
  new_row_ok H old s o ->
  cnt = CatEntry.row_count x.1 - (match o with Some _ => 0 | None => 1 end) ->
  let pgs := <[k := (p, <[j := s]> slots)]> x.2 in
  body (set_row_heap (CatEntry.data_head x.1) pgs old s o H) c
    (<[i := (CatEntry.set_row_count cnt x.1, pgs)]> L)
    (<[i := set_pages (<[k := (p, <[j := o]> l)]> (dt_pages t)) t]> d).
Proof.
  intros Hb Hx Hd Hk Hj Ho Hq Hl Hnew -> pgs.
  destruct (table_heads_nodup _ _ _ _ _ _ Hb Hx) as [Hnd Hdef].
  pose proof (Forall2_lookup_lr _ _ _ _ _ _ (bd_tables _ _ _ _ Hb) Hx Hd) as [T1 T2 T3 T4 T5 T6 T7 T8].
  set (dh := CatEntry.data_head x.1) in *. set (H' := set_row_heap dh pgs old s o H).
  destruct (index_rows_update x.2 k p slots j old Hk Hj) as (a & b & Hab).
  pose proof (Hab old) as Eold. rewrite (list_insert_id slots j old Hj), (list_insert_id x.2 k _ Hk) in Eold.
  unfold slot_opt in Eold. rewrite (proj2 (Z.eqb_neq old 0) Ho) in Eold. cbn [live_slot app] in Eold.
  unfold table_heads in Hnd, Hdef. fold dh in Hnd, Hdef. rewrite Eold, fmap_app in Hnd, Hdef.
  cbn [fmap list_fmap snd] in Hnd, Hdef. rewrite <- (Permutation_middle a.*2) in Hnd.
  apply NoDup_cons in Hnd as [Hsh Hnd]. apply NoDup_cons in Hnd as [Hdh Hnd].
  apply NoDup_cons in Hnd as [Hold Hnd].
  assert (Hsome : forall h, is_Some (H !! h) -> h <> old -> h <> dh -> H' !! h = H !! h).
  { intros h Hh N1 N2. unfold H', set_row_heap. rewrite lookup_insert_ne by congruence.
    destruct o as [cells|]; [|by rewrite lookup_delete_ne]. destruct Hnew as [Hn _].
    rewrite lookup_insert_ne, lookup_delete_ne; [done|done|]. intros ->.
    rewrite lookup_delete_ne in Hn by done. rewrite Hn in Hh. by destruct Hh. }
  assert (Hrest : forall h, h ∈ (a ++ b).*2 -> is_Some (H !! h) /\ h <> old /\ h <> dh).
  { intros h Hh. rewrite fmap_app in Hh. split_and!.
    - apply Hdef. apply elem_of_app in Hh. rewrite !elem_of_cons, elem_of_app, elem_of_cons. tauto.
    - by intros ->.
    - intros ->. apply Hdh. by right. }
  assert (Hoh : is_Some (H !! old)).
  { apply Hdef. rewrite !elem_of_cons, elem_of_app, elem_of_cons. tauto. }
  assert (Hdhh : is_Some (H !! dh)) by (by rewrite T4).
  assert (Hne : dh <> old) by (intros E; apply Hdh; rewrite E; left).
  assert (Hslot : slot_repr H' s o).
  { destruct o as [cells|]; [|done]. destruct Hnew as (Hn & Hs0 & Hsu & Hok).
    assert (s <> dh).
    { intros ->. rewrite lookup_delete_ne in Hn by done. destruct Hdhh; congruence. }
    split_and!; [done..| |done].
    unfold H', set_row_heap. rewrite lookup_insert_ne by done. apply lookup_insert_eq. }
  assert (Hpages : Forall2 (page_repr H') pgs (<[k := (p, <[j := o]> l)]> (dt_pages t))).
  { pose proof (pages_set _ _ _ _ _ _ _ j 0 None T8 Hk Hq eq_refl) as H0.
    apply (pages_frame _ H') in H0.
    - assert (Hlk : (k < length x.2)%nat) by (by eapply lookup_lt_Some).
      assert (Hlq : (k < length (dt_pages t))%nat) by (by eapply lookup_lt_Some).
      pose proof (pages_set H' _ _ k p (<[j := 0]> slots) (<[j := None]> l) j s o H0) as H1.
      rewrite !list_insert_insert_eq in H1. apply H1; [by apply list_lookup_insert_eq..|done].
    - intros h Hh. rewrite Hab in Hh. cbn [slot_opt Z.eqb live_slot app] in Hh.
      destruct (Hrest h Hh) as (? & ? & ?). by apply Hsome. }
  assert (Hshn : CatEntry.schema_head x.1 <> old /\ CatEntry.schema_head x.1 <> dh).
  { split; intros E; apply Hsh; rewrite E; [right|]; left. }
  eapply (body_update H c L d i x t H'); try done.
  - split; cbn [fst snd CatEntry.set_row_count CatEntry.name CatEntry.schema_head
      CatEntry.data_head CatEntry.row_count dt_schema dt_pages set_pages]; try assumption.
    + rewrite Hsome; [done|by rewrite T2|apply Hshn..].
    + apply lookup_insert_eq.
    + destruct (live_update (dt_pages t) k p l j _ Hq Hl) as (a' & b' & Hab').
      pose proof (Hab' (Some r0)) as Er. rewrite (live_update_same _ _ _ _ _ _ Hq Hl) in Er.
      rewrite T6. unfold dt_rows. cbn [dt_pages set_pages]. rewrite Hab', Er, !length_app.
      destruct o; cbn [live_slot length]; lia.
  - intros h Hin Hnot. unfold table_heads in Hnot. fold dh in Hnot. rewrite Eold, fmap_app in Hnot.
    cbn [fmap list_fmap snd] in Hnot. rewrite !elem_of_cons, elem_of_app, elem_of_cons in Hnot.
    apply Hsome; [by apply elem_of_keys|tauto..].
  - intros rest Hkeys. unfold table_heads in *. fold dh in Hkeys |- *.
    rewrite Eold in Hkeys. cbn [fst snd CatEntry.set_row_count CatEntry.schema_head CatEntry.data_head].
    fold dh. unfold pgs. rewrite Hab. rewrite !fmap_app in Hkeys |- *. cbn [fmap list_fmap snd] in Hkeys.
    set (H1 := match o with Some cells => <[s := Blob (encode_row cells)]> (delete old H) | None => delete old H end).
    assert (Ek1 : keys H1 ≡ₚ (live_slot (RowId.mk p (Z.of_nat j)) (slot_opt s)).*2 ++ keys (delete old H)).
    { unfold H1. destruct o as [cells|]; cbn [new_row_ok] in Hnew.
      - unfold slot_opt. rewrite (proj2 (Z.eqb_neq s 0)) by apply Hnew. apply keys_new, Hnew.
      - subst s. done. }
    assert (Hd1 : is_Some (H1 !! dh)).
    { assert (is_Some (delete old H !! dh)) by (by rewrite lookup_delete_ne).
      unfold H1. destruct o; [|done]. by apply lookup_insert_is_Some'; right. }
    destruct Hd1 as [o2 Ho2]. destruct Hoh as [o1 Ho1].
    unfold H', set_row_heap. fold H1. rewrite (keys_set _ dh _ o2 Ho2), Ek1.
    rewrite (keys_delete H old o1 Ho1) in Hkeys.
    rewrite (fmap_app snd (live_slot _ _)). apply (Permutation_cons_inv (a:=old)).
    rewrite Permutation_middle, Hkeys.
    apply (perm_replace _ (CatEntry.schema_head x.1 :: dh :: a.*2)).
Qed.

(** ** Tables that come and go *)

Lemma body_tables_frame H H' c L d : body H c L d ->
  (forall h, h ∈ concat (table_heads <$> L) -> H' !! h = H !! h) ->
  Forall2 (table_repr H') L d.
Proof.
  intros [Ht _] Hf. apply Forall2_same_length_lookup_2; [by eapply Forall2_length|].
  intros j y u Hy Hu. eapply table_repr_frame; [|by eapply Forall2_lookup_lr].
  intros h Hh. apply Hf. apply list_elem_of_In, in_concat. exists (table_heads y).
  split; apply list_elem_of_In; [|done]. apply list_elem_of_fmap. exists y.
  split; [done|]. by eapply list_elem_of_lookup_2.
Qed.

Lemma body_keys H c L d h : body H c L d -> h ∈ concat (table_heads <$> L) -> is_Some (H !! h).
Proof.
  intros [_ Hk] Hh. apply elem_of_keys. rewrite Hk. apply elem_of_app. by right.
Qed.

Definition new_entry (name : bytes) (sh dh : Z) : CatEntry.t * index_pages :=
  (CatEntry.mk name sh dh 0, [(dh, [])]).

Lemma body_create H c L d name sh dh : body H c L d ->
  H !! sh = None -> is_u64 sh -> H !! dh = None -> dh <> sh -> is_u64 dh ->
  TableFacts.table_ok (Table.new name) ->
  body (<[dh := Index [(dh, [])]]> (<[sh := Blob (Table.encode (Table.new name))]> H)) c
    (L ++ [new_entry name sh dh]) (d ++ [new_table name dh]).
Proof.
  intros Hb Hs Hsu Hd Hne Hdu Hok. pose proof Hb as [_ Hk]. split.
  - apply Forall2_app.
    + apply (body_tables_frame H _ c); [done|]. intros h Hh. pose proof (body_keys _ _ _ _ _ Hb Hh) as [o Ho].
      rewrite !lookup_insert_ne; [done|intros <-; congruence..].
    + constructor; [|constructor]. split; cbn; try done.
      * rewrite lookup_insert_ne by done. apply lookup_insert_eq.
      * apply lookup_insert_eq.
      * constructor; [|constructor]. split; [done|]. constructor.
  - rewrite keys_new by (by rewrite lookup_insert_ne). rewrite keys_new, Hk by done.
    rewrite fmap_app, concat_app. cbn [fmap list_fmap concat]. rewrite app_nil_r.
    unfold table_heads at 3. cbn.
    rewrite (app_assoc (catalog_heads c)), (Permutation_app_comm _ [sh; dh]). cbn. by constructor.
Qed.

(** A table goes, with its objects. *)
Lemma body_drop H c L d i x H' : body H c L d -> L !! i = Some x ->
  (forall h, h ∉ table_heads x -> H' !! h = H !! h) ->
  keys H ≡ₚ table_heads x ++ keys H' ->
  body H' c (delete i L) (delete i d).
Proof.
  intros Hb Hx Hf Hk. destruct (body_split _ _ _ _ _ _ Hb Hx) as [Hsp Hd]. split.
  - assert (Hb' : Forall2 (table_repr H) (delete i L) (delete i d)).
    { rewrite !delete_take_drop. apply Forall2_app; [apply Forall2_take|apply Forall2_drop]; apply Hb. }
    apply Forall2_same_length_lookup_2; [by eapply Forall2_length|].
    intros j y u Hy Hu. eapply table_repr_frame; [|by eapply Forall2_lookup_lr].
    intros h Hh. apply Hf. intros Hh'. apply (Hd h Hh'). apply elem_of_app. right.
    rewrite heads_but_delete. apply list_elem_of_In, in_concat. exists (table_heads y).
    split; apply list_elem_of_In; [|done]. apply list_elem_of_fmap. exists y.
    split; [done|]. by eapply list_elem_of_lookup_2.
  - rewrite <- heads_but_delete. apply (Permutation_app_inv_l (table_heads x)). by rewrite <- Hk, Hsp.
Qed.

(** A table's schema is written anew. *)
Lemma table_set_schema H c L d i x t nh s :
  body H c L d -> L !! i = Some x -> d !! i = Some t -> H !! nh = None -> is_u64 nh ->
  Table.name s = dt_name t -> TableFacts.table_ok s ->
  body (delete (CatEntry.schema_head x.1) (<[nh := Blob (Table.encode s)]> H)) c
    (<[i := (CatEntry.set_schema_head nh x.1, x.2)]> L) (<[i := mk_dtable s (dt_pages t)]> d).
Proof.
  intros Hb Hx Hd Hn Hu En Hok.
  destruct (table_heads_nodup _ _ _ _ _ _ Hb Hx) as [Hnd Hdef].
  pose proof (Forall2_lookup_lr _ _ _ _ _ _ (bd_tables _ _ _ _ Hb) Hx Hd) as [T1 T2 T3 T4 T5 T6 T7 T8].
  set (osh := CatEntry.schema_head x.1) in *. set (H' := delete osh (<[nh := Blob (Table.encode s)]> H)).
  unfold table_heads in Hnd, Hdef. fold osh in Hnd, Hdef. apply NoDup_cons in Hnd as [Hsh _].
  assert (Hne : nh <> osh) by (intros ->; congruence).
  assert (Hkeep : forall h, is_Some (H !! h) -> h <> osh -> H' !! h = H !! h).
  { intros h [o Ho] Hho. unfold H'. rewrite lookup_delete_ne, lookup_insert_ne by congruence. done. }
  eapply (body_update H c L d i x t H'); try done.
  - split; cbn [fst snd CatEntry.set_schema_head CatEntry.name CatEntry.schema_head
      CatEntry.data_head CatEntry.row_count dt_schema dt_pages]; try done.
    + unfold dt_name. cbn. by rewrite En.
    + unfold H'. rewrite lookup_delete_ne by done. apply lookup_insert_eq.
    + rewrite Hkeep; [done|by rewrite T4|]. intros E. apply Hsh. rewrite <- E. left.
    + eapply pages_frame; [|exact T8]. intros h Hh. apply Hkeep.
      * apply Hdef. by right; right.
      * intros ->. apply Hsh. by right.
  - intros h Hin Hnot. apply Hkeep; [by apply elem_of_keys|]. intros ->. apply Hnot. left.
  - intros rest Hkeys. unfold table_heads in *. fold osh in Hkeys.
    cbn [fst snd CatEntry.set_schema_head CatEntry.schema_head CatEntry.data_head].
    assert (Ho : <[nh := Blob (Table.encode s)]> H !! osh = Some (Blob (Table.encode (dt_schema t)))).
    { by rewrite lookup_insert_ne. }
    apply (Permutation_cons_inv (a:=osh)). unfold H'. rewrite <- (keys_delete _ _ _ Ho).
    rewrite keys_new, Hkeys by done. cbn [app]. apply perm_swap.
Qed.

(** ** Storing the catalog *)

Lemma heap_size n v σ : heap_ok n v σ -> len (keys (hs_heap σ)) <= n / 8 /\ 0 <= n < 2 ^ 60.
Proof.
  intros Hh. pose proof Hh as (fl & ext & Hat). pose proof (fl_size _ _ _ (hp_free _ _ _ _ _ Hat)) as Hn.
  split; [|done].
  assert (Hsub : keys (hs_heap σ) ⊆+ seqZ 0 (n / 8)).
  { apply NoDup_submseteq; [apply keys_nodup|]. intros h Hk%elem_of_keys. destruct Hk as [o Ho].
    destruct (heap_head _ _ _ _ _ Hh Ho). apply elem_of_seqZ. slia. }
  apply submseteq_length in Hsub. rewrite length_seqZ in Hsub. lia.
Qed.

(** The catalog is replaced. *)
Definition set_catalog_heap (old h : Z) (cat : list CatEntry.t) (H : gmap Z obj) : gmap Z obj :=
  let H1 := <[h := Blob (put_catalog cat)]> H in if old =? 0 then H1 else delete old H1.

Lemma body_catalog H c L d h : body H c L d -> H !! h = None -> h <> 0 ->
  body (set_catalog_heap c h L.*1 H) h L d /\
  set_catalog_heap c h L.*1 H !! h = Some (Blob (put_catalog L.*1)).
Proof.
  intros Hb Hn Hnz. pose proof Hb as [Ht Hk].
  pose proof (keys_nodup H) as Hnd. rewrite Hk in Hnd. apply NoDup_app in Hnd as (_ & Hdisj & _).
  unfold set_catalog_heap. unfold catalog_heads in *.
  assert (Hne : forall h', is_Some (H !! h') -> h <> h') by (intros h' [o Ho] ->; congruence).
  destruct (Z.eqb_spec c 0) as [->|Hc].
  - split; [split|apply lookup_insert_eq].
    + apply (body_tables_frame H _ 0); [done|]. intros h' Hh'.
      apply lookup_insert_ne, Hne. by eapply body_keys.
    + rewrite keys_new, Hk by done. unfold catalog_heads. by rewrite (proj2 (Z.eqb_neq h 0)).
  - assert (Hcs : is_Some (H !! c)) by (apply elem_of_keys; rewrite Hk; left).
    pose proof (Hne c Hcs) as Hhc. split; [split|].
    + apply (body_tables_frame H _ c); [done|]. intros h' Hh'.
      rewrite lookup_delete_ne, lookup_insert_ne; [done|apply Hne; by eapply body_keys|].
      intros <-. apply (Hdisj c); [left|done].
    + destruct Hcs as [o Ho]. apply (Permutation_cons_inv (a:=c)).
      rewrite <- (keys_delete _ c o) by (by rewrite lookup_insert_ne).
      rewrite keys_new, Hk by done. unfold catalog_heads. rewrite (proj2 (Z.eqb_neq h 0)) by done.
      cbn [app]. apply perm_swap.
    + rewrite lookup_delete_ne by done. apply lookup_insert_eq.
Qed.

Section Bodies.
Context {D : Type} `{!BlockDevice D, !DeviceLaws D}.
Abbreviation M := (stM (Pager.t D) StoreError) (only parsing).

Lemma hwp_known {A} n m σ (c : M A) Q :
  (len (keys (hs_heap σ)) <= n / 8 -> 0 <= n < 2 ^ 60 -> hwp n m σ c Q) -> hwp n m σ c Q.
Proof. intros H v Hv. destruct (heap_size _ _ _ Hv). by apply H. Qed.

(** What a transaction's body must reach. *)
Definition reaches {A} (R : A -> layout -> database -> Prop) (err : StoreError -> Prop) (g : Z)
    (r : outcome StoreError A) (σ' : hstate) : Prop :=
  match r with
  | Val a => exists L' d', repr σ' L' d' /\ R a L' d' /\ hs_wrote σ' = true /\ hs_gen σ' = g
  | Fail e => err e \/ e = OutOfSpace
  | _ => False
  end.

Lemma hwp_store_catalog n m σ L d (Q : outcome StoreError unit -> hstate -> Prop) :
  body (hs_heap σ) (hs_catalog σ) L d -> catalog_room d ->
  (forall σ', repr σ' L d -> hs_wrote σ' = true -> hs_gen σ' = hs_gen σ -> Q (Val tt) σ') ->
  (forall σ', Q (Fail OutOfSpace) σ') ->
  hwp n m σ (store_catalog L.*1) Q.
Proof.
  intros Hb Hok HV HF. unfold store_catalog. apply hwp_sb. intros s ->. apply hwp_known. intros Hsz Hn.
  apply hwp_bind, hwp_write_chain; [|apply HF]. intros h Hh Hhome.
  assert (Hnz : h <> 0) by (destruct Hhome; slia).
  destruct (body_catalog _ _ _ _ h Hb Hh Hnz) as [Hb' Hcat].
  apply hwp_bind, hwp_set_catalog; [destruct Hhome; unfold is_u64; slia|].
  set (H' := set_catalog_heap (hs_catalog σ) h L.*1 (hs_heap σ)) in *.
  assert (Hfin : forall w, len (keys H') <= n / 8 -> w = true ->
    Q (Val tt) (mk_hstate (hs_gen σ) h w H')).
  { intros w Hsz' ->. apply HV; [|done..]. destruct Hb' as [B1 B2]. split; cbn; try done.
    - by rewrite (proj2 (Z.eqb_neq h 0)).
    - lia. }
  unfold H', set_catalog_heap in Hfin. destruct (Z.eqb_spec (hs_catalog σ) 0) as [E|E]; cbn [negb].
  - apply hwp_known. cbn. intros Hsz' _. apply hwp_ret. by apply Hfin.
  - assert (Hold : is_Some (hs_heap σ !! hs_catalog σ)).
    { apply elem_of_keys. rewrite (bd_keys _ _ _ _ Hb). unfold catalog_heads.
      rewrite (proj2 (Z.eqb_neq _ 0)) by done. left. }
    destruct Hold as [o Ho].
    assert (Ho' : <[h := Blob (put_catalog L.*1)]> (hs_heap σ) !! hs_catalog σ = Some o).
    { rewrite lookup_insert_ne; [done|]. intros Eh. rewrite Eh in Hh. congruence. }
    apply hwp_known. cbn. intros Hsz' _. apply (hwp_free_chain _ _ _ _ o); [done|]. apply Hfin; [|done].
    rewrite (keys_delete _ _ _ Ho') in Hsz'. cbn [length] in Hsz'. lia.
Qed.

End Bodies.
