(* ===== verification/Operations.v ===== *)
(** * The store's transactions refine the specification

    Each transaction of [Store], run on a represented database, ends as
    [Database] says: with the changed database committed, or refused with the
    specification's error, or out of space, and then nothing has changed. *)

From stdpp Require Import gmap.
From S2P Require Import Prelude Types Value ValueFacts Codec Schema Block Journal JournalFacts.
From S2P Require Import JournalCrash Durability Pager PagerFacts Store Database Integrity.
From S2P Require Import StoreFacts Heap Refinement Transactions.
Import Store.

Section Bodies.
Context {D : Type} `{!BlockDevice D, !DeviceLaws D}.
Context (n : Z) (m : medium) (σ : hstate) (L : layout) (d : database).
Hypothesis Hrepr : repr σ L d.
Abbreviation M := (stM (Pager.t D) StoreError) (only parsing).

(** The start of a transaction on a table. *)
Lemma hwp_on_table {B} name (f : list CatEntry.t -> nat -> CatEntry.t -> M B) Q :
  (forall i x t, find_table d name = Val i -> L !! i = Some x -> d !! i = Some t ->
     table_repr (hs_heap σ) x t -> hwp n m σ (f L.*1 i x.1) Q) ->
  (forall e, find_table d name = Fail e -> Q (Fail e) σ) ->
  hwp n m σ (cat ← load_catalog; i ← lift (cat_index cat name); e ← entry cat i; f cat i e) Q.
Proof.
  intros Hf HF. eapply hwp_read; [by eapply returns_load_catalog|]. cbn beta iota.
  eapply hwp_read; [by eapply returns_cat_index|].
  destruct (find_table d name) as [i|e| |] eqn:Ei; [|by apply HF|..].
  2:{ unfold find_table in Ei. by destruct (position _ _). }
  2:{ unfold find_table in Ei. by destruct (position _ _). }
  destruct (find_table_val _ _ _ Ei) as (t & Ht & _).
  destruct (repr_table _ _ _ _ _ Hrepr Ht) as (x & Hx & Hxt).
  eapply hwp_read; [by apply returns_entry|]. by eapply Hf.
Qed.

(** A read whose value is known. *)
Lemma hwp_then {A B} (c : M A) (f : A -> M B) a Q :
  returns n m σ c (Val a) -> hwp n m σ (f a) Q -> hwp n m σ (c ≫= f) Q.
Proof. intros Hc Hf. eapply hwp_read; [exact Hc|exact Hf]. Qed.

(** A guard: the outcomes of a check, in front of a change. *)
Lemma hwp_guard {A B} (c : M A) (f : A -> M B) (r : Result A) Q :
  returns n m σ c r -> r <> Panic -> r <> NoFuel ->
  (forall a, r = Val a -> hwp n m σ (f a) Q) -> (forall e, r = Fail e -> Q (Fail e) σ) ->
  hwp n m σ (c ≫= f) Q.
Proof.
  intros Hc H1 H2 HV HF. eapply hwp_read; [exact Hc|]. destruct r; auto; done.
Qed.

End Bodies.

Lemma alter_entry (L : layout) i x f pgs : L !! i = Some x ->
  alter f i L.*1 = (<[i := (f x.1, pgs)]> L).*1.
Proof.
  revert i. induction L as [|y L IH]; intros [|i] Hx; cbn in *; [done..| |].
  - by injection Hx as ->.
  - f_equal. by apply IH.
Qed.

Lemma existsb_forall2 {A B C} (R : A -> B -> Prop) (g : A -> C) (f : C -> bool) (f' : B -> bool) l l' :
  Forall2 R l l' -> (forall x y, R x y -> f (g x) = f' y) -> existsb f (g <$> l) = existsb f' l'.
Proof. intros H E. induction H as [|x y l l' Hxy _ IH]; [done|]. cbn. by rewrite (E x y Hxy), IH. Qed.

Lemma catalog_room_insert d i t t' : d !! i = Some t -> dt_name t' = dt_name t ->
  catalog_room d -> catalog_room (<[i := t']> d).
Proof.
  intros Hi E. unfold catalog_room. rewrite insert_take_drop by (by eapply lookup_lt_Some).
  rewrite <- (take_drop_middle d i t Hi) at 1.
  rewrite !sum_list_with_app. cbn [sum_list_with]. by rewrite E.
Qed.


Lemma catalog_room_delete d i : catalog_room d -> catalog_room (delete i d).
Proof.
  unfold catalog_room. rewrite delete_take_drop. destruct (decide (i < length d)%nat) as [Hl|Hl].
  - rewrite <- (take_drop i d) at 1.
    destruct (lookup_lt_is_Some_2 d i Hl) as [t Ht]. rewrite (drop_S _ t) by done.
    rewrite !sum_list_with_app. cbn [sum_list_with]. lia.
  - rewrite take_ge, drop_ge by lia. by rewrite app_nil_r.
Qed.

(** ** The bodies of the transactions *)

Section DataBodies.
Context {D : Type} `{!BlockDevice D, !DeviceLaws D}.
Context (n : Z) (m : medium) (σ : hstate) (L : layout) (d : database).
Hypothesis Hrepr : repr σ L d.

Abbreviation hwp := (hwp (D:=D) n m).

Lemma repr_cons i x t : L !! i = Some x -> d !! i = Some t -> CatEntry.row_count x.1 < 2 ^ 60.
Proof.
  intros Hx Ht. pose proof (repr_rows_bound _ _ _ _ _ Hrepr Hx) as Hb.
  pose proof (Forall2_lookup_lr _ _ _ _ _ _ (rp_tables _ _ _ Hrepr) Hx Ht) as Hxt.
  rewrite (tr_count _ _ _ Hxt), <- (Forall2_length _ _ _ (table_rows_repr _ _ _ Hxt)). done.
Qed.

Lemma insert_body_spec name cells : row_ok cells ->
  hwp σ (insert_body name cells)
    (reaches (fun id _ d' => exists i t pgs, spec_insert d name cells = Val (i, t) /\
         appended (dt_pages t) (Some cells) id pgs /\ d' = <[i := set_pages pgs t]> d)
       (fun e => spec_insert d name cells = Fail e) (hs_gen σ)).
Proof.
  intros Hok. unfold insert_body. eapply hwp_on_table; [done| |].
  2:{ intros e He. left. unfold spec_insert. by rewrite He. }
  intros i x t Hi Hx Ht Hxt.
  assert (Es : spec_insert d name cells = (_ ← spec_validate d i t cells None; Val (i, t))).
  { unfold spec_insert, table_at. rewrite Hi. cbn [mbind outcome_bind]. by rewrite Ht. }
  eapply hwp_then; [by eapply returns_schema_of|].
  eapply hwp_guard; [by eapply returns_validate|apply spec_validate_no_abort..| |].
  2:{ intros e He. left. by rewrite Es, He. }
  intros [] Hv. rewrite Hv in Es. cbn [mbind outcome_bind] in Es.
  apply hwp_known. intros _ Hn. apply hwp_bind, hwp_write_chain; [|by right]. intros h Hh Hhome.
  assert (Hhu : h <> 0 /\ is_u64 h) by (destruct Hhome; unfold is_u64; slia).
  apply hwp_bind. eapply hwp_index_append; [|apply Hhu| |by right].
  { cbn. rewrite lookup_insert_ne; [apply Hxt|]. intros E. rewrite E in Hh.
    pose proof (tr_data _ _ _ Hxt). congruence. }
  intros id pgs' Ha. pose proof (repr_cons _ _ _ Hx Ht) as Hcnt.
  eapply hwp_then; [unfold add_u64; rewrite (proj2 (Z.ltb_lt _ _)) by lia; apply returns_lift|].
  rewrite (alter_entry L i x _ pgs') by done.
  destruct (table_insert _ _ _ _ i x t h cells id pgs' _ (repr_body _ _ _ Hrepr) Hx Ht Hh
    (proj1 Hhu) (proj2 Hhu) Hok Ha eq_refl) as (qs & Haq & Hb).
  apply hwp_bind. eapply (hwp_store_catalog (D:=D)); [exact Hb| | |by right].
  { eapply catalog_room_insert; [done|done|apply Hrepr]. }
  intros σ' Hr Hw Hg. apply hwp_ret. eexists _, _. split_and!; [exact Hr| |done|done].
  by exists i, t, qs.
Qed.

(** The place of a live row, in the index and in the table. *)
Record placed (x : CatEntry.t * index_pages) (t : dtable) (id : RowId.t) (r : row)
    (k j : nat) (p : Z) (slots : list Z) (l : list (option row)) (h : Z) : Prop := {
  pl_index : x.2 !! k = Some (p, slots);
  pl_head : slots !! j = Some h;
  pl_page : dt_pages t !! k = Some (p, l);
  pl_row : l !! j = Some (Some r);
  pl_id : id = RowId.mk p (Z.of_nat j);
  pl_set o : set_slot id o t = set_pages (<[k := (p, <[j := o]> l)]> (dt_pages t)) t;
  pl_stored : stored (hs_heap σ) h r
}.

Lemma hwp_on_slot {B} x t id (f : Z -> stM (Pager.t D) StoreError B) Q :
  table_repr (hs_heap σ) x t -> owns_id t id ->
  (forall r k j p slots l h, get_slot t id = Val r -> placed x t id r k j p slots l h ->
     hwp σ (f h) Q) ->
  (forall e, get_slot t id = Fail e -> Q (Fail e) σ) ->
  hwp σ (h ← row_head_at id; f h) Q.
Proof.
  intros Hxt Hown HV HF. pose proof Hown as [H0 _].
  destruct (slot_repr_read _ _ _ _ Hxt Hown) as (k & slots & Hk & Epg & Hslot).
  assert (Hr : returns (D:=D) n m σ (row_head_at id) (slot_outcome slots (RowId.slot id))).
  { destruct id as [p i]. eapply returns_row_head_at; [apply (tr_data _ _ _ Hxt)|exact Hk|exact H0]. }
  eapply hwp_read; [exact Hr|].
  destruct (get_slot t id) as [r|e| |] eqn:Eg; try done.
  2:{ rewrite Hslot. by apply HF. }
  destruct Hslot as (h & Eh & Hst). rewrite Eh.
  destruct (get_slot_pages _ _ _ H0 Eg) as (k' & p & l & i & Hq & Hi & -> & Epg' & Hset).
  rewrite Epg' in Epg. injection Epg as ->. cbn [RowId.index_page RowId.slot] in Hk, Eh.
  eapply HV; [done|]. split; try done. revert Eh. unfold slot_outcome, nth_z. rewrite Nat2Z.id.
  destruct (slots !! i) as [s|]; [|done]. by destruct (s =? 0); [|intros [= ->]].
Qed.

Lemma delete_body_spec name id : integrity d -> valid_id d name id ->
  hwp σ (delete_body name id)
    (reaches (fun _ _ d' => spec_delete d name id = Val d')
       (fun e => spec_delete d name id = Fail e) (hs_gen σ)).
Proof.
  intros Hint Hid. unfold delete_body. eapply hwp_on_table; [done| |].
  2:{ intros e He. left. unfold spec_delete. by rewrite He. }
  intros i x t Hi Hx Ht Hxt.
  assert (Es : spec_delete d name id =
    (r ← get_slot t id; _ ← spec_restrict d name t i id (cell_at (fit t r));
     Val (<[i := set_slot id None t]> d))).
  { unfold spec_delete, table_at. rewrite Hi. cbn [mbind outcome_bind]. by rewrite Ht. }
  eapply hwp_then; [by eapply returns_schema_of|].
  eapply (hwp_on_slot x t); [done|by eapply Hid| |].
  2:{ intros e He. left. by rewrite Es, He. }
  intros r k j p slots l h Hg Hpl. rewrite Hg in Es. cbn [mbind outcome_bind] in Es.
  eapply hwp_then; [eapply returns_fitted, Hpl|].
  destruct (find_table_val _ _ _ Hi) as (t' & Ht' & Hn). rewrite Ht in Ht'. injection Ht' as <-.
  destruct (spec_restrict_no_abort d name i t id (cell_at (fit t r)) Hint Ht Hn) as [N1 N2].
  eapply hwp_guard; [by eapply returns_restrict|done..| |].
  2:{ intros e He. left. by rewrite Es, He. }
  intros [] Hv. rewrite Hv in Es. cbn [mbind outcome_bind] in Es.
  destruct Hpl as [Pi Ph Pp Pr -> Pset (Hh0 & Hhu & Hhb & _)].
  apply hwp_bind, (hwp_free_chain _ _ _ _ _ _ Hhb).
  assert (Hne : CatEntry.data_head x.1 <> h).
  { intros E. pose proof (tr_data _ _ _ Hxt). congruence. }
  cbn [RowId.index_page RowId.slot].
  apply hwp_bind, (hwp_index_set _ _ _ (CatEntry.data_head x.1) x.2 k p slots);
    [cbn; rewrite lookup_delete_ne by done; apply (tr_data _ _ _ Hxt)|done|by eapply lookup_lt_Some|done|].
  assert (Hcount : 0 < CatEntry.row_count x.1).
  { rewrite (tr_count _ _ _ Hxt). destruct (get_slot_val _ _ _ (proj1 (Hid _ _ Hi Ht)) Hg) as (a & b & E & _).
    rewrite E, length_app. cbn [length]. lia. }
  erewrite (alter_entry L i x (fun e => CatEntry.set_row_count (Z.max 0 (CatEntry.row_count e - 1)) e)) by done.
  eapply hwp_store_catalog.
  - apply (table_set_row _ _ _ _ i x t k p slots l j h r 0 None _ (repr_body _ _ _ Hrepr)); try done.
    cbv beta iota. lia.
  - eapply catalog_room_insert; [done|done|apply Hrepr].
  - intros σ' Hr Hw Hgn. eexists _, _. split_and!; [exact Hr| |done|done]. by rewrite Es, Pset.
  - by right.
Qed.

(** The catalog is no object of a table. *)
Lemma catalog_apart i x : L !! i = Some x ->
  hs_heap σ !! hs_catalog σ = Some (Blob (put_catalog L.*1)) /\
  forall h, h ∈ table_heads x -> h <> hs_catalog σ.
Proof.
  intros Hx. destruct (body_split _ _ _ _ _ _ (repr_body _ _ _ Hrepr) Hx) as [_ Hd].
  pose proof (rp_catalog _ _ _ Hrepr) as Hc. revert Hd Hc. unfold catalog_heads.
  destruct (hs_catalog σ =? 0); [by intros _ ->|]. intros Hd Hc. split; [done|].
  intros h Hh ->. apply (Hd _ Hh). left.
Qed.

(** A table changes that looks the same in the catalog. *)
Lemma repr_in_place σ' L' d' : body (hs_heap σ') (hs_catalog σ') L' d' ->
  hs_catalog σ' = hs_catalog σ -> L'.*1 = L.*1 -> catalog_room d' ->
  hs_heap σ' !! hs_catalog σ = hs_heap σ !! hs_catalog σ ->
  len (keys (hs_heap σ')) < 2 ^ 60 -> repr σ' L' d'.
Proof.
  intros [B1 B2] Ec EL Hroom Ecat Hk. split; try done. rewrite Ec, Ecat, EL.
  pose proof (rp_catalog _ _ _ Hrepr) as Hc. destruct (hs_catalog σ =? 0); [|done].
  subst L. by destruct L'.
Qed.

(** A row replaced by one that has been written elsewhere. *)
Lemma repr_replace_row σ' i x t id r k j p slots l h s cells :
  L !! i = Some x -> d !! i = Some t -> placed x t id r k j p slots l h ->
  new_row_ok (hs_heap σ) h s (Some cells) ->
  hs_heap σ' = set_row_heap (CatEntry.data_head x.1) (<[k := (p, <[j := s]> slots)]> x.2) h s
    (Some cells) (hs_heap σ) ->
  hs_catalog σ' = hs_catalog σ -> len (keys (hs_heap σ')) < 2 ^ 60 ->
  exists L', repr σ' L' (<[i := set_slot id (Some cells) t]> d).
Proof.
  intros Hx Ht [Pi Ph Pp Pr -> Pset (Hh0 & _)] Hnew EH Ec Hk.
  destruct (catalog_apart i x Hx) as [Hcat Hap].
  exists (<[i := (CatEntry.set_row_count (CatEntry.row_count x.1) x.1,
                  <[k := (p, <[j := s]> slots)]> x.2)]> L).
  apply repr_in_place; [|done| | | |done].
  - rewrite EH, Ec, Pset.
    apply (table_set_row _ _ _ _ i x t k p slots l j h r s (Some cells) _ (repr_body _ _ _ Hrepr)); try done.
    cbv beta iota. lia.
  - rewrite list_fmap_insert. cbn [fst]. apply list_insert_id. rewrite list_lookup_fmap, Hx.
    by destruct x as [[] ?].
  - eapply catalog_room_insert; [done|by rewrite Pset|apply Hrepr].
  - rewrite EH. unfold set_row_heap.
    assert (Hh : h ∈ table_heads x).
    { unfold table_heads. right; right. apply list_elem_of_fmap. exists (RowId.mk p (Z.of_nat j), h).
      split; [done|]. apply live_elem. exists k, p, (slot_opt <$> slots), j. split_and!; [| |done].
      - by rewrite list_lookup_fmap, Pi.
      - rewrite list_lookup_fmap, Ph. cbn. unfold slot_opt. by rewrite (proj2 (Z.eqb_neq h 0)). }
    pose proof (Hap h Hh) as Hne. rewrite lookup_insert_ne by (apply Hap; right; left).
    rewrite lookup_insert_ne, lookup_delete_ne; [done|done|]. intros ->.
    destruct Hnew as [Hn _]. rewrite lookup_delete_ne in Hn by done. congruence.
Qed.

Lemma update_body_spec name id cells : integrity d -> valid_id d name id -> row_ok cells ->
  hwp σ (update_body name id cells)
    (reaches (fun _ _ d' => spec_update d name id cells = Val d')
       (fun e => spec_update d name id cells = Fail e) (hs_gen σ)).
Proof.
  intros Hint Hid Hok. unfold update_body. eapply hwp_on_table; [done| |].
  2:{ intros e He. left. unfold spec_update. by rewrite He. }
  intros i x t Hi Hx Ht Hxt.
  assert (Es : spec_update d name id cells =
    (_ ← spec_validate d i t cells (Some id); old ← get_slot t id;
     _ ← spec_restrict d name t i id (changed_key (fit t old) cells);
     Val (<[i := set_slot id (Some cells) t]> d))).
  { unfold spec_update, table_at. rewrite Hi. cbn [mbind outcome_bind]. by rewrite Ht. }
  eapply hwp_then; [by eapply returns_schema_of|].
  eapply hwp_guard; [by eapply returns_validate|apply spec_validate_no_abort..| |].
  2:{ intros e He. left. by rewrite Es, He. }
  intros [] Hv0. rewrite Hv0 in Es. cbn [mbind outcome_bind] in Es.
  eapply (hwp_on_slot x t); [done|by eapply Hid| |].
  2:{ intros e He. left. by rewrite Es, He. }
  intros r k j p slots l h Hg Hpl. rewrite Hg in Es. cbn [mbind outcome_bind] in Es.
  eapply hwp_then; [eapply returns_fitted, Hpl|].
  destruct (find_table_val _ _ _ Hi) as (t' & Ht' & Hn). rewrite Ht in Ht'. injection Ht' as <-.
  destruct (spec_restrict_no_abort d name i t id (changed_key (fit t r) cells) Hint Ht Hn) as [N1 N2].
  eapply (hwp_guard _ _ _ _ _ (spec_restrict d name t i id (changed_key (fit t r) cells)));
    [by eapply returns_restrict|done..| |].
  2:{ intros e He. left. by rewrite Es, He. }
  intros [] Hv. rewrite Hv in Es. cbn [mbind outcome_bind] in Es.
  pose proof Hpl as [Pi Ph _ _ -> _ (_ & _ & Hhb & _)].
  apply hwp_known. intros _ Hnn. apply hwp_bind, hwp_write_chain; [|by right]. intros s Hs Hshome.
  assert (Hsu : s <> 0 /\ is_u64 s) by (destruct Hshome; unfold is_u64; slia).
  set (dh := CatEntry.data_head x.1). pose proof (tr_data _ _ _ Hxt) as Hdh.
  assert (Hne : dh <> h /\ s <> dh /\ s <> h).
  { unfold dh. split_and!; intros E; [|subst s..]; congruence. }
  destruct Hne as (N3 & N4 & N5). cbn [RowId.index_page RowId.slot].
  apply hwp_bind, (hwp_index_set _ _ _ dh x.2 k p slots);
    [cbn; rewrite lookup_insert_ne by done; done|done|by eapply lookup_lt_Some|apply Hsu|].
  assert (Hold : <[dh := Index (<[k := (p, <[j := s]> slots)]> x.2)]>
    (<[s := Blob (encode_row cells)]> (hs_heap σ)) !! h = Some (Blob (encode_row r))).
  { by rewrite !lookup_insert_ne. }
  apply hwp_known. cbn [hs_heap hs_upd]. intros Hk _. rewrite (keys_delete _ _ _ Hold) in Hk.
  eapply hwp_free_chain; [exact Hold|]. unfold reaches.
  match goal with |- exists L' d', repr ?σ' _ _ /\ _ =>
    destruct (repr_replace_row σ' i x t _ r k j p slots l h s cells Hx Ht Hpl) as [L' Hr] end;
    [split_and!; [by rewrite lookup_delete_ne|apply Hsu..|done]|
     cbn [hs_heap hs_upd]; unfold set_row_heap; by rewrite delete_insert_ne, delete_insert_ne
    |done|cbn [hs_heap hs_upd]; cbn [length] in Hk; lia|].
  eexists _, _. split_and!; [exact Hr|exact Es|done|done].
Qed.

Lemma create_table_body_spec name : name <> [] -> TableFacts.table_ok (Table.new name) ->
  catalog_room (d ++ [new_table name 0]) ->
  hwp σ (create_table_body name)
    (reaches (fun _ _ d' => spec_create_table d name = Val tt /\ exists h, d' = d ++ [new_table name h])
       (fun e => spec_create_table d name = Fail e) (hs_gen σ)).
Proof.
  intros Hne Hok Hroom. unfold create_table_body.
  eapply hwp_read; [by eapply returns_load_catalog|]. cbn beta iota.
  assert (Eb : existsb (fun e => str_eqb (CatEntry.name e) name) L.*1 =
               existsb (fun t => str_eqb (dt_name t) name) d).
  { apply (existsb_forall2 _ _ _ _ _ _ (rp_tables _ _ _ Hrepr)).
    intros x t Hxt. by rewrite (tr_name _ _ _ Hxt). }
  rewrite Eb. unfold spec_create_table. destruct name as [|b name']; [done|].
  set (name := b :: name') in *. destruct (existsb _ d).
  { apply hwp_lift. by left. }
  apply hwp_known. intros _ Hn. apply hwp_bind, hwp_write_chain; [|by right]. intros sh Hsh Hshome.
  apply hwp_bind, hwp_write_index; [|by right]. intros dh Hdh Hdhome.
  cbn [hs_upd hs_heap] in Hdh. apply lookup_insert_None in Hdh as [Hdh Hne'].
  change (_ ++ [CatEntry.mk name sh dh 0]) with (L.*1 ++ [new_entry name sh dh].*1).
  rewrite <- fmap_app.
  assert (is_u64 sh /\ is_u64 dh) as [Hsu Hdu] by (destruct Hshome, Hdhome; unfold is_u64; slia).
  eapply hwp_store_catalog.
  - apply (body_create _ (hs_catalog σ)); try done. by apply repr_body.
  - revert Hroom. unfold catalog_room. rewrite !sum_list_with_app. exact Datatypes.id.
  - intros σ' Hr Hw Hgn. eexists _, _. split_and!; [exact Hr|done|by exists dh|done|done].
  - by right.
Qed.

(** Freeing the objects of a list of rows. *)
Lemma hwp_free_all (rows : list (RowId.t * Z)) : forall σ1 (Q : Result unit -> hstate -> Prop),
  NoDup rows.*2 -> (forall h, h ∈ rows.*2 -> is_Some (hs_heap σ1 !! h)) ->
  (forall σ', hs_gen σ' = hs_gen σ1 -> hs_catalog σ' = hs_catalog σ1 ->
     (forall h, h ∉ rows.*2 -> hs_heap σ' !! h = hs_heap σ1 !! h) ->
     keys (hs_heap σ1) ≡ₚ rows.*2 ++ keys (hs_heap σ') -> Q (Val tt) σ') ->
  hwp σ1 (for_each rows (fun '(_, h) => free_chain h)) Q.
Proof.
  induction rows as [|[id h] rows IH]; intros σ1 Q Hnd Hs HQ.
  { apply hwp_ret. by apply HQ. }
  cbn [fmap list_fmap snd] in *. apply NoDup_cons in Hnd as [Hh Hnd].
  destruct (Hs h) as [o Ho]; [left|]. cbn [for_each].
  apply hwp_bind, (hwp_free_chain _ _ _ _ _ _ Ho). apply IH; [done| |].
  - intros h' Hh'. cbn. rewrite lookup_delete_ne by (by intros ->). apply Hs. by right.
  - intros σ' E1 E2 Hf Hk. apply HQ; [done|done| |].
    + intros h' Hh'. apply not_elem_of_cons in Hh' as [? ?]. rewrite Hf by done. cbn.
      by rewrite lookup_delete_ne.
    + rewrite (keys_delete _ _ _ Ho). cbn in Hk. by rewrite Hk.
Qed.

Lemma drop_table_body_spec name :
  hwp σ (drop_table_body name)
    (reaches (fun _ _ d' => spec_drop_table d name = Val d')
       (fun e => spec_drop_table d name = Fail e) (hs_gen σ)).
Proof.
  unfold drop_table_body. eapply hwp_read; [by eapply returns_load_catalog|]. cbn beta iota.
  eapply hwp_read; [by eapply returns_cat_index|].
  destruct (find_table_no_abort d name) as [N1 N2]. unfold spec_drop_table.
  destruct (find_table d name) as [i|e| |] eqn:Ei; [|by left|done..].
  destruct (find_table_val _ _ _ Ei) as (t & Ht & _).
  destruct (repr_table _ _ _ _ _ Hrepr Ht) as (x & Hx & Hxt).
  assert (no_abort (spec_check_unreferenced d name i)) as [N3 N4].
  { apply each_o_no_abort. intros [j u] _. destruct (j =? i)%nat; [done|]. by destruct (existsb _ _). }
  cbn [mbind outcome_bind].
  eapply (hwp_guard _ _ _ _ _ (spec_check_unreferenced d name i));
    [by apply returns_check_unreferenced|done..| |].
  2:{ intros e ->. by left. }
  intros [] ->. cbn [mbind outcome_bind].
  eapply hwp_then; [by apply returns_entry|]. eapply hwp_then; [by eapply returns_rows|].
  destruct (table_heads_nodup _ _ _ _ _ _ (repr_body _ _ _ Hrepr) Hx) as [Hnd Hdef].
  unfold table_heads in Hnd, Hdef. rewrite !NoDup_cons, not_elem_of_cons in Hnd.
  destruct Hnd as ((Hsd & Hsh) & Hdh & Hnd).
  apply hwp_bind, hwp_free_all; [done|intros h Hh; apply Hdef; by right; right|].
  intros σ1 Eg Ec Hf Hk. rewrite <- Eg.
  apply hwp_bind, (hwp_free_chain _ _ _ _ (Index x.2)); [rewrite Hf by done; apply Hxt|].
  apply hwp_bind, (hwp_free_chain _ _ _ _ (Blob (Table.encode (dt_schema t))));
    [cbn; rewrite lookup_delete_ne, Hf by congruence; apply (tr_schema _ _ _ Hxt)|].
  rewrite <- list_fmap_delete.
  eapply hwp_store_catalog.
  - cbn. rewrite Ec. eapply body_drop; [by eapply repr_body|done| |].
    + intros h Hh. unfold table_heads in Hh. rewrite !not_elem_of_cons in Hh. destruct Hh as (? & ? & ?).
      cbn. rewrite !lookup_delete_ne by congruence. by apply Hf.
    + cbn. rewrite Hk. unfold table_heads.
      assert (Ed : hs_heap σ1 !! CatEntry.data_head x.1 = Some (Index x.2)) by (rewrite Hf by done; apply Hxt).
      assert (Eh : delete (CatEntry.data_head x.1) (hs_heap σ1) !! CatEntry.schema_head x.1 =
        Some (Blob (Table.encode (dt_schema t)))).
      { rewrite lookup_delete_ne, Hf by congruence. apply Hxt. }
      rewrite (keys_delete _ _ _ Ed), (keys_delete _ _ _ Eh).
      rewrite <- !Permutation_middle. apply perm_swap.
  - apply catalog_room_delete, Hrepr.
  - intros σ' Hr Hw Hgn. eexists _, _. split_and!; [exact Hr|done|done|done].
  - by right.
Qed.

End DataBodies.
