(* ===== verification/StoreRuns.v ===== *)
(** * Running a store

    What holds of a store between two operations, and what a transaction, a
    read, a power loss and a reboot do to it. *)

From stdpp Require Import gmap.
From S2P Require Import Prelude Types Block Journal JournalFacts JournalCrash Durability Pager.
From S2P Require Import PagerFacts Store Database StoreFacts Heap Refinement Transactions.
Import Journal Store.

(** ** A store at rest *)

Section AtRest.
Context {D : Type} `{!BlockDevice D, !DeviceLaws D}.
Implicit Types (P : Pager.t D) (d : database).
Abbreviation M := (stM (Pager.t D) StoreError) (only parsing).

(** The store [P] on a device of [n] sectors whose durable content is [m]
    holds the database [d] as of generation [g], and nothing is staged. *)
Definition resting (n : Z) (m : medium) P (g : Z) d (v : view) (σ : hstate) (L : layout) : Prop :=
  volume n m (v_sb v) /\ in_tx n m P v /\ v_staged v = ∅ /\
  heap_ok n v σ /\ repr σ L d /\ hs_gen σ = g.
Definition holds (n : Z) (m : medium) P (g : Z) d : Prop := exists v σ L, resting n m P g d v σ L.

(** A body that runs in a transaction on [d] as [reaches] says. *)
Definition body_ok {A} (n : Z) (m : medium) (g : Z) d (body : M A)
    (R : A -> database -> Prop) (err : StoreError -> Prop) : Prop :=
  forall σ L, repr σ L d -> hs_gen σ = g ->
    hwp n m σ body (reaches (fun a _ d' => R a d') err g).

Lemma repr_heap σ σ' L d : hs_catalog σ' = hs_catalog σ -> hs_heap σ' = hs_heap σ ->
  repr σ L d -> repr σ' L d.
Proof. intros E1 E2 []. by split; rewrite ?E1, ?E2. Qed.

(** The heap of a transaction is the heap its commit leaves. *)
Lemma heap_committed n v σ : heap_ok n v σ ->
  heap_ok n (at_rest (committed_sb (v_sb v)) (v_page v))
    (mk_hstate (hs_gen σ + 1) (hs_catalog σ) false (hs_heap σ)).
Proof.
  intros (fl & ext & [[F1 F2 F3 F4 F5 F6] H2 H3 H4 H5 H6 H7 H8]). exists fl, ext.
  split; cbn; try done.
  - split; cbn; try done. by apply (chained_ext v).
  - intros h o Ho. destruct (H2 h o Ho) as [Ha Hp]. split; [|done]. by apply (obj_at_ext v).
  - by rewrite H7.
Qed.

Lemma heap_wf n v σ : heap_ok n v σ -> is_u64 (hs_gen σ) -> SuperblockFacts.wf (v_sb v).
Proof.
  intros (fl & ext & [[F1 F2 F3 F4 F5 F6] H2 H3 H4 H5 H6 H7 H8]) Hg.
  unfold SuperblockFacts.wf. rewrite H5, H7. split_and!; try done.
  - rewrite F5. unfold is_u64. lia.
  - unfold is_u64. slia.
  - destruct fl as [|p fl]; cbn in F1; [by rewrite F1|]. destruct F1 as [-> _].
    apply Forall_cons in F3 as [? _]. unfold is_u64. slia.
Qed.

(** Nothing staged: the view is the disk. *)
Lemma at_rest_pages n m P v q : in_tx n m P v -> v_staged v = ∅ -> home_page n q ->
  page_of m q = v_page v q.
Proof.
  intros Htx Hst Hq. rewrite <- (tx_page _ _ _ _ Htx q Hq). unfold sees.
  pose proof (tx_staged _ _ _ _ Htx) as Hd. rewrite Hst in Hd.
  apply dom_empty_inv_L in Hd. by rewrite Hd, lookup_empty.
Qed.

Lemma at_rest_back n m m' P P' v : in_tx n m P v -> v_staged v = ∅ ->
  (forall q, home_page n q -> page_of m' q = page_of m q) ->
  in_tx n m' P' (at_rest (v_sb v) (page_of m')) -> in_tx n m' P' v.
Proof.
  intros Htx Hst Hm Hr. eapply in_tx_ext; [exact Hr|done| |done].
  intros q Hq. cbn. rewrite Hm by done. by eapply at_rest_pages.
Qed.

Lemma staged_dirty n m P v : in_tx n m P v -> v_staged v <> ∅ -> Pager.dirty P <> ∅.
Proof. intros Htx Hst E. apply Hst. by rewrite <- (tx_staged _ _ _ _ Htx), E, dom_empty_L. Qed.

(** ** Operations on a device that stays powered *)

Lemma rolled_back n m P P1 g d v σ L v1 : ~ may_lose (D:=D) ->
  volume n m (v_sb v) -> in_tx n m P v -> v_staged v = ∅ -> heap_ok n v σ -> repr σ L d ->
  hs_gen σ = g -> in_tx n m P1 v1 ->
  exists P', Pager.rollback P1 = (Val tt, P') /\ holds n m P' g d.
Proof.
  intros Hl Hv Htx Hst Hh Hr Hg Htx1.
  destruct (rollback_spec n m P1 v1 (v_sb v) Hl Htx1 Hv) as (P' & E & Htx' & _).
  exists P'. split; [done|]. exists v, σ, L. split_and!; try done. by eapply at_rest_back.
Qed.

(** A transaction ends with its change committed, or with nothing changed. *)
Lemma tx_powered_at {A} n m P g d v σ L (body : M A) R err : ~ may_lose (D:=D) ->
  resting n m P g d v σ L -> g + 1 < 2 ^ 64 -> hwp n m σ body (reaches (fun a _ d' => R a d') err g) ->
  exists r P', tx body P = (r, P') /\
    match r with
    | Val a => exists m' d', R a d' /\ holds n m' P' (g + 1) d'
    | Fail e => (err e \/ e = OutOfSpace) /\ holds n m P' g d
    | _ => False
    end.
Proof.
  intros Hl (Hv & Htx & Hst & Hh & Hr & Hg) Hgen Hbody.
  destruct (pwp_powered _ _ _ _ _ _ Hl (Hbody v Hh) Htx)
    as (r & P1 & v1 & E & Htx1 & σ1 & Hh1 & HQ).
  destruct (rolled_back n m P P1 g d v σ L v1) as (P' & E' & Hold); [done..|].
  unfold tx. rewrite E. destruct r as [a|e| |]; [|rewrite E'; by exists (Fail e), P'|done..].
  destruct HQ as (L' & d' & Hr' & HR & Hw & Hg').
  pose proof Hh1 as (fl & ext & Hat). pose proof (hp_wrote _ _ _ _ _ Hat Hw) as Hst1.
  assert (Eg : Superblock.generation (v_sb v1) = g) by (by rewrite (hp_gen _ _ _ _ _ Hat)).
  destruct (decide (Z.of_nat (size (Pager.dirty P1)) < JCAP)) as [Hsz|Hsz].
  - destruct (commit_spec n m P1 v1 (v_sb v)) as (P2 & m' & Ec & Hv2 & Htx2 & _ & _); try done.
    { eapply heap_wf; [done|]. rewrite Hg', <- Hg. pose proof Hh as (? & ? & Hat0).
      rewrite <- (hp_gen _ _ _ _ _ Hat0). apply Hv. }
    { by rewrite Eg. } { by eapply staged_dirty. }
    rewrite Ec. exists (Val a), P2. split; [done|]. exists m', d'. split; [done|].
    exists (at_rest (committed_sb (v_sb v1)) (v_page v1)),
      (mk_hstate (hs_gen σ1 + 1) (hs_catalog σ1) false (hs_heap σ1)), L'.
    split_and!; [done..|by apply heap_committed|by eapply (repr_heap σ1)|cbn; by rewrite Hg'].
  - destruct (commit_too_big n m P1 v1 (v_sb v)) as (P2 & Ec & Htx2); try done; [by rewrite Eg|lia|].
    destruct (rolled_back n m P P2 g d v σ L v1) as (P3 & E3 & Hold3); [done..|].
    rewrite Ec, E3. exists (Fail OutOfSpace), P3. split; [done|]. split; [by right|done].
Qed.

Lemma tx_powered {A} n m P g d (body : M A) R err : ~ may_lose (D:=D) ->
  holds n m P g d -> g + 1 < 2 ^ 64 -> body_ok n m g d body R err ->
  exists r P', tx body P = (r, P') /\
    match r with
    | Val a => exists m' d', R a d' /\ holds n m' P' (g + 1) d'
    | Fail e => (err e \/ e = OutOfSpace) /\ holds n m P' g d
    | _ => False
    end.
Proof.
  intros Hl (v & σ & L & Hrest) Hgen Hbody. eapply tx_powered_at; [done|done|done|]. by eapply Hbody; apply Hrest.
Qed.

(** A read gives its value and leaves the store as it is. *)
Lemma read_powered_at {A} n m P g d v σ L (c : M A) r : ~ may_lose (D:=D) -> resting n m P g d v σ L ->
  returns n m σ c r -> exists P', c P = (r, P') /\ resting n m P' g d v σ L.
Proof.
  intros Hl (Hv & Htx & Hst & Hh & Hr & Hg) Hc.
  destruct (pwp_powered _ _ _ _ _ _ Hl (Hc v Hh) Htx) as (r' & P1 & v1 & E & Htx1 & -> & ->).
  by exists P1.
Qed.

Lemma read_powered {A} n m P g d (c : M A) r : ~ may_lose (D:=D) -> holds n m P g d ->
  (forall σ L, repr σ L d -> returns n m σ c r) ->
  exists P', c P = (r, P') /\ holds n m P' g d.
Proof.
  intros Hl (v & σ & L & Hrest) Hc.
  destruct (read_powered_at n m P g d v σ L c r Hl Hrest) as (P' & E & Hrest'); [apply (Hc σ L), Hrest|].
  exists P'. split; [done|]. by exists v, σ, L.
Qed.

End AtRest.

(** ** Power loss *)

(** Reading leaves the media as they are, with or without power. *)
Definition same_media (d e : VolatileDisk.t) : Prop :=
  VolatileDisk.size e = VolatileDisk.size d /\ VolatileDisk.durable e = VolatileDisk.durable d /\
  VolatileDisk.cache e = VolatileDisk.cache d.

Definition only_reads {A} (c : stM VolatileDisk.t StoreError A) : Prop :=
  forall d r e, c d = (r, e) -> same_media d e.

Lemma only_reads_lift {A} (r : outcome StoreError A) : only_reads (lift r).
Proof. intros d r' e [= _ <-]. by split_and!. Qed.

Lemma only_reads_bind {A B} (c : stM VolatileDisk.t StoreError A) (f : A -> stM VolatileDisk.t StoreError B) :
  only_reads c -> (forall a, only_reads (f a)) -> only_reads (c ≫= f).
Proof.
  intros Hc Hf d r e. unfold mbind, stM_bind. destruct (c d) as [r0 d0] eqn:E0.
  destruct (Hc _ _ _ E0) as (H1 & H2 & H3). destruct r0 as [a|err| |]; [|by intros [= _ <-]..].
  intros E. destruct (Hf a _ _ _ E) as (G1 & G2 & G3). by split_and!; etrans.
Qed.

Lemma only_reads_sector l b : only_reads (read_sector l b).
Proof.
  intros d r e. cbn. unfold VolatileDisk.spend. destruct (VolatileDisk.life d) as [|k].
  - intros [= _ <-]. by split_and!.
  - cbn. destruct (_ <=? _); intros [= _ <-]; by split_and!.
Qed.

Lemma only_reads_page p out : only_reads (Journal.read_page p out).
Proof.
  apply only_reads_bind; [apply only_reads_lift|]. intros _.
  generalize (seqZ 0 PAGE_SECTORS) (zeros SECTOR) out. intros idx.
  induction idx as [|i idx IH]; intros sec o; [apply only_reads_lift|].
  repeat (apply only_reads_bind; [first [apply only_reads_lift|apply only_reads_sector]|intros ?]).
  apply IH.
Qed.

Lemma rollback_media P r P' : Pager.rollback P = (r, P') -> same_media (Pager.dev P) (Pager.dev P').
Proof.
  unfold Pager.rollback.
  rewrite (stM_bind_val _ _ _ tt (Pager.mk (Pager.dev P) (Pager.sb P) ∅ (Pager.cache P))) by done.
  unfold mbind, stM_bind, Pager.on_dev. cbn [Pager.dev].
  destruct (Journal.read_page 0 zeroed_page (Pager.dev P)) as [r0 e] eqn:E.
  apply only_reads_page in E. destruct r0 as [p|err| |]; [|by intros [= <- <-]..].
  unfold lift. by destruct (Superblock.decode p); intros [= <- <-].
Qed.

Lemma media_keeps n m (P P' : Pager.t VolatileDisk.t) :
  same_media (Pager.dev P) (Pager.dev P') -> keeps n m P -> keeps n m P'.
Proof.
  unfold same_media, keeps. cbn. unfold VolatileDisk.ok, VolatileDisk.survives.
  by intros (-> & -> & ->).
Qed.

Section Crash.
Context {D : Type} `{!BlockDevice D, !DeviceLaws D}.
Implicit Types (d : database).

(** A reboot that finds the old content. *)
Lemma reboot_old n m (P P1 : Pager.t VolatileDisk.t) g d x y (d2 : D) : holds n m P g d -> keeps n m P1 ->
  VolatileDisk.survives (Pager.dev P1) x -> failed_recoveries n x y -> powered_on n y d2 ->
  exists P2 m2, Pager.mount d2 = Val P2 /\ holds n m2 P2 g d.
Proof.
  intros (v & σ & L & Hv & Htx & Hst & Hh & Hr & Hg) (Hok & Hc & Hi) Hx Hy H2.
  pose proof (Hi x Hx) as Hxm. pose proof (vol_room _ _ _ Hv) as Hroom.
  assert (Hxd : disk n x).
  { split; [apply (vol_disk _ _ _ Hv)|]. intros l Hl. rewrite (Hxm l). by apply (vol_disk _ _ _ Hv). }
  destruct (failed_recoveries_recovers n x y m) as [Hyr _]; [slia|done|done| |].
  { left. split; [by rewrite Hxm; apply Hv|by apply meq_home]. }
  destruct (powered_recover n y m d2 ltac:(slia) H2 Hyr) as (b & d3 & m3 & Erec & Hp3 & Hi3 & He3).
  assert (Hv3 : volume n m3 (v_sb v)) by (eapply volume_home; [done|done|by apply (powered_disk n m3 d3)|done]).
  destruct (mount_after n m3 (v_sb v) d2 d3 b Erec Hp3 Hv3) as (P2 & E2 & Htx2 & _).
  exists P2, m3. split; [done|]. exists v, σ, L. split_and!; try done.
  eapply (in_tx_ext n m3 P2 _ v Htx2); [done| |done]. intros q Hq. cbn.
  rewrite (home_eq_page m3 m) by (done || (right; apply Hq)). by apply (at_rest_pages n m P v q Htx).
Qed.

Lemma tx_inv {A} (body : stM (Pager.t VolatileDisk.t) StoreError A) (P P1 : Pager.t VolatileDisk.t) r : tx body P = (r, P1) ->
  exists r0 P0, body P = (r0, P0) /\
    match r0 with
    | Val a => exists rc Pc, Pager.commit P0 = (rc, Pc) /\
        match rc with
        | Val _ => r = Val a /\ P1 = Pc
        | Fail e => (forall b, r <> Val b) /\ exists rr, Pager.rollback Pc = (rr, P1)
        | _ => (forall b, r <> Val b) /\ P1 = Pc
        end
    | Fail e => (forall b, r <> Val b) /\ exists rr, Pager.rollback P0 = (rr, P1)
    | _ => (forall b, r <> Val b) /\ P1 = P0
    end.
Proof.
  unfold tx. destruct (body P) as [r0 P0] eqn:E. intros H. exists r0, P0. split; [done|].
  destruct r0 as [a|e| |]; [|destruct (Pager.rollback P0) as [[]] eqn:Er; injection H as <- <-; eauto|by injection H as <- <-..].
  destruct (Pager.commit P0) as [rc Pc] eqn:Ec. exists rc, Pc. split; [done|].
  destruct rc; [by injection H as <- <-| |by injection H as <- <-..].
  destruct (Pager.rollback Pc) as [[]] eqn:Er; injection H as <- <-; eauto.
Qed.

(** The power goes, at any operation of the drive or after the last: the next
    boot finds the transaction's change, or nothing of it, and the change if
    the transaction had returned. *)
Lemma tx_crash_at {A} n m (P P1 : Pager.t VolatileDisk.t) g d v σ L
    (body : stM (Pager.t VolatileDisk.t) StoreError A) R err r x y (d2 : D) :
  resting n m P g d v σ L -> g + 1 < 2 ^ 64 -> hwp n m σ body (reaches (fun a _ d' => R a d') err g) ->
  tx body P = (r, P1) ->
  VolatileDisk.survives (Pager.dev P1) x -> failed_recoveries n x y -> powered_on n y d2 ->
  exists P2 m2, Pager.mount d2 = Val P2 /\
    ((holds n m2 P2 g d /\ forall b, r <> Val b) \/
     exists a d', R a d' /\ holds n m2 P2 (g + 1) d' /\ forall b, r = Val b -> b = a).
Proof.
  intros Hrest0 Hgen Hbody E Hx Hy H2. pose proof Hrest0 as (Hv & Htx & Hst & Hh & Hr & Hg).
  assert (Hold : holds n m P g d) by (by exists v, σ, L).
  pose proof (vol_room _ _ _ Hv) as Hroom.
  assert (Hback : keeps n m P1 -> (forall b, r <> Val b) -> exists P2 m2, Pager.mount d2 = Val P2 /\
    ((holds n m2 P2 g d /\ forall b, r <> Val b) \/
     exists a d', R a d' /\ holds n m2 P2 (g + 1) d' /\ forall b, r = Val b -> b = a)).
  { intros Hk Hb. destruct (reboot_old n m P P1 g d x y d2) as (P2 & m2 & ? & ?); [done..|].
    exists P2, m2. auto. }
  assert (Hroll : forall (Q : Pager.t VolatileDisk.t) w rr, in_tx n m Q w ->
    Pager.rollback Q = (rr, P1) -> keeps n m P1).
  { intros Q w rr HQ Hrr. apply (media_keeps n m Q); [by eapply rollback_media|].
    destruct (tx_dev _ _ _ _ HQ) as (? & ? & _ & ?). by split_and!. }
  destruct (tx_inv body P P1 r E) as (r0 & P0 & E0 & Hrest).
  destruct (Hbody v Hh P Htx)
    as [(r' & P' & v1 & E' & Htx1 & σ1 & Hh1 & HQ)|(_ & P' & E' & Hk)];
    rewrite E0 in E'; [injection E' as <- <-|injection E' as -> ->].
  2:{ destruct Hrest as [Hb [rr Hrr]]. apply Hback; [|done].
      apply (media_keeps n m P'); [by eapply rollback_media|done]. }
  destruct r0 as [a|e| |]; [|destruct Hrest as [Hb [rr Hrr]]; apply Hback; eauto|done..].
  destruct HQ as (L' & d' & Hr' & HR & Hw & Hg'). destruct Hrest as (rc & Pc & Ec & Hrest).
  pose proof Hh1 as (fl & ext & Hat). pose proof (hp_wrote _ _ _ _ _ Hat Hw) as Hst1.
  assert (Eg : Superblock.generation (v_sb v1) = g) by (by rewrite (hp_gen _ _ _ _ _ Hat)).
  destruct (decide (Z.of_nat (size (Pager.dirty P0)) < JCAP)) as [Hsz|Hsz].
  - assert (Hmedia : VolatileDisk.survives (Pager.dev Pc) x).
    { destruct rc as [u|e| |]; [by destruct Hrest as [_ <-]| |by destruct Hrest as [_ <-]..].
      destruct Hrest as (_ & rr & (_ & E1 & E2)%rollback_media).
      unfold VolatileDisk.survives in *. by rewrite <- E1, <- E2. }
    destruct (commit_crash n m (v_sb v) P0 v1 rc Pc x y d2) as (P2 & m2 & Em & Hcase); try done.
    { eapply heap_wf; [done|]. rewrite Hg', <- Hg. pose proof Hh as (? & ? & Hat0).
      rewrite <- (hp_gen _ _ _ _ _ Hat0). apply Hv. }
    { by rewrite Eg. } { by eapply staged_dirty. }
    exists P2, m2. split; [done|]. destruct Hcase as [(Hv2 & Htx2 & Hrc)|(Hv2 & Htx2)].
    + left. split.
      * exists v, σ, L. split_and!; try done. eapply (in_tx_ext n m2 P2 _ v Htx2); [done| |done].
        intros q Hq. cbn. by apply (at_rest_pages n m P v q Htx).
      * destruct rc as [[]|e| |]; [done|apply Hrest..].
    + right. exists a, d'. split; [done|]. split.
      * exists (at_rest (committed_sb (v_sb v1)) (v_page v1)),
          (mk_hstate (hs_gen σ1 + 1) (hs_catalog σ1) false (hs_heap σ1)), L'.
        split_and!; [done..|by apply heap_committed|by eapply (repr_heap σ1)|cbn; by rewrite Hg'].
      * intros b Hb. destruct rc as [u|e| |]; [destruct Hrest as [-> _]; congruence|..];
          destruct Hrest as [Hno _]; by apply Hno in Hb.
  - destruct (commit_too_big n m P0 v1 (v_sb v)) as (P2 & Ec2 & Htx2); try done; [by rewrite Eg|lia|].
    rewrite Ec in Ec2. injection Ec2 as -> ->. destruct Hrest as [Hb [rr Hrr]].
    apply Hback; eauto.
Qed.

End Crash.

(** ** Programs

    An operation of the store reads, checks and then, if at all, runs one
    transaction: what it is to take the transitions [R] from [d], or to be
    refused with an error of [err]. *)

Section Programs.
Context {D : Type} `{!BlockDevice D, !DeviceLaws D}.
Abbreviation M := (stM (Pager.t D) StoreError) (only parsing).
Context (n : Z) (m : medium) (σ : hstate) (d : database) (err : StoreError -> Prop).

Inductive prog_ok : forall {A : Type}, (A -> database -> Prop) -> M A -> Prop :=
  | ok_tx {A} (R : A -> database -> Prop) (body : M A) :
      hwp n m σ body (reaches (fun a _ d' => R a d') err (hs_gen σ)) -> prog_ok R (tx body)
  | ok_ret {A} (R : A -> database -> Prop) a : R a d -> prog_ok R (mret a)
  | ok_fail {A} (R : A -> database -> Prop) e : err e -> prog_ok R (lift (Fail e))
  | ok_read {A B} (R : A -> database -> Prop) (c : M B) f b :
      returns n m σ c (Val b) -> prog_ok R (f b) -> prog_ok R (c ≫= f)
  | ok_refused {A B} (R : A -> database -> Prop) (c : M B) (f : B -> M A) e :
      returns n m σ c (Fail e) -> err e -> prog_ok R (c ≫= f)
  | ok_answer {A B} (R : A -> database -> Prop) (R' : B -> database -> Prop) (c : M B) f :
      prog_ok R' c -> (forall b d', R' b d' -> R (f b) d') -> prog_ok R (b ← c; mret (f b)).

(** A read in front: its errors are errors of the operation. *)
Lemma prog_guard {A B} (R : A -> database -> Prop) (c : M B) (f : B -> M A) r :
  returns n m σ c r -> no_abort r -> (forall e, r = Fail e -> err e) ->
  (forall b, r = Val b -> prog_ok R (f b)) -> prog_ok R (c ≫= f).
Proof.
  intros Hc [N1 N2] HF HV. destruct r as [b|e| |]; [by eapply ok_read, HV|by eapply ok_refused, HF|done..].
Qed.

(** On a device that stays powered. *)
Lemma prog_powered {A} (R : A -> database -> Prop) c : ~ may_lose (D:=D) -> prog_ok R c ->
  forall P g v L, resting n m P g d v σ L -> g + 1 < 2 ^ 64 ->
  exists r P', c P = (r, P') /\
    match r with
    | Val a => exists m' g' d', R a d' /\ holds n m' P' g' d' /\ (g' = g + 1 \/ g' = g /\ d' = d)
    | Fail e => (err e \/ e = OutOfSpace) /\ holds n m P' g d
    | _ => False
    end.
Proof.
  intros Hl Hc. induction Hc as [A R body Hb|A R a Ha|A R e He|A B R c f b Hb _ IH|A B R c f e Hb He|
    A B R R' c f _ IH HR]; intros P g v L Hrest Hg.
  - assert (Eg : hs_gen σ = g) by apply Hrest. rewrite Eg in Hb.
    destruct (tx_powered_at n m P g d v σ L body R err Hl Hrest Hg Hb) as (r & P' & E & Hr).
    exists r, P'. split; [done|]. destruct r as [a|e| |]; [|done..].
    destruct Hr as (m' & d' & Ha & Hh). exists m', (g + 1), d'. auto.
  - exists (Val a), P. split; [done|]. exists m, g, d. split_and!; [done|by exists v, σ, L|by right].
  - exists (Fail e), P. split; [done|]. split; [by left|by exists v, σ, L].
  - destruct (read_powered_at n m P g d v σ L c _ Hl Hrest Hb) as (P1 & E1 & Hrest1).
    destruct (IH P1 g v L Hrest1 Hg) as (r & P' & E & Hr). exists r, P'. split; [|done].
    by rewrite (stM_bind_val _ _ _ _ _ E1).
  - destruct (read_powered_at n m P g d v σ L c _ Hl Hrest Hb) as (P1 & E1 & Hrest1).
    exists (Fail e), P1. split; [|split; [by left|by exists v, σ, L]].
    unfold mbind, stM_bind. by rewrite E1.
  - destruct (IH P g v L Hrest Hg) as (r & P' & E & Hr). unfold mbind, stM_bind. rewrite E.
    destruct r as [b|e| |]; [|by eexists _, _|done..].
    eexists _, _. split; [done|]. destruct Hr as (m' & g' & d' & Hb & Hh & Hgd).
    exists m', g', d'. auto.
Qed.

End Programs.

(** What a next boot finds of an operation that may answer [R]. *)
Section ProgramCrash.
Context {D : Type} `{!BlockDevice D, !DeviceLaws D}.

Definition found n g d {A} (R : A -> database -> Prop) (r : Result A) (d2 : D) : Prop :=
  exists P2 m2, Pager.mount d2 = Val P2 /\
    ((holds n m2 P2 g d /\ forall b, r <> Val b) \/
     exists a g' d', R a d' /\ holds n m2 P2 g' d' /\ (g' = g + 1 \/ g' = g /\ d' = d) /\
       forall b, r = Val b -> b = a).

Lemma resting_keeps n m (P : Pager.t VolatileDisk.t) g d v σ L : resting n m P g d v σ L -> keeps n m P.
Proof. intros (_ & Htx & _). destruct (tx_dev _ _ _ _ Htx) as (? & ? & _ & ?). by split_and!. Qed.

(** A read, interrupted or not. *)
Lemma read_crash_at {A} n m (P : Pager.t VolatileDisk.t) g d v σ L
    (c : stM (Pager.t VolatileDisk.t) StoreError A) r : resting n m P g d v σ L -> returns n m σ c r ->
  exists r' P', c P = (r', P') /\
    ((r' = r /\ resting n m P' g d v σ L) \/ ((exists e, r' = Fail e) /\ keeps n m P')).
Proof.
  intros Hrest Hc. pose proof Hrest as (Hv & Htx & Hst & Hh & Hr & Hg).
  destruct (Hc v Hh P Htx) as [(r' & P' & v' & E & Htx' & -> & ->)|(_ & P' & E & Hk)].
  - exists r, P'. split; [done|]. left. by split.
  - eexists _, P'. split; [exact E|]. right. split; [by eexists|done].
Qed.

Lemma prog_crash {A} n m σ d err (R : A -> database -> Prop) c :
  prog_ok (D:=VolatileDisk.t) n m σ d err R c ->
  forall (P P1 : Pager.t VolatileDisk.t) g v L r x y (d2 : D),
  resting n m P g d v σ L -> g + 1 < 2 ^ 64 -> c P = (r, P1) ->
  VolatileDisk.survives (Pager.dev P1) x -> failed_recoveries n x y -> powered_on n y d2 ->
  found n g d R r d2.
Proof.
  intros Hc. induction Hc as [A R body Hb|A R a Ha|A R e He|A B R c f b Hb _ IH|A B R c f e Hb He|
    A B R R' c f _ IH HR]; intros P P1 g v L r x y d2 Hrest Hg E Hx Hy H2;
    assert (Hold : holds n m P g d) by (by exists v, σ, L).
  - assert (Eg : hs_gen σ = g) by apply Hrest. rewrite Eg in Hb.
    destruct (tx_crash_at n m P P1 g d v σ L body R err r x y d2 Hrest Hg Hb E Hx Hy H2)
      as (P2 & m2 & Em & Hcase).
    exists P2, m2. split; [done|]. destruct Hcase as [?|(a & d' & Ha & Hh & Hr)]; [by left|right].
    exists a, (g + 1), d'. auto.
  - injection E as <- <-. destruct (reboot_old n m P P g d x y d2) as (P2 & m2 & Em & Hh2); try done.
    { by eapply resting_keeps. }
    exists P2, m2. split; [done|]. right. exists a, g, d. split_and!; [done|done|by right|congruence].
  - injection E as <- <-. destruct (reboot_old n m P P g d x y d2) as (P2 & m2 & Em & Hh2); try done.
    { by eapply resting_keeps. }
    exists P2, m2. split; [done|]. by left.
  - destruct (read_crash_at n m P g d v σ L c _ Hrest Hb) as (r' & P' & E' & Hcase).
    unfold mbind, stM_bind in E. rewrite E' in E. destruct Hcase as [[-> Hrest']|[[e ->] Hk]].
    + by eapply IH.
    + injection E as <- <-. destruct (reboot_old n m P P' g d x y d2) as (P2 & m2 & Em & Hh2); try done.
      exists P2, m2. split; [done|]. by left.
  - destruct (read_crash_at n m P g d v σ L c _ Hrest Hb) as (r' & P' & E' & Hcase).
    assert (Hk : keeps n m P' /\ exists e', r' = Fail e').
    { destruct Hcase as [[-> Hrest']|[[e' ->] Hk]]; [|by eauto]. split; [by eapply resting_keeps|by eexists]. }
    destruct Hk as [Hk [e' ->]]. unfold mbind, stM_bind in E. rewrite E' in E. injection E as <- <-.
    destruct (reboot_old n m P P' g d x y d2) as (P2 & m2 & Em & Hh2); try done.
    exists P2, m2. split; [done|]. by left.
  - unfold mbind, stM_bind in E. destruct (c P) as [r0 P0] eqn:E0.
    assert (P0 = P1) as -> by (destruct r0; by injection E).
    destruct (IH P P1 g v L r0 x y d2 Hrest Hg E0 Hx Hy H2) as (P2 & m2 & Em & Hcase).
    exists P2, m2. split; [done|]. destruct Hcase as [[Hh Hno]|(b & g' & d' & Hb & Hh & Hgd & Hr)].
    + left. split; [done|]. intros b ->. destruct r0 as [a|e| |]; [by eapply Hno|done..].
    + right. exists (f b), g', d'. split_and!; [by apply HR|done|done|].
      intros b' ->. destruct r0 as [a|e| |]; [|done..]. injection E as <-. by rewrite (Hr a eq_refl).
Qed.

End ProgramCrash.
