(* ===== verification/EditRefine.v ===== *)
(** * The schema edits refine their specification

    The transactions of [Store] that change a table's schema: each rewrites
    the rows, the schema and the catalog as [Edits] says, or is refused as it
    says, or runs out of space. *)

From stdpp Require Import gmap.
From S2P Require Import Prelude Types Bignum Value ValueFacts Codec Schema Block Journal JournalFacts.
From S2P Require Import Pager PagerFacts Store Database Integrity Edits.
From S2P Require Import StoreFacts Heap Refinement Transactions Operations StoreRuns.
Import Store.

(** ** Rows mapped one by one *)

(** The rows of the identifiers [done] mapped. *)
Definition map_done (f : row -> row) (done : list RowId.t) (pgs : list (Z * list (option row))) :
    list (Z * list (option row)) :=
  (fun '((p, l) : Z * list (option row)) => (p, imap (fun j (o : option row) =>
     if bool_decide (RowId.mk p (Z.of_nat j) ∈ done) then option_map f o else o) l)) <$> pgs.

Section MapDone.
Context (f : row -> row) (pgs : list (Z * list (option row))).
Implicit Types (done : list RowId.t).

Lemma map_done_lookup done k p l : pgs !! k = Some (p, l) ->
  map_done f done pgs !! k = Some (p, imap (fun j o =>
    if bool_decide (RowId.mk p (Z.of_nat j) ∈ done) then option_map f o else o) l).
Proof. intros Hk. unfold map_done. by rewrite list_lookup_fmap, Hk. Qed.

Lemma map_done_inv done k p l' : map_done f done pgs !! k = Some (p, l') ->
  exists l, pgs !! k = Some (p, l) /\ forall j, RowId.mk p (Z.of_nat j) ∉ done -> l' !! j = l !! j.
Proof.
  unfold map_done. rewrite list_lookup_fmap. destruct (pgs !! k) as [[q l]|]; [|done].
  intros [= -> <-]. exists l. split; [done|]. intros j Hj. rewrite list_lookup_imap.
  rewrite bool_decide_eq_false_2 by done. by destruct (l !! j).
Qed.

Lemma map_done_nil : map_done f [] pgs = pgs.
Proof.
  unfold map_done. rewrite <- (list_fmap_id pgs) at 2. apply list_fmap_ext. intros _ [p l] _.
  cbn. f_equal. apply list_eq. intros j. rewrite list_lookup_imap. by destruct (l !! j).
Qed.

Lemma map_done_all done : (forall id r, (id, r) ∈ live pgs -> id ∈ done) ->
  map_done f done pgs = map_slots f pgs.
Proof.
  intros H. unfold map_done, map_slots. apply list_fmap_ext. intros k [p l] Hk. unfold prod_map. cbn.
  f_equal. apply list_eq. intros j. rewrite list_lookup_imap, list_lookup_fmap.
  destruct (l !! j) as [[r|]|] eqn:Hj; [|by cbn; case_bool_decide|done]. cbn.
  rewrite bool_decide_eq_true_2; [done|]. apply (H _ r), live_elem. by exists k, p, l, j.
Qed.

Lemma map_done_snoc done k p l j r : NoDup pgs.*1 -> pgs !! k = Some (p, l) -> l !! j = Some (Some r) ->
  RowId.mk p (Z.of_nat j) ∉ done ->
  exists l', map_done f done pgs !! k = Some (p, l') /\ l' !! j = Some (Some r) /\
    map_done f (done ++ [RowId.mk p (Z.of_nat j)]) pgs =
      <[k := (p, <[j := Some (f r)]> l')]> (map_done f done pgs).
Proof.
  intros Hnd Hk Hj Hnot. eexists. split; [by apply map_done_lookup|]. split.
  { rewrite list_lookup_imap, Hj. cbn. by rewrite bool_decide_eq_false_2. }
  assert (Hlk : (k < length pgs)%nat) by (by eapply lookup_lt_Some).
  assert (Hlj : (j < length l)%nat) by (by eapply lookup_lt_Some).
  apply list_eq. intros k'. destruct (decide (k' = k)) as [->|Hne].
  - rewrite list_lookup_insert_eq by (unfold map_done; by rewrite length_fmap).
    rewrite (map_done_lookup _ _ _ _ Hk). f_equal. f_equal. apply list_eq. intros j'.
    destruct (decide (j' = j)) as [->|Hnj].
    + rewrite list_lookup_insert_eq by (by rewrite length_imap).
      rewrite list_lookup_imap, Hj. cbn. rewrite bool_decide_eq_true_2; [done|].
      apply elem_of_app. right. by left.
    + rewrite list_lookup_insert_ne by done. rewrite !list_lookup_imap.
      destruct (l !! j') as [o|]; [|done]. cbn. f_equal.
      rewrite (bool_decide_ext (_ ∈ done ++ _) (RowId.mk p (Z.of_nat j') ∈ done)); [done|].
      rewrite elem_of_app, list_elem_of_singleton. split; [|by left]. intros [?|[= ?]]; [done|lia].
  - rewrite list_lookup_insert_ne by done. unfold map_done. rewrite !list_lookup_fmap.
    destruct (pgs !! k') as [[q l2]|] eqn:Hk'; [|done]. cbn. f_equal. f_equal. apply imap_ext.
    intros j' o _.
    rewrite (bool_decide_ext (_ ∈ done ++ _) (RowId.mk q (Z.of_nat j') ∈ done)); [done|].
    rewrite elem_of_app, list_elem_of_singleton. split; [|by left]. intros [?|[= -> ?]]; [done|].
    destruct Hne. eapply NoDup_lookup; [exact Hnd|by rewrite list_lookup_fmap, Hk'|].
    by rewrite list_lookup_fmap, Hk.
Qed.

End MapDone.

(** The live slots of an index, by their place. *)
Lemma index_rows_elem pgs id h : (id, h) ∈ index_rows pgs <->
  exists k p slots j, pgs !! k = Some (p, slots) /\ slots !! j = Some h /\ h <> 0 /\
    id = RowId.mk p (Z.of_nat j).
Proof.
  unfold index_rows. rewrite live_elem. split.
  - intros (k & p & l & j & Hk & Hj & ->). rewrite list_lookup_fmap in Hk.
    destruct (pgs !! k) as [[q slots]|] eqn:E; [|done]. injection Hk as -> <-.
    cbn in Hj. rewrite list_lookup_fmap in Hj. destruct (slots !! j) as [s|] eqn:Es; [|done].
    cbn in Hj. unfold slot_opt in Hj. destruct (Z.eqb_spec s 0); [done|]. injection Hj as ->.
    by exists k, p, slots, j.
  - intros (k & p & slots & j & Hk & Hj & Hh & ->). exists k, p, (slot_opt <$> slots), j.
    split_and!; [by rewrite list_lookup_fmap, Hk| |done].
    rewrite list_lookup_fmap, Hj. cbn. unfold slot_opt. by rewrite (proj2 (Z.eqb_neq h 0)).
Qed.

Lemma set_row_count_id e : CatEntry.set_row_count (CatEntry.row_count e - 0) e = e.
Proof. destruct e. unfold CatEntry.set_row_count. cbn. f_equal. lia. Qed.

(** ** The transaction of a schema edit *)

Section Rewrite.
Context {D : Type} `{!BlockDevice D, !DeviceLaws D}.
Context (n : Z) (m : medium) (σ : hstate) (L : layout) (d : database) (i : nat).
Context (x : CatEntry.t * index_pages) (t : dtable) (f : row -> row) (map : row -> Result row).
Hypothesis Hx : L !! i = Some x.
Hypothesis Ht : d !! i = Some t.
Hypothesis Hpages : NoDup (dt_pages t).*1.
Hypothesis Hmap : forall id r, (id, r) ∈ dt_rows t -> map r = Val (f r) /\ row_ok (f r).

(** The rows [done] rewritten, those of [todo] where they were. *)
Record rewriting (σ1 : hstate) (pgs : index_pages) (done : list RowId.t)
    (todo : list (RowId.t * Z)) : Prop := {
  rw_body : body (hs_heap σ1) (hs_catalog σ) (<[i := (x.1, pgs)]> L)
    (<[i := set_pages (map_done f done (dt_pages t)) t]> d);
  rw_catalog : hs_catalog σ1 = hs_catalog σ;
  rw_gen : hs_gen σ1 = hs_gen σ;
  rw_todo y : y ∈ todo -> y ∈ index_rows pgs
}.

Lemma rewrite_row_spec σ1 pgs done id h todo (Q : Result unit -> hstate -> Prop) :
  rewriting σ1 pgs done ((id, h) :: todo) -> id ∉ done -> id ∉ todo.*1 ->
  (forall σ2 pgs', rewriting σ2 pgs' (done ++ [id]) todo -> Q (Val tt) σ2) ->
  (forall σ2, Q (Fail OutOfSpace) σ2) ->
  hwp (D:=D) n m σ1 (rewrite_row map id h) Q.
Proof.
  intros [Hb Ec Eg Htodo] Hnd Hnt HV HF.
  set (L1 := <[i := (x.1, pgs)]> L) in *. set (d1 := <[i := set_pages _ t]> d) in *.
  assert (Hx1 : L1 !! i = Some (x.1, pgs)) by (apply list_lookup_insert_eq; by eapply lookup_lt_Some).
  assert (Ht1 : d1 !! i = Some (set_pages (map_done f done (dt_pages t)) t))
    by (apply list_lookup_insert_eq; by eapply lookup_lt_Some).
  pose proof (Forall2_lookup_lr _ _ _ _ _ _ (bd_tables _ _ _ _ Hb) Hx1 Ht1) as Hxt.
  pose proof (tr_data _ _ _ Hxt) as Hdh. cbn [fst snd] in Hdh. set (dh := CatEntry.data_head x.1) in *.
  destruct (proj1 (index_rows_elem pgs id h) (Htodo _ ltac:(by left))) as (k & p & slots & j & Hk & Hj & Hh0 & ->).
  destruct (Forall2_lookup_l _ _ _ _ _ (tr_pages _ _ _ Hxt) Hk) as ([q l'] & Hq & Eq & Hs).
  cbn in Eq, Hs, Hq. subst q. destruct (Forall2_lookup_l _ _ _ _ _ Hs Hj) as (o & Ho & Hso).
  destruct o as [r|]; [|done].
  destruct (map_done_inv _ _ _ _ _ _ Hq) as (l & Hl & Hsame). rewrite Hsame in Ho by done.
  destruct (map_done_snoc f (dt_pages t) done k p l j r Hpages Hl Ho Hnd) as (l2 & Hl2 & Hj2 & Edone).
  rewrite Hq in Hl2. injection Hl2 as <-.
  destruct (Hmap (RowId.mk p (Z.of_nat j)) r) as [Em Hok]; [apply live_elem; by exists k, p, l, j|].
  pose proof Hso as (_ & _ & Hhb & _). unfold rewrite_row.
  eapply hwp_read; [by apply returns_row_at|]. cbn beta iota.
  eapply hwp_read; [apply returns_lift|]. rewrite Em. cbn beta iota.
  apply hwp_bind, (hwp_free_chain _ _ _ _ _ _ Hhb).
  apply hwp_known. intros _ Hn. apply hwp_bind, hwp_write_chain; [|apply HF].
  intros s Hsn Hhome. cbn [hs_upd hs_heap] in Hsn.
  assert (Hsu : s <> 0 /\ is_u64 s) by (destruct Hhome; unfold is_u64; slia).
  assert (N1 : h <> dh) by (intros ->; congruence).
  assert (N2 : s <> dh) by (intros ->; rewrite lookup_delete_ne in Hsn by done; congruence).
  cbn [RowId.index_page RowId.slot].
  eapply (hwp_index_set _ _ _ dh pgs k p slots);
    [cbn; by rewrite lookup_insert_ne, lookup_delete_ne|done|by eapply lookup_lt_Some|apply Hsu|].
  apply (HV _ (<[k := (p, <[j := s]> slots)]> pgs)). split; cbn [hs_upd hs_heap hs_catalog hs_gen]; try done.
  - pose proof (table_set_row _ _ _ _ i (x.1, pgs) _ k p slots l' j h r s (Some (f r)) _ Hb Hx1 Ht1
      Hk Hj Hh0 Hq Hj2 (conj Hsn (conj (proj1 Hsu) (conj (proj2 Hsu) Hok))) eq_refl) as Hb2.
    cbn [fst snd dt_pages set_pages] in Hb2. rewrite set_row_count_id in Hb2.
    unfold set_row_heap, L1, d1 in Hb2. rewrite !list_insert_insert_eq, <- Edone in Hb2. exact Hb2.
  - intros [id2 h2] Hy. pose proof (Htodo (id2, h2) ltac:(by right)) as Hin.
    destruct (index_rows_update pgs k p slots j h Hk Hj) as (a & b & Hab).
    pose proof (Hab h) as Eold. rewrite (list_insert_id slots j h Hj), (list_insert_id pgs k _ Hk) in Eold.
    rewrite Eold in Hin. rewrite Hab. unfold slot_opt in Hin. rewrite (proj2 (Z.eqb_neq h 0) Hh0) in Hin.
    cbn [live_slot app] in Hin. rewrite elem_of_app, elem_of_cons in Hin. rewrite !elem_of_app.
    destruct Hin as [?|[[= -> ->]|?]]; [by left| |by right; right].
    destruct Hnt. apply list_elem_of_fmap. by exists (RowId.mk p (Z.of_nat j), h).
Qed.

Lemma rewrite_rows_spec (Q : Result unit -> hstate -> Prop) todo : forall σ1 pgs done,
  rewriting σ1 pgs done todo -> NoDup (done ++ todo.*1) ->
  (forall σ2 pgs', rewriting σ2 pgs' (done ++ todo.*1) [] -> Q (Val tt) σ2) ->
  (forall σ2, Q (Fail OutOfSpace) σ2) ->
  hwp (D:=D) n m σ1 (for_each todo (fun '(id, h) => rewrite_row map id h)) Q.
Proof.
  induction todo as [|[id h] todo IH]; intros σ1 pgs done Hrw Hnd HV HF.
  { apply hwp_ret. eapply HV. cbn. rewrite app_nil_r. exact Hrw. }
  cbn [fmap list_fmap fst] in Hnd, HV. pose proof Hnd as Hnd'. apply NoDup_app in Hnd' as (_ & Hdisj & Hn2).
  apply NoDup_cons in Hn2 as [Hnt _].
  cbn [for_each]. apply hwp_bind. eapply rewrite_row_spec; [exact Hrw| |done| |done].
  { intros Hin. apply (Hdisj id Hin). left. }
  intros σ2 pgs' Hrw'. eapply IH; [exact Hrw'|by rewrite <- app_assoc| |done].
  intros σ3 pgs3 H3. eapply HV. rewrite <- app_assoc in H3. exact H3.
Qed.

End Rewrite.

Lemma catalog_room_names d d' : dt_name <$> d' = dt_name <$> d -> catalog_room d -> catalog_room d'.
Proof.
  intros E. unfold catalog_room.
  assert (Es : forall k : database, sum_list_with (fun t => length (dt_name t) + 40)%nat k =
    sum_list_with (fun b : bytes => length b + 40)%nat (dt_name <$> k)).
  { induction k as [|u k IH]; [done|]. cbn. by rewrite IH. }
  by rewrite !Es, E.
Qed.

Lemma stored_ids H rows rows' : Forall2 (stored_row H) rows rows' -> rows.*1 = rows'.*1.
Proof. induction 1 as [|y y' rows rows' [E _] _ IH]; [done|]. cbn. by rewrite E, IH. Qed.

Section PutSchema.
Context {D : Type} `{!BlockDevice D, !DeviceLaws D}.
Context (n : Z) (m : medium) (σ : hstate) (L : layout) (d : database).
Hypothesis Hrepr : repr σ L d.
Abbreviation hwp := (hwp (D:=D) n m).

(** What the closures of an edit must be on the table. *)
Record edit_ok (mutate : Table.t -> Result Table.t) (rw : option (row -> Result row))
    (f : row -> row) (t : dtable) : Prop := {
  eo_abort : no_abort (mutate (dt_schema t));
  eo_schema s : mutate (dt_schema t) = Val s -> Table.name s = dt_name t /\ TableFacts.table_ok s;
  eo_rows s : mutate (dt_schema t) = Val s -> match rw with
    | None => f = id
    | Some map => forall rid r, (rid, r) ∈ dt_rows t -> map r = Val (f r) /\ row_ok (f r)
    end
}.

Lemma put_schema_end i x t pgs s qs σ1 g : L !! i = Some x -> d !! i = Some t ->
  body (hs_heap σ1) (hs_catalog σ) (<[i := (x.1, pgs)]> L) (<[i := set_pages qs t]> d) ->
  hs_catalog σ1 = hs_catalog σ -> hs_gen σ1 = g ->
  Table.name s = dt_name t -> TableFacts.table_ok s ->
  hwp σ1 (new ← write_chain (Table.encode s); _ ← free_chain (CatEntry.schema_head x.1);
          store_catalog (alter (CatEntry.set_schema_head new) i L.*1))
    (reaches (fun _ _ d' => d' = <[i := mk_dtable s qs]> d) (fun _ => False) g).
Proof.
  intros Hx Ht Hb Ec Eg En Hok. rewrite <- Ec in Hb.
  set (L1 := <[i := (x.1, pgs)]> L) in *. set (d1 := <[i := set_pages qs t]> d) in *.
  assert (Hx1 : L1 !! i = Some (x.1, pgs)) by (apply list_lookup_insert_eq; by eapply lookup_lt_Some).
  assert (Ht1 : d1 !! i = Some (set_pages qs t)) by (apply list_lookup_insert_eq; by eapply lookup_lt_Some).
  pose proof (Forall2_lookup_lr _ _ _ _ _ _ (bd_tables _ _ _ _ Hb) Hx1 Ht1) as Hxt.
  pose proof (tr_schema _ _ _ Hxt) as Hsh. cbn [fst] in Hsh.
  apply hwp_known. intros _ Hn. apply hwp_bind, hwp_write_chain; [|by right]. intros nh Hnh Hhome.
  assert (Hu : is_u64 nh) by (destruct Hhome; unfold is_u64; slia).
  apply hwp_bind. eapply hwp_free_chain.
  { cbn. rewrite lookup_insert_ne; [exact Hsh|]. intros E. rewrite E in Hnh. congruence. }
  rewrite (alter_entry L i x _ pgs) by done.
  pose proof (table_set_schema _ _ _ _ i _ _ nh s Hb Hx1 Ht1 Hnh Hu En Hok) as Hb2.
  cbn [fst snd dt_pages set_pages] in Hb2. unfold L1, d1 in Hb2. rewrite !list_insert_insert_eq in Hb2.
  eapply (hwp_store_catalog (D:=D)); [exact Hb2| | |by right].
  - eapply catalog_room_insert; [done|exact En|apply Hrepr].
  - intros σ' Hr Hw Hg. eexists _, _. split_and!; [exact Hr|done|done|]. by rewrite Hg.
Qed.

Lemma put_schema_body_spec name mutate rw f : integrity d ->
  (forall i t, find_table d name = Val i -> d !! i = Some t -> edit_ok mutate rw f t) ->
  hwp σ (put_schema_body name mutate rw)
    (reaches (fun _ _ d' => spec_alter d name mutate f = Val d')
       (fun e => spec_alter d name mutate f = Fail e) (hs_gen σ)).
Proof.
  intros Hint Hedit. unfold put_schema_body. eapply hwp_on_table; [done| |].
  2:{ intros e He. left. unfold spec_alter. by rewrite He. }
  intros i x t Hi Hx Ht Hxt. destruct (Hedit i t Hi Ht) as [[N1 N2] Hsch Hrows].
  assert (Es : spec_alter d name mutate f =
    (s ← mutate (dt_schema t); Val (<[i := edit_table s f t]> d))).
  { unfold spec_alter, table_at. rewrite Hi. cbn [mbind outcome_bind]. by rewrite Ht. }
  eapply hwp_then; [by eapply returns_schema_of|].
  eapply hwp_guard; [apply returns_lift|done..| |].
  2:{ intros e He. left. by rewrite Es, He. }
  intros s Hs. rewrite Hs in Es. cbn [mbind outcome_bind] in Es.
  destruct (Hsch s Hs) as [En Hok]. specialize (Hrows s Hs). pose proof (repr_body _ _ _ Hrepr) as Hb.
  assert (Hend : forall σ1 pgs, rewriting σ L d i x t f σ1 pgs (dt_rows t).*1 [] ->
    hwp σ1 (new ← write_chain (Table.encode s); _ ← free_chain (CatEntry.schema_head x.1);
            store_catalog (alter (CatEntry.set_schema_head new) i L.*1))
      (reaches (fun _ _ d' => spec_alter d name mutate f = Val d')
         (fun e => spec_alter d name mutate f = Fail e) (hs_gen σ))).
  { intros σ1 pgs [Hb1 Ec Eg _]. rewrite map_done_all in Hb1.
    2:{ intros rid r Hr. apply list_elem_of_fmap. by exists (rid, r). }
    eapply hwp_conseq; [by eapply put_schema_end|]. intros [[]|e| |] σ'; [|by intros [?|?]; [|right]|done..].
    intros (L' & d' & Hr' & -> & Hw & Hg). exists L', (<[i := edit_table s f t]> d). by rewrite Es. }
  pose proof (stored_ids _ _ _ (table_rows_repr _ _ _ Hxt)) as Eids.
  assert (Hx0 : (x.1, x.2) = x) by (by destruct x). assert (Ht0 : set_pages (dt_pages t) t = t) by (by destruct t).
  pose proof (ti_pages d t (in_tables d Hint i t Ht)) as Hpg.
  destruct rw as [map|].
  - apply hwp_bind. eapply hwp_then; [by eapply returns_rows|].
    eapply (rewrite_rows_spec n m σ L d i x t f map Hx Ht) with (pgs := x.2) (done := []);
      [exact Hpg|exact Hrows| | | |by right].
    + split; [|done|done|done]. by rewrite Hx0, map_done_nil, Ht0, !list_insert_id.
    + cbn [app]. rewrite Eids. by apply live_nodup.
    + cbn [app]. rewrite Eids. intros σ2 pgs' H2. by eapply Hend.
  - subst f. apply hwp_bind, hwp_ret. apply (Hend σ x.2). split; [|done|done|by intros ? ?%elem_of_nil].
    rewrite map_done_all by (intros rid r Hr; apply list_elem_of_fmap; by exists (rid, r)).
    by rewrite Hx0, map_slots_id, Ht0, !list_insert_id.
Qed.

End PutSchema.

(** ** Names of new foreign keys *)

Lemma fk_name_loop_finds from_col existing : len existing < 2 ^ 30 ->
  forall fuel base n (tried : list bytes),
  2 <= n -> n + Z.of_nat fuel < 2 ^ 31 ->
  NoDup (base :: tried) -> (forall b, b ∈ tried -> b ∈ existing) ->
  (forall k, n <= k < 2 ^ 31 -> from_col ++ str "_fk" ++ fmt_u64 k ∉ base :: tried) ->
  (length existing < fuel + length tried)%nat ->
  exists name, fk_name_loop fuel from_col base existing n = Val name.
Proof.
  intros He fuel. induction fuel as [|fuel IH]; intros base n tried Hn Hf Hnd Htr Hnew Hlen.
  - exfalso. apply NoDup_cons in Hnd as [_ Hnd].
    assert (Hsub : tried ⊆+ existing) by (by apply NoDup_submseteq). apply submseteq_length in Hsub. lia.
  - cbn [fk_name_loop]. destruct (existsb (str_eqb base) existing) eqn:E; [|by eexists]. cbn [negb].
    apply existsb_exists in E as (b & Hb%list_elem_of_In & ->%str_eqb_eq).
    unfold add_i32. rewrite (proj2 (Z.ltb_lt _ _)) by lia. cbn [mbind outcome_bind].
    apply (IH _ _ (b :: tried)); [lia|lia| | | |cbn [length]; lia].
    + constructor; [|done]. apply Hnew. lia.
    + intros b' [->|Hb']%elem_of_cons; [done|by apply Htr].
    + intros k Hk Hin. apply elem_of_cons in Hin as [Hin|Hin].
      * apply (inj (app from_col)), (inj (app (str "_fk"))), fmt_u64_inj in Hin; lia.
      * revert Hin. apply Hnew. lia.
Qed.

Lemma fk_name_finds from_col existing : len existing < 2 ^ 30 ->
  exists name, fk_name from_col existing = Val name.
Proof.
  intros He. unfold fk_name. apply (fk_name_loop_finds from_col existing He _ _ _ []); try lia.
  - apply NoDup_singleton.
  - by intros b ?%elem_of_nil.
  - intros k Hk Hin. apply list_elem_of_singleton in Hin. rewrite <- (app_nil_r (str "_fk")) in Hin at 2.
    apply (inj (app from_col)), (inj (app (str "_fk"))) in Hin.
    destruct (fmt_u64_digits k ltac:(lia)) as (ds & E & _ & Hne & _). rewrite E in Hin. by destruct ds.
Qed.

(** ** Moving cells *)

Lemma permute_loop_spec original : forall perm k cells, length cells = length original ->
  Forall (fun j => j < length original)%nat perm -> (k + length perm = length original)%nat ->
  permute_loop k perm original cells = Val (take k cells ++ pick perm original).
Proof.
  induction perm as [|j perm IH]; intros k cells Hl Hp Hk.
  - cbn. unfold pick. cbn. rewrite app_nil_r, take_ge; [done|]. cbn in Hk. lia.
  - apply Forall_cons in Hp as [Hj Hp]. cbn [length] in Hk. cbn [permute_loop].
    destruct (lookup_lt_is_Some_2 original j Hj) as [v Hv]. rewrite Hv.
    destruct (lookup_lt_is_Some_2 cells k) as [w Hw]; [lia|]. rewrite Hw. cbn [or_panic mbind outcome_bind].
    rewrite IH; [|by rewrite length_insert|done|lia]. f_equal.
    rewrite (take_S_r _ k v) by (by apply list_lookup_insert_eq; lia).
    rewrite take_insert_ge by lia. rewrite <- app_assoc. f_equal. unfold pick. cbn. by rewrite Hv.
Qed.

Lemma permute_pick n old new (r : row) : (old < n)%nat -> length r = n ->
  permute n (move_order n old new) r = Val (pick (move_order n old new) r).
Proof.
  intros Ho Hl. unfold permute. rewrite resize_all_alt by done.
  rewrite (permute_loop_spec r _ 0 r); [done|done| |].
  - rewrite Hl. by apply move_order_lt.
  - cbn. rewrite (Permutation_length (move_order_perm n old new Ho)), length_seq. done.
Qed.

Lemma move_perm_order n old new : (old < n)%nat -> (new < n)%nat ->
  move_perm n old new = Val (move_order n old new).
Proof.
  intros Ho Hn. unfold move_perm, move_order. rewrite lookup_seq_lt by done. cbn [or_panic mbind outcome_bind].
  unfold insert_at. rewrite (proj2 (Nat.leb_le _ _)); [done|].
  rewrite length_delete, length_seq; [lia|]. rewrite lookup_seq_lt by done. by eexists.
Qed.

(** ** Renaming a column in every schema *)

Lemma rename_str_other old new b : str_eqb b old = false -> rename_str old new b = b.
Proof. unfold rename_str. by intros ->. Qed.

Lemma fmap_same {A} (g : A -> A) (l : list A) : (forall a, a ∈ l -> g a = a) -> g <$> l = l.
Proof.
  intros H. rewrite <- (list_fmap_id l) at 2. apply list_fmap_ext. intros i a Ha. apply H.
  by eapply list_elem_of_lookup_2.
Qed.

(** A schema that does not mention the column stays. *)
Lemma rename_in_same table old new owns t :
  (rename_in table old new owns t).2 = false -> (rename_in table old new owns t).1 = t.
Proof.
  unfold rename_in. cbn [fst snd]. intros [H1 H2]%orb_false_iff. rewrite existsb_false in H2.
  assert (Ef : (fun f => ForeignKey.mk (ForeignKey.name f)
      (if owns then rename_str old new (ForeignKey.from_col f) else ForeignKey.from_col f)
      (ForeignKey.to_table f)
      (if str_eqb (ForeignKey.to_table f) table then rename_str old new (ForeignKey.to_col f)
       else ForeignKey.to_col f)) <$> Table.fks t = Table.fks t).
  { apply fmap_same. intros [nm fc tt tc] Hf. specialize (H2 _ Hf). cbn in *.
    apply orb_false_iff in H2 as [E1 E2]. f_equal.
    - destruct owns; [|done]. by apply rename_str_other.
    - destruct (str_eqb tt table); [|done]. by apply rename_str_other. }
  rewrite Ef. destruct owns; [|by destruct t]. cbn [andb] in H1. apply orb_false_iff in H1 as [H1 H3].
  rewrite existsb_false in H1. rewrite existsb_false in H3.
  rewrite (fmap_same _ (Table.ref_cols t)) by (intros b Hb; by apply rename_str_other, H3).
  rewrite fmap_same; [by destruct t|]. intros [nm ty nl un w] Hc. specialize (H1 _ Hc). cbn in *.
  by rewrite rename_str_other.
Qed.

Lemma fmap_step {A} (g : A -> A) (l : list A) k u : l !! k = Some u ->
  <[k := g u]> (take k (g <$> l) ++ drop k l) = take (S k) (g <$> l) ++ drop (S k) l.
Proof.
  intros Hu. pose proof (lookup_lt_Some _ _ _ Hu) as Hk.
  assert (Hl : length (take k (g <$> l)) = k) by (rewrite length_take, length_fmap; lia).
  rewrite (drop_S l u k Hu). rewrite <- Hl at 1. rewrite <- (Nat.add_0_r (length (take k (g <$> l)))), insert_app_r. cbn.
  rewrite (take_S_r _ k (g u)) by (by rewrite list_lookup_fmap, Hu). by rewrite <- app_assoc.
Qed.

Lemma step_lookup {A} (g : A -> A) (l : list A) k u : l !! k = Some u ->
  (take k (g <$> l) ++ drop k l) !! k = Some u.
Proof.
  intros Hu. pose proof (lookup_lt_Some _ _ _ Hu) as Hk.
  rewrite lookup_app_r; rewrite length_take, length_fmap; [|lia].
  rewrite lookup_drop. rewrite <- Hu. f_equal. lia.
Qed.

(** A database whose rows and schemas fit their encodings. *)
Definition fits (d : database) : Prop :=
  forall i t, d !! i = Some t -> TableFacts.table_ok (dt_schema t) /\ forall id r, (id, r) ∈ dt_rows t -> row_ok r.

Section Rename.
Context {D : Type} `{!BlockDevice D, !DeviceLaws D}.
Context (n : Z) (m : medium) (d : database) (c : Z) (g : Z) (table old new : bytes).
Abbreviation ren := (rename_table table old new).
Hypothesis Hfits : fits (ren <$> d).

Lemma rename_loop_spec (Q : Result (list CatEntry.t) -> hstate -> Prop) : forall idxs k σ1 L1,
  idxs = seq k (length d - k) -> (k <= length d)%nat ->
  body (hs_heap σ1) c L1 (take k (ren <$> d) ++ drop k d) -> hs_catalog σ1 = c -> hs_gen σ1 = g ->
  (forall σ2 L2, body (hs_heap σ2) c L2 (ren <$> d) -> hs_catalog σ2 = c -> hs_gen σ2 = g ->
     Q (Val L2.*1) σ2) ->
  (forall σ2, Q (Fail OutOfSpace) σ2) ->
  hwp (D:=D) n m σ1 (rename_loop table old new idxs L1.*1) Q.
Proof.
  induction idxs as [|idx idxs IH]; intros k σ1 L1 Ei Hk Hb Ec Eg HV HF.
  { assert (k = length d) as -> by (apply (f_equal length) in Ei; rewrite length_seq in Ei; cbn in Ei; lia).
    apply hwp_ret, HV; [|done..]. rewrite drop_ge, app_nil_r, take_ge in Hb; [done|by rewrite length_fmap|done]. }
  destruct (length d - k)%nat as [|rest] eqn:El; [done|]. injection Ei as -> ->.
  destruct (lookup_lt_is_Some_2 d k) as [u Hu]; [lia|].
  pose proof (step_lookup ren d k u Hu) as Hdk.
  destruct (Forall2_lookup_r _ _ _ _ _ (bd_tables _ _ _ _ Hb) Hdk) as (x & Hx & Hxu).
  cbn [rename_loop]. eapply hwp_read; [by apply returns_entry|]. cbn beta iota.
  eapply hwp_read; [by eapply returns_schema_of|]. cbn beta iota. rewrite (tr_name _ _ _ Hxu).
  destruct (rename_in table old new (str_eqb (dt_name u) table) (dt_schema u)) as [ot' changed] eqn:Er.
  assert (Eren : ren u = mk_dtable ot' (dt_pages u)) by (unfold rename_table; by rewrite Er).
  assert (Ename : Table.name ot' = dt_name u) by (change ot' with (ot', changed).1; by rewrite <- Er).
  pose proof (fmap_step ren d k u Hu) as Estep. destruct changed.
  - destruct (Hfits k (ren u)) as [Hok _]; [by rewrite list_lookup_fmap, Hu|]. rewrite Eren in Hok. cbn in Hok.
    apply hwp_known. intros _ Hn. apply hwp_bind, hwp_write_chain; [|apply HF]. intros nh Hnh Hhome.
    assert (Hnu : is_u64 nh) by (destruct Hhome; unfold is_u64; slia).
    apply hwp_bind. eapply hwp_free_chain.
    { cbn. rewrite lookup_insert_ne; [apply (tr_schema _ _ _ Hxu)|]. intros E. rewrite E in Hnh.
      pose proof (tr_schema _ _ _ Hxu). congruence. }
    rewrite (alter_entry L1 k x _ x.2) by done.
    apply (IH (S k)); [f_equal; lia|lia| |done..].
    cbn [hs_heap hs_upd]. rewrite <- Estep, Eren. by apply table_set_schema.
  - apply (IH (S k)); [f_equal; lia|lia| |done..]. rewrite <- Estep.
    assert (Esame : ren u = u).
    { pose proof (rename_in_same table old new (str_eqb (dt_name u) table) (dt_schema u)) as Hs.
      rewrite Er in Hs. specialize (Hs eq_refl). cbn in Hs. rewrite Eren, Hs. by destruct u. }
    rewrite Esame, list_insert_id; done.
Qed.

End Rename.

(** ** The operations *)

(** What the caller must respect: the edited database fits its encodings, and
    there are not so many foreign keys that the numbers of their names run
    out of an [i32]. *)
Definition edit_fits (d : database) (e : edit) : Prop :=
  (forall d', spec_edit d e = Val d' -> fits d') /\
  match e with
  | AddFk table _ _ _ => forall t, spec_table d table = Val t -> len (Table.fks (dt_schema t)) < 2 ^ 30
  | _ => True
  end.

Definition run_edit {D} `{!BlockDevice D} (e : edit) : stM (Pager.t D) StoreError unit :=
  match e with
  | AddColumn table col => add_column table col
  | DropColumn table col => drop_column table col
  | MoveColumn table col new => move_column table col new
  | RenameColumn table old new => rename_column table old new
  | SetUnique table col unique => set_unique table col unique
  | AddFk table from_col to_table to_col => add_fk table from_col to_table to_col
  | DropFk table fk => drop_fk table fk
  | SetRefs table cols => set_reference_columns table cols
  | SetWidth table col width => set_display_width table col width
  end.

Section Programs.
Context {D : Type} `{!BlockDevice D, !DeviceLaws D}.
Context (n : Z) (m : medium) (σ : hstate) (L : layout) (d : database).
Hypothesis Hrepr : repr σ L d.
Hypothesis Hint : integrity d.
Abbreviation M := (stM (Pager.t D) StoreError) (only parsing).

(** An operation that takes the outcome of its specification. *)
Definition meets (spec : Result database) (c : M unit) : Prop :=
  prog_ok n m σ d (fun e => spec = Fail e) (fun _ d' => spec = Val d') c.

Lemma meets_table spec name (f : list CatEntry.t -> nat -> CatEntry.t -> Table.t -> M unit) :
  (forall i x t, find_table d name = Val i -> L !! i = Some x -> d !! i = Some t ->
     table_repr (hs_heap σ) x t -> meets spec (f L.*1 i x.1 (dt_schema t))) ->
  (forall e, find_table d name = Fail e -> spec = Fail e) ->
  meets spec (cat ← load_catalog; i ← lift (cat_index cat name); e ← entry cat i; t ← schema_of e; f cat i e t).
Proof.
  intros Hf HF. eapply ok_read; [by eapply returns_load_catalog|]. cbn beta iota.
  eapply prog_guard; [by eapply returns_cat_index|by apply find_table_no_abort|exact HF|].
  intros i Hi. destruct (find_table_val _ _ _ Hi) as (t & Ht & _).
  destruct (repr_table _ _ _ _ _ Hrepr Ht) as (x & Hx & Hxt).
  eapply ok_read; [by apply returns_entry|]. eapply ok_read; [by eapply returns_schema_of|]. by eapply Hf.
Qed.

Lemma meets_guard {A} spec (c : M A) (f : A -> M unit) r : returns n m σ c r -> no_abort r ->
  (forall e, r = Fail e -> spec = Fail e) -> (forall a, r = Val a -> meets spec (f a)) ->
  meets spec (c ≫= f).
Proof. apply prog_guard. Qed.

Lemma meets_fail spec e : spec = Fail e -> meets spec (lift (Fail e)).
Proof. intros H. by apply ok_fail. Qed.

Lemma meets_put name mutate rw f :
  (forall i t, find_table d name = Val i -> d !! i = Some t -> edit_ok mutate rw f t) ->
  meets (spec_alter d name mutate f) (put_schema name mutate rw).
Proof. intros H. apply ok_tx. by apply (put_schema_body_spec n m σ L d Hrepr). Qed.

Lemma edit_ok_fits name mutate rw f i t : find_table d name = Val i -> d !! i = Some t ->
  (forall d', spec_alter d name mutate f = Val d' -> fits d') ->
  no_abort (mutate (dt_schema t)) ->
  (forall s, mutate (dt_schema t) = Val s -> Table.name s = dt_name t) ->
  match rw with
  | None => f = id
  | Some map => forall rid r, (rid, r) ∈ dt_rows t -> map r = Val (f r)
  end -> edit_ok mutate rw f t.
Proof.
  intros Hi Ht Hfits Hna Hname Hrw.
  assert (Ha : forall s, mutate (dt_schema t) = Val s -> spec_alter d name mutate f = Val (<[i := edit_table s f t]> d)).
  { intros s Hs. unfold spec_alter, table_at. rewrite Hi. cbn [mbind outcome_bind]. rewrite Ht. cbn. by rewrite Hs. }
  assert (Hl : forall s, <[i := edit_table s f t]> d !! i = Some (edit_table s f t))
    by (intros s; apply list_lookup_insert_eq; by eapply lookup_lt_Some).
  split; [done| |].
  - intros s Hs. split; [by apply Hname|]. by apply (Hfits _ (Ha s Hs) i _ (Hl s)).
  - intros s Hs. destruct rw as [map|]; [|done]. intros rid r Hr. split; [by eapply Hrw|].
    destruct (Hfits _ (Ha s Hs) i _ (Hl s)) as [_ Hrows]. apply (Hrows rid), elem_of_edit_rows. by exists r.
Qed.

(** The tables a foreign key keeps from changing. *)
Lemma returns_refuse_if_targeted table col why why' :
  (forall x u, table_repr (hs_heap σ) x u -> why x.1 = why' u) ->
  returns (D:=D) n m σ (refuse_if_targeted table col L.*1 why) (spec_targeted d table col why').
Proof.
  intros Hw. unfold refuse_if_targeted, spec_targeted.
  eapply (returns_for_each2 (fun e u => exists x, e = x.1 /\ table_repr (hs_heap σ) x u)).
  - apply fmap_forall2. eapply Forall2_impl; [apply Hrepr|]. intros x u Hxu. by exists x.
  - intros e u (x & -> & Hxu). eapply returns_then; [by eapply returns_schema_of|].
    rewrite (Hw x u Hxu). apply returns_if; intros _; [apply returns_lift|apply returns_ret].
Qed.

Lemma spec_targeted_no_abort table col why : no_abort (spec_targeted d table col why).
Proof. apply each_o_no_abort. intros u _. destruct (existsb _ _); no_abort. Qed.

Lemma spec_table_at name i t : find_table d name = Val i -> d !! i = Some t -> spec_table d name = Val t.
Proof. unfold spec_table, table_at. intros -> Hi. cbn [mbind outcome_bind]. by rewrite Hi. Qed.

Lemma spec_table_fail name e : find_table d name = Fail e -> spec_table d name = Fail e.
Proof. unfold spec_table. by intros ->. Qed.

Lemma add_column_meets table col :
  (forall d', spec_add_column d table col = Val d' -> fits d') ->
  meets (spec_add_column d table col) (add_column table col).
Proof.
  intros Hfits. unfold add_column.
  set (full := fun u : dtable => if 0 <? len (dt_rows u)
    then Fail (SchemaRejected (str "table has rows; a new column must be nullable (existing rows receive NULL)"))
    else Val tt : Result unit).
  eapply (meets_guard _ _ _ (if negb (Column.nullable col)
    then i ← find_table d table; u ← table_at d i; full u else Val tt)).
  - apply returns_if; intros _; [|apply returns_ret].
    apply (returns_on_table n m σ L d Hrepr table _ (fun _ => full)). intros i x u Hx Hu Hi Hxu.
    rewrite (tr_count _ _ _ Hxu). unfold full.
    apply returns_if; intros _; [apply returns_lift|apply returns_ret].
  - destruct (negb _); [|no_abort]. apply no_abort_bind; [apply find_table_no_abort|].
    intros i Hi. destruct (find_table_val _ _ _ Hi) as (u & Hu & _). unfold table_at. rewrite Hu. cbn [or_panic mbind outcome_bind].
    unfold full. destruct (0 <? _); no_abort.
  - intros e He. unfold spec_add_column. destruct (negb _); [|done].
    destruct (find_table d table) as [i|e'| |] eqn:Hi; cbn in He; [|injection He as ->; by rewrite (spec_table_fail _ _ Hi)|done..].
    destruct (find_table_val _ _ _ Hi) as (u & Hu & _). unfold table_at in He. rewrite Hu in He.
    cbn [or_panic mbind outcome_bind] in He. rewrite (spec_table_at _ i u) by done.
    cbn [mbind outcome_bind andb]. unfold full in He. destruct (0 <? _); [|done]. by injection He as ->.
  - intros [] Hg.
    assert (Es : spec_add_column d table col = spec_alter d table (with_new_column col) (fun r => r ++ [None])).
    { unfold spec_add_column. destruct (find_table d table) as [i|e'| |] eqn:Hi.
      - destruct (find_table_val _ _ _ Hi) as (u & Hu & _). rewrite (spec_table_at _ i u) by done. cbn [mbind outcome_bind].
        destruct (negb _); [|done]. cbn [mbind outcome_bind andb] in Hg |- *. unfold table_at in Hg. rewrite Hu in Hg.
        cbn [or_panic mbind outcome_bind] in Hg.
        unfold full in Hg. by destruct (0 <? _).
      - unfold spec_alter. by rewrite (spec_table_fail _ _ Hi), Hi.
      - unfold spec_alter, spec_table. by rewrite Hi.
      - unfold spec_alter, spec_table. by rewrite Hi. }
    rewrite Es in Hfits |- *. apply meets_put. intros i t Hi Ht.
    apply (edit_ok_fits table _ _ _ i t); try done.
    + unfold with_new_column. destruct (Table.column _ _); no_abort.
    + intros s. unfold with_new_column. destruct (Table.column _ _); [done|]. by intros [= <-].
Qed.

Lemma drop_column_meets table col :
  (forall d', spec_drop_column d table col = Val d' -> fits d') ->
  meets (spec_drop_column d table col) (drop_column table col).
Proof.
  intros Hfits. unfold drop_column. apply meets_table.
  2:{ intros e He. unfold spec_drop_column. by rewrite (spec_table_fail _ _ He). }
  intros i x t Hi Hx Ht Hxt. unfold spec_drop_column, spec_col in *. rewrite (spec_table_at _ i t) in * by done.
  cbn [mbind outcome_bind] in Hfits |- *. revert Hfits.
  destruct (Table.column_index (dt_schema t) col) as [idx|] eqn:Hidx; cbn [ok_or mbind outcome_bind]; intros Hfits.
  2:{ by eapply ok_refused; [apply returns_lift|]. }
  eapply ok_read; [apply returns_lift|]. destruct (existsb _ _); [by apply meets_fail|].
  eapply meets_guard; [eapply returns_refuse_if_targeted|apply spec_targeted_no_abort| |].
  { intros x' u Hxu. cbn beta. by rewrite (tr_name _ _ _ Hxu). }
  { intros e ->. done. }
  intros [] Hg. rewrite Hg in *. cbn [mbind outcome_bind] in Hfits |- *.
  apply meets_put. intros i' t' Hi' Ht'. rewrite Hi in Hi'. injection Hi' as <-. rewrite Ht in Ht'. injection Ht' as <-.
  destruct (TableFacts.column_index_some _ _ _ Hidx) as (c & Hc & _).
  apply (edit_ok_fits table _ _ _ i t); try done.
  - unfold without_column. rewrite Hc. apply no_abort_val.
  - intros s. unfold without_column. rewrite Hc. by intros [= <-].
  - intros rid r Hr. rewrite (proj2 (Nat.ltb_lt _ _)); [done|].
    rewrite (row_length d i t rid r Hint Ht Hr). by eapply lookup_lt_Some.
Qed.

Lemma move_column_meets table col new :
  (forall d', spec_move_column d table col new = Val d' -> fits d') ->
  meets (spec_move_column d table col new) (move_column table col new).
Proof.
  intros Hfits. unfold move_column. apply meets_table.
  2:{ intros e He. unfold spec_move_column. by rewrite (spec_table_fail _ _ He). }
  intros i x t Hi Hx Ht Hxt. unfold spec_move_column, spec_col in *. rewrite (spec_table_at _ i t) in * by done.
  cbn [mbind outcome_bind] in Hfits |- *. revert Hfits.
  destruct (Table.column_index (dt_schema t) col) as [old|] eqn:Hidx; cbn [ok_or mbind outcome_bind]; intros Hfits.
  2:{ by eapply ok_refused; [apply returns_lift|]. }
  destruct (TableFacts.column_index_some _ _ _ Hidx) as (c & Hc & _). pose proof (lookup_lt_Some _ _ _ Hc) as Hlt.
  eapply ok_read; [apply returns_lift|]. fold (dt_cols t) in Hlt |- *.
  destruct (Nat.leb_spec (length (dt_cols t)) new) as [|Hnew]; [by apply meets_fail|].
  destruct (new =? old)%nat; [by apply ok_ret|].
  eapply ok_read; [rewrite move_perm_order by done; apply returns_lift|].
  apply meets_put. intros i' t' Hi' Ht'. rewrite Hi in Hi'. injection Hi' as <-. rewrite Ht in Ht'. injection Ht' as <-.
  apply (edit_ok_fits table _ _ _ i t); try done.
  - unfold with_moved, insert_at. rewrite Hc. cbn.
    rewrite (proj2 (Nat.leb_le _ _)); [apply no_abort_val|]. fold (dt_cols t). rewrite length_delete; [lia|by eexists].
  - intros s Hs. by rewrite (with_moved_val _ _ _ _ _ Hc Hs).
  - intros rid r Hr. apply permute_pick; [done|]. by eapply row_length.
Qed.

Lemma rename_column_meets table old new :
  (forall d', spec_rename_column d table old new = Val d' -> fits d') ->
  meets (spec_rename_column d table old new) (rename_column table old new).
Proof.
  intros Hfits. unfold rename_column, spec_rename_column in *.
  destruct new as [|b new']; [by apply meets_fail|]. set (new := b :: new') in *.
  destruct (str_eqb old new); [by apply ok_ret|]. apply ok_tx.
  eapply hwp_on_table; [done| |].
  2:{ intros e He. left. by rewrite (spec_table_fail _ _ He). }
  intros i x t Hi Hx Ht Hxt. rewrite (spec_table_at _ i t) in * by done. cbn [mbind outcome_bind] in Hfits |- *.
  eapply hwp_then; [by eapply returns_schema_of|].
  destruct (Table.column (dt_schema t) old); [|apply hwp_lift; by left].
  destruct (Table.column (dt_schema t) new); [apply hwp_lift; by left|].
  apply hwp_bind. rewrite length_fmap, (Forall2_length _ _ _ (rp_tables _ _ _ Hrepr)).
  eapply (rename_loop_spec n m d (hs_catalog σ) (hs_gen σ) table old new (Hfits _ eq_refl)) with (k := 0%nat);
    [by rewrite Nat.sub_0_r|lia|by apply repr_body|done|done| |by right].
  intros σ2 L2 Hb Ec Eg. rewrite <- Ec in Hb. eapply (hwp_store_catalog (D:=D)); [exact Hb| | |by right].
  - eapply catalog_room_names; [|apply Hrepr]. rewrite <- list_fmap_compose. by apply list_fmap_ext.
  - intros σ' Hr Hw Hg. eexists _, _. split_and!; [exact Hr|done|done|]. by rewrite Hg.
Qed.

Lemma has_duplicate_column t ci : (fun r => cell_at r ci) <$> (dt_rows t).*2 = column_cells t ci.
Proof. done. Qed.

Lemma set_unique_meets table col unique :
  (forall d', spec_set_unique d table col unique = Val d' -> fits d') ->
  meets (spec_set_unique d table col unique) (set_unique table col unique).
Proof.
  intros Hfits. unfold set_unique. apply meets_table.
  2:{ intros e He. unfold spec_set_unique. by rewrite (spec_table_fail _ _ He). }
  intros i x t Hi Hx Ht Hxt. unfold spec_set_unique, spec_col in *. rewrite (spec_table_at _ i t) in * by done.
  cbn [mbind outcome_bind] in Hfits |- *. revert Hfits.
  destruct (Table.column_index (dt_schema t) col) as [ci|] eqn:Hci; cbn [ok_or mbind outcome_bind]; intros Hfits.
  2:{ by eapply ok_refused; [apply returns_lift|]. }
  destruct (TableFacts.column_index_some _ _ _ Hci) as (c & Hc & _).
  eapply ok_read; [apply returns_lift|].
  set (why := fun _ : dtable => str "'" ++ col ++ str "' is a foreign-key target and must stay UNIQUE") in *.
  set (guard := if negb unique then spec_targeted d table col why
    else if has_duplicate (column_cells t ci) []
      then Fail (SchemaRejected (quoted (str "column") col ++ str " already contains duplicate values"))
      else Val tt) in *.
  eapply (meets_guard _ _ _ guard).
  - apply returns_if; intros _; [by apply returns_refuse_if_targeted|].
    eapply returns_then; [by eapply returns_all_values|]. rewrite has_duplicate_column.
    apply returns_if; intros _; [apply returns_lift|apply returns_ret].
  - unfold guard. destruct (negb unique); [apply spec_targeted_no_abort|]. destruct (has_duplicate _ _); no_abort.
  - by intros e ->.
  - intros [] Hg. rewrite Hg in *. cbn [mbind outcome_bind] in Hfits |- *.
    apply meets_put. intros i' t' Hi' Ht'. rewrite Hi in Hi'. injection Hi' as <-. rewrite Ht in Ht'. injection Ht' as <-.
    apply (edit_ok_fits table _ _ _ i t); try done.
    + unfold with_unique. rewrite Hc. apply no_abort_val.
    + intros s. unfold with_unique. rewrite Hc. by intros [= <-].
Qed.

Lemma add_fk_meets table from_col to_table to_col :
  (forall d', spec_add_fk d table from_col to_table to_col = Val d' -> fits d') ->
  (forall t, spec_table d table = Val t -> len (Table.fks (dt_schema t)) < 2 ^ 30) ->
  meets (spec_add_fk d table from_col to_table to_col) (add_fk table from_col to_table to_col).
Proof.
  intros Hfits Hmany. unfold add_fk. apply meets_table.
  2:{ intros e He. unfold spec_add_fk. by rewrite (spec_table_fail _ _ He). }
  intros i x t Hi Hx Ht Hxt. unfold spec_add_fk in *. rewrite (spec_table_at table i t Hi Ht) in Hfits, Hmany |- *.
  specialize (Hmany t eq_refl).
  cbn [mbind outcome_bind] in Hfits |- *. revert Hfits.
  destruct (Table.column (dt_schema t) from_col) as [fc|] eqn:Hfc; cbn [ok_or mbind outcome_bind]; intros Hfits.
  2:{ by eapply ok_refused; [apply returns_lift|]. }
  eapply ok_read; [apply returns_lift|].
  eapply meets_guard; [by eapply returns_cat_index|apply find_table_no_abort| |].
  { intros e He. by rewrite (spec_table_fail _ _ He). }
  intros j Hj. destruct (find_table_val _ _ _ Hj) as (u & Hu & _).
  destruct (repr_table _ _ _ _ _ Hrepr Hu) as (y & Hy & Hyu).
  eapply ok_read; [by apply returns_entry|]. eapply ok_read; [by eapply returns_schema_of|].
  rewrite (spec_table_at to_table j u Hj Hu) in Hfits |- *. cbn [mbind outcome_bind] in Hfits |- *. revert Hfits.
  destruct (Table.column (dt_schema u) to_col) as [tc|] eqn:Htc; cbn [ok_or mbind outcome_bind]; intros Hfits.
  2:{ by eapply ok_refused; [apply returns_lift|]. }
  eapply ok_read; [apply returns_lift|].
  destruct (negb (Column.unique tc)); [by apply meets_fail|].
  destruct (negb (bool_decide _)); [by apply meets_fail|].
  destruct (column_some _ _ _ Htc) as (tci & Htci & _). destruct (column_some _ _ _ Hfc) as (fci & Hfci & _).
  rewrite Htci, Hfci in *. cbn [or_panic mbind outcome_bind] in Hfits |- *.
  eapply ok_read; [apply returns_lift|]. eapply ok_read; [by eapply returns_all_values|].
  eapply ok_read; [apply returns_lift|]. eapply ok_read; [by eapply returns_all_values|].
  rewrite !has_duplicate_column. destruct (unmatched _ _); [by apply meets_fail|].
  destruct (fk_name_finds from_col (ForeignKey.name <$> Table.fks (dt_schema t))) as [name Hname];
    [by rewrite length_fmap|].
  rewrite Hname in *. cbn [mbind outcome_bind] in Hfits |- *.
  eapply ok_read; [apply returns_lift|].
  apply meets_put. intros i' t' Hi' Ht'. rewrite Hi in Hi'. injection Hi' as <-. rewrite Ht in Ht'. injection Ht' as <-.
  by apply (edit_ok_fits table _ _ _ i t); [..|intros s [= <-]|].
Qed.

(** An edit that only changes the schema. *)
Lemma alter_meets table mutate :
  (forall d', spec_alter d table mutate id = Val d' -> fits d') ->
  (forall t, no_abort (mutate t)) -> (forall t s, mutate t = Val s -> Table.name s = Table.name t) ->
  meets (spec_alter d table mutate id) (put_schema table mutate None).
Proof.
  intros Hfits Hna Hname. apply meets_put. intros i t Hi Ht.
  apply (edit_ok_fits table _ _ _ i t); try done. intros s Hs. by apply Hname.
Qed.

Lemma check_refs_no_abort t cols : forall seen, no_abort (check_refs t cols seen).
Proof.
  induction cols as [|c cols IH]; intros seen; cbn; [no_abort|].
  destruct (Table.column t c); [|no_abort]. destruct (existsb _ _); [no_abort|apply IH].
Qed.

(** Every schema edit is what its specification says. *)
Lemma run_edit_meets e : edit_fits d e -> meets (spec_edit d e) (run_edit e).
Proof.
  intros [Hfits Hmany]. destruct e; cbn [spec_edit run_edit] in *.
  - by apply add_column_meets.
  - by apply drop_column_meets.
  - by apply move_column_meets.
  - by apply rename_column_meets.
  - by apply set_unique_meets.
  - by apply add_fk_meets.
  - apply alter_meets; [done|..].
    + intros t. unfold without_fk. destruct (_ =? _)%nat; no_abort.
    + intros t s. unfold without_fk. destruct (_ =? _)%nat; [done|]. by intros [= <-].
  - apply alter_meets; [done|..].
    + intros t. unfold with_ref_cols. apply no_abort_bind; [apply check_refs_no_abort|]. intros [] _. no_abort.
    + intros t s. unfold with_ref_cols. intros (? & _ & [= <-])%bind_val. done.
  - apply alter_meets; [done|..].
    + intros t. unfold with_width. destruct (Table.column_index t col) as [ci|] eqn:E; cbn; [|no_abort].
      destruct (TableFacts.column_index_some _ _ _ E) as (c & Hc & _). rewrite Hc. apply no_abort_val.
    + intros t s. unfold with_width. intros (ci & _ & (c & _ & [= <-])%bind_val)%bind_val. done.
Qed.

End Programs.
