(* ===== verification/StoreApi.v ===== *)
(** * The operations of a store, one by one and in any order

    Every operation of [Store] that changes data or tables, as one type, with
    the transitions [Database] allows it; and the lemmas that the store takes
    exactly these transitions, whether or not the power stays. *)

From stdpp Require Import gmap.
From S2P Require Import Prelude Types Value ValueFacts Codec Schema Block Journal JournalFacts.
From S2P Require Import JournalCrash Durability Pager PagerFacts Store Database Integrity Edits.
From S2P Require Import StoreFacts Heap Refinement Transactions Operations StoreRuns EditRefine.
Import Journal Store.

(** ** Operations and transitions *)

Inductive op : Type :=
  | CreateTable (name : bytes)
  | DropTable (name : bytes)
  | Insert (name : bytes) (cells : row)
  | Update (name : bytes) (id : RowId.t) (cells : row)
  | Delete (name : bytes) (id : RowId.t)
  | Edit (e : edit).

#[global] Instance op_eq_dec : EqDecision op.
Proof. solve_decision. Defined.

(** What an operation answers. *)
Inductive answer : Type := Done | Inserted (id : RowId.t).

(** [accepts d o a d']: on [d] the operation may answer [a] and leave [d']. *)
Inductive accepts (d : database) : op -> answer -> database -> Prop :=
  | acc_create name h : spec_create_table d name = Val tt ->
      accepts d (CreateTable name) Done (d ++ [new_table name h])
  | acc_drop name d' : spec_drop_table d name = Val d' -> accepts d (DropTable name) Done d'
  | acc_insert name cells i t id pgs : spec_insert d name cells = Val (i, t) ->
      appended (dt_pages t) (Some cells) id pgs ->
      accepts d (Insert name cells) (Inserted id) (<[i := set_pages pgs t]> d)
  | acc_update name id cells d' : spec_update d name id cells = Val d' ->
      accepts d (Update name id cells) Done d'
  | acc_delete name id d' : spec_delete d name id = Val d' -> accepts d (Delete name id) Done d'
  | acc_edit e d' : spec_edit d e = Val d' -> accepts d (Edit e) Done d'.

(** [refuses d o e]: on [d] the operation is refused with [e]. *)
Definition refuses (d : database) (o : op) (e : StoreError) : Prop :=
  match o with
  | CreateTable name => spec_create_table d name = Fail e
  | DropTable name => spec_drop_table d name = Fail e
  | Insert name cells => spec_insert d name cells = Fail e
  | Update name id cells => spec_update d name id cells = Fail e
  | Delete name id => spec_delete d name id = Fail e
  | Edit ed => spec_edit d ed = Fail e
  end.

(** What the caller must respect: values and names that fit their encodings,
    row identifiers of the table's own pages. *)
Definition permitted (d : database) (o : op) : Prop :=
  match o with
  | CreateTable name => TableFacts.table_ok (Table.new name) /\ catalog_room (d ++ [new_table name 0])
  | DropTable _ => True
  | Insert _ cells => row_ok cells
  | Update name id cells => valid_id d name id /\ row_ok cells
  | Delete name id => valid_id d name id
  | Edit e => edit_fits d e
  end.

Section Run.
Context {D : Type} `{!BlockDevice D}.

Definition run_op (o : op) : stM (Pager.t D) StoreError answer :=
  match o with
  | CreateTable name => _ ← create_table name; mret Done
  | DropTable name => _ ← drop_table name; mret Done
  | Insert name cells => id ← insert name cells; mret (Inserted id)
  | Update name id cells => _ ← update name id cells; mret Done
  | Delete name id => _ ← delete_row name id; mret Done
  | Edit e => _ ← run_edit e; mret Done
  end.

End Run.

Lemma valid_slot {X} d name id (f : nat -> Result X) x : valid_id d name id ->
  (i ← find_table d name; f i) = Val x -> 0 <= RowId.slot id.
Proof.
  intros Hid. destruct (find_table d name) as [i|e| |] eqn:Ei; [|done..]. intros _.
  destruct (find_table_val _ _ _ Ei) as (t & Ht & _). by destruct (Hid i t Ei Ht).
Qed.

(** An accepted operation keeps the integrity of the database. *)
Lemma accepts_integrity d o a d' : permitted d o -> integrity d -> accepts d o a d' -> integrity d'.
Proof.
  intros Hp Hi H. revert Hp. destruct H; intros Hp; cbn in Hp.
  - by apply create_integrity.
  - by eapply drop_integrity.
  - by eapply insert_integrity.
  - eapply update_integrity; [done| |done]. unfold spec_update in *. by eapply valid_slot, H; apply Hp.
  - eapply delete_integrity; [done| |done]. unfold spec_delete in *. by eapply valid_slot, H.
  - by eapply edit_integrity.
Qed.

Section Bodies.
Context {D : Type} `{!BlockDevice D, !DeviceLaws D}.

Lemma create_table_body_ok n m g d name : name <> [] -> permitted d (CreateTable name) ->
  body_ok (D:=D) n m g d (create_table_body name)
    (fun _ d' => spec_create_table d name = Val tt /\ exists h, d' = d ++ [new_table name h])
    (fun e => spec_create_table d name = Fail e).
Proof. intros Hne [Hok Hroom] σ L Hr <-. by apply (create_table_body_spec n m σ L d Hr). Qed.

Lemma drop_table_body_ok n m g d name :
  body_ok (D:=D) n m g d (drop_table_body name)
    (fun _ d' => spec_drop_table d name = Val d') (fun e => spec_drop_table d name = Fail e).
Proof. intros σ L Hr <-. by apply (drop_table_body_spec n m σ L d Hr). Qed.

Lemma insert_body_ok n m g d name cells : row_ok cells ->
  body_ok (D:=D) n m g d (insert_body name cells)
    (fun id d' => exists i t pgs, spec_insert d name cells = Val (i, t) /\
       appended (dt_pages t) (Some cells) id pgs /\ d' = <[i := set_pages pgs t]> d)
    (fun e => spec_insert d name cells = Fail e).
Proof. intros Hok σ L Hr <-. by apply (insert_body_spec n m σ L d Hr). Qed.

Lemma update_body_ok n m g d name id cells : integrity d -> valid_id d name id -> row_ok cells ->
  body_ok (D:=D) n m g d (update_body name id cells)
    (fun _ d' => spec_update d name id cells = Val d') (fun e => spec_update d name id cells = Fail e).
Proof. intros Hi Hid Hok σ L Hr <-. by apply (update_body_spec n m σ L d Hr). Qed.

Lemma delete_body_ok n m g d name id : integrity d -> valid_id d name id ->
  body_ok (D:=D) n m g d (delete_body name id)
    (fun _ d' => spec_delete d name id = Val d') (fun e => spec_delete d name id = Fail e).
Proof. intros Hi Hid σ L Hr <-. by apply (delete_body_spec n m σ L d Hr). Qed.

(** A transaction of an operation, and the answer it is given. *)
Lemma tx_op {A} n m σ L d o (body : stM (Pager.t D) StoreError A) (f : A -> answer) R err :
  repr σ L d -> body_ok n m (hs_gen σ) d body R err ->
  (forall a d', R a d' -> accepts d o (f a) d') -> (forall e, err e -> refuses d o e) ->
  prog_ok n m σ d (refuses d o) (accepts d o) (a ← tx body; mret (f a)).
Proof.
  intros Hr Hb HR He. eapply ok_answer; [|exact HR]. apply ok_tx.
  eapply hwp_conseq; [by eapply Hb|]. intros [a|e| |] σ' HQ; [done| |done..].
  destruct HQ as [HQ|HQ]; [left; by apply He|by right].
Qed.

(** Every operation takes the transitions of the specification. *)
Lemma op_prog_ok n m σ L d o : repr σ L d -> integrity d -> permitted d o ->
  prog_ok (D:=D) n m σ d (refuses d o) (accepts d o) (run_op o).
Proof.
  intros Hr Hi Hp. destruct o as [name|name|name cells|name id cells|name id|e]; cbn [run_op permitted] in *.
  - destruct name as [|b name].
    { eapply (ok_answer _ _ _ _ _ _ (fun _ _ => False)); [|done]. by apply ok_fail. }
    eapply tx_op; [done|by apply create_table_body_ok| |done]. intros [] d' (Hs & h & ->). by constructor.
  - eapply tx_op; [done|by apply drop_table_body_ok| |done]. intros [] d' Hs. by constructor.
  - eapply tx_op; [done|by apply insert_body_ok| |done]. intros id d' (i & t & pgs & Hs & Ha & ->). by econstructor.
  - eapply tx_op; [done|by apply update_body_ok; [|apply Hp..]| |done]. intros [] d' Hs. by constructor.
  - eapply tx_op; [done|by apply delete_body_ok| |done]. intros [] d' Hs. by constructor.
  - eapply ok_answer; [by eapply run_edit_meets|]. intros [] d' Hs. by constructor.
Qed.

(** An operation on a powered device; a new generation unless the database is
    the same. *)
Lemma op_powered n m (P : Pager.t D) g d o : ~ may_lose (D:=D) -> holds n m P g d -> integrity d ->
  permitted d o -> g + 1 < 2 ^ 64 ->
  exists r P', run_op o P = (r, P') /\
    match r with
    | Val a => exists m' g' d', accepts d o a d' /\ integrity d' /\ holds n m' P' g' d' /\
        (g' = g + 1 \/ g' = g /\ d' = d)
    | Fail e => (refuses d o e \/ e = OutOfSpace) /\ holds n m P' g d
    | _ => False
    end.
Proof.
  intros Hl (v & σ & L & Hrest) Hi Hp Hg.
  destruct (prog_powered n m σ d (refuses d o) (accepts d o) (run_op o) Hl) with (P := P) (g := g) (v := v) (L := L)
    as (r & P' & E & Hr); [by eapply op_prog_ok; [apply Hrest|..]|done|done|].
  exists r, P'. split; [done|]. destruct r as [a|e| |]; [|done..].
  destruct Hr as (m' & g' & d' & Ha & Hh' & Hgd). exists m', g', d'. split_and!; [done| |done|done].
  by eapply accepts_integrity.
Qed.

End Bodies.

(** ** Power loss *)

Lemma open_mount {D} `{!BlockDevice D} (d : D) P : Pager.mount d = Val P -> Store.open d = Val P.
Proof. unfold Store.open. by intros ->. Qed.

Lemma op_crash {D2} `{!BlockDevice D2, !DeviceLaws D2} n m (P P1 : Pager.t VolatileDisk.t) g d o r x y (d2 : D2) :
  holds n m P g d -> integrity d -> permitted d o -> g + 1 < 2 ^ 64 -> run_op o P = (r, P1) ->
  VolatileDisk.survives (Pager.dev P1) x -> failed_recoveries n x y -> powered_on n y d2 ->
  exists P2 m2, Store.open d2 = Val P2 /\
    ((holds n m2 P2 g d /\ forall a, r <> Val a) \/
     exists a g' d', accepts d o a d' /\ integrity d' /\ holds n m2 P2 g' d' /\
       (g' = g + 1 \/ g' = g /\ d' = d) /\ forall b, r = Val b -> b = a).
Proof.
  intros (v & σ & L & Hrest) Hi Hp Hg E Hx Hy H2.
  assert (Hok : prog_ok n m σ d (refuses d o) (accepts d o) (run_op (D:=VolatileDisk.t) o))
    by (by eapply op_prog_ok; [apply Hrest|..]).
  destruct (prog_crash n m σ d _ _ _ Hok P P1 g v L r x y d2 Hrest Hg E Hx Hy H2) as (P2 & m2 & Em & Hcase).
  exists P2, m2. split; [by apply open_mount|].
  destruct Hcase as [?|(a & g' & d' & Ha & Hh2 & Hgd & Hb)]; [by left|right].
  exists a, g', d'. split_and!; [done|by eapply accepts_integrity|done..].
Qed.

(** ** From the format to any number of operations *)

Section History.
Context {D : Type} `{!BlockDevice D, !DeviceLaws D}.

(** A formatted device holds the empty database. *)
Lemma format_holds n m (d : D) : powered_on n m d -> FIRST_DATA_PAGE + 1 < n / 8 ->
  exists P m', Store.format d = Val P /\ holds n m' P 1 [].
Proof.
  intros Hd Hn. destruct (format_spec n m d Hd Hn) as (P & m' & E & Hv & Htx & Hdirty & Hfl).
  exists P, m'. split; [done|].
  exists (at_rest (fresh_sb n) (page_of m')), (mk_hstate 1 0 false ∅), []. split_and!; try done.
  exists [], (fun _ => []). split; try done; [by intros ?? _ ?%elem_of_nil|by intros ??? _ _ ?%elem_of_nil].
Qed.

Lemma holds_intact n m (P : Pager.t D) g d : holds n m P g d -> intact n m (Pager.dev P).
Proof. intros (v & _ & _ & _ & Htx & _). apply Htx. Qed.

(** Opening a device again finds what the store held. *)
Lemma reopen n m (P : Pager.t D) g d (d2 : D) : holds n m P g d -> powered_on n m d2 ->
  exists P2, Store.open d2 = Val P2 /\ holds n m P2 g d.
Proof.
  intros (v & σ & L & Hv & Htx & Hst & Hh & Hr & Hg) H2.
  pose proof (vol_room _ _ _ Hv) as Hroom.
  destruct (powered_recover_idle n m d2 H2) as (d3 & E3 & Hp3); [slia|apply Hv|].
  destruct (mount_after n m (v_sb v) d2 d3 false E3 Hp3 Hv) as (P2 & E2 & Htx2 & _).
  exists P2. split; [by apply open_mount|]. exists v, σ, L. split_and!; try done.
  by apply (at_rest_back n m m P P2 v Htx).
Qed.

Fixpoint run_all (os : list op) (P : Pager.t D) : list (op * Result answer) * Pager.t D :=
  match os with
  | [] => ([], P)
  | o :: os' =>
      let '(r, P1) := run_op o P in
      let '(l, P2) := run_all os' P1 in ((o, r) :: l, P2)
  end.

End History.

(** What a run of operations may answer, and what it leaves. *)
Inductive history : database -> list (op * Result answer) -> database -> Prop :=
  | hist_nil d : history d [] d
  | hist_accepted d o a d1 l d2 : accepts d o a d1 -> history d1 l d2 ->
      history d ((o, Val a) :: l) d2
  | hist_refused d o e l d2 : refuses d o e \/ e = OutOfSpace -> history d l d2 ->
      history d ((o, Fail e) :: l) d2.

(** Every operation of the run is permitted when its turn comes. *)
Inductive all_permitted : database -> list op -> Prop :=
  | perm_nil d : all_permitted d []
  | perm_cons d o os : permitted d o -> all_permitted d os ->
      (forall a d', accepts d o a d' -> all_permitted d' os) -> all_permitted d (o :: os).

Lemma run_history {D} `{!BlockDevice D, !DeviceLaws D} n : ~ may_lose (D:=D) ->
  forall os m (P : Pager.t D) g d, holds n m P g d -> integrity d -> all_permitted d os ->
  g + len os < 2 ^ 64 ->
  exists l P' m' g' d', run_all os P = (l, P') /\ l.*1 = os /\ history d l d' /\ integrity d' /\
    holds n m' P' g' d' /\ g <= g' <= g + len os.
Proof.
  intros Hl os. induction os as [|o os IH]; intros m P g d Hh Hi Hp Hg.
  { exists [], P, m, g, d. cbn. split_and!; [done|done|constructor|done|done|lia..]. }
  inversion Hp as [|? ? ? H1 H2 H3]; subst. cbn [length] in Hg.
  destruct (op_powered n m P g d o Hl Hh Hi H1) as (r & P1 & E & Hr); [lia|].
  cbn [run_all]. rewrite E. destruct r as [a|e| |]; [| |done..].
  - destruct Hr as (m1 & g1 & d1 & Ha & Hi1 & Hh1 & Hg1).
    destruct (IH m1 P1 g1 d1 Hh1 Hi1) as (l & P' & m' & g' & d' & E' & El & Hhist & Hi' & Hh' & Hg');
      [by eapply H3|lia|].
    rewrite E'. exists ((o, Val a) :: l), P', m', g', d'. cbn [fmap list_fmap fst length]. rewrite El.
    split_and!; [done|done|by econstructor|done|done|lia..].
  - destruct Hr as [He Hh1].
    destruct (IH m P1 g d Hh1 Hi H2) as (l & P' & m' & g' & d' & E' & El & Hhist & Hi' & Hh' & Hg'); [lia|].
    rewrite E'. exists ((o, Fail e) :: l), P', m', g', d'. cbn [fmap list_fmap fst length]. rewrite El.
    split_and!; [done|done|by constructor|done|done|lia..].
Qed.
