(* ===== verification/StoreSample.v ===== *)
(** * A store with a table in it

    The volume on which the theorems about the store are instantiated: one
    table, [staff], whose rows name their [boss] by a foreign key into their
    own [name] column, with one row. *)

From stdpp Require Import gmap.
From S2P Require Import Prelude Types Value ValueFacts Codec Schema Block Journal JournalFacts.
From S2P Require Import JournalCrash Durability Pager PagerFacts Store Database Integrity.
From S2P Require Import StoreFacts Heap Refinement Transactions StoreRuns StoreApi.
Import Journal Store.

Definition staff : bytes := str "staff".
Definition staff_cols : list Column.t :=
  [Column.mk (str "name") Ty.String false true None;
   Column.mk (str "boss") Ty.String true false None].
Definition staff_schema : Table.t :=
  Table.mk staff staff_cols [ForeignKey.mk (str "boss_fk") (str "boss") staff (str "name")] [].
Definition ann : row := [Some (Value.Str (str "ann")); None].
Definition bob : row := [Some (Value.Str (str "bob")); Some (Value.Str (str "ann"))].

Definition company : database := [mk_dtable staff_schema [(2050, [Some ann])]].
Definition staff_entry : CatEntry.t := CatEntry.mk staff 2049 2050 1.

(** ** The pages *)

Definition record_page (k : Z) (bs : bytes) : bytes :=
  le_bytes 8 0 ++ le_bytes 8 k ++ bs ++ zeros (PAGE - 16 - len bs).

Definition company_sb : Superblock.t := Superblock.mk 2060 2053 0 2052 7.
Definition company_pages : list (Z * bytes) :=
  [(0, Superblock.encode company_sb);
   (2049, record_page (len (Table.encode staff_schema)) (Table.encode staff_schema));
   (2050, record_page 1 (le_bytes 8 2051));
   (2051, record_page (len (encode_row ann)) (encode_row ann));
   (2052, record_page (len (put_catalog [staff_entry])) (put_catalog [staff_entry]))].
Definition company_n : Z := 8 * 2060.
Definition company_m : medium := install (fun _ => zeros SECTOR) company_pages.
Definition company_heap : gmap Z obj :=
  <[2049 := Blob (Table.encode staff_schema)]> (<[2050 := Index [(2050, [2051])]]>
  (<[2051 := Blob (encode_row ann)]> (<[2052 := Blob (put_catalog [staff_entry])]> ∅))).
Definition company_state : hstate := mk_hstate 7 2052 false company_heap.
Definition company_view : view := at_rest company_sb (page_of company_m).
Definition company_on {D} (d : D) : Pager.t D := Pager.mk d company_sb ∅ ∅.

Lemma record_page_length k bs : len bs <= PAGE - 16 -> len (record_page k bs) = PAGE.
Proof.
  intros H. unfold record_page. rewrite !length_app, !le_bytes_length, !Nat2Z.inj_add, zeros_length; slia.
Qed.

Lemma company_pages_sized : Forall (fun p => len p.2 = PAGE) company_pages.
Proof.
  unfold company_pages. rewrite !Forall_cons. cbn [snd]. split_and!; [apply SuperblockFacts.encode_length|..];
    [apply record_page_length; vm_compute; discriminate..|constructor].
Qed.

Lemma company_nodup : NoDup company_pages.*1.
Proof. apply (bool_decide_unpack _). vm_compute. done. Qed.

Lemma company_page q img : (q, img) ∈ company_pages -> page_of company_m q = img.
Proof.
  intros Hin. apply page_of_install; [apply company_nodup|done|].
  pose proof company_pages_sized as H. rewrite Forall_forall in H. by apply (H _ Hin).
Qed.

(** A blob on one page. *)
Lemma record_blob v h bs : v_page v h = record_page (len bs) bs -> len bs <= CHAIN_CAP ->
  obj_at v h [h] (Blob bs).
Proof.
  intros E H. split; [done|]. cbn [blob]. rewrite E.
  assert (El : page_len (record_page (len bs) bs) = len bs).
  { unfold page_len, record_page. rewrite drop_app_length' by done. rewrite take_app_length' by done.
    apply of_le_bytes_small. unfold is_u64. change CHAIN_CAP with 4080 in H. lia. }
  assert (Ep : payload (record_page (len bs) bs) = bs).
  { unfold payload. rewrite El. unfold record_page. change (Z.to_nat CHAIN_HDR) with 16%nat.
    rewrite !drop_app_ge by (rewrite ?le_bytes_length; lia). rewrite !le_bytes_length.
    change (16 - 8 - 8)%nat with 0%nat. rewrite drop_0. apply take_app_length'. lia. }
  rewrite El, Ep. split_and!; [done|done|done|]. exists []. rewrite app_nil_r. split; [done|].
  split; [|done]. unfold link, record_page. by rewrite take_app_length'.
Qed.

Lemma company_home q : 2049 <= q <= 2052 -> home_page company_n q.
Proof. intros H. unfold home_page, company_n. slia. Qed.

Definition company_extent (h : Z) : list Z := [h].

Lemma company_heap_lookup h o : company_heap !! h = Some o ->
  2049 <= h <= 2052 /\ obj_at company_view h [h] o.
Proof.
  assert (Hp : forall q img, (q, img) ∈ company_pages -> v_page company_view q = img).
  { intros q img. apply company_page. }
  unfold company_heap.
  intros [[<- <-]|[_ [[<- <-]|[_ [[<- <-]|[_ [[<- <-]|[_ H]]%lookup_insert_Some]]%lookup_insert_Some]]%lookup_insert_Some]]%lookup_insert_Some.
  - split; [lia|]. apply record_blob; [|vm_compute; discriminate]. apply Hp. right. left.
  - split; [lia|]. assert (E : v_page company_view 2050 = record_page 1 (le_bytes 8 2051)).
    { apply Hp. do 2 right. left. }
    split; [done|]. cbn [index fmap list_fmap fst]. rewrite E. split_and!; [done|done| |reflexivity].
    split; [reflexivity|done|]. intros [|i] s Hs; [|done]. injection Hs as <-. reflexivity.
  - split; [lia|]. apply record_blob; [|vm_compute; discriminate]. apply Hp. do 3 right. left.
  - split; [lia|]. apply record_blob; [|vm_compute; discriminate]. apply Hp. do 4 right. left.
  - by rewrite lookup_empty in H.
Qed.

Lemma company_heap_ok : heap_ok company_n company_view company_state.
Proof.
  exists [], company_extent. split; cbn [company_state hs_heap hs_catalog hs_gen hs_wrote]; try done.
  - split; try done. apply NoDup_nil_2.
  - intros h o [Hh Ho]%company_heap_lookup. split; [done|]. split; [apply NoDup_singleton|].
    constructor; [|constructor]. cbn. slia.
  - intros h p _ _ ?%elem_of_nil. done.
  - intros h1 h2 p _ _ ->%list_elem_of_singleton Hp%list_elem_of_singleton. done.
Qed.

Lemma install_sized n pages m : sized n m -> Forall (fun p : Z * bytes => len p.2 = PAGE) pages ->
  sized n (install m pages).
Proof.
  revert m. induction pages as [|[q img] pages IH]; intros m Hm Hp; [done|].
  apply Forall_cons in Hp as [Hi Hp]. cbn [install]. apply IH; [|done].
  apply put_pages_sized; [done|]. cbn in Hi. lia.
Qed.

Lemma company_disk : disk company_n company_m.
Proof. split; [done|]. apply install_sized; [by intros l _|apply company_pages_sized]. Qed.

Lemma company_idle : idle company_m.
Proof.
  left. unfold company_m. rewrite install_other; [vm_compute; discriminate|].
  intros (u & i & Hu & Hul). unfold company_pages in Hu. rewrite !elem_of_cons, elem_of_nil in Hu.
  destruct Hu as [Hu|[Hu|[Hu|[Hu|[Hu|[]]]]]]; injection Hu as -> _; lia.
Qed.

Lemma company_volume : volume company_n company_m company_sb.
Proof.
  split; [apply company_disk|apply company_idle|done| |by split_and!|done].
  apply company_page. left.
Qed.

Lemma staff_schema_ok : TableFacts.table_ok staff_schema.
Proof. split; [done|repeat constructor..|done]. Qed.

Lemma ann_ok : row_ok ann.
Proof. split; [repeat constructor; done|done]. Qed.

Lemma bob_ok : row_ok bob.
Proof. split; [repeat constructor; done|done]. Qed.

Lemma company_repr : repr company_state [(staff_entry, [(2050, [2051])])] company.
Proof.
  assert (E1 : company_heap !! 2049 = Some (Blob (Table.encode staff_schema))) by reflexivity.
  assert (E2 : company_heap !! 2050 = Some (Index [(2050, [2051])])) by reflexivity.
  assert (E3 : company_heap !! 2051 = Some (Blob (encode_row ann))) by reflexivity.
  split; cbn [company_state hs_heap hs_catalog].
  - reflexivity.
  - done.
  - constructor; [|constructor]. split; try done.
    + apply staff_schema_ok.
    + constructor; [|constructor]. split; [done|]. constructor; [|constructor].
      split_and!; [done|done|exact E3|apply ann_ok..].
  - cbn [Z.eqb catalog_heads]. apply (bool_decide_unpack _). vm_compute. done.
  - done.
Qed.

Lemma company_in_tx {D} `{!BlockDevice D, !DeviceLaws D} (d : D) : intact company_n company_m d ->
  in_tx company_n company_m (company_on d) company_view.
Proof.
  intros Hd. by split; cbn -[page_of company_m].
Qed.

Lemma company_holds {D} `{!BlockDevice D, !DeviceLaws D} (d : D) : intact company_n company_m d ->
  holds company_n company_m (company_on d) 7 company.
Proof.
  intros Hd. exists company_view, company_state, [(staff_entry, [(2050, [2051])])].
  split_and!; [apply company_volume|by apply company_in_tx|done|apply company_heap_ok|
    apply company_repr|done].
Qed.

(** A steady disk and a drive that loses power after [life] operations. *)
Definition company_steady : Pager.t SteadyDisk.t := company_on (SteadyDisk.mk company_n company_m).
Definition company_drive (life : nat) : Pager.t VolatileDisk.t :=
  company_on (drive company_n company_m life).

Lemma steady_holds : holds company_n company_m company_steady 7 company.
Proof. apply company_holds, steady_powered, company_disk. Qed.

Lemma drive_holds life : holds company_n company_m (company_drive life) 7 company.
Proof. apply company_holds, drive_intact, company_disk. Qed.

Lemma company_integrity : integrity company.
Proof.
  split; [by apply (bool_decide_unpack _); vm_compute|].
  intros [|i] t Ht; [|done]. injection Ht as <-. split.
  - apply NoDup_singleton.
  - by apply (bool_decide_unpack _); vm_compute.
  - intros id r Hr. cbn in Hr. apply list_elem_of_singleton in Hr as [= -> ->].
    repeat constructor.
  - intros ci c Hc Hu id1 id2 r1 r2 v H1 H2 _ _. cbn in H1, H2.
    apply list_elem_of_singleton in H1 as [= -> ->], H2 as [= -> ->]. done.
  - intros fk ->%list_elem_of_singleton. exists 0%nat, 1%nat, 0%nat, (mk_dtable staff_schema [(2050, [Some ann])]).
    split; try done.
    + by intros c tc [= <-] [= <-].
    + intros id r v Hr Hv. cbn in Hr. apply list_elem_of_singleton in Hr as [= -> ->]. done.
Qed.
