(* ===== verification/StoreTheorems.v ===== *)
(** * What the store guarantees

    The operations of the store refine the database of [Database], keep its
    integrity, and are atomic under power loss. *)

From stdpp Require Import gmap.
From S2P Require Import Prelude Types Value ValueFacts Codec Schema Block Journal JournalFacts.
From S2P Require Import JournalCrash Durability Pager PagerFacts PagerTheorems Store Database Integrity Edits.
From S2P Require Import StoreFacts Heap Refinement Navigation Transactions Operations StoreRuns EditRefine StoreApi.
From S2P Require Import StoreSample.
Import Journal Store.

(** ** Power loss *)

(** C1: every operation of the store is atomic and durable whenever the power
    goes.  On a drive with a volatile write cache that loses power at any of
    its operations, or after the last, whatever the cache had kept and however
    often recovery is interrupted in turn, the next [open] succeeds and finds
    either the database as it was, or the database the operation leads to; the
    latter if the operation had answered.  Integrity holds either way.  The
    operations are those on tables and rows and every edit of a schema. *)
Theorem store_op_crash_atomic {D2} `{!BlockDevice D2, !DeviceLaws D2}
    n m (P P1 : Pager.t VolatileDisk.t) g d o r x y (d2 : D2) :
  holds n m P g d -> integrity d -> permitted d o -> g + 1 < 2 ^ 64 -> run_op o P = (r, P1) ->
  VolatileDisk.survives (Pager.dev P1) x -> failed_recoveries n x y -> powered_on n y d2 ->
  exists P2 m2, Store.open d2 = Val P2 /\
    ((holds n m2 P2 g d /\ forall a, r <> Val a) \/
     exists a g' d', accepts d o a d' /\ integrity d' /\ holds n m2 P2 g' d' /\
       (g' = g + 1 \/ g' = g /\ d' = d) /\ forall b, r = Val b -> b = a).
Proof. apply op_crash. Qed.

(** The power goes while a row of [company] is inserted. *)
Lemma store_op_crash_atomic_witness :
  let run := run_op (Insert staff bob) (company_drive 20) in
  run.1 = Fail Io /\
  exists P2 m2, Store.open (SteadyDisk.mk company_n company_m) = Val P2 /\
    ((holds company_n m2 P2 7 company /\ forall a, run.1 <> Val a) \/
     exists a g' d', accepts company (Insert staff bob) a d' /\ integrity d' /\
       holds company_n m2 P2 g' d' /\ (g' = 8 \/ g' = 7 /\ d' = company) /\
       forall b, run.1 = Val b -> b = a).
Proof.
  intros run.
  assert (Hrun : run.1 = Fail Io /\ VolatileDisk.durable (Pager.dev run.2) = company_m)
    by (split; reflexivity).
  split; [apply Hrun|].
  apply (store_op_crash_atomic (D2:=SteadyDisk.t) company_n company_m (company_drive 20) run.2 7
    company (Insert staff bob) run.1 company_m company_m (SteadyDisk.mk company_n company_m)
    (drive_holds 20) company_integrity bob_ok eq_refl (surjective_pairing run)).
  - intros l. left. by rewrite (proj2 Hrun).
  - apply no_more.
  - apply steady_powered, company_disk.
Defined.

(** ** The operations on a device that stays powered *)

(** C3: an insert answers the identifier of a new last row and commits the
    database with it, or is refused with the first violation the
    specification finds (arity, types and NULLs, unique columns, foreign
    keys), or runs out of space; refused or out of space, the database is
    unchanged.  It never aborts. *)
Theorem insert_refines {D} `{!BlockDevice D, !DeviceLaws D} n m (P : Pager.t D) g d name cells :
  ~ may_lose (D:=D) -> holds n m P g d -> g + 1 < 2 ^ 64 -> row_ok cells ->
  exists r P', Store.insert name cells P = (r, P') /\
    match r with
    | Val id => exists m' i t pgs, spec_insert d name cells = Val (i, t) /\
        appended (dt_pages t) (Some cells) id pgs /\
        holds n m' P' (g + 1) (<[i := set_pages pgs t]> d)
    | Fail e => (spec_insert d name cells = Fail e \/ e = OutOfSpace) /\ holds n m P' g d
    | _ => False
    end.
Proof.
  intros Hl Hh Hg Hok.
  destruct (tx_powered n m P g d _ _ _ Hl Hh Hg (insert_body_ok n m g d name cells Hok))
    as (r & P' & E & Hr).
  exists r, P'. split; [done|]. destruct r as [id|e| |]; [|done..].
  destruct Hr as (m' & d' & (i & t & pgs & Hs & Ha & ->) & Hh'). by exists m', i, t, pgs.
Qed.

Lemma insert_refines_witness :
  spec_insert company staff bob = Val (0%nat, mk_dtable staff_schema [(2050, [Some ann])]) /\
  exists r P', Store.insert staff bob company_steady = (r, P') /\
    match r with
    | Val id => exists m' i t pgs, spec_insert company staff bob = Val (i, t) /\
        appended (dt_pages t) (Some bob) id pgs /\
        holds company_n m' P' 8 (<[i := set_pages pgs t]> company)
    | Fail e => (spec_insert company staff bob = Fail e \/ e = OutOfSpace) /\
        holds company_n company_m P' 7 company
    | _ => False
    end.
Proof.
  split; [reflexivity|].
  apply (insert_refines company_n company_m company_steady 7 company staff bob);
    [by intros ?|exact steady_holds|done|exact bob_ok].
Defined.

(** C4: an update replaces exactly the row named, or is refused: the checks of
    an insert, a row that is not there, or a key that rows of any table still
    refer to.  Refused or out of space, nothing changes; it never aborts. *)
Theorem update_refines {D} `{!BlockDevice D, !DeviceLaws D} n m (P : Pager.t D) g d name id cells :
  ~ may_lose (D:=D) -> holds n m P g d -> integrity d -> g + 1 < 2 ^ 64 ->
  valid_id d name id -> row_ok cells ->
  exists r P', Store.update name id cells P = (r, P') /\
    match r with
    | Val _ => exists m' d', spec_update d name id cells = Val d' /\ holds n m' P' (g + 1) d'
    | Fail e => (spec_update d name id cells = Fail e \/ e = OutOfSpace) /\ holds n m P' g d
    | _ => False
    end.
Proof.
  intros Hl Hh Hi Hg Hid Hok.
  destruct (tx_powered n m P g d _ _ _ Hl Hh Hg (update_body_ok n m g d name id cells Hi Hid Hok))
    as (r & P' & E & Hr).
  by exists r, P'.
Qed.

(** The row of [ann], renamed. *)
Definition ann_id : RowId.t := RowId.mk 2050 0.
Definition anna : row := [Some (Value.Str (str "anna")); None].

Lemma ann_valid : valid_id company staff ann_id.
Proof. intros i t [= <-] [= <-]. split; [done|]. by eexists. Qed.

Lemma update_refines_witness :
  spec_update company staff ann_id anna =
    Val [mk_dtable staff_schema [(2050, [Some anna])]] /\
  exists r P', Store.update staff ann_id anna company_steady = (r, P') /\
    match r with
    | Val _ => exists m' d', spec_update company staff ann_id anna = Val d' /\
        holds company_n m' P' 8 d'
    | Fail e => (spec_update company staff ann_id anna = Fail e \/ e = OutOfSpace) /\
        holds company_n company_m P' 7 company
    | _ => False
    end.
Proof.
  split; [reflexivity|].
  apply (update_refines company_n company_m company_steady 7 company staff ann_id anna);
    [by intros ?|exact steady_holds|exact company_integrity|done|exact ann_valid|].
  split; [repeat constructor; done|done].
Defined.

(** C5: a delete removes exactly the row named, or is refused: a row that is
    not there, or a key that other rows still refer to.  Refused or out of
    space, nothing changes; it never aborts. *)
Theorem delete_refines {D} `{!BlockDevice D, !DeviceLaws D} n m (P : Pager.t D) g d name id :
  ~ may_lose (D:=D) -> holds n m P g d -> integrity d -> g + 1 < 2 ^ 64 -> valid_id d name id ->
  exists r P', Store.delete_row name id P = (r, P') /\
    match r with
    | Val _ => exists m' d', spec_delete d name id = Val d' /\ holds n m' P' (g + 1) d'
    | Fail e => (spec_delete d name id = Fail e \/ e = OutOfSpace) /\ holds n m P' g d
    | _ => False
    end.
Proof.
  intros Hl Hh Hi Hg Hid.
  destruct (tx_powered n m P g d _ _ _ Hl Hh Hg (delete_body_ok n m g d name id Hi Hid))
    as (r & P' & E & Hr).
  by exists r, P'.
Qed.

Lemma delete_refines_witness :
  spec_delete company staff ann_id = Val [mk_dtable staff_schema [(2050, [None])]] /\
  exists r P', Store.delete_row staff ann_id company_steady = (r, P') /\
    match r with
    | Val _ => exists m' d', spec_delete company staff ann_id = Val d' /\ holds company_n m' P' 8 d'
    | Fail e => (spec_delete company staff ann_id = Fail e \/ e = OutOfSpace) /\
        holds company_n company_m P' 7 company
    | _ => False
    end.
Proof.
  split; [reflexivity|].
  apply (delete_refines company_n company_m company_steady 7 company staff ann_id);
    [by intros ?|exact steady_holds|exact company_integrity|done|exact ann_valid].
Defined.

(** C12: creating a table adds an empty table without columns at the end of the
    catalog, or is refused: an empty name, or one that is taken. *)
Theorem create_table_refines {D} `{!BlockDevice D, !DeviceLaws D} n m (P : Pager.t D) g d name :
  ~ may_lose (D:=D) -> holds n m P g d -> g + 1 < 2 ^ 64 ->
  TableFacts.table_ok (Table.new name) -> catalog_room (d ++ [new_table name 0]) ->
  exists r P', Store.create_table name P = (r, P') /\
    match r with
    | Val _ => exists m' h, spec_create_table d name = Val tt /\
        holds n m' P' (g + 1) (d ++ [new_table name h])
    | Fail e => (spec_create_table d name = Fail e \/ e = OutOfSpace) /\ holds n m P' g d
    | _ => False
    end.
Proof.
  intros Hl Hh Hg Hok Hroom. destruct (decide (name = [])) as [->|Hne].
  { exists (Fail (SchemaRejected (str "table name is empty"))), P. split; [done|]. by split; [left|]. }
  destruct (tx_powered n m P g d _ _ _ Hl Hh Hg (create_table_body_ok n m g d name Hne (conj Hok Hroom)))
    as (r & P' & E & Hr).
  exists r, P'. split; [by destruct name|]. destruct r as [u|e| |]; [|done..].
  destruct Hr as (m' & d' & (Hs & h & ->) & Hh'). by exists m', h.
Qed.

Lemma create_table_refines_witness :
  spec_create_table company (str "payroll") = Val tt /\
  exists r P', Store.create_table (str "payroll") company_steady = (r, P') /\
    match r with
    | Val _ => exists m' h, spec_create_table company (str "payroll") = Val tt /\
        holds company_n m' P' 8 (company ++ [new_table (str "payroll") h])
    | Fail e => (spec_create_table company (str "payroll") = Fail e \/ e = OutOfSpace) /\
        holds company_n company_m P' 7 company
    | _ => False
    end.
Proof.
  split; [reflexivity|].
  apply (create_table_refines company_n company_m company_steady 7 company (str "payroll"));
    [by intros ?|exact steady_holds|done| |done].
  split; [done|repeat constructor..|done].
Defined.

(** C13: dropping a table removes it and its rows from the catalog, unless a
    foreign key of another table refers to it. *)
Theorem drop_table_refines {D} `{!BlockDevice D, !DeviceLaws D} n m (P : Pager.t D) g d name :
  ~ may_lose (D:=D) -> holds n m P g d -> g + 1 < 2 ^ 64 ->
  exists r P', Store.drop_table name P = (r, P') /\
    match r with
    | Val _ => exists m' d', spec_drop_table d name = Val d' /\ holds n m' P' (g + 1) d'
    | Fail e => (spec_drop_table d name = Fail e \/ e = OutOfSpace) /\ holds n m P' g d
    | _ => False
    end.
Proof.
  intros Hl Hh Hg.
  destruct (tx_powered n m P g d _ _ _ Hl Hh Hg (drop_table_body_ok n m g d name))
    as (r & P' & E & Hr).
  by exists r, P'.
Qed.

Lemma drop_table_refines_witness :
  spec_drop_table company staff = Val [] /\
  exists r P', Store.drop_table staff company_steady = (r, P') /\
    match r with
    | Val _ => exists m' d', spec_drop_table company staff = Val d' /\ holds company_n m' P' 8 d'
    | Fail e => (spec_drop_table company staff = Fail e \/ e = OutOfSpace) /\
        holds company_n company_m P' 7 company
    | _ => False
    end.
Proof.
  split; [reflexivity|].
  apply (drop_table_refines company_n company_m company_steady 7 company staff);
    [by intros ?|exact steady_holds|done].
Defined.




(** C14: the readers answer what the specification reads off the database, the
    errors for tables and rows that are not there included, and change
    nothing.  Following a foreign key finds the rows that hold its value, and
    the references to a row are those of every foreign key to its table. *)
Theorem readers_refine {D} `{!BlockDevice D, !DeviceLaws D} n m (P : Pager.t D) g d name id fk :
  ~ may_lose (D:=D) -> holds n m P g d -> valid_id d name id ->
  (exists P', Store.list_tables P = (Val (spec_list_tables d), P') /\ holds n m P' g d) /\
  (exists P', Store.get_table name P = (spec_get_table d name, P') /\ holds n m P' g d) /\
  (exists P', Store.scan name P = (spec_scan d name, P') /\ holds n m P' g d) /\
  (exists P', Store.get_row name id P = (spec_get_row d name id, P') /\ holds n m P' g d) /\
  (exists P', Store.follow_fk name id fk P = (spec_follow_fk d name id fk, P') /\ holds n m P' g d) /\
  (exists P', Store.referencing_rows name id P = (spec_referencing_rows d name id, P') /\ holds n m P' g d).
Proof.
  intros Hl Hh Hid. split_and!; apply (read_powered n m P g d _ _ Hl Hh); intros σ L Hr.
  - by apply (returns_list_tables n m σ L d).
  - by apply (returns_get_table n m σ L d).
  - by apply (returns_scan n m σ L d).
  - by apply (returns_get_row n m σ L d).
  - by apply (returns_follow_fk n m σ L d).
  - by apply (returns_referencing_rows n m σ L d).
Qed.

Lemma readers_refine_witness :
  (exists P', Store.list_tables company_steady = (Val [TableInfo.mk staff 2 1], P') /\
     holds company_n company_m P' 7 company) /\
  (exists P', Store.get_table staff company_steady = (Val staff_schema, P') /\
     holds company_n company_m P' 7 company) /\
  (exists P', Store.scan staff company_steady = (Val [(ann_id, ann)], P') /\
     holds company_n company_m P' 7 company) /\
  (exists P', Store.get_row staff ann_id company_steady = (Val ann, P') /\
     holds company_n company_m P' 7 company) /\
  (exists P', Store.follow_fk staff ann_id (str "boss_fk") company_steady = (Val (staff, []), P') /\
     holds company_n company_m P' 7 company) /\
  (exists P', Store.referencing_rows staff ann_id company_steady = (Val [], P') /\
     holds company_n company_m P' 7 company).
Proof.
  apply (readers_refine company_n company_m company_steady 7 company staff ann_id (str "boss_fk"));
    [by intros ?|exact steady_holds|exact ann_valid].
Defined.




