(* ===== verification/Png.v ===== *)
(** * The PNG decoder

    [pngdec/src/lib.rs]: the bit reader, canonical Huffman tables, the DEFLATE
    inflater and the PNG container, filters and pixel formats.  The bit reader
    is the state of [M]; the loops over the compressed stream carry fuel. *)

From S2P Require Import Prelude.

Module Png.

Inductive Error : Type :=
  | Signature | Truncated | BadChunk | Unsupported | Inflate | Dimensions.

#[global] Instance Error_eq_dec : EqDecision Error.
Proof. solve_decision. Defined.

Record Image := mk_image { width : Z; height : Z; rgba : bytes }.

Abbreviation Result := (outcome Error) (only parsing).

(** [i32] and [u16] arithmetic with its overflow check, and [as i32]. *)
Definition i32 (x : Z) : Result Z := if (- 2 ^ 31 <=? x) && (x <? 2 ^ 31) then Val x else Panic.
Definition as_i32 (x : Z) : Z := (x + 2 ^ 31) mod 2 ^ 32 - 2 ^ 31.
Definition add_u16 (a b : Z) : Result Z := if a + b <? 2 ^ 16 then Val (a + b) else Panic.

(** ** The bit reader *)

Module BitReader.
Record t := mk { data : bytes; pos : Z; bitbuf : Z; bitcnt : Z }.
Definition new (data : bytes) : t := mk data 0 0 0.
End BitReader.

Abbreviation M := (stM BitReader.t Error) (only parsing).

(** Load the next byte when no bit is left. *)
Definition refill (br : BitReader.t) : Result BitReader.t :=
  if BitReader.bitcnt br =? 0 then
    if len (BitReader.data br) <=? BitReader.pos br then Fail Inflate else
    b ← or_panic (nth_z (BitReader.data br) (BitReader.pos br));
    p ← add_u64 (BitReader.pos br) 1;
    Val (BitReader.mk (BitReader.data br) p b 8)
  else Val br.

Definition bit : M Z := fun br =>
  match refill br with
  | Val br' =>
      (Val (Z.land (BitReader.bitbuf br') 1),
       BitReader.mk (BitReader.data br') (BitReader.pos br') (Z.shiftr (BitReader.bitbuf br') 1)
         (BitReader.bitcnt br' - 1))
  | Fail e => (Fail e, br)
  | Panic => (Panic, br)
  | NoFuel => (NoFuel, br)
  end.

Fixpoint bits_loop (idx : list Z) (v : Z) : M Z :=
  match idx with
  | [] => mret v
  | i :: idx' => b ← bit; bits_loop idx' (Z.lor v (Z.shiftl b i))
  end.
Definition bits (n : Z) : M Z := bits_loop (seqZ 0 n) 0.

Definition align : M unit :=
  modify (fun br => BitReader.mk (BitReader.data br) (BitReader.pos br) (BitReader.bitbuf br) 0).

(** ** Huffman tables *)

Module Huffman.
Record t := mk { counts : list Z; symbols : list Z }.
End Huffman.

(** [a[i]] and [a[i] = x] on arrays. *)
Definition get_at {A} (a : list A) (i : Z) : Result A := or_panic (nth_z a i).
Definition set_at {A} (a : list A) (i : Z) (x : A) : Result (list A) :=
  if (0 <=? i) && (i <? len a) then Val (<[Z.to_nat i := x]> a) else Panic.

(** [a[i] += 1] *)
Definition incr (a : list Z) (i : Z) : Result (list Z) :=
  c ← get_at a i; c' ← add_u16 c 1; set_at a i c'.

Definition count_lengths (lengths : list Z) : Result (list Z) :=
  counts ← fold_o incr (replicate 16 0) lengths;
  set_at counts 0 0.

Definition offsets (counts : list Z) : Result (list Z) :=
  r ← fold_o (fun '(offs, sum) i =>
        offs' ← set_at offs i sum;
        c ← get_at counts i;
        sum' ← add_u16 sum c;
        Val (offs', sum')) (replicate 16 0, 0) (seqZ 1 15);
  Val r.1.

Definition place (s : list Z * list Z) (x : nat * Z) : Result (list Z * list Z) :=
  let '(symbols, offs) := s in
  let '(sym, l) := x in
  if negb (l =? 0) then
    o ← get_at offs l;
    symbols' ← set_at symbols o (as_u16 (Z.of_nat sym));
    offs' ← incr offs l;
    Val (symbols', offs')
  else Val (symbols, offs).

Definition build (lengths : list Z) : Result Huffman.t :=
  counts ← count_lengths lengths;
  offs ← offsets counts;
  r ← fold_o place (replicate (length lengths) 0, offs) (imap pair lengths);
  Val (Huffman.mk counts r.1).

Fixpoint decode_loop (h : Huffman.t) (lens : list Z) (code first index : Z) : M Z :=
  match lens with
  | [] => lift (Fail Inflate)
  | l :: lens' =>
      b ← bit;
      let code := Z.lor code b in
      count ← lift (get_at (Huffman.counts h) l);
      d ← lift (i32 (code - first));
      if d <? count then
        i ← lift (i32 (index + d));
        lift (ok_or Inflate (if i <? 0 then None else nth_z (Huffman.symbols h) i))
      else
        index' ← lift (i32 (index + count));
        first' ← lift (i32 (first + count));
        decode_loop h lens' (as_i32 (Z.shiftl code 1)) (as_i32 (Z.shiftl first' 1)) index'
  end.
Definition decode_sym (h : Huffman.t) : M Z := decode_loop h (seqZ 1 15) 0 0 0.

Definition LEN_BASE : list Z :=
  [3; 4; 5; 6; 7; 8; 9; 10; 11; 13; 15; 17; 19; 23; 27; 31; 35; 43; 51; 59; 67; 83; 99; 115; 131;
   163; 195; 227; 258].
Definition LEN_EXTRA : list Z :=
  [0; 0; 0; 0; 0; 0; 0; 0; 1; 1; 1; 1; 2; 2; 2; 2; 3; 3; 3; 3; 4; 4; 4; 4; 5; 5; 5; 5; 0].
Definition DIST_BASE : list Z :=
  [1; 2; 3; 4; 5; 7; 9; 13; 17; 25; 33; 49; 65; 97; 129; 193; 257; 385; 513; 769; 1025; 1537;
   2049; 3073; 4097; 6145; 8193; 12289; 16385; 24577].
Definition DIST_EXTRA : list Z :=
  [0; 0; 0; 0; 1; 1; 2; 2; 3; 3; 4; 4; 5; 5; 6; 6; 7; 7; 8; 8; 9; 9; 10; 10; 11; 11; 12; 12; 13;
   13].

Definition fixed_lit : Result Huffman.t :=
  build ((fun i => if i <=? 143 then 8 else if i <=? 255 then 9 else if i <=? 279 then 7 else 8)
         <$> seqZ 0 288).
Definition fixed_dist : Result Huffman.t := build (replicate 32 5).

Definition ORDER : list Z := [16; 17; 18; 0; 8; 7; 9; 6; 10; 5; 11; 4; 12; 3; 13; 2; 14; 1; 15].

Fixpoint read_cl (order : list Z) (cl : list Z) : M (list Z) :=
  match order with
  | [] => mret cl
  | o :: order' => b ← bits 3; cl' ← lift (set_at cl o b); read_cl order' cl'
  end.

(** [for _ in 0..rep { if i >= total { return Err }; lengths[i] = v; i += 1; }] *)
Fixpoint fill (rep : nat) (total v : Z) (lengths : list Z) (i : Z) : Result (list Z * Z) :=
  match rep with
  | O => Val (lengths, i)
  | S rep' =>
      if total <=? i then Fail Inflate else
      lengths' ← set_at lengths i v;
      fill rep' total v lengths' (i + 1)
  end.

Fixpoint read_lengths (fuel : nat) (h : Huffman.t) (total : Z) (lengths : list Z) (i : Z) : M (list Z) :=
  if total <=? i then mret lengths else
  match fuel with
  | O => lift NoFuel
  | S fuel' =>
      sym ← decode_sym h;
      r ← (if sym <=? 15 then
             lengths' ← lift (set_at lengths i sym); mret (lengths', i + 1)
           else if sym =? 16 then
             if i =? 0 then lift (Fail Inflate) else
             prev ← lift (get_at lengths (i - 1));
             rep ← bits 2;
             lift (fill (Z.to_nat (3 + rep)) total prev lengths i)
           else if sym =? 17 then
             rep ← bits 3;
             lift (fill (Z.to_nat (3 + rep)) total 0 lengths i)
           else if sym =? 18 then
             rep ← bits 7;
             lift (fill (Z.to_nat (11 + rep)) total 0 lengths i)
           else lift (Fail Inflate));
      read_lengths fuel' h total r.1 r.2
  end.

(** Every symbol fills at least one length. *)
Definition read_dynamic : M (Huffman.t * Huffman.t) :=
  hlit ← bits 5;
  let hlit := hlit + 257 in
  hdist ← bits 5;
  let hdist := hdist + 1 in
  hclen ← bits 4;
  let hclen := hclen + 4 in
  cl ← read_cl (take (Z.to_nat hclen) ORDER) (replicate 19 0);
  cl_huff ← lift (build cl);
  let total := hlit + hdist in
  lengths ← read_lengths (Z.to_nat total) cl_huff total (replicate (Z.to_nat total) 0) 0;
  lits ← lift (slice lengths 0 hlit);
  lit ← lift (build lits);
  dists ← lift (slice lengths hlit (len lengths));
  dist ← lift (build dists);
  mret (lit, dist).

(** [for k in 0..len { let b = out[start + k]; out.push(b); }] *)
Fixpoint copy (n : nat) (k : Z) (out : bytes) : Result bytes :=
  match n with
  | O => Val out
  | S n' => b ← get_at out k; copy n' (k + 1) (out ++ [b])
  end.

Definition back_reference (dist : Huffman.t) (s : Z) (out : bytes) : M bytes :=
  if len LEN_BASE <=? s then lift (Fail Inflate) else
  base ← lift (get_at LEN_BASE s);
  extra ← lift (get_at LEN_EXTRA s);
  more ← bits extra;
  let n := base + more in
  dsym ← decode_sym dist;
  if len DIST_BASE <=? dsym then lift (Fail Inflate) else
  dbase ← lift (get_at DIST_BASE dsym);
  dextra ← lift (get_at DIST_EXTRA dsym);
  dmore ← bits dextra;
  let distance := dbase + dmore in
  if (distance =? 0) || (len out <? distance) then lift (Fail Inflate) else
  lift (copy (Z.to_nat n) (len out - distance) out).

Fixpoint inflate_block (fuel : nat) (out : bytes) (lit dist : Huffman.t) : M bytes :=
  match fuel with
  | O => lift NoFuel
  | S fuel' =>
      sym ← decode_sym lit;
      if sym =? 256 then mret out else
      if sym <? 256 then inflate_block fuel' (out ++ [as_u8 sym]) lit dist else
      out' ← back_reference dist (sym - 257) out;
      inflate_block fuel' out' lit dist
  end.

Definition stored_block (out : bytes) : M bytes :=
  _ ← align;
  p ← gets BitReader.pos;
  data ← gets BitReader.data;
  p4 ← lift (add_u64 p 4);
  if len data <? p4 then lift (Fail Inflate) else
  lo ← lift (get_at data p);
  hi ← lift (get_at data (p + 1));
  let n := Z.lor lo (Z.shiftl hi 8) in
  e ← lift (add_u64 p4 n);
  if len data <? e then lift (Fail Inflate) else
  chunk ← lift (slice data p4 e);
  _ ← modify (fun br => BitReader.mk (BitReader.data br) e (BitReader.bitbuf br) (BitReader.bitcnt br));
  mret (out ++ chunk).

(** One more step of [inflate_block] than there are bits in the stream, and so
    for the blocks. *)
Definition fuel_for (data : bytes) : nat := S (8 * length data).

Definition block (bfuel : nat) (btype : Z) (out : bytes) : M bytes :=
  if btype =? 0 then stored_block out else
  if btype =? 1 then
    lit ← lift fixed_lit; dist ← lift fixed_dist; inflate_block bfuel out lit dist else
  if btype =? 2 then
    tables ← read_dynamic; inflate_block bfuel out tables.1 tables.2
  else lift (Fail Inflate).

Fixpoint inflate_loop (fuel bfuel : nat) (out : bytes) : M bytes :=
  match fuel with
  | O => lift NoFuel
  | S fuel' =>
      bfinal ← bit;
      btype ← bits 2;
      out' ← block bfuel btype out;
      if bfinal =? 1 then mret out' else inflate_loop fuel' bfuel out'
  end.

Definition inflate (data : bytes) : Result bytes :=
  (inflate_loop (fuel_for data) (fuel_for data) [] (BitReader.new data)).1.

(** ** The container *)

Definition be32 (b : bytes) : Result Z :=
  b0 ← get_at b 0; b1 ← get_at b 1; b2 ← get_at b 2; b3 ← get_at b 3;
  Val (((b0 * 256 + b1) * 256 + b2) * 256 + b3).

Definition paeth (a b c : Z) : Z :=
  let p := a + b - c in
  let pa := Z.abs (p - a) in
  let pb := Z.abs (p - b) in
  let pc := Z.abs (p - c) in
  if (pa <=? pb) && (pa <=? pc) then a else if pb <=? pc then b else c.

Definition SIG : bytes := [137; 80; 78; 71; 13; 10; 26; 10].

(** What the chunks have given so far. *)
Record chunks := mk_chunks {
  ck_width : Z; ck_height : Z; ck_depth : Z; ck_color : Z; ck_interlace : Z;
  ck_palette : list (Z * Z * Z); ck_trns : bytes; ck_idat : bytes
}.
Definition no_chunks : chunks := mk_chunks 0 0 0 0 0 [] [] [].

(** [data.chunks_exact(3)] *)
Fixpoint triples (data : bytes) : list (Z * Z * Z) :=
  match data with
  | a :: b :: c :: rest => (a, b, c) :: triples rest
  | _ => []
  end.

(** A chunk, other than the last. *)
Definition chunk (ctype data : bytes) (c : chunks) : Result chunks :=
  if str_eqb ctype (str "IHDR") then
    if len data <? 13 then Fail BadChunk else
    w4 ← slice data 0 4; w ← be32 w4;
    h4 ← slice data 4 8; h ← be32 h4;
    depth ← get_at data 8; color ← get_at data 9; interlace ← get_at data 12;
    Val (mk_chunks w h depth color interlace (ck_palette c) (ck_trns c) (ck_idat c))
  else if str_eqb ctype (str "PLTE") then
    Val (mk_chunks (ck_width c) (ck_height c) (ck_depth c) (ck_color c) (ck_interlace c)
           (triples data) (ck_trns c) (ck_idat c))
  else if str_eqb ctype (str "tRNS") then
    Val (mk_chunks (ck_width c) (ck_height c) (ck_depth c) (ck_color c) (ck_interlace c)
           (ck_palette c) data (ck_idat c))
  else if str_eqb ctype (str "IDAT") then
    Val (mk_chunks (ck_width c) (ck_height c) (ck_depth c) (ck_color c) (ck_interlace c)
           (ck_palette c) (ck_trns c) (ck_idat c ++ data))
  else Val c.

Fixpoint read_chunks (fuel : nat) (file : bytes) (pos : Z) (c : chunks) : Result chunks :=
  match fuel with
  | O => NoFuel
  | S fuel' =>
      p8 ← add_u64 pos 8;
      if len file <? p8 then Fail Truncated else
      l4 ← slice file pos (pos + 4);
      n ← be32 l4;
      ctype ← slice file (pos + 4) (pos + 8);
      e0 ← add_u64 p8 n;
      e ← add_u64 e0 4;
      if len file <? e then Fail Truncated else
      data ← slice file p8 (p8 + n);
      if str_eqb ctype (str "IEND") then Val c else
      c' ← chunk ctype data c;
      read_chunks fuel' file e c'
  end.

Definition channels_of (color : Z) : Result Z :=
  if color =? 0 then Val 1 else if color =? 2 then Val 3 else if color =? 3 then Val 1 else
  if color =? 4 then Val 2 else if color =? 6 then Val 4 else Fail Unsupported.

(** [vec![0u8; n]]: more than [isize::MAX] bytes abort. *)
Definition zeroed (n : Z) : Result bytes :=
  if n <? 2 ^ 63 then Val (replicate (Z.to_nat n) 0) else Panic.

(** ** The filters

    The products of a row and a column are below [(stride + 1) * height], which
    the caller has computed without overflow. *)

Definition unfilter_byte (filter rb a b c : Z) : Result Z :=
  if filter =? 0 then Val rb else
  if filter =? 1 then Val (rb + a) else
  if filter =? 2 then Val (rb + b) else
  if filter =? 3 then Val (rb + Z.quot (a + b) 2) else
  if filter =? 4 then Val (rb + paeth a b c) else Fail Unsupported.

Definition unfilter_at (raw : bytes) (stride bpp y x : Z) (img : bytes) : Result bytes :=
  filter ← get_at raw (y * (stride + 1));
  row_in ← slice raw (y * (stride + 1) + 1) (y * (stride + 1) + 1 + stride);
  rb ← get_at row_in x;
  a ← (if bpp <=? x then get_at img (y * stride + x - bpp) else Val 0);
  b ← (if 0 <? y then get_at img ((y - 1) * stride + x) else Val 0);
  c ← (if (0 <? y) && (bpp <=? x) then get_at img ((y - 1) * stride + x - bpp) else Val 0);
  v ← unfilter_byte filter rb a b c;
  set_at img (y * stride + x) (Z.land v 255).

Definition unfilter (raw : bytes) (stride bpp height : Z) (img : bytes) : Result bytes :=
  fold_o (fun img y => fold_o (fun img x => unfilter_at raw stride bpp y x img) img (seqZ 0 stride))
    img (seqZ 0 height).

(** ** The pixels *)

Definition pixel (c : chunks) (img : bytes) (i : Z) : Result bytes :=
  if ck_color c =? 0 then v ← get_at img i; Val [v; v; v; 255]
  else if ck_color c =? 2 then
    r ← get_at img (i * 3); g ← get_at img (i * 3 + 1); b ← get_at img (i * 3 + 2);
    Val [r; g; b; 255]
  else if ck_color c =? 3 then
    idx ← get_at img i;
    let '(r, g, b) := default (0, 0, 0) (nth_z (ck_palette c) idx) in
    Val [r; g; b; default 255 (nth_z (ck_trns c) idx)]
  else if ck_color c =? 4 then
    v ← get_at img (i * 2); al ← get_at img (i * 2 + 1); Val [v; v; v; al]
  else if ck_color c =? 6 then
    r ← get_at img (i * 4); g ← get_at img (i * 4 + 1); b ← get_at img (i * 4 + 2);
    al ← get_at img (i * 4 + 3); Val [r; g; b; al]
  else Panic.

Definition expand (c : chunks) (img : bytes) (pixels : Z) (out : bytes) : Result bytes :=
  fold_o (fun out i => px ← pixel c img i; splice out (i * 4) px) out (seqZ 0 pixels).

Definition decode (file : bytes) : Result Image :=
  if (len file <? 8) || negb (bool_decide (take 8 file = SIG)) then Fail Signature else
  c ← read_chunks (length file) file 8 no_chunks;
  if (ck_width c =? 0) || (ck_height c =? 0) then Fail Dimensions else
  if negb (ck_depth c =? 8) || negb (ck_interlace c =? 0) then Fail Unsupported else
  channels ← channels_of (ck_color c);
  if len (ck_idat c) <? 2 then Fail Truncated else
  pixels ← ok_or Dimensions (checked_mul (ck_width c) (ck_height c));
  stride ← ok_or Dimensions (checked_mul (ck_width c) channels);
  z ← slice (ck_idat c) 2 (len (ck_idat c));
  raw ← inflate z;
  stride1 ← add_u64 stride 1;
  need ← mul_u64 stride1 (ck_height c);
  if len raw <? need then Fail Inflate else
  size ← mul_u64 stride (ck_height c);
  img ← zeroed size;
  img ← unfilter raw stride channels (ck_height c) img;
  total ← mul_u64 pixels 4;
  out ← zeroed total;
  out ← expand c img pixels out;
  Val (mk_image (ck_width c) (ck_height c) out).

End Png.
