(* ===== verification/PngFacts.v ===== *)
(** * What the PNG decoder's parts do

    The bit reader consumes the stream and never aborts, the Huffman tables
    are in bounds, the inflater ends within its fuel and its output is bounded
    by its input. *)

From S2P Require Import Prelude Png.
Import Png.

(** ** Outcomes without an abort *)

(** No abort: a value satisfies [Q], an error [F]. *)
Definition ends_or {A} (F : Error -> Prop) (r : Result A) (Q : A -> Prop) : Prop :=
  match r with Val a => Q a | Fail e => F e | _ => False end.
Abbreviation ends := (ends_or (fun _ => True)).
Abbreviation gives := (ends_or (fun _ => False)).

Section Ends.
Context (F : Error -> Prop).

Lemma ends_seq {A B} (r : Result A) (f : A -> Result B) Q (R : A -> Prop) :
  ends_or F r R -> (forall a, R a -> ends_or F (f a) Q) -> ends_or F (r ≫= f) Q.
Proof. destruct r; cbn; auto. Qed.

Lemma ends_mono {A} (r : Result A) (Q R : A -> Prop) :
  ends_or F r R -> (forall a, R a -> Q a) -> ends_or F r Q.
Proof. destruct r; cbn; auto. Qed.

Lemma ends_fold {A S} (f : S -> A -> Result S) (I : list A -> S -> Prop) l : forall done s,
  I done s ->
  (forall pre x post s, done ++ l = pre ++ x :: post -> I pre s -> ends_or F (f s x) (I (pre ++ [x]))) ->
  ends_or F (fold_o f s l) (I (done ++ l)).
Proof.
  induction l as [|x l IH]; intros done s Hs Hf; cbn [fold_o]; [by rewrite app_nil_r|].
  eapply ends_seq; [by apply (Hf done x l)|]. intros s' Hs'.
  replace (done ++ x :: l) with ((done ++ [x]) ++ l) by (by rewrite <- app_assoc).
  apply IH; [done|]. intros pre y post s0 E. apply (Hf pre y post). rewrite <- E.
  by rewrite <- app_assoc.
Qed.

Lemma seqZ_split n pre x post : 0 <= n -> seqZ 0 n = pre ++ x :: post -> x = len pre /\ 0 <= x < n.
Proof.
  intros Hn E. assert (Hp : seqZ 0 n !! length pre = Some x) by (by rewrite E, lookup_app_r, Nat.sub_diag by lia).
  apply lookup_seqZ in Hp. lia.
Qed.

(** A fold over [0..n], and one over rows and columns. *)
Lemma ends_range {S} (f : S -> Z -> Result S) (I : Z -> S -> Prop) n s : 0 <= n -> I 0 s ->
  (forall i s, 0 <= i < n -> I i s -> ends_or F (f s i) (I (i + 1))) -> ends_or F (fold_o f s (seqZ 0 n)) (I n).
Proof.
  intros Hn Hs Hf. replace n with (len (seqZ 0 n)) at 2 by (rewrite length_seqZ; lia).
  apply (ends_fold f (fun done => I (len done)) (seqZ 0 n) []); [done|].
  intros pre i post s1 E H1. rewrite app_nil_l in E. destruct (seqZ_split n pre i post Hn E) as [-> Hi].
  rewrite length_app. cbn [length]. replace (Z.of_nat (length pre + 1)) with (len pre + 1) by lia. by apply Hf.
Qed.

Lemma ends_grid {S} (f : Z -> Z -> S -> Result S) (I : Z -> S -> Prop) stride height s :
  0 <= stride -> 0 <= height -> I 0 s ->
  (forall y x s, 0 <= y < height -> 0 <= x < stride -> I (y * stride + x) s ->
    ends_or F (f y x s) (I (y * stride + x + 1))) ->
  ends_or F (fold_o (fun s y => fold_o (fun s x => f y x s) s (seqZ 0 stride)) s (seqZ 0 height))
    (I (height * stride)).
Proof.
  intros Hst Hh Hs Hf. apply (ends_range _ (fun y => I (y * stride))); [done..|].
  intros y s1 Hy H1. replace ((y + 1) * stride) with (y * stride + stride) by lia.
  apply (ends_range _ (fun x => I (y * stride + x))); [done|by rewrite Z.add_0_r|].
  intros x s2 Hx H2. rewrite Z.add_assoc. by apply Hf.
Qed.

End Ends.

Lemma get_at_ends {A} (a : list A) i (Q : A -> Prop) : 0 <= i < len a ->
  (forall x, a !! Z.to_nat i = Some x -> Q x) -> ends (get_at a i) Q.
Proof.
  intros Hi HQ. unfold get_at, nth_z.
  destruct (lookup_lt_is_Some_2 a (Z.to_nat i)) as [x E]; [lia|]. rewrite E. cbn. auto.
Qed.

Lemma set_at_val {A} (a : list A) i x : 0 <= i < len a -> set_at a i x = Val (<[Z.to_nat i := x]> a).
Proof. intros Hi. unfold set_at. by rewrite (proj2 (Z.leb_le _ _)), (proj2 (Z.ltb_lt _ _)) by lia. Qed.

Lemma get_at_val {A} (a : list A) i x : 0 <= i -> a !! Z.to_nat i = Some x -> get_at a i = Val x.
Proof. intros Hi E. unfold get_at, nth_z. by rewrite E. Qed.

Lemma slice_ok {A} (l : list A) i j : 0 <= i <= j -> j <= len l ->
  slice (E:=Error) l i j = Val (take (Z.to_nat (j - i)) (drop (Z.to_nat i) l)).
Proof. intros Hi Hj. unfold slice. by rewrite !(proj2 (Z.leb_le _ _)) by lia. Qed.

Lemma add_u64_val a b : a + b < 2 ^ 64 -> add_u64 (E:=Error) a b = Val (a + b).
Proof. intros H. unfold add_u64. by rewrite (proj2 (Z.ltb_lt _ _)). Qed.

Lemma mul_u64_val a b : a * b < 2 ^ 64 -> mul_u64 (E:=Error) a b = Val (a * b).
Proof. intros H. unfold mul_u64. by rewrite (proj2 (Z.ltb_lt _ _)). Qed.
Lemma mul_u64_panic a b : 2 ^ 64 <= a * b -> mul_u64 (E:=Error) a b = Panic.
Proof. intros H. unfold mul_u64. by rewrite (proj2 (Z.ltb_ge _ _)). Qed.

(** ** The bit reader *)

Record br_ok (br : BitReader.t) : Prop := {
  bo_pos : 0 <= BitReader.pos br <= len (BitReader.data br);
  bo_cnt : 0 <= BitReader.bitcnt br <= 8;
  bo_buf : 0 <= BitReader.bitbuf br < 2 ^ 8;
  bo_len : len (BitReader.data br) < 2 ^ 63;
  bo_bytes : is_bytes (BitReader.data br)
}.

(** The bits that are left. *)
Definition left (br : BitReader.t) : Z :=
  8 * (len (BitReader.data br) - BitReader.pos br) + BitReader.bitcnt br.

(** [steps k c Q]: [c] ends; its value satisfies [Q] and has cost at least [k]
    bits of the stream. *)
Definition steps {A} (k : Z) (c : stM BitReader.t Error A) (Q : A -> Prop) : Prop :=
  forall br, br_ok br -> exists r br', c br = (r, br') /\ br_ok br' /\
    BitReader.data br' = BitReader.data br /\ left br' <= left br /\
    ends r (fun a => Q a /\ left br' <= left br - k).

Lemma left_nonneg br : br_ok br -> 0 <= left br.
Proof. intros [? ? _ _ _]. unfold left. lia. Qed.

Lemma steps_mono {A} k k' (c : stM BitReader.t Error A) (Q R : A -> Prop) :
  steps k' c R -> k <= k' -> (forall a, R a -> Q a) -> steps k c Q.
Proof.
  intros H Hk HQ br Hbr. destruct (H br Hbr) as (r & br' & E & ? & ? & ? & Hr).
  exists r, br'. split_and!; try done. eapply ends_mono; [done|]. intros a [? ?]. split; [auto|lia].
Qed.

Lemma steps_lift {A} (r : Result A) Q : ends r Q -> steps 0 (lift r) Q.
Proof.
  intros H br Hbr. exists r, br. split_and!; try done.
  eapply ends_mono; [done|]. intros a ?. split; [done|lia].
Qed.

Lemma steps_ret {A} (a : A) (Q : A -> Prop) : Q a -> steps 0 (mret a) Q.
Proof. apply (steps_lift (Val a)). Qed.

Lemma steps_bind {A B} k k' (c : stM BitReader.t Error A) (f : A -> stM BitReader.t Error B) (R : A -> Prop) Q :
  steps k c R -> (forall a, R a -> steps k' (f a) Q) -> steps (k + k') (c ≫= f) Q.
Proof.
  intros Hc Hf br Hbr. destruct (Hc br Hbr) as (r & br1 & E & Hok & Hd & Hl & Hr).
  unfold mbind, stM_bind. rewrite E. destruct r as [a|e| |]; try done.
  - destruct Hr as [Ha Hk]. destruct (Hf a Ha br1 Hok) as (r2 & br2 & E2 & Hok2 & Hd2 & Hl2 & Hr2).
    exists r2, br2. split_and!; try done; [congruence|lia|].
    eapply ends_mono; [done|]. intros b [? ?]. split; [done|lia].
  - exists (Fail e), br1. by split_and!.
Qed.

(** A step that may be free. *)
Lemma steps_then {A B} k (c : stM BitReader.t Error A) (f : A -> stM BitReader.t Error B) (R : A -> Prop) Q :
  steps 0 c R -> (forall a, R a -> steps k (f a) Q) -> steps k (c ≫= f) Q.
Proof. intros Hc Hf. replace k with (0 + k) by lia. by eapply steps_bind. Qed.

Lemma refill_ok br : br_ok br ->
  (refill br = Fail Inflate /\ left br = 0) \/
  exists br', refill br = Val br' /\ br_ok br' /\ BitReader.data br' = BitReader.data br /\
    left br' = left br /\ 0 < BitReader.bitcnt br'.
Proof.
  intros Hok. pose proof Hok as [Hp Hc Hb Hl Hby]. unfold refill, left.
  destruct (Z.eqb_spec (BitReader.bitcnt br) 0) as [E|E].
  - destruct (Z.leb_spec (len (BitReader.data br)) (BitReader.pos br)) as [Hge|Hlt]; [left; split; [done|lia]|].
    right. destruct (lookup_lt_is_Some_2 (BitReader.data br) (Z.to_nat (BitReader.pos br))) as [b Eb]; [lia|].
    unfold nth_z. rewrite Eb. cbn [or_panic mbind outcome_bind]. unfold add_u64.
    rewrite (proj2 (Z.ltb_lt _ _)) by lia. cbn [mbind outcome_bind].
    rewrite Forall_lookup in Hby. pose proof (Hby _ _ Eb) as Hbb.
    eexists. split; [done|]. cbn. split_and!; [|done|lia|lia].
    split; cbn; [lia|lia|exact Hbb|done|]. by apply Forall_lookup.
  - right. exists br. split_and!; try done. lia.
Qed.

Lemma steps_bit : steps 1 bit (fun b => b = 0 \/ b = 1).
Proof.
  intros br Hok. unfold bit. destruct (refill_ok br Hok) as [[-> Hl]|(br1 & -> & Hok1 & Hd & Hl & Hc)].
  - exists (Fail Inflate), br. by split_and!.
  - destruct Hok1 as [Hp Hc1 Hb Hl1 Hby]. eexists _, _. split; [done|].
    assert (Hlow : Z.land (BitReader.bitbuf br1) 1 = 0 \/ Z.land (BitReader.bitbuf br1) 1 = 1).
    { pose proof (Z.land_ones (BitReader.bitbuf br1) 1 ltac:(lia)) as E.
      change (Z.ones 1) with 1 in E. change (2 ^ 1) with 2 in E. rewrite E. lia. }
    assert (Hsh : 0 <= Z.shiftr (BitReader.bitbuf br1) 1 < 2 ^ 8).
    { rewrite Z.shiftr_div_pow2 by lia. change (2 ^ 1) with 2. lia. }
    unfold left in *. split_and!; cbn; [|done|lia|split; [done|lia]].
    split; cbn; try done; lia.
Qed.

Lemma steps_bits_loop idx : forall i v, idx = seqZ i (len idx) -> 0 <= i -> 0 <= v < 2 ^ i ->
  steps (len idx) (bits_loop idx v) (fun v' => 0 <= v' < 2 ^ (i + len idx)).
Proof.
  induction idx as [|j idx IH]; intros i v E Hi Hv.
  { cbn. apply steps_ret. by rewrite Z.add_0_r. }
  cbn [length] in E. rewrite Nat2Z.inj_succ, seqZ_cons in E by lia. injection E as -> E.
  cbn [bits_loop length]. rewrite Nat2Z.inj_succ. replace (Z.succ (len idx)) with (1 + len idx) by lia.
  eapply steps_bind; [apply steps_bit|]. intros b Hb.
  eapply steps_mono; [apply (IH (i + 1))| |].
  - etransitivity; [exact E|]. f_equal; lia.
  - lia.
  - cbn in Hb. rewrite lor_shiftl_add by (lia || done). rewrite Z.pow_add_r by lia. change (2 ^ 1) with 2.
    pose proof (Z.pow_pos_nonneg 2 i). generalize dependent (2 ^ i). intros p Hp1 Hp2.
    destruct Hb as [-> | ->]; rewrite ?Z.mul_0_l, ?Z.mul_1_l; lia.
  - lia.
  - intros a. cbn. replace (i + 1 + len idx) with (i + (1 + len idx)) by lia. done.
Qed.

Lemma steps_bits n : 0 <= n -> steps n (bits n) (fun v => 0 <= v < 2 ^ n).
Proof.
  intros Hn. assert (El : len (seqZ 0 n) = n) by (rewrite length_seqZ; lia).
  eapply steps_mono; [apply (steps_bits_loop (seqZ 0 n) 0 0)|..]; rewrite ?El; try done; lia.
Qed.

Lemma steps_bits0 n : 0 <= n -> steps 0 (bits n) (fun v => 0 <= v < 2 ^ n).
Proof. intros Hn. by eapply steps_mono; [apply steps_bits|..]. Qed.

(** ** Huffman tables *)

(** How many lengths are [i], and how many nonzero lengths are below [i]. *)
Definition cnt (i : Z) (l : list Z) : Z := len (filter (fun x => x = i) l).
Fixpoint below (n : nat) (l : list Z) : Z :=
  match n with
  | O => 0
  | S n' => below n' l + (if (n' =? 0)%nat then 0 else cnt (Z.of_nat n') l)
  end.

Lemma cnt_app i l1 l2 : cnt i (l1 ++ l2) = cnt i l1 + cnt i l2.
Proof. unfold cnt. rewrite filter_app, length_app. lia. Qed.
Lemma cnt_single i x : cnt i [x] = if x =? i then 1 else 0.
Proof.
  unfold cnt. rewrite filter_cons. destruct (decide (x = i)) as [->|Hne].
  - by rewrite Z.eqb_refl.
  - by rewrite (proj2 (Z.eqb_neq _ _) Hne).
Qed.
Lemma cnt_nonneg i l : 0 <= cnt i l.
Proof. unfold cnt. lia. Qed.
Lemma below_nonneg n l : 0 <= below n l.
Proof.
  induction n as [|n IH]; cbn [below]; [lia|].
  pose proof (cnt_nonneg (Z.of_nat n) l). destruct (n =? 0)%nat; lia.
Qed.

Lemma below_app n l1 l2 : below n (l1 ++ l2) = below n l1 + below n l2.
Proof.
  induction n as [|n IH]; cbn [below]; [lia|]. rewrite IH, cnt_app. destruct (n =? 0)%nat; lia.
Qed.

Lemma below_single n x : below n [x] = if (1 <=? x) && (x <? Z.of_nat n) then 1 else 0.
Proof.
  induction n as [|n IH]; cbn [below].
  - by destruct (Z.leb_spec 1 x), (Z.ltb_spec x (Z.of_nat 0)); try lia.
  - rewrite IH, cnt_single.
    destruct (Nat.eqb_spec n 0), (Z.leb_spec 1 x), (Z.ltb_spec x (Z.of_nat n)),
      (Z.ltb_spec x (Z.of_nat (S n))), (Z.eqb_spec x (Z.of_nat n)); cbn; lia.
Qed.

Lemma below_le n l : below n l <= len l.
Proof.
  induction l as [|x l IH].
  - induction n as [|n IHn]; cbn [below length]; [lia|].
    unfold cnt. cbn in *. destruct (n =? 0)%nat; lia.
  - change (x :: l) with ([x] ++ l). rewrite below_app, below_single, length_app.
    cbn [length]. destruct (_ && _); lia.
Qed.

(** The tables of a list of code lengths. *)
Record table_of (lengths : list Z) (h : Huffman.t) : Prop := {
  to_counts : length (Huffman.counts h) = 16%nat;
  to_count (i : nat) : (1 <= i < 16)%nat -> Huffman.counts h !! i = Some (cnt (Z.of_nat i) lengths);
  to_length : length (Huffman.symbols h) = length lengths;
  to_symbols : Forall (fun s => 0 <= s < len lengths) (Huffman.symbols h);
  to_symbol (s : nat) l : lengths !! s = Some l -> l <> 0 ->
    Huffman.symbols h !! Z.to_nat (below (Z.to_nat l) lengths + cnt l (take s lengths)) = Some (Z.of_nat s)
}.

Definition lengths_ok (lengths : list Z) : Prop :=
  Forall (fun l => 0 <= l <= 15) lengths /\ len lengths <= 320.

Lemma cnt_le i l : cnt i l <= len l.
Proof. unfold cnt. pose proof (length_filter (fun x => x = i) l). lia. Qed.
Lemma cnt_nil i : cnt i [] = 0.
Proof. done. Qed.

Lemma below_succ l i : 1 <= i -> below (Z.to_nat (i + 1)) l = below (Z.to_nat i) l + cnt i l.
Proof.
  intros Hi. replace (Z.to_nat (i + 1)) with (S (Z.to_nat i)) by lia. cbn [below].
  rewrite (proj2 (Nat.eqb_neq _ _)) by lia. by rewrite Z2Nat.id by lia.
Qed.

Lemma below_mono n m l : (n <= m)%nat -> below n l <= below m l.
Proof.
  induction 1 as [|m _ IH]; [lia|]. cbn [below]. pose proof (cnt_nonneg (Z.of_nat m) l).
  destruct (m =? 0)%nat; lia.
Qed.

Lemma cnt_take_le i s l : cnt i (take s l) <= cnt i l.
Proof.
  rewrite <- (take_drop s l) at 2. rewrite cnt_app. pose proof (cnt_nonneg i (drop s l)). lia.
Qed.

Lemma cnt_take_lt i s s' l : (s < s')%nat -> l !! s = Some i -> cnt i (take s l) < cnt i (take s' l).
Proof.
  intros Hs E. rewrite <- (take_drop (S s) (take s' l)), take_take, cnt_app.
  replace (S s `min` s')%nat with (S s) by lia.
  rewrite (take_S_r _ _ _ E), cnt_app, cnt_single, Z.eqb_refl.
  pose proof (cnt_nonneg i (drop (S s) (take s' l))). lia.
Qed.

Lemma cnt_take_lt_all i s l : l !! s = Some i -> cnt i (take s l) < cnt i l.
Proof.
  intros E. rewrite <- (firstn_all l) at 2. apply cnt_take_lt; [|done]. by eapply lookup_lt_Some.
Qed.

(** The place of a symbol is its own. *)
Lemma slot_bound lengths s i : lengths !! s = Some i -> 1 <= i ->
  below (Z.to_nat i) lengths <= below (Z.to_nat i) lengths + cnt i (take s lengths)
    < below (Z.to_nat (i + 1)) lengths.
Proof.
  intros E Hi. rewrite below_succ by done. pose proof (cnt_take_lt_all i s lengths E).
  pose proof (below_nonneg (Z.to_nat i) lengths). pose proof (cnt_nonneg i (take s lengths)). lia.
Qed.

Lemma slot_inj lengths s i s' i' : (s < s')%nat ->
  lengths !! s = Some i -> lengths !! s' = Some i' -> 1 <= i -> 1 <= i' ->
  below (Z.to_nat i) lengths + cnt i (take s lengths) <>
  below (Z.to_nat i') lengths + cnt i' (take s' lengths).
Proof.
  intros Hs E E' Hi Hi'. pose proof (slot_bound _ _ _ E Hi). pose proof (slot_bound _ _ _ E' Hi').
  destruct (Z.lt_trichotomy i i') as [Hlt|[->|Hlt]].
  - pose proof (below_mono (Z.to_nat (i + 1)) (Z.to_nat i') lengths ltac:(lia)). lia.
  - pose proof (cnt_take_lt i' s s' lengths Hs E). lia.
  - pose proof (below_mono (Z.to_nat (i' + 1)) (Z.to_nat i) lengths ltac:(lia)). lia.
Qed.

Lemma incr_val a i c : 0 <= i -> a !! Z.to_nat i = Some c -> c + 1 < 2 ^ 16 ->
  incr a i = Val (<[Z.to_nat i := c + 1]> a).
Proof.
  intros Hi E Hc. unfold incr. rewrite (get_at_val _ _ _ Hi E). cbn [mbind outcome_bind].
  unfold add_u16. rewrite (proj2 (Z.ltb_lt _ _)) by done. cbn [mbind outcome_bind].
  apply set_at_val. apply lookup_lt_Some in E. lia.
Qed.

(** [counts.len() == 16], each entry what [f] says. *)
Definition tabulated (f : Z -> Z) (from : nat) (a : list Z) : Prop :=
  length a = 16%nat /\ forall i, (from <= i < 16)%nat -> a !! i = Some (f (Z.of_nat i)).

Lemma tabulated_set (f g : Z -> Z) from a i x : tabulated f from a -> 0 <= i ->
  g i = x -> (forall j, Z.of_nat from <= j -> j <> i -> g j = f j) ->
  tabulated g from (<[Z.to_nat i := x]> a).
Proof.
  intros [Hl H] Hi Hx Hj. split; [by rewrite length_insert|]. intros j Hjr.
  destruct (decide (j = Z.to_nat i)) as [->|Hne].
  - rewrite list_lookup_insert_eq by lia. f_equal. rewrite Z2Nat.id by lia. done.
  - rewrite list_lookup_insert_ne by done. rewrite H by done. f_equal. symmetry. apply Hj; lia.
Qed.

Lemma count_lengths_ends lengths : lengths_ok lengths ->
  ends (count_lengths lengths) (tabulated (fun i => cnt i lengths) 1).
Proof.
  intros [Hr Hn]. unfold count_lengths.
  apply ends_seq with (R := tabulated (fun i => cnt i lengths) 0).
  - apply (ends_fold _ incr (fun done => tabulated (fun i => cnt i done) 0) lengths []).
    + split; [done|]. intros i Hi. rewrite lookup_replicate_2 by lia. done.
    + intros pre x post s E Hs. rewrite app_nil_l in E. subst lengths.
      apply Forall_app in Hr as [_ Hr]. apply Forall_cons in Hr as [Hx _].
      destruct Hs as [Hl Hs]. rewrite length_app in Hn. cbn [length] in Hn. pose proof (cnt_le x pre).
      assert (Ex : s !! Z.to_nat x = Some (cnt x pre)) by (rewrite Hs by lia; f_equal; f_equal; lia).
      rewrite (incr_val s x _ ltac:(lia) Ex ltac:(lia)). cbn [ends_or].
      apply (tabulated_set (fun i => cnt i pre)); [done|lia| |].
      * cbn. by rewrite cnt_app, cnt_single, Z.eqb_refl.
      * intros j _ Hj. cbn. rewrite cnt_app, cnt_single, (proj2 (Z.eqb_neq _ _)) by done. lia.
  - intros counts [Hl Hc]. rewrite set_at_val by lia. cbn [ends_or]. split; [by rewrite length_insert|].
    intros i Hi. rewrite list_lookup_insert_ne by lia. apply Hc. lia.
Qed.

Lemma offsets_ends lengths counts : lengths_ok lengths ->
  tabulated (fun i => cnt i lengths) 1 counts ->
  ends (offsets counts) (tabulated (fun i => below (Z.to_nat i) lengths) 1).
Proof.
  intros [_ Hn] [Hl Hc]. unfold offsets.
  apply ends_seq with (R := fun r : list Z * Z => tabulated (fun i => below (Z.to_nat i) lengths) 1 r.1);
    [|done].
  set (I (done : list Z) (r : list Z * Z) :=
    length r.1 = 16%nat /\ r.2 = below (S (length done)) lengths /\
    forall i, (1 <= i <= length done)%nat -> r.1 !! i = Some (below i lengths)).
  eapply ends_mono.
  - apply (ends_fold _ _ I (seqZ 1 15) []).
    + split_and!; [done| |cbn; lia]. done.
    + intros pre x post [offs sum] E (Ho & Hs & Hi). cbn [fst snd] in Ho, Hs, Hi.
      assert (Ex : x = len pre + 1 /\ len pre < 15).
      { assert (Hp : seqZ 1 15 !! length pre = Some x) by (by rewrite <- (app_nil_l (seqZ 1 15)), E, lookup_app_r, Nat.sub_diag by lia).
        apply lookup_seqZ in Hp. lia. }
      destruct Ex as [Ex Hp]. rewrite set_at_val by lia. cbn [mbind outcome_bind].
      rewrite (get_at_val counts x (cnt x lengths)) by (lia || (rewrite Hc by lia; by rewrite Z2Nat.id by lia)).
      cbn [mbind outcome_bind].
      assert (Hb : sum + cnt x lengths = below (S (S (length pre))) lengths).
      { rewrite Hs. cbn [below]. rewrite (proj2 (Nat.eqb_neq (S _) 0)) by lia.
        replace (Z.of_nat (S (length pre))) with x by lia. done. }
      pose proof (below_le (S (S (length pre))) lengths). unfold add_u16.
      rewrite (proj2 (Z.ltb_lt _ _)) by lia. cbn [mbind outcome_bind ends_or]. split_and!; cbn [fst snd].
      * by rewrite length_insert.
      * rewrite length_app. cbn [length]. rewrite Hb. f_equal. lia.
      * rewrite length_app. cbn [length]. intros i Hir. destruct (decide (i = Z.to_nat x)) as [->|Hne].
        { rewrite list_lookup_insert_eq by lia. rewrite Hs. do 2 f_equal. lia. }
        rewrite list_lookup_insert_ne by done. apply Hi. lia.
  - intros [offs sum] (Ho & _ & Hi). split; [done|]. intros i Hir. cbn in *.
    rewrite Hi by (rewrite length_seqZ; lia). do 2 f_equal. lia.
Qed.

(** What [place] has done after the symbols [pre]. *)
Definition placed_upto (lengths : list Z) (n : nat) (r : list Z * list Z) : Prop :=
  length r.1 = length lengths /\
  Forall (fun s => 0 <= s < len lengths) r.1 /\
  tabulated (fun i => below (Z.to_nat i) lengths + cnt i (take n lengths)) 1 r.2 /\
  forall s i, (s < n)%nat -> lengths !! s = Some i -> i <> 0 ->
    r.1 !! Z.to_nat (below (Z.to_nat i) lengths + cnt i (take s lengths)) = Some (Z.of_nat s).

Lemma place_ends lengths n i r : lengths_ok lengths -> lengths !! n = Some i ->
  placed_upto lengths n r -> ends (place r (n, i)) (placed_upto lengths (S n)).
Proof.
  intros [Hr Hn] E (Hl & Hf & [Ho Hofs] & Hs). destruct r as [symbols offs]. cbn in Hl, Hf, Ho, Hofs, Hs.
  pose proof (Forall_lookup_1 _ _ _ _ Hr E) as Hi. cbn in Hi. pose proof (lookup_lt_Some _ _ _ E) as Hlt.
  unfold place. destruct (Z.eqb_spec i 0) as [->|Hne]; cbn [negb ends].
  - split_and!; cbn; try done.
    + split; [done|]. intros j Hj. rewrite Hofs by done. f_equal.
      rewrite (take_S_r _ _ _ E), cnt_app, cnt_single. rewrite (proj2 (Z.eqb_neq _ _)) by lia. lia.
    + intros s j Hsn Ej Hj. apply Hs; try done. assert (s <> n) by (intros ->; congruence). lia.
  - pose proof (slot_bound _ _ _ E ltac:(lia)) as Hb. pose proof (below_le (Z.to_nat (i + 1)) lengths) as Hble.
    pose proof (below_nonneg (Z.to_nat i) lengths).
    set (o := below (Z.to_nat i) lengths + cnt i (take n lengths)) in *.
    assert (Eo : offs !! Z.to_nat i = Some o) by (rewrite Hofs by lia; by rewrite Z2Nat.id by lia).
    rewrite (get_at_val offs i o) by (lia || done). cbn [mbind outcome_bind].
    rewrite set_at_val by lia. cbn [mbind outcome_bind].
    rewrite (incr_val offs i o) by (lia || done). cbn [mbind outcome_bind ends_or].
    assert (Eu : as_u16 (Z.of_nat n) = Z.of_nat n) by (unfold as_u16; apply Z.mod_small; lia).
    split_and!; cbn [fst snd].
    + by rewrite length_insert.
    + apply Forall_insert; [done|]. rewrite Eu. lia.
    + apply (tabulated_set (fun i => below (Z.to_nat i) lengths + cnt i (take n lengths))); [done|lia| |].
      * rewrite (take_S_r _ _ _ E), cnt_app, cnt_single, Z.eqb_refl. lia.
      * intros j _ Hj. rewrite (take_S_r _ _ _ E), cnt_app, cnt_single, (proj2 (Z.eqb_neq _ _)) by done. lia.
    + intros s j Hsn Ej Hj. pose proof (Forall_lookup_1 _ _ _ _ Hr Ej) as Hjr. cbn in Hjr.
      destruct (decide (s = n)) as [->|Hns].
      * rewrite E in Ej. injection Ej as <-. fold o. rewrite list_lookup_insert_eq by lia. by rewrite Eu.
      * pose proof (slot_bound _ _ _ Ej ltac:(lia)). pose proof (below_nonneg (Z.to_nat j) lengths).
        pose proof (slot_inj lengths s j n i ltac:(lia) Ej E ltac:(lia) ltac:(lia)).
        rewrite list_lookup_insert_ne by lia. apply Hs; try done. lia.
Qed.

Lemma build_ends lengths : lengths_ok lengths -> ends (build lengths) (table_of lengths).
Proof.
  intros Hok. pose proof Hok as [Hr Hn]. unfold build.
  eapply ends_seq; [by apply count_lengths_ends|]. intros counts Hc.
  eapply ends_seq; [by apply offsets_ends|]. intros offs Ho.
  apply ends_seq with (R := placed_upto lengths (length lengths)).
  - replace (length lengths) with (length ([] ++ imap pair lengths)) at 2 by apply length_imap.
    apply (ends_fold _ place (fun done => placed_upto lengths (length done)) (imap pair lengths) []).
    + split_and!; cbn [fst snd length].
      * apply length_replicate.
      * apply Forall_forall. intros x Hx. apply elem_of_replicate in Hx as [-> Hx]. lia.
      * destruct Ho as [Hl Ho]. split; [done|]. intros i Hi. rewrite Ho by done. f_equal.
        rewrite take_0, cnt_nil. lia.
      * intros s i Hs. lia.
    + intros pre [s i] post r E Hs. rewrite length_app, Nat.add_comm. rewrite app_nil_l in E.
      assert (Hx : imap pair lengths !! length pre = Some (s, i)) by (by rewrite E, lookup_app_r, Nat.sub_diag by lia).
      rewrite list_lookup_imap in Hx. destruct (lengths !! length pre) as [i'|] eqn:Ei; [|done].
      injection Hx as <- <-. by apply place_ends.
  - intros r (Hl & Hf & _ & Hs). destruct Hc as [Hcl Hc]. split; cbn; try done.
    intros s l E Hl0. apply Hs; try done. by eapply lookup_lt_Some.
Qed.

Lemma i32_val x : - 2 ^ 31 <= x < 2 ^ 31 -> i32 x = Val x.
Proof.
  intros H. unfold i32. by rewrite (proj2 (Z.leb_le _ _)), (proj2 (Z.ltb_lt _ _)) by lia.
Qed.
Lemma as_i32_small x : 0 <= x < 2 ^ 31 -> as_i32 x = x.
Proof. intros H. unfold as_i32. rewrite Z.mod_small; lia. Qed.

Lemma lor_bit c b : 0 <= c -> b = 0 \/ b = 1 -> Z.lor (2 * c) b = 2 * c + b.
Proof.
  intros Hc Hb. rewrite Z.lor_comm. replace (2 * c) with (Z.shiftl c 1) by (rewrite Z.shiftl_mul_pow2; lia).
  rewrite lor_shiftl_add, Z.shiftl_mul_pow2 by lia. lia.
Qed.

(** One length of the canonical code, after its bit. *)
Lemma decode_loop_eq h l lens code first index b br br' n lengths :
  table_of lengths h -> lengths_ok lengths -> 1 <= l <= 15 ->
  bit br = (Val b, br') -> b = 0 \/ b = 1 -> n = cnt l lengths ->
  0 <= code < 2 ^ 14 -> 0 <= first <= 640 * 2 ^ 14 -> 0 <= index <= 320 ->
  decode_loop h (l :: lens) (2 * code) first index br =
    if 2 * code + b - first <? n then
      (let i := index + (2 * code + b - first) in
       ok_or Inflate (if i <? 0 then None else nth_z (Huffman.symbols h) i), br')
    else decode_loop h lens (2 * (2 * code + b)) (2 * (first + n)) (index + n) br'.
Proof.
  intros Ht [_ Hn] Hl Eb Hb -> Hc Hf Hi. pose proof (cnt_le l lengths). pose proof (cnt_nonneg l lengths).
  cbn [decode_loop]. unfold mbind, stM_bind. rewrite Eb, lor_bit by (lia || done).
  rewrite (get_at_val _ l (cnt l lengths)).
  2: lia. 2: { rewrite (to_count _ _ Ht) by lia. by rewrite Z2Nat.id by lia. }
  unfold lift. rewrite (i32_val (_ - _)) by lia.
  destruct (Z.ltb_spec (2 * code + b - first) (cnt l lengths)).
  - by rewrite (i32_val (_ + _)) by lia.
  - rewrite !i32_val by lia. rewrite !Z.shiftl_mul_pow2 by lia. rewrite !as_i32_small by lia.
    change (2 ^ 1) with 2. f_equal; lia.
Qed.

Lemma steps_fail {A} k e (Q : A -> Prop) : steps k (lift (Fail e)) Q.
Proof. intros br Hbr. by exists (Fail e), br. Qed.

Lemma steps_decode_loop h lengths : table_of lengths h -> lengths_ok lengths ->
  forall lens l code first index, lens = seqZ l (len lens) -> 1 <= l -> l + len lens = 16 ->
  0 <= code < 2 ^ (l - 1) -> 0 <= first <= 640 * (2 ^ (l - 1) - 1) -> index = below (Z.to_nat l) lengths ->
  steps 1 (decode_loop h lens (2 * code) first index) (fun s => 0 <= s < len lengths) /\
  steps 0 (decode_loop h lens (2 * code) first index) (fun s => 0 <= s < len lengths).
Proof.
  intros Ht Hok. induction lens as [|l' lens IH]; intros l code first index El Hl Hs Hc Hf Hi.
  { split; apply steps_fail. }
  cbn [length] in El, Hs. rewrite Nat2Z.inj_succ, seqZ_cons in El by lia. injection El as -> El.
  enough (H : steps 1 (decode_loop h (l :: lens) (2 * code) first index) (fun s => 0 <= s < len lengths)).
  { split; [done|]. eapply steps_mono; [exact H|lia|done]. }
  intros br Hbr. destruct (steps_bit br Hbr) as (r & br1 & Eb & Hbr1 & Hd & Hleft & Hr).
  destruct r as [b|e| |]; try done.
  2: { exists (Fail e), br1. cbn [decode_loop]. unfold mbind, stM_bind. rewrite Eb. by split_and!. }
  destruct Hr as [Hb Hk]. pose proof Hok as [_ Hn].
  pose proof (below_le (Z.to_nat l) lengths). pose proof (below_nonneg (Z.to_nat l) lengths).
  pose proof (Z.pow_le_mono_r 2 (l - 1) 14 ltac:(lia) ltac:(lia)) as Hp.
  pose proof (cnt_le l lengths). pose proof (cnt_nonneg l lengths).
  assert (Hp2 : 2 ^ (Z.succ l - 1) = 2 * 2 ^ (l - 1)) by (rewrite <- Z.pow_succ_r by lia; f_equal; lia).
  rewrite (decode_loop_eq h l lens code first index b br br1 _ lengths) by (lia || done).
  destruct (Z.ltb_spec (2 * code + b - first) (cnt l lengths)) as [Hlt|Hge].
  - cbn zeta. eexists _, br1. split_and!; [done..|].
    destruct (Z.ltb_spec (index + (2 * code + b - first)) 0); [done|]. unfold nth_z.
    destruct (Huffman.symbols h !! _) as [s|] eqn:Es; cbn [ok_or ends]; [|done]. split; [|done].
    pose proof (Forall_lookup_1 _ _ _ _ (to_symbols _ _ Ht) Es). done.
  - destruct (IH (Z.succ l) (2 * code + b) (2 * (first + cnt l lengths)) (index + cnt l lengths)) as [_ Hrest].
    + etransitivity; [exact El|]. f_equal; lia.
    + lia.
    + lia.
    + lia.
    + lia.
    + rewrite Hi, <- below_succ by lia. done.
    + destruct (Hrest br1 Hbr1) as (r & br2 & E2 & Hbr2 & Hd2 & Hl2 & Hr2). exists r, br2.
      split_and!; [done..|congruence|lia|]. eapply ends_mono; [done|]. intros a [? ?]. split; [done|lia].
Qed.

Lemma steps_decode_sym h lengths : table_of lengths h -> lengths_ok lengths ->
  steps 1 (decode_sym h) (fun s => 0 <= s < len lengths).
Proof.
  intros Ht Hok. destruct (steps_decode_loop h lengths Ht Hok (seqZ 1 15) 1 0 0 0) as [H _]; try done.
Qed.

(** ** A dynamic block's tables *)

Definition widths (hi : Z) (n : Z) (l : list Z) : Prop := len l = n /\ Forall (fun x => 0 <= x <= hi) l.

Lemma widths_set hi n l i x : widths hi n l -> 0 <= x <= hi -> widths hi n (<[i := x]> l).
Proof. intros [Hl Hf] Hx. split; [by rewrite length_insert|]. by apply Forall_insert. Qed.

Lemma widths_replicate hi n : 0 <= hi -> 0 <= n -> widths hi n (replicate (Z.to_nat n) 0).
Proof. intros. split; [rewrite length_replicate; lia|]. apply Forall_replicate. lia. Qed.

Lemma widths_ok n l : widths 15 n l -> n <= 320 -> lengths_ok l.
Proof. intros [Hl Hf] Hn. split; [done|lia]. Qed.

Lemma widths_slice n l i j : widths 15 n l -> 0 <= i <= j -> j <= n ->
  ends (slice l i j) (widths 15 (j - i)).
Proof.
  intros [Hl Hf] Hi Hj. rewrite slice_ok by lia. cbn [ends_or]. split.
  - rewrite length_take, length_drop. lia.
  - by apply Forall_take, Forall_drop.
Qed.

Lemma steps_read_cl order : Forall (fun o => 0 <= o < 19) order -> forall cl, widths 7 19 cl ->
  steps 0 (read_cl order cl) (widths 7 19).
Proof.
  induction 1 as [|o order Ho _ IH]; intros cl Hcl; cbn [read_cl]; [by apply steps_ret|].
  eapply steps_then; [by apply (steps_bits0 3)|]. intros b Hb. cbn in Hb.
  eapply steps_then; [apply (steps_lift _ (widths 7 19))|apply IH].
  destruct Hcl as [Hl Hf]. rewrite set_at_val by lia. apply widths_set; [done|]. lia.
Qed.

Lemma fill_ends rep : forall n v lengths i, widths 15 n lengths -> 0 <= i <= n -> 0 <= v <= 15 ->
  ends (fill rep n v lengths i) (fun r => widths 15 n r.1 /\ i + Z.of_nat rep = r.2 /\ r.2 <= n).
Proof.
  induction rep as [|rep IH]; intros n v lengths i Hw Hi Hv; cbn [fill]; [cbn [ends_or fst snd]; split_and!; try done; lia|].
  destruct (Z.leb_spec n i); [done|]. destruct Hw as [Hl Hf]. rewrite set_at_val by lia.
  cbn [mbind outcome_bind]. eapply ends_mono.
  - apply (IH n v (<[Z.to_nat i := v]> lengths) (i + 1)); [by apply widths_set|lia|done].
  - intros r (? & ? & ?). split_and!; [done|lia|lia].
Qed.

Lemma steps_read_lengths h cl n : table_of cl h -> widths 7 19 cl -> 0 <= n -> forall fuel lengths i,
  widths 15 n lengths -> 0 <= i <= n -> n - i <= Z.of_nat fuel ->
  steps 0 (read_lengths fuel h n lengths i) (widths 15 n).
Proof.
  intros Ht Hcl Hn. assert (Hok : lengths_ok cl).
  { destruct Hcl as [Hl Hf]. split; [|lia]. eapply Forall_impl; [done|]. cbn. lia. }
  induction fuel as [|fuel IH]; intros lengths i Hw Hi Hfuel; cbn [read_lengths].
  { rewrite (proj2 (Z.leb_le _ _)) by lia. by apply steps_ret. }
  destruct (Z.leb_spec n i); [by apply steps_ret|].
  eapply steps_then; [eapply steps_mono; [by apply steps_decode_sym|done|intros a Ha; exact Ha]|].
  intros sym Hsym. destruct Hcl as [Hcl _]. rewrite Hcl in Hsym. pose proof Hw as [Hl Hf].
  assert (Hfill : forall v k rep, 0 <= v <= 15 -> 1 <= k -> 0 <= rep ->
    steps 0 (lift (fill (Z.to_nat (k + rep)) n v lengths i))
      (fun r => widths 15 n r.1 /\ i < r.2 <= n)).
  { intros v k rep Hv Hk Hrep. apply steps_lift. eapply ends_mono; [by apply fill_ends|].
    intros r (? & ? & ?). split; [done|lia]. }
  apply steps_then with (R := fun r => widths 15 n r.1 /\ i < r.2 <= n).
  2: { intros r [Hr Hi']. apply IH; [done|lia|lia]. }
  assert (Hbits : forall w, 0 <= w -> steps 0 (bits w) (fun v => 0 <= v)).
  { intros w Hw0. eapply steps_mono; [by apply steps_bits0|done|]. cbn. lia. }
  destruct (Z.leb_spec sym 15).
  - rewrite set_at_val by lia. apply (steps_ret (_, _)). cbn. split; [apply widths_set; [done|lia]|lia].
  - destruct (Z.eqb_spec sym 16); [|destruct (Z.eqb_spec sym 17); [|destruct (Z.eqb_spec sym 18)]].
    + destruct (Z.eqb_spec i 0); [apply steps_fail|].
      eapply steps_then with (R := fun v => 0 <= v <= 15).
      { apply steps_lift, get_at_ends; [lia|]. intros x Ex. by apply (Forall_lookup_1 _ _ _ _ Hf Ex). }
      intros v Hv. eapply steps_then; [by apply Hbits|]. intros rep Hrep. by apply Hfill.
    + eapply steps_then; [by apply Hbits|]. intros rep Hrep. by apply Hfill.
    + eapply steps_then; [by apply Hbits|]. intros rep Hrep. by apply Hfill.
    + apply steps_fail.
Qed.

(** Tables for at most [n] symbols. *)
Definition tables (n : Z) (h : Huffman.t) : Prop :=
  exists lengths, lengths_ok lengths /\ len lengths <= n /\ table_of lengths h.

Lemma build_tables lengths n : lengths_ok lengths -> len lengths <= n -> ends (build lengths) (tables n).
Proof. intros Hok Hn. eapply ends_mono; [by apply build_ends|]. intros h Hh. by exists lengths. Qed.

Lemma steps_tables h n : tables n h -> steps 1 (decode_sym h) (fun s => 0 <= s < n).
Proof.
  intros (lengths & Hok & Hn & Ht). eapply steps_mono; [by apply steps_decode_sym|done|]. cbn. lia.
Qed.

Lemma ORDER_bound n : Forall (fun o => 0 <= o < 19) (take n ORDER).
Proof. apply Forall_take. unfold ORDER. repeat constructor; lia. Qed.

Lemma steps_read_dynamic : steps 0 read_dynamic (fun r => tables 288 r.1 /\ tables 32 r.2).
Proof.
  unfold read_dynamic.
  eapply steps_then; [by apply (steps_bits0 5)|]. intros hlit Hlit. cbn in Hlit.
  eapply steps_then; [by apply (steps_bits0 5)|]. intros hdist Hdist. cbn in Hdist.
  eapply steps_then; [by apply (steps_bits0 4)|]. intros hclen Hclen. cbn zeta.
  eapply steps_then; [apply steps_read_cl; [apply ORDER_bound|by apply (widths_replicate 7 19)]|].
  intros cl Hcl. eapply steps_then; [apply steps_lift, build_ends|].
  { destruct Hcl as [Hl Hf]. split; [|lia]. eapply Forall_impl; [done|]. cbn. lia. }
  intros h Hh. eapply steps_then.
  { apply (steps_read_lengths h cl (hlit + 257 + (hdist + 1))); [done..|lia| |lia|lia].
    apply widths_replicate; lia. }
  intros lengths Hw. eapply steps_then; [apply steps_lift, (widths_slice _ _ _ _ Hw); lia|].
  intros lits Hlits. eapply steps_then; [apply steps_lift, (build_tables lits 288)|].
  { apply (widths_ok _ _ Hlits). lia. } { destruct Hlits. lia. }
  intros lit Hlitt. pose proof Hw as [Hwl _].
  eapply steps_then; [apply steps_lift, (widths_slice _ _ _ _ Hw); lia|].
  intros dists Hdists. eapply steps_then; [apply steps_lift, (build_tables dists 32)|].
  { apply (widths_ok _ _ Hdists). lia. } { destruct Hdists. lia. }
  intros dist Hdistt. by apply steps_ret.
Qed.

(** ** Back references *)

Lemma copy_ends n : forall k out, is_bytes out -> 0 <= k < len out ->
  ends (copy n k out) (fun out' => is_bytes out' /\ len out' = len out + Z.of_nat n).
Proof.
  induction n as [|n IH]; intros k out Hb Hk; cbn [copy]; [split; [done|lia]|].
  apply ends_seq with (R := is_byte).
  - apply get_at_ends; [done|]. intros x Ex. by apply (Forall_lookup_1 _ _ _ _ Hb Ex).
  - intros b Hbb. eapply ends_mono.
    + apply IH; [by apply Forall_app_2; [|constructor]|]. rewrite length_app. cbn [length]. lia.
    + intros out' [? Hl]. split; [done|]. rewrite Hl, length_app. cbn [length]. lia.
Qed.

(** The base of a length or distance symbol, its extra bits, and the largest
    value they can give. *)
Lemma base_extra base extra n : length base = length extra ->
  forallb (fun p => (0 <=? p.2) && (1 <=? p.1) && (p.1 + 2 ^ p.2 - 1 <=? n)) (zip base extra) = true ->
  forall s, 0 <= s < len base ->
    ends (get_at base s) (fun b => ends (get_at extra s) (fun e =>
      0 <= e /\ 1 <= b /\ forall m, 0 <= m < 2 ^ e -> b + m <= n)).
Proof.
  intros Hl Hall s Hs. apply get_at_ends; [done|]. intros b Eb. apply get_at_ends; [lia|]. intros e Ee.
  rewrite List.forallb_forall in Hall. specialize (Hall (b, e)). cbn in Hall.
  assert (Hin : List.In (b, e) (zip base extra)).
  { apply list_elem_of_In, list_elem_of_lookup. exists (Z.to_nat s). by rewrite lookup_zip_with, Eb, Ee. }
  apply Hall in Hin. bools. split_and!; [lia|lia|]. intros m Hm. lia.
Qed.

Lemma steps_symbol base extra n s (g : Z -> Z -> stM BitReader.t Error bytes) k Q :
  length base = length extra ->
  forallb (fun p => (0 <=? p.2) && (1 <=? p.1) && (p.1 + 2 ^ p.2 - 1 <=? n)) (zip base extra) = true ->
  0 <= s < len base ->
  (forall b e, 0 <= e -> (forall m, 0 <= m < 2 ^ e -> 1 <= b + m <= n) -> steps k (g b e) Q) ->
  steps k (b ← lift (get_at base s); e ← lift (get_at extra s); g b e) Q.
Proof.
  intros Hl Hall Hs Hg. pose proof (base_extra base extra n Hl Hall s Hs) as H.
  eapply steps_then; [apply steps_lift; exact H|]. intros b Hb. cbn in Hb.
  eapply steps_then; [apply steps_lift; exact Hb|]. intros e (He & Hb1 & Hm).
  apply Hg; [done|]. intros m Hmr. specialize (Hm m Hmr). lia.
Qed.

Lemma steps_back_reference dist s out : tables 32 dist -> is_bytes out -> 0 <= s ->
  steps 1 (back_reference dist s out) (fun out' => is_bytes out' /\ len out' <= len out + 258).
Proof.
  intros Hd Hb Hs. unfold back_reference. destruct (Z.leb_spec (len LEN_BASE) s); [apply steps_fail|].
  apply (steps_symbol LEN_BASE LEN_EXTRA 258); [done|by vm_compute|lia|]. intros base extra He Hn.
  eapply steps_then; [by apply steps_bits0|]. intros more Hmore. cbn in Hmore. specialize (Hn more Hmore). cbn zeta.
  replace 1 with (1 + 0) by lia. eapply steps_bind; [by apply steps_tables|]. intros dsym Hdsym. cbn in Hdsym.
  destruct (Z.leb_spec (len DIST_BASE) dsym); [apply steps_fail|].
  apply (steps_symbol DIST_BASE DIST_EXTRA 32768); [done|by vm_compute|lia|]. intros dbase dextra Hde Hdist.
  eapply steps_then; [by apply steps_bits0|]. intros dmore Hdmore. cbn in Hdmore. specialize (Hdist dmore Hdmore).
  cbn zeta. set (distance := dbase + dmore) in *.
  destruct (Z.eqb_spec distance 0); cbn [orb]; [apply steps_fail|].
  destruct (Z.ltb_spec (len out) distance); [apply steps_fail|]. apply steps_lift.
  eapply ends_mono; [apply copy_ends; [done|lia]|]. intros out' [? ?]. split; [done|lia].
Qed.

(** ** Blocks

    [pays n out c]: on at most [n] bits [c] ends, and every bit it consumes
    pays for 258 bytes of output at most. *)

Definition pays (n : Z) (out : bytes) (c : stM BitReader.t Error bytes) : Prop :=
  forall br, br_ok br -> left br <= n -> exists r br', c br = (r, br') /\ br_ok br' /\
    BitReader.data br' = BitReader.data br /\ left br' <= left br /\
    ends r (fun out' => is_bytes out' /\ len out' + 258 * left br' <= len out + 258 * left br).

Lemma pays_bind {A} k n out (c : stM BitReader.t Error A) f R : steps k c R ->
  (forall a, R a -> exists o, len o <= len out + 258 * k /\ pays (n - k) o (f a)) ->
  pays n out (c ≫= f).
Proof.
  intros Hc Hf br Hbr Hn. destruct (Hc br Hbr) as (r & br1 & E & Hbr1 & Hd & Hl & Hr).
  unfold mbind, stM_bind. rewrite E. destruct r as [a|e| |]; try done.
  - destruct Hr as [Ha Hk]. destruct (Hf a Ha) as (o & Ho & Hp).
    destruct (Hp br1 Hbr1 ltac:(lia)) as (r & br2 & E2 & Hbr2 & Hd2 & Hl2 & Hr2).
    exists r, br2. split_and!; try done; [congruence|lia|]. eapply ends_mono; [done|].
    intros out' [? ?]. split; [done|lia].
  - exists (Fail e), br1. by split_and!.
Qed.

Lemma pays_then {A} n out (c : stM BitReader.t Error A) f R : steps 0 c R ->
  (forall a, R a -> pays n out (f a)) -> pays n out (c ≫= f).
Proof.
  intros Hc Hf. eapply pays_bind; [exact Hc|]. intros a Ha. exists out. split; [lia|].
  rewrite Z.sub_0_r. auto.
Qed.

Lemma pays_ret n out : is_bytes out -> pays n out (mret out).
Proof. intros Hb br Hbr Hn. exists (Val out), br. split_and!; done. Qed.

Lemma pays_fail n out e : pays n out (lift (Fail e)).
Proof. intros br Hbr Hn. by exists (Fail e), br. Qed.

Lemma pays_inflate_block fuel : forall n out lit dist, is_bytes out -> tables 288 lit -> tables 32 dist ->
  n < Z.of_nat fuel -> pays n out (inflate_block fuel out lit dist).
Proof.
  induction fuel as [|fuel IH]; intros n out lit dist Hb Hlit Hdist Hn.
  { intros br Hbr Hl. pose proof (left_nonneg _ Hbr). lia. }
  cbn [inflate_block]. eapply pays_bind; [by apply steps_tables|]. intros sym Hsym. cbn in Hsym.
  destruct (Z.eqb_spec sym 256); [exists out; split; [lia|by apply pays_ret]|].
  destruct (Z.ltb_spec sym 256).
  - exists (out ++ [as_u8 sym]). rewrite length_app. cbn [length]. split; [lia|].
    apply IH; [|done..|lia]. apply Forall_app_2; [done|]. constructor; [|done]. unfold as_u8, is_byte. lia.
  - exists out. split; [lia|]. eapply pays_bind; [apply (steps_back_reference dist (sym - 257) out); [done|done|lia]|].
    intros out' [Hb' Hl']. exists out'. split; [lia|]. apply IH; [done..|lia].
Qed.

Lemma pays_stored_block n out : is_bytes out -> pays n out (stored_block out).
Proof.
  intros Hb br Hbr Hn. pose proof Hbr as [Hp Hc Hbf Hl Hby]. unfold stored_block.
  unfold mbind, stM_bind, align, modify, gets, lift. cbn [BitReader.pos BitReader.data].
  unfold add_u64. rewrite (proj2 (Z.ltb_lt (BitReader.pos br + 4) _)) by lia.
  set (br0 := BitReader.mk (BitReader.data br) (BitReader.pos br) (BitReader.bitbuf br) 0).
  assert (Hbr0 : br_ok br0 /\ left br0 <= left br) by (unfold left; split; [split; cbn; try done; lia|cbn; lia]).
  destruct Hbr0 as [Hbr0 Hleft].
  destruct (Z.ltb_spec (len (BitReader.data br)) (BitReader.pos br + 4)).
  { exists (Fail Inflate), br0. by split_and!. }
  assert (Hget : forall i, 0 <= i < len (BitReader.data br) ->
    exists b, get_at (BitReader.data br) i = Val b /\ is_byte b).
  { intros i Hi. destruct (lookup_lt_is_Some_2 (BitReader.data br) (Z.to_nat i)) as [b Eb]; [lia|].
    exists b. split; [by apply get_at_val; [lia|]|]. by apply (Forall_lookup_1 _ _ _ _ Hby Eb). }
  destruct (Hget (BitReader.pos br)) as (lo & -> & Hlo); [lia|].
  destruct (Hget (BitReader.pos br + 1)) as (hi & -> & Hhi); [lia|]. unfold is_byte in Hlo, Hhi.
  rewrite lor_shiftl_add by lia. change (2 ^ 8) with 256.
  rewrite (proj2 (Z.ltb_lt (BitReader.pos br + 4 + _) _)) by lia.
  destruct (Z.ltb_spec (len (BitReader.data br)) (BitReader.pos br + 4 + (lo + hi * 256))).
  { exists (Fail Inflate), br0. by split_and!. }
  rewrite slice_ok by lia. eexists _, _. split; [done|].
  assert (Hlen : len (take (Z.to_nat (BitReader.pos br + 4 + (lo + hi * 256) - (BitReader.pos br + 4)))
    (drop (Z.to_nat (BitReader.pos br + 4)) (BitReader.data br))) = lo + hi * 256).
  { rewrite length_take, length_drop. lia. }
  split; [|split; [|split; [|cbn [ends_or]; split]]].
  - split; cbn; try done; lia.
  - done.
  - unfold left. cbn. lia.
  - apply Forall_app_2; [done|]. by apply Forall_take, Forall_drop.
  - rewrite length_app, Nat2Z.inj_add, Hlen. unfold left. cbn. lia.
Qed.

Lemma fixed_tables : ends fixed_lit (tables 288) /\ ends fixed_dist (tables 32).
Proof.
  unfold fixed_lit, fixed_dist. split; apply build_tables.
  - split; [|rewrite length_fmap, length_seqZ; lia]. apply Forall_fmap, Forall_forall.
    intros i _. cbn. repeat case_match; lia.
  - by rewrite length_fmap, length_seqZ.
  - split; [|rewrite length_replicate; lia]. apply Forall_replicate. lia.
  - by rewrite length_replicate.
Qed.

Lemma pays_block bfuel n btype out : is_bytes out -> n < Z.of_nat bfuel -> pays n out (block bfuel btype out).
Proof.
  intros Hb Hn. unfold block. destruct (Z.eqb_spec btype 0); [by apply pays_stored_block|].
  destruct (Z.eqb_spec btype 1); [|destruct (Z.eqb_spec btype 2); [|apply pays_fail]].
  - destruct fixed_tables as [Hlit Hdist].
    eapply pays_then; [by apply steps_lift|]. intros lit Hl. eapply pays_then; [by apply steps_lift|].
    intros dist Hd. by apply pays_inflate_block.
  - eapply pays_then; [apply steps_read_dynamic|]. intros [lit dist] [Hl Hd]. by apply pays_inflate_block.
Qed.

Lemma pays_inflate_loop bfuel fuel : forall n out, is_bytes out ->
  n < Z.of_nat bfuel -> n < Z.of_nat fuel -> pays n out (inflate_loop fuel bfuel out).
Proof.
  induction fuel as [|fuel IH]; intros n out Hb Hbf Hf.
  { intros br Hbr Hl. pose proof (left_nonneg _ Hbr). lia. }
  cbn [inflate_loop]. eapply pays_bind; [apply steps_bit|]. intros bfinal Hfin. exists out. split; [lia|].
  eapply pays_then; [by apply (steps_bits0 2)|]. intros btype _.
  intros br Hbr Hn. destruct (pays_block bfuel (n - 1) btype out Hb ltac:(lia) br Hbr Hn)
    as (r & br1 & E & Hbr1 & Hd & Hl & Hr).
  unfold mbind, stM_bind. rewrite E. destruct r as [out1|e| |]; try done.
  2: { exists (Fail e), br1. by split_and!. }
  destruct Hr as [Hb1 Hlen]. destruct (Z.eqb_spec bfinal 1).
  - exists (Val out1), br1. by split_and!.
  - destruct (IH (n - 1) out1 Hb1 ltac:(lia) ltac:(lia) br1 Hbr1 ltac:(lia))
      as (r & br2 & E2 & Hbr2 & Hd2 & Hl2 & Hr2).
    exists r, br2. split_and!; try done; [congruence|lia|]. eapply ends_mono; [done|].
    intros out2 [? ?]. split; [done|lia].
Qed.

Lemma inflate_ends data : is_bytes data -> len data < 2 ^ 63 ->
  ends (inflate data) (fun out => is_bytes out /\ len out <= 258 * (8 * len data)).
Proof.
  intros Hb Hl. unfold inflate.
  assert (Hbr : br_ok (BitReader.new data)) by (split; cbn; try done; lia).
  destruct (pays_inflate_loop (fuel_for data) (fuel_for data) (8 * len data) []) with (br := BitReader.new data)
    as (r & br' & -> & Hbr' & _ & _ & Hr); [done|unfold fuel_for; lia|unfold fuel_for; lia|done|unfold left; cbn; lia|].
  cbn [fst]. eapply ends_mono; [done|]. intros out [? Ho]. split; [done|].
  pose proof (left_nonneg _ Hbr'). unfold left at 2 in Ho. cbn in Ho. lia.
Qed.
