(* ===== verification/PngDecode.v ===== *)
(** * The PNG container, filters and pixels

    The chunk loop ends, the filters of a scan line are undone in bounds, and
    every pixel is expanded: what [decode] returns has the promised shape, and
    the one abort left is the product of the header's dimensions. *)

From S2P Require Import Prelude Png PngFacts.
Import Png.

(** ** Chunks *)

Lemma get_at_bytes b i : is_bytes b -> 0 <= i < len b -> ends (get_at b i) is_byte.
Proof. intros Hb Hi. apply get_at_ends; [done|]. intros x Ex. by apply (Forall_lookup_1 _ _ _ _ Hb Ex). Qed.

Lemma be32_ends b : is_bytes b -> 4 <= len b -> ends (be32 b) (fun n => 0 <= n < 2 ^ 32).
Proof.
  intros Hb Hl. unfold be32.
  do 4 (eapply ends_seq; [apply (get_at_bytes b); [done|lia]|]; intros ? ?).
  unfold is_byte in *. cbn [ends_or]. lia.
Qed.

Lemma slice_ends (b : bytes) i j : is_bytes b -> 0 <= i <= j -> j <= len b ->
  ends (slice b i j) (fun s => is_bytes s /\ len s = j - i).
Proof.
  intros Hb Hi Hj. rewrite slice_ok by done. split; [by apply Forall_take, Forall_drop|].
  rewrite length_take, length_drop. lia.
Qed.

Record chunks_ok (pos : Z) (c : chunks) : Prop := {
  co_width : 0 <= ck_width c < 2 ^ 32;
  co_height : 0 <= ck_height c < 2 ^ 32;
  co_depth : is_byte (ck_depth c);
  co_idat : is_bytes (ck_idat c);
  co_size : len (ck_idat c) <= pos;
  co_trns : is_bytes (ck_trns c);
  co_palette : Forall (fun p : Z * Z * Z => is_byte p.1.1 /\ is_byte p.1.2 /\ is_byte p.2) (ck_palette c)
}.

Lemma triples_bytes d : is_bytes d ->
  Forall (fun p : Z * Z * Z => is_byte p.1.1 /\ is_byte p.1.2 /\ is_byte p.2) (triples d).
Proof.
  revert d. fix IH 1. intros [|a [|b [|c rest]]] H; cbn; try by constructor.
  rewrite !Forall_cons in H. destruct H as (? & ? & ? & ?). constructor; [done|]. by apply IH.
Qed.

Lemma chunk_ends ctype data c pos n : is_bytes data -> n = len data -> chunks_ok pos c ->
  ends (chunk ctype data c) (chunks_ok (pos + n)).
Proof.
  intros Hb Hn Hc. unfold chunk. repeat case_match; try done.
  - eapply ends_seq; [apply slice_ends; [done|lia|lia]|]. intros w4 [? ?].
    eapply ends_seq; [apply be32_ends; [done|lia]|]. intros w ?.
    eapply ends_seq; [apply slice_ends; [done|lia|lia]|]. intros h4 [? ?].
    eapply ends_seq; [apply be32_ends; [done|lia]|]. intros h ?.
    do 3 (eapply ends_seq; [apply get_at_bytes; [done|lia]|]; intros ? ?).
    destruct Hc. split; cbn; try done. lia.
  - destruct Hc. split; cbn; try done; [lia|]. by apply triples_bytes.
  - destruct Hc. split; cbn; try done. lia.
  - destruct Hc. split; cbn; try done; [by apply Forall_app_2|]. rewrite length_app. lia.
  - destruct Hc. split; cbn; try done. lia.
Qed.

Lemma read_chunks_ends file : is_bytes file -> len file < 2 ^ 63 -> forall fuel pos c,
  0 <= pos -> pos <= len file -> len file < pos + 12 * Z.of_nat fuel -> chunks_ok pos c ->
  ends (read_chunks fuel file pos c) (chunks_ok (len file)).
Proof.
  intros Hb Hl. induction fuel as [|fuel IH]; intros pos c Hp Hle Hf Hc; [lia|]. cbn [read_chunks].
  rewrite (add_u64_val pos) by lia. cbn [mbind outcome_bind].
  destruct (Z.ltb_spec (len file) (pos + 8)); [done|].
  eapply ends_seq; [apply slice_ends; [done|lia|lia]|]. intros l4 [? ?].
  eapply ends_seq; [apply be32_ends; [done|lia]|]. intros n Hn. cbn in Hn.
  eapply ends_seq; [apply slice_ends; [done|lia|lia]|]. intros ctype [? ?].
  rewrite (add_u64_val (pos + 8)) by lia. cbn [mbind outcome_bind].
  rewrite (add_u64_val (pos + 8 + n)) by lia. cbn [mbind outcome_bind].
  destruct (Z.ltb_spec (len file) (pos + 8 + n + 4)); [done|].
  eapply ends_seq; [apply slice_ends; [done|lia|lia]|]. intros data [? ?].
  destruct (str_eqb ctype (str "IEND")).
  - destruct Hc. split; cbn; try done. lia.
  - eapply ends_seq; [by apply (chunk_ends ctype data c pos n); [|lia|]|]. intros c' Hc'.
    apply IH; [lia|lia|lia|]. destruct Hc'. split; try done. lia.
Qed.

(** ** The filters *)

(** A byte of a buffer. *)
Definition byte_at (b : bytes) (i : Z) : Z := default 0 (nth_z b i).

Lemma get_at_byte_at b i : 0 <= i < len b -> get_at b i = Val (byte_at b i).
Proof.
  intros Hi. unfold get_at, byte_at, nth_z.
  destruct (lookup_lt_is_Some_2 b (Z.to_nat i)) as [x E]; [lia|]. by rewrite E.
Qed.

Lemma byte_at_slice b s i j x : slice (E:=Error) b i j = Val s -> 0 <= x < j - i -> byte_at s x = byte_at b (i + x).
Proof.
  intros (Hi & Hj & Hs & ->)%Prelude.slice_val Hx. unfold byte_at, nth_z.
  rewrite lookup_take_lt, lookup_drop by lia. do 2 f_equal. lia.
Qed.

(** The neighbours of a sample: left, above, above left. *)
Definition near_a (stride bpp y x : Z) (img : bytes) : Z :=
  if bpp <=? x then byte_at img (y * stride + x - bpp) else 0.
Definition near_b (stride y x : Z) (img : bytes) : Z :=
  if 0 <? y then byte_at img ((y - 1) * stride + x) else 0.
Definition near_c (stride bpp y x : Z) (img : bytes) : Z :=
  if (0 <? y) && (bpp <=? x) then byte_at img ((y - 1) * stride + x - bpp) else 0.

(** A row and a column inside a picture. *)
Lemma inside y x stride height : 0 <= y < height -> 0 <= x < stride ->
  0 <= y * stride /\ y * stride + x < stride * height /\
  y * (stride + 1) + 1 + stride <= (stride + 1) * height.
Proof. intros Hy Hx. split_and!; nia. Qed.

Lemma unfilter_at_eq raw stride bpp y x img height :
  0 <= y < height -> 0 <= x < stride -> 1 <= bpp -> (stride + 1) * height <= len raw ->
  len img = stride * height ->
  unfilter_at raw stride bpp y x img =
    v ← unfilter_byte (byte_at raw (y * (stride + 1))) (byte_at raw (y * (stride + 1) + 1 + x))
          (near_a stride bpp y x img) (near_b stride y x img) (near_c stride bpp y x img);
    Val (<[Z.to_nat (y * stride + x) := Z.land v 255]> img).
Proof.
  intros Hy Hx Hbpp Hraw Himg. destruct (inside y x stride height Hy Hx) as (H1 & H2 & H3).
  assert (H4 : 0 < y -> stride <= y * stride) by nia.
  unfold unfilter_at. rewrite (get_at_byte_at raw) by lia. cbn [mbind outcome_bind].
  destruct (slice raw _ _) as [row_in|e| |] eqn:Er; try (rewrite slice_ok in Er by lia; done).
  pose proof (Prelude.slice_val _ _ _ _ Er) as (_ & _ & Hrow & _). cbn [mbind outcome_bind].
  rewrite (get_at_byte_at row_in) by lia. rewrite (byte_at_slice _ _ _ _ _ Er) by lia. cbn [mbind outcome_bind].
  unfold near_a, near_b, near_c.
  replace ((y - 1) * stride) with (y * stride - stride) by lia.
  destruct (Z.leb_spec bpp x), (Z.ltb_spec 0 y); cbn [andb];
    repeat (rewrite (get_at_byte_at img) by lia; cbn [mbind outcome_bind]); cbn [mbind outcome_bind];
    (destruct (unfilter_byte _ _ _ _ _); cbn [mbind outcome_bind]; [|done..]; apply set_at_val; lia).
Qed.

Lemma land_255 v : is_byte (Z.land v 255).
Proof. change 255 with (Z.ones 8). rewrite Z.land_ones by lia. unfold is_byte. lia. Qed.

Definition picture (n : Z) (img : bytes) : Prop := len img = n /\ is_bytes img.

Lemma unfilter_byte_ends f rb a b c : ends (unfilter_byte f rb a b c) (fun _ => True).
Proof. unfold unfilter_byte. by repeat case_match. Qed.

Lemma unfilter_ends raw stride bpp height img : 0 <= stride -> 0 <= height -> 1 <= bpp ->
  (stride + 1) * height <= len raw -> picture (stride * height) img ->
  ends (unfilter raw stride bpp height img) (picture (stride * height)).
Proof.
  intros Hst Hh Hbpp Hraw Hp. unfold unfilter.
  apply (ends_grid _ (fun y x img => unfilter_at raw stride bpp y x img) (fun _ => picture (stride * height))); try done.
  intros y x im Hy Hx [Hl Hb]. rewrite (unfilter_at_eq _ _ _ _ _ _ height) by done.
  eapply ends_seq; [apply unfilter_byte_ends|]. intros v _. split; [by rewrite length_insert|].
  apply Forall_insert; [done|apply land_255].
Qed.

(** ** Pixels *)

Lemma quad r g b a : is_byte r -> is_byte g -> is_byte b -> is_byte a -> picture 4 [r; g; b; a].
Proof. intros. split; [done|]. by repeat (apply Forall_cons; split). Qed.

Lemma pixel_ends c img i n ch pos : chunks_ok pos c -> channels_of (ck_color c) = Val ch ->
  picture (ch * n) img -> 0 <= i < n -> ends (pixel c img i) (picture 4).
Proof.
  intros Hc Hch [Hl Hb] Hi. unfold channels_of in Hch. unfold pixel.
  assert (Hget : forall j, 0 <= j < ch * n -> ends (get_at img j) is_byte) by (intros; apply get_at_bytes; [done|lia]).
  assert (H255 : is_byte 255) by done.
  repeat case_match; try done; injection Hch as <-;
    repeat (eapply ends_seq; [apply Hget; lia|]; intros ? ?);
    try (by apply quad).
  assert (Ht : is_byte (default 255 (nth_z (ck_trns c) a))).
  { unfold nth_z. destruct (ck_trns c !! _) as [t|] eqn:Et; [|done].
    by apply (Forall_lookup_1 _ _ _ _ (co_trns _ _ Hc) Et). }
  unfold nth_z in *. destruct (ck_palette c !! _) as [[[p q] r]|] eqn:Ep; cbn; [|by apply quad].
  destruct (Forall_lookup_1 _ _ _ _ (co_palette _ _ Hc) Ep) as (? & ? & ?). by apply quad.
Qed.

Lemma splice_ends n out i px : picture n out -> picture 4 px -> 0 <= i -> i + 4 <= n ->
  ends (splice (E:=Error) out i px) (picture n).
Proof.
  intros [Hl Hb] [Hl4 Hb4] Hi Hn. unfold splice. rewrite !(proj2 (Z.leb_le _ _)) by lia. cbn [andb ends_or].
  split.
  - rewrite !length_app, length_take, length_drop. lia.
  - apply Forall_app_2; [by apply Forall_take|]. apply Forall_app_2; [done|]. by apply Forall_drop.
Qed.

Lemma expand_ends c img n ch out pos : chunks_ok pos c -> channels_of (ck_color c) = Val ch -> 0 <= n ->
  picture (ch * n) img -> picture (n * 4) out -> ends (expand c img n out) (picture (n * 4)).
Proof.
  intros Hc Hch Hn Himg Hout. unfold expand.
  apply (ends_range _ _ (fun _ => picture (n * 4))); [done..|]. intros i s Hi Hs.
  eapply ends_seq; [by eapply pixel_ends|]. intros px Hpx. apply splice_ends; [done|done|lia|lia].
Qed.

Lemma zeroed_ends n : 0 <= n < 2 ^ 63 -> ends (zeroed n) (picture n).
Proof.
  intros Hn. unfold zeroed. rewrite (proj2 (Z.ltb_lt _ _)) by lia. split; [rewrite length_replicate; lia|].
  apply Forall_replicate. done.
Qed.

Lemma channels_of_bound color ch : channels_of color = Val ch -> 1 <= ch <= 4.
Proof. unfold channels_of. repeat case_match; intros [= <-]; lia. Qed.

Lemma channels_of_ends color : ends (channels_of color) (fun ch => 1 <= ch <= 4).
Proof. unfold channels_of. repeat case_match; cbn; done || lia. Qed.

Lemma ok_or_checked_mul a b e : 0 <= a < 2 ^ 32 -> 0 <= b < 2 ^ 32 -> ok_or (E:=Error) e (checked_mul a b) = Val (a * b).
Proof. intros Ha Hb. unfold checked_mul. rewrite (proj2 (Z.ltb_lt _ _)) by nia. done. Qed.

(** The sizes [decode] computes, once the picture is inflated. *)
Lemma sizes w h ch need : 0 <= w -> 0 <= h -> 1 <= ch -> (w * ch + 1) * h <= need ->
  0 <= w * ch /\ 0 <= w * h /\ w * ch * h = ch * (w * h) /\ w * h <= w * ch * h /\ w * ch * h <= need.
Proof. intros Hw Hh Hch Hn. split_and!; nia. Qed.

(** ** The whole decoder *)

(** The dimensions the header claims need more bytes than [usize] counts. *)
Definition oversized (file : bytes) : Prop :=
  exists c ch, read_chunks (length file) file 8 no_chunks = Val c /\ channels_of (ck_color c) = Val ch /\
    2 ^ 64 <= (ck_width c * ch + 1) * ck_height c.

Definition decoded (file : bytes) (r : Result Image) : Prop :=
  match r with
  | Val img =>
      0 < width img < 2 ^ 32 /\ 0 < height img < 2 ^ 32 /\
      len (rgba img) = width img * height img * 4 /\ is_bytes (rgba img)
  | Fail _ => True
  | Panic => oversized file
  | NoFuel => False
  end.

Lemma decoded_bind {A} file (r : Result A) (f : A -> Result Image) (R : A -> Prop) :
  ends r R -> (forall a, r = Val a -> R a -> decoded file (f a)) -> decoded file (r ≫= f).
Proof. destruct r; cbn; try done. intros. by apply H0. Qed.

Lemma no_chunks_ok : chunks_ok 8 no_chunks.
Proof. split; cbn; try done; lia. Qed.

Lemma decode_decoded file : is_bytes file -> len file < 2 ^ 48 -> decoded file (decode file).
Proof.
  intros Hb Hl. unfold decode. destruct (Z.ltb_spec (len file) 8); cbn [orb]; [done|].
  destruct (negb _); [done|].
  eapply decoded_bind; [apply (read_chunks_ends file); [done|lia|lia|lia|lia|apply no_chunks_ok]|].
  intros c Ec Hc. pose proof Hc as [Hw Hh _ Hi Hn _ _].
  destruct (Z.eqb_spec (ck_width c) 0); cbn [orb]; [done|].
  destruct (Z.eqb_spec (ck_height c) 0); [done|]. destruct (_ || _); [done|].
  eapply decoded_bind; [apply channels_of_ends|].
  intros ch Ech Hch. cbn in Hch. destruct (Z.ltb_spec (len (ck_idat c)) 2); [done|].
  rewrite !ok_or_checked_mul by lia. cbn [mbind outcome_bind].
  eapply decoded_bind; [apply slice_ends; [done|lia|lia]|]. intros z _ [Hzb Hz].
  eapply decoded_bind; [apply inflate_ends; [done|lia]|]. intros raw _ [Hrb Hraw].
  rewrite add_u64_val by nia. cbn [mbind outcome_bind].
  destruct (Z.lt_ge_cases ((ck_width c * ch + 1) * ck_height c) (2 ^ 64)).
  2: { rewrite (mul_u64_panic (ck_width c * ch + 1)) by done. by exists c, ch. }
  rewrite (mul_u64_val (ck_width c * ch + 1)) by done. cbn [mbind outcome_bind].
  destruct (Z.ltb_spec (len raw) ((ck_width c * ch + 1) * ck_height c)); [done|].
  destruct (sizes (ck_width c) (ck_height c) ch (len raw)) as (Hs0 & Hs1 & Hs2 & Hs3 & Hs4); [lia..|].
  rewrite (mul_u64_val (ck_width c * ch)) by lia. cbn [mbind outcome_bind].
  eapply decoded_bind; [apply zeroed_ends; lia|]. intros img0 _ Himg0.
  eapply decoded_bind; [apply (unfilter_ends raw (ck_width c * ch) ch (ck_height c) img0); lia || done|].
  intros img _ Himg. rewrite mul_u64_val by lia. cbn [mbind outcome_bind].
  eapply decoded_bind; [apply zeroed_ends; lia|]. intros out _ Hout.
  eapply decoded_bind; [eapply expand_ends; [exact Hc|done|lia|by rewrite <- Hs2|done]|].
  intros px _ [Hpl Hpb]. cbn. split_and!; lia || done.
Qed.
