(* ===== verification/PngEncode.v ===== *)
(** * A reference PNG encoder

    True-colour pictures with alpha, one filter per row, stored DEFLATE blocks
    of any sizes, the stream cut into any IDAT chunks: [decode] gives the
    picture back. *)

From S2P Require Import Prelude Png PngFacts PngDecode.
Import Png.

(** ** Filters *)

Definition predictor (f a b c : Z) : Z :=
  if f =? 1 then a else if f =? 2 then b else if f =? 3 then (a + b) / 2 else
  if f =? 4 then paeth a b c else 0.

(** The sample of [img] at a row and a column, less its prediction. *)
Definition residue (f stride bpp y x : Z) (img : bytes) : Z :=
  (byte_at img (y * stride + x) -
   predictor f (near_a stride bpp y x img) (near_b stride y x img) (near_c stride bpp y x img)) mod 256.

Definition filtered_at (fs : bytes) (stride bpp : Z) (img : bytes) (p : Z) : Z :=
  let y := p / (stride + 1) in
  let k := p mod (stride + 1) in
  if k =? 0 then byte_at fs y else residue (byte_at fs y) stride bpp y (k - 1) img.

(** The scan lines of [img], row [y] under filter [fs[y]]. *)
Definition filtered (fs : bytes) (stride bpp height : Z) (img : bytes) : bytes :=
  filtered_at fs stride bpp img <$> seqZ 0 ((stride + 1) * height).

Lemma filtered_length fs stride bpp height img : 0 <= stride -> 0 <= height ->
  len (filtered fs stride bpp height img) = (stride + 1) * height.
Proof. intros. unfold filtered. rewrite length_fmap, length_seqZ. nia. Qed.

Lemma filtered_byte fs stride bpp height img p : 0 <= p < (stride + 1) * height ->
  byte_at (filtered fs stride bpp height img) p = filtered_at fs stride bpp img p.
Proof.
  intros Hp. unfold byte_at, filtered, nth_z. rewrite list_lookup_fmap, lookup_seqZ_lt by lia.
  cbn. f_equal. lia.
Qed.

Lemma divmod_at q n r : 0 <= r < n -> (q * n + r) / n = q /\ (q * n + r) mod n = r.
Proof.
  intros Hr. rewrite Z.add_comm, Z.div_add, Z.mod_add by lia.
  by rewrite Z.div_small, Z.mod_small by lia.
Qed.

Lemma unfilter_byte_val f rb a b c : 0 <= f <= 4 -> 0 <= a -> 0 <= b ->
  unfilter_byte f rb a b c = Val (rb + predictor f a b c).
Proof.
  intros Hf Ha Hb. unfold unfilter_byte, predictor. rewrite Z.quot_div_nonneg by lia.
  destruct (Z.eqb_spec f 0), (Z.eqb_spec f 1), (Z.eqb_spec f 2), (Z.eqb_spec f 3), (Z.eqb_spec f 4);
    try lia; f_equal; lia.
Qed.

Lemma residue_land x p : is_byte x -> Z.land ((x - p) mod 256 + p) 255 = x.
Proof.
  intros Hx. unfold is_byte in Hx. change 255 with (Z.ones 8). rewrite Z.land_ones by lia.
  change (2 ^ 8) with 256. rewrite Zplus_mod_idemp_l. replace (x - p + p) with x by lia.
  by apply Z.mod_small.
Qed.

Lemma byte_at_is_byte b i : is_bytes b -> is_byte (byte_at b i).
Proof.
  intros Hb. unfold byte_at, nth_z. destruct (b !! _) eqn:E; [|done]. by apply (Forall_lookup_1 _ _ _ _ Hb E).
Qed.

(** Buffers that agree up to [p]. *)
Definition agree (p : Z) (a b : bytes) : Prop := len a = len b /\ take (Z.to_nat p) a = take (Z.to_nat p) b.

Lemma agree_at p a b i : agree p a b -> 0 <= i < p -> byte_at a i = byte_at b i.
Proof.
  intros [_ H] Hi. unfold byte_at, nth_z.
  rewrite <- (lookup_take_lt a (Z.to_nat p)), <- (lookup_take_lt b (Z.to_nat p)) by lia. by rewrite H.
Qed.

Lemma agree_all a b : agree (len b) a b -> a = b.
Proof. intros [Hl H]. rewrite <- (firstn_all a), <- (firstn_all b). rewrite Nat2Z.id in H. by replace (length a) with (length b) by lia. Qed.

Lemma agree_insert p a b : agree p a b -> 0 <= p < len b ->
  agree (p + 1) (<[Z.to_nat p := byte_at b p]> a) b.
Proof.
  intros [Hl H] Hp. split; [by rewrite length_insert|].
  replace (Z.to_nat (p + 1)) with (S (Z.to_nat p)) by lia.
  rewrite (take_S_r (<[_ := _]> a) (Z.to_nat p) (byte_at b p)), (take_S_r b (Z.to_nat p) (byte_at b p)).
  - by rewrite take_insert_ge, H by lia.
  - unfold byte_at, nth_z. destruct (lookup_lt_is_Some_2 b (Z.to_nat p)) as [x E]; [lia|]. by rewrite E.
  - apply list_lookup_insert_eq. lia.
Qed.

Lemma agree_near stride bpp y x a b height : 0 <= y < height -> 0 <= x < stride -> 1 <= bpp ->
  agree (y * stride + x) a b ->
  near_a stride bpp y x a = near_a stride bpp y x b /\ near_b stride y x a = near_b stride y x b /\
  near_c stride bpp y x a = near_c stride bpp y x b.
Proof.
  intros Hy Hx Hbpp H. destruct (inside y x stride height Hy Hx) as (H1 & _ & _).
  assert (H4 : 0 < y -> stride <= y * stride) by nia.
  unfold near_a, near_b, near_c. replace ((y - 1) * stride) with (y * stride - stride) by lia.
  destruct (Z.leb_spec bpp x), (Z.ltb_spec 0 y); cbn [andb];
    split_and!; try done; apply (agree_at _ _ _ _ H); lia.
Qed.

Lemma near_nonneg stride bpp y x b : is_bytes b -> 0 <= near_a stride bpp y x b /\ 0 <= near_b stride y x b.
Proof.
  intros Hb. unfold near_a, near_b.
  destruct (bpp <=? x), (0 <? y); repeat (split || lia || apply (byte_at_is_byte b)); done.
Qed.

(** Undoing the filters of filtered scan lines. *)
Lemma unfilter_filtered fs stride bpp height img rest img0 :
  0 <= stride -> 0 <= height -> 1 <= bpp -> Forall (fun f => 0 <= f <= 4) fs -> len fs = height ->
  picture (stride * height) img -> len img0 = stride * height ->
  unfilter (filtered fs stride bpp height img ++ rest) stride bpp height img0 = Val img.
Proof.
  intros Hst Hh Hbpp Hfs Hfl [Hil Hib] H0.
  set (raw := filtered fs stride bpp height img ++ rest).
  assert (Hraw : (stride + 1) * height <= len raw).
  { unfold raw. rewrite length_app, Nat2Z.inj_add, filtered_length by done. lia. }
  assert (Hat : forall p, 0 <= p < (stride + 1) * height -> byte_at raw p = filtered_at fs stride bpp img p).
  { intros p Hp. rewrite <- (filtered_byte fs stride bpp height img p Hp). unfold byte_at, nth_z, raw.
    rewrite lookup_app_l; [done|]. pose proof (filtered_length fs stride bpp height img Hst Hh). lia. }
  assert (H : gives (unfilter raw stride bpp height img0) (fun r => agree (height * stride) r img)).
  { unfold unfilter.
    apply (ends_grid _ (fun y x im => unfilter_at raw stride bpp y x im) (fun p im => agree p im img)); try done.
    { split; [lia|done]. }
    intros y x im Hy Hx Ha. destruct (inside y x stride height Hy Hx) as (H1 & H2 & H3). pose proof Ha as [Hal _].
    rewrite (unfilter_at_eq _ _ _ _ _ _ height) by (done || lia).
    destruct (agree_near stride bpp y x im img height Hy Hx Hbpp Ha) as (-> & -> & ->).
    rewrite !Hat by lia. unfold filtered_at.
    destruct (divmod_at y (stride + 1) 0) as [Ed Em]; [lia|]. rewrite Z.add_0_r in Ed, Em. rewrite Ed, Em.
    replace (y * (stride + 1) + 1 + x) with (y * (stride + 1) + (1 + x)) by lia.
    destruct (divmod_at y (stride + 1) (1 + x)) as [-> ->]; [lia|].
    rewrite Z.eqb_refl, (proj2 (Z.eqb_neq (1 + x) 0)) by lia. replace (1 + x - 1) with x by lia.
    destruct (near_nonneg stride bpp y x img Hib). rewrite unfilter_byte_val; [|..|done|done].
    2: { unfold byte_at, nth_z. destruct (fs !! _) as [f|] eqn:E; cbn; [|lia]. by apply (Forall_lookup_1 _ _ _ _ Hfs E). }
    cbn [mbind outcome_bind ends_or]. unfold residue. rewrite residue_land by by apply byte_at_is_byte.
    apply agree_insert; [done|]. nia. }
  destruct (unfilter raw stride bpp height img0) as [r|e| |]; try done. cbn in H.
  f_equal. apply agree_all. rewrite Hil. by replace (stride * height) with (height * stride) by lia.
Qed.

(** ** Stored blocks *)

Definition stored (final : bool) (c : bytes) : bytes :=
  [if final then 1 else 0; len c mod 256; len c / 256; 255 - len c mod 256; 255 - len c / 256] ++ c.

Fixpoint deflate (blocks : list bytes) : bytes :=
  match blocks with
  | [] => []
  | [c] => stored true c
  | c :: cs => stored false c ++ deflate cs
  end.

(** A reader at the start of a byte. *)
Definition aligned (data : bytes) (pos : Z) (br : BitReader.t) : Prop :=
  BitReader.data br = data /\ BitReader.pos br = pos /\ BitReader.bitcnt br = 0.

Lemma bit_buffered data pos buf cnt : cnt <> 0 ->
  bit (BitReader.mk data pos buf cnt) = (Val (Z.land buf 1), BitReader.mk data pos (Z.shiftr buf 1) (cnt - 1)).
Proof. intros H. unfold bit, refill. cbn [BitReader.bitcnt]. by rewrite (proj2 (Z.eqb_neq _ _) H). Qed.

Lemma bit_aligned br pre b rest : aligned (pre ++ b :: rest) (len pre) br -> len pre < 2 ^ 63 ->
  bit br = (Val (Z.land b 1), BitReader.mk (BitReader.data br) (len pre + 1) (Z.shiftr b 1) 7).
Proof.
  intros (Ed & Ep & Ec) Hl. unfold bit, refill. rewrite Ec, Ed, Ep, length_app. cbn [length Z.eqb].
  rewrite (proj2 (Z.leb_gt _ _)) by lia. unfold nth_z.
  rewrite Nat2Z.id, lookup_app_r, Nat.sub_diag by lia. cbn [lookup list_lookup or_panic mbind outcome_bind].
  rewrite add_u64_val by lia. done.
Qed.

Lemma header_bits br (final : bool) rest pre :
  aligned (pre ++ (if final then 1 else 0) :: rest) (len pre) br -> len pre < 2 ^ 63 ->
  exists br1 br2, bit br = (Val (if final then 1 else 0), br1) /\ bits 2 br1 = (Val 0, br2) /\
    BitReader.data br2 = BitReader.data br /\ BitReader.pos br2 = len pre + 1.
Proof.
  intros Ha Hl. rewrite (bit_aligned _ _ _ _ Ha Hl).
  eexists (BitReader.mk _ _ (Z.shiftr (if final then 1 else 0) 1) _), _. split; [by destruct final|].
  unfold bits. change (seqZ 0 2) with [0; 1]. cbn [bits_loop]. unfold mbind, stM_bind.
  rewrite !bit_buffered by lia. split; [by destruct final|done].
Qed.

Lemma stored_block_val pre c rest out br : let h := [len c mod 256; len c / 256; 255 - len c mod 256; 255 - len c / 256] in
  BitReader.data br = pre ++ h ++ c ++ rest -> BitReader.pos br = len pre ->
  len c < 65536 -> len (pre ++ h ++ c ++ rest) < 2 ^ 63 ->
  exists br', stored_block out br = (Val (out ++ c), br') /\
    aligned (BitReader.data br) (len pre + 4 + len c) br'.
Proof.
  intros h Ed Ep Hc Hl. unfold stored_block, align, gets, modify, lift, mbind, stM_bind.
  cbn [BitReader.data BitReader.pos]. rewrite Ep. rewrite !length_app in Hl. cbn [length h] in Hl.
  assert (Hlen : len (BitReader.data br) = len pre + 4 + len c + len rest).
  { rewrite Ed, !length_app. cbn [length h]. lia. }
  rewrite add_u64_val by lia. rewrite (proj2 (Z.ltb_ge _ _)) by lia.
  assert (Hlo : get_at (BitReader.data br) (len pre) = Val (len c mod 256)).
  { apply get_at_val; [lia|]. by rewrite Ed, lookup_app_r, Nat2Z.id, Nat.sub_diag by lia. }
  assert (Hhi : get_at (BitReader.data br) (len pre + 1) = Val (len c / 256)).
  { apply get_at_val; [lia|]. rewrite Ed, lookup_app_r by lia.
    by replace (Z.to_nat (len pre + 1) - length pre)%nat with 1%nat by lia. }
  rewrite Hlo, Hhi, lor_shiftl_add by lia. change (2 ^ 8) with 256.
  replace (len c mod 256 + len c / 256 * 256) with (len c) by lia.
  rewrite add_u64_val by lia. rewrite (proj2 (Z.ltb_ge _ _)) by lia.
  assert (Hs : slice (E:=Error) (BitReader.data br) (len pre + 4) (len pre + 4 + len c) = Val c).
  { rewrite Ed, (app_assoc pre h). apply slice_app; rewrite length_app; cbn [length h]; lia. }
  rewrite Hs.
  eexists. split; [reflexivity|]. by split_and!; cbn.
Qed.

Lemma inflate_loop_stored bfuel : forall blocks fuel pre rest out br,
  blocks <> [] -> Forall (fun c => len c < 65536) blocks -> (length blocks <= fuel)%nat ->
  aligned (pre ++ deflate blocks ++ rest) (len pre) br -> len (pre ++ deflate blocks ++ rest) < 2 ^ 63 ->
  (inflate_loop fuel bfuel out br).1 = Val (out ++ concat blocks).
Proof.
  induction blocks as [|c cs IH]; intros fuel pre rest out br Hne Hc Hf Ha Hl; [done|].
  destruct fuel as [|fuel]; [cbn in Hf; lia|]. apply Forall_cons in Hc as [Hc Hcs].
  set (final := bool_decide (cs = [])). set (tail := if final then rest else deflate cs ++ rest).
  set (h := [len c mod 256; len c / 256; 255 - len c mod 256; 255 - len c / 256]).
  assert (E : deflate (c :: cs) ++ rest = (if final then 1 else 0) :: h ++ c ++ tail).
  { unfold final, tail. destruct cs as [|c' cs]; cbn -[deflate]; [done|].
    change (deflate (c :: c' :: cs)) with (stored false c ++ deflate (c' :: cs)).
    cbn -[deflate]. by rewrite <- app_assoc. }
  rewrite E in Ha, Hl. rewrite !length_app in Hl. cbn [length] in Hl.
  destruct (header_bits br final _ _ Ha ltac:(lia)) as (br0 & br1 & E0 & E1 & Ed1 & Ep1).
  destruct Ha as (Ed & Ep & Ec). rewrite Ed in Ed1.
  set (b0 := if final then 1 else 0) in *.
  destruct (stored_block_val (pre ++ [b0]) c tail out br1) as (br2 & E2 & Ha2).
  { by rewrite Ed1, <- app_assoc. } { rewrite Ep1, length_app. cbn. lia. } { done. }
  { fold h. rewrite !length_app in Hl |- *. rewrite !length_app. cbn [length]. lia. }
  assert (Estep : inflate_loop (S fuel) bfuel out br =
    if b0 =? 1 then (Val (out ++ c), br2) else inflate_loop fuel bfuel (out ++ c) br2).
  { cbn [inflate_loop]. unfold mbind, stM_bind. rewrite E0, E1.
    change (block bfuel 0 out br1) with (stored_block out br1). rewrite E2. by destruct (b0 =? 1). }
  rewrite Estep. destruct cs as [|c' cs].
  - cbn. by rewrite app_nil_r.
  - assert (Hb0 : b0 = 0) by done. assert (Htail : tail = deflate (c' :: cs) ++ rest) by done.
    rewrite Hb0, Htail in *. cbn [Z.eqb]. change (concat (c :: c' :: cs)) with (c ++ concat (c' :: cs)).
    rewrite app_assoc.
    assert (Epre : pre ++ 0 :: h ++ c ++ deflate (c' :: cs) ++ rest = (pre ++ [0] ++ h ++ c) ++ deflate (c' :: cs) ++ rest).
    { by rewrite <- !app_assoc. }
    apply (IH fuel (pre ++ [0] ++ h ++ c) rest).
    + done. + done. + cbn in Hf |- *. lia.
    + rewrite Ed1, Epre in Ha2. destruct Ha2 as (A1 & A2 & A3). split_and!; [done| |done].
      rewrite A2, !length_app. cbn [length h]. lia.
    + rewrite <- Epre, !length_app. cbn [length]. rewrite !length_app. rewrite !length_app in Hl. lia.
Qed.

Lemma deflate_length blocks : (length blocks <= length (deflate blocks))%nat.
Proof.
  induction blocks as [|c cs IH]; [done|]. destruct cs as [|c' cs]; [cbn; lia|].
  change (deflate (c :: c' :: cs)) with (stored false c ++ deflate (c' :: cs)).
  rewrite length_app. cbn [length] in *. cbn [stored length app]. lia.
Qed.

Lemma deflate_content blocks : (length (concat blocks) <= length (deflate blocks))%nat.
Proof.
  induction blocks as [|c cs IH]; [done|]. destruct cs as [|c' cs]; [cbn; rewrite app_nil_r; lia|].
  change (deflate (c :: c' :: cs)) with (stored false c ++ deflate (c' :: cs)).
  change (concat (c :: c' :: cs)) with (c ++ concat (c' :: cs)).
  rewrite !length_app. cbn [stored length app]. lia.
Qed.

Lemma inflate_deflate blocks rest : blocks <> [] -> Forall (fun c => len c < 65536) blocks ->
  len (deflate blocks ++ rest) < 2 ^ 63 -> inflate (deflate blocks ++ rest) = Val (concat blocks).
Proof.
  intros Hne Hc Hl. unfold inflate.
  rewrite (inflate_loop_stored _ blocks _ [] rest); try done.
  unfold fuel_for. rewrite length_app. pose proof (deflate_length blocks). lia.
Qed.

(** ** The container *)

Definition be32_bytes (x : Z) : bytes := [x / 2 ^ 24 mod 256; x / 2 ^ 16 mod 256; x / 2 ^ 8 mod 256; x mod 256].

Lemma be32_bytes_val x rest : 0 <= x < 2 ^ 32 -> be32 (be32_bytes x ++ rest) = Val x.
Proof.
  intros Hx. change (Val (E:=Error) ((((x / 2 ^ 24 mod 256 * 256 + x / 2 ^ 16 mod 256) * 256
    + x / 2 ^ 8 mod 256) * 256) + x mod 256) = Val x). f_equal. lia.
Qed.

(** A chunk with any four bytes for its checksum, which [decode] skips. *)
Definition chunk_bytes (ctype data crc : bytes) : bytes :=
  be32_bytes (len data) ++ ctype ++ data ++ crc.

Lemma read_chunks_step fuel pre ctype data crc rest c :
  length ctype = 4%nat -> length crc = 4%nat -> len data < 2 ^ 32 ->
  len (pre ++ chunk_bytes ctype data crc ++ rest) < 2 ^ 63 ->
  read_chunks (S fuel) (pre ++ chunk_bytes ctype data crc ++ rest) (len pre) c =
    if str_eqb ctype (str "IEND") then Val c else
    c' ← chunk ctype data c;
    read_chunks fuel (pre ++ chunk_bytes ctype data crc ++ rest) (len (pre ++ chunk_bytes ctype data crc)) c'.
Proof.
  intros Ht Hcrc Hd Hl. set (file := pre ++ chunk_bytes ctype data crc ++ rest) in *.
  assert (Ef : len file = len pre + 12 + len data + len rest).
  { unfold file, chunk_bytes. rewrite !length_app, Ht, Hcrc. cbn [length be32_bytes]. lia. }
  assert (Hpos : len (pre ++ chunk_bytes ctype data crc) = len pre + 8 + len data + 4).
  { unfold chunk_bytes. rewrite !length_app, Ht, Hcrc. cbn [length be32_bytes]. lia. }
  cbn [read_chunks]. rewrite (add_u64_val (len pre)) by lia. cbn [mbind outcome_bind].
  rewrite (proj2 (Z.ltb_ge _ _)) by lia.
  assert (S1 : slice (E:=Error) file (len pre) (len pre + 4) = Val (be32_bytes (len data))).
  { unfold file, chunk_bytes. rewrite <- app_assoc. by apply slice_app. }
  rewrite S1. cbn [mbind outcome_bind]. rewrite <- (app_nil_r (be32_bytes _)), be32_bytes_val by lia.
  cbn [mbind outcome_bind].
  assert (S2 : slice (E:=Error) file (len pre + 4) (len pre + 8) = Val ctype).
  { unfold file, chunk_bytes. rewrite <- !app_assoc, (app_assoc pre). apply slice_app; rewrite length_app, ?Ht; cbn; lia. }
  rewrite S2. cbn [mbind outcome_bind]. rewrite (add_u64_val (len pre + 8)) by lia. cbn [mbind outcome_bind].
  rewrite (add_u64_val (len pre + 8 + len data)) by lia. cbn [mbind outcome_bind].
  rewrite (proj2 (Z.ltb_ge _ _)) by lia.
  assert (S3 : slice (E:=Error) file (len pre + 8) (len pre + 8 + len data) = Val data).
  { unfold file, chunk_bytes. rewrite <- !app_assoc, (app_assoc pre), (app_assoc (pre ++ _)).
    apply slice_app; rewrite !length_app, ?Ht; cbn; lia. }
  rewrite S3. cbn [mbind outcome_bind]. destruct (str_eqb _ _); [done|]. by rewrite Hpos.
Qed.

(** The header chunk's data: 8 bits a channel, colour and alpha, no interlace. *)
Definition header (w h : Z) : bytes := be32_bytes w ++ be32_bytes h ++ [8; 6; 0; 0; 0].

Lemma chunk_header w h c : 0 <= w < 2 ^ 32 -> 0 <= h < 2 ^ 32 ->
  chunk (str "IHDR") (header w h) c = Val (mk_chunks w h 8 6 0 (ck_palette c) (ck_trns c) (ck_idat c)).
Proof.
  intros Hw Hh. unfold chunk. rewrite str_eqb_refl.
  change (len (header w h) <? 13) with false. cbn iota.
  assert (S1 : slice (E:=Error) (header w h) 0 4 = Val (be32_bytes w)) by (by apply (slice_app [])).
  assert (S2 : slice (E:=Error) (header w h) 4 8 = Val (be32_bytes h)) by (by apply (slice_app (be32_bytes w))).
  rewrite S1. cbn [mbind outcome_bind]. rewrite <- (app_nil_r (be32_bytes w)), be32_bytes_val by done.
  cbn [mbind outcome_bind]. rewrite S2. cbn [mbind outcome_bind].
  rewrite <- (app_nil_r (be32_bytes h)), be32_bytes_val by done. done.
Qed.

(** The IDAT chunks: each piece of the stream and its checksum. *)
Definition idats (pieces : list (bytes * bytes)) : bytes :=
  concat ((fun p => chunk_bytes (str "IDAT") p.1 p.2) <$> pieces).

Lemma read_idats pieces : forall fuel pre rest c,
  Forall (fun p : bytes * bytes => len p.1 < 2 ^ 32 /\ length p.2 = 4%nat) pieces ->
  len (pre ++ idats pieces ++ rest) < 2 ^ 63 ->
  read_chunks (length pieces + fuel) (pre ++ idats pieces ++ rest) (len pre) c =
  read_chunks fuel (pre ++ idats pieces ++ rest) (len (pre ++ idats pieces))
    (mk_chunks (ck_width c) (ck_height c) (ck_depth c) (ck_color c) (ck_interlace c)
      (ck_palette c) (ck_trns c) (ck_idat c ++ concat pieces.*1)).
Proof.
  induction pieces as [|[d crc] pieces IH]; intros fuel pre rest c Hp Hl.
  { cbn. rewrite !app_nil_r. by destruct c. }
  apply Forall_cons in Hp as [[Hd Hcrc] Hp]. cbn [fst snd] in *.
  change (idats ((d, crc) :: pieces)) with (chunk_bytes (str "IDAT") d crc ++ idats pieces) in *.
  rewrite <- app_assoc in *. cbn [length Nat.add].
  rewrite read_chunks_step by done. change (str_eqb (str "IDAT") (str "IEND")) with false. cbn iota.
  change (chunk (str "IDAT") d c) with (Val (E:=Error) (mk_chunks (ck_width c) (ck_height c) (ck_depth c) (ck_color c)
    (ck_interlace c) (ck_palette c) (ck_trns c) (ck_idat c ++ d))).
  cbn [mbind outcome_bind]. rewrite (app_assoc pre) in *. rewrite IH by done.
  cbn [ck_width ck_height ck_depth ck_color ck_interlace ck_palette ck_trns ck_idat fmap list_fmap concat fst].
  by rewrite <- !app_assoc.
Qed.

(** ** Pixels *)

Lemma agree_splice i px a b : agree i a b -> 0 <= i -> i + len px <= len b ->
  take (length px) (drop (Z.to_nat i) b) = px ->
  gives (splice (E:=Error) a i px) (fun r => agree (i + len px) r b).
Proof.
  intros [Hl Ha] Hi Hb Hpx. unfold splice. rewrite !(proj2 (Z.leb_le _ _)) by lia. cbn [andb ends_or].
  split; [rewrite !length_app, length_take, length_drop; lia|].
  rewrite Ha, (app_assoc _ px). rewrite take_app_le by (rewrite length_app, length_take; lia).
  rewrite take_ge by (rewrite length_app, length_take; lia).
  replace (Z.to_nat (i + len px)) with (Z.to_nat i + length px)%nat by lia.
  rewrite <- (take_take_drop b (Z.to_nat i) (length px)). by rewrite Hpx.
Qed.

Lemma expand_rgba c n img out : ck_color c = 6 -> 0 <= n -> len img = n * 4 -> len out = n * 4 ->
  expand c img n out = Val img.
Proof.
  intros Hc Hn Hi Ho.
  assert (H : gives (expand c img n out) (fun r => agree (n * 4) r img)).
  { unfold expand. apply (ends_range _ _ (fun i r => agree (i * 4) r img)); [done|by split; [lia|]|].
    intros i s Hir Ha. unfold pixel. rewrite Hc. cbn [Z.eqb Pos.eqb].
    rewrite !get_at_byte_at by lia. cbn [mbind outcome_bind].
    replace ((i + 1) * 4) with (i * 4 + len [byte_at img (i * 4); byte_at img (i * 4 + 1); byte_at img (i * 4 + 2); byte_at img (i * 4 + 3)]) by (cbn; lia).
    apply agree_splice; [done|lia|cbn; lia|]. apply list_eq. intros j.
    destruct (decide (j < 4)%nat) as [Hj|Hj].
    - rewrite lookup_take_lt, lookup_drop by done.
      assert (Hat : img !! (Z.to_nat (i * 4) + j)%nat = Some (byte_at img (i * 4 + Z.of_nat j))).
      { unfold byte_at, nth_z. replace (Z.to_nat (i * 4 + Z.of_nat j)) with (Z.to_nat (i * 4) + j)%nat by lia.
        destruct (lookup_lt_is_Some_2 img (Z.to_nat (i * 4) + j)) as [x E]; [lia|]. by rewrite E. }
      rewrite Hat. destruct j as [|[|[|[|j]]]]; cbn; [by rewrite Z.add_0_r|done..|lia].
    - rewrite lookup_take_ge, lookup_ge_None_2 by (cbn; lia). done. }
  destruct (expand c img n out) as [r|e| |]; try done. cbn in H. f_equal. apply agree_all. by rewrite Hi.
Qed.

(** ** The whole file *)

(** A file for [img]: [fs] the row filters, [blocks] the stored blocks, [pieces]
    the IDAT chunks, [crc] and [crc'] the other checksums. *)
Definition encode (w h : Z) (pieces : list (bytes * bytes)) (crc crc' : bytes) : bytes :=
  SIG ++ chunk_bytes (str "IHDR") (header w h) crc ++ idats pieces ++ chunk_bytes (str "IEND") [] crc'.

Record encoding (w h : Z) (img fs : bytes) (blocks : list bytes) (pieces : list (bytes * bytes)) (crc crc' : bytes) : Prop := {
  en_width : 0 < w < 2 ^ 32;
  en_height : 0 < h < 2 ^ 32;
  en_image : picture (w * 4 * h) img;
  en_filters : Forall (fun f => 0 <= f <= 4) fs /\ len fs = h;
  en_blocks : Forall (fun c => len c < 65536) blocks /\ concat blocks = filtered fs (w * 4) 4 h img;
  en_pieces : Forall (fun p : bytes * bytes => len p.1 < 2 ^ 32 /\ length p.2 = 4%nat) pieces;
  en_stream : exists cmf flg adler, concat pieces.*1 = [cmf; flg] ++ deflate blocks ++ adler;
  en_crc : length crc = 4%nat /\ length crc' = 4%nat;
  en_size : len (encode w h pieces crc crc') < 2 ^ 48
}.

Lemma read_encode w h pieces crc crc' :
  0 < w < 2 ^ 32 -> 0 < h < 2 ^ 32 -> length crc = 4%nat -> length crc' = 4%nat ->
  Forall (fun p : bytes * bytes => len p.1 < 2 ^ 32 /\ length p.2 = 4%nat) pieces ->
  len (encode w h pieces crc crc') < 2 ^ 63 ->
  read_chunks (length (encode w h pieces crc crc')) (encode w h pieces crc crc') 8 no_chunks =
    Val (mk_chunks w h 8 6 0 [] [] (concat pieces.*1)).
Proof.
  intros Hw Hh Hcrc Hcrc' Hp Hl. set (file := encode w h pieces crc crc') in *.
  assert (Hfuel : exists fuel, length file = S (length pieces + S fuel)).
  { assert (Hle : (length pieces <= length (idats pieces))%nat).
    { clear. induction pieces as [|p pieces IH]; [done|]. cbn [length].
      change (idats (p :: pieces)) with (chunk_bytes (str "IDAT") p.1 p.2 ++ idats pieces).
      rewrite length_app. unfold chunk_bytes. rewrite length_app. cbn [be32_bytes length]. lia. }
    exists (length file - length pieces - 2)%nat. unfold file, encode in *. rewrite !length_app.
    cbn [SIG length]. lia. }
  destruct Hfuel as [fuel ->]. unfold file, encode in *.
  change 8 with (len SIG) at 1.
  rewrite read_chunks_step by done. change (str_eqb (str "IHDR") (str "IEND")) with false. cbn iota.
  rewrite chunk_header by lia. cbn [mbind outcome_bind ck_palette ck_trns ck_idat no_chunks].
  rewrite (app_assoc SIG) in *. rewrite read_idats by done.
  rewrite (app_assoc (SIG ++ _)) in *.
  rewrite <- (app_nil_r (chunk_bytes (str "IEND") [] crc')) in *.
  by rewrite read_chunks_step.
Qed.

Lemma zeroed_val n : n < 2 ^ 63 -> zeroed n = Val (replicate (Z.to_nat n) 0).
Proof. intros Hn. unfold zeroed. by rewrite (proj2 (Z.ltb_lt _ _)). Qed.

Lemma decode_encoded w h img fs blocks pieces crc crc' : encoding w h img fs blocks pieces crc crc' ->
  decode (encode w h pieces crc crc') = Val (mk_image w h img).
Proof.
  intros [Hw Hh Hi [Hf Hfl] [Hb Hbc] Hp (cmf & flg & adler & Hs) [Hc Hc'] Hl].
  unfold decode.
  assert (Hsig : (len (encode w h pieces crc crc') <? 8) || negb (bool_decide (take 8 (encode w h pieces crc crc') = SIG)) = false).
  { unfold encode. rewrite length_app. rewrite (proj2 (Z.ltb_ge _ _)) by (cbn [length SIG]; lia).
    change (take 8 (SIG ++ ?x)) with SIG. by rewrite bool_decide_eq_true_2. }
  rewrite Hsig, read_encode by (done || lia). cbn [mbind outcome_bind ck_width ck_height ck_depth ck_color ck_interlace ck_idat].
  rewrite !(proj2 (Z.eqb_neq _ _)) by lia. cbn [orb negb Z.eqb Pos.eqb channels_of mbind outcome_bind].
  assert (Hlen : len (concat pieces.*1) <= len (encode w h pieces crc crc')).
  { unfold encode. rewrite !length_app. clear. enough (length (concat pieces.*1) <= length (idats pieces))%nat by lia.
    induction pieces as [|p pieces IH]; [done|]. cbn [fmap list_fmap concat].
    change (idats (p :: pieces)) with (chunk_bytes (str "IDAT") p.1 p.2 ++ idats pieces).
    unfold chunk_bytes. rewrite !length_app. lia. }
  set (stream := concat pieces.*1) in *.
  assert (Hsl : len stream = 2 + len (deflate blocks ++ adler)) by (rewrite Hs, length_app; cbn [length]; lia).
  assert (Hz : slice (E:=Error) stream 2 (len stream) = Val (deflate blocks ++ adler)).
  { rewrite Hsl, Hs, <- (app_nil_r (deflate blocks ++ adler)) at 1. apply slice_app; [done|cbn [length]; lia]. }
  rewrite (proj2 (Z.ltb_ge _ 2)), !ok_or_checked_mul by lia. cbn [mbind outcome_bind].
  rewrite Hz. cbn [mbind outcome_bind].
  pose proof (filtered_length fs (w * 4) 4 h img ltac:(lia) ltac:(lia)) as HF. rewrite <- Hbc in HF.
  assert (Hblocks : blocks <> []) by (intros ->; cbn in HF; nia).
  rewrite inflate_deflate by (done || lia). cbn [mbind outcome_bind].
  pose proof (deflate_content blocks) as Hcontent. rewrite length_app in Hsl.
  destruct (sizes w h 4 (len (concat blocks))) as (Hs0 & Hs1 & Hs2 & Hs3 & Hs4); [lia..|].
  rewrite (add_u64_val (w * 4)) by lia. cbn [mbind outcome_bind].
  rewrite (mul_u64_val (w * 4 + 1)) by lia. cbn [mbind outcome_bind].
  rewrite (proj2 (Z.ltb_ge _ _)) by lia.
  rewrite (mul_u64_val (w * 4)) by lia. cbn [mbind outcome_bind].
  rewrite (zeroed_val (w * 4 * h)) by lia. cbn [mbind outcome_bind].
  rewrite Hbc, <- (app_nil_r (filtered _ _ _ _ _)).
  rewrite unfilter_filtered; try done; try lia; [|rewrite length_replicate; lia].
  cbn [mbind outcome_bind]. rewrite mul_u64_val by lia. cbn [mbind outcome_bind].
  rewrite zeroed_val by lia. cbn [mbind outcome_bind]. destruct Hi as [Hil _].
  rewrite expand_rgba; [done|done|lia|lia|rewrite length_replicate; lia].
Qed.
