(* ===== verification/PngHuffman.v ===== *)
(** * Canonical Huffman codes

    The reference code of RFC 1951 (the shorter codes first, in symbol order)
    and the decoder's inverse of it. *)

From S2P Require Import Prelude Png PngFacts.
Import Png.

(** RFC 1951, 3.2.2: [next_code]. *)
Definition bl_count (lengths : list Z) (n : nat) : Z := if (n =? 0)%nat then 0 else cnt (Z.of_nat n) lengths.
Fixpoint next_code (lengths : list Z) (n : nat) : Z :=
  match n with
  | O => 0
  | S n' => 2 * (next_code lengths n' + bl_count lengths n')
  end.

(** The code of symbol [s], of length [l]: the symbols of its length take
    consecutive codes. *)
Definition code_of (lengths : list Z) (s l : nat) : Z := next_code lengths l + cnt (Z.of_nat l) (take s lengths).

(** The codes are not oversubscribed. *)
Definition kraft (lengths : list Z) : Prop := next_code lengths 15 + bl_count lengths 15 <= 2 ^ 15.

(** The low [n] bits of a code, the highest first. *)
Fixpoint msb (n : nat) (x : Z) : list Z :=
  match n with
  | O => []
  | S n' => x / 2 ^ Z.of_nat n' mod 2 :: msb n' x
  end.

(** The next bits of the stream. *)
Fixpoint reads (bs : list Z) (br br' : BitReader.t) : Prop :=
  match bs with
  | [] => br = br'
  | b :: bs' => exists br1, bit br = (Val b, br1) /\ reads bs' br1 br'
  end.

Lemma bl_count_nonneg lengths n : 0 <= bl_count lengths n.
Proof. unfold bl_count. destruct (n =? 0)%nat; [lia|apply cnt_nonneg]. Qed.
Lemma next_code_nonneg lengths n : 0 <= next_code lengths n.
Proof. induction n as [|n IH]; cbn [next_code]; [lia|]. pose proof (bl_count_nonneg lengths n). lia. Qed.

(** The codes of length [j] lie below the prefixes of the longer ones. *)
Lemma next_code_prefix lengths j l : (j < l)%nat ->
  (next_code lengths j + bl_count lengths j) * 2 ^ Z.of_nat (l - j) <= next_code lengths l.
Proof.
  induction 1 as [|l Hl IH].
  - replace (S j - j)%nat with 1%nat by lia. cbn [next_code]. lia.
  - cbn [next_code]. replace (S l - j)%nat with (S (l - j)) by lia.
    rewrite Nat2Z.inj_succ, Z.pow_succ_r by lia. pose proof (bl_count_nonneg lengths l). nia.
Qed.

Lemma kraft_at lengths l : kraft lengths -> (l <= 15)%nat -> next_code lengths l + bl_count lengths l <= 2 ^ Z.of_nat l.
Proof.
  intros Hk Hl. destruct (decide (l = 15)%nat) as [->|Hne]; [done|].
  pose proof (next_code_prefix lengths l 15 ltac:(lia)) as H. unfold kraft in Hk.
  pose proof (bl_count_nonneg lengths 15).
  assert (H2 : (2 ^ 15 = 2 ^ Z.of_nat l * 2 ^ Z.of_nat (15 - l))) by (rewrite <- Z.pow_add_r by lia; f_equal; lia).
  pose proof (Z.pow_pos_nonneg 2 (Z.of_nat (15 - l)) ltac:(lia) ltac:(lia)). nia.
Qed.

Lemma decode_loop_code lengths h s l : table_of lengths h -> lengths_ok lengths -> kraft lengths ->
  lengths !! s = Some (Z.of_nat l) -> (1 <= l)%nat ->
  forall k j, (j + k = l)%nat -> (1 <= j)%nat -> forall br br', reads (msb (S k) (code_of lengths s l)) br br' ->
  decode_loop h (seqZ (Z.of_nat j) (16 - Z.of_nat j)) (2 * (code_of lengths s l / 2 ^ Z.of_nat (S k)))
    (next_code lengths j) (below j lengths) br = (Val (Z.of_nat s), br').
Proof.
  intros Ht Hok Hk Es Hl1. pose proof Hok as [Hr Hn]. pose proof (Forall_lookup_1 _ _ _ _ Hr Es) as Hl. cbn in Hl.
  set (code := code_of lengths s l).
  assert (Hcode : 0 <= code < 2 ^ Z.of_nat l /\ next_code lengths l <= code /\
    code - next_code lengths l = cnt (Z.of_nat l) (take s lengths)).
  { pose proof (kraft_at lengths l Hk ltac:(lia)) as Hkl. pose proof (next_code_nonneg lengths l).
    unfold bl_count in Hkl. rewrite (proj2 (Nat.eqb_neq l 0)) in Hkl by lia.
    pose proof (cnt_take_lt_all _ _ _ Es). pose proof (cnt_nonneg (Z.of_nat l) (take s lengths)).
    unfold code, code_of. lia. }
  destruct Hcode as (Hc1 & Hc2 & Hc3).
  assert (Hstep : forall k j br br', (j + k = l)%nat -> (1 <= j)%nat -> reads (msb (S k) code) br br' ->
    exists br1, reads (msb k code) br1 br' /\
    decode_loop h (seqZ (Z.of_nat j) (16 - Z.of_nat j)) (2 * (code / 2 ^ Z.of_nat (S k)))
      (next_code lengths j) (below j lengths) br =
    if code / 2 ^ Z.of_nat k - next_code lengths j <? bl_count lengths j then
      (let i := below j lengths + (code / 2 ^ Z.of_nat k - next_code lengths j) in
       ok_or Inflate (if i <? 0 then None else nth_z (Huffman.symbols h) i), br1)
    else decode_loop h (seqZ (Z.of_nat (S j)) (16 - Z.of_nat (S j))) (2 * (code / 2 ^ Z.of_nat k))
      (next_code lengths (S j)) (below (S j) lengths) br1).
  { intros k j br br' Hj Hj1 (br1 & Eb & Hb). exists br1. split; [done|].
    pose proof (kraft_at lengths j Hk ltac:(lia)). pose proof (bl_count_nonneg lengths j).
    pose proof (next_code_nonneg lengths j). pose proof (below_le j lengths). pose proof (below_nonneg j lengths).
    pose proof (Z.pow_le_mono_r 2 (Z.of_nat j) 15 ltac:(lia) ltac:(lia)).
    pose proof (Z.pow_le_mono_r 2 (Z.of_nat l) 15 ltac:(lia) ltac:(lia)).
    assert (Ebit : 2 * (code / 2 ^ Z.of_nat (S k)) + code / 2 ^ Z.of_nat k mod 2 = code / 2 ^ Z.of_nat k).
    { rewrite Nat2Z.inj_succ, Z.pow_succ_r, (Z.mul_comm 2 (2 ^ _)), <- (Z.div_div code) by lia. lia. }
    assert (Hsmall : 0 <= code / 2 ^ Z.of_nat (S k) < 2 ^ 14).
    { rewrite Nat2Z.inj_succ, Z.pow_succ_r, <- Z.div_div by lia.
      pose proof (Z.pow_pos_nonneg 2 (Z.of_nat k) ltac:(lia) ltac:(lia)). split; [apply Z.div_pos; lia|].
      apply Z.le_lt_trans with (code / 2); [|lia]. apply Z.div_le_upper_bound; [lia|].
      rewrite <- (Z.mul_1_l (code / 2)) at 1. apply Z.mul_le_mono_nonneg_r; lia. }
    rewrite seqZ_cons by lia.
    rewrite (decode_loop_eq h (Z.of_nat j) _ (code / 2 ^ Z.of_nat (S k)) _ _ (code / 2 ^ Z.of_nat k mod 2) br br1 (bl_count lengths j) lengths Ht Hok); try done; try lia.
    2: { unfold bl_count. by rewrite (proj2 (Nat.eqb_neq j 0)) by lia. }
    rewrite Ebit. cbn [next_code below]. unfold bl_count. rewrite (proj2 (Nat.eqb_neq j 0)) by lia.
    by replace (Z.succ (Z.of_nat j)) with (Z.of_nat (S j)) by lia;
      replace (Z.pred (16 - Z.of_nat j)) with (16 - Z.of_nat (S j)) by lia. }
  induction k as [|k IH]; intros j Hj Hj1 br br' Hb; destruct (Hstep _ _ _ _ Hj Hj1 Hb) as (br1 & Hb1 & ->).
  - replace j with l by lia. cbn in Hb1. subst br'. rewrite Z.pow_0_r, Z.div_1_r, Hc3.
    pose proof (cnt_take_lt_all _ _ _ Es). pose proof (cnt_nonneg (Z.of_nat l) (take s lengths)).
    pose proof (below_nonneg l lengths).
    unfold bl_count. rewrite (proj2 (Nat.eqb_neq l 0)), (proj2 (Z.ltb_lt _ _)) by lia. cbn zeta.
    rewrite (proj2 (Z.ltb_ge _ _)) by lia. unfold nth_z.
    pose proof (to_symbol _ _ Ht s (Z.of_nat l) Es ltac:(lia)) as Hsym. rewrite Nat2Z.id in Hsym. by rewrite Hsym.
  - rewrite (proj2 (Z.ltb_ge _ _)); [by apply IH; [lia|lia|]|].
    pose proof (next_code_prefix lengths j l ltac:(lia)) as Hp. replace (l - j)%nat with (S k) in Hp by lia.
    pose proof (Z.div_le_lower_bound code (2 ^ Z.of_nat (S k)) (next_code lengths j + bl_count lengths j)) as Hd.
    pose proof (Z.pow_pos_nonneg 2 (Z.of_nat (S k)) ltac:(lia) ltac:(lia)). lia.
Qed.

Lemma decode_sym_code lengths h s l br br' : build lengths = Val h -> lengths_ok lengths -> kraft lengths ->
  lengths !! s = Some (Z.of_nat l) -> (1 <= l)%nat ->
  reads (msb l (code_of lengths s l)) br br' -> decode_sym h br = (Val (Z.of_nat s), br').
Proof.
  intros Hh Hok Hk Es Hl Hb. pose proof (build_ends lengths Hok) as Ht. rewrite Hh in Ht. cbn in Ht.
  pose proof (decode_loop_code lengths h s l Ht Hok Hk Es Hl (l - 1) 1 ltac:(lia) ltac:(lia) br br') as H.
  replace (S (l - 1)) with l in H by lia. specialize (H Hb).
  assert (E0 : code_of lengths s l / 2 ^ Z.of_nat l = 0).
  { apply Z.div_small. pose proof (Forall_lookup_1 _ _ _ _ (proj1 Hok) Es) as Hlb. cbn in Hlb.
    pose proof (kraft_at lengths l Hk ltac:(lia)) as Hkl. unfold bl_count in Hkl.
    rewrite (proj2 (Nat.eqb_neq l 0)) in Hkl by lia. pose proof (next_code_nonneg lengths l).
    pose proof (cnt_take_lt_all _ _ _ Es). pose proof (cnt_nonneg (Z.of_nat l) (take s lengths)).
    unfold code_of. lia. }
  rewrite E0 in H. exact H.
Qed.

(** ** Compressed blocks *)

(** The low [n] bits of a value, the lowest first. *)
Fixpoint lsb (n : nat) (x : Z) : list Z :=
  match n with
  | O => []
  | S n' => x mod 2 :: lsb n' (x / 2)
  end.

Lemma reads_app bs1 bs2 br br' :
  reads (bs1 ++ bs2) br br' <-> exists br1, reads bs1 br br1 /\ reads bs2 br1 br'.
Proof.
  revert br. induction bs1 as [|b bs1 IH]; intros br; cbn; [naive_solver|].
  setoid_rewrite IH. naive_solver.
Qed.

Lemma bits_loop_lsb k : forall i v br br', 0 <= i -> 0 <= v -> reads (lsb k (v / 2 ^ i)) br br' ->
  bits_loop (seqZ i (Z.of_nat k)) (v mod 2 ^ i) br = (Val (v mod 2 ^ (i + Z.of_nat k)), br').
Proof.
  induction k as [|k IH]; intros i v br br' Hi Hv; cbn [lsb reads].
  { intros ->. by rewrite Z.add_0_r. }
  intros (br1 & Eb & Hr). rewrite seqZ_cons by lia. cbn [bits_loop]. unfold mbind, stM_bind. rewrite Eb.
  pose proof (Z.pow_pos_nonneg 2 i ltac:(lia) ltac:(lia)).
  rewrite lor_shiftl_add by (lia || (apply Z.mod_pos_bound; lia)).
  replace (v mod 2 ^ i + v / 2 ^ i mod 2 * 2 ^ i) with (v mod 2 ^ Z.succ i).
  2: { rewrite Z.pow_succ_r, (Z.mul_comm 2 (2 ^ i)), Z.rem_mul_r by lia. lia. }
  replace (Z.pred (Z.of_nat (S k))) with (Z.of_nat k) by lia.
  rewrite (IH (Z.succ i) v br1 br') by (lia || (by rewrite Z.pow_succ_r, (Z.mul_comm 2 (2 ^ i)), <- Z.div_div by lia)).
  by replace (Z.succ i + Z.of_nat k) with (i + Z.of_nat (S k)) by lia.
Qed.

Lemma bits_lsb n v br br' : 0 <= n -> 0 <= v < 2 ^ n -> reads (lsb (Z.to_nat n) v) br br' -> bits n br = (Val v, br').
Proof.
  intros Hn Hv Hr. unfold bits. pose proof (bits_loop_lsb (Z.to_nat n) 0 v br br' ltac:(lia) ltac:(lia)) as H.
  rewrite Z.pow_0_r, Z.div_1_r, Z.mod_1_r, Z2Nat.id, Z.add_0_l, Z.mod_small in H by lia. by apply H.
Qed.

(** [n] bytes, each a copy of the one [distance] back: the copy may overlap
    what it has written. *)
Fixpoint repeat_back (n : nat) (distance : Z) (out : bytes) : bytes :=
  match n with
  | O => out
  | S n' => repeat_back n' distance (out ++ [default 0 (nth_z out (len out - distance))])
  end.

Lemma copy_repeat_back n distance : forall out, 1 <= distance <= len out ->
  copy n (len out - distance) out = Val (repeat_back n distance out).
Proof.
  induction n as [|n IH]; intros out Hd; cbn [copy repeat_back]; [done|].
  unfold get_at, nth_z. destruct (lookup_lt_is_Some_2 out (Z.to_nat (len out - distance))) as [x E]; [lia|].
  rewrite E. cbn [or_panic mbind outcome_bind default].
  replace (len out - distance + 1) with (len (out ++ [x]) - distance) by (rewrite length_app; cbn; lia).
  apply IH. rewrite length_app. cbn. lia.
Qed.

(** The code of symbol [s] under a table of lengths. *)
Definition code (lengths : list Z) (s : Z) (bs : list Z) : Prop :=
  exists l, lengths !! Z.to_nat s = Some (Z.of_nat l) /\ (1 <= l)%nat /\ 0 <= s /\
    bs = msb l (code_of lengths (Z.to_nat s) l).

(** RFC 1951, 3.2.5: the bits of a compressed block, and the output they stand
    for after [out]. *)
Inductive block_of (lit dist : list Z) : bytes -> list Z -> bytes -> Prop :=
  | end_of_block out bs : code lit 256 bs -> block_of lit dist out bs out
  | literal out b bs rest out' : is_byte b -> code lit b bs ->
      block_of lit dist (out ++ [b]) rest out' -> block_of lit dist out (bs ++ rest) out'
  | reference out s bs base e m d ds dbase de dm rest out' :
      code lit (257 + s) bs -> 0 <= s -> LEN_BASE !! Z.to_nat s = Some base -> LEN_EXTRA !! Z.to_nat s = Some e ->
      0 <= m < 2 ^ e ->
      code dist d ds -> DIST_BASE !! Z.to_nat d = Some dbase -> DIST_EXTRA !! Z.to_nat d = Some de ->
      0 <= dm < 2 ^ de ->
      dbase + dm <= len out ->
      block_of lit dist (repeat_back (Z.to_nat (base + m)) (dbase + dm) out) rest out' ->
      block_of lit dist out (bs ++ lsb (Z.to_nat e) m ++ ds ++ lsb (Z.to_nat de) dm ++ rest) out'.

Lemma decode_code lengths h s bs br br' : build lengths = Val h -> lengths_ok lengths -> kraft lengths ->
  code lengths s bs -> reads bs br br' -> decode_sym h br = (Val s, br').
Proof.
  intros Hh Hok Hk (l & E & Hl & Hs & ->) Hr.
  rewrite (decode_sym_code lengths h (Z.to_nat s) l br br' Hh Hok Hk E Hl Hr). by rewrite Z2Nat.id.
Qed.

Lemma code_bits lengths s bs : code lengths s bs -> (1 <= length bs)%nat.
Proof. intros (l & _ & Hl & _ & ->). destruct l as [|l]; [lia|]. cbn. lia. Qed.

Lemma extra_bounds base extra s b e : forallb (fun p => (0 <=? p.2) && (1 <=? p.1)) (zip base extra) = true ->
  base !! s = Some b -> extra !! s = Some e -> 0 <= e /\ 1 <= b.
Proof.
  intros H Eb Ee. rewrite List.forallb_forall in H. specialize (H (b, e)). cbn in H.
  assert (Hin : List.In (b, e) (zip base extra)) by (apply list_elem_of_In, list_elem_of_lookup; exists s; by rewrite lookup_zip_with, Eb, Ee).
  apply H in Hin. bools. lia.
Qed.

Lemma back_reference_val dist h s base e m d ds dbase de dm out br br' :
  build dist = Val h -> lengths_ok dist -> kraft dist -> 0 <= s ->
  LEN_BASE !! Z.to_nat s = Some base -> LEN_EXTRA !! Z.to_nat s = Some e -> 0 <= m < 2 ^ e ->
  code dist d ds -> DIST_BASE !! Z.to_nat d = Some dbase -> DIST_EXTRA !! Z.to_nat d = Some de -> 0 <= dm < 2 ^ de ->
  dbase + dm <= len out ->
  reads (lsb (Z.to_nat e) m ++ ds ++ lsb (Z.to_nat de) dm) br br' ->
  back_reference h s out br = (Val (repeat_back (Z.to_nat (base + m)) (dbase + dm) out), br').
Proof.
  intros Hh Hok Hk Hs Eb Ee Hm Hd Edb Ede Hdm Hout Hr.
  apply reads_app in Hr as (br1 & R1 & Hr). apply reads_app in Hr as (br2 & R2 & R3).
  destruct (extra_bounds LEN_BASE LEN_EXTRA _ _ _ ltac:(by vm_compute) Eb Ee) as [He0 _].
  destruct (extra_bounds DIST_BASE DIST_EXTRA _ _ _ ltac:(by vm_compute) Edb Ede) as [Hde0 Hdb1].
  assert (Hd0 : 0 <= d) by (by destruct Hd as (? & ? & ? & ? & ?)).
  unfold back_reference. pose proof (lookup_lt_Some _ _ _ Eb). rewrite (proj2 (Z.leb_gt _ _)) by lia.
  rewrite (get_at_val LEN_BASE s base), (get_at_val LEN_EXTRA s e) by done.
  unfold mbind, stM_bind, lift. rewrite (bits_lsb e m br br1) by done.
  rewrite (decode_code dist h d ds br1 br2) by done. pose proof (lookup_lt_Some _ _ _ Edb).
  rewrite (proj2 (Z.leb_gt _ _)) by lia.
  rewrite (get_at_val DIST_BASE d dbase), (get_at_val DIST_EXTRA d de) by done.
  rewrite (bits_lsb de dm br2 br') by done.
  rewrite (proj2 (Z.eqb_neq _ _)), (proj2 (Z.ltb_ge _ _)) by lia. cbn [orb].
  by rewrite copy_repeat_back by lia.
Qed.

Lemma inflate_block_val lit dist hl hd out bs out' : build lit = Val hl -> build dist = Val hd ->
  lengths_ok lit -> lengths_ok dist -> kraft lit -> kraft dist -> block_of lit dist out bs out' ->
  forall fuel br br', (length bs < fuel)%nat -> reads bs br br' ->
  inflate_block fuel out hl hd br = (Val out', br').
Proof.
  intros Hl Hd Hokl Hokd Hkl Hkd. induction 1 as [out bs Hc|out b bs rest out' Hb Hc _ IH|
    out s bs base e m d ds dbase de dm rest out' Hc Hs Eb Ee Hm Hcd Edb Ede Hdm Hdist _ IH];
    intros fuel br br' Hf Hr; (destruct fuel as [|fuel]; [lia|]); cbn [inflate_block].
  - unfold mbind, stM_bind. by rewrite (decode_code lit hl 256 bs br br') by done.
  - apply reads_app in Hr as (br1 & R1 & R2). unfold mbind, stM_bind.
    rewrite (decode_code lit hl b bs br br1) by done. unfold is_byte in Hb.
    rewrite (proj2 (Z.eqb_neq _ _)), (proj2 (Z.ltb_lt _ _)) by lia.
    assert (Eu : as_u8 b = b) by (unfold as_u8; apply Z.mod_small; lia). rewrite Eu.
    pose proof (code_bits _ _ _ Hc). rewrite length_app in Hf. apply IH; [lia|done].
  - rewrite !app_assoc, <- (app_assoc bs), <- (app_assoc bs) in Hr.
    apply reads_app in Hr as (br1 & Hr & R2). apply reads_app in Hr as (br0 & R0 & R1).
    unfold mbind, stM_bind. rewrite (decode_code lit hl (257 + s) bs br br0) by done.
    rewrite (proj2 (Z.eqb_neq _ _)), (proj2 (Z.ltb_ge _ _)) by lia.
    replace (257 + s - 257) with s by lia. rewrite <- app_assoc in R1.
    rewrite (back_reference_val dist hd s base e m d ds dbase de dm out br0 br1) by done.
    pose proof (code_bits _ _ _ Hc). rewrite !length_app in Hf. apply IH; [lia|done].
Qed.
