(* ===== verification/PngTheorems.v ===== *)
(** * Theorems on the PNG decoder *)

From S2P Require Import Prelude Png PngFacts PngDecode PngEncode PngHuffman.
Import Png.

(** A one-pixel picture and its file. *)
Definition pixel_1x1 : bytes := [200; 100; 50; 255].
Definition pixel_stream : bytes := [120; 1] ++ deflate [filtered [1] 4 4 1 pixel_1x1] ++ [0; 0; 0; 0].
Definition pixel_file : bytes := encode 1 1 [(pixel_stream, [0; 0; 0; 0])] [0; 0; 0; 0] [0; 0; 0; 0].

Lemma pixel_encoding : encoding 1 1 pixel_1x1 [1] [filtered [1] 4 4 1 pixel_1x1]
  [(pixel_stream, [0; 0; 0; 0])] [0; 0; 0; 0] [0; 0; 0; 0].
Proof.
  split; [lia|lia| | | | | |done|by vm_compute].
  - split; [done|]. by repeat (apply Forall_cons; split).
  - split; [|done]. repeat constructor; lia.
  - split; [|by vm_compute]. by repeat (apply Forall_cons; split).
  - by repeat (apply Forall_cons; split).
  - exists 120, 1, [0; 0; 0; 0]. by vm_compute.
Qed.

(** C29: the decoder is safe on every file of at most 2^48 bytes: it ends, a
    picture it returns has positive dimensions and exactly four bytes for each
    pixel, and the only abort left is the product of the header's row size and
    height, which the code does not check. *)
Theorem png_decode_safe (file : bytes) : is_bytes file -> len file < 2 ^ 48 ->
  match decode file with
  | Val img =>
      0 < width img < 2 ^ 32 /\ 0 < height img < 2 ^ 32 /\
      len (rgba img) = width img * height img * 4 /\ is_bytes (rgba img)
  | Fail _ => True
  | Panic => oversized file
  | NoFuel => False
  end.
Proof. apply decode_decoded. Qed.

Theorem png_decode_safe_witness :
  decode pixel_file = Val (mk_image 1 1 pixel_1x1) /\
  match decode pixel_file with
  | Val img =>
      0 < width img < 2 ^ 32 /\ 0 < height img < 2 ^ 32 /\
      len (rgba img) = width img * height img * 4 /\ is_bytes (rgba img)
  | Fail _ => True
  | Panic => oversized pixel_file
  | NoFuel => False
  end.
Proof.
  split; [by vm_compute|]. apply png_decode_safe; [|by vm_compute].
  apply Forall_forall. intros b Hb. assert (Hall : forallb (fun b => (0 <=? b) && (b <? 256)) pixel_file = true) by (by vm_compute).
  rewrite List.forallb_forall in Hall. apply list_elem_of_In in Hb. apply Hall in Hb. unfold is_byte. lia.
Defined.

(** C30: inflating ends and never aborts, whatever the bytes: within the fuel
    of one step per bit, and with at most 258 bytes of output per bit. *)
Theorem inflate_terminates (data : bytes) : is_bytes data -> len data < 2 ^ 63 ->
  match inflate data with
  | Val out => is_bytes out /\ len out <= 258 * (8 * len data)
  | Fail _ => True
  | Panic | NoFuel => False
  end.
Proof. apply inflate_ends. Qed.

Theorem inflate_terminates_witness :
  inflate [75; 76; 74; 6; 0] = Val [97; 98; 99] /\
  match inflate [75; 76; 74; 6; 0] with
  | Val out => is_bytes out /\ len out <= 258 * (8 * 5)
  | Fail _ => True
  | Panic | NoFuel => False
  end.
Proof.
  split; [by vm_compute|]. apply (inflate_terminates [75; 76; 74; 6; 0]); [|done].
  by repeat (apply Forall_cons; split).
Defined.

(** C31: decoding inverts the reference encoder: any true-colour picture with
    alpha, any filter on each row, stored blocks of any sizes, any cut of the
    stream into IDAT chunks, any checksums. *)
Theorem png_roundtrip w h img fs blocks pieces crc crc' : encoding w h img fs blocks pieces crc crc' ->
  decode (encode w h pieces crc crc') = Val (mk_image w h img).
Proof. apply decode_encoded. Qed.

Theorem png_roundtrip_witness : decode pixel_file = Val (mk_image 1 1 pixel_1x1).
Proof. apply (png_roundtrip 1 1 _ [1] [filtered [1] 4 4 1 pixel_1x1]), pixel_encoding. Defined.

(** C32: a compressed block decodes to what RFC 1951 says it stands for: under
    the canonical codes of any two complete or incomplete sets of lengths, the
    bits of literals and back references, up to the end-of-block symbol, give
    the output they denote and leave the reader right after the block. *)
Theorem inflate_block_canonical lit dist hl hd out bs out' fuel br br' :
  build lit = Val hl -> build dist = Val hd -> lengths_ok lit -> lengths_ok dist -> kraft lit -> kraft dist ->
  block_of lit dist out bs out' -> (length bs < fuel)%nat -> reads bs br br' ->
  inflate_block fuel out hl hd br = (Val out', br').
Proof. intros Hl Hd Hokl Hokd Hkl Hkd Hb Hf Hr. by eapply inflate_block_val. Qed.

(** A table for "a", the end of the block and a back reference of three bytes,
    a table for the distance one, and a block with all of them. *)
Definition tiny_lit : list Z := replicate 97 0 ++ [1] ++ replicate 158 0 ++ [2; 2].
Definition tiny_dist : list Z := [1].
Definition table (lengths : list Z) : Huffman.t :=
  match build lengths with Val h => h | _ => Huffman.mk [] [] end.

#[local] Ltac coded n := exists n; split_and!; (lia || by vm_compute).

Lemma tiny_block : block_of tiny_lit tiny_dist [] ([0] ++ [1; 1] ++ [] ++ [0] ++ [] ++ [1; 0]) [97; 97; 97; 97].
Proof.
  apply literal with (b := 97); [done|coded 1%nat|].
  apply (reference _ _ [97] 0 [1; 1] 3 0 0 0 [0] 1 0 0 [1; 0]); try done;
    [coded 2%nat|coded 1%nat|].
  apply end_of_block. coded 2%nat.
Qed.

Theorem inflate_block_canonical_witness : exists br',
  inflate_block 9 [] (table tiny_lit) (table tiny_dist) (BitReader.new [22]) = (Val [97; 97; 97; 97], br').
Proof.
  eexists. apply (inflate_block_canonical tiny_lit tiny_dist (table tiny_lit) (table tiny_dist) []
    ([0] ++ [1; 1] ++ [] ++ [0] ++ [] ++ [1; 0]) _ 9 _ (BitReader.mk [22] 1 0 2)).
  - by vm_compute.
  - by vm_compute.
  - split; [|done]. by repeat (apply Forall_cons; split).
  - split; [|done]. by repeat (apply Forall_cons; split).
  - by vm_compute.
  - by vm_compute.
  - apply tiny_block.
  - cbn. lia.
  - cbn [app reads]. by repeat (eexists; split; [by vm_compute|]).
Defined.

(** A file whose header claims 2^32 - 1 by 2^32 - 1 true-colour pixels. *)
Definition vast_file : bytes :=
  encode (2 ^ 32 - 1) (2 ^ 32 - 1) [([120; 1] ++ deflate [[]], [0; 0; 0; 0])] [0; 0; 0; 0] [0; 0; 0; 0].

(** The guard against absurd dimensions checks the number of pixels and
    the row size, but not their product with the filter bytes: a 64-byte file
    aborts the decoder instead of failing with an error. *)
Theorem png_vast_aborts : len vast_file = 64 /\ oversized vast_file /\ decode vast_file = Panic.
Proof.
  split; [done|]. split; [|by vm_compute].
  exists (mk_chunks (2 ^ 32 - 1) (2 ^ 32 - 1) 8 6 0 [] [] ([120; 1] ++ deflate [[]])), 4.
  split_and!; [by vm_compute|done|by vm_compute].
Qed.
