(* ===== verification/Install.v ===== *)
(** * Installing onto another drive

    [kernel/src/install.rs]: the device that shifts sector numbers, the system
    GUID, and the install itself.  The drivers below it are interfaces: reading
    the booted disk ([ata::read_sector_at] on the primary master), and the USB
    drive, a [BlockDevice] that can be opened and written many sectors at a
    time ([UsbMscDevice::open], [xhci::msc_write_blocks]).  The report's message
    is the constructor of what the code formats. *)

From S2P Require Import Prelude Types Block Journal Pager Store.

(** ** [BaseOffsetDevice] *)

Module BaseOffsetDevice.

Record t (D : Type) := mk { inner : D; base : Z; sectors : Z }.
Arguments mk {D}.
Arguments inner {D}.
Arguments base {D}.
Arguments sectors {D}.

Section Device.
Context {D : Type} `{!BlockDevice D}.

Definition new (inner : D) (base sectors : Z) : t D := mk inner base sectors.

Definition on_inner {A} (c : stM D StoreError A) : stM (t D) StoreError A := fun d =>
  let '(r, i) := c (inner d) in (r, mk i (base d) (sectors d)).

Definition read_sector (lba : Z) (buf : bytes) : stM (t D) StoreError bytes := fun d =>
  if sectors d <=? lba then (Fail Io, d) else
  (a ← lift (add_u64 (base d) lba); on_inner (Block.read_sector a buf)) d.

Definition write_sector (lba : Z) (buf : bytes) : stM (t D) StoreError unit := fun d =>
  if sectors d <=? lba then (Fail Io, d) else
  (a ← lift (add_u64 (base d) lba); on_inner (Block.write_sector a buf)) d.

#[global] Instance device : BlockDevice (t D) := {
  sector_count := sectors;
  Block.read_sector := read_sector;
  Block.write_sector := write_sector;
  Block.flush := on_inner Block.flush
}.
End Device.

End BaseOffsetDevice.

Module Install.

(** The drivers' errors are values the report only prints. *)
Inductive Message (E : Type) : Type :=
  | NoMessage
  | OpenTarget (e : E)
  | TooSmall (usb_total need data_lba min_volume : Z)
  | SameDisk
  | ReadBooted (lba : Z)
  | WriteUsb (lba : Z) (e : E)
  | FormatFailed (e : StoreError)
  | VerifyOpen (e : E)
  | VerifyRead
  | VerifyDisagrees
  | Done (data_lba volume_sectors : Z)
  | VerifyMount (e : StoreError).
Arguments NoMessage {E}.
Arguments OpenTarget {E}.
Arguments TooSmall {E}.
Arguments SameDisk {E}.
Arguments ReadBooted {E}.
Arguments WriteUsb {E}.
Arguments FormatFailed {E}.
Arguments VerifyOpen {E}.
Arguments VerifyRead {E}.
Arguments VerifyDisagrees {E}.
Arguments Done {E}.
Arguments VerifyMount {E}.

Record InstallReport (E : Type) := mk_report {
  target_slot : Z; sectors_copied : Z; volume_sectors : Z; new_sys_guid : bytes;
  verify_mbr_ok : bool; verify_mount_ok : bool; message : Message E
}.
Arguments mk_report {E}.
Arguments target_slot {E}.
Arguments sectors_copied {E}.
Arguments volume_sectors {E}.
Arguments new_sys_guid {E}.
Arguments verify_mbr_ok {E}.
Arguments verify_mount_ok {E}.
Arguments message {E}.

(** ** The GUID: xorshift64 from the time-stamp counter *)

Definition xorshift (x : Z) : Z :=
  let x := Z.lxor x (as_u64 (Z.shiftl x 13)) in
  let x := Z.lxor x (Z.shiftr x 7) in
  Z.lxor x (as_u64 (Z.shiftl x 17)).

Definition make_random_sys_guid (tsc : Z) : bytes :=
  let x := xorshift (Z.lxor tsc 14627333968688430831) in
  le_bytes 8 x ++ le_bytes 8 (xorshift x).

(** ** The interface of the drivers *)

Class MscDevice (D : Type) (E : Type) := {
  msc_open : stM D E unit;
  msc_write_blocks : Z -> Z -> bytes -> stM D E unit
}.

Definition MAGIC : bytes := str "TBLSBOOT".
Definition CHUNK_SECTORS : Z := 64.
Definition MIN_VOLUME_SECTORS : Z := (Journal.FIRST_DATA_PAGE + 1) * Journal.PAGE_SECTORS.

Section Install.
Context {B D E : Type} `{!BlockDevice D, !MscDevice D E}.
Context (read_sector_at : Z -> stM B unit bytes).

Record world := mk { booted : B; usb : D; report : InstallReport E }.
Abbreviation W := (stM world (Message E)) (only parsing).

Definition stop {A} (m : Message E) : W A := lift (Fail m).
Definition on_booted {A} (m : Message E) (c : stM B unit A) : W A := fun w =>
  let '(r, b) := c (booted w) in (map_err (fun _ => m) r, mk b (usb w) (report w)).
Definition on_usb {F A} (f : F -> Message E) (c : stM D F A) : W A := fun w =>
  let '(r, d) := c (usb w) in (map_err f r, mk (booted w) d (report w)).
Definition set_report (f : InstallReport E -> InstallReport E) : W unit :=
  modify (fun w => mk (booted w) (usb w) (f (report w))).

(** The magic and the GUID of a boot sector. *)
Definition is_boot_sector (buf guid : bytes) : outcome (Message E) bool :=
  magic ← slice buf 432 440;
  if bool_decide (magic = MAGIC) then
    id ← slice buf 476 492; Val (bool_decide (id = guid))
  else Val false.

Definition refuse_if_same_disk (guid : bytes) : W (option (Message E)) := fun w =>
  let '(r, d) := read_sector 0 (replicate 512 0) (usb w) in
  let w' := mk (booted w) d (report w) in
  match r with
  | Val buf =>
      (same ← lift (is_boot_sector buf guid); mret (if same : bool then Some SameDisk else None)) w'
  | Fail _ => (Val None, w')
  | Panic => (Panic, w')
  | NoFuel => (NoFuel, w')
  end.

(** [for i in 0..n]: the sectors [lba + i] into the chunk, the first one stamped. *)
Fixpoint fill_chunk (idx : list Z) (lba : Z) (guid chunk : bytes) : W bytes :=
  match idx with
  | [] => mret chunk
  | i :: idx' =>
      a ← lift (add_u64 lba i);
      sector ← on_booted (ReadBooted a) (read_sector_at a);
      sector ← (if a =? 0 then lift (splice sector 476 guid) else mret sector);
      chunk' ← lift (splice chunk (i * SECTOR) sector);
      fill_chunk idx' lba guid chunk'
  end.

Fixpoint copy_prefix (fuel : nat) (data_lba : Z) (guid : bytes) (lba : Z) (chunk : bytes) : W unit :=
  if data_lba <=? lba then mret tt else
  match fuel with
  | O => lift NoFuel
  | S fuel' =>
      let n := Z.min CHUNK_SECTORS (data_lba - lba) in
      chunk ← fill_chunk (seqZ 0 n) lba guid chunk;
      data ← lift (slice chunk 0 (n * SECTOR));
      _ ← on_usb (WriteUsb lba) (msc_write_blocks (as_u32 lba) (as_u16 n) data);
      let lba := lba + n in
      _ ← set_report (fun r => mk_report (target_slot r) lba (volume_sectors r) (new_sys_guid r)
            (verify_mbr_ok r) (verify_mount_ok r) (message r));
      copy_prefix fuel' data_lba guid lba chunk
  end.

(** The handle an error drops leaves the drive as [format] left it. *)
Definition format_volume (data_lba n : Z) : W unit := fun w =>
  let dev := BaseOffsetDevice.new (usb w) data_lba n in
  match Store.format dev with
  | Val p => (Val tt, mk (booted w) (BaseOffsetDevice.inner (Pager.dev p)) (report w))
  | Fail e => (Fail (FormatFailed e), mk (booted w) (BaseOffsetDevice.inner (Pager.format_dev dev).2) (report w))
  | Panic => (Panic, w)
  | NoFuel => (NoFuel, w)
  end.

Definition mount_volume (data_lba n : Z) : W (Message E) := fun w =>
  let dev := BaseOffsetDevice.new (usb w) data_lba n in
  match Store.open dev with
  | Val p =>
      let r := report w in
      (Val (Done data_lba n),
       mk (booted w) (BaseOffsetDevice.inner (Pager.dev p))
         (mk_report (target_slot r) (sectors_copied r) (volume_sectors r) (new_sys_guid r)
            (verify_mbr_ok r) true (message r)))
  | Fail e => (Val (VerifyMount e), mk (booted w) (BaseOffsetDevice.inner (Pager.mount_dev dev).2) (report w))
  | Panic => (Panic, w)
  | NoFuel => (NoFuel, w)
  end.

Definition verify (data_lba n : Z) (guid : bytes) : W (Message E) :=
  _ ← on_usb VerifyOpen msc_open;
  mbr ← on_usb (fun _ : StoreError => VerifyRead) (read_sector 0 (replicate 512 0));
  same ← lift (is_boot_sector mbr guid);
  _ ← set_report (fun r => mk_report (target_slot r) (sectors_copied r) (volume_sectors r) (new_sys_guid r)
        same (verify_mount_ok r) (message r));
  if negb same then stop VerifyDisagrees else mount_volume data_lba n.

Definition check_target (data_lba : Z) (booted_sys_guid : bytes) : W Z :=
  _ ← on_usb OpenTarget msc_open;
  usb_total ← gets (fun w => sector_count (usb w));
  need ← lift (add_u64 data_lba MIN_VOLUME_SECTORS);
  if usb_total <? need then stop (TooSmall usb_total need data_lba MIN_VOLUME_SECTORS) else
  refused ← refuse_if_same_disk booted_sys_guid;
  match refused with Some msg => stop msg | None => mret usb_total end.

(** [let _ = usb.flush();] *)
Definition flush_usb : W unit := fun w =>
  let '(r, d) := flush (usb w) in
  (match r with Panic => Panic | NoFuel => NoFuel | _ => Val tt end, mk (booted w) d (report w)).

Definition install_body (data_lba : Z) (booted_sys_guid guid : bytes) : W (Message E) :=
  usb_total ← check_target data_lba booted_sys_guid;
  _ ← copy_prefix (Z.to_nat data_lba) data_lba guid 0 (replicate (Z.to_nat (CHUNK_SECTORS * SECTOR)) 0);
  _ ← flush_usb;
  let volume := usb_total - data_lba in
  _ ← set_report (fun r => mk_report (target_slot r) (sectors_copied r) volume (new_sys_guid r)
        (verify_mbr_ok r) (verify_mount_ok r) (message r));
  _ ← format_volume data_lba volume;
  verify data_lba volume guid.

Definition set_message (m : Message E) (r : InstallReport E) : InstallReport E :=
  mk_report (target_slot r) (sectors_copied r) (volume_sectors r) (new_sys_guid r)
    (verify_mbr_ok r) (verify_mount_ok r) m.

(** Always a report, on an error with the progress made so far. *)
Definition install_to_usb (target_slot_id data_lba : Z) (booted_sys_guid : bytes) (tsc : Z)
    (b : B) (d : D) : outcome Empty_set (InstallReport E) * world :=
  let guid := make_random_sys_guid tsc in
  let w := mk b d (mk_report target_slot_id 0 0 guid false false NoMessage) in
  match install_body data_lba booted_sys_guid guid w with
  | (Val m, w') | (Fail m, w') => (Val (set_message m (report w')), w')
  | (Panic, w') => (Panic, w')
  | (NoFuel, w') => (NoFuel, w')
  end.
End Install.

End Install.
