(* ===== verification/InstallTheorems.v ===== *)
(** * The offset device and the install

    [BaseOffsetDevice] keeps the promises of the device below it and never
    touches the sectors in front of its base; the install copies the boot
    prefix, formats the volume behind it and verifies both. *)

From S2P Require Import Prelude Types Block Journal JournalFacts Durability Pager PagerFacts PagerTheorems.
From S2P Require Import Store StoreRuns StoreApi Install.
Import Install.

(** ** The offset device *)

Section Offset.
Context {D : Type} `{!BlockDevice D, !DeviceLaws D}.

(** [base] sectors, holding [front], are not the volume's. *)
Context (base n : Z) (front : Z -> bytes) (Hsteady : ~ may_lose (D:=D)) (Hn : 0 <= n < 2 ^ 60) (Hbase : 0 <= base < 2 ^ 60).

Definition shift (m : medium) : medium := fun l => m (base + l).

Record offset_ok (d : BaseOffsetDevice.t D) : Prop := {
  oo_inner : dev_ok (BaseOffsetDevice.inner d);
  oo_base : BaseOffsetDevice.base d = base;
  oo_sectors : BaseOffsetDevice.sectors d = n;
  oo_room : base + n <= sector_count (BaseOffsetDevice.inner d);
  oo_front l : 0 <= l < base -> content (BaseOffsetDevice.inner d) l = front l
}.

Lemma shift_upd m lba buf : meq (shift (upd m (base + lba) buf)) (upd (shift m) lba buf).
Proof.
  intros l. unfold shift, upd.
  by destruct (Z.eqb_spec (base + l) (base + lba)), (Z.eqb_spec l lba); try lia.
Qed.

Lemma shift_meq m m' : meq m m' -> meq (shift m) (shift m').
Proof. intros H l. apply H. Qed.

Definition offset_images (d : BaseOffsetDevice.t D) (x : medium) : Prop :=
  exists y, images (BaseOffsetDevice.inner d) y /\ meq x (shift y).

Lemma add_base lba : 0 <= lba < n -> add_u64 (E:=StoreError) base lba = Val (base + lba).
Proof. intros H. unfold add_u64. by rewrite (proj2 (Z.ltb_lt _ _)) by lia. Qed.

#[local] Instance offset_laws : DeviceLaws (BaseOffsetDevice.t D).
Proof.
  refine {| may_lose := False; dev_ok := offset_ok;
            content := fun d => shift (content (BaseOffsetDevice.inner d)); images := offset_images |}.
  - intros d [_ _ Hs _ _]. cbn. by rewrite Hs.
  - intros d l [Hi _ Hs Hr _] Hl. cbn in Hl. apply law_content; [done|lia].
  - intros d lba buf [Hi Hb Hs Hr Hf] Hl Hlen. cbn in Hl. rewrite Hs in Hl. cbn.
    unfold BaseOffsetDevice.read_sector. rewrite Hs, (proj2 (Z.leb_gt _ _)), Hb by lia.
    unfold mbind, stM_bind, lift. rewrite add_base by done. unfold BaseOffsetDevice.on_inner.
    destruct (law_read (BaseOffsetDevice.inner d) (base + lba) buf Hi ltac:(lia) Hlen)
      as (r & d' & E & Hok & Hc & Hm & Him & Hres).
    rewrite E. eexists _, _. split; [done|]. cbn. split_and!.
    + split; cbn; try done; [lia|]. intros l Hlb. by rewrite (Hm l), Hf.
    + done.
    + by apply shift_meq.
    + intros x (y & Hy & ?). exists y. auto.
    + destruct Hres as [->|[? _]]; [by left|done].
  - intros d lba buf [Hi Hb Hs Hr Hf] Hl Hlen. cbn in Hl. rewrite Hs in Hl. cbn.
    unfold BaseOffsetDevice.write_sector. rewrite Hs, (proj2 (Z.leb_gt _ _)), Hb by lia.
    unfold mbind, stM_bind, lift. rewrite add_base by done. unfold BaseOffsetDevice.on_inner.
    destruct (law_write (BaseOffsetDevice.inner d) (base + lba) buf Hi ltac:(lia) Hlen)
      as (r & d' & E & Hok & Hc & [(-> & Hm & Him)|[? _]]); [|done].
    rewrite E. eexists _, _. split; [done|]. cbn. split_and!.
    + split; cbn; try done; [lia|]. intros l Hlb. rewrite (Hm l). unfold upd.
      rewrite (proj2 (Z.eqb_neq _ _)) by lia. by apply Hf.
    + done.
    + left. split_and!; [done| |].
      * etransitivity; [by apply shift_meq|apply shift_upd].
      * intros x (y & Hy & Hxy). destruct (Him y Hy) as [?|(z & Hz & Hyz)]; [left; by exists y|right].
        exists (shift z). split; [by exists z|]. rewrite Hxy.
        etransitivity; [by apply shift_meq|apply shift_upd].
  - intros d [Hi Hb Hs Hr Hf]. cbn. unfold BaseOffsetDevice.on_inner.
    destruct (law_flush (BaseOffsetDevice.inner d) Hi) as (r & d' & E & Hok & Hc & [(-> & Hm & Him)|[? _]]); [|done].
    rewrite E. eexists _, _. split; [done|]. cbn. split_and!.
    + split; cbn; try done; [lia|]. intros l Hlb. by rewrite (Hm l), Hf.
    + done.
    + left. split_and!; [done|by apply shift_meq|].
      intros x (y & Hy & Hxy). rewrite Hxy. apply shift_meq. by apply Him.
Defined.

(** A quiet drive, seen through the offset. *)
Lemma offset_powered d : dev_ok d -> base + n <= sector_count d -> (forall l, 0 <= l < base -> content d l = front l) ->
  (forall x, images d x -> meq x (content d)) ->
  powered_on n (shift (content d)) (BaseOffsetDevice.new d base n).
Proof.
  intros Hok Hr Hf Hi. split; [by intros ?|]. split_and!; [by split|done|done|].
  intros x (y & Hy & Hxy). rewrite Hxy. by apply shift_meq, Hi.
Qed.

Lemma offset_shape m d : intact n m d ->
  dev_ok (BaseOffsetDevice.inner d) /\ base + n <= sector_count (BaseOffsetDevice.inner d) /\
  (forall l, 0 <= l < base -> content (BaseOffsetDevice.inner d) l = front l) /\
  meq (shift (content (BaseOffsetDevice.inner d))) m /\
  d = BaseOffsetDevice.new (BaseOffsetDevice.inner d) base n.
Proof.
  intros ([Hok Hb Hs Hr Hf] & _ & Hm & _). split_and!; try done. destruct d. cbn in *. by subst.
Qed.
End Offset.

(** ** The drivers *)

(** [data] over the sectors from [lba] on. *)
Definition overwrite (m : medium) (lba n : Z) (data : bytes) : medium :=
  fun l => if (lba <=? l) && (l <? lba + n) then piece data (l - lba) else m l.

(** What a working USB drive does: opening changes nothing, a transfer of
    sectors writes them. *)
Class MscLaws (D E : Type) `{!BlockDevice D, !DeviceLaws D, !MscDevice D E} := {
  law_open d : dev_ok d -> exists d', msc_open (E:=E) d = (Val tt, d') /\ dev_ok d' /\
    sector_count d' = sector_count d /\ meq (content d') (content d) /\ (forall x, images d' x -> images d x);
  law_write_blocks d lba n data : dev_ok d -> 0 <= lba < 2 ^ 32 -> 0 <= n < 2 ^ 16 ->
    lba + n <= sector_count d -> len data = n * SECTOR ->
    exists d', msc_write_blocks (E:=E) lba n data d = (Val tt, d') /\ dev_ok d' /\
      sector_count d' = sector_count d /\ meq (content d') (overwrite (content d) lba n data)
}.

(** The boot prefix as installed: sector 0 carries the new GUID. *)
Definition stamped (boot : Z -> bytes) (guid : bytes) (l : Z) : bytes :=
  if l =? 0 then take 476 (boot 0) ++ guid ++ drop 492 (boot 0) else boot l.

Lemma guid_length tsc : length (make_random_sys_guid tsc) = 16%nat.
Proof. unfold make_random_sys_guid. by rewrite length_app, !le_bytes_length. Qed.

Lemma stamped_length boot guid l : length guid = 16%nat -> len (boot l) = 512 -> len (boot 0) = 512 ->
  len (stamped boot guid l) = 512.
Proof.
  intros Hg Hl H0. unfold stamped. destruct (l =? 0); [|done].
  rewrite !length_app, length_take, length_drop, Hg. lia.
Qed.

Lemma stamp_sector {F} boot guid : length guid = 16%nat -> len (boot 0) = 512 ->
  splice (E:=F) (boot 0) 476 guid = Val (stamped boot guid 0).
Proof.
  intros Hg H0. unfold splice, stamped. rewrite Hg. by rewrite !(proj2 (Z.leb_le _ _)) by lia.
Qed.

(** Replacing one piece of a buffer. *)
Lemma splice_piece {F} b i s : len s = SECTOR -> 0 <= i -> (i + 1) * SECTOR <= len b ->
  exists b', splice (E:=F) b (i * SECTOR) s = Val b' /\ len b' = len b /\ piece b' i = s /\
    forall j, 0 <= j -> j <> i -> piece b' j = piece b j.
Proof.
  intros Hs Hi Hb. unfold SECTOR in *. unfold splice. rewrite !(proj2 (Z.leb_le _ _)) by lia.
  eexists. split; [done|]. replace (Z.to_nat (i * 512 + len s)) with (Z.to_nat (i * 512) + length s)%nat by lia.
  unfold piece, SECTOR. split_and!.
  - rewrite !length_app, length_take, length_drop. lia.
  - replace (Z.to_nat 512) with (length s) by lia. apply MemBlockDevice.take_drop_splice. lia.
  - intros j Hj Hne. apply MemBlockDevice.take_drop_splice_ne; lia.
Qed.

Section Install.
Context {B D E : Type} `{!BlockDevice D, !DeviceLaws D, !MscDevice D E, !MscLaws D E}.
Context (read_sector_at : Z -> stM B unit bytes).
Context (data_lba : Z) (boot : Z -> bytes) (Hlba : 0 < data_lba < 2 ^ 32).
Context (Hboot : forall l, 0 <= l < data_lba -> len (boot l) = 512).
Context (Hread : forall l b, 0 <= l < data_lba -> read_sector_at l b = (Val (boot l), b)).
Context (guid : bytes) (Hguid : length guid = 16%nat).

Abbreviation W := (stM (world (B:=B) (D:=D) (E:=E)) (Message E)) (only parsing).

Lemma fill_chunk_spec k : forall i lba chunk (w : world (B:=B) (D:=D) (E:=E)),
  0 <= i -> 0 <= lba -> i + Z.of_nat k <= 64 -> lba + i + Z.of_nat k <= data_lba -> len chunk = 64 * SECTOR ->
  (forall j, 0 <= j < i -> piece chunk j = stamped boot guid (lba + j)) ->
  exists chunk', fill_chunk read_sector_at (seqZ i (Z.of_nat k)) lba guid chunk w = (Val chunk', w) /\
    len chunk' = 64 * SECTOR /\
    forall j, 0 <= j < i + Z.of_nat k -> piece chunk' j = stamped boot guid (lba + j).
Proof.
  induction k as [|k IH]; intros i lba chunk w Hi Hl Hk Hd Hlen Hp.
  { exists chunk. split_and!; [done..|]. intros j Hj. apply Hp. lia. }
  rewrite seqZ_cons by lia. cbn [fill_chunk]. unfold mbind, stM_bind, lift, on_booted.
  unfold add_u64. rewrite (proj2 (Z.ltb_lt _ _)) by lia.
  rewrite Hread by lia. cbn [map_err].
  assert (Hs : (if lba + i =? 0 then lift (splice (boot (lba + i)) 476 guid) else mret (boot (lba + i)))
    = (lift (Val (stamped boot guid (lba + i))) : W bytes)).
  { destruct (Z.eqb_spec (lba + i) 0) as [->|Hne].
    - by rewrite stamp_sector by (done || apply Hboot; lia).
    - unfold stamped. by rewrite (proj2 (Z.eqb_neq _ _) Hne). }
  pose proof (f_equal (fun f => f w) Hs) as Hs'. unfold lift in Hs'. cbn [booted usb report] in *.
  destruct w as [b d r]. cbn [booted usb report] in *. rewrite Hs'.
  destruct (splice_piece (F:=Message E) chunk i (stamped boot guid (lba + i))) as (chunk' & E1 & Hl1 & Hp1 & Hp2).
  { apply stamped_length; [done|apply Hboot; lia|apply Hboot; lia]. } { done. } { unfold SECTOR in *. lia. }
  rewrite E1. destruct (IH (Z.succ i) lba chunk' (mk b d r)) as (chunk2 & E2 & Hl2 & Hp3); [lia..| |].
  { intros j Hj. destruct (decide (j = i)) as [->|Hne]; [done|]. rewrite Hp2 by lia. apply Hp. lia. }
  replace (Z.pred (Z.of_nat (S k))) with (Z.of_nat k) by lia. exists chunk2. split_and!; [done..|].
  intros j Hj. apply Hp3. lia.
Qed.

(** The report after [lba] sectors of the prefix. *)
Definition copied (r : InstallReport E) (lba : Z) : InstallReport E :=
  mk_report (target_slot r) lba (volume_sectors r) (new_sys_guid r) (verify_mbr_ok r) (verify_mount_ok r) (message r).

Lemma copy_prefix_spec fuel : forall lba chunk b d (r : InstallReport E),
  0 <= lba <= data_lba -> data_lba - lba <= Z.of_nat fuel -> len chunk = 64 * SECTOR ->
  dev_ok d -> data_lba <= sector_count d -> (forall l, 0 <= l < lba -> content d l = stamped boot guid l) ->
  sectors_copied r = lba ->
  exists d', copy_prefix read_sector_at fuel data_lba guid lba chunk (mk b d r) = (Val tt, mk b d' (copied r data_lba)) /\
    dev_ok d' /\ sector_count d' = sector_count d /\
    forall l, 0 <= l < data_lba -> content d' l = stamped boot guid l.
Proof.
  induction fuel as [|fuel IH]; intros lba chunk b d r Hl Hf Hlen Hok Hroom Hfront Hr; cbn [copy_prefix].
  { rewrite (proj2 (Z.leb_le _ _)) by lia. assert (lba = data_lba) as -> by lia. exists d. destruct r. cbn in *. by subst. }
  destruct (Z.leb_spec data_lba lba).
  { assert (lba = data_lba) as -> by lia. exists d. destruct r. cbn in *. by subst. }
  set (n := Z.min CHUNK_SECTORS (data_lba - lba)). unfold CHUNK_SECTORS in n.
  destruct (fill_chunk_spec (Z.to_nat n) 0 lba chunk (mk b d r)) as (chunk' & E1 & Hl1 & Hp); [lia..|].
  rewrite Z2Nat.id in E1, Hp by lia. unfold mbind, stM_bind. rewrite E1. unfold lift.
  assert (Hdata : len (take (Z.to_nat (n * SECTOR - 0)) (drop (Z.to_nat 0) chunk')) = n * SECTOR).
  { unfold SECTOR in *. rewrite length_take, length_drop. lia. }
  rewrite slice_in by (unfold SECTOR in *; lia). set (data := take _ _) in *. unfold on_usb. cbn [usb booted report].
  assert (Eu : as_u32 lba = lba) by (unfold as_u32; apply Z.mod_small; lia).
  assert (En : as_u16 n = n) by (unfold as_u16; apply Z.mod_small; lia). rewrite Eu, En.
  destruct (law_write_blocks (E:=E) d lba n data) as (d1 & E2 & Hok1 & Hc1 & Hm1); [done|lia|lia|lia|done|].
  rewrite E2. cbn [map_err]. unfold set_report, modify.
  destruct (IH (lba + n) chunk' b d1 (copied r (lba + n))) as (d2 & E3 & Hok2 & Hc2 & Hm2); try done; [lia|lia|lia| |].
  { intros l Hlr. rewrite (Hm1 l). unfold overwrite. destruct (Z.leb_spec lba l); cbn [andb]; [|apply Hfront; lia].
    rewrite (proj2 (Z.ltb_lt _ _)) by lia. unfold data. rewrite Z.sub_0_r, drop_0.
    replace (stamped boot guid l) with (piece chunk' (l - lba)) by (rewrite Hp by lia; f_equal; lia).
    unfold piece, SECTOR in *. apply list_eq. intros j.
    destruct (decide (j < Z.to_nat 512)%nat); [|by rewrite !lookup_take_ge by lia].
    rewrite !lookup_take_lt, !lookup_drop, lookup_take_lt by lia. done. }
  exists d2. split_and!; [exact E3|done|lia|done].
Qed.

(** ** The boot sector *)

Lemma boot_sector_slice {F} (g s : bytes) : len s = 512 -> length g = 16%nat ->
  slice (E:=F) (take 476 s ++ g ++ drop 492 s) 432 440 = slice s 432 440 /\
  slice (E:=F) (take 476 s ++ g ++ drop 492 s) 476 492 = Val g.
Proof.
  intros Hs Hg. assert (Ht : length (take 476 s) = 476%nat) by (rewrite length_take; lia). split.
  - assert (Hl : len (take 476 s ++ g ++ drop 492 s) = 512) by (rewrite !length_app, Ht, Hg, length_drop; lia).
    rewrite !slice_in by lia. f_equal. apply list_eq. intros j.
    destruct (decide (j < 8)%nat) as [Hj|Hj]; [|by rewrite !lookup_take_ge by lia].
    rewrite !lookup_take_lt, !lookup_drop, lookup_app_l, lookup_take_lt by lia. done.
  - apply slice_app; rewrite Ht, ?Hg; done.
Qed.

Lemma installed_boot_sector : slice (E:=Message E) (boot 0) 432 440 = Val MAGIC ->
  is_boot_sector (E:=E) (stamped boot guid 0) guid = Val true.
Proof.
  intros Hm. unfold is_boot_sector, stamped. cbn [Z.eqb].
  destruct (boot_sector_slice (F:=Message E) guid (boot 0)) as [E1 E2]; [apply Hboot; lia|done|].
  rewrite E1, Hm. cbn [mbind outcome_bind]. rewrite bool_decide_eq_true_2 by done.
  rewrite E2. cbn [mbind outcome_bind]. by rewrite bool_decide_eq_true_2.
Qed.

End Install.

(** ** The whole install *)

Lemma lba_bound l : 0 < l < 2 ^ 32 -> 0 <= l < 2 ^ 60.
Proof. lia. Qed.

Section Whole.
Context {B D E : Type} `{!BlockDevice D, !DeviceLaws D, !MscDevice D E, !MscLaws D E}.
Context (read_sector_at : Z -> stM B unit bytes).
Context (Hsteady : ~ may_lose (D:=D)).

Lemma steady_read d : dev_ok d -> 0 < sector_count d -> exists d',
  read_sector 0 (replicate 512 0) d = (Val (content d 0), d') /\ dev_ok d' /\ sector_count d' = sector_count d /\
  meq (content d') (content d) /\ (forall x, images d' x -> images d x).
Proof.
  intros Hok Hn. destruct (law_read d 0 (replicate 512 0) Hok) as (r & d' & Er & ? & ? & ? & ? & [->|[? _]]);
    [lia|done| |done]. by exists d'.
Qed.

Lemma check_target_spec data_lba booted_guid b d (r : InstallReport E) :
  dev_ok d -> 0 <= data_lba < 2 ^ 32 -> data_lba + MIN_VOLUME_SECTORS <= sector_count d ->
  is_boot_sector (E:=E) (content d 0) booted_guid = Val false ->
  exists d', check_target data_lba booted_guid (mk b d r) = (Val (sector_count d), mk (B:=B) b d' r) /\ dev_ok d' /\
    sector_count d' = sector_count d.
Proof.
  intros Hok Hl Hroom Hsame. destruct (law_open (E:=E) d Hok) as (d1 & E1 & Hok1 & Hc1 & Hm1 & _).
  assert (Hmin : MIN_VOLUME_SECTORS = 16400) by done.
  destruct (steady_read d1 Hok1) as (d2 & E2 & Hok2 & Hc2 & _); [lia|].
  exists d2. split_and!; [|done|lia]. unfold check_target, on_usb, refuse_if_same_disk, mbind, stM_bind, gets, lift.
  cbn [usb booted report]. rewrite E1. cbn [map_err usb]. rewrite Hc1. unfold add_u64.
  rewrite (proj2 (Z.ltb_lt _ (2 ^ 64))), (proj2 (Z.ltb_ge _ _)) by lia. cbn [usb booted report].
  rewrite E2, (Hm1 0), Hsame. done.
Qed.

Lemma chunk_zeros : len (replicate (Z.to_nat (CHUNK_SECTORS * SECTOR)) 0) = 64 * SECTOR.
Proof. rewrite length_replicate, Z2Nat.id by (unfold CHUNK_SECTORS, SECTOR; lia). reflexivity. Qed.

Lemma flush_usb_spec b d (r : InstallReport E) : dev_ok d ->
  exists d', flush_usb (mk b d r) = (Val tt, mk (B:=B) b d' r) /\ dev_ok d' /\ sector_count d' = sector_count d /\
    meq (content d') (content d) /\ (forall x, images d' x -> meq x (content d')).
Proof.
  intros Hok. destruct (law_flush d Hok) as (x & d' & E1 & Hok' & Hc & [(-> & Hm & Hi)|[? _]]); [|done].
  exists d'. unfold flush_usb. cbn [usb]. rewrite E1. split_and!; try done.
  intros y Hy. by rewrite (Hi y Hy), Hm.
Qed.

(** The install up to the end of the copy. *)
Definition copy_target data_lba booted_guid guid : stM (world (B:=B) (D:=D) (E:=E)) (Message E) Z :=
  usb_total ← check_target data_lba booted_guid;
  _ ← copy_prefix read_sector_at (Z.to_nat data_lba) data_lba guid 0 (replicate (Z.to_nat (CHUNK_SECTORS * SECTOR)) 0);
  _ ← flush_usb;
  mret usb_total.

Lemma install_body_eq data_lba booted_guid guid (w : world (B:=B) (D:=D) (E:=E)) :
  install_body read_sector_at data_lba booted_guid guid w =
  (usb_total ← copy_target data_lba booted_guid guid;
   let volume := usb_total - data_lba in
   _ ← set_report (fun r => mk_report (target_slot r) (sectors_copied r) volume (new_sys_guid r)
        (verify_mbr_ok r) (verify_mount_ok r) (message r));
   _ ← format_volume data_lba volume;
   verify data_lba volume guid) w.
Proof.
  unfold install_body, copy_target, mbind, stM_bind.
  destruct (check_target _ _ w) as [[?|?| |] w1]; [|done..].
  destruct (copy_prefix _ _ _ _ _ _ w1) as [[?|?| |] w2]; [|done..].
  by destruct (flush_usb w2) as [[?|?| |] w3].
Qed.

Context (data_lba n : Z) (boot : Z -> bytes) (guid : bytes) (Hlba : 0 < data_lba < 2 ^ 32).

Lemma copy_target_spec booted_guid b d (r : InstallReport E) :
  dev_ok d -> data_lba + MIN_VOLUME_SECTORS <= sector_count d ->
  (forall l, 0 <= l < data_lba -> len (boot l) = 512) ->
  (forall l b, 0 <= l < data_lba -> read_sector_at l b = (Val (boot l), b)) ->
  length guid = 16%nat -> is_boot_sector (E:=E) (content d 0) booted_guid = Val false -> sectors_copied r = 0 ->
  exists d', copy_target data_lba booted_guid guid (mk b d r) =
      (Val (sector_count d), mk (B:=B) b d' (copied r data_lba)) /\
    dev_ok d' /\ sector_count d' = sector_count d /\
    (forall l, 0 <= l < data_lba -> content d' l = stamped boot guid l) /\
    (forall x, images d' x -> meq x (content d')).
Proof.
  intros Hok Hroom Hb512 Hread Hg Hsame Hr0. assert (Hmin : MIN_VOLUME_SECTORS = 16400) by done.
  destruct (check_target_spec data_lba booted_guid b d r Hok) as (d1 & E1 & Hok1 & Hc1); [lia|lia|done|].
  destruct (copy_prefix_spec (E:=E) read_sector_at data_lba boot Hlba Hb512 Hread guid Hg (Z.to_nat data_lba) 0
    (replicate (Z.to_nat (CHUNK_SECTORS * SECTOR)) 0) b d1 r) as (d2 & E2 & Hok2 & Hc2 & Hf2);
    [lia|lia|apply chunk_zeros|done|lia|lia|done|].
  destruct (flush_usb_spec b d2 (copied r data_lba) Hok2) as (d3 & E3 & Hok3 & Hc3 & Hm3 & Hi3).
  exists d3. split_and!; [|done|lia| |done].
  - unfold copy_target, mbind, stM_bind. by rewrite E1, E2, E3.
  - intros l Hl. rewrite (Hm3 l). by apply Hf2.
Qed.

Lemma format_volume_small b d (r : InstallReport E) k :
  k / Journal.PAGE_SECTORS <= Journal.FIRST_DATA_PAGE + 1 ->
  format_volume data_lba k (mk b d r) = (Fail (FormatFailed OutOfSpace), mk (B:=B) b d r).
Proof.
  intros Hk. unfold format_volume, Store.format, Pager.format, Pager.open_with, Pager.format_dev.
  unfold mbind, stM_bind, gets. cbn [usb sector_count BaseOffsetDevice.device BaseOffsetDevice.sectors BaseOffsetDevice.new].
  by rewrite (proj2 (Z.leb_le _ _) Hk).
Qed.

Context (Hn : 0 <= n < 2 ^ 60) (Hvol : Journal.FIRST_DATA_PAGE + 1 < n / 8).
Abbreviation front := (stamped boot guid).
Abbreviation laws := (offset_laws data_lba n front Hsteady Hn (lba_bound data_lba Hlba)).

(** The drive holds the prefix and the empty database behind it. *)
Definition installed (d : D) : Prop :=
  dev_ok d /\ data_lba + n <= sector_count d /\ (forall l, 0 <= l < data_lba -> content d l = front l) /\
  (forall x, images d x -> meq x (content d)) /\
  exists P m, Store.open (BaseOffsetDevice.new d data_lba n) = Val P /\ holds (DeviceLaws0:=laws) n m P 1 [].

(** A device the store left: a drive with the prefix in place. *)
Definition offset_drive (m : medium) (d : D) : Prop :=
  dev_ok d /\ data_lba + n <= sector_count d /\ (forall l, 0 <= l < data_lba -> content d l = front l) /\
  (forall x, images d x -> meq x (content d)) /\ meq (shift data_lba (content d)) m.

Lemma drive_powered m d : offset_drive m d ->
  powered_on (DeviceLaws0:=laws) n m (BaseOffsetDevice.new d data_lba n).
Proof.
  intros (Hok & Hr & Hf & Hi & Hm). destruct (offset_powered data_lba n front Hsteady Hn (lba_bound data_lba Hlba) d Hok Hr Hf Hi)
    as [Hl (H1 & H2 & H3 & H4)]. split; [done|]. split_and!; [done|done|done|].
  intros x Hx. by rewrite (H4 x Hx).
Qed.

Lemma powered_drive m (P : Pager.t (BaseOffsetDevice.t D)) g db : holds (DeviceLaws0:=laws) n m P g db ->
  offset_drive m (BaseOffsetDevice.inner (Pager.dev P)) /\
  Pager.dev P = BaseOffsetDevice.new (BaseOffsetDevice.inner (Pager.dev P)) data_lba n.
Proof.
  intros Hh. pose proof (holds_intact (DeviceLaws0:=laws) n m P g db Hh) as Hint.
  destruct (offset_shape data_lba n front Hsteady Hn (lba_bound data_lba Hlba) m _ Hint) as (H1 & H2 & H3 & H4 & H5).
  split; [|done]. split_and!; try done. intros x Hx l.
  destruct Hint as (_ & _ & _ & Hi). specialize (Hi (shift data_lba x)).
  assert (Him : images (DeviceLaws:=laws) (Pager.dev P) (shift data_lba x)) by (by exists x).
  specialize (Hi Him (l - data_lba)). specialize (H4 (l - data_lba)). unfold shift in Hi, H4.
  assert (El : data_lba + (l - data_lba) = l) by apply Zplus_minus. rewrite El in Hi, H4. by rewrite Hi, H4.
Qed.

Lemma format_volume_spec b d (r : InstallReport E) : dev_ok d -> data_lba + n <= sector_count d ->
  (forall l, 0 <= l < data_lba -> content d l = front l) -> (forall x, images d x -> meq x (content d)) ->
  exists P m, format_volume data_lba n (mk b d r) =
      (Val tt, mk (B:=B) b (BaseOffsetDevice.inner (Pager.dev P)) r) /\
    holds (DeviceLaws0:=laws) n m P 1 [].
Proof.
  intros Hok Hr Hf Hi.
  destruct (format_holds (DeviceLaws0:=laws) n (shift data_lba (content d)) (BaseOffsetDevice.new d data_lba n))
    as (P & m & E1 & Hh).
  - apply drive_powered. by split_and!.
  - done.
  - exists P, m. split; [|done]. unfold format_volume. cbn [usb booted report]. by rewrite E1.
Qed.

Lemma open_volume m d P g db : holds (DeviceLaws0:=laws) n m P g db -> offset_drive m d ->
  exists P2, Store.open (BaseOffsetDevice.new d data_lba n) = Val P2 /\ holds (DeviceLaws0:=laws) n m P2 g db.
Proof. intros Hh Hd. apply (reopen (DeviceLaws0:=laws) n m P g db _ Hh). by apply drive_powered. Qed.

Lemma verify_spec b d m P (r : InstallReport E) : offset_drive m d -> holds (DeviceLaws0:=laws) n m P 1 [] ->
  is_boot_sector (E:=E) (front 0) guid = Val true ->
  exists d', verify data_lba n guid (mk b d r) =
    (Val (Done data_lba n), mk (B:=B) b d'
      (mk_report (target_slot r) (sectors_copied r) (volume_sectors r) (new_sys_guid r) true true (message r))) /\
    installed d'.
Proof.
  intros (Hok & Hr & Hf & Hi & Hm).
  destruct (law_open (E:=E) d Hok) as (d1 & E1 & Hok1 & Hc1 & Hm1 & Hi1).
  destruct (steady_read d1 Hok1) as (d2 & E2 & Hok2 & Hc2 & Hm2 & Hi2); [lia|].
  assert (Hd2 : offset_drive m d2).
  { split_and!; [done|lia| | |].
    - intros l Hl. by rewrite (Hm2 l), (Hm1 l), Hf.
    - intros x Hx. rewrite Hm2, Hm1. auto.
    - rewrite <- Hm. apply shift_meq. by rewrite Hm2, Hm1. }
  pose proof (Hf 0 ltac:(lia)) as Hf0. intros Hh Hboot.
  destruct (open_volume m d2 P 1 [] Hh Hd2) as (P2 & E3 & Hh2).
  destruct (powered_drive m P2 1 [] Hh2) as [Hd3 Edev].
  destruct (open_volume m _ P2 1 [] Hh2 Hd3) as (P3 & E4 & Hh3).
  exists (BaseOffsetDevice.inner (Pager.dev P2)). split_and!.
  - unfold verify, on_usb, set_report, modify, mount_volume, mbind, stM_bind, lift. cbn [usb booted report].
    rewrite E1. cbn [map_err usb booted report]. rewrite E2. cbn [map_err usb booted report].
    rewrite (Hm1 0), Hf0, Hboot. cbn [negb usb booted report]. by rewrite E3.
  - destruct Hd3 as (? & ? & ? & ? & ?). split_and!; try done. by exists P3, m.
Qed.

Lemma install_body_spec b d (r : InstallReport E) booted_guid :
  dev_ok d -> sector_count d = data_lba + n ->
  (forall l, 0 <= l < data_lba -> len (boot l) = 512) ->
  (forall l b, 0 <= l < data_lba -> read_sector_at l b = (Val (boot l), b)) ->
  length guid = 16%nat -> slice (E:=Message E) (boot 0) 432 440 = Val MAGIC ->
  is_boot_sector (E:=E) (content d 0) booted_guid = Val false -> sectors_copied r = 0 ->
  exists d', install_body read_sector_at data_lba booted_guid guid (mk b d r) =
    (Val (Done data_lba n), mk (B:=B) b d'
      (mk_report (target_slot r) data_lba n (new_sys_guid r) true true (message r))) /\ installed d'.
Proof.
  intros Hok Hcount Hb512 Hread Hg Hmagic Hsame Hr0.
  assert (Hroom : data_lba + MIN_VOLUME_SECTORS <= sector_count d).
  { assert (MIN_VOLUME_SECTORS = 16400) by done. assert (Journal.FIRST_DATA_PAGE = 2049) by done. lia. }
  destruct (copy_target_spec booted_guid b d r Hok Hroom Hb512 Hread Hg Hsame Hr0) as (d3 & E3 & Hok3 & Hc3 & Hf3 & Hi3).
  set (r' := mk_report (target_slot r) data_lba n (new_sys_guid r) (verify_mbr_ok r) (verify_mount_ok r) (message r)).
  assert (Hcn : sector_count d - data_lba = n) by lia.
  destruct (format_volume_spec b d3 r') as (P & m & E4 & Hh); [done|lia|done|done|].
  destruct (powered_drive m P 1 [] Hh) as [Hd Edev].
  destruct (verify_spec b _ m P r' Hd Hh) as (d5 & E5 & Hinst).
  { apply (installed_boot_sector data_lba boot Hlba Hb512 guid Hg Hmagic). }
  exists d5. split; [|done]. rewrite install_body_eq. unfold mbind, stM_bind, set_report, modify.
  rewrite E3, Hcn.
  match goal with |- context [format_volume data_lba n ?w] => change w with (mk (B:=B) (E:=E) b d3 r') end.
  by rewrite E4, E5.
Qed.
End Whole.

(** ** A drive in memory *)

#[local] Instance steady_msc : MscDevice SteadyDisk.t unit := {
  msc_open d := (Val tt, d);
  msc_write_blocks lba n data d :=
    (Val tt, SteadyDisk.mk (SteadyDisk.size d) (overwrite (SteadyDisk.mem d) lba n data))
}.

#[local] Instance steady_msc_laws : MscLaws SteadyDisk.t unit.
Proof.
  split.
  - intros d Hok. by exists d.
  - intros d lba n data [Hd Hs] Hlba Hn Hr Hdata. eexists. split; [done|]. split_and!; [|done|done].
    split; [done|]. intros l Hl. cbn. unfold overwrite.
    destruct (Z.leb_spec lba l), (Z.ltb_spec l (lba + n)); cbn [andb]; try by apply Hs.
    apply piece_length; [lia|]. unfold SECTOR in *. lia.
Defined.

(** A booted disk of two sectors, and blank targets. *)
Definition boot_disk (l : Z) : bytes := replicate 432 0 ++ MAGIC ++ replicate 72 0.
Definition read_boot (l : Z) : stM unit unit bytes := fun u => (Val (boot_disk l), u).
Definition blank_target (n : Z) : SteadyDisk.t := SteadyDisk.mk (2 + n) (fun _ => replicate (Z.to_nat SECTOR) 0).

Lemma blank_target_ok n : 0 <= n < 2 ^ 59 -> dev_ok (blank_target n).
Proof. intros Hn. split; cbn; [lia|]. by intros l _. Qed.

Lemma room : 0 <= 8 * 2060 < 2 ^ 60.
Proof. done. Qed.
Lemma prefix : 0 < 2 < 2 ^ 32.
Proof. done. Qed.
Lemma steady : ~ may_lose (D:=SteadyDisk.t).
Proof. by intros ?. Qed.

(** C33: on working drives, and a target with room for the prefix and at least
    one page more than the check asks for, the install succeeds and its report
    says so; the target then holds the booted disk's prefix with the new GUID
    in its first sector, and behind it a volume that opens as the empty
    database. *)
Theorem install_correct {B D E} `{!BlockDevice D, !DeviceLaws D, !MscDevice D E, !MscLaws D E}
    (read_sector_at : Z -> stM B unit bytes) (Hsteady : ~ may_lose (D:=D)) slot data_lba n boot booted_guid tsc b d
    (Hlba : 0 < data_lba < 2 ^ 32) (Hn : 0 <= n < 2 ^ 60) :
  Journal.FIRST_DATA_PAGE + 1 < n / 8 -> dev_ok d -> sector_count d = data_lba + n ->
  (forall l, 0 <= l < data_lba -> len (boot l) = 512) ->
  (forall l b, 0 <= l < data_lba -> read_sector_at l b = (Val (boot l), b)) ->
  slice (E:=Message E) (boot 0) 432 440 = Val MAGIC ->
  is_boot_sector (E:=E) (content d 0) booted_guid = Val false ->
  exists w, install_to_usb read_sector_at slot data_lba booted_guid tsc b d =
    (Val (mk_report slot data_lba n (make_random_sys_guid tsc) true true (Done data_lba n)), w) /\
    (forall l, 0 <= l < data_lba -> content (usb w) l = stamped boot (make_random_sys_guid tsc) l) /\
    installed Hsteady data_lba n boot (make_random_sys_guid tsc) Hlba Hn (usb w).
Proof.
  intros Hvol Hok Hc Hb Hread Hm Hsame.
  destruct (install_body_spec read_sector_at Hsteady data_lba n boot (make_random_sys_guid tsc) Hlba Hn Hvol b d
    (mk_report slot 0 0 (make_random_sys_guid tsc) false false NoMessage) booted_guid) as (d' & E1 & Hi);
    [done..|apply guid_length|done|done|done|].
  exists (mk b d' (mk_report slot data_lba n (make_random_sys_guid tsc) true true NoMessage)).
  unfold install_to_usb. rewrite E1. split_and!; [done|apply Hi|exact Hi].
Qed.

Lemma install_correct_witness : exists w,
  install_to_usb (E:=unit) read_boot 1 2 (replicate 16 1) 0 tt (blank_target (8 * 2060)) =
    (Val (mk_report 1 2 (8 * 2060) (make_random_sys_guid 0) true true (Done 2 (8 * 2060))), w) /\
    (forall l, 0 <= l < 2 -> content (usb w) l = stamped boot_disk (make_random_sys_guid 0) l) /\
    installed steady 2 (8 * 2060) boot_disk (make_random_sys_guid 0) prefix room (usb w).
Proof.
  apply (install_correct read_boot steady 1 2 (8 * 2060) boot_disk (replicate 16 1) 0 tt (blank_target (8 * 2060)) prefix room);
    [done|by apply blank_target_ok|done|done|done|done|done].
Defined.

(** At exactly the size the up-front check demands, the target passes the
    check, its first sectors are overwritten, and only then the format fails
    for want of space. *)
Theorem install_minimum_fails {B D E} `{!BlockDevice D, !DeviceLaws D, !MscDevice D E, !MscLaws D E}
    (read_sector_at : Z -> stM B unit bytes) slot data_lba boot booted_guid tsc b d :
  ~ may_lose (D:=D) -> 0 < data_lba < 2 ^ 32 -> dev_ok d -> sector_count d = data_lba + MIN_VOLUME_SECTORS ->
  (forall l, 0 <= l < data_lba -> len (boot l) = 512) ->
  (forall l b, 0 <= l < data_lba -> read_sector_at l b = (Val (boot l), b)) ->
  is_boot_sector (E:=E) (content d 0) booted_guid = Val false ->
  exists w, install_to_usb read_sector_at slot data_lba booted_guid tsc b d =
    (Val (mk_report slot data_lba MIN_VOLUME_SECTORS (make_random_sys_guid tsc) false false (FormatFailed OutOfSpace)), w) /\
    forall l, 0 <= l < data_lba -> content (usb w) l = stamped boot (make_random_sys_guid tsc) l.
Proof.
  intros Hl Hlba Hok Hc Hb Hread Hsame.
  set (r := mk_report slot 0 0 (make_random_sys_guid tsc) false false NoMessage : InstallReport E).
  destruct (copy_target_spec (E:=E) read_sector_at Hl data_lba boot (make_random_sys_guid tsc) Hlba booted_guid b d r)
    as (d' & E1 & Hok' & Hc' & Hf & _); [done|rewrite Hc; lia|done|done|apply guid_length|done|done|].
  exists (mk b d' (mk_report slot data_lba MIN_VOLUME_SECTORS (make_random_sys_guid tsc) false false NoMessage)).
  split; [|exact Hf]. unfold install_to_usb. rewrite install_body_eq. unfold mbind, stM_bind. fold r.
  rewrite E1. unfold set_report, modify. replace (sector_count d - data_lba) with MIN_VOLUME_SECTORS by lia.
  by rewrite format_volume_small.
Qed.

Lemma install_minimum_fails_witness : exists w,
  install_to_usb (E:=unit) read_boot 1 2 (replicate 16 1) 0 tt (blank_target MIN_VOLUME_SECTORS) =
    (Val (mk_report 1 2 MIN_VOLUME_SECTORS (make_random_sys_guid 0) false false (FormatFailed OutOfSpace)), w) /\
    forall l, 0 <= l < 2 -> content (usb w) l = stamped boot_disk (make_random_sys_guid 0) l.
Proof.
  apply (install_minimum_fails read_boot 1 2 boot_disk (replicate 16 1) 0 tt (blank_target MIN_VOLUME_SECTORS));
    [exact steady|done|by apply blank_target_ok|done|done|done|done].
Defined.
