(* ===== verification/Ps2.v ===== *)
(** * The keyboard and the mouse

    [kernel/src/ps2.rs]: the event ring between the interrupt handlers and the
    UI loop, the scancode decoder, the mouse packets and the pointer.  Every
    access runs with interrupts masked, so each function is one atomic step on
    the state [Ps2.t]; the 8042 handshake of [init_mouse] is port I/O. *)

From S2P Require Import Prelude.

Module Ps2.

Inductive Key : Type :=
  | Char (c : Z) | Enter | Esc | Backspace | Tab | Up | Down | Left | Right | Home | End_ | Delete
  | PageUp | PageDown.

Inductive Event : Type :=
  | KeyEvent (k : Key)
  | MouseMove (x y : Z)
  | Click (x y : Z)
  | RightClick.

Record Kbd := mk_kbd { shift : bool; extended : bool }.

Definition QUEUE_CAP : Z := 512.

Module EventRing.
Record t := mk { buf : list Event; head : Z; count : Z }.

Definition new : t := mk (replicate (Z.to_nat QUEUE_CAP) (MouseMove 0 0)) 0 0.

(** Arrays of [QUEUE_CAP] events: an index out of range aborts. *)
Definition push (r : t) (e : Event) : outcome unit t :=
  if count r =? QUEUE_CAP then Val r else
  let tail := (head r + count r) mod QUEUE_CAP in
  if tail <? len (buf r) then Val (mk (<[Z.to_nat tail := e]> (buf r)) (head r) (count r + 1)) else Panic.

Definition pop (r : t) : outcome unit (option Event * t) :=
  if count r =? 0 then Val (None, r) else
  e ← or_panic (nth_z (buf r) (head r));
  Val (Some e, mk (buf r) ((head r + 1) mod QUEUE_CAP) (count r - 1)).
End EventRing.

Module MouseState.
Record t := mk {
  packet : list Z; idx : Z; x : Z; y : Z; max_x : Z; max_y : Z;
  left_was_down : bool; right_was_down : bool
}.
Definition new : t := mk [0; 0; 0] 0 0 0 1023 767 false false.
End MouseState.

(** [QUEUE], [KBD] and [MOUSE]. *)
Record t := mk { queue : EventRing.t; kbd : Kbd; mouse : MouseState.t }.
Definition new : t := mk EventRing.new (mk_kbd false false) MouseState.new.

Abbreviation M := (stM t unit) (only parsing).

Definition i32 (v : Z) : outcome unit Z := if (- 2 ^ 31 <=? v) && (v <? 2 ^ 31) then Val v else Panic.
Definition as_i32 (v : Z) : Z := (v + 2 ^ 31) mod 2 ^ 32 - 2 ^ 31.
(** [v.clamp(0, hi)] asserts that the range is not empty. *)
Definition clamp (v hi : Z) : outcome unit Z := if 0 <=? hi then Val (Z.max 0 (Z.min v hi)) else Panic.

Definition set_kbd (k : Kbd) : M unit := modify (fun s => mk (queue s) k (mouse s)).
Definition set_mouse (m : MouseState.t) : M unit := modify (fun s => mk (queue s) (kbd s) m).

Definition set_bounds (w h : Z) : M unit :=
  m ← gets mouse;
  mx ← lift (i32 (as_i32 w - 1));
  my ← lift (i32 (as_i32 h - 1));
  set_mouse (MouseState.mk (MouseState.packet m) (MouseState.idx m) (Z.quot mx 2) (Z.quot my 2) mx my
    (MouseState.left_was_down m) (MouseState.right_was_down m)).

Definition poll : M (option Event) := fun s =>
  match EventRing.pop (queue s) with
  | Val (e, q) => (Val e, mk q (kbd s) (mouse s))
  | Fail e => (Fail e, s) | Panic => (Panic, s) | NoFuel => (NoFuel, s)
  end.

(** [v as usize] sign-extends. *)
Definition mouse_pos : M (Z * Z) :=
  m ← gets mouse; mret (as_u64 (MouseState.x m), as_u64 (MouseState.y m)).

Definition push (e : Event) : M unit := fun s =>
  match EventRing.push (queue s) e with
  | Val q => (Val tt, mk q (kbd s) (mouse s))
  | Fail e => (Fail e, s) | Panic => (Panic, s) | NoFuel => (NoFuel, s)
  end.

(** ** The keyboard: scancode set 1 *)

Definition LOW : bytes :=
  [0; 0] ++ str "1234567890-=" ++ [0; 0] ++ str "qwertyuiop[]" ++ [0; 0] ++ str "asdfghjkl;'`" ++ [0; 92] ++
  str "zxcvbnm,./".
Definition UP : bytes :=
  [0; 0] ++ str "!@#$%^&*()_+" ++ [0; 0] ++ str "QWERTYUIOP{}" ++ [0; 0] ++ str "ASDFGHJKL:" ++ [34; 126] ++ [0; 124] ++
  str "ZXCVBNM<>?".

Definition scancode_char (code : Z) (shift : bool) : option Z :=
  if code =? 57 then Some 32 else
  match nth_z (if shift then UP else LOW) code with
  | Some c => if c =? 0 then None else Some c
  | None => None
  end.

Definition extended_key (make : Z) : option Key :=
  if make =? 72 then Some Up else if make =? 80 then Some Down else if make =? 75 then Some Left else
  if make =? 77 then Some Right else if make =? 71 then Some Home else if make =? 79 then Some End_ else
  if make =? 83 then Some Delete else if make =? 73 then Some PageUp else
  if make =? 81 then Some PageDown else None.

Definition plain_key (make : Z) (shift : bool) : option Key :=
  if make =? 28 then Some Enter else if make =? 1 then Some Esc else
  if make =? 14 then Some Backspace else if make =? 15 then Some Tab else
  Char <$> scancode_char make shift.

Definition on_keyboard_byte (code : Z) : M unit :=
  k ← gets kbd;
  if code =? 224 then set_kbd (mk_kbd (shift k) true) else
  let released := negb (Z.land code 128 =? 0) in
  let make := Z.land code 127 in
  let ext := extended k in
  if (make =? 42) || (make =? 54) then set_kbd (mk_kbd (negb released) false) else
  _ ← set_kbd (mk_kbd (shift k) false);
  if released then mret tt else
  match (if ext then extended_key make else plain_key make (shift k)) with
  | Some key => push (KeyEvent key)
  | None => mret tt
  end.

(** ** The mouse *)

Definition apply_motion (dx dy_down : Z) (left right : bool) : M unit :=
  m ← gets mouse;
  sx ← lift (i32 (MouseState.x m + dx)); x ← lift (clamp sx (MouseState.max_x m));
  sy ← lift (i32 (MouseState.y m + dy_down)); y ← lift (clamp sy (MouseState.max_y m));
  let left_edge := left && negb (MouseState.left_was_down m) in
  let right_edge := right && negb (MouseState.right_was_down m) in
  _ ← set_mouse (MouseState.mk (MouseState.packet m) (MouseState.idx m) x y
        (MouseState.max_x m) (MouseState.max_y m) left right);
  _ ← push (MouseMove x y);
  _ ← (if left_edge then push (Click x y) else mret tt);
  if right_edge then push RightClick else mret tt.

Definition set_packet (m : MouseState.t) (packet : list Z) (idx : Z) : MouseState.t :=
  MouseState.mk packet idx (MouseState.x m) (MouseState.y m) (MouseState.max_x m) (MouseState.max_y m)
    (MouseState.left_was_down m) (MouseState.right_was_down m).

Definition on_mouse_byte (byte : Z) : M unit :=
  m ← gets mouse;
  if (MouseState.idx m =? 0) && (Z.land byte 8 =? 0) then mret tt else
  let i := MouseState.idx m in
  if negb (i <? len (MouseState.packet m)) then lift Panic else
  let packet := <[Z.to_nat i := byte]> (MouseState.packet m) in
  if i + 1 <? 3 then set_mouse (set_packet m packet (i + 1)) else
  _ ← set_mouse (set_packet m packet 0);
  flags ← lift (or_panic (nth_z packet 0));
  p1 ← lift (or_panic (nth_z packet 1));
  p2 ← lift (or_panic (nth_z packet 2));
  let dx := if negb (Z.land flags 16 =? 0) then p1 - 256 else p1 in
  let dy := if negb (Z.land flags 32 =? 0) then p2 - 256 else p2 in
  let '(dx, dy) := if negb (Z.land flags 192 =? 0) then (0, 0) else (dx, dy) in
  let left := negb (Z.land flags 1 =? 0) in
  let right := negb (Z.land flags 2 =? 0) in
  apply_motion dx (- dy) left right.

(** The USB mouse. *)
Definition feed_mouse_delta (dx dy : Z) (left right : bool) : M unit := apply_motion dx dy left right.

End Ps2.
