(* ===== verification/Ps2Facts.v ===== *)
(** * What the input state machines promise

    The event ring is a bounded queue; the keyboard and the mouse decoders,
    fed one byte at a time, post the events of their abstract machines. *)

From S2P Require Import Prelude Ps2.
Import Ps2.

(** ** The ring is a queue *)

Definition slot_event (r : EventRing.t) (i : Z) : Event :=
  default (MouseMove 0 0) (nth_z (EventRing.buf r) ((EventRing.head r + i) mod QUEUE_CAP)).
(** The events in the ring, the oldest first. *)
Definition contents (r : EventRing.t) : list Event := slot_event r <$> seqZ 0 (EventRing.count r).

Record ring_ok (r : EventRing.t) : Prop := {
  ro_buf : len (EventRing.buf r) = QUEUE_CAP;
  ro_head : 0 <= EventRing.head r < QUEUE_CAP;
  ro_count : 0 <= EventRing.count r <= QUEUE_CAP
}.

(** A bounded queue drops what does not fit. *)
Definition enqueue (q : list Event) (e : Event) : list Event :=
  if len q <? QUEUE_CAP then q ++ [e] else q.

Lemma contents_length r : ring_ok r -> len (contents r) = EventRing.count r.
Proof. intros [_ _ Hc]. unfold contents. rewrite length_fmap, length_seqZ. lia. Qed.

Lemma slot_ne h n i : 0 <= h < QUEUE_CAP -> 0 <= i < n -> n < QUEUE_CAP ->
  (h + i) mod QUEUE_CAP <> (h + n) mod QUEUE_CAP.
Proof. unfold QUEUE_CAP. intros. lia. Qed.

Lemma ring_push r e : ring_ok r ->
  exists r', EventRing.push r e = Val r' /\ ring_ok r' /\ contents r' = enqueue (contents r) e.
Proof.
  intros Hr. pose proof Hr as [Hb Hh Hc]. unfold EventRing.push, enqueue. rewrite contents_length by done.
  destruct (Z.eqb_spec (EventRing.count r) QUEUE_CAP) as [E|E].
  { exists r. rewrite (proj2 (Z.ltb_ge _ _)) by lia. done. }
  pose proof (Z.mod_pos_bound (EventRing.head r + EventRing.count r) QUEUE_CAP ltac:(unfold QUEUE_CAP; lia)).
  rewrite (proj2 (Z.ltb_lt _ (len _))), (proj2 (Z.ltb_lt (EventRing.count r) _)) by lia. eexists. split; [done|]. split.
  { split; cbn; [by rewrite length_insert|done|lia]. }
  unfold contents. cbn [EventRing.count EventRing.head]. rewrite seqZ_app, fmap_app by lia.
  change (seqZ (0 + EventRing.count r) 1) with [0 + EventRing.count r]. f_equal.
  - apply list_fmap_ext. intros j i Hi. apply lookup_seqZ in Hi. unfold slot_event, nth_z. cbn.
    rewrite list_lookup_insert_ne; [done|].
    pose proof (slot_ne (EventRing.head r) (EventRing.count r) i Hh ltac:(lia) ltac:(lia)).
    pose proof (Z.mod_pos_bound (EventRing.head r + i) QUEUE_CAP ltac:(unfold QUEUE_CAP; lia)). lia.
  - cbn [fmap list_fmap]. f_equal. unfold slot_event, nth_z. cbn [EventRing.buf EventRing.head].
    rewrite Z.add_0_l, list_lookup_insert_eq by lia. done.
Qed.

Lemma ring_pop r : ring_ok r ->
  exists r', EventRing.pop r = Val (head (contents r), r') /\ ring_ok r' /\ contents r' = tail (contents r).
Proof.
  intros Hr. pose proof Hr as [Hb Hh Hc]. unfold EventRing.pop.
  destruct (Z.eqb_spec (EventRing.count r) 0) as [E|E].
  { exists r. unfold contents. by rewrite E. }
  unfold contents. rewrite seqZ_cons by lia. cbn [fmap list_fmap head tail].
  assert (E0 : nth_z (EventRing.buf r) (EventRing.head r) = Some (slot_event r 0)).
  { unfold slot_event, nth_z. rewrite Z.add_0_r, Z.mod_small by done.
    destruct (lookup_lt_is_Some_2 (EventRing.buf r) (Z.to_nat (EventRing.head r))) as [x Ex]; [lia|].
    by rewrite Ex. }
  rewrite E0. cbn [or_panic mbind outcome_bind]. eexists. split; [done|].
  split; [split; cbn; try done; unfold QUEUE_CAP in *; lia|]. cbn [EventRing.count EventRing.head].
  change (Z.succ 0) with (1 + 0). rewrite <- fmap_add_seqZ, <- list_fmap_compose.
  replace (Z.pred (EventRing.count r)) with (EventRing.count r - 1) by lia.
  apply list_fmap_ext. intros j i _. unfold slot_event. cbn. do 2 f_equal. unfold QUEUE_CAP. lia.
Qed.

(** ** The abstract machine

    What each input means, with the queue as a list and bytes read by
    arithmetic. *)

Record input_state := mk_input { in_queue : list Event; in_kbd : Kbd; in_mouse : MouseState.t }.

Definition kbd_next (k : Kbd) (b : Z) : Kbd * list Event :=
  if b =? 224 then (mk_kbd (shift k) true, []) else
  let make := b mod 128 in
  let released := 128 <=? b in
  if (make =? 42) || (make =? 54) then (mk_kbd (negb released) false, []) else
  (mk_kbd (shift k) false,
   if released then [] else
   KeyEvent <$> option_list (if extended k then extended_key make else plain_key make (shift k))).

(** Bounded motion, a click on each button's rising edge. *)
Definition motion_next (m : MouseState.t) (dx dy : Z) (left right : bool) : MouseState.t * list Event :=
  let x := Z.max 0 (Z.min (MouseState.x m + dx) (MouseState.max_x m)) in
  let y := Z.max 0 (Z.min (MouseState.y m + dy) (MouseState.max_y m)) in
  (MouseState.mk (MouseState.packet m) (MouseState.idx m) x y (MouseState.max_x m) (MouseState.max_y m) left right,
   [MouseMove x y] ++
   (if left && negb (MouseState.left_was_down m) then [Click x y] else []) ++
   (if right && negb (MouseState.right_was_down m) then [RightClick] else [])).

(** A nine-bit two's complement number: its sign bit is in the flags. *)
Definition delta (flags sign byte : Z) : Z :=
  if Z.testbit flags 6 || Z.testbit flags 7 then 0 else byte - 256 * Z.b2z (Z.testbit flags sign).

Definition mouse_next (m : MouseState.t) (b : Z) : MouseState.t * list Event :=
  match MouseState.idx m, MouseState.packet m with
  | 0, [_; p1; p2] => if Z.testbit b 3 then (set_packet m [b; p1; p2] 1, []) else (m, [])
  | 1, [f; _; p2] => (set_packet m [f; b; p2] 2, [])
  | _, [f; p1; _] =>
      motion_next (set_packet m [f; p1; b] 0) (delta f 4 p1) (- delta f 5 b) (Z.testbit f 0) (Z.testbit f 1)
  | _, _ => (m, [])
  end.

Inductive input : Type :=
  | Keyboard (b : Z)
  | Mouse (b : Z)
  | Usb (dx dy : Z) (left right : bool)
  | Bounds (w h : Z)
  | Poll.

Definition next (a : input_state) (i : input) : input_state * option Event :=
  match i with
  | Keyboard b =>
      let '(k, es) := kbd_next (in_kbd a) b in (mk_input (foldl enqueue (in_queue a) es) k (in_mouse a), None)
  | Mouse b =>
      let '(m, es) := mouse_next (in_mouse a) b in (mk_input (foldl enqueue (in_queue a) es) (in_kbd a) m, None)
  | Usb dx dy l r =>
      let '(m, es) := motion_next (in_mouse a) dx dy l r in
      (mk_input (foldl enqueue (in_queue a) es) (in_kbd a) m, None)
  | Bounds w h =>
      let m := in_mouse a in
      (mk_input (in_queue a) (in_kbd a)
        (MouseState.mk (MouseState.packet m) (MouseState.idx m) ((w - 1) / 2) ((h - 1) / 2) (w - 1) (h - 1)
          (MouseState.left_was_down m) (MouseState.right_was_down m)), None)
  | Poll => (mk_input (tail (in_queue a)) (in_kbd a) (in_mouse a), head (in_queue a))
  end.

(** The code's step for the same input. *)
Definition step (i : input) : stM t unit (option Event) :=
  match i with
  | Keyboard b => _ ← on_keyboard_byte b; mret None
  | Mouse b => _ ← on_mouse_byte b; mret None
  | Usb dx dy l r => _ ← feed_mouse_delta dx dy l r; mret None
  | Bounds w h => _ ← set_bounds w h; mret None
  | Poll => poll
  end.

(** Interrupts deliver bytes; the bounds are a screen's. *)
Definition valid (i : input) : Prop :=
  match i with
  | Keyboard b | Mouse b => is_byte b
  | Usb dx dy _ _ => - 2 ^ 30 <= dx <= 2 ^ 30 /\ - 2 ^ 30 <= dy <= 2 ^ 30
  | Bounds w h => 1 <= w <= 2 ^ 30 /\ 1 <= h <= 2 ^ 30
  | Poll => True
  end.

Record mouse_ok (m : MouseState.t) : Prop := {
  mo_packet : exists p0 p1 p2, MouseState.packet m = [p0; p1; p2] /\ is_byte p0 /\ is_byte p1 /\ is_byte p2;
  mo_idx : 0 <= MouseState.idx m < 3;
  mo_x : 0 <= MouseState.x m <= MouseState.max_x m /\ MouseState.max_x m < 2 ^ 30;
  mo_y : 0 <= MouseState.y m <= MouseState.max_y m /\ MouseState.max_y m < 2 ^ 30
}.

Record ok (s : t) : Prop := { ok_queue : ring_ok (queue s); ok_mouse : mouse_ok (mouse s) }.

Definition abs (s : t) : input_state := mk_input (contents (queue s)) (kbd s) (mouse s).

(** [c] does to the queue what [enqueue] does with [es], and sets the rest. *)
Definition posts (c : stM t unit unit) (s : t) (es : list Event) (k : Kbd) (m : MouseState.t) : Prop :=
  exists s', c s = (Val tt, s') /\ ring_ok (queue s') /\
    contents (queue s') = foldl enqueue (contents (queue s)) es /\ kbd s' = k /\ mouse s' = m.

Lemma posts_ret s : ring_ok (queue s) -> posts (mret tt) s [] (kbd s) (mouse s).
Proof. intros H. by exists s. Qed.

Lemma posts_push s e : ring_ok (queue s) -> posts (push e) s [e] (kbd s) (mouse s).
Proof.
  intros H. destruct (ring_push (queue s) e H) as (q & E & Hq & Hc). unfold posts, push. rewrite E.
  by eexists.
Qed.

Lemma posts_bind c d s es1 es2 k1 m1 k m : posts c s es1 k1 m1 ->
  (forall s', ring_ok (queue s') -> kbd s' = k1 -> mouse s' = m1 -> posts d s' es2 k m) ->
  posts (_ ← c; d) s (es1 ++ es2) k m.
Proof.
  intros (s1 & E & H1 & H2 & H3 & H4) Hd. destruct (Hd s1 H1 H3 H4) as (s2 & E2 & ? & Hc & ? & ?).
  exists s2. unfold mbind, stM_bind. rewrite E. split_and!; try done. by rewrite foldl_app, <- H2.
Qed.

Lemma posts_set_mouse s m c es k m' : ring_ok (queue s) ->
  posts c (mk (queue s) (kbd s) m) es k m' -> posts (_ ← set_mouse m; c) s es k m'.
Proof. done. Qed.

Lemma posts_if (b : bool) s e : ring_ok (queue s) ->
  posts (if b then push e else mret tt) s (if b then [e] else []) (kbd s) (mouse s).
Proof. destruct b; [apply posts_push|apply posts_ret]. Qed.

Lemma i32_small v : - 2 ^ 31 <= v < 2 ^ 31 -> i32 v = Val v.
Proof. intros H. unfold i32. by rewrite (proj2 (Z.leb_le _ _)), (proj2 (Z.ltb_lt _ _)) by lia. Qed.

Lemma clamp_val v hi : 0 <= hi -> clamp v hi = Val (Z.max 0 (Z.min v hi)).
Proof. intros H. unfold clamp. by rewrite (proj2 (Z.leb_le _ _)). Qed.

Lemma apply_motion_posts s dx dy l r : ok s -> - 2 ^ 30 <= dx <= 2 ^ 30 -> - 2 ^ 30 <= dy <= 2 ^ 30 ->
  posts (apply_motion dx dy l r) s (motion_next (mouse s) dx dy l r).2 (kbd s) (motion_next (mouse s) dx dy l r).1.
Proof.
  intros [Hq [_ _ Hx Hy]] Hdx Hdy. unfold posts, apply_motion. unfold mbind at 1, stM_bind at 1, gets.
  unfold mbind at 1, stM_bind at 1, lift at 1. rewrite i32_small by lia.
  unfold mbind at 1, stM_bind at 1, lift at 1. rewrite clamp_val by lia.
  unfold mbind at 1, stM_bind at 1, lift at 1. rewrite i32_small by lia.
  unfold mbind at 1, stM_bind at 1, lift at 1. rewrite clamp_val by lia. cbn zeta.
  apply posts_set_mouse; [done|]. unfold motion_next. cbn [fst snd].
  set (s1 := mk _ _ _). change (kbd s) with (kbd s1).
  match goal with |- posts _ _ _ _ ?m => change m with (mouse s1) end.
  eapply posts_bind; [apply posts_push; done|]. intros s2 H2 <- <-.
  eapply posts_bind; [apply posts_if; done|]. intros s3 H3 <- <-. apply posts_if; done.
Qed.

Lemma byte_bits b : is_byte b ->
  negb (Z.land b 128 =? 0) = (128 <=? b) /\ Z.land b 127 = b mod 128 /\
  negb (Z.land b 192 =? 0) = Z.testbit b 6 || Z.testbit b 7.
Proof.
  intros Hb. pose proof (byte_forall (fun b => Bool.eqb (negb (Z.land b 128 =? 0)) (128 <=? b) &&
    (Z.land b 127 =? b mod 128) && Bool.eqb (negb (Z.land b 192 =? 0)) (Z.testbit b 6 || Z.testbit b 7)) eq_refl b Hb) as H.
  cbn beta in H. apply andb_true_iff in H as [H H3]. apply andb_true_iff in H as [H1 H2].
  split_and!; [by apply Bool.eqb_prop|lia|by apply Bool.eqb_prop].
Qed.

Lemma land_pow2 b n : 0 <= n -> negb (Z.land b (2 ^ n) =? 0) = Z.testbit b n.
Proof.
  intros Hn. destruct (Z.eqb_spec (Z.land b (2 ^ n)) 0) as [E|E]; cbn.
  - symmetry. apply (f_equal (fun z => Z.testbit z n)) in E.
    rewrite Z.land_spec, Z.pow2_bits_true, andb_true_r, Z.bits_0 in E by done. done.
  - destruct (Z.testbit b n) eqn:Et; [done|]. exfalso. apply E. apply Z.bits_inj'. intros i Hi.
    rewrite Z.land_spec, Z.bits_0, Z.pow2_bits_eqb by done. destruct (Z.eqb_spec n i) as [->|]; [by rewrite Et|].
    apply andb_false_r.
Qed.

Lemma keyboard_posts s b : ok s -> is_byte b ->
  posts (on_keyboard_byte b) s (kbd_next (kbd s) b).2 (kbd_next (kbd s) b).1 (mouse s).
Proof.
  intros [Hq _] Hb. destruct (byte_bits b Hb) as (E1 & E2 & _).
  unfold posts, on_keyboard_byte, kbd_next. unfold mbind at 1, stM_bind at 1, gets. rewrite E1, E2.
  destruct (b =? 224); [by eexists|]. destruct (_ || _); [by eexists|]. cbn [fst snd].
  unfold mbind at 1, stM_bind at 1, set_kbd, modify. destruct (128 <=? b); [by eexists|].
  destruct (if extended (kbd s) then _ else _) as [key|]; [|by eexists].
  apply (posts_push (mk (queue s) (mk_kbd (shift (kbd s)) false) (mouse s))). done.
Qed.

Lemma mouse_ok_packet m packet i : mouse_ok m -> 0 <= i < 3 ->
  (exists p0 p1 p2, packet = [p0; p1; p2] /\ is_byte p0 /\ is_byte p1 /\ is_byte p2) ->
  mouse_ok (set_packet m packet i).
Proof. intros [_ _ Hx Hy] Hi Hp. by split. Qed.

Lemma delta_bounds flags sign p : is_byte p -> - 256 <= delta flags sign p <= 256.
Proof.
  intros Hp. unfold is_byte in Hp. unfold delta. destruct (_ || _); [lia|].
  destruct (Z.testbit flags sign); cbn [Z.b2z]; lia.
Qed.

Lemma mouse_posts s b : ok s -> is_byte b ->
  posts (on_mouse_byte b) s (mouse_next (mouse s) b).2 (kbd s) (mouse_next (mouse s) b).1.
Proof.
  intros [Hq Hm] Hb. pose proof Hm as [(p0 & p1 & p2 & Ep & Hp0 & Hp1 & Hp2) Hi _ _].
  unfold posts, on_mouse_byte, mouse_next. unfold mbind at 1, stM_bind at 1, gets. rewrite Ep.
  change 8 with (2 ^ 3). rewrite <- (negb_involutive (Z.land b (2 ^ 3) =? 0)), land_pow2 by lia.
  assert (Hi3 : MouseState.idx (mouse s) = 0 \/ MouseState.idx (mouse s) = 1 \/ MouseState.idx (mouse s) = 2) by lia.
  destruct Hi3 as [-> | [-> | ->]]; cbn [Z.eqb andb].
  - destruct (Z.testbit b 3); cbn [negb]; [by eexists|]. by exists s.
  - by eexists.
  - destruct (byte_bits p0 Hp0) as (_ & _ & E192).
    pose proof (land_pow2 p0 4 ltac:(lia)) as E4. pose proof (land_pow2 p0 5 ltac:(lia)) as E5.
    pose proof (land_pow2 p0 0 ltac:(lia)) as E0. pose proof (land_pow2 p0 1 ltac:(lia)) as E1.
    apply (posts_set_mouse s (set_packet (mouse s) [p0; p1; b] 0)
      (let '(dx, dy) := if negb (Z.land p0 192 =? 0) then (0, 0) else
         (if negb (Z.land p0 (2 ^ 4) =? 0) then p1 - 256 else p1, if negb (Z.land p0 (2 ^ 5) =? 0) then b - 256 else b) in
       apply_motion dx (- dy) (negb (Z.land p0 (2 ^ 0) =? 0)) (negb (Z.land p0 (2 ^ 1) =? 0)))); [done|].
    rewrite E192, E4, E5, E0, E1.
    pose proof (delta_bounds p0 4 p1 Hp1). pose proof (delta_bounds p0 5 b Hb).
    assert (Ed : (if Z.testbit p0 6 || Z.testbit p0 7 then (0, 0) else
      (if Z.testbit p0 4 then p1 - 256 else p1, if Z.testbit p0 5 then b - 256 else b)) = (delta p0 4 p1, delta p0 5 b)).
    { unfold delta. destruct (_ || _); [done|]. f_equal; [destruct (Z.testbit p0 4)|destruct (Z.testbit p0 5)]; cbn [Z.b2z]; lia. }
    rewrite Ed. apply (apply_motion_posts (mk (queue s) (kbd s) (set_packet (mouse s) [p0; p1; b] 0))); [|lia|lia].
    split; [done|]. apply mouse_ok_packet; [done|lia|]. by exists p0, p1, b.
Qed.

(** ** The invariant, and the refinement of one step *)

Lemma motion_ok m dx dy l r : mouse_ok m -> mouse_ok (motion_next m dx dy l r).1.
Proof. intros [Hp Hi Hx Hy]. split; cbn; try done; lia. Qed.

Lemma mouse_next_ok m b : mouse_ok m -> is_byte b -> mouse_ok (mouse_next m b).1.
Proof.
  intros Hm Hb. pose proof Hm as [(p0 & p1 & p2 & Ep & Hp0 & Hp1 & Hp2) Hi _ _].
  assert (Hi3 : MouseState.idx m = 0 \/ MouseState.idx m = 1 \/ MouseState.idx m = 2) by lia.
  unfold mouse_next. rewrite Ep. destruct Hi3 as [-> | [-> | ->]].
  - destruct (Z.testbit b 3); [|done]. apply mouse_ok_packet; [done|lia|]. by exists b, p1, p2.
  - apply mouse_ok_packet; [done|lia|]. by exists p0, b, p2.
  - apply motion_ok, mouse_ok_packet; [done|lia|]. by exists p0, p1, b.
Qed.

Lemma posts_step c s es k m a : posts c s es k m -> mouse_ok m ->
  a = mk_input (foldl enqueue (contents (queue s)) es) k m ->
  exists s', (_ ← c; mret None : stM t unit (option Event)) s = (Val None, s') /\ ok s' /\ abs s' = a.
Proof.
  intros (s' & E & Hq & Hc & Hk & Hm) Hmo ->. exists s'. unfold mbind, stM_bind. rewrite E.
  split; [done|]. split; [by split; [|rewrite Hm]|]. unfold abs. by rewrite Hc, Hk, Hm.
Qed.

Lemma step_refines i s : ok s -> valid i ->
  exists s', step i s = (Val (next (abs s) i).2, s') /\ ok s' /\ abs s' = (next (abs s) i).1.
Proof.
  intros Hs Hv. pose proof Hs as [Hq Hm]. destruct i as [b|b|dx dy l r|w h|]; cbn [step next abs in_queue in_kbd in_mouse] in *.
  - pose proof (keyboard_posts s b Hs Hv) as H. destruct (kbd_next (kbd s) b) as [k es]. by eapply posts_step.
  - pose proof (mouse_posts s b Hs Hv) as H. pose proof (mouse_next_ok _ _ Hm Hv) as Hm'.
    destruct (mouse_next (mouse s) b) as [m es]. by eapply posts_step.
  - pose proof (apply_motion_posts s dx dy l r Hs (proj1 Hv) (proj2 Hv)) as H.
    pose proof (motion_ok _ dx dy l r Hm) as Hm'. unfold feed_mouse_delta.
    destruct (motion_next (mouse s) dx dy l r) as [m es]. by eapply posts_step.
  - destruct Hv as [Hw Hh]. eapply posts_step with (es := []); [|..].
    + unfold posts, set_bounds. unfold mbind at 1, stM_bind at 1, gets. unfold as_i32.
      rewrite !(Z.mod_small _ (2 ^ 32)) by lia.
      unfold mbind, stM_bind, lift. rewrite !i32_small by lia. eexists. split; [done|]. split; [done|]. split; [done|]. by split.
    + destruct Hm as [Hp Hi _ _]. cbn. split; cbn; try done; rewrite Z.quot_div_nonneg; lia.
    + cbn. f_equal. f_equal; rewrite ?Z.quot_div_nonneg; lia.
  - unfold poll. destruct (ring_pop (queue s) Hq) as (q & -> & Hq' & Hc). eexists. split; [done|].
    split; [by split|]. unfold abs. cbn. by rewrite Hc.
Qed.

(** ** Runs *)

Fixpoint run (ins : list input) : stM t unit (list Event) :=
  match ins with
  | [] => mret []
  | i :: ins' => e ← step i; es ← run ins'; mret (option_list e ++ es)
  end.

Fixpoint run_spec (ins : list input) (a : input_state) : list Event * input_state :=
  match ins with
  | [] => ([], a)
  | i :: ins' =>
      let '(es, a') := run_spec ins' (next a i).1 in (option_list (next a i).2 ++ es, a')
  end.

Lemma run_refines ins : forall s, ok s -> Forall valid ins ->
  exists s', run ins s = (Val (run_spec ins (abs s)).1, s') /\ ok s' /\ abs s' = (run_spec ins (abs s)).2.
Proof.
  induction ins as [|i ins IH]; intros s Hs Hv; [by exists s|]. apply Forall_cons in Hv as [Hi Hv].
  destruct (step_refines i s Hs Hi) as (s1 & E1 & Hs1 & Ha1).
  destruct (IH s1 Hs1 Hv) as (s2 & E2 & Hs2 & Ha2). rewrite Ha1 in E2, Ha2.
  exists s2. cbn [run run_spec]. unfold mbind, stM_bind. rewrite E1, E2.
  by destruct (run_spec ins _) as [es a'].
Qed.

Lemma new_ok : ok new.
Proof.
  split; [split; cbn; unfold QUEUE_CAP; try done; lia|]. split; cbn; try lia. by exists 0, 0, 0.
Qed.
