(* ===== verification/Rtc.v ===== *)
(** * The real-time clock

    [kernel/src/rtc.rs]: reading the CMOS registers until two snapshots agree,
    and normalising a snapshot.  The index and data ports are hardware: a
    state [S] and what reading a register does to it. *)

From S2P Require Import Prelude.

Module Rtc.

Record t := mk { year : Z; month : Z; day : Z; hour : Z; minute : Z; second : Z }.

Module Raw.
Record t := mk {
  second : Z; minute : Z; hour : Z; day : Z; month : Z; year : Z; century : Z; status_b : Z
}.
#[global] Instance t_eq_dec : EqDecision t.
Proof. solve_decision. Defined.
End Raw.

(** [u8] arithmetic with its overflow checks. *)
Definition u8 (x : Z) : outcome unit Z := if (0 <=? x) && (x <? 256) then Val x else Panic.

Definition bcd (v : Z) : outcome unit Z :=
  tens ← u8 (Z.shiftr v 4 * 10);
  u8 (Z.land v 15 + tens).

Definition translate (r : Raw.t) : outcome unit t :=
  let bcd_mode := Z.land (Raw.status_b r) 4 =? 0 in
  let h24 := negb (Z.land (Raw.status_b r) 2 =? 0) in
  let pm := negb (Z.land (Raw.hour r) 128 =? 0) in
  let raw_hour := Z.land (Raw.hour r) 127 in
  let field v := if bcd_mode then bcd v else Val v in
  second ← field (Raw.second r);
  minute ← field (Raw.minute r);
  hour ← field raw_hour;
  day ← field (Raw.day r);
  month ← field (Raw.month r);
  year ← field (Raw.year r);
  century ← field (Raw.century r);
  hour ← (if negb h24 then (let hour := hour mod 12 in if pm then u8 (hour + 12) else Val hour) else Val hour);
  let full_year := if (19 <=? century) && (century <=? 99) then century * 100 + year else 2000 + year in
  Val (mk full_year month day hour minute second).

Section Clock.
Context {S : Type} (read_reg : Z -> S -> Z * S).

Definition update_in_progress (s : S) : bool * S :=
  let '(v, s) := read_reg 10 s in (negb (Z.land v 128 =? 0), s).

(** At most [n] polls for the end of an update. *)
Fixpoint wait_update (n : nat) (s : S) : S :=
  match n with
  | O => s
  | Datatypes.S n' => let '(busy, s) := update_in_progress s in if negb busy then s else wait_update n' s
  end.

Definition read_raw (s : S) : Raw.t * S :=
  let s := wait_update (Z.to_nat 100000) s in
  let '(second, s) := read_reg 0 s in
  let '(minute, s) := read_reg 2 s in
  let '(hour, s) := read_reg 4 s in
  let '(day, s) := read_reg 7 s in
  let '(month, s) := read_reg 8 s in
  let '(year, s) := read_reg 9 s in
  let '(century, s) := read_reg 50 s in
  let '(status_b, s) := read_reg 11 s in
  (Raw.mk second minute hour day month year century status_b, s).

Fixpoint settle (n : nat) (last : Raw.t) (s : S) : option Raw.t * S :=
  match n with
  | O => (None, s)
  | Datatypes.S n' =>
      let '(cur, s) := read_raw s in
      if bool_decide (cur = last) then (Some cur, s) else settle n' cur s
  end.

Definition now (s : S) : outcome unit (option t) * S :=
  let '(last, s) := read_raw s in
  let '(r, s) := settle 10 last s in
  match r with
  | Some cur => (Some <$> translate cur, s)
  | None => (Val None, s)
  end.
End Clock.

End Rtc.
