(* ===== verification/RtcFacts.v ===== *)
(** * The clock's readings *)

From S2P Require Import Prelude Rtc.
Import Rtc.

(** ** What the registers of a clock hold *)

(** The modes of status register B. *)
Definition to_bcd (v : Z) : Z := v / 10 * 16 + v mod 10.
Definition stored (binary : bool) (v : Z) : Z := if binary then v else to_bcd v.

Definition hour_register (binary h24 : bool) (h : Z) : Z :=
  if h24 then stored binary h
  else stored binary (if h mod 12 =? 0 then 12 else h mod 12) + (if 12 <=? h then 128 else 0).

(** [keeps_century]: without it the century register holds zero. *)
Definition registers (binary h24 keeps_century : bool) (c : t) : Raw.t :=
  Raw.mk (stored binary (second c)) (stored binary (minute c)) (hour_register binary h24 (hour c))
    (stored binary (day c)) (stored binary (month c)) (stored binary (year c mod 100))
    (if keeps_century then stored binary (year c / 100) else 0)
    ((if binary then 4 else 0) + (if h24 then 2 else 0)).

Record clock_ok (keeps_century : bool) (c : t) : Prop := {
  ck_second : 0 <= second c < 60;
  ck_minute : 0 <= minute c < 60;
  ck_hour : 0 <= hour c < 24;
  ck_day : 1 <= day c <= 31;
  ck_month : 1 <= month c <= 12;
  ck_year : if keeps_century then 1900 <= year c < 10000 else 2000 <= year c < 2100
}.

(** A test over [0..n], by computation. *)
Lemma below_forall n (P : Z -> bool) : forallb P (seqZ 0 n) = true -> forall v, 0 <= v < n -> P v = true.
Proof.
  intros H v Hv. rewrite List.forallb_forall in H. apply H, list_elem_of_In, elem_of_seqZ. lia.
Qed.

Lemma bcd_stored v : 0 <= v < 100 -> bcd (to_bcd v) = Val v.
Proof.
  intros Hv. pose proof (below_forall 100 (fun v => bool_decide (bcd (to_bcd v) = Val v)) ltac:(by vm_compute) v Hv) as H.
  by apply bool_decide_eq_true in H.
Qed.

Definition field (binary : bool) (v : Z) : outcome unit Z := if binary then Val v else bcd v.

Lemma field_stored binary v : 0 <= v < 100 -> field binary (stored binary v) = Val v.
Proof. intros Hv. destruct binary; [done|]. by apply bcd_stored. Qed.

(** The hour of a register, in any mode. *)
Definition read_hour (binary h24 : bool) (r : Z) : outcome unit Z :=
  h ← field binary (Z.land r 127);
  if h24 then Val h else
  let h := h mod 12 in if negb (Z.land r 128 =? 0) then u8 (h + 12) else Val h.

Lemma read_hour_register binary h24 h : 0 <= h < 24 -> read_hour binary h24 (hour_register binary h24 h) = Val h.
Proof.
  intros Hh. pose proof (below_forall 24 (fun h => bool_decide (read_hour binary h24 (hour_register binary h24 h) = Val h))) as H.
  apply (bool_decide_eq_true (read_hour binary h24 (hour_register binary h24 h) = Val h)), H; [|done].
  destruct binary, h24; by vm_compute.
Qed.

Lemma translate_eq (binary h24 : bool) r s mi h d mo y c :
  Raw.status_b r = (if binary then 4 else 0) + (if h24 then 2 else 0) ->
  field binary (Raw.second r) = Val s -> field binary (Raw.minute r) = Val mi ->
  read_hour binary h24 (Raw.hour r) = Val h -> field binary (Raw.day r) = Val d ->
  field binary (Raw.month r) = Val mo -> field binary (Raw.year r) = Val y -> field binary (Raw.century r) = Val c ->
  translate r = Val (mk (if (19 <=? c) && (c <=? 99) then c * 100 + y else 2000 + y) mo d h mi s).
Proof.
  intros Eb Es Emi Eh Ed Emo Ey Ec. unfold translate. rewrite Eb.
  replace (Z.land _ 4 =? 0) with (negb binary) by (by destruct binary, h24).
  replace (negb (Z.land _ 2 =? 0)) with h24 by (by destruct binary, h24). cbn zeta.
  assert (Ef : forall v, (if negb binary then bcd v else Val v) = field binary v) by (by destruct binary).
  rewrite !Ef, Es, Emi, Ed, Emo, Ey, Ec. cbn [mbind outcome_bind]. unfold read_hour in Eh.
  destruct (field binary (Z.land (Raw.hour r) 127)) as [x|e| |]; cbn [mbind outcome_bind] in *; try done.
  destruct h24; cbn [negb]; [by injection Eh as ->|]. cbn zeta in Eh. by rewrite Eh.
Qed.

Lemma translate_registers binary h24 keeps_century c : clock_ok keeps_century c ->
  translate (registers binary h24 keeps_century c) = Val c.
Proof.
  intros [Hs Hmi Hh Hd Hmo Hy].
  assert (Hc : field binary (Raw.century (registers binary h24 keeps_century c)) =
    Val (if keeps_century then year c / 100 else 0)).
  { destruct keeps_century; cbn [registers Raw.century]; [apply field_stored; lia|]. by destruct binary. }
  rewrite (translate_eq binary h24 _ (second c) (minute c) (hour c) (day c) (month c) (year c mod 100) (if keeps_century then year c / 100 else 0));
    [|done|apply field_stored; lia|apply field_stored; lia|by apply read_hour_register|apply field_stored; lia..|exact Hc].
  assert (Ey : (if (19 <=? (if keeps_century then year c / 100 else 0)) && ((if keeps_century then year c / 100 else 0) <=? 99)
    then (if keeps_century then year c / 100 else 0) * 100 + year c mod 100 else 2000 + year c mod 100) = year c).
  { destruct keeps_century; cbn [Z.leb andb Z.compare].
    - rewrite !(proj2 (Z.leb_le _ _)) by lia. cbn [andb]. lia.
    - lia. }
  rewrite Ey. by destruct c.
Qed.

(** Whatever bytes the registers hold, a snapshot is translated. *)
Lemma u8_val x : 0 <= x < 256 -> u8 x = Val x.
Proof. intros H. unfold u8. by rewrite (proj2 (Z.leb_le _ _)), (proj2 (Z.ltb_lt _ _)) by lia. Qed.

Lemma bcd_total v : is_byte v -> exists w, bcd v = Val w /\ 0 <= w < 256.
Proof.
  intros Hv. pose proof (byte_forall (fun v => match bcd v with Val w => (0 <=? w) && (w <? 256) | _ => false end) eq_refl v Hv) as H.
  cbn beta in H. destruct (bcd v) as [w|e| |]; try done. exists w. bools. split; [done|lia].
Qed.

(** ** Reading until two snapshots agree *)

Section Clock.
Context {S : Type} (read_reg : Z -> S -> Z * S).

(** The snapshots a run of reads takes: [n] of them from [s]. *)
Fixpoint snapshots (n : nat) (s : S) : list Raw.t :=
  match n with
  | O => []
  | Datatypes.S n' => let '(r, s') := read_raw read_reg s in r :: snapshots n' s'
  end.

Lemma settle_spec n : forall last s,
  match (settle read_reg n last s).1 with
  | Some cur => exists i, (last :: snapshots n s) !! i = Some cur /\ (last :: snapshots n s) !! Datatypes.S i = Some cur
  | None => forall i a b, (last :: snapshots n s) !! i = Some a -> (last :: snapshots n s) !! Datatypes.S i = Some b -> a <> b
  end.
Proof.
  induction n as [|n IH]; intros last s; cbn [settle snapshots].
  { intros [|i] a b; [done|by destruct i]. }
  destruct (read_raw read_reg s) as [cur s'].
  destruct (bool_decide_reflect (cur = last)) as [->|Hne].
  - by exists 0%nat.
  - specialize (IH cur s'). destruct (settle read_reg n cur s') as [[r|] s2]; cbn [fst] in *.
    + destruct IH as (i & H1 & H2). by exists (Datatypes.S i).
    + intros [|i] a b Ha Hb; [|by apply (IH i a b)]. cbn in Ha, Hb. congruence.
Qed.
End Clock.

(** ** Totality *)

Definition raw_ok (r : Raw.t) : Prop :=
  is_byte (Raw.second r) /\ is_byte (Raw.minute r) /\ is_byte (Raw.hour r) /\ is_byte (Raw.day r) /\
  is_byte (Raw.month r) /\ is_byte (Raw.year r) /\ is_byte (Raw.century r).

Lemma field_total (bcd_mode : bool) v : is_byte v ->
  exists w, (if bcd_mode then bcd v else Val v) = Val w /\ 0 <= w < 256.
Proof. intros Hv. destruct bcd_mode; [by apply bcd_total|by exists v]. Qed.

(** A reading of the clock is a year, and bytes. *)
Definition clock_bytes (c : t) : Prop :=
  0 <= year c < 2 ^ 32 /\ is_byte (month c) /\ is_byte (day c) /\
  is_byte (hour c) /\ is_byte (minute c) /\ is_byte (second c).

Lemma translate_total r : raw_ok r -> exists c, translate r = Val c /\ clock_bytes c.
Proof.
  intros (Hs & Hmi & Hh & Hd & Hmo & Hy & Hc). unfold translate. cbn zeta.
  set (b := Z.land (Raw.status_b r) 4 =? 0).
  assert (Hrh : is_byte (Z.land (Raw.hour r) 127)).
  { change 127 with (Z.ones 7). rewrite Z.land_ones by lia. unfold is_byte in *. lia. }
  destruct (field_total b _ Hs) as (s & -> & Hs'), (field_total b _ Hmi) as (mi & -> & Hmi'),
    (field_total b _ Hrh) as (h & -> & Hhr), (field_total b _ Hd) as (d & -> & Hd'),
    (field_total b _ Hmo) as (mo & -> & Hmo'), (field_total b _ Hy) as (y & -> & Hy'),
    (field_total b _ Hc) as (ce & -> & Hc').
  cbn [mbind outcome_bind].
  assert (Hyear : 0 <= (if (19 <=? ce) && (ce <=? 99) then ce * 100 + y else 2000 + y) < 2 ^ 32)
    by (destruct (_ && _); lia).
  assert (Hend : forall hr, is_byte hr -> clock_bytes
    (mk (if (19 <=? ce) && (ce <=? 99) then ce * 100 + y else 2000 + y) mo d hr mi s)) 
    by (intros hr Hr; split; [exact Hyear|]; by repeat split; first [apply Hmo'|apply Hd'|apply Hr|apply Hmi'|apply Hs']).
  destruct (negb (negb _)); [|eexists; split; [done|by apply Hend]].
  destruct (negb (Z.land (Raw.hour r) 128 =? 0)); [rewrite u8_val by lia|];
    (eexists; split; [done|apply Hend]); unfold is_byte; lia.
Qed.

Lemma read_raw_ok {S} (read_reg : Z -> S -> Z * S) s : (forall r s, is_byte (read_reg r s).1) ->
  raw_ok (read_raw read_reg s).1.
Proof.
  intros H. unfold read_raw. set (s0 := wait_update _ _ s). clearbody s0.
  repeat match goal with |- context [read_reg ?r ?s] =>
    let E := fresh in pose proof (H r s) as E; destruct (read_reg r s); cbn [fst] in E end.
  by split_and!.
Qed.

Lemma snapshots_ok {S} (read_reg : Z -> S -> Z * S) n : (forall r s, is_byte (read_reg r s).1) -> forall s,
  Forall raw_ok (snapshots read_reg n s).
Proof.
  intros H. induction n as [|n IH]; intros s; cbn [snapshots]; [done|].
  pose proof (read_raw_ok read_reg s H). destruct (read_raw read_reg s). by constructor.
Qed.

(** A reading ends, with what the snapshots translate to. *)
Lemma now_total {S} (read_reg : Z -> S -> Z * S) s : (forall r s, is_byte (read_reg r s).1) ->
  exists o s', now read_reg s = (Val o, s') /\ forall c, o = Some c -> clock_bytes c /\
    exists i raw, snapshots read_reg 11 s !! i = Some raw /\ snapshots read_reg 11 s !! Datatypes.S i = Some raw /\
      translate raw = Val c.
Proof.
  intros Hb. pose proof (snapshots_ok read_reg 11 Hb s) as Hok. change 11%nat with (Datatypes.S 10) in *.
  unfold now. cbn [snapshots] in *. destruct (read_raw read_reg s) as [last s1].
  pose proof (settle_spec read_reg 10 last s1) as Hs. destruct (settle read_reg 10 last s1) as [[cur|] s2].
  - destruct Hs as (i & H1 & H2). destruct (translate_total cur) as (c & E & Hc); [by apply (Forall_lookup_1 _ _ _ _ Hok H1)|].
    rewrite E. exists (Some c), s2. split; [done|]. intros c' [= <-]. split; [done|]. by exists i, cur.
  - by exists None, s2.
Qed.

(** A clock that stands still. *)
Definition still (r : Raw.t) (reg : Z) : Z :=
  if reg =? 0 then Raw.second r else if reg =? 2 then Raw.minute r else if reg =? 4 then Raw.hour r else
  if reg =? 7 then Raw.day r else if reg =? 8 then Raw.month r else if reg =? 9 then Raw.year r else
  if reg =? 50 then Raw.century r else if reg =? 11 then Raw.status_b r else 0.

Lemma now_still r c : translate r = Val c ->
  now (fun reg (s : unit) => (still r reg, s)) tt = (Val (Some c), tt).
Proof.
  intros E.
  assert (Hraw : read_raw (fun reg (s : unit) => (still r reg, s)) tt = (r, tt)).
  { unfold read_raw. destruct (wait_update _ _ tt). cbn. by destruct r. }
  unfold now. rewrite Hraw. cbn [settle]. rewrite Hraw, bool_decide_eq_true_2 by done. by rewrite E.
Qed.
