(* ===== verification/InputTheorems.v ===== *)
(** * Theorems on the input devices and the clock *)

From S2P Require Import Prelude Ps2 Ps2Facts.
From S2P Require Import Rtc RtcFacts.
Import Ps2.



(** ** Typing *)

(** The key of a character on the layout. *)
Definition key_code (c : Z) (shift : bool) : option Z :=
  List.find (fun code => bool_decide (scancode_char code shift = Some c)) (seqZ 0 128).

(** The bytes of pressing and releasing it, under shift if need be. *)
Definition type_codes (c : Z) : list Z :=
  match key_code c false with
  | Some k => [k; k + 128]
  | None => match key_code c true with Some k => [42; k; k + 128; 170] | None => [] end
  end.

Fixpoint kbd_run (k : Kbd) (bs : list Z) : Kbd * list Event :=
  match bs with
  | [] => (k, [])
  | b :: bs' => let '(k', es) := kbd_next k b in let '(k2, es2) := kbd_run k' bs' in (k2, es ++ es2)
  end.

Lemma run_spec_keyboard bs : forall q k m,
  run_spec (Keyboard <$> bs) (mk_input q k m) = ([], mk_input (foldl enqueue q (kbd_run k bs).2) (kbd_run k bs).1 m).
Proof.
  induction bs as [|b bs IH]; intros q k m; [done|]. cbn [fmap list_fmap run_spec next in_kbd in_queue in_mouse kbd_run].
  destruct (kbd_next k b) as [k' es]. cbn [fst snd]. rewrite IH.
  destruct (kbd_run k' bs) as [k2 es2]. cbn [fst snd option_list app]. by rewrite foldl_app.
Qed.

#[local] Instance Key_eq_dec : EqDecision Key.
Proof. solve_decision. Defined.
#[local] Instance Event_eq_dec : EqDecision Event.
Proof. solve_decision. Defined.
#[local] Instance Kbd_eq_dec : EqDecision Kbd.
Proof. solve_decision. Defined.

Lemma kbd_types c : 32 <= c <= 126 ->
  kbd_run (mk_kbd false false) (type_codes c) = (mk_kbd false false, [KeyEvent (Char c)]) /\
  Forall is_byte (type_codes c).
Proof.
  intros Hc. pose proof (byte_forall (fun c => negb ((32 <=? c) && (c <=? 126)) ||
    (bool_decide (kbd_run (mk_kbd false false) (type_codes c) = (mk_kbd false false, [KeyEvent (Char c)])) &&
     forallb (fun b => (0 <=? b) && (b <? 256)) (type_codes c))) ltac:(by vm_compute) c ltac:(unfold is_byte; lia)) as H.
  cbn beta in H. rewrite !(proj2 (Z.leb_le _ _)) in H by lia. cbn [andb negb orb] in H.
  apply andb_true_iff in H as [H1 H2]. split; [by apply bool_decide_eq_true in H1|].
  apply Forall_forall. intros b Hb. rewrite List.forallb_forall in H2. apply list_elem_of_In, H2 in Hb.
  unfold is_byte. bools. lia.
Qed.

(** Every printable ASCII character can be typed: pressing and releasing
    its key, under shift where the layout needs it, posts exactly that one
    character (the releases post nothing) and leaves the keyboard as it was. *)
Theorem keyboard_types_ascii (c : Z) (s : Ps2.t) : 32 <= c <= 126 -> ok s -> kbd s = mk_kbd false false ->
  len (contents (queue s)) < QUEUE_CAP ->
  exists s', run (Keyboard <$> type_codes c) s = (Val [], s') /\ kbd s' = mk_kbd false false /\
    mouse s' = mouse s /\ contents (queue s') = contents (queue s) ++ [KeyEvent (Char c)].
Proof.
  intros Hc Hs Hk Hq. destruct (kbd_types c Hc) as [Ht Hb].
  destruct (run_refines (Keyboard <$> type_codes c) s Hs) as (s' & E & _ & Ha).
  { by apply Forall_fmap. }
  unfold abs at 1 in E. unfold abs at 2 in Ha. rewrite run_spec_keyboard, Hk, Ht in E, Ha. exists s'.
  injection Ha as Hq' Hk' Hm'. split_and!; [done..|]. rewrite Hq'. cbn [fst snd foldl]. unfold enqueue.
  by rewrite (proj2 (Z.ltb_lt _ _)).
Qed.

Lemma keyboard_types_ascii_witness : exists s',
  run (Keyboard <$> [42; 30; 158; 170]) new = (Val [], s') /\ kbd s' = mk_kbd false false /\
    mouse s' = mouse new /\ contents (queue s') = contents (queue new) ++ [KeyEvent (Char 65)].
Proof. apply (keyboard_types_ascii 65 new); [lia|apply new_ok|done|by vm_compute]. Defined.

(** ** The clock *)


