(* ===== verification/UiText.v ===== *)
(** * Text on the screen

    The pure text code of [kernel/src/ui.rs]: the single-line editing shared by
    all inputs, the windows and columns values are cut to, the wrapping of
    long lines and of key-hint bars, and the keys a click on a hint names.

    A [char] is the bytes of its UTF-8 encoding; [chars] cuts a string into
    them at the bytes that do not continue an encoding. *)

From S2P Require Import Prelude Ps2.

(** ** Characters *)

(** [s.chars()] *)
Definition head_is_cont (c : bytes) : bool := match c with b :: _ => is_cont b | [] => false end.
Fixpoint chars (s : bytes) : list bytes :=
  match s with
  | [] => []
  | b :: s' =>
      match chars s' with
      | c :: cs => if head_is_cont c then (b :: c) :: cs else [b] :: c :: cs
      | [] => [[b]]
      end
  end.

(** [s.chars().count()] *)
Definition count (s : bytes) : Z := len (chars s).

(** [s.char_indices()] *)
Fixpoint indices_from (i : Z) (cs : list bytes) : list (Z * bytes) :=
  match cs with
  | [] => []
  | c :: cs' => (i, c) :: indices_from (i + len c) cs'
  end.
Definition char_indices (s : bytes) : list (Z * bytes) := indices_from 0 (chars s).

(** The encoding of a code point, and the code point of an encoding. *)
Definition encode_utf8 (c : Z) : bytes :=
  if c <? 128 then [c]
  else if c <? 2048 then [192 + c / 64; 128 + c mod 64]
  else if c <? 65536 then [224 + c / 4096; 128 + c / 64 mod 64; 128 + c mod 64]
  else [240 + c / 262144; 128 + c / 4096 mod 64; 128 + c / 64 mod 64; 128 + c mod 64].
Definition decode_utf8 (c : bytes) : Z :=
  match c with
  | [a] => a
  | [a; b] => (a - 192) * 64 + (b - 128)
  | [a; b; d] => (a - 224) * 4096 + (b - 128) * 64 + (d - 128)
  | a :: b :: d :: e :: _ => (a - 240) * 262144 + (b - 128) * 4096 + (d - 128) * 64 + (e - 128)
  | [] => 0
  end.

(** [s.insert(i, c)] and [s.remove(i)]: abort off a character boundary. *)
Definition str_insert (s : bytes) (i : Z) (c : bytes) : outcome unit bytes :=
  if is_char_boundary s i
  then Val (take (Z.to_nat i) s ++ c ++ drop (Z.to_nat i) s) else Panic.
Definition str_remove (s : bytes) (i : Z) : outcome unit bytes :=
  tail ← str_from s i;
  match chars tail with
  | c :: _ => Val (take (Z.to_nat i) s ++ drop (Z.to_nat (i + len c)) s)
  | [] => Panic
  end.

(** [a.saturating_sub(b)] on [usize] *)
Definition saturating_sub (a b : Z) : Z := Z.max 0 (a - b).

Module Text.

(** ** Single-line editing *)

Definition byte_of (s : bytes) (idx : Z) : Z :=
  match nth_z (char_indices s) idx with Some (b, _) => b | None => len s end.

Definition ce_insert (text : bytes) (caret : Z) (c : Z) : outcome unit (bytes * Z) :=
  let a := Z.min caret (count text) in
  text' ← str_insert text (byte_of text a) (encode_utf8 c);
  caret' ← add_u64 a 1;
  Val (text', caret').

Definition ce_backspace (text : bytes) (caret : Z) : outcome unit (bytes * Z) :=
  let a := Z.min caret (count text) in
  if 0 <? a then
    text' ← str_remove text (byte_of text (a - 1));
    Val (text', a - 1)
  else Val (text, caret).

Definition ce_delete (text : bytes) (caret : Z) : outcome unit (bytes * Z) :=
  let n := count text in
  let a := Z.min caret n in
  if a <? n then
    text' ← str_remove text (byte_of text a);
    Val (text', a)
  else Val (text, caret).

Definition ce_left (text : bytes) (caret : Z) : Z := saturating_sub (Z.min caret (count text)) 1.

Definition ce_right (text : bytes) (caret : Z) : outcome unit Z :=
  c ← add_u64 caret 1; Val (Z.min c (count text)).

(** ** Windows and columns *)

Definition field_view (text : bytes) (caret width : Z) : outcome unit (bytes * Z) :=
  let cs := chars text in
  let n := len cs in
  let caret := Z.min caret n in
  let start := if width <? caret then caret - width else 0 in
  stop ← add_u64 start width;
  shown ← slice cs start (Z.min stop n);
  Val (concat shown, caret - start).

Definition ellipsis : bytes := str "…".

Definition trunc (s : bytes) (n : Z) : bytes :=
  if count s <=? n then s
  else concat (take (Z.to_nat (saturating_sub n 1)) (chars s)) ++ ellipsis.

Definition cell_pad (s : bytes) (content_w : Z) : outcome unit bytes :=
  let out := trunc s content_w in
  w ← add_u64 content_w 1;
  Val (out ++ replicate (Z.to_nat (saturating_sub w (count out))) 32).

(** ** Wrapping *)

(** [l.chunks(n)] for a positive [n]. *)
Fixpoint chunks_loop {A} (fuel n : nat) (l : list A) : list (list A) :=
  match fuel, l with
  | _, [] | O, _ => []
  | S fuel', _ => take n l :: chunks_loop fuel' n (drop n l)
  end.
Definition chunks {A} (n : Z) (l : list A) : outcome unit (list (list A)) :=
  if n =? 0 then Panic else Val (chunks_loop (length l) (Z.to_nat n) l).

Definition wrap (s : bytes) (n : Z) : outcome unit (list bytes) :=
  match chars s with
  | [] => Val [[]]
  | cs => ls ← chunks (A:=bytes) n cs; Val (map (@concat Z) ls)
  end.

Definition space : bytes := [32].

(** The state of the loop of [split_options]: the options so far, the current
    one, and the spaces since its last character. *)
Definition split_step (st : list bytes * bytes * Z) (ch : bytes) : list bytes * bytes * Z :=
  let '(segs, cur, spaces) := st in
  if bool_decide (ch = space) then (segs, cur, spaces + 1)
  else
    let '(segs, cur) :=
      if 2 <=? spaces then
        (match cur with [] => (segs, cur) | _ => (segs ++ [cur], []) end)
      else if (spaces =? 1) && negb (bool_decide (cur = [])) then (segs, cur ++ space)
      else (segs, cur) in
    (segs, cur ++ ch, 0).
Definition split_options (text : bytes) : list bytes :=
  let '(segs, cur, _) := foldl split_step ([], [], 0) (chars text) in
  match cur with [] => segs | _ => segs ++ [cur] end.

Definition pack_step (max_cols : Z) (st : list bytes * bytes) (seg : bytes) : list bytes * bytes :=
  let '(lines, cur) := st in
  match cur with
  | [] => (lines, seg)
  | _ => if count cur + 2 + count seg <=? max_cols
         then (lines, cur ++ str "  " ++ seg)
         else (lines ++ [cur], seg)
  end.
Definition wrap_options (text : bytes) (max_cols : Z) : list bytes :=
  let '(lines, cur) := foldl (pack_step max_cols) ([], []) (split_options text) in
  let lines := match cur with [] => lines | _ => lines ++ [cur] end in
  match lines with [] => [[]] | _ => lines end.

(** ** Frames *)

Inductive LineKind := Normal | Dim | Selected | Error | Accent.

Inductive Hit :=
  | HNone
  | Focus (i : Z)
  | Activate (i : Z)
  | Shortcuts.

#[global] Instance Hit_eq_dec : EqDecision Hit.
Proof. solve_decision. Defined.

Record TextLine := mk_line { text : bytes; kind : LineKind; hit : Hit }.
Definition with_hit (h : Hit) (l : TextLine) : TextLine := mk_line (text l) (kind l) h.
Definition line (t : bytes) (k : LineKind) : TextLine := mk_line t k HNone.

Record Frame := mk_frame {
  title : bytes; bg : Z * Z * Z; body : list TextLine; status : bytes;
  cell_hls : list (Z * Z * Z * (Z * Z * Z)); cursor : option (Z * Z)
}.

Definition is_bar (l : TextLine) : bool := bool_decide (hit l = Shortcuts).

(** The lines a line becomes. *)
Definition reflow (max_cols : Z) (l : TextLine) : list TextLine :=
  if is_bar l
  then (fun c => with_hit Shortcuts (line c (kind l))) <$> wrap_options (text l) max_cols
  else [l].

(** The loop over the body: the new lines and [extra]. *)
Fixpoint reflow_loop (max_cols : Z) (ls : list TextLine) (acc : Z) : list TextLine * list Z :=
  match ls with
  | [] => ([], [])
  | l :: ls' =>
      let new := reflow max_cols l in
      let '(rest, extra) := reflow_loop max_cols ls' (acc + saturating_sub (len new) 1) in
      (new ++ rest, acc :: extra)
  end.

Definition shift (extra : list Z) (li : Z) : Z :=
  li + match nth_z extra li with Some e => e | None => default 0 (last extra) end.

Definition wrap_shortcut_bars (f : Frame) (max_cols : Z) : Frame :=
  if (max_cols =? 0) || negb (existsb (fun l => is_bar l && (max_cols <? count (text l))) (body f))
  then f
  else
    let '(new_body, extra) := reflow_loop max_cols (body f) 0 in
    mk_frame (title f) (bg f) new_body (status f)
      ((fun '(li, x, w, c) => (shift extra li, x, w, c)) <$> cell_hls f)
      ((fun '(cl, cc) => (shift extra cl, cc)) <$> cursor f).

(** ** Clicks on key hints *)

(** The token up to a closing bracket and the characters it takes. *)
Fixpoint scan_tok (cs : list bytes) : bytes * Z :=
  match cs with
  | [] => ([], 0)
  | c :: cs' =>
      if bool_decide (c = [93]) then ([], 0)
      else let '(tok, n) := scan_tok cs' in (c ++ tok, n + 1)
  end.
(** The characters before the next space. *)
Fixpoint skip_word (cs : list bytes) : Z :=
  match cs with
  | [] => 0
  | c :: cs' => if bool_decide (c = space) then 0 else 1 + skip_word cs'
  end.

Definition key_for_token (tok : bytes) : option Ps2.Key :=
  if bool_decide (tok = str "Enter") || bool_decide (tok = str "Enter/Space") then Some Ps2.Enter
  else if bool_decide (tok = str "Esc") then Some Ps2.Esc
  else if bool_decide (tok = str "Del") then Some Ps2.Delete
  else if bool_decide (tok = str "Tab") then Some Ps2.Tab
  else if bool_decide (tok = str "PgDn") then Some Ps2.PageDown
  else if bool_decide (tok = str "PgUp") then Some Ps2.PageUp
  else if bool_decide (tok = str "Space") then Some (Ps2.Char 32)
  else if bool_decide (tok = str "→") then Some Ps2.Right
  else if bool_decide (tok = str "←") then Some Ps2.Left
  else if bool_decide (tok = str "↑") then Some Ps2.Up
  else if bool_decide (tok = str "↓") then Some Ps2.Down
  else match chars tok with
  | [c] => if bool_decide (c ∈ [str "↑"; str "↓"; str "←"; str "→"]) then None
           else Some (Ps2.Char (decode_utf8 c))
  | _ => None
  end.

(** The loop at index [i], over the characters from there on. *)
Fixpoint shortcut_loop (fuel : nat) (cs : list bytes) (i cc : Z) : option Ps2.Key :=
  match fuel, cs with
  | _, [] | O, _ => None
  | S fuel', c :: cs' =>
      if negb (bool_decide (c = [91])) then shortcut_loop fuel' cs' (i + 1) cc
      else
        let '(tok, n) := scan_tok cs' in
        let stop := Z.min (1 + n + 1) (len cs) in
        let stop := stop + skip_word (drop (Z.to_nat stop) cs) in
        if (i <=? cc) && (cc <? i + stop) then key_for_token tok
        else shortcut_loop fuel' (drop (Z.to_nat stop) cs) (i + stop) cc
  end.
Definition shortcut_at (text : bytes) (cc : Z) : option Ps2.Key :=
  shortcut_loop (length (chars text)) (chars text) 0 cc.

(** ** Numbers of the diagnostic screens *)

Definition hex_digit (d : Z) : Z := if d <? 10 then 48 + d else 55 + d.
Fixpoint hex_pairs (first : bool) (b : bytes) : bytes :=
  match b with
  | [] => []
  | x :: b' => (if first then [] else space) ++ [hex_digit (x / 16); hex_digit (x mod 16)] ++ hex_pairs false b'
  end.
Definition hex_dump (b : bytes) (max : Z) : bytes :=
  hex_pairs true (take (Z.to_nat (Z.min (len b) max)) b).

Definition decode_usbcmd (v : Z) : bytes :=
  if negb (Z.land v 1 =? 0) then str "(R/S = 1, controller RUNNING)" else str "(R/S = 0, controller halted)".

Definition usbsts_flags : list (Z * bytes) :=
  [(1, str "HCHalted "); (4, str "HSE "); (8, str "EINT "); (16, str "PCD "); (256, str "SSS ");
   (512, str "RSS "); (1024, str "SRE "); (2048, str "CNR "); (4096, str "HCE ")].
Definition decode_usbsts (v : Z) : bytes :=
  let s := concat ((fun '(m, t) => if negb (Z.land v m =? 0) then t else []) <$> usbsts_flags) in
  match s with [] => str "(idle, no flags)" | _ => s end.

Definition page_step (bits : Z) (s : bytes) (i : Z) : bytes :=
  if negb (Z.land bits (Z.shiftl 1 i) =? 0)
  then s ++ (match s with [] => [] | _ => str ", " end) ++ fmt_u64 (Z.shiftl 1 (i + 12)) ++ str " B"
  else s.
Definition decode_page_sizes (bits : Z) : bytes :=
  match foldl (page_step bits) [] (seqZ 0 16) with [] => str "(none)" | s => s end.

End Text.

Example shortcut_word : Text.shortcut_at (str "[c]reate  [Esc] back") 4 = Some (Ps2.Char 99).
Proof. reflexivity. Qed.
Example shortcut_esc : Text.shortcut_at (str "[c]reate  [Esc] back") 12 = Some Ps2.Esc.
Proof. reflexivity. Qed.
Example shortcut_gap : Text.shortcut_at (str "[c]reate  [↑↓] back") 11 = None.
Proof. reflexivity. Qed.
Example wrap_bar : Text.wrap_options (str "[n]ew OS on USB  [a]bout   [s]top") 18 =
  [str "[n]ew OS on USB"; str "[a]bout  [s]top"].
Proof. reflexivity. Qed.
Example trunc_ellipsis : Text.trunc (str "abcdef") 4 = str "abc…".
Proof. reflexivity. Qed.
