(* ===== verification/UiTextFacts.v ===== *)
(** * Facts on the screen's text code

    Characters of UTF-8 strings, the abstract editor the single-line inputs
    refine, and what windows, columns and wrapped lines keep of their text. *)

From S2P Require Import Prelude Ps2 UiText.
Import Text.

(** ** Characters *)

Definition char_ok (c : bytes) : Prop :=
  exists b tl, c = b :: tl /\ is_cont b = false /\ Forall (fun x => is_cont x = true) tl.

Lemma char_ok_nonempty c : char_ok c -> c <> [].
Proof. by intros (b & tl & -> & _). Qed.

Lemma char_ok_head c s : char_ok c -> head_is_cont (c ++ s) = false.
Proof. by intros (b & tl & -> & Hb & _). Qed.

Lemma chars_concat s : concat (chars s) = s.
Proof.
  induction s as [|b s IH]; [done|]. cbn [chars]. destruct (chars s) as [|c cs].
  - by rewrite <- IH.
  - rewrite <- IH. by destruct (head_is_cont c).
Qed.

Lemma chars_nil s : chars s = [] -> s = [].
Proof. intros H. by rewrite <- (chars_concat s), H. Qed.

(** The first character continues exactly as the string does. *)
Lemma chars_head s c cs : chars s = c :: cs -> head_is_cont c = head_is_cont s.
Proof.
  destruct s as [|b s]; [done|]. cbn [chars].
  destruct (chars s) as [|c' cs']; [by intros [= <- _]|].
  by destruct (head_is_cont c'); intros [= <- _].
Qed.

Lemma chars_app c s : char_ok c -> head_is_cont s = false -> chars (c ++ s) = c :: chars s.
Proof.
  intros (b & tl & -> & Hb & Htl) Hs. revert b Hb. cbn [app].
  induction Htl as [|x tl Hx Htl IH]; intros b Hb; cbn [app chars].
  - destruct (chars s) as [|c cs] eqn:E; [done|]. by rewrite (chars_head s c cs E), Hs.
  - enough (E : chars (x :: tl ++ s) = (x :: tl) :: chars s).
    { cbn [chars] in E. rewrite E. cbn [head_is_cont]. by rewrite Hx. }
    clear IH. revert x Hx. induction Htl as [|y tl Hy Htl IH]; intros x Hx; cbn [app chars].
    + destruct (chars s) as [|c cs] eqn:E; [done|]. by rewrite (chars_head s c cs E), Hs.
    + pose proof (IH y Hy) as E. cbn [chars] in E. rewrite E. cbn [head_is_cont]. by rewrite Hy.
Qed.

Lemma concat_head cs : Forall char_ok cs -> head_is_cont (concat cs) = false.
Proof. intros [|c cs' Hc _]; [done|]. by apply char_ok_head. Qed.

Lemma chars_of cs : Forall char_ok cs -> chars (concat cs) = cs.
Proof.
  induction 1 as [|c cs Hc Hcs IH]; [done|]. cbn [concat].
  rewrite chars_app by (done || by apply concat_head). by rewrite IH.
Qed.

Lemma count_of cs : Forall char_ok cs -> count (concat cs) = len cs.
Proof. intros H. unfold count. by rewrite chars_of. Qed.

(** A character of a valid string. *)
Definition uchar (c : bytes) : Prop := char_ok c /\ utf8_valid c = true.

Lemma uchar_char c : uchar c -> char_ok c.
Proof. by intros []. Qed.
#[export] Hint Resolve uchar_char : tos.

Lemma uchars_chars cs : Forall uchar cs -> Forall char_ok cs.
Proof. intros H. by apply (Forall_impl _ _ _ H), uchar_char. Qed.
#[export] Hint Resolve uchars_chars : tos.

Ltac solve_conts := repeat constructor; unfold is_cont; tests; done.

Lemma utf8_uncons s : utf8_valid s = true -> s <> [] ->
  exists c r, s = c ++ r /\ uchar c /\ utf8_valid r = true.
Proof.
  intros H Hn. destruct s as [|b0 s]; [done|]. cbn [utf8_valid] in H.
  assert (Hb0 : is_cont b0 = false) by by apply (utf8_head_not_cont b0 s).
  destruct ((0 <=? b0) && (b0 <? 128)) eqn:E0.
  { exists [b0], s. split_and!; [done| |done]. split; [by eexists _, _|]. cbn. by rewrite E0. }
  destruct s as [|b1 s]; [done|]. destruct ((194 <=? b0) && (b0 <=? 223)) eqn:E1.
  { apply andb_true_iff in H as [H1 H2]. exists [b0; b1], s. split_and!; [done| |done].
    split; [exists b0, [b1]; by repeat constructor|]. cbn. by rewrite E0, E1, H1. }
  destruct s as [|b2 s]; [done|]. destruct ((224 <=? b0) && (b0 <=? 239)) eqn:E2.
  { apply andb_true_iff in H as [[H1 H2]%andb_true_iff H3]. exists [b0; b1; b2], s.
    split_and!; [done| |done]. split.
    - exists b0, [b1; b2]. split_and!; [done..|]. repeat constructor; [|done]. unfold is_cont in *.
      destruct (b0 =? 224), (b0 =? 237); bools; by tests.
    - cbn. by rewrite E0, E1, E2, H1, H2. }
  destruct s as [|b3 s]; [done|]. destruct ((240 <=? b0) && (b0 <=? 244)) eqn:E3; [|done].
  apply andb_true_iff in H as [[[H1 H2]%andb_true_iff H3]%andb_true_iff H4]. exists [b0; b1; b2; b3], s.
  split_and!; [done| |done]. split.
  - exists b0, [b1; b2; b3]. split_and!; [done..|]. repeat constructor; [|done..]. unfold is_cont in *.
    destruct (b0 =? 240), (b0 =? 244); bools; by tests.
  - cbn. by rewrite E0, E1, E2, E3, H1, H2, H3.
Qed.

Lemma utf8_conts tl : utf8_valid tl = true -> Forall (fun x => is_cont x = true) tl -> tl = [].
Proof.
  destruct tl as [|x tl]; [done|]. intros H%utf8_head_not_cont Hf%Forall_inv. congruence.
Qed.

Lemma utf8_app c r : uchar c -> utf8_valid (c ++ r) = utf8_valid r.
Proof.
  intros [(b0 & tl & -> & Hb & Htl) H]. cbn [utf8_valid app] in *.
  destruct ((0 <=? b0) && (b0 <? 128)).
  { by rewrite (utf8_conts tl). }
  destruct tl as [|b1 tl]; [done|]. apply Forall_inv_tail in Htl. cbn [app].
  destruct ((194 <=? b0) && (b0 <=? 223)).
  { apply andb_true_iff in H as [-> H]. by rewrite (utf8_conts tl). }
  destruct tl as [|b2 tl]; [done|]. apply Forall_inv_tail in Htl. cbn [app].
  destruct ((224 <=? b0) && (b0 <=? 239)).
  { apply andb_true_iff in H as [-> H]. by rewrite (utf8_conts tl). }
  destruct tl as [|b3 tl]; [done|]. apply Forall_inv_tail in Htl. cbn [app].
  destruct ((240 <=? b0) && (b0 <=? 244)); [|done].
  apply andb_true_iff in H as [-> H]. by rewrite (utf8_conts tl).
Qed.

Lemma utf8_concat cs : Forall uchar cs -> utf8_valid (concat cs) = true.
Proof. induction 1 as [|c cs Hc _ IH]; [done|]. cbn [concat]. by rewrite utf8_app. Qed.

Lemma utf8_head s : utf8_valid s = true -> head_is_cont s = false.
Proof. destruct s; [done|]. apply utf8_head_not_cont. Qed.

Lemma utf8_chars s : utf8_valid s = true -> Forall uchar (chars s).
Proof.
  induction s as [s IH] using (induction_ltof1 _ (@length Z)). unfold ltof in IH. intros H.
  destruct (decide (s = [])) as [->|Hn]; [constructor|].
  destruct (utf8_uncons s H Hn) as (c & r & -> & Hc & Hr).
  rewrite chars_app by (by apply utf8_head || apply Hc). constructor; [done|].
  apply IH; [|done]. rewrite length_app. pose proof (char_ok_nonempty c (proj1 Hc)). destruct c; [done|cbn; lia].
Qed.

(** Unicode scalar values, and their encodings. *)
Definition scalar (c : Z) : Prop := 0 <= c < 55296 \/ 57344 <= c < 1114112.

Lemma encode_uchar c : scalar c -> uchar (encode_utf8 c).
Proof.
  intros Hc. unfold encode_utf8, uchar, char_ok, is_cont, scalar in *.
  destruct (Z.ltb_spec c 128) as [H1|H1]; [|destruct (Z.ltb_spec c 2048) as [H2|H2]; [|destruct (Z.ltb_spec c 65536) as [H3|H3]]].
  - split; [exists c, []; by tests|]. cbn. by tests.
  - split; [do 2 eexists; split; [done|]; split; [by tests|]; repeat constructor; by tests|].
    cbn [utf8_valid]. unfold is_cont. by tests.
  - split; [do 2 eexists; split; [done|]; split; [by tests|]; repeat constructor; by tests|].
    cbn [utf8_valid]. unfold is_cont. tests.
    destruct (Z.eqb_spec (224 + c / 4096) 224); [by tests|].
    destruct (Z.eqb_spec (224 + c / 4096) 237); by tests.
  - split; [do 2 eexists; split; [done|]; split; [by tests|]; repeat constructor; by tests|].
    cbn [utf8_valid]. unfold is_cont. tests.
    destruct (Z.eqb_spec (240 + c / 262144) 240); [by tests|].
    destruct (Z.eqb_spec (240 + c / 262144) 244); by tests.
Qed.

Lemma decode_encode_utf8 c : scalar c -> decode_utf8 (encode_utf8 c) = c.
Proof.
  intros Hc. unfold encode_utf8, scalar in *.
  destruct (Z.ltb_spec c 128); [done|]. destruct (Z.ltb_spec c 2048); [cbn [decode_utf8]; lia|].
  destruct (Z.ltb_spec c 65536); cbn [decode_utf8]; lia.
Qed.

(** ** Positions in a string *)

Lemma indices_from_lookup cs k i :
  indices_from k cs !! i = (fun c => (k + len (concat (take i cs)), c)) <$> cs !! i.
Proof.
  revert k i. induction cs as [|c cs IH]; intros k [|i]; cbn; [done..|by rewrite Z.add_0_r|].
  rewrite IH. destruct (cs !! i); cbn; [|done]. rewrite length_app. do 2 f_equal. lia.
Qed.

Lemma byte_of_split pre post : Forall char_ok (pre ++ post) ->
  byte_of (concat (pre ++ post)) (len pre) = len (concat pre).
Proof.
  intros H. unfold byte_of, char_indices, nth_z. rewrite chars_of by done.
  rewrite indices_from_lookup, Nat2Z.id, take_app_length, lookup_app_r by lia. rewrite Nat.sub_diag.
  destruct post as [|c post]; cbn; [by rewrite app_nil_r|lia].
Qed.

Lemma boundary_split a b : head_is_cont b = false -> is_char_boundary (a ++ b) (len a) = true.
Proof.
  intros H. unfold is_char_boundary. destruct (Z.eqb_spec (len a) 0); [done|].
  destruct (Z.eqb_spec (len a) (len (a ++ b))) as [E|E]; [done|].
  rewrite length_app in E. unfold nth_z. rewrite Nat2Z.id, lookup_app_r by lia. rewrite Nat.sub_diag.
  destruct b as [|x b]; [cbn in E; lia|]. cbn in *. by rewrite H.
Qed.

Lemma str_insert_split a b c : head_is_cont b = false -> str_insert (a ++ b) (len a) c = Val (a ++ c ++ b).
Proof.
  intros H. unfold str_insert. rewrite boundary_split by done.
  by rewrite Nat2Z.id, take_app_length, drop_app_length.
Qed.

Lemma str_remove_split a c b : char_ok c -> head_is_cont b = false ->
  str_remove (a ++ c ++ b) (len a) = Val (a ++ b).
Proof.
  intros Hc Hb. unfold str_remove, str_from. rewrite boundary_split by by apply char_ok_head.
  cbn [mbind outcome_bind]. rewrite Nat2Z.id, drop_app_length, chars_app by done.
  rewrite take_app_length. replace (Z.to_nat (len a + len c)) with (length a + length c)%nat by lia.
  by rewrite <- drop_drop, !drop_app_length.
Qed.

(** ** The editor behind every single-line input

    The characters before the caret and those after it. *)

Record zipper := mk_zip { before : list bytes; after : list bytes }.

Inductive edit := EInsert (c : Z) | EBackspace | EDelete | ELeft | ERight | EHome | EEnd.

Definition zip_edit (e : edit) (z : zipper) : zipper :=
  match e with
  | EInsert c => mk_zip (before z ++ [encode_utf8 c]) (after z)
  | EBackspace => mk_zip (removelast (before z)) (after z)
  | EDelete => mk_zip (before z) (tail (after z))
  | ELeft => match last (before z) with
             | Some c => mk_zip (removelast (before z)) (c :: after z)
             | None => z
             end
  | ERight => match after z with
              | c :: cs => mk_zip (before z ++ [c]) cs
              | [] => z
              end
  | EHome => mk_zip [] (before z ++ after z)
  | EEnd => mk_zip (before z ++ after z) []
  end.

(** What the key handlers do with a text and its caret. *)
Definition do_edit (e : edit) (tc : bytes * Z) : outcome unit (bytes * Z) :=
  let '(t, c) := tc in
  match e with
  | EInsert x => ce_insert t c x
  | EBackspace => ce_backspace t c
  | EDelete => ce_delete t c
  | ELeft => Val (t, ce_left t c)
  | ERight => c' ← ce_right t c; Val (t, c')
  | EHome => Val (t, 0)
  | EEnd => Val (t, count t)
  end.

(** The text and caret of a zipper. *)
Definition flat (z : zipper) : bytes * Z := (concat (before z ++ after z), len (before z)).
Definition unzip (tc : bytes * Z) : zipper :=
  mk_zip (take (Z.to_nat tc.2) (chars tc.1)) (drop (Z.to_nat tc.2) (chars tc.1)).
Definition zip_ok (z : zipper) : Prop := Forall uchar (before z ++ after z).
Definition edit_ok (e : edit) : Prop := match e with EInsert c => scalar c | _ => True end.
Definition caret_ok (tc : bytes * Z) : Prop :=
  utf8_valid tc.1 = true /\ 0 <= tc.2 <= count tc.1.

Lemma unzip_ok tc : caret_ok tc -> zip_ok (unzip tc) /\ flat (unzip tc) = tc.
Proof.
  destruct tc as [t c]. intros [Hv Hc]. unfold zip_ok, flat, unzip, count in *. cbn [before after fst snd] in *.
  rewrite take_drop, chars_concat. split; [by apply utf8_chars|].
  rewrite length_take. f_equal. lia.
Qed.

Lemma flat_ok z : zip_ok z -> caret_ok (flat z).
Proof.
  intros H. split; cbn [flat fst snd]; [by apply utf8_concat|].
  rewrite count_of by eauto with tos. rewrite length_app. lia.
Qed.

Lemma removelast_snoc {A} (l : list A) x : removelast (l ++ [x]) = l.
Proof. apply List.removelast_last. Qed.

(** An edit adds no character but the one inserted. *)
Lemma zip_edit_forall (P : bytes -> Prop) e z : (forall c, e = EInsert c -> P (encode_utf8 c)) ->
  Forall P (before z ++ after z) -> Forall P (before (zip_edit e z) ++ after (zip_edit e z)).
Proof.
  destruct z as [pre post]. intros He. destruct e as [c| | | | | |]; cbn [zip_edit before after].
  - rewrite <- app_assoc, !Forall_app, Forall_cons. intros []. split_and!; [done|by apply He|done|done].
  - destruct pre as [|x pre _] using rev_ind; [done|].
    rewrite removelast_snoc, !Forall_app. tauto.
  - rewrite !Forall_app. intros [? H]. split; [done|]. by destruct H.
  - destruct pre as [|x pre _] using rev_ind; [done|].
    rewrite last_snoc, removelast_snoc. cbn [before after]. by rewrite <- app_assoc.
  - destruct post; [done|]. cbn [before after]. by rewrite <- app_assoc.
  - done.
  - by rewrite app_nil_r.
Qed.

Lemma zip_edit_ok e z : edit_ok e -> zip_ok z -> zip_ok (zip_edit e z).
Proof. intros He. apply zip_edit_forall. intros c ->. by apply encode_uchar. Qed.

Lemma zip_edit_length e z :
  (length (before (zip_edit e z)) + length (after (zip_edit e z)) <= S (length (before z) + length (after z)))%nat.
Proof.
  destruct z as [pre post]. destruct e; cbn [zip_edit before after]; rewrite ?length_app; cbn [length]; try lia.
  - destruct pre as [|x pre _] using rev_ind; [cbn; lia|]. rewrite removelast_snoc, length_app. lia.
  - destruct post; cbn; lia.
  - destruct pre as [|x pre _] using rev_ind; [cbn; lia|].
    rewrite last_snoc, removelast_snoc, length_app. cbn. lia.
  - destruct post; cbn [before after length]; rewrite ?length_app; cbn; lia.
Qed.

Lemma do_edit_zip e z : edit_ok e -> zip_ok z -> len (before z) + len (after z) < 2 ^ 64 - 1 ->
  do_edit e (flat z) = Val (flat (zip_edit e z)).
Proof.
  destruct z as [pre post]. unfold zip_ok. cbn [before after]. intros He Hz Hl.
  pose proof (uchars_chars _ Hz) as Hc. pose proof Hc as [Hpre Hpost]%Forall_app.
  assert (Hh : head_is_cont (concat post) = false) by by apply concat_head.
  assert (Hn : count (concat (pre ++ post)) = len pre + len post).
  { rewrite count_of by done. rewrite length_app. lia. }
  assert (Hm : Z.min (len pre) (len pre + len post) = len pre) by lia.
  unfold do_edit, flat. destruct e as [c| | | | | |]; cbn [zip_edit before after].
  - unfold ce_insert. rewrite Hn, Hm, byte_of_split by done. rewrite concat_app at 1.
    rewrite str_insert_split by done. cbn [mbind outcome_bind]. unfold add_u64. rewrite (proj2 (Z.ltb_lt _ _)) by lia.
    cbn [mbind outcome_bind]. rewrite <- app_assoc, concat_app, length_app. cbn [concat app length]. do 2 f_equal; lia.
  - unfold ce_backspace. rewrite Hn, Hm. destruct pre as [|x pre _] using rev_ind; [done|].
    rewrite removelast_snoc, length_app. cbn [length]. rewrite (proj2 (Z.ltb_lt _ _)) by lia.
    rewrite <- app_assoc in *. replace (Z.of_nat (length pre + 1) - 1) with (len pre) by lia.
    rewrite byte_of_split by done. rewrite concat_app at 1. cbn [app concat].
    apply Forall_app in Hpre as [_ Hx%Forall_inv].
    rewrite str_remove_split by done. cbn [mbind outcome_bind]. by rewrite concat_app.
  - unfold ce_delete. rewrite Hn, Hm. destruct post as [|x post].
    + cbn [length]. by rewrite (proj2 (Z.ltb_ge _ _)) by lia.
    + cbn [length tail]. rewrite (proj2 (Z.ltb_lt _ _)) by lia. rewrite byte_of_split by done.
      rewrite concat_app at 1. cbn [concat]. apply Forall_cons in Hpost as [Hx Hpost].
      rewrite str_remove_split by (done || by apply concat_head). cbn [mbind outcome_bind]. by rewrite concat_app.
  - unfold ce_left, saturating_sub. rewrite Hn, Hm. destruct pre as [|x pre _] using rev_ind; [done|].
    rewrite last_snoc, removelast_snoc, length_app. cbn [before after length]. rewrite <- app_assoc. do 2 f_equal. lia.
  - unfold ce_right, add_u64. rewrite (proj2 (Z.ltb_lt _ _)) by lia. cbn [mbind outcome_bind]. rewrite Hn.
    destruct post as [|x post]; cbn [before after length].
    + do 2 f_equal. lia.
    + rewrite <- app_assoc, length_app. cbn [app length]. do 2 f_equal. lia.
  - done.
  - rewrite Hn, app_nil_r, length_app. do 2 f_equal. lia.
Qed.

Definition run_edits (es : list edit) (tc : bytes * Z) : outcome unit (bytes * Z) :=
  fold_o (fun tc e => do_edit e tc) tc es.

Lemma run_edits_zip es : forall z, Forall edit_ok es -> zip_ok z ->
  len (before z) + len (after z) + len es < 2 ^ 64 - 1 ->
  run_edits es (flat z) = Val (flat (foldl (fun z e => zip_edit e z) z es)) /\
  zip_ok (foldl (fun z e => zip_edit e z) z es).
Proof.
  induction es as [|e es IH]; intros z He Hz Hl; [done|]. apply Forall_cons in He as [He Hes].
  cbn [length] in Hl. unfold run_edits. cbn [fold_o foldl]. rewrite do_edit_zip by (done || lia). cbn [mbind outcome_bind].
  apply IH; [done|by apply zip_edit_ok|]. pose proof (zip_edit_length e z). lia.
Qed.

(** One edit keeps the caret in a valid text of the same kind of characters. *)
Lemma do_edit_ok (P : bytes -> Prop) e tc : edit_ok e -> caret_ok tc -> count tc.1 < 2 ^ 64 - 1 ->
  (forall c, e = EInsert c -> P (encode_utf8 c)) -> Forall P (chars tc.1) ->
  exists tc', do_edit e tc = Val tc' /\ caret_ok tc' /\ count tc'.1 <= count tc.1 + 1 /\ Forall P (chars tc'.1).
Proof.
  intros He Hc Hl HP Hall. destruct (unzip_ok tc Hc) as [Hz E]. rewrite <- E.
  assert (Hlen : forall z, zip_ok z -> count (flat z).1 = len (before z) + len (after z)).
  { intros z Hz'. cbn. rewrite count_of by eauto with tos. rewrite length_app. lia. }
  rewrite <- E, Hlen in Hl by done.
  rewrite do_edit_zip by done. eexists. split; [done|].
  pose proof (zip_edit_ok e _ He Hz) as Hz'. split; [by apply flat_ok|]. split.
  - rewrite !Hlen by done. pose proof (zip_edit_length e (unzip tc)). lia.
  - cbn [flat fst]. rewrite chars_of by eauto with tos. apply zip_edit_forall; [done|].
    unfold unzip. cbn [before after]. by rewrite take_drop.
Qed.

(** ** Windows and columns *)

Lemma chars_count_pieces cs : Forall uchar cs -> count (concat cs) = len cs.
Proof. intros H. apply count_of. eauto with tos. Qed.

Lemma valid_pieces s : utf8_valid s = true -> exists cs, s = concat cs /\ Forall uchar cs.
Proof. intros H. exists (chars s). split; [by rewrite chars_concat|by apply utf8_chars]. Qed.

Lemma ellipsis_uchar : uchar ellipsis.
Proof. apply (encode_uchar 8230). left. lia. Qed.

Lemma trunc_spec s n : utf8_valid s = true -> 0 <= n ->
  utf8_valid (trunc s n) = true /\ count (trunc s n) <= Z.max 1 n /\ (count s <= n -> trunc s n = s).
Proof.
  intros Hv Hn. destruct (valid_pieces s Hv) as (cs & -> & Hcs). unfold trunc.
  rewrite chars_of, chars_count_pieces by eauto with tos. destruct (Z.leb_spec (len cs) n) as [H|H].
  - rewrite chars_count_pieces by done. split_and!; [by apply utf8_concat|lia|done].
  - assert (Ht : Forall uchar (take (Z.to_nat (saturating_sub n 1)) cs ++ [ellipsis])).
    { apply Forall_app. split; [by apply Forall_take|]. by repeat constructor; apply ellipsis_uchar. }
    replace (concat (take _ cs) ++ ellipsis) with (concat (take (Z.to_nat (saturating_sub n 1)) cs ++ [ellipsis]))
      by (rewrite concat_app; cbn [concat]; by rewrite app_nil_r).
    rewrite chars_count_pieces, length_app, length_take by done. unfold saturating_sub. cbn [length].
    split_and!; [by apply utf8_concat|lia|lia].
Qed.

Lemma spaces_uchar n : Forall uchar (replicate n space).
Proof. apply Forall_replicate. split; [by exists 32, []|done]. Qed.

Lemma concat_spaces n : concat (replicate n space) = replicate n 32.
Proof. induction n; cbn; congruence. Qed.

(** A cell is always one column wider than its content. *)
Lemma cell_pad_spec s w : utf8_valid s = true -> 0 <= w < 2 ^ 64 - 1 ->
  exists out, cell_pad s w = Val out /\ count out = w + 1 /\ utf8_valid out = true /\
    exists k, out = trunc s w ++ replicate k 32.
Proof.
  intros Hv Hw. destruct (trunc_spec s w Hv) as (Ht & Hc & _); [lia|]. unfold cell_pad, add_u64.
  rewrite (proj2 (Z.ltb_lt _ _)) by lia. cbn [mbind outcome_bind]. eexists. split; [done|].
  destruct (valid_pieces _ Ht) as (cs & E & Hcs). rewrite E in Hc |- *. rewrite chars_count_pieces in * by done.
  rewrite <- concat_spaces, <- concat_app. set (k := Z.to_nat _).
  assert (Hall : Forall uchar (cs ++ replicate k space)) by (apply Forall_app; split; [done|apply spaces_uchar]).
  rewrite chars_count_pieces, length_app, length_replicate by done. split_and!; [|by apply utf8_concat|].
  - unfold k, saturating_sub. lia.
  - exists k. by rewrite concat_app, concat_spaces.
Qed.

(** The window is a piece of the text around the caret. *)
Lemma field_view_spec t c w : utf8_valid t = true -> 0 <= c -> 0 <= w -> count t + w < 2 ^ 64 ->
  exists a shown b col, t = a ++ shown ++ b /\ field_view t c w = Val (shown, col) /\
    count shown <= w /\ 0 <= col <= count shown /\ count a + col = Z.min c (count t).
Proof.
  intros Hv Hc Hw Hlt. destruct (valid_pieces t Hv) as (cs & -> & Hcs). unfold field_view.
  rewrite chars_of, chars_count_pieces in * by eauto with tos.
  set (cc := Z.min c (len cs)). set (start := if w <? cc then cc - w else 0).
  assert (Hs : 0 <= start <= cc /\ cc - start <= w).
  { unfold start. destruct (Z.ltb_spec w cc); unfold cc in *; lia. }
  unfold add_u64. rewrite (proj2 (Z.ltb_lt _ _)) by (unfold cc in *; lia). cbn [mbind outcome_bind].
  set (stop := Z.min (start + w) (len cs)).
  assert (Hst : start <= stop <= len cs) by (unfold stop, cc in *; lia).
  exists (concat (take (Z.to_nat start) cs)), (concat (take (Z.to_nat (stop - start)) (drop (Z.to_nat start) cs))),
    (concat (drop (Z.to_nat stop) cs)), (cc - start).
  rewrite !chars_count_pieces by auto using Forall_take, Forall_drop.
  rewrite !length_take, length_drop. split_and!; try (unfold stop, cc in *; lia).
  - rewrite <- !concat_app. f_equal.
    replace (drop (Z.to_nat stop) cs) with (drop (Z.to_nat (stop - start)) (drop (Z.to_nat start) cs))
      by (rewrite drop_drop; f_equal; lia).
    by rewrite !take_drop.
  - unfold slice. by rewrite !(proj2 (Z.leb_le _ _)) by lia.
Qed.

(** ** Wrapping *)

Lemma chunks_loop_spec {A} n (l : list A) : (0 < n)%nat -> forall fuel, (length l <= fuel)%nat ->
  concat (chunks_loop fuel n l) = l /\ Forall (fun c => (0 < length c <= n)%nat) (chunks_loop fuel n l).
Proof.
  intros Hn fuel. revert l. induction fuel as [|fuel IH]; intros l Hl.
  { destruct l; [|cbn in Hl; lia]. by split. }
  destruct l as [|x l]; [by split|]. cbn [chunks_loop].
  destruct (IH (drop n (x :: l))) as [E H]; [rewrite length_drop; cbn in *; lia|].
  cbn [concat]. rewrite E, take_drop. split; [done|]. constructor; [|done].
  rewrite length_take. cbn. lia.
Qed.

Lemma Forall_pieces {A} (P : A -> Prop) (l : list (list A)) : Forall P (concat l) <-> Forall (Forall P) l.
Proof. induction l as [|x l IH]; cbn; [done|]. by rewrite Forall_app, Forall_cons, IH. Qed.

Lemma concat_map_concat {A} (l : list (list (list A))) : concat (map (@concat A) l) = concat (concat l).
Proof. induction l as [|x l IH]; cbn; [done|]. by rewrite concat_app, IH. Qed.

Lemma wrap_spec s n : utf8_valid s = true -> 1 <= n ->
  exists ls, wrap s n = Val ls /\ concat ls = s /\ Forall (fun l => count l <= n) ls /\ ls <> [].
Proof.
  intros Hv Hn. destruct (valid_pieces s Hv) as (cs & -> & Hcs). unfold wrap.
  rewrite chars_of by eauto with tos. destruct cs as [|c cs]; [eexists; split_and!; [done..| |done]|].
  { constructor; [unfold count; cbn; lia|constructor]. }
  unfold chunks. rewrite (proj2 (Z.eqb_neq _ _)) by lia. cbn [mbind outcome_bind].
  destruct (chunks_loop_spec (Z.to_nat n) (c :: cs) ltac:(lia) (length (c :: cs)) ltac:(done)) as [E H].
  eexists. split; [done|]. split_and!.
  - by rewrite concat_map_concat, E.
  - rewrite <- E in Hcs. apply Forall_pieces in Hcs. rewrite Forall_map.
    eapply Forall_impl; [by apply Forall_and; split; [exact H|exact Hcs]|].
    intros l [Hl Hu]. cbn. rewrite chars_count_pieces by done. lia.
  - cbn [length chunks_loop]. done.
Qed.

(** ** The options of a bar *)

(** The characters of an option: no space at either end, no two in a row. *)
Inductive option_chars : list bytes -> Prop :=
  | oc_one c : uchar c -> c <> space -> option_chars [c]
  | oc_next o c : option_chars o -> uchar c -> c <> space -> option_chars (o ++ [c])
  | oc_space o c : option_chars o -> uchar c -> c <> space -> option_chars (o ++ [space; c]).

Definition option_ok (o : bytes) : Prop := option_chars (chars o) /\ utf8_valid o = true.

Lemma option_chars_uchars o : option_chars o -> Forall uchar o.
Proof.
  induction 1 as [c|o c _ IH|o c _ IH]; [by constructor|apply Forall_app; by split; [|constructor]..|].
  apply Forall_app. split; [done|]. constructor; [by apply (Forall_inv (spaces_uchar 1))|by constructor].
Qed.

Lemma option_chars_nonempty o : option_chars o -> concat o <> [].
Proof.
  intros [c Hc|o' c _ Hc|o' c _ Hc]; rewrite ?concat_app; cbn; intros E;
    destruct Hc as [(b & tl & -> & _) _]; [done|destruct (concat o'); done..].
Qed.

Lemma option_ok_of o : option_chars o -> option_ok (concat o).
Proof.
  intros H. pose proof (option_chars_uchars o H) as Hu.
  split; [by rewrite chars_of by eauto with tos|by apply utf8_concat].
Qed.

Lemma option_ok_pieces o : option_ok o -> exists cs, o = concat cs /\ option_chars cs.
Proof. intros [H _]. exists (chars o). by rewrite chars_concat. Qed.

Lemma option_ok_nonempty o : option_ok o -> o <> [].
Proof. intros (cs & -> & H)%option_ok_pieces. by apply option_chars_nonempty. Qed.

Lemma split_step_char segs cur k c : c <> space ->
  split_step (segs, cur, k) c =
    (if (2 <=? k) && negb (bool_decide (cur = [])) then segs ++ [cur] else segs,
     (if 2 <=? k then [] else if (k =? 1) && negb (bool_decide (cur = [])) then cur ++ space else cur) ++ c, 0).
Proof.
  intros Hc. unfold split_step. rewrite bool_decide_eq_false_2 by done.
  destruct (Z.leb_spec 2 k); cbn [andb]; [by destruct cur|].
  by destruct ((k =? 1) && negb (bool_decide (cur = []))).
Qed.

Lemma split_step_space segs cur k : split_step (segs, cur, k) space = (segs, cur, k + 1).
Proof. reflexivity. Qed.

(** Reading an option after a separator, or at the start. *)
Lemma split_fold_option o segs cur k : option_chars o -> 2 <= k \/ cur = [] ->
  foldl split_step (segs, cur, k) o =
    (if bool_decide (cur = []) then segs else segs ++ [cur], concat o, 0).
Proof.
  intros Ho Hk. induction Ho as [c Hc Hs|o c Ho IH Hc Hs|o c Ho IH Hc Hs].
  - cbn [foldl concat]. rewrite split_step_char by done. case_bool_decide; cbn [negb].
    + subst. rewrite !andb_false_r. destruct (2 <=? k); by rewrite app_nil_r.
    + destruct Hk as [Hk|?]; [|done]. rewrite (proj2 (Z.leb_le _ _)) by done. by rewrite app_nil_r.
  - rewrite foldl_app, IH. cbn [foldl]. rewrite split_step_char by done.
    rewrite concat_app. cbn. by rewrite app_nil_r.
  - rewrite foldl_app, IH. cbn [foldl]. rewrite split_step_space, split_step_char by done.
    change (2 <=? 0 + 1) with false. change (0 + 1 =? 1) with true. cbn [andb].
    rewrite (bool_decide_eq_false_2 (concat o = [])) by by apply option_chars_nonempty.
    rewrite concat_app. cbn [negb concat]. by rewrite app_nil_r, <- app_assoc.
Qed.

(** A line of options. *)
Definition join2 (os : list bytes) : bytes := join (str "  ") os.

Lemma join2_snoc os o : os <> [] -> join2 (os ++ [o]) = join2 os ++ str "  " ++ o.
Proof.
  intros H. unfold join2. induction os as [|x os IH]; [done|].
  destruct os as [|y os]; [done|].
  change (join (str "  ") ((x :: y :: os) ++ [o])) with (x ++ str "  " ++ join (str "  ") ((y :: os) ++ [o])).
  rewrite IH by done. change (join (str "  ") (x :: y :: os)) with (x ++ str "  " ++ join (str "  ") (y :: os)).
  by rewrite <- !app_assoc.
Qed.

(** The characters of a line of options. *)
Fixpoint join_chars (oss : list (list bytes)) : list bytes :=
  match oss with
  | [] => []
  | [o] => o
  | o :: oss' => o ++ [space; space] ++ join_chars oss'
  end.

Lemma join_chars_concat oss : concat (join_chars oss) = join2 (map (@concat Z) oss).
Proof.
  induction oss as [|o oss IH]; [done|]. destruct oss as [|o' oss]; [done|].
  change (join_chars (o :: o' :: oss)) with (o ++ [space; space] ++ join_chars (o' :: oss)).
  rewrite !concat_app, IH. done.
Qed.

Lemma join_chars_uchars oss : Forall option_chars oss -> Forall uchar (join_chars oss).
Proof.
  induction oss as [|o oss IH]; intros H; [constructor|]. apply Forall_cons in H as [Ho H].
  destruct oss as [|o' oss]; [by apply option_chars_uchars|].
  change (join_chars (o :: o' :: oss)) with (o ++ [space; space] ++ join_chars (o' :: oss)).
  rewrite !Forall_app. split_and!; [by apply option_chars_uchars|apply (spaces_uchar 2)|by apply IH].
Qed.

Lemma split_fold_line oss o : Forall option_chars (o :: oss) -> forall segs cur k, 2 <= k \/ cur = [] ->
  exists l c, foldl split_step (segs, cur, k) (join_chars (o :: oss)) = (l, concat c, 0) /\ option_chars c /\
    l ++ [concat c] = (if bool_decide (cur = []) then segs else segs ++ [cur]) ++ map (@concat Z) (o :: oss).
Proof.
  revert o. induction oss as [|o' oss IH]; intros o H segs cur k Hk; apply Forall_cons in H as [Ho H].
  { cbn [join_chars]. rewrite split_fold_option by done. by eexists _, o. }
  change (join_chars (o :: o' :: oss)) with (o ++ [space; space] ++ join_chars (o' :: oss)).
  rewrite !foldl_app, split_fold_option by done. cbn [foldl]. rewrite !split_step_space.
  destruct (IH o' H (if bool_decide (cur = []) then segs else segs ++ [cur]) (concat o) (0 + 1 + 1)) as (l & c & E & Hc & El);
    [left; lia|]. exists l, c. split; [done|]. split; [done|]. rewrite El.
  rewrite bool_decide_eq_false_2 by by apply option_chars_nonempty. cbn [map]. by rewrite <- app_assoc.
Qed.

Lemma pieces_of os : Forall option_ok os -> exists oss, os = map (@concat Z) oss /\ Forall option_chars oss.
Proof.
  induction 1 as [|o os (cs & -> & Hc)%option_ok_pieces _ (oss & -> & H)]; [by exists []|].
  exists (cs :: oss). by split; [|constructor].
Qed.

(** Splitting a line of options gives the options back. *)
Lemma split_join2 os : Forall option_ok os -> split_options (join2 os) = os.
Proof.
  intros (oss & -> & H)%pieces_of. rewrite <- join_chars_concat. unfold split_options.
  rewrite chars_of by (pose proof (join_chars_uchars oss H); eauto with tos).
  destruct oss as [|o oss]; [done|].
  destruct (split_fold_line oss o H [] [] 0) as (l & c & -> & Hc & E); [by right|].
  rewrite bool_decide_eq_true_2 in E by done. cbn [app] in E. rewrite <- E. pose proof (option_chars_nonempty c Hc). by destruct (concat c).
Qed.

(** Whatever the text, its parts are options. *)
Lemma split_options_ok s : utf8_valid s = true -> Forall option_ok (split_options s).
Proof.
  intros Hv. destruct (valid_pieces s Hv) as (cs & -> & Hcs). unfold split_options. rewrite chars_of by eauto with tos.
  assert (H : forall segs cur k, Forall option_ok segs -> (cur = [] \/ option_ok cur) -> 0 <= k ->
    let '(segs', cur', k') := foldl split_step (segs, cur, k) cs in
    Forall option_ok segs' /\ (cur' = [] \/ option_ok cur')).
  { clear Hv. induction Hcs as [|c cs Hc _ IH]; intros segs cur k Hsegs Hcur Hk; [done|]. cbn [foldl].
    destruct (decide (c = space)) as [->|Hs]; [rewrite split_step_space; apply IH; [done..|lia]|].
    rewrite split_step_char by done.
    assert (Hone : option_ok c).
    { replace c with (concat [c]) by (cbn; by rewrite app_nil_r). by apply option_ok_of; constructor. }
    apply IH; [| |lia].
    - destruct (2 <=? k); cbn [andb]; [|done]. case_bool_decide; cbn [negb]; [done|].
      apply Forall_app. split; [done|]. constructor; [|constructor]. by destruct Hcur.
    - right. destruct (2 <=? k); [done|]. destruct Hcur as [->|Hcur].
      { rewrite bool_decide_eq_true_2 by done. by rewrite andb_false_r. }
      rewrite bool_decide_eq_false_2 by by apply option_ok_nonempty.
      apply option_ok_pieces in Hcur as (o & -> & Ho). rewrite andb_true_r. destruct (k =? 1).
      + replace ((concat o ++ space) ++ c) with (concat (o ++ [space; c]))
          by (rewrite concat_app, <- app_assoc; cbn; by rewrite app_nil_r).
        by apply option_ok_of; constructor.
      + replace (concat o ++ c) with (concat (o ++ [c])) by (rewrite concat_app; cbn; by rewrite app_nil_r).
        by apply option_ok_of; constructor. }
  specialize (H [] [] 0 ltac:(constructor) ltac:(by left) ltac:(lia)).
  destruct (foldl split_step ([], [], 0) cs) as [[segs cur] k]. destruct H as [H1 H2].
  destruct cur; [done|]. apply Forall_app. split; [done|]. constructor; [|constructor]. by destruct H2.
Qed.

(** ** Packing the options *)

Lemma count_app_valid a b : utf8_valid a = true -> utf8_valid b = true -> count (a ++ b) = count a + count b.
Proof.
  intros (ca & -> & Ha)%valid_pieces (cb & -> & Hb)%valid_pieces. rewrite <- concat_app.
  rewrite !chars_count_pieces, length_app by (by try apply Forall_app). lia.
Qed.

Lemma join2_valid os : Forall option_ok os -> utf8_valid (join2 os) = true.
Proof.
  intros (oss & -> & H)%pieces_of. rewrite <- join_chars_concat. by apply utf8_concat, join_chars_uchars.
Qed.

Lemma join2_nonempty os : Forall option_ok os -> os <> [] -> join2 os <> [].
Proof.
  intros H Hn. destruct os as [|o os]; [done|]. apply Forall_cons in H as [Ho%option_ok_nonempty _].
  unfold join2. cbn [join]. destruct os; [done|]. by destruct o.
Qed.

Lemma count_join2_snoc os o : Forall option_ok (os ++ [o]) -> os <> [] ->
  count (join2 (os ++ [o])) = count (join2 os) + 2 + count o.
Proof.
  intros [Hos Ho]%Forall_app Hn. apply Forall_inv in Ho. rewrite join2_snoc by done.
  pose proof (join2_valid os Hos) as Hj. pose proof (proj2 Ho) as Hv.
  assert (Hsp : utf8_valid (str "  " ++ o) = true).
  { change (str "  ") with (concat (replicate 2 space)). destruct (option_ok_pieces o Ho) as (cs & -> & Hc).
    rewrite <- concat_app. apply utf8_concat, Forall_app. split; [apply spaces_uchar|by apply option_chars_uchars]. }
  rewrite !count_app_valid by done. change (count (str "  ")) with 2. lia.
Qed.

(** A line of options fits, or is a single one. *)
Definition fits (m : Z) (g : list bytes) : Prop := g <> [] /\ (length g = 1%nat \/ count (join2 g) <= m).

Lemma pack_state m segs : Forall option_ok segs -> exists gs g, concat gs ++ g = segs /\
  foldl (pack_step m) ([], []) segs = (map join2 gs, join2 g) /\ Forall (fits m) gs /\ (segs = [] \/ fits m g).
Proof.
  induction segs as [|s segs IH] using rev_ind; intros H; [by exists [], []; auto|].
  apply Forall_app in H as [H Hs]. destruct (IH H) as (gs & g & E & Ef & Hgs & Hg).
  rewrite foldl_app, Ef. cbn [foldl pack_step].
  assert (Hgo : Forall option_ok g) by (rewrite <- E in H; by apply Forall_app in H as [_ ?]).
  destruct (decide (g = [])) as [->|Hne].
  { destruct Hg as [->|[? _]]; [|done]. apply app_eq_nil in E as [E _].
    assert (gs = []) as ->. { destruct gs as [|x gs]; [done|]. apply Forall_cons in Hgs as [[Hx _] _]. by destruct x. }
    exists [], [s]. split_and!; [done..|]. right. by split; [|left]. }
  pose proof (join2_nonempty g Hgo Hne) as Hj.
  destruct (join2 g) as [|x l] eqn:Ej; [done|]. rewrite <- Ej.
  rewrite <- count_join2_snoc by (done || by apply Forall_app). destruct (Z.leb_spec (count (join2 (g ++ [s]))) m) as [Hm|Hm].
  - exists gs, (g ++ [s]). rewrite app_assoc, E. split_and!; [done| |done|].
    + by rewrite join2_snoc.
    + right. split; [by destruct g|by right].
  - exists (gs ++ [g]), [s]. rewrite concat_app. cbn [concat]. rewrite app_nil_r, E, map_app.
    split_and!; [done..| |].
    + apply Forall_app. split; [done|]. constructor; [|constructor]. destruct Hg as [->|?]; [|done].
      apply app_eq_nil in E as [_ ?]. done.
    + right. by split; [|left].
Qed.

(** *** No packing has fewer lines *)

Definition total (g : list bytes) : Z := foldr Z.add 0 (count <$> g).

Lemma total_app a b : total (a ++ b) = total a + total b.
Proof. unfold total. rewrite fmap_app. induction a; cbn; [done|]. rewrite IHa. lia. Qed.

Lemma total_nonneg g : 0 <= total g.
Proof. unfold total. induction g; cbn; [done|]. unfold count at 1. lia. Qed.

Lemma count_join2 g : Forall option_ok g -> g <> [] -> count (join2 g) = total g + 2 * (len g - 1).
Proof.
  induction g as [|o g IH] using rev_ind; intros H Hn; [done|].
  rewrite total_app, length_app. unfold total at 2. cbn [fmap list_fmap foldr length].
  destruct (decide (g = [])) as [->|Hg]; [cbn; lia|].
  rewrite count_join2_snoc by done. apply Forall_app in H as [H _]. rewrite IH by done. lia.
Qed.

Lemma count_join2_part a g b : Forall option_ok (a ++ g ++ b) -> g <> [] ->
  count (join2 g) <= count (join2 (a ++ g ++ b)).
Proof.
  intros H Hg. rewrite (count_join2 (a ++ g ++ b)) by (done || by destruct a, g).
  rewrite !Forall_app in H. destruct H as (_ & H & _). rewrite count_join2 by done.
  rewrite !total_app, !length_app. pose proof (total_nonneg a). pose proof (total_nonneg b). lia.
Qed.

(** The packing loop on groups of options. *)
Definition pack_group (m : Z) (st : list (list bytes) * list bytes) (s : bytes) : list (list bytes) * list bytes :=
  let '(gs, g) := st in
  match g with
  | [] => (gs, [s])
  | _ => if count (join2 (g ++ [s])) <=? m then (gs, g ++ [s]) else (gs ++ [g], [s])
  end.

Lemma pack_step_group m segs : forall gs g, Forall option_ok (g ++ segs) ->
  foldl (pack_step m) (map join2 gs, join2 g) segs =
    let '(gs', g') := foldl (pack_group m) (gs, g) segs in (map join2 gs', join2 g').
Proof.
  induction segs as [|s segs IH]; intros gs g H; [done|]. cbn [foldl]. rewrite (cons_middle s g segs), app_assoc in H.
  destruct (decide (g = [])) as [->|Hg]; [cbn [pack_group]; by rewrite <- (IH gs [s])|].
  apply Forall_app in H as [H Hsegs].
  assert (Hgo : Forall option_ok g) by by apply Forall_app in H as [? _].
  pose proof (join2_nonempty g Hgo Hg) as Hj. unfold pack_step at 2.
  destruct (join2 g) as [|x l] eqn:Ej; [done|]. rewrite <- Ej, <- count_join2_snoc, <- join2_snoc by done.
  destruct g as [|o g']; [done|]. set (g := o :: g') in *.
  change (pack_group m (gs, g) s) with (if count (join2 (g ++ [s])) <=? m then (gs, g ++ [s]) else (gs ++ [g], [s])).
  destruct (count (join2 (g ++ [s])) <=? m).
  - by rewrite <- (IH gs (g ++ [s])) by by apply Forall_app.
  - rewrite <- (IH (gs ++ [g]) [s]); [by rewrite map_app|]. apply Forall_app in H as [_ H]. by apply Forall_app.
Qed.

Definition lines_of (st : list (list bytes) * list bytes) : nat :=
  (length st.1 + match st.2 with [] => 0 | _ => 1 end)%nat.

(** Inside a line of another packing, after its options [p], with [k] lines
    before it: at most as many lines, or one more that holds no option of an
    earlier one. *)
Definition ahead (k : nat) (p : list bytes) (st : list (list bytes) * list bytes) : Prop :=
  (lines_of st <= k)%nat \/ (lines_of st = S k /\ st.2 <> [] /\ exists p0, p = p0 ++ st.2).

Lemma ahead_single k p gs s : (length gs <= k)%nat -> ahead k (p ++ [s]) (gs, [s]).
Proof.
  intros H. unfold ahead, lines_of. cbn [fst snd].
  destruct (decide (length gs = k)) as [->|]; [right|left; lia]. split_and!; [lia|done|by exists p].
Qed.

Lemma ahead_step m k h p s q st : Forall option_ok h -> fits m h -> h = p ++ s :: q ->
  ahead k p st -> ahead k (p ++ [s]) (pack_group m st s).
Proof.
  intros Hok [_ Hfit] Hh Hst. destruct st as [gs g]. cbn [pack_group].
  destruct g as [|o g']; [|set (g := o :: g') in *; assert (Hl : lines_of (gs, g) = S (length gs)) by (cbn; lia)].
  { apply ahead_single. destruct Hst as [Hst|(? & ? & _)]; [|done]. unfold lines_of in Hst. cbn in Hst. lia. }
  destruct (Z.leb_spec (count (join2 (g ++ [s]))) m) as [Hm|Hm].
  - assert (Hl' : lines_of (gs, g ++ [s]) = S (length gs)) by (cbn; lia).
    unfold ahead in *. rewrite Hl, Hl' in *. destruct Hst as [?|(? & _ & p0 & ->)]; [by left|right].
    split_and!; [done..|]. exists p0. cbn [snd]. by rewrite app_assoc.
  - apply ahead_single. rewrite length_app. cbn [length].
    destruct Hst as [Hst|(_ & _ & p0 & ->)]; [lia|]. exfalso. cbn [snd] in Hh.
    assert (E : h = p0 ++ (g ++ [s]) ++ q) by by rewrite Hh, <- !app_assoc.
    assert (Hlen : (2 <= length h)%nat) by (rewrite E, !length_app; cbn; lia).
    destruct Hfit as [?|Hfit]; [lia|]. rewrite E in Hok, Hfit.
    pose proof (count_join2_part p0 (g ++ [s]) q Hok ltac:(by destruct g)). lia.
Qed.

Lemma pack_group_line m k h : Forall option_ok h -> fits m h -> forall q p st, h = p ++ q ->
  ahead k p st -> ahead k h (foldl (pack_group m) st q).
Proof.
  intros Hok Hfit q. induction q as [|s q IH]; intros p st Hh Hst; [by rewrite Hh, app_nil_r|].
  cbn [foldl]. apply (IH (p ++ [s])); [by rewrite <- app_assoc|]. by eapply ahead_step.
Qed.

Lemma pack_group_fewest m gs' : Forall (fits m) gs' -> Forall option_ok (concat gs') -> forall k st,
  (lines_of st <= k)%nat -> (lines_of (foldl (pack_group m) st (concat gs')) <= k + length gs')%nat.
Proof.
  induction 1 as [|h gs' Hh _ IH]; intros Hok k st Hst; cbn [concat foldl length] in *; [lia|].
  apply Forall_app in Hok as [Hok Hok']. rewrite foldl_app. rewrite <- Nat.add_succ_comm. apply IH; [done|].
  destruct (pack_group_line m k h Hok Hh h [] st eq_refl (or_introl Hst)) as [?|[? _]]; lia.
Qed.

(** The lines of a bar: groups of options that fit, as few as can be. *)
Lemma wrap_options_spec s m : utf8_valid s = true -> split_options s <> [] ->
  exists gs, wrap_options s m = map join2 gs /\ concat gs = split_options s /\ Forall (fits m) gs /\
    forall gs', concat gs' = split_options s -> Forall (fits m) gs' -> (length gs <= length gs')%nat.
Proof.
  intros Hv Hne. pose proof (split_options_ok s Hv) as Hok. unfold wrap_options.
  destruct (pack_state m _ Hok) as (gs & g & E & Ef & Hgs & [?|Hg]); [done|]. rewrite Ef.
  assert (Hgok : Forall option_ok g) by (rewrite <- E in Hok; by apply Forall_app in Hok as [_ ?]).
  assert (Hj : join2 g <> []) by (apply join2_nonempty; [done|apply Hg]).
  exists (gs ++ [g]). rewrite concat_app, map_app. cbn [concat map]. rewrite app_nil_r.
  split_and!; [|done|by apply Forall_app; split; [|constructor]|].
  - destruct (join2 g); [done|]. by destruct (map join2 gs).
  - intros gs' E' Hfit. rewrite <- E' in Hok.
    pose proof (pack_group_fewest m gs' Hfit Hok 0 ([], []) ltac:(cbn; lia)) as Hl.
    pose proof (pack_step_group m (concat gs') [] [] Hok) as Eg. cbn [map app] in Eg. unfold join2 at 1 in Eg. cbn [join] in Eg.
    rewrite E', Ef in Eg. rewrite E' in Hl. destruct (foldl (pack_group m) ([], []) (split_options s)) as [gs2 g2].
    injection Eg as Eg1 Eg2. unfold lines_of in Hl. cbn [fst snd] in Hl.
    rewrite length_app. cbn [length]. rewrite <- (length_map join2 gs), Eg1, length_map.
    destruct g2; [by rewrite Eg2 in Hj|]. lia.
Qed.

(** ** Reflowing the bars of a frame *)

Lemma wrap_options_nonempty s m : wrap_options s m <> [].
Proof.
  unfold wrap_options. destruct (foldl (pack_step m) ([], []) (split_options s)) as [ls cur].
  destruct (match cur with [] => ls | _ => ls ++ [cur] end); done.
Qed.

Lemma reflow_head m l : exists l' ls, reflow m l = l' :: ls /\ kind l' = kind l /\ hit l' = hit l /\
  (is_bar l = false -> l' = l).
Proof.
  unfold reflow. destruct (is_bar l) eqn:E; [|by exists l, []].
  pose proof (wrap_options_nonempty (text l) m). destruct (wrap_options (text l) m) as [|o os]; [done|].
  eexists _, _. split; [done|]. split_and!; [done| |done]. unfold is_bar in E. by apply bool_decide_eq_true in E.
Qed.

Lemma reflow_loop_spec m ls : forall acc, exists extra,
  reflow_loop m ls acc = (concat (map (reflow m) ls), extra) /\
  forall i l, ls !! i = Some l -> exists k : nat, extra !! i = Some (acc + Z.of_nat k) /\
    concat (map (reflow m) ls) !! (i + k)%nat = head (reflow m l).
Proof.
  induction ls as [|l ls IH]; intros acc; cbn [reflow_loop map concat]; [by eexists|].
  destruct (reflow_head m l) as (l' & rest & E & _). rewrite E.
  destruct (IH (acc + saturating_sub (len (l' :: rest)) 1)) as (extra & -> & H).
  eexists. split; [done|]. intros [|i] x Hx.
  - injection Hx as <-. exists 0%nat. rewrite E. split; [|done]. cbn. f_equal. lia.
  - cbn in Hx. destruct (H i x Hx) as (k & Hk & Hl). exists (length rest + k)%nat. split.
    + change ((acc :: extra) !! S i) with (extra !! i). rewrite Hk. f_equal. unfold saturating_sub. cbn [length]. lia.
    + rewrite lookup_app_r by (cbn; lia). rewrite <- Hl. f_equal. cbn. lia.
Qed.

(** Where the lines of a frame [f] are in a frame [f']. *)
Definition tracks (sh : Z -> Z) (f f' : Frame) : Prop :=
  (forall (i : nat) l, body f !! i = Some l -> exists (j : nat) l', sh (Z.of_nat i) = Z.of_nat j /\
     body f' !! j = Some l' /\ kind l' = kind l /\ hit l' = hit l /\ (is_bar l = false -> l' = l)) /\
  cell_hls f' = (fun '(li, x, w, c) => (sh li, x, w, c)) <$> cell_hls f /\
  cursor f' = (fun '(cl, cc) => (sh cl, cc)) <$> cursor f /\
  title f' = title f /\ bg f' = bg f /\ status f' = status f.

(** The bars of a frame fit. *)
Definition bars_fit (m : Z) (f : Frame) : Prop :=
  forall l, l ∈ body f -> is_bar l = true -> count (text l) <= m \/ (length (split_options (text l)) <= 1)%nat.

Lemma tracks_refl f : tracks (fun i => i) f f.
Proof.
  split_and!; try done.
  - intros i l Hl. by exists i, l.
  - symmetry. rewrite <- (list_fmap_id (cell_hls f)) at 2. apply list_fmap_ext. by intros _ [[[? ?] ?] ?] _.
  - by destruct (cursor f) as [[? ?]|].
Qed.

Lemma tracks_reflow m f extra : reflow_loop m (body f) 0 = (concat (map (reflow m) (body f)), extra) ->
  (forall i l, body f !! i = Some l -> exists k : nat, extra !! i = Some (0 + Z.of_nat k) /\
    concat (map (reflow m) (body f)) !! (i + k)%nat = head (reflow m l)) ->
  tracks (shift extra) f (mk_frame (title f) (bg f) (concat (map (reflow m) (body f))) (status f)
    ((fun '(li, x, w, c) => (shift extra li, x, w, c)) <$> cell_hls f)
    ((fun '(cl, cc) => (shift extra cl, cc)) <$> cursor f)).
Proof.
  intros _ H. split_and!; try done. intros i l Hl. destruct (H i l Hl) as (k & Hk & Hy).
  destruct (reflow_head m l) as (l' & rest & Er & Hl'). rewrite Er in Hy. exists (i + k)%nat, l'.
  split; [|by split]. unfold shift, nth_z. rewrite Nat2Z.id, Hk. lia.
Qed.

Lemma wrap_options_fit s m l : utf8_valid s = true -> l ∈ wrap_options s m ->
  count l <= m \/ (length (split_options l) <= 1)%nat.
Proof.
  intros Hv Hl. destruct (decide (split_options s = [])) as [E|E].
  { right. unfold wrap_options in Hl. rewrite E in Hl. cbn in Hl. by apply list_elem_of_singleton in Hl as ->; cbn; lia. }
  pose proof (split_options_ok s Hv) as Hok.
  destruct (wrap_options_spec s m Hv E) as (gs & Ew & Eg & Hf & _). rewrite Ew in Hl.
  apply list_elem_of_In, in_map_iff in Hl as (g & <- & Hg%list_elem_of_In).
  rewrite Forall_forall in Hf. destruct (Hf g Hg) as [_ [H1|H1]]; [right|by left].
  rewrite split_join2; [lia|]. rewrite <- Eg in Hok. apply Forall_pieces in Hok. rewrite Forall_forall in Hok. by apply Hok.
Qed.

Lemma wrap_bars_spec f m : exists sh, tracks sh f (wrap_shortcut_bars f m).
Proof.
  unfold wrap_shortcut_bars. destruct ((m =? 0) || _); [eexists; apply tracks_refl|].
  destruct (reflow_loop_spec m (body f) 0) as (extra & E & H). rewrite E. eexists. by apply tracks_reflow.
Qed.

Lemma wrap_bars_fit f m : m <> 0 -> Forall (fun l => utf8_valid (text l) = true) (body f) ->
  bars_fit m (wrap_shortcut_bars f m).
Proof.
  intros Hm Hv l. unfold wrap_shortcut_bars. rewrite (proj2 (Z.eqb_neq _ _)) by done. cbn [orb].
  destruct (existsb _ _) eqn:E; cbn [negb].
  - destruct (reflow_loop_spec m (body f) 0) as (extra & -> & _). cbn [body].
    intros Hl Hb. apply list_elem_of_In, in_concat in Hl as (ls & Hls & Hl).
    apply in_map_iff in Hls as (l0 & <- & Hl0%list_elem_of_In). apply list_elem_of_In in Hl.
    rewrite Forall_forall in Hv. specialize (Hv l0 Hl0). unfold reflow in Hl. destruct (is_bar l0) eqn:E0.
    + apply list_elem_of_fmap in Hl as (c & -> & Hc). by apply (wrap_options_fit (text l0)).
    + apply list_elem_of_singleton in Hl as ->. congruence.
  - intros Hl Hb. left. destruct (Z.leb_spec (count (text l)) m) as [|Hlt]; [done|].
    apply not_true_iff_false in E. destruct E. apply existsb_exists. exists l. split; [by apply list_elem_of_In|].
    rewrite Hb. cbn. lia.
Qed.

(** ** Clicks on hints *)

(** A hint: what comes before it, its token and the rest of its word. *)
Record hint := mk_hint { h_pre : list bytes; h_tok : list bytes; h_word : list bytes }.
Definition hint_chars (h : hint) : list bytes := h_pre h ++ [[91]] ++ h_tok h ++ [[93]] ++ h_word h.
Definition hint_ok (h : hint) : Prop := [91] ∉ h_pre h /\ [93] ∉ h_tok h /\ space ∉ h_word h.

(** A bar: hints, each ended by a space, and what follows the last. *)
Inductive bar : list bytes -> list hint -> Prop :=
  | bar_tail tl : [91] ∉ tl -> bar tl []
  | bar_hint h rest hs : hint_ok h -> bar rest hs -> rest = [] \/ head rest = Some space ->
      bar (hint_chars h ++ rest) (h :: hs).

(** The hint over a column. *)
Fixpoint hint_at (hs : list hint) (i cc : Z) : option Ps2.Key :=
  match hs with
  | [] => None
  | h :: hs' =>
      if (i + len (h_pre h) <=? cc) && (cc <? i + len (hint_chars h)) then key_for_token (concat (h_tok h))
      else hint_at hs' (i + len (hint_chars h)) cc
  end.

Lemma scan_tok_app tok cs : [93] ∉ tok -> scan_tok (tok ++ [93] :: cs) = (concat tok, len tok).
Proof.
  induction tok as [|c tok IH]; intros H; [done|]. apply not_elem_of_cons in H as [Hc H].
  cbn [app scan_tok]. rewrite bool_decide_eq_false_2 by done. rewrite IH by done. cbn. f_equal. lia.
Qed.

Lemma skip_word_app w rest : space ∉ w -> rest = [] \/ head rest = Some space -> skip_word (w ++ rest) = len w.
Proof.
  intros H Hr. induction w as [|c w IH]; cbn [app].
  - destruct Hr as [->|Hr]; [done|]. destruct rest as [|c rest]; [done|]. injection Hr as ->. done.
  - apply not_elem_of_cons in H as [Hc H]. cbn [skip_word length]. rewrite bool_decide_eq_false_2 by done.
    rewrite IH by done. lia.
Qed.

Lemma shortcut_skip pre cs : [91] ∉ pre -> forall fuel i cc,
  shortcut_loop (length pre + fuel) (pre ++ cs) i cc = shortcut_loop fuel cs (i + len pre) cc.
Proof.
  induction pre as [|c pre IH]; intros H fuel i cc; [cbn [app length Nat.add]; by rewrite Z.add_0_r|].
  apply not_elem_of_cons in H as [Hc H]. cbn [app length Nat.add shortcut_loop].
  rewrite bool_decide_eq_false_2 by done. cbn [negb]. rewrite IH by done. f_equal. lia.
Qed.

Lemma scan_tok_nonneg cs : 0 <= (scan_tok cs).2.
Proof.
  induction cs as [|c cs IH]; cbn [scan_tok]; [done|]. case_bool_decide; [done|].
  destruct (scan_tok cs) as [tok n]. cbn in *. lia.
Qed.
Lemma skip_word_nonneg cs : 0 <= skip_word cs.
Proof. induction cs; cbn; [done|]. case_bool_decide; lia. Qed.

(** One step of the loop per character is enough. *)
Lemma shortcut_loop_more fuel : forall fuel' cs i cc, (length cs <= fuel)%nat -> (length cs <= fuel')%nat ->
  shortcut_loop fuel cs i cc = shortcut_loop fuel' cs i cc.
Proof.
  induction fuel as [|fuel IH]; intros [|fuel'] [|c cs] i cc H H'; cbn [length] in *; try lia; try done.
  cbn [shortcut_loop]. destruct (negb _); [apply IH; lia|].
  pose proof (scan_tok_nonneg cs) as Hn. destruct (scan_tok cs) as [tok n]. cbn [snd] in Hn.
  destruct (_ && _); [done|].
  match goal with |- context [skip_word ?x] => pose proof (skip_word_nonneg x); generalize dependent (skip_word x); intros sk Hsk end.
  apply IH; rewrite length_drop; cbn [length]; lia.
Qed.

Lemma shortcut_hint h rest fuel i cc : hint_ok h -> rest = [] \/ head rest = Some space ->
  (length (hint_chars h ++ rest) <= fuel)%nat ->
  shortcut_loop fuel (hint_chars h ++ rest) i cc =
    if (i + len (h_pre h) <=? cc) && (cc <? i + len (hint_chars h)) then key_for_token (concat (h_tok h))
    else shortcut_loop fuel rest (i + len (hint_chars h)) cc.
Proof.
  intros (Hp & Ht & Hw) Hr Hf. rewrite (shortcut_loop_more fuel (length (h_pre h) + fuel)) by lia.
  unfold hint_chars in *. rewrite <- !app_assoc in *. rewrite shortcut_skip by done.
  rewrite !length_app in Hf |- *. cbn [length] in Hf |- *.
  destruct fuel as [|fuel]; [lia|]. remember (shortcut_loop (S fuel) rest) as F eqn:EF.
  cbn [app shortcut_loop]. change (bool_decide ([91] = [91])) with true. cbn [negb].
  rewrite scan_tok_app by done.
  set (cs := [91] :: h_tok h ++ [93] :: h_word h ++ rest).
  assert (Hlen : len cs = 1 + len (h_tok h) + 1 + len (h_word h) + len rest).
  { unfold cs. cbn [length]. rewrite length_app. cbn [length]. rewrite length_app. lia. }
  replace (Z.min (1 + len (h_tok h) + 1) (len cs)) with (1 + len (h_tok h) + 1) by lia.
  assert (Hd : drop (Z.to_nat (1 + len (h_tok h) + 1)) cs = h_word h ++ rest).
  { unfold cs. change ([91] :: h_tok h ++ [93] :: h_word h ++ rest) with (([[91]] ++ h_tok h) ++ [93] :: h_word h ++ rest).
    replace (Z.to_nat _) with (S (length (h_tok h)) + 1)%nat by lia.
    by rewrite <- drop_drop, drop_app_length'. }
  rewrite Hd, skip_word_app by done.
  replace (drop (Z.to_nat (1 + len (h_tok h) + 1 + len (h_word h))) cs) with rest.
  2:{ replace (Z.to_nat _) with (Z.to_nat (1 + len (h_tok h) + 1) + length (h_word h))%nat by lia.
      by rewrite <- drop_drop, Hd, drop_app_length. }
  replace (i + len (h_pre h) + (1 + len (h_tok h) + 1 + len (h_word h)))
    with (i + Z.of_nat (length (h_pre h) + (1 + (length (h_tok h) + (1 + length (h_word h)))))%nat) by lia.
  destruct (_ && _); [done|]. subst F. rewrite length_app in Hf. apply shortcut_loop_more; lia.
Qed.

(** A click resolves to the hint it is on. *)
Lemma shortcut_at_bar text hs cc : bar (chars text) hs -> shortcut_at text cc = hint_at hs 0 cc.
Proof.
  unfold shortcut_at. generalize (chars text). intros cs H.
  enough (forall fuel i, (length cs <= fuel)%nat -> shortcut_loop fuel cs i cc = hint_at hs i cc) by auto.
  induction H as [tl Htl|h rest hs Hh Hb IH Hr]; intros fuel i Hf.
  - rewrite (shortcut_loop_more fuel (length tl + 0)) by lia. rewrite <- (app_nil_r tl) at 2.
    by rewrite shortcut_skip.
  - rewrite shortcut_hint by done. cbn [hint_at]. destruct (_ && _); [done|]. apply IH.
    rewrite length_app in Hf. lia.
Qed.
