(* ===== verification/Builder.v ===== *)
(** * The structured value builder

    [FieldBuilder] of [kernel/src/ui.rs]: the labelled parts a value is edited
    in, loading them from a value, from the clock or from the next free key,
    composing them back to text, and the keys of the screen. *)

From S2P Require Import Prelude Types Bignum Value Ps2 UiText.
From S2P Require Rtc.

Module PartId.
Inductive t :=
  | Year | Month | Day | Hour | Minute | Second | Frac | OffSign | OffHour | OffMin
  | Sign | IntDigits | DecFrac
  | TextPart.
#[global] Instance t_eq_dec : EqDecision t.
Proof. solve_decision. Defined.

Definition max_digits (p : t) : Z :=
  match p with
  | Month | Day | Hour | Minute | Second | OffHour | OffMin => 2
  | _ => 2 ^ 64 - 1
  end.
Definition is_sign (p : t) : bool := match p with OffSign | Sign => true | _ => false end.
Definition is_text (p : t) : bool := match p with TextPart => true | _ => false end.
End PartId.

Module PartField.
Record t := mk { id : PartId.t; label : bytes; buf : bytes; neg : bool; caret : Z }.
Definition with_buf (b : bytes) (c : Z) (f : t) : t := mk (id f) (label f) b (neg f) c.
Definition with_neg (n : bool) (f : t) : t := mk (id f) (label f) (buf f) n (caret f).
End PartField.

(** [format!("{:02}", v)] *)
Definition num2 (v : Z) : bytes := let s := fmt_u64 v in replicate (2 - length s) 48 ++ s.

Definition pad2 (s : bytes) : bytes :=
  match s with
  | [] => str "00"
  | [_] => 48 :: s
  | _ => s
  end.

(** The first element that satisfies [p], changed in place. *)
Fixpoint update_first {A} (p : A -> bool) (g : A -> A) (l : list A) : list A :=
  match l with
  | [] => []
  | x :: l' => if p x then g x :: l' else x :: update_first p g l'
  end.

Module FieldBuilder.

Record t := mk {
  field : nat; col_name : bytes; ty : Ty.t; fields : list PartField.t; focus : Z;
  error : option bytes; next_value : option bytes
}.

Definition with_fields (fs : list PartField.t) (b : t) : t :=
  mk (field b) (col_name b) (ty b) fs (focus b) (error b) (next_value b).
Definition with_focus (i : Z) (b : t) : t :=
  mk (field b) (col_name b) (ty b) (fields b) i (error b) (next_value b).
Definition with_error (e : option bytes) (b : t) : t :=
  mk (field b) (col_name b) (ty b) (fields b) (focus b) e (next_value b).
Definition with_next (n : option bytes) (b : t) : t :=
  mk (field b) (col_name b) (ty b) (fields b) (focus b) (error b) n.

Definition is_datetime (ty : Ty.t) : bool :=
  match ty with
  | Ty.Date | Ty.DateTz | Ty.Time | Ty.DateTime | Ty.DateTimeTz => true
  | _ => false
  end.

Definition split_number (s : bytes) : bool * bytes * bytes :=
  let '(neg, rest) :=
    match s with
    | 45 :: r => (true, r)
    | 43 :: r => (false, r)
    | _ => (false, s)
    end in
  match split_once 46 rest with
  | Some (i, fr) => (neg, i, fr)
  | None => (neg, rest, [])
  end.

(** ** The parts of a type *)

Definition part (id : PartId.t) (label : bytes) : PartField.t := PartField.mk id label [] false 0.
Definition date_parts : list PartField.t :=
  [part PartId.Year (str "Year"); part PartId.Month (str "Month"); part PartId.Day (str "Day")].
Definition time_parts : list PartField.t :=
  [part PartId.Hour (str "Hour"); part PartId.Minute (str "Minute"); part PartId.Second (str "Second");
   part PartId.Frac (str "Sub-second")].
Definition off_parts : list PartField.t :=
  [part PartId.OffSign (str "Zone sign"); part PartId.OffHour (str "Zone hour");
   part PartId.OffMin (str "Zone min")].

Definition parts_of (ty : Ty.t) : list PartField.t :=
  match ty with
  | Ty.Integer => [part PartId.Sign (str "Sign"); part PartId.IntDigits (str "Digits")]
  | Ty.UnsignedInteger => [part PartId.IntDigits (str "Digits")]
  | Ty.Decimal => [part PartId.Sign (str "Sign"); part PartId.IntDigits (str "Integer part");
                   part PartId.DecFrac (str "Fraction")]
  | Ty.String => [part PartId.TextPart (str "Text")]
  | Ty.Date => date_parts
  | Ty.DateTz => date_parts ++ off_parts
  | Ty.Time => time_parts
  | Ty.DateTime => date_parts ++ time_parts
  | Ty.DateTimeTz => date_parts ++ time_parts ++ off_parts
  end.

Definition new (field : nat) (col_name : bytes) (ty : Ty.t) : t :=
  mk field col_name ty (parts_of ty) 0 None None.

Definition has_now (b : t) : bool := is_datetime (ty b).
Definition has_next (b : t) : bool := bool_decide (is_Some (next_value b)).
Definition nf (b : t) : Z := len (fields b).
Definition now_index (b : t) : option Z := if has_now b then Some (nf b) else None.
Definition next_index (b : t) : option Z :=
  if has_next b then Some (nf b + Z.b2z (has_now b)) else None.
Definition ok_index (b : t) : Z := nf b + Z.b2z (has_now b) + Z.b2z (has_next b).
Definition cancel_index (b : t) : Z := ok_index b + 1.
Definition total (b : t) : Z := cancel_index b + 1.

(** ** Loading and composing *)

Definition is_part (id : PartId.t) (f : PartField.t) : bool := bool_decide (PartField.id f = id).

Definition set (id : PartId.t) (buf : bytes) (neg : bool) (b : t) : t :=
  with_fields (update_first (is_part id)
    (fun f => PartField.mk (PartField.id f) (PartField.label f) buf neg (count buf)) (fields b)) b.

Definition get (b : t) (id : PartId.t) : option PartField.t := List.find (is_part id) (fields b).

Definition set_date (d : Date.t) (b : t) : t :=
  set PartId.Day (num2 (Date.day d)) false
  (set PartId.Month (num2 (Date.month d)) false
  (set PartId.Year (BigUint.to_dec_string (BigInt.magnitude (Date.year d))) (BigInt.is_negative (Date.year d)) b)).

Definition set_time (t : TimeOfDay.t) (b : FieldBuilder.t) : FieldBuilder.t :=
  let secs := TimeOfDay.secs t in
  set PartId.Frac (show_digits (TimeOfDay.frac t)) false
  (set PartId.Second (num2 (as_u8 (secs mod 60))) false
  (set PartId.Minute (num2 (as_u8 ((secs mod 3600) / 60))) false
  (set PartId.Hour (num2 (as_u8 (secs / 3600))) false b))).

Definition set_off (off : Z) (b : t) : t :=
  let a := Z.abs off in
  set PartId.OffMin (num2 (as_u8 (a mod 60))) false
  (set PartId.OffHour (num2 (as_u8 (a / 60))) false
  (set PartId.OffSign [] (off <? 0) b)).

Definition load_from (v : Value.t) (b : t) : t :=
  match v with
  | Value.Integer _ | Value.Unsigned _ | Value.Decimal _ =>
      let '(neg, int, frac) := split_number (Value.display v) in
      set PartId.DecFrac frac false (set PartId.IntDigits int false (set PartId.Sign [] neg b))
  | Value.Str s => set PartId.TextPart s false b
  | Value.Date d => set_date d b
  | Value.DateTz d off => set_off off (set_date d b)
  | Value.Time t => set_time t b
  | Value.DateTime d t => set_time t (set_date d b)
  | Value.DateTimeTz d t off => set_off off (set_time t (set_date d b))
  end.

(** With what [rtc::now] answered. *)
Definition fill_now (now : option Rtc.Rtc.t) (b : t) : bool * t :=
  match now with
  | None => (false, b)
  | Some n =>
      (true,
       set PartId.OffMin (num2 0) false
       (set PartId.OffHour (num2 0) false
       (set PartId.OffSign [] false
       (set PartId.Frac [] false
       (set PartId.Second (num2 (Rtc.Rtc.second n)) false
       (set PartId.Minute (num2 (Rtc.Rtc.minute n)) false
       (set PartId.Hour (num2 (Rtc.Rtc.hour n)) false
       (set PartId.Day (num2 (Rtc.Rtc.day n)) false
       (set PartId.Month (num2 (Rtc.Rtc.month n)) false
       (set PartId.Year (fmt_u64 (Rtc.Rtc.year n)) false b))))))))))
  end.

Definition fill_next (b : t) : bool * t :=
  match next_value b with
  | None => (false, b)
  | Some text =>
      let '(neg, int, _) := split_number text in
      (true, set PartId.IntDigits int false (set PartId.Sign [] neg b))
  end.

Definition neg_of (b : t) (id : PartId.t) : bool :=
  match get b id with Some f => PartField.neg f | None => false end.
Definition buf_of (b : t) (id : PartId.t) : bytes :=
  match get b id with Some f => PartField.buf f | None => [] end.

Definition minus (neg : bool) : bytes := if neg then [45] else [].
Definition dotted (frac : bytes) : bytes := match frac with [] => [] | _ => 46 :: frac end.
Definition p2 (b : t) (id : PartId.t) : bytes := pad2 (buf_of b id).
Definition compose_date (b : t) : bytes :=
  minus (neg_of b PartId.Year) ++ buf_of b PartId.Year ++ [45] ++ p2 b PartId.Month ++ [45] ++ p2 b PartId.Day.
Definition compose_time (b : t) : bytes :=
  p2 b PartId.Hour ++ [58] ++ p2 b PartId.Minute ++ [58] ++ p2 b PartId.Second ++ dotted (buf_of b PartId.Frac).
Definition compose_off (b : t) : bytes :=
  (if neg_of b PartId.OffSign then [45] else [43]) ++ p2 b PartId.OffHour ++ [58] ++ p2 b PartId.OffMin.
Definition compose_int (b : t) : bytes := minus (neg_of b PartId.Sign) ++ buf_of b PartId.IntDigits.

Definition compose (b : t) : bytes :=
  match ty b with
  | Ty.Integer => compose_int b
  | Ty.UnsignedInteger => buf_of b PartId.IntDigits
  | Ty.Decimal => compose_int b ++ dotted (buf_of b PartId.DecFrac)
  | Ty.String => buf_of b PartId.TextPart
  | Ty.Date => compose_date b
  | Ty.DateTz => compose_date b ++ compose_off b
  | Ty.Time => compose_time b
  | Ty.DateTime => compose_date b ++ [84] ++ compose_time b
  | Ty.DateTimeTz => compose_date b ++ [84] ++ compose_time b ++ compose_off b
  end.

(** ** Keys

    What a key asks of the screen; the rest happens in the builder. *)

Inductive want := Stay | Cancel | Commit | Now | Next.

Definition on_part (f : PartField.t -> outcome unit PartField.t) (b : t) : outcome unit (t * want) :=
  x ← or_panic (nth_z (fields b) (focus b));
  x' ← f x;
  Val (with_fields (<[Z.to_nat (focus b) := x']> (fields b)) b, Stay).

Definition edit_part (f : bytes -> Z -> outcome unit (bytes * Z)) (x : PartField.t) : outcome unit PartField.t :=
  '(buf, c) ← f (PartField.buf x) (PartField.caret x);
  Val (PartField.with_buf buf c x).

Definition flip_or (f : bytes -> Z -> outcome unit (bytes * Z)) (x : PartField.t) : outcome unit PartField.t :=
  if PartId.is_sign (PartField.id x)
  then Val (PartField.with_neg (negb (PartField.neg x)) x)
  else edit_part f x.

Definition type_char (c : Z) (x : PartField.t) : outcome unit PartField.t :=
  let insert := edit_part (fun t i => Text.ce_insert t i c) x in
  if PartId.is_sign (PartField.id x) then
    Val (if c =? 43 then PartField.with_neg false x
         else if c =? 45 then PartField.with_neg true x else x)
  else if bool_decide (PartField.id x = PartId.Year) && ((c =? 45) || (c =? 43)) then
    Val (PartField.with_neg (c =? 45) x)
  else if PartId.is_text (PartField.id x) then insert
  else if is_ascii_digit c && (count (PartField.buf x) <? PartId.max_digits (PartField.id x)) then insert
  else Val x.

Definition on_key (k : Ps2.Key) (b : t) : outcome unit (t * want) :=
  let on_field := focus b <? nf b in
  let at_field f := if on_field then on_part f b else Val (b, Stay) in
  match k with
  | Ps2.Esc => Val (b, Cancel)
  | Ps2.Tab | Ps2.Down => Val (with_focus ((focus b + 1) mod total b) b, Stay)
  | Ps2.Up => Val (with_focus ((focus b + total b - 1) mod total b) b, Stay)
  | Ps2.Left => at_field (flip_or (fun t i => Val (t, Text.ce_left t i)))
  | Ps2.Right => at_field (flip_or (fun t i => c ← Text.ce_right t i; Val (t, c)))
  | Ps2.Home => at_field (edit_part (fun t _ => Val (t, 0)))
  | Ps2.End_ => at_field (edit_part (fun t _ => Val (t, count t)))
  | Ps2.Backspace => at_field (edit_part Text.ce_backspace)
  | Ps2.Delete => at_field (edit_part Text.ce_delete)
  | Ps2.Char c =>
      if ((c =? 110) || (c =? 78)) && has_now b then Val (b, Now)
      else if ((c =? 110) || (c =? 78)) && has_next b then Val (b, Next)
      else at_field (type_char c)
  | Ps2.Enter =>
      if bool_decide (Some (focus b) = now_index b) then Val (b, Now)
      else if bool_decide (Some (focus b) = next_index b) then Val (b, Next)
      else if focus b =? cancel_index b then Val (b, Cancel)
      else Val (b, Commit)
  | _ => Val (b, Stay)
  end.

End FieldBuilder.
