(* ===== verification/BuilderFacts.v ===== *)
(** * Facts on the value builder

    The parts of a builder have the shape of its type whatever is loaded or
    typed; what is loaded composes to a text of the same value. *)

From S2P Require Import Prelude Types Bignum Value ValueFacts Ps2 UiText UiTextFacts Builder.
From S2P Require Rtc RtcFacts.
Import FieldBuilder.

(** ** Two-digit fields *)

Lemma num2_push2 v : 0 <= v <= 99 -> num2 v = push2 v.
Proof.
  intros H. pose proof (RtcFacts.below_forall 100 (fun v => str_eqb (num2 v) (push2 v)) ltac:(by vm_compute) v ltac:(lia)) as E.
  by apply str_eqb_eq.
Qed.

Lemma pad2_push2 v : pad2 (push2 v) = push2 v.
Proof. done. Qed.

(** ** Parts *)

Definition ids (b : t) : list PartId.t := PartField.id <$> fields b.
(** The parts are those of the type. *)
Definition shaped (b : t) : Prop := ids b = PartField.id <$> parts_of (ty b).

Lemma update_first_ids id g l : (forall f, PartField.id (g f) = PartField.id f) ->
  PartField.id <$> update_first (is_part id) g l = PartField.id <$> l.
Proof.
  intros Hg. induction l as [|x l IH]; [done|]. cbn [update_first].
  destruct (is_part id x); cbn; [by rewrite Hg|by rewrite IH].
Qed.

Lemma ids_set id buf neg b : ids (set id buf neg b) = ids b.
Proof. by apply update_first_ids. Qed.

Lemma ty_set id buf neg b : ty (set id buf neg b) = ty b.
Proof. done. Qed.

Lemma find_update id id' g l : (forall f, PartField.id (g f) = PartField.id f) ->
  List.find (is_part id') (update_first (is_part id) g l) =
    if decide (id = id') then g <$> List.find (is_part id') l else List.find (is_part id') l.
Proof.
  intros Hg. induction l as [|x l IH]; [by destruct (decide _)|]. cbn [update_first].
  destruct (is_part id x) eqn:E; cbn [List.find].
  - unfold is_part in *. rewrite Hg. apply bool_decide_eq_true in E.
    destruct (decide (id = id')) as [<-|Hne]; [by rewrite bool_decide_eq_true_2|].
    by rewrite bool_decide_eq_false_2 by congruence.
  - rewrite IH. destruct (decide (id = id')) as [<-|Hne]; [by rewrite E|]. by destruct (is_part id' x).
Qed.

Lemma get_has b id : id ∈ ids b -> exists f, get b id = Some f /\ PartField.id f = id.
Proof.
  unfold get, ids. induction (fields b) as [|x l IH]; cbn [fmap list_fmap]; [by intros ?%elem_of_nil|].
  intros [->|H]%elem_of_cons; cbn [List.find]; unfold is_part at 1.
  - rewrite bool_decide_eq_true_2 by done. by exists x.
  - case_bool_decide; [by exists x|by apply IH].
Qed.

Lemma buf_set_eq id buf neg b : id ∈ ids b -> buf_of (set id buf neg b) id = buf.
Proof.
  intros (f & E & _)%get_has. unfold buf_of, get, set in *. cbn [fields with_fields].
  rewrite find_update by done. rewrite decide_True by done. by rewrite E.
Qed.
Lemma buf_set_ne id id' buf neg b : id <> id' -> buf_of (set id buf neg b) id' = buf_of b id'.
Proof.
  intros H. unfold buf_of, get, set. cbn [fields with_fields]. rewrite find_update by done. by rewrite decide_False.
Qed.
Lemma neg_set_eq id buf neg b : id ∈ ids b -> neg_of (set id buf neg b) id = neg.
Proof.
  intros (f & E & _)%get_has. unfold neg_of, get, set in *. cbn [fields with_fields].
  rewrite find_update by done. rewrite decide_True by done. by rewrite E.
Qed.
Lemma neg_set_ne id id' buf neg b : id <> id' -> neg_of (set id buf neg b) id' = neg_of b id'.
Proof.
  intros H. unfold neg_of, get, set. cbn [fields with_fields]. rewrite find_update by done. by rewrite decide_False.
Qed.

(** Parts are looked up in a shaped builder of a known type. *)
Lemma shaped_has b t id : shaped b -> ty b = t ->
  bool_decide (id ∈ (PartField.id <$> parts_of t)) = true -> id ∈ ids b.
Proof. intros H <- Hd%bool_decide_eq_true. by rewrite H. Qed.

Ltac has_part := rewrite ?ids_set; eapply shaped_has; [eassumption|eassumption|reflexivity].
Ltac parts_by has := repeat match goal with
  | |- context [buf_of (set ?i ?x ?n ?b) ?i] => rewrite (buf_set_eq i x n b) by has
  | |- context [buf_of (set ?i ?x ?n ?b) ?j] => rewrite (buf_set_ne i j x n b) by discriminate
  | |- context [neg_of (set ?i ?x ?n ?b) ?i] => rewrite (neg_set_eq i x n b) by has
  | |- context [neg_of (set ?i ?x ?n ?b) ?j] => rewrite (neg_set_ne i j x n b) by discriminate
  end.
Ltac parts := parts_by ltac:(has_part).

(** ** What is loaded composes to a text of it *)

Definition loaded_date (b : t) (d : Date.t) : Prop :=
  neg_of b PartId.Year = BigInt.is_negative (Date.year d) /\
  buf_of b PartId.Year = BigUint.to_dec_string (BigInt.magnitude (Date.year d)) /\
  buf_of b PartId.Month = num2 (Date.month d) /\ buf_of b PartId.Day = num2 (Date.day d).

Lemma compose_date_text b d : DateFacts.wf d -> loaded_date b d -> DateFacts.date_text d (compose_date b).
Proof.
  intros Hwf (Hn & Hy & Hm & Hd). pose proof (DateFacts.wf_ranges d Hwf) as [Hmo Hda].
  pose proof Hwf as ([Hmag _] & _). destruct (BigUintFacts.to_dec_string_digits _ Hmag) as (ds & E & Hds & Hne).
  exists ds. split_and!; [done..| |].
  - rewrite <- E. by apply BigUintFacts.biguint_parse_to_dec_string.
  - unfold compose_date, p2, minus. rewrite Hn, Hy, Hm, Hd, !num2_push2, !pad2_push2 by lia.
    unfold BigInt.magnitude. by rewrite E.
Qed.

Definition loaded_time (b : t) (t : TimeOfDay.t) : Prop :=
  let secs := TimeOfDay.secs t in
  buf_of b PartId.Hour = num2 (as_u8 (secs / 3600)) /\
  buf_of b PartId.Minute = num2 (as_u8 ((secs mod 3600) / 60)) /\
  buf_of b PartId.Second = num2 (as_u8 (secs mod 60)) /\
  buf_of b PartId.Frac = show_digits (TimeOfDay.frac t).

Lemma compose_time_text b t : TimeFacts.wf t -> loaded_time b t -> compose_time b = TimeOfDay.display t.
Proof.
  intros Hwf%TimeFacts.hms_ranges (Hh & Hm & Hs & Hf). unfold compose_time, p2, TimeOfDay.display, as_u8 in *.
  rewrite !Z.mod_small in Hh, Hm, Hs by lia. rewrite Hh, Hm, Hs, Hf, !num2_push2, !pad2_push2 by lia.
  rewrite (Z.mod_small (TimeOfDay.secs t / 3600)), (Z.mod_small (TimeOfDay.secs t mod 3600 / 60)),
    (Z.mod_small (TimeOfDay.secs t mod 60)) by lia.
  by destruct (TimeOfDay.frac t).
Qed.

Definition loaded_off (b : t) (off : Z) : Prop :=
  neg_of b PartId.OffSign = (off <? 0) /\ buf_of b PartId.OffHour = num2 (as_u8 (Z.abs off / 60)) /\
  buf_of b PartId.OffMin = num2 (as_u8 (Z.abs off mod 60)).

Lemma compose_off_text b off : offset_wf off -> loaded_off b off -> compose_off b = display_offset off.
Proof.
  intros Hwf (Hs & Hh & Hm). rewrite display_offset_eq by done. unfold offset_wf in Hwf.
  unfold compose_off, p2, as_u8 in *. rewrite !Z.mod_small in * by lia.
  rewrite Hs, Hh, Hm, !num2_push2, !pad2_push2 by lia. by destruct (off <? 0).
Qed.

Lemma split_number_text neg ds fs : is_digits ds -> ds <> [] ->
  split_number (minus neg ++ show_digits ds ++ dotted (show_digits fs)) = (neg, show_digits ds, show_digits fs).
Proof.
  intros Hds Hne. unfold split_number.
  assert (E : (match minus neg ++ show_digits ds ++ dotted (show_digits fs) with
     | 45 :: r => (true, r) | 43 :: r => (false, r)
     | _ => (false, minus neg ++ show_digits ds ++ dotted (show_digits fs)) end) =
     (neg, show_digits ds ++ dotted (show_digits fs))).
  { destruct neg; [done|]. destruct ds as [|d ds]; [done|]. apply Forall_cons in Hds as [Hd _].
    unfold is_digit in Hd. cbn [minus app]. rewrite show_digits_cons. cbn [app].
    destruct (48 + d) as [|p|p] eqn:Ep; [done| |done].
    destruct (decide (p = 45%positive)) as [->|H45]; [lia|]. destruct (decide (p = 43%positive)) as [->|H43]; [lia|].
    do 8 (destruct p as [p|p|]; try done). }
  rewrite E. assert (H46 : 46 ∉ show_digits ds) by by apply show_digits_not_elem; [|lia].
  destruct fs as [|f fs]; cbn [dotted show_digits fmap list_fmap].
  - by rewrite app_nil_r, split_once_none.
  - by rewrite split_once_app.
Qed.

Lemma load_from_ty v b : ty (load_from v b) = ty b.
Proof. unfold load_from. destruct v; try done; by destruct (split_number _) as [[? ?] ?]. Qed.

Lemma load_from_ids v b : ids (load_from v b) = ids b.
Proof.
  unfold load_from, set_date, set_time, set_off.
  destruct v; try (destruct (split_number _) as [[? ?] ?]); by rewrite ?ids_set.
Qed.

Ltac loaded := unfold loaded_date, loaded_time, loaded_off; cbn zeta; split_and!; unfold set_date, set_time, set_off; parts.

Lemma compose_load b v : shaped b -> ty b = Value.type_of v -> ValueFacts.wf v ->
  ValueFacts.value_text v (compose (load_from v b)).
Proof.
  intros Hs Ht Hwf. destruct v; cbn [Value.type_of ValueFacts.wf ValueFacts.value_text] in *.
  - destruct Hwf as [Hm _]. destruct (BigUintFacts.to_dec_string_digits _ Hm) as (ds & E & Hds & Hne).
    assert (Ed : Value.display (Value.Integer v) = minus (BigInt.negative v) ++ show_digits ds ++ dotted (show_digits [])).
    { cbn. unfold BigInt.to_dec_string. rewrite E, app_nil_r. by destruct (BigInt.negative v). }
    unfold compose. rewrite load_from_ty, Ht. unfold load_from. rewrite Ed, split_number_text by done.
    unfold compose_int.
    parts. cbn [dotted show_digits fmap list_fmap]. by rewrite app_nil_r.
  - destruct (BigUintFacts.to_dec_string_digits _ Hwf) as (ds & E & Hds & Hne).
    assert (Ed : Value.display (Value.Unsigned v) = minus false ++ show_digits ds ++ dotted (show_digits [])).
    { cbn. by rewrite E, app_nil_r. }
    unfold compose. rewrite load_from_ty, Ht. unfold load_from. rewrite Ed, split_number_text by done.
    parts. cbn [minus dotted show_digits fmap list_fmap app]. by rewrite app_nil_r.
  - destruct (DecimalFacts.decimal_display_eq v Hwf) as (ds & Hds & Hne & _ & E).
    assert (Ed : Value.display (Value.Decimal v) =
      minus (Decimal.negative v) ++ show_digits ds ++ dotted (show_digits (Decimal.frac v))).
    { cbn [Value.display]. rewrite E. by destruct (Decimal.frac v). }
    unfold compose. rewrite load_from_ty, Ht. unfold load_from. rewrite Ed, split_number_text by done.
    unfold compose_int. parts. by rewrite <- app_assoc.
  - unfold compose. rewrite load_from_ty, Ht. cbn [load_from]. by parts.
  - unfold compose. rewrite load_from_ty, Ht. cbn [load_from].
    apply compose_date_text; [done|]. by loaded.
  - destruct Hwf as [Hd Ho]. unfold compose. rewrite load_from_ty, Ht. cbn [load_from].
    exists (compose_date (set_off off (set_date d b))). split; [apply compose_date_text; [done|by loaded]|]. f_equal.
    apply compose_off_text; [done|]. by loaded.
  - unfold compose. rewrite load_from_ty, Ht. cbn [load_from].
    apply compose_time_text; [done|]. by loaded.
  - destruct Hwf as [Hd Hti]. unfold compose. rewrite load_from_ty, Ht. cbn [load_from].
    exists (compose_date (set_time t0 (set_date d b))). split; [apply compose_date_text; [done|by loaded]|]. do 2 f_equal.
    apply compose_time_text; [done|]. by loaded.
  - destruct Hwf as (Hd & Hti & Ho). unfold compose. rewrite load_from_ty, Ht. cbn [load_from].
    exists (compose_date (set_off off (set_time t0 (set_date d b)))). split; [apply compose_date_text; [done|by loaded]|]. do 2 f_equal. f_equal.
    + apply compose_time_text; [done|]. by loaded.
    + apply compose_off_text; [done|]. by loaded.
Qed.

Lemma new_shaped i n t : shaped (new i n t).
Proof. done. Qed.

Lemma load_from_shaped v b : shaped b -> shaped (load_from v b).
Proof. unfold shaped. by rewrite load_from_ids, load_from_ty. Qed.

(** ** Filling in the present, or the next key *)

(** A clock that shows a moment of the calendar. *)
Record sane (y : BigUint.t) (c : Rtc.Rtc.t) : Prop := {
  sn_year : BigUintFacts.wf y /\ BigUintFacts.value y = Rtc.Rtc.year c /\ Rtc.Rtc.year c < 2 ^ 64;
  sn_date : DateFacts.wf (Date.mk (BigInt.from_parts false y) (Rtc.Rtc.month c) (Rtc.Rtc.day c));
  sn_hour : 0 <= Rtc.Rtc.hour c < 24;
  sn_minute : 0 <= Rtc.Rtc.minute c < 60;
  sn_second : 0 <= Rtc.Rtc.second c < 60
}.

Definition clock_date (y : BigUint.t) (c : Rtc.Rtc.t) : Date.t :=
  Date.mk (BigInt.from_parts false y) (Rtc.Rtc.month c) (Rtc.Rtc.day c).
Definition clock_time (c : Rtc.Rtc.t) : TimeOfDay.t :=
  TimeOfDay.mk (Rtc.Rtc.hour c * 3600 + Rtc.Rtc.minute c * 60 + Rtc.Rtc.second c) [].
(** The value of a type that the clock shows. *)
Definition clock_value (t : Ty.t) (y : BigUint.t) (c : Rtc.Rtc.t) : option Value.t :=
  match t with
  | Ty.Date => Some (Value.Date (clock_date y c))
  | Ty.DateTz => Some (Value.DateTz (clock_date y c) 0)
  | Ty.Time => Some (Value.Time (clock_time c))
  | Ty.DateTime => Some (Value.DateTime (clock_date y c) (clock_time c))
  | Ty.DateTimeTz => Some (Value.DateTimeTz (clock_date y c) (clock_time c) 0)
  | _ => None
  end.

Lemma clock_value_wf t y c v : sane y c -> clock_value t y c = Some v ->
  ValueFacts.wf v /\ Value.type_of v = t.
Proof.
  intros [_ Hd Hh Hm Hs] E.
  assert (Ht : TimeFacts.wf (clock_time c)).
  { split; [cbn; lia|]. split; [constructor|done]. }
  assert (Ho : offset_wf 0) by (unfold offset_wf; lia).
  destruct t; cbn in E; try discriminate; injection E as <-; by split_and!.
Qed.

Lemma biguint_parse_fmt y n : BigUintFacts.wf y -> BigUintFacts.value y = n -> 0 <= n < 2 ^ 64 ->
  exists ds, fmt_u64 n = show_digits ds /\ is_digits ds /\ ds <> [] /\ BigUint.parse (show_digits ds) = Some y.
Proof.
  intros Hy Hv Hn. destruct (fmt_u64_digits n Hn) as (ds & E & Hds & Hne & Hd). exists ds. split_and!; [done..|].
  rewrite BigUintFacts.parse_show by done. f_equal. apply BigUintFacts.biguint_value_inj; [by apply BigUintFacts.normalize_wf|done|].
  by rewrite BigUintFacts.normalize_value, Hd.
Qed.

Lemma compose_now b y c : shaped b -> has_now b = true -> sane y c ->
  exists v, clock_value (ty b) y c = Some v /\ (fill_now (Some c) b).1 = true /\
    ValueFacts.value_text v (compose (fill_now (Some c) b).2).
Proof.
  intros Hs Hn Hc. pose proof Hc as [(Hy & Hv & Hlt) Hd Hh Hm Hsec]. set (b' := (fill_now (Some c) b).2).
  pose proof (DateFacts.wf_ranges _ Hd) as [Hmo Hda]. cbn [Date.month Date.day] in Hmo, Hda.
  destruct (biguint_parse_fmt y (Rtc.Rtc.year c) Hy Hv) as (ds & E & Hds & Hne & Hp).
  { pose proof (BigUintFacts.value_nonneg y Hy). lia. }
  assert (Hty : ty b' = ty b) by done.
  assert (Hdate : PartId.Year ∈ ids b -> PartId.Month ∈ ids b -> PartId.Day ∈ ids b ->
    DateFacts.date_text (clock_date y c) (compose_date b')).
  { intros H1 H2 H3. exists ds. split_and!; [done..|]. unfold b', fill_now, compose_date, p2. cbn [snd].
    parts_by ltac:(by rewrite ?ids_set).
    rewrite E, !num2_push2, !pad2_push2 by lia. done. }
  assert (Htime : PartId.Hour ∈ ids b -> PartId.Minute ∈ ids b -> PartId.Second ∈ ids b -> PartId.Frac ∈ ids b ->
    compose_time b' = TimeOfDay.display (clock_time c)).
  { intros H1 H2 H3 H4. rewrite (compose_time_text b' (clock_time c)); [done|split; [cbn; lia|by split; [constructor|]]|].
    unfold loaded_time, clock_time, b', fill_now. cbn [TimeOfDay.secs TimeOfDay.frac snd]. cbn zeta.
    replace ((Rtc.Rtc.hour c * 3600 + Rtc.Rtc.minute c * 60 + Rtc.Rtc.second c) / 3600) with (Rtc.Rtc.hour c) by lia.
    replace ((Rtc.Rtc.hour c * 3600 + Rtc.Rtc.minute c * 60 + Rtc.Rtc.second c) mod 3600 / 60) with (Rtc.Rtc.minute c) by lia.
    replace ((Rtc.Rtc.hour c * 3600 + Rtc.Rtc.minute c * 60 + Rtc.Rtc.second c) mod 60) with (Rtc.Rtc.second c) by lia.
    unfold as_u8. rewrite !Z.mod_small by lia.
    parts_by ltac:(by rewrite ?ids_set). by split_and!. }
  assert (Hoff : PartId.OffSign ∈ ids b -> PartId.OffHour ∈ ids b -> PartId.OffMin ∈ ids b ->
    compose_off b' = display_offset 0).
  { intros H1 H2 H3. rewrite (compose_off_text b' 0); [done|unfold offset_wf; lia|].
    unfold loaded_off, b', fill_now. cbn [snd].
    parts_by ltac:(by rewrite ?ids_set). by split_and!. }
  unfold compose. rewrite Hty. unfold has_now in Hn.
  destruct (ty b) eqn:Et; try discriminate Hn; eexists; (split; [reflexivity|]; split; [done|]); cbn [ValueFacts.value_text].
  - apply Hdate; has_part.
  - exists (compose_date b'). split; [apply Hdate; has_part|]. f_equal. apply Hoff; has_part.
  - apply Htime; has_part.
  - exists (compose_date b'). split; [apply Hdate; has_part|]. do 2 f_equal. apply Htime; has_part.
  - exists (compose_date b'). split; [apply Hdate; has_part|]. do 2 f_equal. f_equal; [apply Htime|apply Hoff]; has_part.
Qed.

(** A key of the numeric types. *)
Definition is_key (v : Value.t) : Prop :=
  match v with Value.Integer _ | Value.Unsigned _ => True | _ => False end.

Lemma key_text v : is_key v -> ValueFacts.wf v -> exists neg ds, is_digits ds /\ ds <> [] /\
  Value.display v = minus neg ++ show_digits ds /\ (Value.type_of v = Ty.UnsignedInteger -> neg = false).
Proof.
  intros Hk Hwf. destruct v; try done; cbn in Hwf.
  - destruct Hwf as [Hm _]. destruct (BigUintFacts.to_dec_string_digits _ Hm) as (ds & E & Hds & Hne).
    exists (BigInt.negative v), ds. split_and!; [done..| |done]. cbn. unfold BigInt.to_dec_string. by rewrite E.
  - destruct (BigUintFacts.to_dec_string_digits _ Hwf) as (ds & E & Hds & Hne). by exists false, ds.
Qed.

Lemma compose_next b v : shaped b -> ty b = Value.type_of v -> is_key v -> ValueFacts.wf v ->
  next_value b = Some (Value.display v) ->
  (fill_next b).1 = true /\ compose (fill_next b).2 = Value.display v.
Proof.
  intros Hs Ht Hk Hwf Hn. unfold fill_next. rewrite Hn.
  destruct (key_text v Hk Hwf) as (neg & ds & Hds & Hne & E & Hneg).
  pose proof (split_number_text neg ds [] Hds Hne) as Esp. cbn [show_digits fmap list_fmap dotted] in Esp.
  rewrite app_nil_r in Esp. rewrite E, Esp. split; [done|]. cbn [snd]. unfold compose. rewrite !ty_set, Ht.
  destruct v; try done; cbn [Value.type_of] in *.
  - unfold compose_int. by parts.
  - parts. by rewrite Hneg.
Qed.

(** ** What every key keeps *)

(** A part holds what its kind allows, the caret within it. *)
Definition part_ok (f : PartField.t) : Prop :=
  caret_ok (PartField.buf f, PartField.caret f) /\
  (PartId.is_text (PartField.id f) = false -> all_ascii (PartField.buf f)).

Record builder_ok (b : t) : Prop := {
  bo_shape : shaped b;
  bo_parts : Forall part_ok (fields b);
  bo_focus : 0 <= focus b;
  bo_next n : next_value b = Some n -> exists v, is_key v /\ ValueFacts.wf v /\ Value.type_of v = ty b /\ n = Value.display v
}.

(** Rust strings are shorter than [isize::MAX]. *)
Definition short (s : bytes) : Prop := count s < 2 ^ 63.
Definition builder_short (b : t) : Prop := Forall (fun f => short (PartField.buf f)) (fields b).

(** The keys carry Unicode characters. *)
Definition key_ok (k : Ps2.Key) : Prop := match k with Ps2.Char c => scalar c | _ => True end.

Lemma caret_end s : utf8_valid s = true -> caret_ok (s, count s).
Proof. intros H. split; [done|]. unfold count. cbn. lia. Qed.

Lemma set_ok id buf neg b : utf8_valid buf = true -> (PartId.is_text id = false -> all_ascii buf) ->
  builder_ok b -> builder_ok (set id buf neg b).
Proof.
  intros Hv Ha [Hs Hp Hf Hn]. split; [|cbn|done|done].
  - unfold shaped. by rewrite ids_set.
  - clear Hs Hf Hn. revert Hp. induction (fields b) as [|x l IH]; intros Hp; [constructor|].
    apply Forall_cons in Hp as [Hx Hl]. cbn [update_first]. unfold is_part at 1. case_bool_decide as E; [|constructor; auto].
    constructor; [|done]. split; cbn [PartField.buf PartField.caret PartField.id]; [by apply caret_end|by rewrite E].
Qed.

Lemma set_ascii_ok id buf neg b : all_ascii buf -> builder_ok b -> builder_ok (set id buf neg b).
Proof. intros H. apply set_ok; [by apply utf8_valid_ascii|done]. Qed.

Lemma replicate_ascii n : all_ascii (replicate n 48).
Proof. apply Forall_replicate. lia. Qed.

Lemma fmt_u64_ascii n : 0 <= n < 2 ^ 64 -> all_ascii (fmt_u64 n).
Proof. intros (ds & -> & H & _)%fmt_u64_digits. by apply show_digits_ascii. Qed.

Lemma num2_ascii n : 0 <= n < 2 ^ 64 -> all_ascii (num2 n).
Proof. intros H. unfold num2. apply all_ascii_app; [apply replicate_ascii|by apply fmt_u64_ascii]. Qed.
#[local] Hint Resolve num2_ascii fmt_u64_ascii : tos.

Lemma as_u8_small x : 0 <= as_u8 x < 2 ^ 64.
Proof. unfold as_u8. lia. Qed.
#[local] Hint Resolve as_u8_small : tos.

Lemma set_date_ok d b : DateFacts.wf d -> builder_ok b -> builder_ok (set_date d b).
Proof.
  intros Hwf H. pose proof (DateFacts.wf_ranges d Hwf) as [Hmo Hda]. pose proof Hwf as ([Hm _] & _).
  destruct (BigUintFacts.to_dec_string_digits _ Hm) as (ds & E & Hds & _).
  unfold set_date. do 2 (apply set_ascii_ok; [apply num2_ascii; lia|]). apply set_ascii_ok; [|done].
  unfold BigInt.magnitude. rewrite E. by apply show_digits_ascii.
Qed.

Lemma set_time_ok t b : TimeFacts.wf t -> builder_ok b -> builder_ok (set_time t b).
Proof.
  intros [_ [Hf _]] H. unfold set_time. cbn zeta.
  apply set_ascii_ok; [by apply show_digits_ascii|].
  do 3 (apply set_ascii_ok; [apply num2_ascii, as_u8_small|]). done.
Qed.

Lemma set_off_ok off b : builder_ok b -> builder_ok (set_off off b).
Proof.
  intros H. unfold set_off. do 2 (apply set_ascii_ok; [apply num2_ascii, as_u8_small|]).
  by apply set_ascii_ok; [constructor|].
Qed.

Lemma split_number_ascii s : all_ascii s ->
  let '(_, i, f) := split_number s in all_ascii i /\ all_ascii f.
Proof.
  intros H. unfold split_number.
  destruct (match s with 45 :: r => (true, r) | 43 :: r => (false, r) | _ => (false, s) end) as [neg rest] eqn:E.
  assert (Hr : all_ascii rest).
  { destruct s as [|x s']; [by injection E as _ <-|]. pose proof (Forall_inv_tail H) as Ht.
    destruct x as [|p|p]; [by injection E as _ <-| |by injection E as _ <-].
    do 8 (destruct p as [p|p|]; try (by injection E as _ <-)). }
  destruct (split_once 46 rest) as [[i f]|] eqn:Es; [|by split; [|constructor]].
  apply split_once_some in Es as [-> _]. apply Forall_app in Hr as [? Hr]. by apply Forall_inv_tail in Hr.
Qed.

(** The text of a number. *)
Lemma numeric_text v : ValueFacts.wf v ->
  match v with Value.Integer _ | Value.Unsigned _ | Value.Decimal _ => True | _ => False end ->
  exists neg ds fs, is_digits ds /\ ds <> [] /\ is_digits fs /\
    Value.display v = minus neg ++ show_digits ds ++ dotted (show_digits fs).
Proof.
  intros Hwf Hk. destruct v as [v|v|v| | | | | |]; try done.
  - destruct (key_text (Value.Integer v) I Hwf) as (neg & ds & ? & ? & E & _). exists neg, ds, []. cbn [dotted show_digits fmap list_fmap].
    rewrite app_nil_r. by split_and!.
  - destruct (key_text (Value.Unsigned v) I Hwf) as (neg & ds & ? & ? & E & _). exists neg, ds, []. cbn [dotted show_digits fmap list_fmap].
    rewrite app_nil_r. by split_and!.
  - destruct (DecimalFacts.decimal_display_eq v Hwf) as (ds & Hds & Hne & _ & E). destruct Hwf as (_ & [Hf _] & _).
  exists (Decimal.negative v), ds, (Decimal.frac v). split_and!; [done..|]. cbn [Value.display]. rewrite E. by destruct (Decimal.frac v).
Qed.

Lemma load_from_ok v b : ValueFacts.wf v -> builder_ok b -> builder_ok (load_from v b).
Proof.
  intros Hwf H.
  assert (Hnum : match v with Value.Integer _ | Value.Unsigned _ | Value.Decimal _ => True | _ => False end ->
    builder_ok (let '(neg, int, frac) := split_number (Value.display v) in
      set PartId.DecFrac frac false (set PartId.IntDigits int false (set PartId.Sign [] neg b)))).
  { intros Hk. destruct (numeric_text v Hwf Hk) as (neg & ds & fs & Hds & Hne & Hfs & ->).
    rewrite split_number_text by done.
    do 3 (apply set_ascii_ok; [first [by apply show_digits_ascii|by constructor]|]). done. }
  destruct v; cbn [load_from]; cbn [ValueFacts.wf] in Hwf; try (by apply Hnum); destruct_and? Hwf.
  - by apply set_ok.
  - by apply set_date_ok.
  - by apply set_off_ok, set_date_ok.
  - by apply set_time_ok.
  - by apply set_time_ok, set_date_ok.
  - by apply set_off_ok, set_time_ok, set_date_ok.
Qed.

Lemma builder_new_ok i n t : builder_ok (new i n t).
Proof.
  assert (Hp : forall id l, part_ok (part id l)).
  { intros id l. split; [split; [done|]|constructor]. unfold count. cbn. lia. }
  split; [done| |done|done]. destruct t; cbn [new fields parts_of date_parts time_parts off_parts app];
    repeat (apply Forall_cons; split; [apply Hp|]); constructor.
Qed.

Lemma fill_now_ok now b : (forall c, now = Some c -> RtcFacts.clock_bytes c) -> builder_ok b -> builder_ok (fill_now now b).2.
Proof.
  intros Hc H. destruct now as [c|]; [|done]. destruct (Hc c eq_refl) as (Hy & Hmo & Hd & Hh & Hmi & Hs).
  unfold fill_now, is_byte in *. cbn [snd].
  repeat (apply set_ascii_ok; [first [by constructor|apply num2_ascii; lia|apply fmt_u64_ascii; lia]|]). done.
Qed.

Lemma fill_next_ok b : builder_ok b -> builder_ok (fill_next b).2.
Proof.
  intros H. unfold fill_next. destruct (next_value b) as [n|] eqn:En; [|done].
  destruct (bo_next _ H n En) as (v & Hk & Hwf & _ & ->).
  destruct (key_text v Hk Hwf) as (neg & ds & Hds & Hne & E & _).
  pose proof (split_number_text neg ds [] Hds Hne) as Esp. cbn [show_digits fmap list_fmap dotted] in Esp.
  rewrite app_nil_r in Esp. rewrite E, Esp. cbn [snd].
  do 2 (apply set_ascii_ok; [first [by apply show_digits_ascii|by constructor]|]). done.
Qed.

(** *** Keys *)

Lemma on_part_ok f b : builder_ok b -> focus b < nf b ->
  (forall x, x ∈ fields b -> part_ok x -> exists x', f x = Val x' /\ part_ok x' /\ PartField.id x' = PartField.id x) ->
  exists b', on_part f b = Val (b', Stay) /\ builder_ok b' /\ ty b' = ty b /\ next_value b' = next_value b /\ field b' = field b.
Proof.
  intros Hb Hlt Hf. unfold on_part, nf in *. pose proof (bo_focus b Hb) as H0.
  destruct (lookup_lt_is_Some_2 (fields b) (Z.to_nat (focus b))) as [x Hx]; [lia|].
  unfold nth_z. rewrite Hx. cbn [or_panic mbind outcome_bind].
  pose proof (bo_parts b Hb) as Hp. rewrite Forall_forall in Hp.
  destruct (Hf x (list_elem_of_lookup_2 _ _ _ Hx)) as (x' & E & Hx' & Hid); [by eapply Hp, list_elem_of_lookup_2|].
  rewrite E. cbn [mbind outcome_bind]. eexists. split; [done|]. split_and!; [|done..].
  destruct Hb as [Hs _ Hfo Hn]. split; [|cbn|done|done].
  - unfold shaped, ids in *. cbn [fields ty with_fields]. rewrite <- Hs, list_fmap_insert, Hid.
    apply list_insert_id. by rewrite list_lookup_fmap, Hx.
  - apply Forall_insert; [|done]. by apply Forall_forall.
Qed.

Lemma ascii_chars s : all_ascii s <-> Forall all_ascii (chars s).
Proof. rewrite <- (chars_concat s) at 1. apply Forall_pieces. Qed.

Lemma encode_ascii c : 0 <= c < 128 -> all_ascii (encode_utf8 c).
Proof. intros H. unfold encode_utf8. rewrite (proj2 (Z.ltb_lt _ _)) by lia. constructor; [lia|constructor]. Qed.

(** An edit that comes from the shared editor. *)
Lemma edit_part_ok f e x : part_ok x -> short (PartField.buf x) -> edit_ok e ->
  (forall c, e = EInsert c -> PartId.is_text (PartField.id x) = false -> 0 <= c < 128) ->
  f (PartField.buf x) (PartField.caret x) = do_edit e (PartField.buf x, PartField.caret x) ->
  exists x', edit_part f x = Val x' /\ part_ok x' /\ PartField.id x' = PartField.id x.
Proof.
  intros [Hc Ha] Hs He Hchar Ef. unfold edit_part. rewrite Ef.
  destruct (do_edit_ok (fun c => PartId.is_text (PartField.id x) = false -> all_ascii c) e _ He Hc) as ([t c] & -> & Hc' & _ & Hp).
  - cbn. unfold short in Hs. lia.
  - intros c -> Hid. apply encode_ascii. by eapply Hchar.
  - apply Forall_forall. intros c Hin Hid. specialize (Ha Hid). apply ascii_chars in Ha. rewrite Forall_forall in Ha. by apply Ha.
  - cbn [mbind outcome_bind]. eexists. split; [done|]. split; [|done]. split; [done|]. cbn [PartField.with_buf PartField.id PartField.buf].
    intros Hid. apply ascii_chars, Forall_forall. intros y Hy. rewrite Forall_forall in Hp. by apply (Hp y Hy).
Qed.

Lemma type_char_ok c x : part_ok x -> short (PartField.buf x) -> scalar c ->
  exists x', type_char c x = Val x' /\ part_ok x' /\ PartField.id x' = PartField.id x.
Proof.
  intros Hx Hs Hc. unfold type_char.
  assert (Hstay : exists x', Val x = Val (E:=unit) x' /\ part_ok x' /\ PartField.id x' = PartField.id x) by by exists x.
  assert (Hneg : forall n, exists x', Val (PartField.with_neg n x) = Val (E:=unit) x' /\ part_ok x' /\ PartField.id x' = PartField.id x).
  { intros n. by eexists. }
  destruct (PartId.is_sign (PartField.id x)).
  { destruct (c =? 43); [apply Hneg|]. destruct (c =? 45); [apply Hneg|done]. }
  destruct (bool_decide _ && _); [apply Hneg|].
  destruct (PartId.is_text (PartField.id x)) eqn:Et; [|destruct (is_ascii_digit c && _) eqn:Ed; [|done]].
  - apply (edit_part_ok _ (EInsert c)); [done..|congruence|done].
  - apply (edit_part_ok _ (EInsert c)); [done..| |done]. intros d [= <-] _.
    unfold is_ascii_digit in Ed. bools. lia.
Qed.

Lemma total_pos b : 0 < total b.
Proof. unfold total, cancel_index, ok_index, nf. destruct (has_now b), (has_next b); cbn; lia. Qed.

Lemma with_focus_ok i b : 0 <= i -> builder_ok b -> builder_ok (with_focus i b).
Proof. intros Hi [? ? ? ?]. by split. Qed.

Lemma with_error_ok e b : builder_ok b -> builder_ok (with_error e b).
Proof. by intros [? ? ? ?]. Qed.

(** No key aborts, and the builder keeps its shape. *)
Lemma on_key_ok k b : builder_ok b -> builder_short b -> key_ok k ->
  exists b' w, on_key k b = Val (b', w) /\ builder_ok b' /\ ty b' = ty b /\ field b' = field b /\
    (w = Next -> has_next b' = true).
Proof.
  intros Hb Hs Hk. unfold builder_short in Hs. rewrite Forall_forall in Hs.
  assert (Hstay : forall w, w <> Next -> exists b' w', Val (b, w) = Val (E:=unit) (b', w') /\ builder_ok b' /\
    ty b' = ty b /\ field b' = field b /\ (w' = Next -> has_next b' = true)) by by intros w Hw; exists b, w.
  assert (Hfocus : forall i, exists b' w', Val (with_focus (i mod total b) b, Stay) = Val (E:=unit) (b', w') /\ builder_ok b' /\
    ty b' = ty b /\ field b' = field b /\ (w' = Next -> has_next b' = true)).
  { intros i. eexists _, _. split; [done|]. split_and!; [|done..]. apply with_focus_ok; [|done].
    apply Z.mod_pos_bound, total_pos. }
  assert (Hat : forall f, (forall x, x ∈ fields b -> part_ok x -> exists x', f x = Val x' /\ part_ok x' /\ PartField.id x' = PartField.id x) ->
    exists b' w', (if focus b <? nf b then on_part f b else Val (b, Stay)) = Val (b', w') /\ builder_ok b' /\
      ty b' = ty b /\ field b' = field b /\ (w' = Next -> has_next b' = true)).
  { intros f Hf. destruct (Z.ltb_spec (focus b) (nf b)) as [Hlt|]; [|by apply Hstay].
    destruct (on_part_ok f b Hb Hlt Hf) as (b' & -> & ? & ? & ? & ?). by exists b', Stay. }
  assert (Hedit : forall f e, edit_ok e -> (forall c, e <> EInsert c) -> (forall t i, f t i = do_edit e (t, i)) ->
    forall x, x ∈ fields b -> part_ok x -> exists x', edit_part f x = Val x' /\ part_ok x' /\ PartField.id x' = PartField.id x).
  { intros f e He Hne Ef x Hx Hpx. apply (edit_part_ok f e); [done|by apply Hs|done| |by apply Ef]. intros c Hc. by destruct (Hne c). }
  assert (Hflip : forall f e, edit_ok e -> (forall c, e <> EInsert c) -> (forall t i, f t i = do_edit e (t, i)) ->
    forall x, x ∈ fields b -> part_ok x -> exists x', flip_or f x = Val x' /\ part_ok x' /\ PartField.id x' = PartField.id x).
  { intros f e He Hne Ef x Hx Hpx. unfold flip_or. destruct (PartId.is_sign _); [by eexists|]. by eapply Hedit. }
  destruct k; cbn [on_key]; try (by apply Hstay); try (by apply Hfocus).
  - destruct (_ && has_now b); [by apply Hstay|]. destruct (((c =? 110) || (c =? 78)) && has_next b) eqn:En.
    + exists b, Next. split_and!; try done. intros _. by apply andb_true_iff in En as [_ ?].
    + apply Hat. intros x Hx Hpx. apply type_char_ok; [done|by apply Hs|done].
  - destruct (bool_decide _); [by apply Hstay|]. case_bool_decide as En; [|destruct (focus b =? _); by apply Hstay].
    exists b, Next. split_and!; try done. intros _. unfold next_index in En. by destruct (has_next b).
  - apply Hat, (Hedit _ EBackspace); done.
  - apply Hat, (Hflip _ ELeft); done.
  - apply Hat, (Hflip _ ERight); done.
  - apply Hat, (Hedit _ EHome); done.
  - apply Hat, (Hedit _ EEnd); done.
  - apply Hat, (Hedit _ EDelete); done.
Qed.

(** The text a builder composes is UTF-8. *)
Lemma get_part b id f : get b id = Some f -> f ∈ fields b /\ PartField.id f = id.
Proof.
  intros H%List.find_some. destruct H as [Hin H]. split; [by apply list_elem_of_In|]. by apply bool_decide_eq_true in H.
Qed.

Lemma buf_ascii b id : builder_ok b -> PartId.is_text id = false -> all_ascii (buf_of b id).
Proof.
  intros [_ Hp _ _] Hid. unfold buf_of. destruct (get b id) as [f|] eqn:E; [|constructor].
  apply get_part in E as [Hin <-]. rewrite Forall_forall in Hp. by apply (Hp f Hin).
Qed.

Lemma buf_utf8 b id : builder_ok b -> utf8_valid (buf_of b id) = true.
Proof.
  intros [_ Hp _ _]. unfold buf_of. destruct (get b id) as [f|] eqn:E; [|done].
  apply get_part in E as [Hin _]. rewrite Forall_forall in Hp. by apply (Hp f Hin).
Qed.

Lemma pad2_ascii s : all_ascii s -> all_ascii (pad2 s).
Proof. intros H. destruct s as [|x [|y s]]; cbn; [repeat constructor; lia|constructor; [lia|done]|done]. Qed.

Lemma p2_ascii b id : builder_ok b -> PartId.is_text id = false -> all_ascii (p2 b id).
Proof. intros H Hid. by apply pad2_ascii, buf_ascii. Qed.

Lemma minus_ascii n : all_ascii (minus n).
Proof. destruct n; [|constructor]. constructor; [lia|constructor]. Qed.

Lemma dotted_ascii s : all_ascii s -> all_ascii (dotted s).
Proof. intros H. destruct s; [constructor|]. constructor; [lia|done]. Qed.

Lemma compose_valid b : builder_ok b -> utf8_valid (compose b) = true.
Proof.
  intros Hb.
  assert (Hs : forall c, 0 <= c < 128 -> all_ascii [c]) by (intros c Hc; constructor; [done|constructor]).
  assert (Hd : all_ascii (compose_date b)).
  { unfold compose_date. repeat (apply all_ascii_app || apply minus_ascii || (apply p2_ascii; [done|reflexivity])
      || (apply buf_ascii; [done|reflexivity]) || (apply Hs; lia)). }
  assert (Ht : all_ascii (compose_time b)).
  { unfold compose_time. repeat (apply all_ascii_app || apply dotted_ascii || (apply p2_ascii; [done|reflexivity])
      || (apply buf_ascii; [done|reflexivity]) || (apply Hs; lia)). }
  assert (Ho : all_ascii (compose_off b)).
  { unfold compose_off. repeat (apply all_ascii_app || (apply p2_ascii; [done|reflexivity]) || (apply Hs; lia)).
    destruct (neg_of b PartId.OffSign); apply Hs; lia. }
  assert (Hi : all_ascii (compose_int b)) by (apply all_ascii_app; [apply minus_ascii|by apply buf_ascii]).
  unfold compose. destruct (ty b) eqn:Et; try (by apply buf_utf8); apply utf8_valid_ascii.
  - done.
  - apply all_ascii_app; [done|by apply dotted_ascii, buf_ascii].
  - done.
  - by apply all_ascii_app.
  - done.
  - apply all_ascii_app; [done|]. apply all_ascii_app; [apply Hs; lia|done].
  - apply all_ascii_app; [done|]. apply all_ascii_app; [apply Hs; lia|by apply all_ascii_app].
Qed.
