(* ===== verification/Font.v ===== *)
(** * The two bitmap faces

    [kernel/src/font.rs]: 8x8 glyphs, a byte per row with bit 0 leftmost.  The
    body face is the table of printable ASCII and a few extras; the display
    face has capitals, digits and some punctuation of its own and falls back
    to the body face.  A [char] is its code point. *)

From S2P Require Import Prelude.

Module Font.

Definition GLYPH_W : Z := 8.
Definition GLYPH_H : Z := 8.

Inductive Font := Body | Display.
#[global] Instance Font_eq_dec : EqDecision Font.
Proof. solve_decision. Defined.

Definition NOTDEF : list Z := [126; 66; 66; 66; 66; 66; 126; 0].
Definition EM_DASH : list Z := [0; 0; 0; 0; 255; 0; 0; 0].
Definition ELLIPSIS : list Z := [0; 0; 0; 0; 0; 219; 219; 0].
Definition ARROW_L : list Z := [0; 4; 2; 253; 253; 2; 4; 0].
Definition ARROW_U : list Z := [24; 60; 126; 24; 24; 24; 24; 24].
Definition ARROW_R : list Z := [0; 32; 64; 191; 191; 64; 32; 0].
Definition ARROW_D : list Z := [24; 24; 24; 24; 24; 126; 60; 24].
Definition ARROW_RET : list Z := [4; 4; 36; 252; 32; 0; 0; 0].
Definition DISP_SLASH : list Z := [96; 48; 24; 12; 6; 3; 1; 0].
Definition DISP_PLUS : list Z := [0; 8; 8; 62; 8; 8; 0; 0].
Definition DISP_HYPHEN : list Z := [0; 0; 0; 62; 0; 0; 0; 0].
Definition DISP_EMDASH : list Z := [0; 0; 0; 127; 0; 0; 0; 0].
Definition DISP_COLON : list Z := [0; 12; 12; 0; 12; 12; 0; 0].
Definition DISP_DOT : list Z := [0; 0; 0; 0; 0; 12; 12; 0].
Definition DISP_COMMA : list Z := [0; 0; 0; 0; 0; 12; 12; 6].
Definition DISP_LBRACK : list Z := [60; 12; 12; 12; 12; 12; 60; 0].
Definition DISP_RBRACK : list Z := [30; 24; 24; 24; 24; 24; 30; 0].
Definition DISP_LPAREN : list Z := [24; 12; 12; 12; 12; 12; 24; 0].
Definition DISP_RPAREN : list Z := [12; 24; 24; 24; 24; 24; 12; 0].
Definition DISP_EQ : list Z := [0; 0; 62; 0; 62; 0; 0; 0].
Definition DISP_BANG : list Z := [12; 12; 12; 12; 12; 0; 12; 0].

Definition DISP_AZ : list (list Z) := [
  [62; 99; 99; 127; 99; 99; 99; 0];
  [63; 99; 99; 63; 99; 99; 63; 0];
  [62; 99; 3; 3; 3; 99; 62; 0];
  [31; 51; 99; 99; 99; 51; 31; 0];
  [127; 3; 3; 63; 3; 3; 127; 0];
  [127; 3; 3; 63; 3; 3; 3; 0];
  [62; 99; 3; 123; 99; 99; 62; 0];
  [99; 99; 99; 127; 99; 99; 99; 0];
  [127; 28; 28; 28; 28; 28; 127; 0];
  [60; 48; 48; 48; 51; 51; 30; 0];
  [99; 51; 27; 15; 27; 51; 99; 0];
  [3; 3; 3; 3; 3; 3; 127; 0];
  [99; 119; 127; 107; 99; 99; 99; 0];
  [99; 103; 111; 123; 115; 99; 99; 0];
  [62; 99; 99; 99; 99; 99; 62; 0];
  [63; 99; 99; 63; 3; 3; 3; 0];
  [62; 99; 99; 99; 59; 51; 94; 0];
  [63; 99; 99; 63; 27; 51; 99; 0];
  [62; 99; 3; 62; 96; 99; 62; 0];
  [127; 28; 28; 28; 28; 28; 28; 0];
  [99; 99; 99; 99; 99; 99; 62; 0];
  [99; 99; 99; 54; 54; 28; 8; 0];
  [99; 99; 99; 107; 127; 119; 99; 0];
  [99; 54; 28; 28; 28; 54; 99; 0];
  [99; 99; 54; 28; 28; 28; 28; 0];
  [127; 48; 24; 12; 6; 3; 127; 0]].

Definition DISP_09 : list (list Z) := [
  [62; 99; 115; 107; 103; 99; 62; 0];
  [12; 14; 12; 12; 12; 12; 30; 0];
  [62; 99; 48; 24; 12; 6; 127; 0];
  [62; 99; 48; 60; 48; 99; 62; 0];
  [56; 60; 54; 51; 127; 48; 48; 0];
  [127; 3; 63; 96; 96; 99; 62; 0];
  [62; 99; 3; 63; 99; 99; 62; 0];
  [127; 96; 48; 24; 12; 12; 12; 0];
  [62; 99; 99; 62; 99; 99; 62; 0];
  [62; 99; 99; 126; 96; 99; 62; 0]].

Definition BASIC : list (list Z) := [
  [0; 0; 0; 0; 0; 0; 0; 0];
  [24; 60; 60; 24; 24; 0; 24; 0];
  [54; 54; 0; 0; 0; 0; 0; 0];
  [54; 54; 127; 54; 127; 54; 54; 0];
  [12; 62; 3; 30; 48; 31; 12; 0];
  [0; 99; 51; 24; 12; 102; 99; 0];
  [28; 54; 28; 110; 59; 51; 110; 0];
  [6; 6; 3; 0; 0; 0; 0; 0];
  [24; 12; 6; 6; 6; 12; 24; 0];
  [6; 12; 24; 24; 24; 12; 6; 0];
  [0; 102; 60; 255; 60; 102; 0; 0];
  [0; 12; 12; 63; 12; 12; 0; 0];
  [0; 0; 0; 0; 0; 12; 12; 6];
  [0; 0; 0; 63; 0; 0; 0; 0];
  [0; 0; 0; 0; 0; 12; 12; 0];
  [96; 48; 24; 12; 6; 3; 1; 0];
  [62; 99; 115; 123; 111; 103; 62; 0];
  [12; 14; 12; 12; 12; 12; 63; 0];
  [30; 51; 48; 28; 6; 51; 63; 0];
  [30; 51; 48; 28; 48; 51; 30; 0];
  [56; 60; 54; 51; 127; 48; 120; 0];
  [63; 3; 31; 48; 48; 51; 30; 0];
  [28; 6; 3; 31; 51; 51; 30; 0];
  [63; 51; 48; 24; 12; 12; 12; 0];
  [30; 51; 51; 30; 51; 51; 30; 0];
  [30; 51; 51; 62; 48; 24; 14; 0];
  [0; 12; 12; 0; 0; 12; 12; 0];
  [0; 12; 12; 0; 0; 12; 12; 6];
  [24; 12; 6; 3; 6; 12; 24; 0];
  [0; 0; 63; 0; 0; 63; 0; 0];
  [6; 12; 24; 48; 24; 12; 6; 0];
  [30; 51; 48; 24; 12; 0; 12; 0];
  [62; 99; 123; 123; 123; 3; 30; 0];
  [12; 30; 51; 51; 63; 51; 51; 0];
  [63; 102; 102; 62; 102; 102; 63; 0];
  [60; 102; 3; 3; 3; 102; 60; 0];
  [31; 54; 102; 102; 102; 54; 31; 0];
  [127; 70; 22; 30; 22; 70; 127; 0];
  [127; 70; 22; 30; 22; 6; 15; 0];
  [60; 102; 3; 3; 115; 102; 124; 0];
  [51; 51; 51; 63; 51; 51; 51; 0];
  [30; 12; 12; 12; 12; 12; 30; 0];
  [120; 48; 48; 48; 51; 51; 30; 0];
  [103; 102; 54; 30; 54; 102; 103; 0];
  [15; 6; 6; 6; 70; 102; 127; 0];
  [99; 119; 127; 127; 107; 99; 99; 0];
  [99; 103; 111; 123; 115; 99; 99; 0];
  [28; 54; 99; 99; 99; 54; 28; 0];
  [63; 102; 102; 62; 6; 6; 15; 0];
  [30; 51; 51; 51; 59; 30; 56; 0];
  [63; 102; 102; 62; 54; 102; 103; 0];
  [30; 51; 7; 14; 56; 51; 30; 0];
  [63; 45; 12; 12; 12; 12; 30; 0];
  [51; 51; 51; 51; 51; 51; 63; 0];
  [51; 51; 51; 51; 51; 30; 12; 0];
  [99; 99; 99; 107; 127; 119; 99; 0];
  [99; 99; 54; 28; 28; 54; 99; 0];
  [51; 51; 51; 30; 12; 12; 30; 0];
  [127; 99; 49; 24; 76; 102; 127; 0];
  [30; 6; 6; 6; 6; 6; 30; 0];
  [3; 6; 12; 24; 48; 96; 64; 0];
  [30; 24; 24; 24; 24; 24; 30; 0];
  [8; 28; 54; 99; 0; 0; 0; 0];
  [0; 0; 0; 0; 0; 0; 0; 255];
  [12; 12; 24; 0; 0; 0; 0; 0];
  [0; 0; 30; 48; 62; 51; 110; 0];
  [7; 6; 6; 62; 102; 102; 59; 0];
  [0; 0; 30; 51; 3; 51; 30; 0];
  [56; 48; 48; 62; 51; 51; 110; 0];
  [0; 0; 30; 51; 63; 3; 30; 0];
  [28; 54; 6; 15; 6; 6; 15; 0];
  [0; 0; 110; 51; 51; 62; 48; 31];
  [7; 6; 54; 110; 102; 102; 103; 0];
  [12; 0; 14; 12; 12; 12; 30; 0];
  [48; 0; 48; 48; 48; 51; 51; 30];
  [7; 6; 102; 54; 30; 54; 103; 0];
  [14; 12; 12; 12; 12; 12; 30; 0];
  [0; 0; 51; 127; 127; 107; 99; 0];
  [0; 0; 31; 51; 51; 51; 51; 0];
  [0; 0; 30; 51; 51; 51; 30; 0];
  [0; 0; 59; 102; 102; 62; 6; 15];
  [0; 0; 110; 51; 51; 62; 48; 120];
  [0; 0; 59; 110; 102; 6; 15; 0];
  [0; 0; 62; 3; 30; 48; 31; 0];
  [8; 12; 62; 12; 12; 44; 24; 0];
  [0; 0; 51; 51; 51; 51; 110; 0];
  [0; 0; 51; 51; 51; 30; 12; 0];
  [0; 0; 99; 107; 127; 127; 54; 0];
  [0; 0; 99; 54; 28; 54; 99; 0];
  [0; 0; 51; 51; 51; 62; 48; 31];
  [0; 0; 63; 25; 12; 38; 63; 0];
  [56; 12; 12; 7; 12; 12; 56; 0];
  [24; 24; 24; 0; 24; 24; 24; 0];
  [7; 12; 12; 56; 12; 12; 7; 0];
  [110; 59; 0; 0; 0; 0; 0; 0]].

(** A range guards each index into a table. *)
Definition body_glyph (ch : Z) : outcome unit (list Z) :=
  if (32 <=? ch) && (ch <? 127) then or_panic (nth_z BASIC (ch - 32))
  else Val
    (match ch with
     | 0x2014 => EM_DASH
     | 0x2026 => ELLIPSIS
     | 0x2190 => ARROW_L
     | 0x2191 => ARROW_U
     | 0x2192 => ARROW_R
     | 0x2193 => ARROW_D
     | 0x2BA1 => ARROW_RET
     | _ => NOTDEF
     end).

Definition display_glyph (ch : Z) : outcome unit (list Z) :=
  let c := if (0x61 <=? ch) && (ch <=? 0x7A) then ch - 0x20 else ch in
  if (0x41 <=? c) && (c <=? 0x5A) then or_panic (nth_z DISP_AZ (c - 0x41))
  else if (0x30 <=? c) && (c <=? 0x39) then or_panic (nth_z DISP_09 (c - 0x30))
  else
    match c with
    | 0x2F => Val DISP_SLASH
    | 0x2B => Val DISP_PLUS
    | 0x2D => Val DISP_HYPHEN
    | 0x3A => Val DISP_COLON
    | 0x2E => Val DISP_DOT
    | 0x2C => Val DISP_COMMA
    | 0x5B => Val DISP_LBRACK
    | 0x5D => Val DISP_RBRACK
    | 0x28 => Val DISP_LPAREN
    | 0x29 => Val DISP_RPAREN
    | 0x3D => Val DISP_EQ
    | 0x21 => Val DISP_BANG
    | 0x2014 => Val DISP_EMDASH
    | _ => body_glyph ch
    end.

Definition glyph (font : Font) (ch : Z) : outcome unit (list Z) :=
  match font with
  | Body => body_glyph ch
  | Display => display_glyph ch
  end.

End Font.
