(* ===== verification/Framebuffer.v ===== *)
(** * The framebuffer

    [kernel/src/framebuffer.rs]: drawing goes to the off-screen [scene];
    [present] copies it to the hardware buffer and stamps the pointer, and
    [move_cursor] moves the pointer by restoring what it covered from the
    scene.  Buffers are lists of bytes, colours triples of bytes.  Arithmetic
    on [usize] and [u32] that could overflow for some input carries its check;
    products of two bytes are written plainly. *)

From S2P Require Import Prelude UiText Font.
Import Font.

Module Framebuffer.

(** ** Unsigned arithmetic *)

Definition sub_uint (a b : Z) : outcome unit Z := if b <=? a then Val (a - b) else Panic.
Definition add_u32 (a b : Z) : outcome unit Z := if a + b <? 2 ^ 32 then Val (a + b) else Panic.
Definition mul_u32 (a b : Z) : outcome unit Z := if a * b <? 2 ^ 32 then Val (a * b) else Panic.
Definition div_uint (a b : Z) : outcome unit Z := if b =? 0 then Panic else Val (a / b).
(** [a..b] *)
Definition range (a b : Z) : list Z := seqZ a (b - a).

(** ** Geometry and palette *)

Definition SCALE : Z := 2.
Definition CELL_W : Z := GLYPH_W * SCALE.
Definition CELL_H : Z := GLYPH_H * SCALE.

Definition Rgb : Type := Z * Z * Z.

Definition C_BG_TOP : Rgb := (0x02, 0x05, 0x0b).
Definition C_BG_LIST : Rgb := (0x05, 0x1d, 0x33).
Definition C_BG_BROWSER : Rgb := (0x03, 0x22, 0x1a).
Definition C_BG_ROW : Rgb := (0x1c, 0x09, 0x2e).
Definition C_BG_EDIT : Rgb := (0x2a, 0x14, 0x04).
Definition C_BG_SCHEMA : Rgb := (0x06, 0x12, 0x36).
Definition C_FG : Rgb := (0xd6, 0xf0, 0xff).
Definition C_DIM : Rgb := (0x6c, 0x90, 0xa8).
Definition C_SEL : Rgb := (0x0b, 0x35, 0x4e).
Definition C_CELL_SEL : Rgb := (0x23, 0x9d, 0xcf).
Definition C_CELL_SEL_FILL : Rgb := (0x10, 0x52, 0x74).
Definition C_ACCENT : Rgb := (0x3c, 0xf2, 0xff).
Definition C_ACCENT2 : Rgb := (0x3b, 0xff, 0xb4).
Definition C_ERR : Rgb := (0xff, 0x49, 0x6e).
Definition C_BAR : Rgb := (0x02, 0x08, 0x12).
Definition C_PANEL_EDGE : Rgb := (0x1b, 0x57, 0x77).
Definition C_GLOW : Rgb := (0x0e, 0x55, 0x6e).
Definition C_TITLE_TOP : Rgb := (0xea, 0xff, 0xff).
Definition C_TITLE_BOT : Rgb := (0x15, 0xb4, 0xea).
Definition C_TELE_TOP : Rgb := (0xd2, 0xff, 0xe8).
Definition C_TELE_BOT : Rgb := (0x11, 0xc6, 0x88).
Definition C_HEAD_TOP : Rgb := (0xaa, 0xfb, 0xff).
Definition C_HEAD_BOT : Rgb := (0x17, 0xa4, 0xd6).
Definition C_STAT_TOP : Rgb := (0xe8, 0xff, 0xff).
Definition C_STAT_BOT : Rgb := (0x2a, 0xb6, 0xe0).
Definition C_BAR_LO : Rgb := (0x06, 0x14, 0x22).

Definition CURSOR_W : Z := 16.
Definition CURSOR_H : Z := 24.
Definition CURSOR : list (list Z) := [
  [2; 0; 0; 0; 0; 0; 0; 0; 0; 0; 0; 0; 0; 0; 0; 0];
  [2; 2; 0; 0; 0; 0; 0; 0; 0; 0; 0; 0; 0; 0; 0; 0];
  [2; 3; 2; 0; 0; 0; 0; 0; 0; 0; 0; 0; 0; 0; 0; 0];
  [2; 3; 1; 2; 0; 0; 0; 0; 0; 0; 0; 0; 0; 0; 0; 0];
  [2; 3; 3; 1; 2; 0; 0; 0; 0; 0; 0; 0; 0; 0; 0; 0];
  [2; 3; 3; 1; 1; 2; 0; 0; 0; 0; 0; 0; 0; 0; 0; 0];
  [2; 3; 3; 1; 1; 1; 2; 0; 0; 0; 0; 0; 0; 0; 0; 0];
  [2; 1; 1; 1; 1; 1; 1; 2; 0; 0; 0; 0; 0; 0; 0; 0];
  [2; 1; 1; 1; 1; 1; 1; 1; 2; 0; 0; 0; 0; 0; 0; 0];
  [2; 1; 1; 1; 1; 1; 1; 1; 1; 2; 0; 0; 0; 0; 0; 0];
  [2; 1; 1; 1; 1; 1; 1; 1; 1; 1; 2; 0; 0; 0; 0; 0];
  [2; 1; 1; 1; 1; 1; 1; 1; 1; 1; 1; 2; 0; 0; 0; 0];
  [2; 1; 1; 1; 1; 1; 1; 1; 1; 1; 1; 1; 2; 0; 0; 0];
  [2; 1; 1; 1; 1; 1; 1; 2; 2; 2; 2; 2; 2; 2; 0; 0];
  [2; 1; 1; 1; 1; 2; 1; 2; 0; 0; 0; 0; 0; 0; 0; 0];
  [2; 1; 1; 2; 2; 0; 2; 1; 2; 0; 0; 0; 0; 0; 0; 0];
  [2; 2; 2; 0; 0; 0; 0; 2; 1; 2; 0; 0; 0; 0; 0; 0];
  [0; 0; 0; 0; 0; 0; 0; 0; 2; 1; 2; 0; 0; 0; 0; 0];
  [0; 0; 0; 0; 0; 0; 0; 0; 0; 2; 1; 2; 0; 0; 0; 0];
  [0; 0; 0; 0; 0; 0; 0; 0; 0; 0; 2; 1; 2; 0; 0; 0];
  [0; 0; 0; 0; 0; 0; 0; 0; 0; 0; 0; 2; 1; 2; 0; 0];
  [0; 0; 0; 0; 0; 0; 0; 0; 0; 0; 0; 0; 2; 1; 2; 0];
  [0; 0; 0; 0; 0; 0; 0; 0; 0; 0; 0; 0; 0; 0; 0; 0];
  [0; 0; 0; 0; 0; 0; 0; 0; 0; 0; 0; 0; 0; 0; 0; 0]].

Definition EMBLEM_N : Z := 16.
Definition EMBLEM_PX : Z := EMBLEM_N * SCALE.
Definition FRAME_CORNER : list (list Z) := [
  [3; 3; 3; 3; 3; 3; 3; 3; 3; 3; 3; 3; 0; 0; 0; 0];
  [3; 3; 3; 3; 3; 3; 3; 3; 3; 3; 3; 3; 0; 0; 0; 0];
  [3; 3; 0; 0; 0; 0; 0; 0; 0; 0; 0; 0; 0; 0; 0; 0];
  [3; 3; 0; 0; 2; 2; 2; 2; 2; 2; 0; 0; 0; 0; 0; 0];
  [3; 3; 0; 0; 2; 0; 0; 0; 0; 0; 0; 0; 0; 0; 0; 0];
  [3; 3; 0; 0; 2; 0; 0; 0; 0; 0; 0; 0; 0; 0; 0; 0];
  [3; 3; 0; 0; 2; 0; 0; 3; 3; 0; 0; 0; 0; 0; 0; 0];
  [3; 3; 0; 0; 2; 0; 0; 3; 3; 0; 0; 0; 0; 0; 0; 0];
  [3; 3; 0; 0; 2; 0; 0; 0; 0; 0; 0; 0; 0; 0; 0; 0];
  [3; 3; 0; 0; 0; 0; 0; 0; 0; 0; 0; 0; 0; 0; 0; 0];
  [3; 3; 0; 0; 1; 0; 0; 0; 0; 0; 0; 0; 0; 0; 0; 0];
  [3; 3; 0; 0; 0; 0; 0; 0; 0; 0; 0; 0; 0; 0; 0; 0];
  [0; 0; 0; 0; 0; 0; 0; 0; 0; 0; 0; 0; 0; 0; 0; 0];
  [0; 0; 0; 0; 0; 0; 0; 0; 0; 0; 0; 0; 0; 0; 0; 0];
  [0; 0; 0; 0; 0; 0; 0; 0; 0; 0; 0; 0; 0; 0; 0; 0];
  [0; 0; 0; 0; 0; 0; 0; 0; 0; 0; 0; 0; 0; 0; 0; 0]].

Record FbInfo := mk_info { width : Z; height : Z; pitch : Z; bpp : Z; bgr : bool }.
Record OwnedImage := mk_owned { w : Z; h : Z; rgba : bytes }.
Record GlyphAtlas := mk_atlas {
  a_w : Z; cols : Z; rows_ : Z; cellw : Z; cellh : Z; cov : list Z; filled : list bool }.

Definition atlas_cell (c : Z) : option Z :=
  if (0x20 <=? c) && (c <=? 0x7E) then Some (c - 0x20)
  else
    match c with
    | 0x00B5 => Some 96
    | 0x00D7 => Some 97
    | 0x2014 => Some 98
    | 0x2026 => Some 99
    | 0x2190 => Some 100
    | 0x2191 => Some 101
    | 0x2192 => Some 102
    | 0x2193 => Some 103
    | 0x2BA1 => Some 104
    | _ => None
    end.

Definition slot_for (tint : Rgb) : nat :=
  if bool_decide (tint = C_BG_LIST) then 0%nat
  else if bool_decide (tint = C_BG_BROWSER) then 1%nat
  else if bool_decide (tint = C_BG_ROW) then 2%nat
  else if bool_decide (tint = C_BG_EDIT) then 3%nat
  else 4%nat.

Definition norm_hue (c : Rgb) : Rgb :=
  let '(r, g, b) := c in
  let m := Z.max (Z.max (Z.max r g) b) 1 in
  (as_u8 (r * 255 / m), as_u8 (g * 255 / m), as_u8 (b * 255 / m)).

(** ** Pixels *)

(** The offset of a pixel, and of the byte after it. *)
Definition pixel_at (info : FbInfo) (x y : Z) : outcome unit (Z * Z) :=
  row ← mul_u64 y (pitch info);
  col ← mul_u64 x (bpp info);
  o ← add_u64 row col;
  e ← add_u64 o (bpp info);
  Val (o, e).

Definition get_px (buf : bytes) (info : FbInfo) (x y : Z) : outcome unit Rgb :=
  '(o, e) ← pixel_at info x y;
  if len buf <? e then Val (0, 0, 0) else
  c0 ← or_panic (nth_z buf o);
  c1 ← or_panic (nth_z buf (o + 1));
  c2 ← or_panic (nth_z buf (o + 2));
  Val (if bgr info then (c2, c1, c0) else (c0, c1, c2)).

(** A pixel narrower than its three channels aborts. *)
Definition put (buf : bytes) (info : FbInfo) (x y : Z) (c : Rgb) : outcome unit bytes :=
  if (width info <=? x) || (height info <=? y) then Val buf else
  '(o, e) ← pixel_at info x y;
  if len buf <? e then Val buf else
  if bpp info <? 3 then Panic else
  let '(r, g, b) := c in
  splice buf o (if bgr info then [b; g; r] else [r; g; b]).

Definition lerp_mix (d n x y : Z) : outcome unit Z :=
  m ← sub_uint d n;
  p ← mul_u32 x m;
  q ← mul_u32 y n;
  s ← add_u32 p q;
  v ← div_uint s d;
  Val (as_u8 v).
Definition lerp (a b : Rgb) (num den : Z) : outcome unit Rgb :=
  let d := as_u32 (Z.max den 1) in
  let n := as_u32 (Z.min num den) in
  let '(ar, ag, ab) := a in
  let '(br, bg, bb) := b in
  r ← lerp_mix d n ar br;
  g ← lerp_mix d n ag bg;
  b ← lerp_mix d n ab bb;
  Val (r, g, b).

(** ** Bitmaps *)

(** A source coordinate, its neighbour and the weight between them. *)
Definition sample (i n total : Z) : outcome unit (Z * Z * Z) :=
  a ← mul_u64 i n;
  b ← mul_u64 a 256;
  let g := as_u32 (b / total) in
  let i0 := Z.shiftr g 8 in
  Val (i0, Z.min (i0 + 1) (n - 1), Z.land g 0xff).

Definition mix (a b f : Z) : Z := Z.shiftr (a * (256 - f) + b * f) 8.

Definition at_px (px : bytes) (r x k : Z) : outcome unit Z := or_panic (nth_z px ((r + x) * 4 + k)).

(** A channel of the bilinear sample at [(x0 | x1, r0 | r1)]. *)
Definition bilinear (px : bytes) (r0 r1 x0 x1 fx fy k : Z) : outcome unit Z :=
  a ← at_px px r0 x0 k;
  b ← at_px px r0 x1 k;
  c ← at_px px r1 x0 k;
  d ← at_px px r1 x1 k;
  Val (mix (mix a b fx) (mix c d fx) fy).

Definition tinted (tint : option Rgb) (r g b : Z) : Rgb :=
  match tint with
  | Some (tr, tg, tb) => (as_u8 (r * tr / 255), as_u8 (g * tg / 255), as_u8 (b * tb / 255))
  | None => (as_u8 r, as_u8 g, as_u8 b)
  end.

Definition blit_row (info : FbInfo) (img : OwnedImage) (tint : option Rgb) (xmap : list (Z * Z * Z))
    (scene : bytes) (dy : Z) : outcome unit bytes :=
  '(y0, y1, fy) ← sample dy (h img) (height info);
  r0 ← mul_u64 y0 (w img);
  r1 ← mul_u64 y1 (w img);
  fold_o (fun scene '(dx, (x0, x1, fx)) =>
    r ← bilinear (rgba img) r0 r1 x0 x1 fx fy 0;
    g ← bilinear (rgba img) r0 r1 x0 x1 fx fy 1;
    b ← bilinear (rgba img) r0 r1 x0 x1 fx fy 2;
    put scene info (Z.of_nat dx) dy (tinted tint r g b)) scene (enumerate xmap).

Definition image_bytes (iw ih : Z) : outcome unit Z := p ← mul_u64 iw ih; mul_u64 p 4.

Definition blit_stretch (scene : bytes) (info : FbInfo) (img : OwnedImage) (tint : option Rgb)
    : outcome unit bytes :=
  if (w img =? 0) || (h img =? 0) then Val scene else
  need ← image_bytes (w img) (h img);
  if len (rgba img) <? need then Val scene else
  if (width info =? 0) || (height info =? 0) then Val scene else
  xmap ← map_o (fun dx => sample dx (w img) (width info)) (range 0 (width info));
  fold_o (blit_row info img tint xmap) scene (range 0 (height info)).

(** The sum and the number of the coverage bytes under an output pixel. *)
Definition coverage (atlas : GlyphAtlas) (cellx celly sx0 sx1 sy0 sy1 : Z) : outcome unit (Z * Z) :=
  fold_o (fun acc yy =>
    fold_o (fun '(sum, n) xx =>
      v ← or_panic (nth_z (cov atlas) ((celly + yy) * a_w atlas + (cellx + xx)));
      sum' ← add_u32 sum v;
      n' ← add_u32 n 1;
      Val (sum', n')) acc (range sx0 sx1)) (0, 0) (range sy0 sy1).

(** [i * cell / box], and the end of the span [i] covers, at least one wide. *)
Definition span (i cell box : Z) : outcome unit (Z * Z) :=
  a ← mul_u64 i cell;
  b ← mul_u64 (i + 1) cell;
  Val (a / box, Z.min (Z.max (b / box) (a / box + 1)) cell).

Definition atlas_pixel (info : FbInfo) (atlas : GlyphAtlas) (cellx celly x py bw sy0 sy1 : Z)
    (color : Rgb) (scene : bytes) (tx : Z) : outcome unit bytes :=
  '(sx0, sx1) ← span tx (cellw atlas) bw;
  '(sum, n) ← coverage atlas cellx celly sx0 sx1 sy0 sy1;
  let cov := sum / Z.max n 1 in
  if cov =? 0 then Val scene else
  px ← add_u64 x tx;
  if width info <=? px then Val scene else
  bg ← get_px scene info px py;
  c ← lerp bg color cov 255;
  put scene info px py c.

(** The rows of a glyph; one below the screen ends the loop. *)
Fixpoint atlas_rows (info : FbInfo) (atlas : GlyphAtlas) (cellx celly x y bw bh : Z) (top bot : Rgb)
    (den : Z) (scene : bytes) (tys : list Z) : outcome unit bytes :=
  match tys with
  | [] => Val scene
  | ty :: tys' =>
      '(sy0, sy1) ← span ty (cellh atlas) bh;
      color ← lerp top bot ty den;
      py ← add_u64 y ty;
      if height info <=? py then Val scene else
      scene' ← fold_o (atlas_pixel info atlas cellx celly x py bw sy0 sy1 color) scene (range 0 bw);
      atlas_rows info atlas cellx celly x y bw bh top bot den scene' tys'
  end.

Definition paint_atlas_glyph (scene : bytes) (info : FbInfo) (atlas : GlyphAtlas)
    (cell x y bw bh : Z) (top bot : Rgb) : outcome unit bytes :=
  cellx ← mul_u64 (cell mod cols atlas) (cellw atlas);
  celly ← mul_u64 (cell / cols atlas) (cellh atlas);
  let den := Z.max (saturating_sub bh 1) 1 in
  atlas_rows info atlas cellx celly x y bw bh top bot den scene (range 0 bh).

(** ** The display *)

Record Display := mk_display {
  fb : bytes; scene : bytes; info : FbInfo; cursor_at : option (Z * Z);
  backgrounds : list (option OwnedImage); bg_shared : option OwnedImage;
  atlas : option GlyphAtlas; bg_cache : list (option bytes) }.

Definition with_fb (b : bytes) (d : Display) : Display :=
  mk_display b (scene d) (info d) (cursor_at d) (backgrounds d) (bg_shared d) (atlas d) (bg_cache d).
Definition with_scene (b : bytes) (d : Display) : Display :=
  mk_display (fb d) b (info d) (cursor_at d) (backgrounds d) (bg_shared d) (atlas d) (bg_cache d).
Definition with_cursor (c : option (Z * Z)) (d : Display) : Display :=
  mk_display (fb d) (scene d) (info d) c (backgrounds d) (bg_shared d) (atlas d) (bg_cache d).
Definition with_backgrounds (bs : list (option OwnedImage)) (d : Display) : Display :=
  mk_display (fb d) (scene d) (info d) (cursor_at d) bs (bg_shared d) (atlas d) (bg_cache d).
Definition with_shared (s : option OwnedImage) (d : Display) : Display :=
  mk_display (fb d) (scene d) (info d) (cursor_at d) (backgrounds d) s (atlas d) (bg_cache d).
Definition with_atlas (a : option GlyphAtlas) (d : Display) : Display :=
  mk_display (fb d) (scene d) (info d) (cursor_at d) (backgrounds d) (bg_shared d) a (bg_cache d).
Definition with_cache (c : list (option bytes)) (d : Display) : Display :=
  mk_display (fb d) (scene d) (info d) (cursor_at d) (backgrounds d) (bg_shared d) (atlas d) c.

(** Drawing only changes the scene. *)
Definition draw (d : Display) (f : bytes -> outcome unit bytes) : outcome unit Display :=
  s ← f (scene d); Val (with_scene s d).

Definition fill_rect (d : Display) (x y w h : Z) (c : Rgb) : outcome unit Display :=
  draw d (fun s =>
    ye ← add_u64 y h;
    fold_o (fun s yy =>
      xe ← add_u64 x w;
      fold_o (fun s xx => put s (info d) xx yy c) s (range x (Z.min xe (width (info d)))))
      s (range y (Z.min ye (height (info d))))).

(** The glyph of the built-in faces, a [scale] square per bit. *)
Definition face_glyph (info : FbInfo) (g : list Z) (x y : Z) (top bot : Rgb) (scale den : Z)
    (s : bytes) : outcome unit bytes :=
  fold_o (fun s '(row, bits) =>
    fold_o (fun s col =>
      if Z.testbit bits col then
        fold_o (fun s sy =>
          let py := Z.of_nat row * scale + sy in
          c ← lerp top bot py den;
          fold_o (fun s sx =>
            gx ← add_u64 x (col * scale);
            px ← add_u64 gx sx;
            py' ← add_u64 y py;
            put s info px py' c) s (range 0 scale)) s (range 0 scale)
      else Val s) s (range 0 GLYPH_W)) s (enumerate g).

(** The atlas cell a character is drawn from, if any. *)
Definition atlas_hit (a : GlyphAtlas) (lookup : Z) : outcome unit (option Z) :=
  match atlas_cell lookup with
  | None => Val None
  | Some cell =>
      if cell <? cols a * rows_ a then
        f ← or_panic (nth_z (filled a) cell);
        Val (if f || (lookup =? 32) then Some cell else None)
      else Val None
  end.

Definition atlas_choice (a : option GlyphAtlas) (lookup : Z) : outcome unit (option (GlyphAtlas * Z)) :=
  match a with
  | None => Val None
  | Some a => o ← atlas_hit a lookup; Val (match o with Some cell => Some (a, cell) | None => None end)
  end.

Definition paint_glyph (d : Display) (x y ch : Z) (top bot : Rgb) (font : Font) (scale : Z)
    : outcome unit Display :=
  let bw := GLYPH_W * scale in
  let bh := GLYPH_H * scale in
  let lookup := if bool_decide (font = Font.Display) && (97 <=? ch) && (ch <=? 122) then ch - 0x20 else ch in
  hit ← atlas_choice (atlas d) lookup;
  match hit with
  | Some (a, cell) => draw d (fun s => paint_atlas_glyph s (info d) a cell x y bw bh top bot)
  | None =>
      g ← glyph font ch;
      draw d (face_glyph (info d) g x y top bot scale (Z.max (saturating_sub bh 1) 1))
  end.

Definition draw_glyph (d : Display) (x y ch : Z) (fg : Rgb) (font : Font) : outcome unit Display :=
  paint_glyph d x y ch fg fg font SCALE.

(** ** Installing assets *)

Definition set_background (d : Display) (slot : nat) (w h : Z) (rgba : bytes) : outcome unit Display :=
  if (slot <? 5)%nat then
    need ← image_bytes w h;
    if need <=? len rgba then
      Val (with_cache (<[slot := None]> (bg_cache d))
            (with_backgrounds (<[slot := Some (mk_owned w h rgba)]> (backgrounds d)) d))
    else Val d
  else Val d.

Definition set_shared_bg (d : Display) (w h : Z) (rgba : bytes) : outcome unit Display :=
  need ← image_bytes w h;
  if need <=? len rgba then
    Val (with_cache [None; None; None; None; None] (with_shared (Some (mk_owned w h rgba)) d))
  else Val d.

(** Whether any pixel of a cell is lit. *)
Definition cell_filled (cov : list Z) (w cellw cellh cy cx : Z) : outcome unit bool :=
  s ← fold_o (fun s yy =>
    fold_o (fun s xx =>
      v ← or_panic (nth_z cov ((cy * cellh + yy) * w + (cx * cellw + xx)));
      add_u32 s v) s (range 0 cellw)) 0 (range 0 cellh);
  Val (0 <? s).

Definition set_atlas (d : Display) (w h : Z) (rgba : bytes) : outcome unit Display :=
  let cols := 16 in
  let rows := 7 in
  if (w =? 0) || (h =? 0) || negb (w mod cols =? 0) || negb (h mod rows =? 0) then Val d else
  need ← image_bytes w h;
  if len rgba <? need then Val d else
  let cellw := w / cols in
  let cellh := h / rows in
  cov ← map_o (fun i =>
    r ← or_panic (nth_z rgba (i * 4));
    g ← or_panic (nth_z rgba (i * 4 + 1));
    b ← or_panic (nth_z rgba (i * 4 + 2));
    Val (Z.max (Z.max r g) b)) (range 0 (w * h));
  filled ← fold_o (fun filled cy =>
    fold_o (fun filled cx =>
      f ← cell_filled cov w cellw cellh cy cx;
      Val (<[Z.to_nat (cy * cols + cx) := f]> filled)) filled (range 0 cols))
    (replicate (Z.to_nat (cols * rows)) false) (range 0 rows);
  Val (with_atlas (Some (mk_atlas w cols rows cellw cellh cov filled)) d).

(** ** Backgrounds *)

(** Two of four rows are darkened. *)
Definition backdrop_color (top bottom : Rgb) (denom y : Z) : outcome unit Rgb :=
  let lerp a b :=
    m ← sub_uint denom y;
    p ← mul_u32 a m;
    q ← mul_u32 b y;
    s ← add_u32 p q;
    div_uint s denom in
  let '(tr, tg, tb) := top in
  let '(br, bg, bb) := bottom in
  r ← lerp tr br;
  g ← lerp tg bg;
  b ← lerp tb bb;
  let band v := if Z.land (y / 2) 1 =? 1 then v * 84 / 100 else v in
  Val (as_u8 (band r), as_u8 (band g), as_u8 (band b)).

Definition backdrop (d : Display) (top bottom : Rgb) : outcome unit Display :=
  draw d (fun s =>
    fold_o (fun s y =>
      c ← backdrop_color top bottom (as_u32 (Z.max (height (info d)) 2 - 1)) (as_u32 y);
      fold_o (fun s x => put s (info d) x y c) s (range 0 (width (info d))))
      s (range 0 (height (info d)))).

Definition lcg (s : Z) : Z := as_u32 (as_u32 (s * 1664525) + 1013904223).

Definition star_color (v : Z) : Rgb :=
  match v mod 8 with
  | 0 => (0xcf, 0xe9, 0xff)
  | 1 | 2 => (0x6f, 0x93, 0xb4)
  | _ => (0x33, 0x4c, 0x66)
  end.

Definition starfield (d : Display) (count : Z) : outcome unit Display :=
  let '(w, h) := (width (info d), height (info d)) in
  if (w =? 0) || (h =? 0) then Val d else
  draw d (fun s =>
    '(_, s') ← fold_o (fun '(seed, s) _ =>
      let s1 := lcg seed in
      let s2 := lcg s1 in
      let s3 := lcg s2 in
      s' ← put s (info d) (s1 mod w) (s2 mod h) (star_color s3);
      Val (s3, s')) (0x9E3779B9, s) (range 0 count);
    Val s').

(** The fresh composition of a view's background. *)
Definition compose (d : Display) (top tint : Rgb) : outcome unit Display :=
  match nth (slot_for tint) (backgrounds d) None with
  | Some img => draw d (fun s => blit_stretch s (info d) img None)
  | None =>
      match bg_shared d with
      | Some img => draw d (fun s => blit_stretch s (info d) img (Some (norm_hue tint)))
      | None => d' ← backdrop d top tint; starfield d' 160
      end
  end.

Definition paint_background (d : Display) (top tint : Rgb) : outcome unit Display :=
  let slot := slot_for tint in
  let fresh :=
    d' ← compose d top tint;
    Val (with_cache (<[slot := Some (scene d')]> (bg_cache d')) d') in
  match nth slot (bg_cache d) None with
  | Some cached => if len cached =? len (scene d) then Val (with_scene cached d) else fresh
  | None => fresh
  end.

(** ** Text and shapes *)

(** The advance is returned with the display. *)
Definition run_text (glyph_at : Display -> Z -> Z -> outcome unit Display) (advance : Z)
    (d : Display) (x : Z) (s : bytes) : outcome unit (Z * Display) :=
  fold_o (fun '(cx, d) ch =>
    d' ← glyph_at d cx (decode_utf8 ch);
    cx' ← add_u64 cx advance;
    Val (cx', d')) (x, d) (chars s).

Definition draw_text (d : Display) (x y : Z) (s : bytes) (fg : Rgb) (font : Font)
    : outcome unit (Z * Display) :=
  run_text (fun d cx ch => draw_glyph d cx y ch fg font) CELL_W d x s.

Definition stroke_rect (d : Display) (x y w h t : Z) (c : Rgb) : outcome unit Display :=
  if (w =? 0) || (h =? 0) then Val d else
  d ← fill_rect d x y w t c;
  yb ← add_u64 y (saturating_sub h t);
  d ← fill_rect d x yb w t c;
  d ← fill_rect d x y t h c;
  xr ← add_u64 x (saturating_sub w t);
  fill_rect d xr y t h c.

(** The four halo stamps around a run of text, and the run itself. *)
Definition haloed (text : Display -> Z -> Z -> bool -> outcome unit (Z * Display)) (o : Z)
    (d : Display) (x y : Z) : outcome unit Display :=
  xo ← add_u64 x o;
  '(_, d) ← text d xo y true;
  '(_, d) ← text d (saturating_sub x o) y true;
  yo ← add_u64 y o;
  '(_, d) ← text d x yo true;
  '(_, d) ← text d x (saturating_sub y o) true;
  '(_, d) ← text d x y false;
  Val d.

Definition draw_text_glow (d : Display) (x y : Z) (s : bytes) (fg glow : Rgb) (font : Font)
    : outcome unit Display :=
  haloed (fun d x y halo => draw_text d x y s (if halo then glow else fg) font) 2 d x y.

Definition glyph_grad (d : Display) (x y ch : Z) (top bot : Rgb) (font : Font) (scale : Z)
    : outcome unit Display :=
  paint_glyph d x y ch top bot font scale.

Definition draw_text_grad (d : Display) (x y : Z) (s : bytes) (top bot : Rgb) (font : Font) (scale : Z)
    : outcome unit (Z * Display) :=
  run_text (fun d cx ch => glyph_grad d cx y ch top bot font scale) (GLYPH_W * scale) d x s.

Definition draw_text_glow_grad (d : Display) (x y : Z) (s : bytes) (top bot glow : Rgb) (font : Font)
    (scale : Z) : outcome unit Display :=
  haloed (fun d x y halo =>
    if halo then draw_text_grad d x y s glow glow font scale
    else draw_text_grad d x y s top bot font scale) scale d x y.

(** A row below the screen ends the loop. *)
Fixpoint grad_rows (info : FbInfo) (x y w den : Z) (top bot : Rgb) (s : bytes) (yys : list Z)
    : outcome unit bytes :=
  match yys with
  | [] => Val s
  | yy :: yys' =>
      py ← add_u64 y yy;
      if height info <=? py then Val s else
      c ← lerp top bot yy den;
      xe ← add_u64 x w;
      s' ← fold_o (fun s xx => put s info xx py c) s (range x (Z.min xe (width info)));
      grad_rows info x y w den top bot s' yys'
  end.

Definition fill_grad_rect (d : Display) (x y w h : Z) (top bot : Rgb) : outcome unit Display :=
  draw d (fun s => grad_rows (info d) x y w (saturating_sub h 1) top bot s (range 0 h)).

Definition tile_at (tile : list (list Z)) (ry rx : Z) : Z :=
  nth (Z.to_nat rx) (nth (Z.to_nat ry) tile []) 0.

Definition corner_emblem (d : Display) (x y : Z) (accent mid dim : Rgb) (flip_x flip_y : bool)
    : outcome unit Display :=
  draw d (fun s =>
    fold_o (fun s ry =>
      fold_o (fun s rx =>
        let lvl := tile_at FRAME_CORNER ry rx in
        if lvl =? 0 then Val s else
        let c := match lvl with 3 => accent | 2 => mid | _ => dim end in
        let cx := if flip_x then EMBLEM_N - 1 - rx else rx in
        let cy := if flip_y then EMBLEM_N - 1 - ry else ry in
        fold_o (fun s sy =>
          fold_o (fun s sx =>
            px ← add_u64 x (cx * SCALE + sx);
            py ← add_u64 y (cy * SCALE + sy);
            put s (info d) px py c) s (range 0 SCALE)) s (range 0 SCALE))
        s (range 0 EMBLEM_N)) s (range 0 EMBLEM_N)).

Definition rows (d : Display) : Z := height (info d) / CELL_H.

(** ** Compositing *)

Definition cursor_color (v : Z) : option Rgb :=
  match v with
  | 1 => Some C_ACCENT
  | 2 => Some (0x01, 0x06, 0x0e)
  | 3 => Some (0xff, 0xff, 0xff)
  | _ => None
  end.

Definition paint_cursor (d : Display) : outcome unit Display :=
  match cursor_at d with
  | None => Val d
  | Some (cx, cy) =>
      b ← fold_o (fun b ry =>
        fold_o (fun b rx =>
          match cursor_color (tile_at CURSOR ry rx) with
          | None => Val b
          | Some c =>
              px ← add_u64 cx rx;
              py ← add_u64 cy ry;
              put b (info d) px py c
          end) b (range 0 CURSOR_W)) (fb d) (range 0 CURSOR_H);
      Val (with_fb b d)
  end.

Definition restore_cursor_bg (d : Display) (ox oy : Z) : outcome unit Display :=
  b ← fold_o (fun b ry =>
    py ← add_u64 oy ry;
    if height (info d) <=? py then Val b else
    fold_o (fun b rx =>
      px ← add_u64 ox rx;
      if width (info d) <=? px then Val b else
      '(o, e) ← pixel_at (info d) px py;
      if e <=? len b then src ← slice (scene d) o e; splice b o src else Val b)
      b (range 0 CURSOR_W)) (fb d) (range 0 CURSOR_H);
  Val (with_fb b d).

(** [fb[..n].copy_from_slice(&scene[..n])] for the shorter length. *)
Definition copy_scene (d : Display) : Display :=
  let n := Nat.min (length (fb d)) (length (scene d)) in
  with_fb (take n (scene d) ++ drop n (fb d)) d.

Definition blit (d : Display) : Display := with_cursor None (copy_scene d).

Definition present (d : Display) (cursor : Z * Z) : outcome unit Display :=
  paint_cursor (with_cursor (Some cursor) (copy_scene d)).

Definition move_cursor (d : Display) (x y : Z) : outcome unit Display :=
  match cursor_at d with
  | Some (ox, oy) =>
      if bool_decide ((ox, oy) = (x, y)) then Val d else
      d' ← restore_cursor_bg d ox oy;
      paint_cursor (with_cursor (Some (x, y)) d')
  | None => paint_cursor (with_cursor (Some (x, y)) d)
  end.

Definition init (buffer : bytes) (info : FbInfo) : Display :=
  mk_display buffer (replicate (length buffer) 0) info None
    [None; None; None; None; None] None None [None; None; None; None; None].

(** The panic handler paints the hardware buffer directly. *)
Definition emergency_fill (d : Display) (c : Rgb) : outcome unit Display :=
  b ← fold_o (fun b y => fold_o (fun b x => put b (info d) x y c) b (range 0 (width (info d))))
    (fb d) (range 0 (height (info d)));
  Val (with_fb b d).

End Framebuffer.
