(* ===== verification/App.v ===== *)
(** * The state of the user interface

    [kernel/src/ui.rs]: the screens, the application around the store, its
    stack, its errors and the row list of the browser.  The five hardware
    screens (drives, PCI, xHCI, the USB target list, the install report) are
    one constructor whose handler, like the display and the clock, is an
    interface, [Hardware].

    [hitmap] is what the last frame recorded; frames are built in [Frames] and
    drawn in [Render].  The indices of in-memory vectors are below [isize::MAX], so their sums do not
    overflow and are written as plain sums. *)

From stdpp Require Import gmap.
From S2P Require Import Prelude Types Bignum Value Codec Schema Block Journal Pager Store Ps2 UiText Builder Framebuffer.
From S2P Require Rtc.

Module App.
Import Store.
Import Text.

(** ** Layout *)

Abbreviation CELL_W := Framebuffer.CELL_W (only parsing).
Abbreviation CELL_H := Framebuffer.CELL_H (only parsing).
Abbreviation EMBLEM_PX := Framebuffer.EMBLEM_PX (only parsing).
Definition DEFAULT_COL_W : Z := 15.
Definition MIN_COL_W : Z := 1.
Definition MAX_COL_W : Z := 120.
Definition TOPBAR_H : Z := 2 * CELL_H + 8.
Definition BOTBAR_H : Z := CELL_H + 12.
Definition PANEL_X : Z := CELL_W / 2.
Definition PANEL_Y : Z := TOPBAR_H + 6.
Definition BODY_X : Z := PANEL_X + 14.
Definition BODY_TOP : Z := PANEL_Y + EMBLEM_PX + 8.

(** ** The interface of the machine *)

Inductive HwNav (S : Type) := HwStay | HwPop | HwPush (s : S) | HwConfirm (msg : bytes) (slot : Z) (label : bytes) | HwPopToList.
Arguments HwStay {S}.
Arguments HwPop {S}.
Arguments HwPush {S}.
Arguments HwConfirm {S}.
Arguments HwPopToList {S}.

Class Hardware (H : Type) := {
  HwScreen : Type;
  (** The keys of the table list that look at the hardware. *)
  hw_open : Ps2.Key -> H -> (option HwScreen * option bytes) * H;
  hw_key : HwScreen -> Ps2.Key -> H -> (HwScreen * HwNav HwScreen * option bytes) * H;
  hw_cursor : nat -> HwScreen -> HwScreen;
  (** [install::install_to_usb], the report screen and the status it leads to. *)
  hw_install : Z -> Z -> bytes -> H -> (HwScreen * bytes) * H;
  hw_height : H -> option Z;
  hw_msc_error : H -> option bytes * H;
  hw_clock : Z -> H -> Z * H;
  (** The frame of a hardware screen under a status, and the display's width. *)
  hw_frame : HwScreen -> bytes -> H -> Frame * H;
  hw_width : H -> option Z;
  (** What the build embeds. *)
  hw_version : bytes;
  hw_project_license : bytes;
  hw_font_license : bytes
}.

(** ** Screens *)

Inductive Action :=
  | CreateTable
  | Shutdown
  | DeleteRow (table : bytes) (id : RowId.t)
  | DropTable (table : bytes)
  | DropColumn (table col : bytes)
  | DropFk (table : bytes)
  | AddColPickType (table name : bytes)
  | RenameColumn (table col : bytes)
  | SetDisplayWidth (table col : bytes)
  | AddFkPickFrom (table : bytes)
  | AddFkPickToTable (table from_col : bytes)
  | AddFkPickToCol (table from_col to_table : bytes)
  | CreateOs (slot : Z) (label : bytes).

Module Field.
Record t := mk { value : bytes; is_null : bool; caret : Z }.
End Field.

Module Editor.
Record t := mk {
  table : bytes; id : option RowId.t; cols : list Column.t; fields : list Field.t; focus : nat;
  error : option (nat * bytes)
}.
Definition with_fields (fs : list Field.t) (e : t) : t := mk (table e) (id e) (cols e) fs (focus e) (error e).
Definition with_focus (i : nat) (e : t) : t := mk (table e) (id e) (cols e) (fields e) i (error e).
Definition with_error (x : option (nat * bytes)) (e : t) : t :=
  mk (table e) (id e) (cols e) (fields e) (focus e) x.
End Editor.

Module RowCache.
Record t := mk {
  table : bytes; filter : option (bytes * Value.t); sort : option (nat * bool); generation : Z;
  rows : list (RowId.t * list cell)
}.
End RowCache.

Section Machine.
Context {D H : Type} `{!BlockDevice D, !Hardware H}.

Abbreviation rows_t := (list (RowId.t * list cell)) (only parsing).

Inductive Screen :=
  | List (sel : nat)
  | Browser (table : bytes) (row col top : nat) (filter : option (bytes * Value.t)) (sort : option (nat * bool))
  | RowView (table : bytes) (id : RowId.t) (sel : nat)
  | EditorScreen (ed : Editor.t)
  | Builder (b : FieldBuilder.t)
  | SchemaScreen (table : bytes) (sel : nat)
  | RefCols (table : bytes) (order : list bytes) (sel : nat)
  | Prompt (title buf : bytes) (caret : Z) (action : Action)
  | Pick (title : bytes) (options : list bytes) (sel : nat) (action : Action)
  | Confirm (msg : bytes) (action : Action)
  | About (top : Z)
  | FkPick (field_idx : nat) (from_col to_table to_col : bytes) (rows : list (RowId.t * bytes)) (sel top : nat)
  | HwS (s : HwScreen).

Inductive Nav := NavNone | NavPop | NavPush (s : Screen) | NavPopToList.

Record ClickRow := mk_click { cr_hit : Hit; cr_text : bytes }.

(** The stack has its top first. *)
Record t := mk_app {
  store : Pager.t D; stack : list Screen; status : bytes; booted_sys_guid : bytes; data_lba : Z;
  hitmap : list ClickRow; row_cache : option RowCache.t; hw : H
}.

(** A handler returns, or powers the machine off. *)
Inductive Stop := PowerOff.
Abbreviation M := (stM t Stop) (only parsing).

Definition set_store (p : Pager.t D) (a : t) : t :=
  mk_app p (stack a) (status a) (booted_sys_guid a) (data_lba a) (hitmap a) (row_cache a) (hw a).
Definition set_stack (s : list Screen) (a : t) : t :=
  mk_app (store a) s (status a) (booted_sys_guid a) (data_lba a) (hitmap a) (row_cache a) (hw a).
Definition set_status (s : bytes) (a : t) : t :=
  mk_app (store a) (stack a) s (booted_sys_guid a) (data_lba a) (hitmap a) (row_cache a) (hw a).
Definition set_cache (c : option RowCache.t) (a : t) : t :=
  mk_app (store a) (stack a) (status a) (booted_sys_guid a) (data_lba a) (hitmap a) c (hw a).
Definition set_hw (h : H) (a : t) : t :=
  mk_app (store a) (stack a) (status a) (booted_sys_guid a) (data_lba a) (hitmap a) (row_cache a) h.

(** [self.store.op(..)] as a [Result] in hand. *)
Definition ask {A} (c : stM (Pager.t D) StoreError A) : M (A + StoreError) := fun a =>
  match c (store a) with
  | (Val x, p) => (Val (inl x), set_store p a)
  | (Fail e, p) => (Val (inr e), set_store p a)
  | (Panic, p) => (Panic, set_store p a)
  | (NoFuel, p) => (NoFuel, set_store p a)
  end.
Definition ok {A B} (r : A + B) : option A := match r with inl x => Some x | inr _ => None end.
Definition ask_ok {A} (c : stM (Pager.t D) StoreError A) : M (option A) := r ← ask c; mret (ok r).
Definition unwrap_or {A B} (d : A) (r : A + B) : A := match r with inl x => x | inr _ => d end.

(** Code that only returns or aborts. *)
Definition pure {A} (o : outcome unit A) : M A := fun a =>
  match o with Val x => (Val x, a) | NoFuel => (NoFuel, a) | Fail _ | Panic => (Panic, a) end.
Definition on_hw {A} (f : H -> A * H) : M A := fun a => let '(x, h) := f (hw a) in (Val x, set_hw h a).

Definition say (s : bytes) : M unit := modify (set_status s).

(** ** The stack *)

Definition get_top : M Screen := fun a =>
  match stack a with s :: _ => (Val s, a) | [] => (Panic, a) end.
Definition put_top (s : Screen) : M unit := fun a =>
  match stack a with _ :: rest => (Val tt, set_stack (s :: rest) a) | [] => (Panic, a) end.
Definition push (s : Screen) : M unit := modify (fun a => set_stack (s :: stack a) a).
Definition pop : M unit := modify (fun a =>
  match stack a with
  | _ :: ((_ :: _) as l) => set_stack l a
  | _ => a
  end).

(** [while !matches!(self.top(), List) { self.pop() }]: a stack of screens other
    than the list would be popped for ever once one is left. *)
Definition is_list (s : Screen) : bool := match s with List _ => true | _ => false end.
Fixpoint drop_to_list (l : list Screen) : option (list Screen) :=
  match l with
  | [] => None
  | s :: rest => if is_list s then Some l else match rest with [] => None | _ => drop_to_list rest end
  end.
Definition pop_to_list : M unit := fun a =>
  match stack a with
  | [] => (Panic, a)
  | l => match drop_to_list l with Some l' => (Val tt, set_stack l' a) | None => (NoFuel, a) end
  end.

(** [describe(&e)] *)
Definition describe (e : StoreError) : M bytes :=
  match e with
  | Io =>
      d ← on_hw hw_msc_error;
      mret (match d with Some detail => str "I/O error: " ++ detail | None => str "I/O error" end)
  | Corrupt m => mret (str "corrupt store: " ++ m)
  | OutOfSpace => mret (str "out of space (or transaction too large)")
  | Parse m => mret m
  | NullViolation c => mret (str "'" ++ c ++ str "' must not be NULL")
  | UniqueViolation c => mret (str "'" ++ c ++ str "' must be unique")
  | ForeignKeyViolation fk => mret (str "foreign key '" ++ fk ++ str "': no matching referenced row")
  | SchemaRejected m => mret m
  | NotFound m => mret (str "not found: " ++ m)
  | Duplicate m => mret (str "already exists: " ++ m)
  end.
Definition err (e : StoreError) : M unit := m ← describe e; say m.

(** [match self.store.op(..) { Ok(x) => f(x), Err(e) => self.err(e) }] *)
Definition ask_or_err {A} (c : stM (Pager.t D) StoreError A) (f : A -> M unit) : M unit :=
  r ← ask c;
  match r with inl x => f x | inr e => err e end.

Definition column_for_error (cols : list Column.t) (fks : list ForeignKey.t) (e : StoreError) : nat :=
  let name := match e with
    | NullViolation c | UniqueViolation c => Some c
    | ForeignKeyViolation fk =>
        ForeignKey.from_col <$> List.find (fun f => str_eqb (ForeignKey.name f) fk) fks
    | _ => None
    end in
  match n ← name; position (fun c => str_eqb (Column.name c) n) cols with Some i => i | None => 0%nat end.

Definition visible_rows : M nat :=
  a ← gets hw;
  mret (match hw_height a with
        | Some height =>
            let bottom := saturating_sub height (BOTBAR_H + EMBLEM_PX + 8) in
            Z.to_nat (saturating_sub (saturating_sub bottom BODY_TOP / CELL_H) 2)
        | None => 20%nat
        end).

(** ** Rows *)

(** The order of the browser: NULLs last in either direction. *)
Definition cmp_rows (ci : nat) (asc : bool) (a b : RowId.t * list cell) : comparison :=
  match cell_at a.2 ci, cell_at b.2 ci with
  | Some x, Some y => if asc then Value.cmp x y else Value.cmp y x
  | Some _, None => Lt
  | None, Some _ => Gt
  | None, None => Eq
  end.

(** [sort_by]: stable. *)
Fixpoint sort_insert {A} (cmp : A -> A -> comparison) (x : A) (l : list A) : list A :=
  match l with
  | [] => [x]
  | y :: l' => match cmp x y with Gt => y :: sort_insert cmp x l' | _ => x :: l end
  end.
Definition sort_by {A} (cmp : A -> A -> comparison) (l : list A) : list A := foldr (sort_insert cmp) [] l.

Definition rows (table : bytes) (filter : option (bytes * Value.t)) (sort : option (nat * bool)) : M rows_t :=
  r ← ask (scan table);
  let rows := unwrap_or [] r in
  rows ← match filter with
    | Some (col, val) =>
        t ← ask (get_table table);
        mret (match t' ← ok t; Table.column_index t' col with
              | Some ci => List.filter (fun p : RowId.t * list cell => bool_decide (cell_at p.2 ci = Some val)) rows
              | None => rows
              end)
    | None => mret rows
    end;
  mret (match sort with Some (ci, asc) => sort_by (cmp_rows ci asc) rows | None => rows end).

Definition fresh (table : bytes) (filter : option (bytes * Value.t)) (sort : option (nat * bool)) (generation : Z)
    (c : RowCache.t) : bool :=
  str_eqb (RowCache.table c) table && bool_decide (RowCache.filter c = filter) &&
  bool_decide (RowCache.sort c = sort) && (RowCache.generation c =? generation).

Definition cached_rows (table : bytes) (filter : option (bytes * Value.t)) (sort : option (nat * bool)) : M rows_t :=
  generation ← gets (fun a => Store.generation (store a));
  cache ← gets row_cache;
  match cache with
  | Some c =>
      if fresh table filter sort generation c then mret (RowCache.rows c) else
      rs ← rows table filter sort;
      _ ← modify (set_cache (Some (RowCache.mk table filter sort generation rs)));
      mret rs
  | None =>
      rs ← rows table filter sort;
      _ ← modify (set_cache (Some (RowCache.mk table filter sort generation rs)));
      mret rs
  end.

End Machine.
End App.
