(* ===== verification/Screens.v ===== *)
(** * The keys of the screens of data and schema

    [App::dispatch] of [kernel/src/ui.rs], an arm per definition, with the data
    the screens show: the relationships of a row, the columns to pick from, the
    fields of an editor. *)

From stdpp Require Import gmap.
From S2P Require Import Prelude Types Bignum Value Codec Schema Block Journal Pager Store Ps2 UiText Builder App.

Module Screens.
Import Store Text App.

Section Machine.
Context {D H : Type} `{!BlockDevice D, !Hardware H}.

Abbreviation M := (stM (t (D := D) (H := H)) Stop) (only parsing).

(** ** The data of the screens *)

Definition col_names (t : Table.t) : list bytes := Column.name <$> Table.columns t.

(** The label of an outgoing foreign key: its referenced row if it resolves. *)
Definition arrow_label (fk : ForeignKey.t) (table : bytes) (id : RowId.t) : M bytes :=
  let follow := str "→ follow " ++ ForeignKey.name fk ++ str " to " ++ ForeignKey.to_table fk in
  r ← ask_ok (follow_fk table id (ForeignKey.name fk));
  match r with
  | Some (to_table, (_, trow) :: _) =>
      tab ← ask_ok (get_table to_table);
      match tab with
      | Some tab => l ← pure (Table.reference_label tab trow); mret (str "→ " ++ to_table ++ str ": " ++ l)
      | None => mret follow
      end
  | _ => mret follow
  end.

Abbreviation target := (bytes * (bytes * bytes * Value.t))%type (only parsing).

Definition outgoing (t : Table.t) (table : bytes) (id : RowId.t) (row : list cell) (fk : ForeignKey.t) :
    M (list target) :=
  match ci ← Table.column_index t (ForeignKey.from_col fk); cell_at row ci with
  | Some v =>
      label ← arrow_label fk table id;
      mret [(label, (ForeignKey.to_table fk, ForeignKey.to_col fk, v))]
  | None => mret []
  end.

Definition incoming (table : bytes) (id : RowId.t) (ref : bytes * bytes * RowId.t * list cell) :
    M (list target) :=
  let '(tbl, fkname, _, r) := ref in
  ot ← ask_ok (get_table tbl);
  t ← ask_ok (get_table table);
  match ot, t with
  | Some ot, Some _ =>
      match List.find (fun f => str_eqb (ForeignKey.name f) fkname) (Table.fks ot) with
      | Some fk =>
          srow ← ask_ok (get_row table id);
          match srow with
          | Some srow =>
              t ← ask_ok (get_table table);
              match t ← t; tci ← Table.column_index t (ForeignKey.to_col fk); cell_at srow tci with
              | Some v =>
                  l ← pure (Table.reference_label ot r);
                  mret [(str "← " ++ tbl ++ str ": " ++ l, (tbl, ForeignKey.from_col fk, v))]
              | None => mret []
              end
          | None => mret []
          end
      | None => mret []
      end
  | _, _ => mret []
  end.

Definition nav_targets (table : bytes) (id : RowId.t) : M (list target) :=
  t ← ask_ok (get_table table);
  out ← match t with
    | Some t =>
        row ← ask_ok (get_row table id);
        match row with
        | Some row => l ← for_collect (Table.fks t) (outgoing t table id row); mret (concat l)
        | None => mret []
        end
    | None => mret []
    end;
  refs ← ask_ok (referencing_rows table id);
  inc ← for_collect (default [] refs) (incoming table id);
  mret (out ++ concat inc).

Definition fk_field_label (t : Table.t) (table : bytes) (id : RowId.t) (fk : ForeignKey.t) :
    M (list (nat * bytes)) :=
  match Table.column_index t (ForeignKey.from_col fk) with
  | None => mret []
  | Some ci =>
      r ← ask_ok (follow_fk table id (ForeignKey.name fk));
      match r with
      | Some (to_table, (_, trow) :: _) =>
          tab ← ask_ok (get_table to_table);
          match tab with
          | Some tab => l ← pure (Table.reference_label tab trow); mret [(ci, l)]
          | None => mret []
          end
      | _ => mret []
      end
  end.
Definition fk_field_labels (table : bytes) (id : RowId.t) : M (list (nat * bytes)) :=
  t ← ask_ok (get_table table);
  match t with
  | Some t => l ← for_collect (Table.fks t) (fk_field_label t table id); mret (concat l)
  | None => mret []
  end.

Definition pick_columns (table title : bytes) (action : Action) : M Screen :=
  t ← ask_ok (get_table table);
  mret (Pick title (from_option col_names [] t) 0 action).

(** The field of the editor for column [ci]. *)
Definition open_field (existing : option (list cell)) (p : nat * Column.t) : Field.t :=
  let '(ci, c) := p in
  let '(value, is_null) :=
    match r ← existing; r !! ci with
    | Some (Some v) => (Value.display v, false)
    | Some None => ([], true)
    | None => ([], Column.nullable c)
    end in
  Field.mk value is_null (count value).

Definition open_editor (table : bytes) (id : option RowId.t) : M (option Screen) :=
  r ← ask (get_table table);
  match r with
  | inr e => _ ← err e; mret None
  | inl t =>
      existing ← match id with Some i => ask_ok (get_row table i) | None => mret None end;
      mret (Some (EditorScreen (Editor.mk table id (Table.columns t)
        (open_field existing <$> enumerate (Table.columns t)) 0 None)))
  end.

(** ** Keys of the screens of data and schema

    Each arm of [dispatch] returns the screen to put back and what to do to the
    stack.  [sel] is clamped to the list it selects from first. *)

Definition key_in (s : bytes) (c : Z) : bool := existsb (Z.eqb c) s.
Definition clamp_sel (sel n : nat) : nat := Nat.min sel (n - 1).
(** The selection after [Up] or [Down]. *)
Definition step_sel (k : Ps2.Key) (sel n : nat) : nat :=
  match k with
  | Ps2.Up => if (0 <? sel)%nat then (sel - 1)%nat else sel
  | Ps2.Down => if (sel + 1 <? n)%nat then (sel + 1)%nat else sel
  | _ => sel
  end.

Definition of_hw (n : HwNav HwScreen) : Nav :=
  match n with
  | HwStay => NavNone
  | HwPop => NavPop
  | HwPush s => NavPush (HwS s)
  | HwConfirm msg slot label => NavPush (Confirm msg (CreateOs slot label))
  | HwPopToList => NavPopToList
  end.

Definition list_hw (k : Ps2.Key) : M Nav :=
  '(s, st) ← on_hw (hw_open k);
  _ ← match st with Some st => say st | None => mret tt end;
  mret (match s with Some s => NavPush (HwS s) | None => NavNone end).

Definition dispatch_list (sel : nat) (k : Ps2.Key) : M (Screen * Nav) :=
  r ← ask list_tables;
  let tables := unwrap_or [] r in
  let n := length tables in
  let sel := clamp_sel sel n in
  nav ← match k with
    | Ps2.Enter =>
        if (0 <? n)%nat then
          t ← lift (or_panic (tables !! sel));
          mret (NavPush (Browser (TableInfo.name t) 0 0 0 None None))
        else mret NavNone
    | Ps2.Char c =>
        if key_in (str "cC") c then mret (NavPush (Prompt (str "New table name") [] 0 CreateTable))
        else if key_in (str "sS") c then mret (NavPush (Confirm (str "Shut down the computer?") Shutdown))
        else if key_in (str "aA") c then mret (NavPush (About 0))
        else if key_in (str "dDpPnN") c then list_hw k
        else mret NavNone
    | _ => mret NavNone
    end;
  mret (List (step_sel k sel n), nav).

(** The order after [o] on column [col]. *)
Definition cycle_sort (sort : option (nat * bool)) (col : nat) : option (nat * bool) :=
  match sort with
  | Some (c, true) => if (c =? col)%nat then Some (col, false) else Some (col, true)
  | Some (c, false) => if (c =? col)%nat then None else Some (col, true)
  | None => Some (col, true)
  end.
Definition sort_status (sort : option (nat * bool)) : bytes :=
  match sort with
  | Some (_, true) => str "sorted ↑ on current column"
  | Some (_, false) => str "sorted ↓ on current column"
  | None => str "sort cleared"
  end.

Definition browser_order (table : bytes) (row col : nat) (filter : option (bytes * Value.t))
    (sort : option (nat * bool)) : M (nat * option (nat * bool)) :=
  rs ← cached_rows table filter sort;
  let anchor := fst <$> rs !! row in
  let sort := cycle_sort sort col in
  row ← match anchor with
    | Some id =>
        rs ← cached_rows table filter sort;
        mret (default row (position (fun p : RowId.t * list cell => bool_decide (p.1 = id)) rs))
    | None => mret row
    end;
  _ ← say (sort_status sort);
  mret (row, sort).

(** The identifier under the cursor. *)
Definition row_id (table : bytes) (filter : option (bytes * Value.t)) (sort : option (nat * bool)) (row : nat) :
    M RowId.t :=
  rs ← cached_rows table filter sort;
  p ← lift (or_panic (rs !! row));
  mret p.1.

Definition opened (s : option Screen) : Nav := match s with Some s => NavPush s | None => NavNone end.

Definition browser_char (table : bytes) (row col nrows ncols : nat) (filter : option (bytes * Value.t))
    (sort : option (nat * bool)) (c : Z) : M (nat * option (nat * bool) * Nav) :=
  if key_in (str "o") c && (0 <? ncols)%nat then
    '(row, sort) ← browser_order table row col filter sort;
    mret (row, sort, NavNone)
  else if key_in (str "i") c then
    s ← open_editor table None;
    mret (row, sort, opened s)
  else if key_in (str "u") c && (0 <? nrows)%nat then
    id ← row_id table filter sort row;
    s ← open_editor table (Some id);
    mret (row, sort, opened s)
  else if key_in (str "d") c && (0 <? nrows)%nat then
    id ← row_id table filter sort row;
    mret (row, sort,
      NavPush (Confirm (quoted (str "Delete the selected row from") table ++ str "?") (DeleteRow table id)))
  else if key_in (str "s") c then mret (row, sort, NavPush (SchemaScreen table 0))
  else mret (row, sort, NavNone).

(** The first line shown, after the cursor moved. *)
Definition scroll (top row vis : nat) : nat :=
  let top := if (row <? top)%nat then row else top in
  if (top + vis <=? row)%nat then (row + 1 - vis)%nat else top.

Definition browser_row (k : Ps2.Key) (row nrows vis : nat) : nat :=
  match k with
  | Ps2.PageUp => (row - vis)%nat
  | Ps2.PageDown => Nat.min (row + vis) (nrows - 1)
  | _ => step_sel k row nrows
  end.
Definition browser_col (k : Ps2.Key) (col ncols : nat) : nat :=
  match k with
  | Ps2.Left => if (0 <? col)%nat then (col - 1)%nat else col
  | Ps2.Right => if (col + 1 <? ncols)%nat then (col + 1)%nat else col
  | _ => col
  end.

Definition dispatch_browser (table : bytes) (row col top : nat) (filter : option (bytes * Value.t))
    (sort : option (nat * bool)) (k : Ps2.Key) : M (Screen * Nav) :=
  t ← ask_ok (get_table table);
  let ncols := from_option (fun t => length (Table.columns t)) 0%nat t in
  rs ← cached_rows table filter sort;
  let nrows := length rs in
  let row := clamp_sel row nrows in
  let col := clamp_sel col ncols in
  vis ← visible_rows;
  '(row, sort, nav) ← match k with
    | Ps2.Esc => mret (row, sort, NavPop)
    | Ps2.Enter =>
        if (0 <? nrows)%nat then
          id ← row_id table filter sort row;
          mret (row, sort, NavPush (RowView table id 0))
        else mret (row, sort, NavNone)
    | Ps2.Char c => browser_char table row col nrows ncols filter sort c
    | _ => mret (browser_row k row nrows vis, sort, NavNone)
    end;
  mret (Browser table row (browser_col k col ncols) (scroll top row vis) filter sort, nav).

Definition dispatch_rowview (table : bytes) (id : RowId.t) (sel : nat) (k : Ps2.Key) : M (Screen * Nav) :=
  navs ← nav_targets table id;
  let sel := clamp_sel sel (length navs) in
  nav ← match k with
    | Ps2.Esc => mret NavPop
    | Ps2.Enter =>
        if (0 <? length navs)%nat then
          p ← lift (or_panic (navs !! sel));
          let '(_, (tbl, colname, val)) := p in
          mret (NavPush (Browser tbl 0 0 0 (Some (colname, val)) None))
        else mret NavNone
    | _ => mret NavNone
    end;
  mret (RowView table id (step_sel k sel (length navs)), nav).

(** [t.as_ref().unwrap().columns[sel]] *)
Definition sel_col (t : option Table.t) (sel : nat) : M Column.t :=
  t ← lift (or_panic t);
  lift (or_panic (Table.columns t !! sel)).

Definition fmt_width (w : option Z) : bytes := match w with Some w => fmt_u64 w | None => [] end.

Definition move_sel (table : bytes) (t : option Table.t) (sel to : nat) (dir : bytes) : M nat :=
  c ← sel_col t sel;
  r ← ask (move_column table (Column.name c) to);
  match r with
  | inl _ => _ ← say (quoted (str "moved") (Column.name c) ++ dir); mret to
  | inr e => _ ← err e; mret sel
  end.

Definition schema_char (table : bytes) (t : option Table.t) (n sel : nat) (c : Z) : M (nat * Nav) :=
  let has := (0 <? n)%nat in
  if key_in (str "a") c then
    mret (sel, NavPush (Prompt (str "New column name") [] 0 (AddColPickType table [])))
  else if key_in (str "x") c && has then
    col ← sel_col t sel;
    mret (sel, NavPush (Confirm (quoted (str "Drop column") (Column.name col) ++ str "?")
                          (DropColumn table (Column.name col))))
  else if key_in (str "r") c && has then
    col ← sel_col t sel;
    let n := Column.name col in
    mret (sel, NavPush (Prompt (quoted (str "Rename column") n ++ str " to") n (count n) (RenameColumn table n)))
  else if key_in (str "w") c && has then
    col ← sel_col t sel;
    let buf := fmt_width (Column.display_width col) in
    mret (sel, NavPush (Prompt (quoted (str "Browser width for") (Column.name col) ++ str " (blank = default)")
                          buf (count buf) (SetDisplayWidth table (Column.name col))))
  else if key_in (str "u") c && has then
    col ← sel_col t sel;
    _ ← ask_or_err (set_unique table (Column.name col) (negb (Column.unique col)))
          (fun _ => say (str "UNIQUE toggled"));
    mret (sel, NavNone)
  else if key_in (str ",") c && (2 <=? n)%nat && (0 <? sel)%nat then
    sel ← move_sel table t sel (sel - 1) (str " up");
    mret (sel, NavNone)
  else if key_in (str ".") c && (2 <=? n)%nat && (sel + 1 <? n)%nat then
    sel ← move_sel table t sel (sel + 1) (str " down");
    mret (sel, NavNone)
  else if key_in (str "k") c then
    s ← pick_columns table (str "Foreign key: pick source column") (AddFkPickFrom table);
    mret (sel, NavPush s)
  else if key_in (str "K") c then
    let fks := from_option (fun t => ForeignKey.name <$> Table.fks t) [] t in
    mret (sel, match fks with
               | [] => NavNone
               | _ => NavPush (Pick (str "Drop which foreign key?") fks 0 (DropFk table))
               end)
  else if key_in (str "D") c then
    mret (sel, NavPush (Confirm (quoted (str "Drop the WHOLE table") table ++ str " and all its rows?")
                          (DropTable table)))
  else if key_in (str "R") c then
    mret (sel, NavPush (RefCols table (from_option Table.ref_cols [] t) 0))
  else mret (sel, NavNone).

Definition dispatch_schema (table : bytes) (sel : nat) (k : Ps2.Key) : M (Screen * Nav) :=
  t ← ask_ok (get_table table);
  let n := from_option (fun t => length (Table.columns t)) 0%nat t in
  let sel := clamp_sel sel n in
  '(sel, nav) ← match k with
    | Ps2.Esc => mret (sel, NavPop)
    | Ps2.Char c => schema_char table t n sel c
    | _ => mret (step_sel k sel n, NavNone)
    end;
  mret (SchemaScreen table sel, nav).

(** [order.swap(p, q)] on positions of the list. *)
Definition swap {A} (p q : nat) (l : list A) : list A :=
  match l !! p, l !! q with Some x, Some y => <[q := x]> (<[p := y]> l) | _, _ => l end.

(** The label order after a key on the column [name], and whether to commit it. *)
Definition toggle_ref (name : bytes) (order : list bytes) : list bytes :=
  match position (str_eqb name) order with
  | Some p => delete p order
  | None => order ++ [name]
  end.
Definition refcols_key (k : Ps2.Key) (name : option bytes) (order : list bytes) : list bytes * bool :=
  let at_name f := match name with Some n => f n | None => (order, false) end in
  match k with
  | Ps2.Enter => at_name (fun n => (toggle_ref n order, true))
  | Ps2.Char c =>
      if key_in (str " ") c then at_name (fun n => (toggle_ref n order, true))
      else if key_in (str ",") c then at_name (fun n =>
        match position (str_eqb n) order with
        | Some p => if (0 <? p)%nat then (swap p (p - 1) order, true) else (order, false)
        | None => (order, false)
        end)
      else if key_in (str ".") c then at_name (fun n =>
        match position (str_eqb n) order with
        | Some p => if (p + 1 <? length order)%nat then (swap p (p + 1) order, true) else (order, false)
        | None => (order, false)
        end)
      else if key_in (str "c") c then match order with [] => (order, false) | _ => ([], true) end
      else (order, false)
  | _ => (order, false)
  end.

Definition dispatch_refcols (table : bytes) (order : list bytes) (sel : nat) (k : Ps2.Key) : M (Screen * Nav) :=
  t ← ask_ok (get_table table);
  let cols := from_option col_names [] t in
  let n := length cols in
  let sel := if (0 <? n)%nat then Nat.min sel (n - 1) else sel in
  let '(order, commit) := refcols_key k (cols !! sel) order in
  _ ← (if commit then
         ask_or_err (set_reference_columns table order) (fun _ =>
           say (match order with
                | [] => str "reference columns cleared (auto)"
                | _ => str "reference label: " ++ join [32] order
                end))
       else mret tt);
  mret (RefCols table order (step_sel k sel n), match k with Ps2.Esc => NavPop | _ => NavNone end).

(** ** The foreign-key picker *)

(** The nearest editor below. *)
Fixpoint nearest_editor (l : list Screen) : option (nat * Editor.t) :=
  match l with
  | [] => None
  | EditorScreen ed :: _ => Some (0%nat, ed)
  | _ :: l' => match nearest_editor l' with Some (i, ed) => Some (S i, ed) | None => None end
  end.

Definition fill_field (i : nat) (text : bytes) (fs : list Field.t) : list Field.t :=
  <[i := Field.mk text false (count text)]> fs.

Definition fill_editor (field_idx : nat) (text : bytes) : M bool := fun a =>
  match nearest_editor (stack a) with
  | Some (i, ed) =>
      match Editor.fields ed !! field_idx with
      | Some _ =>
          let ed := Editor.with_focus field_idx (Editor.with_error None
                      (Editor.with_fields (fill_field field_idx text (Editor.fields ed)) ed)) in
          (Val true, set_stack (<[i := EditorScreen ed]> (stack a)) a)
      | None => (Val false, a)
      end
  | None => (Val false, a)
  end.

Definition refuse (msg : bytes) : M bool := _ ← say msg; mret false.

Definition fk_select (field_idx : nat) (selected_id : RowId.t) (to_table to_col : bytes) : M bool :=
  t ← ask_ok (get_table to_table);
  match t with
  | None => refuse (quoted (str "could not load") to_table)
  | Some t =>
      match Table.column_index t to_col with
      | None => refuse (quoted (str "column") to_col ++ quoted (str " not found in") to_table)
      | Some col_idx =>
          row ← ask_ok (get_row to_table selected_id);
          match row with
          | None => refuse (str "could not load selected row")
          | Some row =>
              match row !! col_idx with
              | Some (Some v) => fill_editor field_idx (Value.display v)
              | Some None => refuse (str "selected row has NULL in the target column")
              | None => refuse (str "column index out of range")
              end
          end
      end
  end.

Definition fk_pick_move (k : Ps2.Key) (sel top n visible : nat) : nat * nat :=
  match k with
  | Ps2.Up =>
      if (0 <? sel)%nat then
        let sel := (sel - 1)%nat in (sel, if (sel <? top)%nat then sel else top)
      else (sel, top)
  | Ps2.Down =>
      if (sel + 1 <? n)%nat then
        let sel := (sel + 1)%nat in (sel, if (top + visible <=? sel)%nat then (sel - visible + 1)%nat else top)
      else (sel, top)
  | Ps2.PageUp => ((sel - visible)%nat, (top - visible)%nat)
  | Ps2.PageDown => (Nat.min (sel + visible) (n - 1), Nat.min (top + visible) (n - visible))
  | _ => (sel, top)
  end.

Definition dispatch_fk_pick (field_idx : nat) (from_col to_table to_col : bytes) (rows : list (RowId.t * bytes))
    (sel top : nat) (k : Ps2.Key) : M (Screen * Nav) :=
  let n := length rows in
  let sel := if (n <=? sel)%nat then (n - 1)%nat else sel in
  vis ← visible_rows;
  let '(sel', top') := fk_pick_move k sel top n (Nat.max vis 1) in
  nav ← match k with
    | Ps2.Esc => mret NavPop
    | Ps2.Enter =>
        if (0 <? n)%nat then
          p ← lift (or_panic (rows !! sel));
          done ← fk_select field_idx p.1 to_table to_col;
          mret (if done : bool then NavPop else NavNone)
        else mret NavNone
    | _ => mret NavNone
    end;
  mret (FkPick field_idx from_col to_table to_col rows sel' top', nav).

(** [str::lines] *)
Definition without_cr (l : bytes) : bytes :=
  match last l with Some 13 => removelast l | _ => l end.
Fixpoint lines_from (cur s : bytes) : list bytes :=
  match s with
  | [] => match cur with [] => [] | _ => [cur] end
  | b :: s' => if b =? 10 then without_cr cur :: lines_from [] s' else lines_from (cur ++ [b]) s'
  end.
Definition lines (s : bytes) : list bytes := lines_from [] s.

Definition license_lines (text : bytes) : outcome unit (list TextLine) :=
  ls ← map_o (fun src => wrap src 88) (lines text);
  Val ((fun chunk => line chunk Dim) <$> concat ls).
Definition about_lines : outcome unit (list TextLine) :=
  project ← license_lines hw_project_license;
  font ← license_lines hw_font_license;
  Val ([line (str "TablesOS v" ++ hw_version) Accent;
        line (str "A relational table store that boots on bare metal.") Normal;
        line [] Normal;
        line (str "This software and its bundled components, and their licenses, follow.") Dim;
        line [] Normal;
        line (str "================ TablesOS code — MIT License ================") Accent] ++ project ++
       [line [] Normal;
        line (str "================ Bundled font — SIL OFL 1.1 ================") Accent] ++ font).

Definition dispatch_about (top : Z) (k : Ps2.Key) : M (Screen * Nav) :=
  all ← pure about_lines;
  vis ← visible_rows;
  let max_top := saturating_sub (len all) (Z.max (Z.of_nat vis) 1) in
  mret match k with
    | Ps2.Esc => (About top, NavPop)
    | Ps2.Up => (About (saturating_sub top 1), NavNone)
    | Ps2.Down => (About (if top <? max_top then top + 1 else top), NavNone)
    | Ps2.PageUp => (About (saturating_sub top 10), NavNone)
    | Ps2.PageDown => (About (Z.min (top + 10) max_top), NavNone)
    | _ => (About top, NavNone)
    end.

Definition dispatch_hw (s : HwScreen) (k : Ps2.Key) : M (Screen * Nav) :=
  '(s, nav, st) ← on_hw (hw_key s k);
  _ ← match st with Some st => say st | None => mret tt end;
  mret (HwS s, of_hw nav).

Definition dispatch (scr : Screen) (k : Ps2.Key) : M (Screen * Nav) :=
  match scr with
  | List sel => dispatch_list sel k
  | Browser table row col top filter sort => dispatch_browser table row col top filter sort k
  | RowView table id sel => dispatch_rowview table id sel k
  | SchemaScreen table sel => dispatch_schema table sel k
  | RefCols table order sel => dispatch_refcols table order sel k
  | FkPick i from_col to_table to_col rows sel top => dispatch_fk_pick i from_col to_table to_col rows sel top k
  | About top => dispatch_about top k
  | HwS s => dispatch_hw s k
  | Prompt _ _ _ _ | Pick _ _ _ _ | Confirm _ _ | EditorScreen _ | Builder _ => mret (scr, NavNone)
  end.

End Machine.
End Screens.
