(* ===== verification/Ui.v ===== *)
(** * Modals, editors and events

    The rest of [kernel/src/ui.rs] that acts on input: what the prompts, pickers
    and confirmations resolve to, the row editor and the value builder over it,
    and the events of [run]. *)

From stdpp Require Import gmap.
From S2P Require Import Prelude Types Bignum Value Codec Schema Block Journal Pager Store Ps2 UiText Builder App Screens.
From S2P Require Rtc.

Module Ui.
Import Store Text App Screens.

Section Machine.
Context {D H : Type} `{!BlockDevice D, !Hardware H}.

Abbreviation M := (stM (t (D := D) (H := H)) Stop) (only parsing).

(** ** What a modal resolves to *)

(** [char::is_whitespace], and [str::trim]. *)
Definition is_whitespace (c : Z) : bool :=
  ((9 <=? c) && (c <=? 13)) || ((8192 <=? c) && (c <=? 8202)) ||
  existsb (Z.eqb c) [32; 133; 160; 5760; 8232; 8233; 8239; 8287; 12288].
Fixpoint drop_space (cs : list bytes) : list bytes :=
  match cs with
  | c :: cs' => if is_whitespace (decode_utf8 c) then drop_space cs' else cs
  | [] => []
  end.
Definition trim (s : bytes) : bytes := concat (reverse (drop_space (reverse (drop_space (chars s))))).

(** [s.parse::<u32>().ok()] *)
Definition parse_u32 (s : bytes) : option Z :=
  let digits := match s with 43 :: r => r | _ => s end in
  match digits with
  | [] => None
  | _ =>
      if forallb is_ascii_digit digits then
        let v := foldl (fun a d => a * 10 + (d - 48)) 0 digits in
        if v <? 2 ^ 32 then Some v else None
      else None
  end.

(** The width asked for; [None] is not a number, [Some None] clears it. *)
Definition width_of (text : bytes) : option (option Z) :=
  match trim text with
  | [] => Some None
  | t => match parse_u32 t with Some w => Some (Some (Z.max MIN_COL_W (Z.min MAX_COL_W w))) | None => None end
  end.

Definition resolve_prompt (action : Action) (text : bytes) : M unit :=
  match action with
  | CreateTable =>
      ask_or_err (create_table text) (fun _ =>
        _ ← say (quoted (str "created table") text);
        push (SchemaScreen text 0))
  | AddColPickType table _ =>
      match text with
      | [] => say (str "column name required")
      | _ => push (Pick (quoted (str "Type for column") text) (Ty.name <$> Ty.ALL) 0 (AddColPickType table text))
      end
  | RenameColumn table old =>
      match text with
      | [] => say (str "column name required")
      | _ => ask_or_err (rename_column table old text) (fun _ =>
               say (quoted (str "renamed") old ++ quoted (str " to") text))
      end
  | SetDisplayWidth table col =>
      match width_of text with
      | None => say (str "width must be a whole number (blank to clear)")
      | Some width => ask_or_err (set_display_width table col width) (fun _ =>
          say (str "'" ++ col ++ match width with
                                 | Some w => str "' browser width set to " ++ fmt_u64 w
                                 | None => str "' browser width reset to default"
                                 end))
      end
  | _ => mret tt
  end.

Definition resolve_pick (action : Action) (choice : bytes) : M unit :=
  match action with
  | AddColPickType table name =>
      let ty := default Ty.String (Ty.from_name choice) in
      ask_or_err (add_column table (Column.mk name ty true false None)) (fun _ =>
        say (str "column added (nullable)"))
  | AddFkPickFrom table =>
      r ← ask list_tables;
      push (Pick (str "Foreign key: target table") (TableInfo.name <$> unwrap_or [] r) 0
              (AddFkPickToTable table choice))
  | AddFkPickToTable table from_col =>
      t ← ask_ok (get_table choice);
      let cols := from_option (fun t => Column.name <$> List.filter Column.unique (Table.columns t)) [] t in
      match cols with
      | [] => say (str "'" ++ choice ++ str "' has no UNIQUE column to target")
      | _ => push (Pick (quoted (str "UNIQUE column in") choice) cols 0 (AddFkPickToCol table from_col choice))
      end
  | AddFkPickToCol table from_col to_table =>
      ask_or_err (add_fk table from_col to_table choice) (fun _ => say (str "foreign key added"))
  | DropFk table => ask_or_err (drop_fk table choice) (fun _ => say (str "foreign key dropped"))
  | _ => mret tt
  end.

Definition resolve_confirm (action : Action) : M unit :=
  match action with
  | Shutdown => lift (Fail PowerOff)
  | DeleteRow t id => ask_or_err (delete_row t id) (fun _ => say (str "row deleted"))
  | DropTable t =>
      ask_or_err (drop_table t) (fun _ => _ ← say (quoted (str "dropped table") t); pop_to_list)
  | DropColumn t c => ask_or_err (drop_column t c) (fun _ => say (quoted (str "dropped column") c))
  | CreateOs slot label =>
      _ ← say (str "installing fresh TablesOS onto " ++ label ++ str " …");
      lba ← gets data_lba;
      guid ← gets booted_sys_guid;
      '(report, st) ← on_hw (hw_install slot lba guid);
      _ ← say st;
      _ ← pop_to_list;
      push (HwS report)
  | _ => mret tt
  end.

(** ** The modals *)

Definition key_prompt (k : Ps2.Key) (title buf : bytes) (caret : Z) (action : Action) : M unit :=
  let edit (o : outcome unit (bytes * Z)) : M unit :=
    '(buf, caret) ← pure o; put_top (Prompt title buf caret action) in
  match k with
  | Ps2.Esc => pop
  | Ps2.Left => edit (Val (buf, ce_left buf caret))
  | Ps2.Right => edit (c ← ce_right buf caret; Val (buf, c))
  | Ps2.Home => edit (Val (buf, 0))
  | Ps2.End_ => edit (Val (buf, count buf))
  | Ps2.Backspace => edit (ce_backspace buf caret)
  | Ps2.Delete => edit (ce_delete buf caret)
  | Ps2.Char c => edit (ce_insert buf caret c)
  | Ps2.Enter => _ ← pop; resolve_prompt action buf
  | _ => mret tt
  end.

Definition key_pick (k : Ps2.Key) (title : bytes) (options : list bytes) (sel : nat) (action : Action) : M unit :=
  match k with
  | Ps2.Esc => pop
  | Ps2.Enter =>
      if (0 <? length options)%nat then
        choice ← lift (or_panic (options !! sel));
        _ ← pop;
        resolve_pick action choice
      else mret tt
  | _ => put_top (Pick title options (step_sel k sel (length options)) action)
  end.

Definition key_confirm (k : Ps2.Key) (action : Action) : M unit :=
  match k with
  | Ps2.Enter => _ ← pop; resolve_confirm action
  | Ps2.Esc => pop
  | _ => mret tt
  end.

(** ** The value builder *)

(** [iter().max()]: the last of the greatest. *)
Definition max_value (l : list Value.t) : option Value.t :=
  match l with
  | [] => None
  | v :: l' => Some (foldl (fun m v => match Value.cmp m v with Gt => m | _ => v end) v l')
  end.

Definition next_unique_value (table : bytes) (col : nat) (ty : Ty.t) : M (option bytes) :=
  if negb (bool_decide (ty = Ty.Integer)) && negb (bool_decide (ty = Ty.UnsignedInteger)) then mret None else
  rows ← ask_ok (scan table);
  mret (rows ← rows;
        Some match max_value (omap (fun p : RowId.t * list cell => cell_at p.2 col) rows) with
             | Some (Value.Unsigned u) => Value.display (Value.Unsigned (BigUint.succ u))
             | Some (Value.Integer i) => Value.display (Value.Integer (BigInt.succ i))
             | _ => str "1"
             end).

Definition open_fk_picker (field_idx : nat) (from_col to_table to_col : bytes) : M unit :=
  ask_or_err (scan to_table) (fun rows =>
  ask_or_err (get_table to_table) (fun schema =>
    fk_rows ← for_collect rows (fun '(id, row) => l ← pure (Table.reference_label schema row); mret (id, l));
    match fk_rows with
    | [] => say (quoted (str "no rows in") to_table ++ str " to pick from")
    | _ => push (FkPick field_idx from_col to_table to_col fk_rows 0 0)
    end)).

(** The builder of field [fi], seeded from its text. *)
Definition seeded (fi : nat) (c : Column.t) (f : Field.t) : outcome unit FieldBuilder.t :=
  let b := FieldBuilder.new fi (Column.name c) (Column.ty c) in
  if negb (Field.is_null f) && negb (str_eqb (Field.value f) []) then
    match Value.parse (Column.ty c) (Field.value f) with
    | Val v => Val (FieldBuilder.load_from v b)
    | Fail _ => Val b
    | Panic => Panic
    | NoFuel => NoFuel
    end
  else Val b.

Definition open_builder (ed : Editor.t) (fi : nat) : M unit :=
  c ← lift (or_panic (Editor.cols ed !! fi));
  t ← ask_ok (get_table (Editor.table ed));
  match t ← t; List.find (fun fk => str_eqb (ForeignKey.from_col fk) (Column.name c)) (Table.fks t) with
  | Some fk => open_fk_picker fi (Column.name c) (ForeignKey.to_table fk) (ForeignKey.to_col fk)
  | None =>
      f ← lift (or_panic (Editor.fields ed !! fi));
      b ← pure (seeded fi c f);
      b ← (if bool_decide (Editor.id ed = None) && Column.unique c then
             n ← next_unique_value (Editor.table ed) fi (Column.ty c);
             mret (FieldBuilder.with_next n b)
           else mret b);
      push (Builder b)
  end.

(** [rtc::now()] *)
Definition rtc_now : M (option Rtc.Rtc.t) := fun a =>
  let '(o, h) := Rtc.Rtc.now hw_clock (hw a) in pure o (set_hw h a).

(** The value back in the field of the editor below. *)
Definition set_field (fi : nat) (disp : bytes) (s : Screen) : Screen :=
  match s with
  | EditorScreen ed =>
      let fs := match Editor.fields ed !! fi with
                | Some _ => fill_field fi disp (Editor.fields ed)
                | None => Editor.fields ed
                end in
      EditorScreen (Editor.with_focus fi (Editor.with_error None (Editor.with_fields fs ed)))
  | _ => s
  end.

Definition commit_builder (b : FieldBuilder.t) : M unit :=
  _ ← put_top (List 0);
  match Value.parse (FieldBuilder.ty b) (FieldBuilder.compose b) with
  | Val v =>
      _ ← pop;
      s ← get_top;
      _ ← put_top (set_field (FieldBuilder.field b) (Value.display v) s);
      say (str "value set from fields")
  | Fail e =>
      m ← describe e;
      put_top (Builder (FieldBuilder.with_error (Some m) b))
  | Panic => lift Panic
  | NoFuel => lift NoFuel
  end.

Definition key_builder (k : Ps2.Key) (b : FieldBuilder.t) : M unit :=
  '(b, want) ← pure (FieldBuilder.on_key k b);
  _ ← put_top (Builder b);
  match want with
  | FieldBuilder.Stay => mret tt
  | FieldBuilder.Cancel => pop
  | FieldBuilder.Now =>
      now ← rtc_now;
      match FieldBuilder.fill_now now b with
      | (true, b) =>
          _ ← put_top (Builder (FieldBuilder.with_error None b));
          say (str "filled current date/time")
      | (false, b) =>
          _ ← put_top (Builder b);
          say (str "RTC unavailable — enter the value manually")
      end
  | FieldBuilder.Next =>
      match FieldBuilder.fill_next b with
      | (true, b) =>
          _ ← put_top (Builder (FieldBuilder.with_error None b));
          say (str "filled next unique value (max+1)")
      | (false, b) => put_top (Builder b)
      end
  | FieldBuilder.Commit => commit_builder b
  end.

(** ** The row editor *)

(** The cells of the fields, or the column and the message of the first error. *)
Fixpoint field_cells (cols : list (nat * Column.t)) (fields : list Field.t) : M (list cell + (nat * bytes)) :=
  match cols with
  | [] => mret (inl [])
  | (i, c) :: cols' =>
      f ← lift (or_panic (fields !! i));
      r ← (if Field.is_null f then
             mret (if Column.nullable c then inl None else inr (i, str "NOT NULL"))
           else
             match Value.parse (Column.ty c) (Field.value f) with
             | Val v => mret (inl (Some v))
             | Fail (Parse m) => mret (inr (i, m))
             | Fail e => m ← describe e; mret (inr (i, m))
             | Panic => lift Panic
             | NoFuel => lift NoFuel
             end);
      match r with
      | inr e => mret (inr e)
      | inl v =>
          rest ← field_cells cols' fields;
          mret (match rest with inl vs => inl (v :: vs) | inr e => inr e end)
      end
  end.

Definition save (ed : Editor.t) (cells : list cell) : M (unit + StoreError) :=
  match Editor.id ed with
  | Some id => ask (update (Editor.table ed) id cells)
  | None => r ← ask (insert (Editor.table ed) cells);
            mret (match r with inl _ => inl tt | inr e => inr e end)
  end.

Definition commit_editor (ed : Editor.t) : M unit :=
  _ ← put_top (List 0);
  let ed := Editor.with_error None ed in
  r ← field_cells (enumerate (Editor.cols ed)) (Editor.fields ed);
  match r with
  | inr e => put_top (EditorScreen (Editor.with_error (Some e) ed))
  | inl cells =>
      res ← save ed cells;
      match res with
      | inl _ => _ ← say (str "saved"); pop
      | inr e =>
          t ← ask_ok (get_table (Editor.table ed));
          let idx := column_for_error (Editor.cols ed) (from_option Table.fks [] t) e in
          m ← describe e;
          put_top (EditorScreen (Editor.with_error (Some (idx, m)) ed))
      end
  end.

(** A key that edits the focused field. *)
Definition on_field (f : Field.t -> outcome unit Field.t) (ed : Editor.t) : outcome unit Editor.t :=
  if (Editor.focus ed <? length (Editor.cols ed))%nat then
    x ← or_panic (Editor.fields ed !! Editor.focus ed);
    x' ← f x;
    Val (Editor.with_fields (<[Editor.focus ed := x']> (Editor.fields ed)) ed)
  else Val ed.
Definition move_caret (f : bytes -> Z -> outcome unit Z) (x : Field.t) : outcome unit Field.t :=
  c ← f (Field.value x) (Field.caret x);
  Val (Field.mk (Field.value x) (Field.is_null x) c).
(** An edit of the text makes the field not NULL. *)
Definition edit_text (f : bytes -> Z -> outcome unit (bytes * Z)) (x : Field.t) : outcome unit Field.t :=
  '(v, c) ← f (Field.value x) (Field.caret x);
  Val (Field.mk v false c).
Definition toggle_null (x : Field.t) : outcome unit Field.t :=
  Val (Field.mk (Field.value x) (negb (Field.is_null x)) (Field.caret x)).

Definition edit_key (k : Ps2.Key) (ed : Editor.t) : outcome unit Editor.t :=
  let nf := length (Editor.cols ed) in
  let focus := Editor.focus ed in
  match k with
  | Ps2.Tab | Ps2.Down => Val (Editor.with_focus ((focus + 1) mod (nf + 2))%nat ed)
  | Ps2.Up => Val (Editor.with_focus ((focus + nf + 1) mod (nf + 2))%nat ed)
  | Ps2.Left => on_field (move_caret (fun t i => Val (ce_left t i))) ed
  | Ps2.Right => on_field (move_caret ce_right) ed
  | Ps2.Home => on_field (move_caret (fun _ _ => Val 0)) ed
  | Ps2.End_ => on_field (move_caret (fun t _ => Val (count t))) ed
  | Ps2.Delete =>
      match Editor.cols ed !! focus with
      | Some c => if Column.nullable c then on_field toggle_null ed else Val ed
      | None => Val ed
      end
  | Ps2.Backspace => on_field (edit_text ce_backspace) ed
  | Ps2.Char c => on_field (edit_text (fun t i => ce_insert t i c)) ed
  | _ => Val ed
  end.

Definition key_editor (k : Ps2.Key) (ed : Editor.t) : M unit :=
  let nf := length (Editor.cols ed) in
  match k with
  | Ps2.Esc => pop
  | Ps2.PageDown => if (Editor.focus ed <? nf)%nat then open_builder ed (Editor.focus ed) else mret tt
  | Ps2.Enter => if (Editor.focus ed =? nf + 1)%nat then pop else commit_editor ed
  | _ => ed ← pure (edit_key k ed); put_top (EditorScreen ed)
  end.

(** ** Keys and the mouse *)

Definition navigate (nav : Nav) : M unit :=
  match nav with
  | NavNone => mret tt
  | NavPush s => push s
  | NavPop => _ ← say []; pop
  | NavPopToList => _ ← say []; pop_to_list
  end.

Definition on_key (k : Ps2.Key) : M unit :=
  scr ← get_top;
  match scr with
  | Prompt title buf caret action => key_prompt k title buf caret action
  | Pick title options sel action => key_pick k title options sel action
  | Confirm _ action => key_confirm k action
  | EditorScreen ed => key_editor k ed
  | Builder b => key_builder k b
  | _ =>
      _ ← put_top (List 0);
      '(restored, nav) ← dispatch scr k;
      _ ← put_top restored;
      navigate nav
  end.

(** The selection of a screen moved to item [i]. *)
Definition with_sel (i : nat) (s : Screen) : Screen :=
  match s with
  | List _ => List i
  | Browser table _ col top filter sort => Browser table i col top filter sort
  | RowView table id _ => RowView table id i
  | SchemaScreen table _ => SchemaScreen table i
  | RefCols table order _ => RefCols table order i
  | Pick title options _ action => Pick title options i action
  | FkPick fi from_col to_table to_col rows _ top => FkPick fi from_col to_table to_col rows i top
  | EditorScreen ed => EditorScreen (Editor.with_focus i ed)
  | Builder b => Builder (FieldBuilder.with_focus (Z.of_nat i) b)
  | HwS s => HwS (hw_cursor i s)
  | Prompt _ _ _ _ | Confirm _ _ | About _ => s
  end.
Definition set_cursor (i : nat) : M unit := s ← get_top; put_top (with_sel i s).

Definition on_click (x y : Z) : M unit :=
  if y <? BODY_TOP then mret tt else
  a ← gets hitmap;
  match nth_z a ((y - BODY_TOP) / CELL_H) with
  | None => mret tt
  | Some r =>
      match cr_hit r with
      | HNone => mret tt
      | Focus i => set_cursor (Z.to_nat i)
      | Activate i => _ ← set_cursor (Z.to_nat i); on_key Ps2.Enter
      | Shortcuts =>
          if BODY_X <=? x then
            match shortcut_at (cr_text r) ((x - BODY_X) / CELL_W) with
            | Some k => on_key k
            | None => mret tt
            end
          else mret tt
      end
  end.

Definition on_right_click : M unit := on_key Ps2.Esc.

(** Where the blinking caret runs. *)
Definition has_text_cursor (a : t (D := D) (H := H)) : bool :=
  match stack a with
  | EditorScreen ed :: _ => (Editor.focus ed <? length (Editor.cols ed))%nat
  | Builder b :: _ => FieldBuilder.focus b <? FieldBuilder.nf b
  | Prompt _ _ _ _ :: _ => true
  | _ => false
  end.

(** An event of the input queue, as the loop of [run] applies it. *)
Definition on_event (e : Ps2.Event) : M unit :=
  match e with
  | Ps2.MouseMove _ _ => mret tt
  | Ps2.Click x y => on_click x y
  | Ps2.RightClick => on_right_click
  | Ps2.KeyEvent k => on_key k
  end.

(** The application [run] starts. *)
Definition boot (p : Pager.t D) (guid : bytes) (lba : Z) (h : H) : t :=
  mk_app p [List 0] (str "TablesOS ready") guid lba [] None h.

End Machine.
End Ui.
