(* ===== verification/UiTheorems.v ===== *)
(** * What the user interface guarantees

    The text inputs are an editor with a caret, the hint bars reflow without
    losing a hint, and the value builder is faithful to the value it edits. *)

From stdpp Require Import gmap.
From S2P Require Import Prelude Types Bignum Value ValueFacts Codec Schema Block Journal Pager Store Ps2 UiText.
From S2P Require Import UiTextFacts Builder BuilderFacts App Screens Ui.
From S2P Require Rtc.
Import Text FieldBuilder.

(** ** Text *)

(** C36: the text inputs are a zipper.  Any sequence of caret keys, insertions
    of scalar values and deletions on a valid text with its caret within it
    runs without aborting and does what the same edits do to the pair of the
    characters before and after the caret: in particular the byte offsets never
    leave a character boundary, and the text stays valid UTF-8. *)
Theorem text_editing_is_zipper es t c :
  Forall edit_ok es -> caret_ok (t, c) -> count t + len es < 2 ^ 64 - 1 ->
  exists z, z = foldl (fun z e => zip_edit e z) (unzip (t, c)) es /\
    run_edits es (t, c) = Val (flat z) /\ caret_ok (flat z).
Proof.
  intros He Hc Hl. destruct (unzip_ok (t, c) Hc) as [Hz E].
  assert (Hn : count t = len (before (unzip (t, c))) + len (after (unzip (t, c)))).
  { pose proof (f_equal fst E) as E1. unfold flat in E1. cbn [fst] in E1. rewrite <- E1 at 1.
    rewrite chars_count_pieces by exact Hz. rewrite length_app. lia. }
  destruct (run_edits_zip es (unzip (t, c)) He Hz) as [E' Hz']; [lia|].
  eexists. split; [done|]. rewrite <- E at 1. split; [done|by apply flat_ok].
Qed.

(** Typing over the middle of a word with an accent in it. *)
Lemma text_editing_is_zipper_witness :
  exists z, run_edits [ELeft; EBackspace; EInsert 233; ERight; EInsert 33] (str "cafés", 5) = Val (flat z) /\
    flat z = (str "cafés!", 6) /\ caret_ok (flat z).
Proof.
  destruct (text_editing_is_zipper [ELeft; EBackspace; EInsert 233; ERight; EInsert 33] (str "cafés") 5)
    as (z & -> & E & Hc).
  - by repeat constructor.
  - split; [reflexivity|]. by split.
  - reflexivity.
  - eexists. split; [exact E|]. by split; [reflexivity|].
Defined.

(** Reflowing a frame to the columns of the screen moves its lines and
    never edits them: every body line keeps its kind, its click target and,
    unless it is a hint bar, its text; highlights and the caret follow their
    line; and every bar of the result fits the columns or is one hint that is
    wider than the screen by itself. *)
Theorem hint_bars_reflow f m : m <> 0 -> Forall (fun l => utf8_valid (text l) = true) (body f) ->
  (exists sh, tracks sh f (wrap_shortcut_bars f m)) /\ bars_fit m (wrap_shortcut_bars f m).
Proof. intros Hm Hv. split; [apply wrap_bars_spec|by apply wrap_bars_fit]. Qed.

Definition sample_frame : Frame :=
  mk_frame (str "Browser") (0, 0, 0)
    [with_hit Shortcuts (line (str "[Enter] row  [i]nsert  [Esc] back") Dim); line (str "id  name") Accent]
    [] [(1, 0, 4, (0, 0, 0))] (Some (1, 2)).

Lemma hint_bars_reflow_witness :
  text <$> body (wrap_shortcut_bars sample_frame 24) =
    [str "[Enter] row  [i]nsert"; str "[Esc] back"; str "id  name"] /\
  (exists sh, tracks sh sample_frame (wrap_shortcut_bars sample_frame 24)) /\
  bars_fit 24 (wrap_shortcut_bars sample_frame 24).
Proof.
  split; [reflexivity|]. apply (hint_bars_reflow sample_frame 24); [done|]. by repeat constructor.
Defined.

(** A hint bar is packed into the fewest lines: its options, in order,
    never broken, two spaces apart, each line within the columns unless it is a
    single option; no other such packing has fewer lines. *)
Theorem wrap_options_fewest s m : utf8_valid s = true -> split_options s <> [] ->
  exists gs, wrap_options s m = map join2 gs /\ concat gs = split_options s /\ Forall (fits m) gs /\
    forall gs', concat gs' = split_options s -> Forall (fits m) gs' -> (length gs <= length gs')%nat.
Proof. apply wrap_options_spec. Qed.

Lemma wrap_options_fewest_witness :
  wrap_options (str "[a] one  [b] two three  [c] four") 20 =
    [str "[a] one"; str "[b] two three"; str "[c] four"] /\
  exists gs, wrap_options (str "[a] one  [b] two three  [c] four") 20 = map join2 gs /\
    concat gs = [str "[a] one"; str "[b] two three"; str "[c] four"] /\ Forall (fits 20) gs /\
    forall gs', concat gs' = [str "[a] one"; str "[b] two three"; str "[c] four"] -> Forall (fits 20) gs' ->
      (length gs <= length gs')%nat.
Proof.
  split; [reflexivity|]. by apply (wrap_options_fewest (str "[a] one  [b] two three  [c] four") 20).
Defined.

(** A click on a hint bar fires the key of the hint under the pointer: the
    hint whose bracket, token or word covers the column, for any bar made of
    hints apart by spaces; a column that no hint covers fires nothing. *)
Theorem click_fires_hint s hs cc : bar (chars s) hs -> shortcut_at s cc = hint_at hs 0 cc.
Proof. apply shortcut_at_bar. Qed.

Definition char_list (s : bytes) : list bytes := chars s.

Lemma click_fires_hint_witness :
  let hs := [mk_hint [] (char_list (str "i")) (char_list (str "nsert"));
             mk_hint [space; space] (char_list (str "Esc")) []] in
  shortcut_at (str "[i]nsert  [Esc] back") 11 = Some Ps2.Esc /\
  shortcut_at (str "[i]nsert  [Esc] back") 11 = hint_at hs 0 11.
Proof.
  intros hs. split; [reflexivity|]. apply (click_fires_hint (str "[i]nsert  [Esc] back") hs 11).
  apply (bar_hint (mk_hint [] (char_list (str "i")) (char_list (str "nsert")))
    (char_list (str "  [Esc] back")) [mk_hint [space; space] (char_list (str "Esc")) []]); [| |by right].
  { split_and!; by apply (bool_decide_unpack _). }
  apply (bar_hint (mk_hint [space; space] (char_list (str "Esc")) []) (char_list (str " back")) []); [| |by right].
  { split_and!; by apply (bool_decide_unpack _). }
  constructor. by apply (bool_decide_unpack _).
Defined.

(** ** The value builder *)

(** C37: the builder is faithful to every type: the parts of a value compose to
    a text that parses back to that very value. *)
Theorem builder_roundtrip i n v : ValueFacts.wf v ->
  Value.parse (Value.type_of v) (compose (load_from v (new i n (Value.type_of v)))) = Val v.
Proof.
  intros Hv. apply ValueFacts.value_parse_text; [done|].
  by apply compose_load; [apply new_shaped|..].
Qed.

(** The ides of March of 44 before our era, west of Greenwich. *)
Definition moment : Value.t :=
  Value.DateTimeTz (Date.mk (BigInt.from_parts true (BigUint.mk [4; 4])) 3 15)
    (TimeOfDay.mk (11 * 3600 + 5 * 60 + 9) [2; 5]) (- 210).

Lemma moment_wf : ValueFacts.wf moment.
Proof.
  by apply (ValueFacts.parse_spec Ty.DateTimeTz (str "-44-03-15T11:05:09.25-03:30") moment).
Qed.

Lemma builder_roundtrip_witness :
  compose (load_from moment (new 0 (str "at") Ty.DateTimeTz)) = str "-44-03-15T11:05:09.25-03:30" /\
  Value.parse Ty.DateTimeTz (compose (load_from moment (new 0 (str "at") Ty.DateTimeTz))) = Val moment.
Proof. split; [reflexivity|]. apply (builder_roundtrip 0 (str "at") moment), moment_wf. Defined.

(** The two fills of the builder.  With a clock that shows a moment of the
    calendar, [fill_now] on a date or time type composes to the text of that
    moment (midnight offset, no fraction); with a next key ready, [fill_next]
    composes to exactly that key.  Whatever was typed before is gone. *)
Theorem builder_fills b : shaped b ->
  (forall y c, has_now b = true -> sane y c ->
     exists v, clock_value (ty b) y c = Some v /\ (fill_now (Some c) b).1 = true /\
       Value.parse (ty b) (compose (fill_now (Some c) b).2) = Val v) /\
  (forall v, next_value b = Some (Value.display v) -> is_key v -> ValueFacts.wf v -> ty b = Value.type_of v ->
     (fill_next b).1 = true /\ Value.parse (ty b) (compose (fill_next b).2) = Val v).
Proof.
  intros Hb. split.
  - intros y c Hn Hs. destruct (compose_now b y c Hb Hn Hs) as (v & Hv & H1 & Ht).
    destruct (clock_value_wf _ _ _ _ Hs Hv) as [Hw Ety]. exists v. split_and!; [done..|].
    rewrite <- Ety. by apply ValueFacts.value_parse_text.
  - intros v Hn Hk Hw Ety. destruct (compose_next b v Hb Ety Hk Hw Hn) as [H1 ->]. split; [done|].
    rewrite Ety. by apply ValueFacts.value_parse_text; [|apply ValueFacts.value_display_text].
Qed.

Lemma builder_fills_witness :
  let b := new 0 (str "day") Ty.Date in
  let c := Rtc.Rtc.mk 2024 2 29 23 59 58 in
  exists v, clock_value Ty.Date (BigUint.mk [2; 0; 2; 4]) c = Some v /\ (fill_now (Some c) b).1 = true /\
    Value.parse Ty.Date (compose (fill_now (Some c) b).2) = Val v.
Proof.
  intros b c. destruct (builder_fills b (new_shaped _ _ _)) as [H _].
  apply (H (BigUint.mk [2; 0; 2; 4]) c); [reflexivity|]. split; [|split| | |]; cbn; try lia.
  - split; [|by split]. split; [repeat constructor; unfold is_digit; lia|done].
  - split; [|done]. split; [repeat constructor; unfold is_digit; lia|done].
  - split; [lia|]. by split.
Defined.
