(* ===== verification/UiFacts.v ===== *)
(** * The user interface over the store

    A weakest precondition for the handlers of the interface, and what a read
    or an operation of the store is to them. *)

From stdpp Require Import gmap.
From S2P Require Import Prelude Types Bignum Value ValueFacts Codec Schema Block Journal JournalFacts.
From S2P Require Import Pager PagerFacts Store Database Integrity Edits StoreFacts Heap Refinement.
From S2P Require Import Navigation Transactions Operations StoreRuns EditRefine StoreApi.
From S2P Require Import Ps2 UiText UiTextFacts Builder BuilderFacts App Screens Ui.
Import Store Text App Screens.

(** ** What a store at rest tells *)

Section Resting.
Context {D : Type} `{!BlockDevice D, !DeviceLaws D}.

Lemma holds_generation n m (P : Pager.t D) g d : holds n m P g d -> Store.generation P = g.
Proof.
  intros (v & σ & L & _ & Htx & _ & (fl & ext & Hat) & _ & Hg). unfold Store.generation.
  by rewrite (tx_sb _ _ _ _ Htx), (hp_gen _ _ _ _ _ Hat).
Qed.

(** What is stored fits its encodings. *)
Lemma holds_fits n m (P : Pager.t D) g d : holds n m P g d -> EditRefine.fits d.
Proof.
  intros (v & σ & L & _ & _ & _ & _ & Hr & _) i t Ht.
  destruct (repr_table _ _ _ _ _ Hr Ht) as (x & _ & Hxt). split; [apply (tr_table _ _ _ Hxt)|].
  intros id r Hin. destruct (proj1 (list_elem_of_lookup _ _) Hin) as [k Hk].
  destruct (Forall2_lookup_r _ _ _ _ _ (table_rows_repr _ _ _ Hxt) Hk) as ([id' h] & _ & _ & Hs).
  apply Hs.
Qed.

End Resting.

(** ** The rows of the browser *)

Definition spec_rows (d : database) (table : bytes) (filter : option (bytes * Value.t)) (sort : option (nat * bool)) :
    list (RowId.t * row) :=
  let rows := match spec_scan d table with Val l => l | _ => [] end in
  let rows := match filter with
    | Some (col, val) =>
        match spec_get_table d table with
        | Val t => match Table.column_index t col with
                   | Some ci => List.filter (fun p : RowId.t * row => bool_decide (cell_at p.2 ci = Some val)) rows
                   | None => rows
                   end
        | _ => rows
        end
    | None => rows
    end in
  match sort with Some (ci, asc) => sort_by (cmp_rows ci asc) rows | None => rows end.

(** The cached list is of this generation and right, or of an older one. *)
Definition cache_ok (g : Z) (d : database) (c : option RowCache.t) : Prop :=
  match c with
  | Some c => RowCache.generation c <= g /\
      (RowCache.generation c = g ->
       RowCache.rows c = spec_rows d (RowCache.table c) (RowCache.filter c) (RowCache.sort c))
  | None => True
  end.

(** ** Handlers *)

Section Wp.
Context {D H : Type} `{!BlockDevice D, !DeviceLaws D, !Hardware H}.
Abbreviation app := (App.t (D := D) (H := H)) (only parsing).
Abbreviation M := (stM app Stop) (only parsing).
Implicit Types (a : app).

(** The handler returns, with [Q]. *)
Definition wpu {A} (c : M A) (Q : A -> app -> Prop) a : Prop :=
  match c a with (Val x, a') => Q x a' | _ => False end.

Lemma wpu_ret {A} (x : A) Q a : Q x a -> wpu (mret x) Q a.
Proof. done. Qed.
Lemma wpu_bind {A B} (c : M A) (f : A -> M B) Q a : wpu c (fun x => wpu (f x) Q) a -> wpu (c ≫= f) Q a.
Proof. unfold wpu, mbind, stM_bind. by destruct (c a) as [[] ?]. Qed.
Lemma wpu_conseq {A} (c : M A) (Q Q' : A -> app -> Prop) a :
  wpu c Q' a -> (forall x a', Q' x a' -> Q x a') -> wpu c Q a.
Proof. unfold wpu. destruct (c a) as [[] ?]; auto. Qed.
Lemma wpu_val {A} (c : M A) Q a : wpu c Q a -> exists x a', c a = (Val x, a') /\ Q x a'.
Proof. unfold wpu. destruct (c a) as [[] ?]; try done. eauto. Qed.
Lemma wpu_lift {A} (o : outcome Stop A) x Q a : o = Val x -> Q x a -> wpu (lift o) Q a.
Proof. by intros ->. Qed.
Lemma wpu_pure {A} (o : outcome unit A) x Q a : o = Val x -> Q x a -> wpu (pure o) Q a.
Proof. by intros ->. Qed.

Lemma wpu_collect {A B} (f : A -> M B) (I : app -> Prop) (R : A -> B -> Prop) l (Q : list B -> app -> Prop) :
  forall a, I a -> (forall x a, x ∈ l -> I a -> wpu (f x) (fun y a' => R x y /\ I a') a) ->
  (forall ys a', Forall2 R l ys -> I a' -> Q ys a') -> wpu (for_collect l f) Q a.
Proof.
  revert Q. induction l as [|x l IH]; intros Q a Ha Hf HQ.
  { apply wpu_ret, HQ; [constructor|done]. }
  cbn. apply wpu_bind. eapply wpu_conseq; [apply Hf; [left|done]|]. intros y a1 [Hxy H1].
  apply wpu_bind. apply IH; [done|intros; apply Hf; [by right|done]|]. intros ys a2 Hys H2.
  apply wpu_ret, HQ; [by constructor|done].
Qed.

(** The text by which an error is told. *)
Definition describes (e : StoreError) (b : bytes) : Prop := exists a a' : app, describe e a = (Val b, a').

(** An application over a store at rest, with what it has cached, and its stack. *)
Record still (n : Z) (m : medium) (g : Z) (d : database) (stk : list Screen) a : Prop := {
  st_holds : holds n m (store a) g d;
  st_integrity : integrity d;
  st_cache : cache_ok g d (row_cache a);
  st_stack : stack a = stk
}.

Lemma still_set_store n m g d stk a P : still n m g d stk a -> holds n m P g d -> still n m g d stk (set_store P a).
Proof. by intros [? ? ? ?]. Qed.
Lemma still_set_stack n m g d stk stk' a : still n m g d stk a -> still n m g d stk' (set_stack stk' a).
Proof. by intros [? ? ? ?]. Qed.
Lemma still_set_status n m g d stk s a : still n m g d stk a -> still n m g d stk (set_status s a).
Proof. by intros [? ? ? ?]. Qed.
Lemma still_set_hw n m g d stk h a : still n m g d stk a -> still n m g d stk (set_hw h a).
Proof. by intros [? ? ? ?]. Qed.
Lemma still_stack n m g d stk a : still n m g d stk a -> still n m g d (stack a) a.
Proof. intros [? ? ? ?]. by split. Qed.

Section Still.
Context (n : Z) (m : medium) (g : Z) (d : database) (stk : list Screen).
Abbreviation still := (still n m g d stk).

Lemma wpu_say s (Q : unit -> app -> Prop) a : still a -> (forall a', still a' -> Q tt a') -> wpu (say s) Q a.
Proof. intros Ha HQ. apply HQ. by apply still_set_status. Qed.

Lemma wpu_on_hw {A} (f : H -> A * H) (Q : A -> app -> Prop) a : still a -> (forall x a', still a' -> Q x a') ->
  wpu (on_hw f) Q a.
Proof. intros Ha HQ. unfold wpu, on_hw. destruct (f (hw a)). apply HQ. by apply still_set_hw. Qed.

Lemma wpu_describe e (Q : bytes -> app -> Prop) a : still a -> (forall b a', still a' -> describes e b -> Q b a') ->
  wpu (describe e) Q a.
Proof.
  intros Ha HQ. assert (Hd : wpu (describe e) (fun b a' => still a' /\ describe e a = (Val b, a')) a).
  { destruct e; try done. unfold wpu. cbn. unfold mbind, stM_bind, on_hw. destruct (hw_msc_error (hw a)).
    split; [by apply still_set_hw|done]. }
  eapply wpu_conseq; [exact Hd|]. intros b a' [Ha' E]. apply HQ; [done|]. by exists a, a'.
Qed.

Lemma wpu_err e (Q : unit -> app -> Prop) a : still a -> (forall a', still a' -> describes e (status a') -> Q tt a') ->
  wpu (err e) Q a.
Proof.
  intros Ha HQ. apply wpu_bind, wpu_describe; [done|]. intros b a' Ha' Hb. apply HQ; [|done].
  by apply still_set_status.
Qed.

Lemma wpu_visible_rows (Q : nat -> app -> Prop) a : still a -> (forall k, Q k a) -> wpu visible_rows Q a.
Proof. intros Ha HQ. unfold visible_rows. apply wpu_bind. apply HQ. Qed.

Lemma wpu_get_top s rest (Q : Screen -> app -> Prop) a : still a -> stk = s :: rest -> Q s a -> wpu get_top Q a.
Proof. intros [_ _ _ E] -> HQ. unfold wpu, get_top. by rewrite E. Qed.

(** What a read answers. *)
Definition answered {A} (r : Result A) : A + StoreError :=
  match r with Val x => inl x | Fail e => inr e | _ => inr Io end.

Context (Hl : ~ may_lose (D:=D)).

Lemma wpu_ask_read {A} (c : stM (Pager.t D) StoreError A) r (Q : A + StoreError -> app -> Prop) a : still a ->
  (forall σ L, repr σ L d -> returns n m σ c r) -> no_abort r ->
  (forall a', still a' -> Q (answered r) a') -> wpu (ask c) Q a.
Proof.
  intros Ha Hc [N1 N2] HQ. destruct (read_powered n m (store a) g d c r Hl) as (P' & E & Hh); [apply Ha|done|].
  unfold wpu, ask. rewrite E. destruct r as [x|e| |]; [| |done..]; apply HQ; by apply still_set_store.
Qed.

Lemma wpu_ask_ok_read {A} (c : stM (Pager.t D) StoreError A) r (Q : option A -> app -> Prop) a : still a ->
  (forall σ L, repr σ L d -> returns n m σ c r) -> no_abort r ->
  (forall a', still a' -> Q (ok (answered r)) a') -> wpu (ask_ok c) Q a.
Proof. intros Ha Hc Hr HQ. apply wpu_bind. eapply wpu_ask_read; [done..|]. intros a' Ha'. by apply HQ. Qed.

(** The readers. *)
Lemma spec_get_table_no_abort name : no_abort (spec_get_table d name).
Proof.
  apply no_abort_bind; [apply find_table_no_abort|]. intros i (t & Ht & _)%find_table_val.
  unfold table_at. rewrite Ht. apply no_abort_val.
Qed.
Lemma spec_scan_no_abort name : no_abort (spec_scan d name).
Proof.
  apply no_abort_bind; [apply find_table_no_abort|]. intros i (t & Ht & _)%find_table_val.
  unfold table_at. rewrite Ht. apply no_abort_val.
Qed.
Lemma spec_get_row_no_abort name id : valid_id d name id -> no_abort (spec_get_row d name id).
Proof.
  intros Hid. apply no_abort_bind; [apply find_table_no_abort|]. intros i Hi.
  destruct (find_table_val _ _ _ Hi) as (t & Ht & _). unfold table_at. rewrite Ht. cbn [or_panic mbind outcome_bind].
  apply no_abort_bind; [by eapply get_slot_no_abort, Hid|]. intros r _. apply no_abort_val.
Qed.

Definition table_of (name : bytes) : option Table.t := ok (answered (spec_get_table d name)).

Lemma wpu_get_table name (Q : option Table.t -> app -> Prop) a : still a ->
  (forall a', still a' -> Q (table_of name) a') -> wpu (ask_ok (get_table name)) Q a.
Proof.
  intros Ha HQ. eapply wpu_ask_ok_read; [done| |apply spec_get_table_no_abort|done].
  intros σ L Hr. by apply (returns_get_table n m σ L d).
Qed.

Lemma wpu_get_row name id (Q : option row -> app -> Prop) a : still a -> valid_id d name id ->
  (forall a', still a' -> Q (ok (answered (spec_get_row d name id))) a') -> wpu (ask_ok (get_row name id)) Q a.
Proof.
  intros Ha Hid HQ. eapply wpu_ask_ok_read; [done| |by apply spec_get_row_no_abort|done].
  intros σ L Hr. by apply (returns_get_row n m σ L d).
Qed.

Lemma wpu_list_tables (Q : list TableInfo.t + StoreError -> app -> Prop) a : still a ->
  (forall a', still a' -> Q (inl (spec_list_tables d)) a') -> wpu (ask list_tables) Q a.
Proof.
  intros Ha HQ. eapply (wpu_ask_read _ (Val (spec_list_tables d))); [done| |by split|done].
  intros σ L Hr. by apply (returns_list_tables n m σ L d).
Qed.

Lemma wpu_scan name (Q : list (RowId.t * row) + StoreError -> app -> Prop) a : still a ->
  (forall a', still a' -> Q (answered (spec_scan d name)) a') -> wpu (ask (scan name)) Q a.
Proof.
  intros Ha HQ. eapply wpu_ask_read; [done| |apply spec_scan_no_abort|done].
  intros σ L Hr. by apply (returns_scan n m σ L d).
Qed.

Lemma wpu_follow name id fk (Q : option (bytes * list (RowId.t * row)) -> app -> Prop) a :
  still a -> valid_id d name id ->
  (forall a', still a' -> Q (ok (answered (spec_follow_fk d name id fk))) a') ->
  wpu (ask_ok (follow_fk name id fk)) Q a.
Proof.
  intros Ha Hid HQ. eapply wpu_ask_ok_read; [done| |apply spec_follow_no_abort; [apply Ha|done]|done].
  intros σ L Hr. by apply (returns_follow_fk n m σ L d).
Qed.

Lemma wpu_referencing name id (Q : option (list (bytes * bytes * RowId.t * row)) -> app -> Prop) a :
  still a -> valid_id d name id ->
  (forall a', still a' -> Q (ok (answered (spec_referencing_rows d name id))) a') ->
  wpu (ask_ok (referencing_rows name id)) Q a.
Proof.
  intros Ha Hid HQ. eapply wpu_ask_ok_read; [done| |apply spec_referencing_no_abort; [apply Ha|done]|done].
  intros σ L Hr. by apply (returns_referencing_rows n m σ L d).
Qed.

(** ** The row list *)

Lemma wpu_rows table filter sort (Q : list (RowId.t * row) -> app -> Prop) a : still a ->
  (forall a', still a' -> Q (spec_rows d table filter sort) a') -> wpu (rows table filter sort) Q a.
Proof.
  intros Ha HQ. unfold rows. apply wpu_bind, wpu_scan; [done|]. intros a1 H1.
  assert (E : unwrap_or [] (answered (spec_scan d table)) = match spec_scan d table with Val l => l | _ => [] end).
  { by destruct (spec_scan d table). }
  rewrite E. apply wpu_bind. destruct filter as [[col val]|].
  - apply wpu_bind. eapply wpu_ask_read; [done|intros σ L Hr; by apply (returns_get_table n m σ L d)|
      apply spec_get_table_no_abort|]. intros a2 H2.
    apply wpu_ret. assert (Hend := HQ a2 H2). unfold spec_rows in Hend.
    destruct (spec_get_table d table) as [t| | |]; cbn [answered ok mbind option_bind]; [|by destruct sort as [[]|]..].
    destruct (Table.column_index t col); by destruct sort as [[]|].
  - apply wpu_ret. assert (Hend := HQ a1 H1). unfold spec_rows in Hend. by destruct sort as [[]|].
Qed.

(** The browser never shows rows of an older generation. *)
Lemma wpu_cached_rows table filter sort (Q : list (RowId.t * row) -> app -> Prop) a : still a ->
  (forall a', still a' -> Q (spec_rows d table filter sort) a') -> wpu (cached_rows table filter sort) Q a.
Proof.
  intros Ha HQ. unfold cached_rows. apply wpu_bind. cbn. apply wpu_bind. cbn.
  assert (Hg : Store.generation (store a) = g) by (eapply holds_generation, Ha). rewrite Hg.
  assert (Hmiss : wpu (rs ← rows table filter sort;
    _ ← modify (set_cache (Some (RowCache.mk table filter sort g rs))); mret rs) Q a).
  { apply wpu_bind, wpu_rows; [done|]. intros a1 [H1 H2 H3 H4]. apply wpu_bind. cbn. apply wpu_ret, HQ.
    by split. }
  pose proof (st_cache _ _ _ _ _ _ Ha) as Hc. destruct (row_cache a) as [c|]; [|done].
  destruct (fresh table filter sort g c) eqn:Ef; [|done].
  unfold fresh in Ef. rewrite !andb_true_iff in Ef. destruct Ef as (((E1%str_eqb_eq & E2%bool_decide_eq_true) & E3%bool_decide_eq_true) & E4%Z.eqb_eq).
  destruct Hc as [_ Hc]. apply wpu_ret. rewrite (Hc E4), E1, E2, E3. by apply HQ.
Qed.

(** ** Operations *)

Lemma raw_answer {A B} (c : stM (Pager.t D) StoreError A) (f : A -> B) P r P' :
  (x ← c; mret (f x)) P = (r, P') -> exists r0, c P = (r0, P') /\ r = (f <$> r0).
Proof.
  unfold mbind, stM_bind. destruct (c P) as [r0 P0]. intros E. exists r0.
  destruct r0; by injection E as <- <-.
Qed.

Definition next_state (g' : Z) (d' : database) : Prop := g' = g + 1 \/ g' = g /\ d' = d.

Lemma cache_next g' d' c : next_state g' d' -> cache_ok g d c -> cache_ok g' d' c.
Proof.
  intros [->|[-> ->]]; [|done]. destruct c as [c|]; [|done]. intros [Hle _]. split; lia.
Qed.

End Still.

Lemma wpu_ask_op {A} n m g d stk (c : stM (Pager.t D) StoreError A) (f : A -> answer) o
    (Q : A + StoreError -> app -> Prop) a : ~ may_lose (D:=D) ->
  still n m g d stk a -> g + 1 < 2 ^ 64 -> permitted d o -> (forall P, run_op o P = (x ← c; mret (f x)) P) ->
  (forall a' m' g' d' x, still n m' g' d' stk a' -> accepts d o (f x) d' -> next_state g d g' d' -> Q (inl x) a') ->
  (forall a' e, still n m g d stk a' -> refuses d o e \/ e = OutOfSpace -> Q (inr e) a') ->
  wpu (ask c) Q a.
Proof.
  intros Hl Ha Hg Hp Hrun HV HF.
  destruct (op_powered n m (store a) g d o Hl) as (r & P' & E & Hr); [apply Ha..|done|done|].
  rewrite Hrun in E. destruct (raw_answer _ _ _ _ _ E) as (r0 & E0 & ->).
  unfold wpu, ask. rewrite E0. destruct r0 as [x|e| |]; cbn in Hr; [| |done..].
  - destruct Hr as (m' & g' & d' & Hacc & Hi & Hh & Hnext). eapply HV; [|exact Hacc|exact Hnext].
    split; cbn; [done|done| |apply Ha]. eapply cache_next; [exact Hnext|apply Ha].
  - destruct Hr as [He Hh]. apply HF; [|done]. by apply still_set_store.
Qed.

End Wp.
