(* ===== verification/Wellformed.v ===== *)
(** * Well-formed screens

    What every screen of the stack is, over a given database: the carets lie
    in their texts, the selections in their lists, the fields of an editor
    belong to the columns of its table, row identifiers name slots of their
    tables; and which screen lies on which.  The operation of the store that
    a key asks for. *)

From stdpp Require Import gmap.
From S2P Require Import Prelude Types Bignum Value ValueFacts Codec Schema Block Journal JournalFacts.
From S2P Require Import Pager PagerFacts Store Database Integrity Edits StoreFacts Heap Refinement.
From S2P Require Import Navigation Transactions Operations StoreRuns EditRefine StoreApi.
From S2P Require Import Ps2 UiText UiTextFacts Builder BuilderFacts App Screens Ui UiFacts.
Import Store Text App Screens.

(** ** Identifiers of rows *)

(** The identifier names a slot of the table [name]. *)
Definition live_id (d : database) (name : bytes) (id : RowId.t) : Prop :=
  0 <= RowId.slot id /\ exists u, u ∈ d /\ dt_name u = name /\ RowId.index_page id ∈ (dt_pages u).*1.

Lemma page_index_some u id : RowId.index_page id ∈ (dt_pages u).*1 <-> is_Some (page_index u id).
Proof.
  unfold page_index. split.
  - intros ([p l] & E & Hin)%list_elem_of_fmap. cbn in E. destruct (position _ _) as [k|] eqn:Hp; [by eexists|].
    apply position_none in Hp. rewrite Forall_forall in Hp. specialize (Hp _ Hin). cbn in Hp.
    by rewrite E, Z.eqb_refl in Hp.
  - intros [k (q & Hq & E%Z.eqb_eq)%position_some]. apply list_elem_of_fmap. exists q. split; [done|].
    by eapply list_elem_of_lookup_2.
Qed.

Lemma live_valid d name id : integrity d -> live_id d name id -> valid_id d name id.
Proof.
  intros Hd [H0 (u & [k Hk]%list_elem_of_lookup & En & Hp)] i t Hi Ht. split; [done|].
  destruct (find_table_val _ _ _ Hi) as (t' & Ht' & En'). rewrite Ht in Ht'. injection Ht' as <-.
  assert (k = i) as -> by (eapply (names_inj d); [apply Hd|done|done|congruence]).
  rewrite Ht in Hk. injection Hk as ->. by apply page_index_some.
Qed.

(** The rows of a table have such identifiers. *)
Lemma row_live d u id r : u ∈ d -> (id, r) ∈ dt_rows u -> live_id d (dt_name u) id.
Proof.
  intros Hu (k & p & l & j & Hk & _ & ->)%live_elem. split; [cbn; lia|]. exists u. split_and!; [done..|].
  cbn. apply list_elem_of_fmap. exists (p, l). split; [done|]. by eapply list_elem_of_lookup_2.
Qed.

Lemma scan_rows d name l id r : spec_scan d name = Val l -> (id, r) ∈ l ->
  exists u r0, u ∈ d /\ dt_name u = name /\ (id, r0) ∈ dt_rows u /\ r = fit u r0.
Proof.
  intros (i & Hi & H)%bind_val Hin. destruct (find_table_val _ _ _ Hi) as (u & Hu & En).
  unfold table_at in H. rewrite Hu in H. injection H as <-.
  apply list_elem_of_fmap in Hin as ([id' r0] & [= -> ->] & Hin). exists u, r0.
  split_and!; [by eapply list_elem_of_lookup_2|done..].
Qed.

Lemma sort_insert_elem {A} cmp (x y : A) l : y ∈ sort_insert cmp x l <-> y = x \/ y ∈ l.
Proof.
  induction l as [|z l IH]; cbn; [by rewrite list_elem_of_singleton, elem_of_nil; naive_solver|].
  destruct (cmp x z); rewrite !elem_of_cons, ?IH, ?elem_of_cons; naive_solver.
Qed.
Lemma sort_by_elem {A} cmp (y : A) l : y ∈ sort_by cmp l <-> y ∈ l.
Proof. induction l as [|x l IH]; [done|]. cbn. rewrite sort_insert_elem, IH, elem_of_cons. done. Qed.

Lemma spec_rows_scanned d table filter sort p : p ∈ spec_rows d table filter sort ->
  exists l, spec_scan d table = Val l /\ p ∈ l.
Proof.
  unfold spec_rows. set (base := match spec_scan d table with Val l => l | _ => [] end). intros Hin.
  set (kept := match filter with Some _ => _ | None => base end) in Hin.
  assert (Hk : p ∈ kept) by (destruct sort as [[ci asc]|]; [by apply sort_by_elem in Hin|done]).
  assert (Hb : p ∈ base).
  { unfold kept in Hk. destruct filter as [[col val]|]; [|done]. destruct (spec_get_table d table); try done.
    destruct (Table.column_index _ col); [|done]. apply list_elem_of_In, filter_In in Hk as [? _].
    by apply list_elem_of_In. }
  unfold base in Hb. destruct (spec_scan d table) as [l| | |]; [by exists l|by apply elem_of_nil in Hb..].
Qed.

Lemma spec_rows_live d table filter sort p : p ∈ spec_rows d table filter sort -> live_id d table p.1.
Proof.
  intros (l & Hl & Hp)%spec_rows_scanned. destruct p as [id r].
  destruct (scan_rows _ _ _ _ _ Hl Hp) as (u & r0 & Hu & <- & Hr & _). by eapply row_live.
Qed.

(** What an operation does to the slots of the tables it does not drop. *)
Definition grows (d d' : database) (name : bytes) : Prop :=
  forall u, u ∈ d -> dt_name u = name ->
    exists u', u' ∈ d' /\ dt_name u' = name /\ forall p, p ∈ (dt_pages u).*1 -> p ∈ (dt_pages u').*1.

Lemma live_grows d d' name id : grows d d' name -> live_id d name id -> live_id d' name id.
Proof.
  intros Hg [H0 (u & Hu & En & Hp)]. split; [done|]. destruct (Hg u Hu En) as (u' & Hu' & En' & Hp').
  exists u'. auto.
Qed.

Lemma grows_insert d i t t' name : d !! i = Some t -> dt_name t' = dt_name t ->
  (forall p, p ∈ (dt_pages t).*1 -> p ∈ (dt_pages t').*1) -> grows d (<[i := t']> d) name.
Proof.
  intros Hi En Hp u [k Hk]%list_elem_of_lookup Eu. destruct (decide (k = i)) as [->|Hne].
  - rewrite Hi in Hk. injection Hk as <-. exists t'. split; [|by split; [congruence|]].
    eapply list_elem_of_lookup_2. apply list_lookup_insert_eq. by eapply lookup_lt_Some.
  - exists u. split; [|done]. eapply list_elem_of_lookup_2. by rewrite list_lookup_insert_ne.
Qed.

Lemma set_slot_pages id o t : dt_name (set_slot id o t) = dt_name t /\ (dt_pages (set_slot id o t)).*1 = (dt_pages t).*1.
Proof.
  unfold set_slot. destruct (page_index t id) as [k|]; [|done]. cbn.
  destruct (dt_pages t !! k) as [[p l]|] eqn:E; [|done]. cbn. split; [done|].
  rewrite list_fmap_insert. cbn. apply list_insert_id. by rewrite list_lookup_fmap, E.
Qed.

Lemma appended_pages {A} (pgs pgs' : list (Z * list A)) x id p : appended pgs x id pgs' -> p ∈ pgs.*1 -> p ∈ pgs'.*1.
Proof.
  intros [init q slots -> _|np _]; rewrite !fmap_app; cbn; [done|]. intros ?. apply elem_of_app. by left.
Qed.

Lemma alter_grows d table g f d' name : spec_alter d table g f = Val d' ->
  (forall t s, g t = Val s -> Table.name s = Table.name t) -> grows d d' name.
Proof.
  intros (i & t & s & Hi & Ht & En & Hg & ->)%spec_alter_val Hname. apply (grows_insert d i t); [done|by apply Hname|].
  intros p. cbn. by rewrite map_slots_pages.
Qed.

Lemma edit_grows d e d' name : spec_edit d e = Val d' -> grows d d' name.
Proof.
  assert (Hrefl : forall d0, grows d0 d0 name) by (intros d0 u Hu En; by exists u).
  destruct e; cbn [spec_edit].
  - intros (t & _ & H)%bind_val. destruct (_ && _); [done|]. eapply alter_grows; [exact H|].
    intros t0 s. unfold with_new_column. destruct (Table.column _ _); [done|]. by intros [= <-].
  - intros (t & _ & H)%bind_val. apply bind_val in H as (idx & _ & H). destruct (existsb _ _); [done|].
    apply bind_val in H as ([] & _ & H). eapply alter_grows; [exact H|]. intros t0 s. unfold without_column.
    by intros (? & _ & [= <-])%bind_val.
  - intros (t & _ & H)%bind_val. apply bind_val in H as (old & _ & H). destruct (_ <=? _)%nat; [done|].
    destruct (_ =? _)%nat; [by injection H as <-|]. eapply alter_grows; [exact H|]. intros t0 s. unfold with_moved.
    intros (c & _ & (? & _ & [= <-])%bind_val)%bind_val. done.
  - unfold spec_rename_column. destruct new as [|b new]; [done|]. destruct (str_eqb _ _); [by intros [= <-]|].
    intros (t & _ & H)%bind_val. destruct (Table.column _ old); [|done]. destruct (Table.column _ (b :: new)); [done|].
    injection H as <-. intros u Hu En. exists (rename_table table old (b :: new) u). split; [|done].
    apply list_elem_of_fmap. by exists u.
  - intros (t & _ & H)%bind_val. apply bind_val in H as (ci & _ & H). apply bind_val in H as ([] & _ & H).
    eapply alter_grows; [exact H|]. intros t0 s. unfold with_unique. by intros (? & _ & [= <-])%bind_val.
  - intros (t & _ & H)%bind_val. apply bind_val in H as (fc & _ & H). apply bind_val in H as (u & _ & H).
    apply bind_val in H as (tc & _ & H). destruct (negb _); [done|]. destruct (negb _); [done|].
    apply bind_val in H as (? & _ & H). apply bind_val in H as (? & _ & H). destruct (unmatched _ _); [done|].
    apply bind_val in H as (? & _ & H). eapply alter_grows; [exact H|]. by intros t0 s [= <-].
  - intros H. eapply alter_grows; [exact H|]. intros t0 s. unfold without_fk. destruct (_ =? _)%nat; [done|].
    by intros [= <-].
  - intros H. eapply alter_grows; [exact H|]. intros t0 s. unfold with_ref_cols.
    by intros (? & _ & [= <-])%bind_val.
  - intros H. eapply alter_grows; [exact H|]. intros t0 s. unfold with_width.
    intros (ci & _ & (c & _ & [= <-])%bind_val)%bind_val. done.
Qed.

Lemma accepts_grows d o ans d' name : accepts d o ans d' -> o <> StoreApi.DropTable name -> grows d d' name.
Proof.
  intros Ha Hno. destruct Ha as [nm h Hs|nm d' Hs|nm cells i t id pgs Hs Happ|nm id cells d' Hs|nm id d' Hs|e d' Hs].
  - intros u Hu En. exists u. split; [|done]. apply elem_of_app. by left.
  - intros u [k Hk]%list_elem_of_lookup En. apply bind_val in Hs as (i & Hi & Hs).
    apply bind_val in Hs as ([] & _ & [= <-]). destruct (find_table_val _ _ _ Hi) as (t & Ht & Et).
    exists u. split; [|done]. assert (k <> i) by (intros ->; congruence).
    rewrite delete_take_drop. apply elem_of_app. destruct (decide (k < i)%nat).
    + left. apply (list_elem_of_lookup_2 _ k). by rewrite lookup_take_lt.
    + right. apply (list_elem_of_lookup_2 _ (k - S i)). rewrite lookup_drop. rewrite <- Hk. f_equal. lia.
  - apply bind_val in Hs as (i' & Hi & Hs). destruct (find_table_val _ _ _ Hi) as (t' & Ht & _).
    unfold table_at in Hs. rewrite Ht in Hs. cbn in Hs. apply bind_val in Hs as ([] & _ & [= <- <-]).
    apply (grows_insert d i' t'); [done..|]. intros p. cbn. by eapply appended_pages.
  - apply bind_val in Hs as (i & Hi & Hs). destruct (find_table_val _ _ _ Hi) as (t & Ht & _).
    unfold table_at in Hs. rewrite Ht in Hs. cbn in Hs. apply bind_val in Hs as ([] & _ & Hs).
    apply bind_val in Hs as (old & _ & Hs). apply bind_val in Hs as ([] & _ & [= <-]).
    destruct (set_slot_pages id (Some cells) t) as [E1 E2].
    apply (grows_insert d i t); [done..|]. by rewrite E2.
  - apply bind_val in Hs as (i & Hi & Hs). destruct (find_table_val _ _ _ Hi) as (t & Ht & _).
    unfold table_at in Hs. rewrite Ht in Hs. cbn in Hs. apply bind_val in Hs as (r & _ & Hs).
    apply bind_val in Hs as ([] & _ & [= <-]). destruct (set_slot_pages id None t) as [E1 E2].
    apply (grows_insert d i t); [done..|]. by rewrite E2.
  - by eapply edit_grows.
Qed.

(** ** Screens *)

Definition field_ok (f : Field.t) : Prop := caret_ok (Field.value f, Field.caret f).

(** An editor shows the columns of its table, a field for each. *)
Record editor_ok (d : database) (ed : Editor.t) : Prop := {
  eo_cols : exists u, u ∈ d /\ dt_name u = Editor.table ed /\ dt_cols u = Editor.cols ed;
  eo_fields : length (Editor.fields ed) = length (Editor.cols ed);
  eo_carets : Forall field_ok (Editor.fields ed);
  eo_focus : (Editor.focus ed <= length (Editor.cols ed) + 1)%nat;
  eo_id id : Editor.id ed = Some id -> live_id d (Editor.table ed) id
}.

Section Screens.
Context {H : Type} `{!Hardware H}.
Implicit Types (s : Screen (H := H)) (stk : list (Screen (H := H))).

Definition screen_ok (d : database) s : Prop :=
  match s with
  | Prompt _ buf caret _ => caret_ok (buf, caret)
  | Pick _ options sel _ => (sel < length options)%nat \/ options = []
  | Confirm _ (DeleteRow t id) => live_id d t id
  | RowView t id _ => live_id d t id
  | EditorScreen ed => editor_ok d ed
  | Builder b => builder_ok b
  | FkPick _ _ to_table _ rows _ _ => Forall (fun p : RowId.t * bytes => live_id d to_table p.1) rows
  | _ => True
  end.

(** A builder and a picker of referenced rows lie on an editor, and nothing
    else does. *)
Definition over s below : Prop :=
  match s, below with
  | Builder b, EditorScreen ed => (FieldBuilder.field b < length (Editor.cols ed))%nat
  | FkPick _ _ _ _ _ _ _, EditorScreen _ => True
  | Builder _, _ | FkPick _ _ _ _ _ _ _, _ => False
  | _, (EditorScreen _ | Builder _ | FkPick _ _ _ _ _ _ _) => False
  | _, _ => True
  end.

(** The table list at the bottom, and only there. *)
Fixpoint stack_ok (d : database) stk : Prop :=
  match stk with
  | [] => False
  | s :: rest =>
      match rest with
      | [] => is_list s = true
      | below :: _ => is_list s = false /\ screen_ok d s /\ over s below /\ stack_ok d rest
      end
  end.

(** Screens that show or edit no row in the making. *)
Definition plain s : bool :=
  match s with EditorScreen _ | Builder _ | FkPick _ _ _ _ _ _ _ => false | _ => true end.

(** ** The operation a key asks for *)

Definition prompt_op (action : Action) (text : bytes) : option op :=
  match action with
  | CreateTable => Some (StoreApi.CreateTable text)
  | RenameColumn table old =>
      match text with [] => None | _ => Some (Edit (Edits.RenameColumn table old text)) end
  | SetDisplayWidth table col =>
      match Ui.width_of text with Some w => Some (Edit (SetWidth table col w)) | None => None end
  | _ => None
  end.

Definition pick_op (action : Action) (choice : bytes) : option op :=
  match action with
  | AddColPickType table name =>
      Some (Edit (AddColumn table (Column.mk name (default Ty.String (Ty.from_name choice)) true false None)))
  | AddFkPickToCol table from_col to_table => Some (Edit (AddFk table from_col to_table choice))
  | DropFk table => Some (Edit (Edits.DropFk table choice))
  | _ => None
  end.

Definition confirm_op (action : Action) : option op :=
  match action with
  | DeleteRow t id => Some (Delete t id)
  | DropTable t => Some (StoreApi.DropTable t)
  | DropColumn t c => Some (Edit (Edits.DropColumn t c))
  | _ => None
  end.

(** The cell of a field, or what is wrong with it. *)
Definition field_cell (c : Column.t) (f : Field.t) : cell + bytes :=
  if Field.is_null f then if Column.nullable c then inl None else inr (str "NOT NULL")
  else match Value.parse (Column.ty c) (Field.value f) with
       | Val v => inl (Some v)
       | Fail (Parse m) => inr m
       | _ => inr []
       end.
(** The cells of all fields, or the first one that is wrong. *)
Fixpoint fields_cells (i : nat) (cols : list Column.t) (fields : list Field.t) : list cell + (nat * bytes) :=
  match cols, fields with
  | c :: cols', f :: fields' =>
      match field_cell c f with
      | inr m => inr (i, m)
      | inl x => match fields_cells (S i) cols' fields' with inl xs => inl (x :: xs) | inr e => inr e end
      end
  | _, _ => inl []
  end.
Definition save_op (ed : Editor.t) (cells : list cell) : op :=
  match Editor.id ed with
  | Some id => Update (Editor.table ed) id cells
  | None => Insert (Editor.table ed) cells
  end.
Definition editor_op (ed : Editor.t) : option op :=
  if (Editor.focus ed =? length (Editor.cols ed) + 1)%nat then None
  else match fields_cells 0 (Editor.cols ed) (Editor.fields ed) with
       | inl cells => Some (save_op ed cells)
       | inr _ => None
       end.

Definition schema_op (table : bytes) (t : option Table.t) (sel : nat) (c : Z) : option op :=
  let n := from_option (fun t => length (Table.columns t)) 0%nat t in
  let sel := clamp_sel sel n in
  col ← (t ← t; Table.columns t !! sel);
  if key_in (str "u") c then Some (Edit (SetUnique table (Column.name col) (negb (Column.unique col))))
  else if key_in (str ",") c && (2 <=? n)%nat && (0 <? sel)%nat
  then Some (Edit (MoveColumn table (Column.name col) (sel - 1)))
  else if key_in (str ".") c && (2 <=? n)%nat && (sel + 1 <? n)%nat
  then Some (Edit (MoveColumn table (Column.name col) (sel + 1)))
  else None.

Definition refcols_op (table : bytes) (t : option Table.t) (order : list bytes) (sel : nat) (k : Ps2.Key) : option op :=
  let cols := from_option col_names [] t in
  let sel := if (0 <? length cols)%nat then Nat.min sel (length cols - 1) else sel in
  let '(order, commit) := refcols_key k (cols !! sel) order in
  if commit : bool then Some (Edit (SetRefs table order)) else None.

Definition key_op (d : database) s (k : Ps2.Key) : option op :=
  match s, k with
  | Prompt _ buf _ action, Ps2.Enter => prompt_op action buf
  | Pick _ options sel action, Ps2.Enter => choice ← options !! sel; pick_op action choice
  | Confirm _ action, Ps2.Enter => confirm_op action
  | EditorScreen ed, Ps2.Enter => editor_op ed
  | SchemaScreen table sel, Ps2.Char c => schema_op table (table_of d table) sel c
  | RefCols table order sel, _ => refcols_op table (table_of d table) order sel k
  | _, _ => None
  end.

(** The texts of the screen, of lengths a machine holds. *)
Definition screen_short s : Prop :=
  match s with
  | Prompt _ buf _ _ => short buf
  | EditorScreen ed => Forall (fun f => short (Field.value f)) (Editor.fields ed)
  | Builder b => builder_short b
  | _ => True
  end.

(** What is asked of an operation beyond what the screens guarantee: values
    and names that fit their encodings. *)
Definition sized (d : database) (o : op) : Prop :=
  match o with
  | Update _ _ cells => row_ok cells
  | Delete _ _ => True
  | _ => permitted d o
  end.

(** ** Stacks *)

Lemma stack_ok_tail d s below rest : stack_ok d (s :: below :: rest) -> stack_ok d (below :: rest).
Proof. by intros (_ & _ & _ & ?). Qed.

Lemma stack_ok_push d s stk : stack_ok d stk -> is_list s = false -> screen_ok d s ->
  (forall below rest, stk = below :: rest -> over s below) -> stack_ok d (s :: stk).
Proof. intros Hstk Hl Hs Ho. destruct stk as [|below rest]; [done|]. split_and!; [done|done|by eapply Ho|done]. Qed.

(** The screen on top replaced by one of its kind. *)
Lemma stack_ok_put d s s' rest : stack_ok d (s :: rest) -> is_list s' = is_list s -> screen_ok d s' ->
  (forall below, over s below -> over s' below) -> stack_ok d (s' :: rest).
Proof.
  intros Hstk Hl Hs Ho. destruct rest as [|below rest]; cbn in *; [by rewrite Hl|].
  destruct Hstk as (H1 & H2 & H3 & H4). split_and!; [by rewrite Hl|done|by apply Ho|done].
Qed.

Lemma drop_to_list_ok d stk : stack_ok d stk -> exists k, drop_to_list stk = Some [List k] /\ forall d', stack_ok d' [List k].
Proof.
  induction stk as [|s rest IH]; [done|]. destruct rest as [|below rest].
  - cbn. intros Hs. destruct s; try done. by eexists.
  - intros (Hl & _ & _ & Hrest). destruct (IH Hrest) as (k & E & Hk). exists k. split; [|done].
    cbn [drop_to_list]. rewrite Hl. exact E.
Qed.

Lemma plain_below d s below rest : stack_ok d (s :: below :: rest) -> plain s = true -> plain below = true.
Proof. intros (_ & _ & Ho & _) Hp. destruct s; try done; destruct below; try done. Qed.

(** Without an editor in it a stack stays well-formed while identifiers do. *)
Lemma stack_ok_plain d d' stk : stack_ok d stk -> (forall s, head stk = Some s -> plain s = true) ->
  (forall name, grows d d' name) -> stack_ok d' stk.
Proof.
  intros Hstk Hp Hg. induction stk as [|s rest IH]; [done|]. destruct rest as [|below rest]; [done|].
  pose proof (plain_below _ _ _ _ Hstk (Hp s eq_refl)) as Hb.
  destruct Hstk as (Hl & Hs & Ho & Hrest). split_and!; [done| |done|].
  - specialize (Hp s eq_refl). destruct s; try done; cbn in Hs |- *; [by eapply live_grows|].
    destruct action; try done. by eapply live_grows.
  - apply IH; [done|]. intros s' [= <-]. done.
Qed.

End Screens.

(** ** What the screens read *)

Lemma table_of_some d name t : table_of d name = Some t ->
  exists u, u ∈ d /\ dt_name u = name /\ dt_schema u = t.
Proof.
  unfold table_of, spec_get_table. destruct (find_table d name) as [i|e| |] eqn:Ei; [|done..].
  destruct (find_table_val _ _ _ Ei) as (u & Hu & En). cbn. unfold table_at. rewrite Hu. cbn.
  intros [= <-]. exists u. split_and!; [by eapply list_elem_of_lookup_2|done..].
Qed.

Lemma row_read d name id r : integrity d -> EditRefine.fits d -> live_id d name id ->
  ok (answered (spec_get_row d name id)) = Some r ->
  exists u, u ∈ d /\ dt_name u = name /\ Forall2 typed (dt_cols u) r /\ Forall cell_ok r.
Proof.
  intros Hd Hf Hid. unfold spec_get_row. destruct (find_table d name) as [i|e| |] eqn:Ei; [|done..].
  destruct (find_table_val _ _ _ Ei) as (u & Hu & En). cbn [mbind outcome_bind]. unfold table_at. rewrite Hu.
  cbn [or_panic mbind outcome_bind]. destruct (get_slot u id) as [r0|e| |] eqn:Eg; [|done..]. intros [= <-].
  destruct (get_slot_val u id r0 (proj1 Hid) Eg) as (x & y & E & _).
  assert (Hin : (id, r0) ∈ dt_rows u) by (rewrite E; apply elem_of_app; right; left).
  pose proof (ti_typed _ _ (in_tables _ Hd i u Hu) _ _ Hin) as Ht.
  exists u. split; [by eapply list_elem_of_lookup_2|]. split; [done|]. rewrite (typed_fit _ _ Ht).
  split; [done|]. by apply (proj2 (Hf i u Hu) id r0 Hin).
Qed.

(** The same for the rows of a scan. *)
Lemma scan_read d name l id r : integrity d -> EditRefine.fits d -> spec_scan d name = Val l -> (id, r) ∈ l ->
  exists u, u ∈ d /\ dt_name u = name /\ Forall2 typed (dt_cols u) r /\ Forall cell_ok r /\ live_id d name id.
Proof.
  intros Hd Hf Hl Hin. destruct (scan_rows _ _ _ _ _ Hl Hin) as (u & r0 & Hu & <- & Hr & ->).
  pose proof (row_live _ _ _ _ Hu Hr) as Hid. destruct (proj1 (list_elem_of_lookup _ _) Hu) as [i Hi].
  pose proof (ti_typed _ _ (in_tables _ Hd i u Hi) _ _ Hr) as Ht. rewrite (typed_fit _ _ Ht).
  exists u. split_and!; try done. by apply (proj2 (Hf i u Hi) id r0 Hr).
Qed.

Lemma label_val t r : exists l, Table.reference_label t r = Val l.
Proof.
  destruct (TableFacts.label_parts_val t r _ (TableFacts.ref_col_indices_valid t)) as (ps & E & _).
  unfold Table.reference_label. rewrite E. by eexists.
Qed.

(** A value shown in a field, the caret at its end. *)
Lemma display_field_ok v : ValueFacts.wf v -> caret_ok (Value.display v, count (Value.display v)).
Proof. intros Hv. apply caret_end. by apply ValueFacts.display_utf8. Qed.
