(* ===== verification/UiModals.v ===== *)
(** * The end of a key, and the modals

    How a key ends: the handlers return, every screen of the stack stays
    well-formed, and the database is as the operation [key_op] names leaves it,
    or as it was; a refused operation is told to the user.  The prompts, the
    pickers and the confirmations end so. *)

From stdpp Require Import gmap.
From S2P Require Import Prelude Types Bignum Value ValueFacts Codec Schema Block Journal JournalFacts.
From S2P Require Import Pager PagerFacts Store Database Integrity Edits StoreFacts Heap Refinement.
From S2P Require Import Navigation Transactions Operations StoreRuns EditRefine StoreApi.
From S2P Require Import Ps2 UiText UiTextFacts Builder BuilderFacts App Screens Ui UiFacts Wellformed.
Import Store Text App Screens Ui.

Section Keys.
Context {D H : Type} `{!BlockDevice D, !DeviceLaws D, !Hardware H}.
Abbreviation app := (App.t (D := D) (H := H)) (only parsing).
Abbreviation M := (stM app Stop) (only parsing).
Implicit Types (a : app) (n g : Z) (m : medium) (d : database).

(** ** The stack *)

Lemma wpu_push n m g d stk s (Q : unit -> app -> Prop) a : still n m g d stk a ->
  (forall a', still n m g d (s :: stk) a' -> status a' = status a -> Q tt a') -> wpu (push s) Q a.
Proof. intros Ha HQ. apply HQ; [|done]. destruct Ha. split; try done. cbn. by subst. Qed.

Lemma wpu_put_top n m g d s0 s rest (Q : unit -> app -> Prop) a : still n m g d (s0 :: rest) a ->
  (forall a', still n m g d (s :: rest) a' -> status a' = status a -> Q tt a') -> wpu (put_top s) Q a.
Proof.
  intros Ha HQ. unfold wpu, put_top. rewrite (st_stack _ _ _ _ _ _ Ha). apply HQ; [|done].
  by eapply still_set_stack.
Qed.

Lemma wpu_pop n m g d s below rest (Q : unit -> app -> Prop) a : still n m g d (s :: below :: rest) a ->
  (forall a', still n m g d (below :: rest) a' -> status a' = status a -> Q tt a') -> wpu pop Q a.
Proof.
  intros Ha HQ. unfold wpu, pop, modify. rewrite (st_stack _ _ _ _ _ _ Ha). apply HQ; [|done].
  by eapply still_set_stack.
Qed.

(** The table list is never popped. *)
Lemma wpu_pop_any n m g d stk (Q : unit -> app -> Prop) a : still n m g d stk a -> stack_ok d stk ->
  (forall a' stk', still n m g d stk' a' -> stack_ok d stk' -> Q tt a') -> wpu pop Q a.
Proof.
  intros Ha Hs HQ. destruct stk as [|s [|below rest]]; [done| |].
  - unfold wpu, pop, modify. rewrite (st_stack _ _ _ _ _ _ Ha). by eapply HQ.
  - eapply wpu_pop; [done|]. intros a' Ha' _. eapply HQ; [done|]. by eapply stack_ok_tail.
Qed.

Lemma wpu_pop_to_list n m g d d0 stk (Q : unit -> app -> Prop) a : still n m g d stk a -> stack_ok d0 stk ->
  (forall a' k, still n m g d [List k] a' -> status a' = status a -> Q tt a') -> wpu pop_to_list Q a.
Proof.
  intros Ha Hs HQ. destruct (drop_to_list_ok d0 stk Hs) as (k & E & _).
  unfold wpu, pop_to_list. rewrite (st_stack _ _ _ _ _ _ Ha). destruct stk; [done|]. rewrite E.
  eapply HQ; [|done]. by eapply still_set_stack.
Qed.

(** ** How a key ends *)

(** The error stands on the status line, or at a field of the editor on top. *)
Definition told (e : StoreError) a : Prop :=
  describes (D:=D) (H:=H) e (status a) \/
  exists ed rest i b, stack a = EditorScreen ed :: rest /\ Editor.error ed = Some (i, b) /\
    describes (D:=D) (H:=H) e b.

Definition outcome_ok (d : database) (o : option op) (d' : database) a' : Prop :=
  match o with
  | None => d' = d
  | Some o => (exists ans, accepts d o ans d') \/
      (d' = d /\ exists e, (refuses d o e \/ e = OutOfSpace) /\ told e a')
  end.

(** From the database [d] of generation [g], after the operation [o]. *)
Definition ended (n : Z) (g : Z) (d : database) (o : option op) a' : Prop :=
  exists (m' : medium) g' d', still n m' g' d' (stack a') a' /\ stack_ok d' (stack a') /\
    next_state g d g' d' /\ outcome_ok d o d' a'.

Lemma still_at n m g d stk a : still n m g d stk a -> stack_ok d stk ->
  still n m g d (stack a) a /\ stack_ok d (stack a).
Proof. intros Ha Hs. split; [by eapply still_stack|]. by rewrite (st_stack _ _ _ _ _ _ Ha). Qed.

Lemma ended_none n m g d stk a : still n m g d stk a -> stack_ok d stk -> ended n g d None a.
Proof. intros Ha Hs. destruct (still_at _ _ _ _ _ _ Ha Hs). exists m, g, d. split_and!; try done. by right. Qed.

Lemma ended_told n m g d stk (o : op) (e : StoreError) a : still n m g d stk a -> stack_ok d stk ->
  refuses d o e \/ e = OutOfSpace -> told e a -> ended n g d (Some o) a.
Proof.
  intros Ha Hs He Ht. destruct (still_at _ _ _ _ _ _ Ha Hs). exists m, g, d.
  split_and!; [done|done|by right|]. right. split; [done|]. by exists e.
Qed.

Lemma ended_accepted n g d m' g' d' stk o ans a : still n m' g' d' stk a -> stack_ok d' stk ->
  next_state g d g' d' -> accepts d o ans d' -> ended n g d (Some o) a.
Proof.
  intros Ha Hs Hn Ho. destruct (still_at _ _ _ _ _ _ Ha Hs). exists m', g', d'.
  split_and!; [done|done|done|]. left. by exists ans.
Qed.

Definition hd_plain (stk : list (Screen (H:=H))) : Prop := forall s, head stk = Some s -> plain s = true.

Lemma over_plain s below : plain s = true -> plain below = true -> over (H:=H) s below.
Proof. by destruct s, below. Qed.

Lemma push_plain d s (stk : list (Screen (H:=H))) : stack_ok d stk -> hd_plain stk -> is_list s = false -> plain s = true ->
  screen_ok d s -> stack_ok d (s :: stk).
Proof.
  intros Hs Hp Hl Hps Hok. apply stack_ok_push; [done..|]. intros below rest ->. apply over_plain; [done|].
  by apply Hp.
Qed.

(** ** Operations that keep the tables of the stack *)

Lemma wpu_op {A} n m g d stk (c : stM (Pager.t D) StoreError A) (f : A -> answer) o (k : A -> M unit) a :
  ~ may_lose (D:=D) -> still n m g d stk a -> stack_ok d stk -> hd_plain stk -> g + 1 < 2 ^ 64 ->
  permitted d o -> (forall P, run_op o P = (x ← c; mret (f x)) P) -> (forall name, o <> StoreApi.DropTable name) ->
  (forall x m' g' d' a', still n m' g' d' stk a' -> stack_ok d' stk ->
     wpu (k x) (fun _ a'' => exists stk', still n m' g' d' stk' a'' /\ stack_ok d' stk') a') ->
  wpu (ask_or_err c k) (fun _ => ended n g d (Some o)) a.
Proof.
  intros Hl Ha Hs Hp Hg Hperm Hrun Hno Hk. apply wpu_bind.
  eapply (wpu_ask_op n m g d stk); [done..| |].
  - intros a' m' g' d' x Ha' Hacc Hnext.
    assert (Hs' : stack_ok d' stk).
    { eapply stack_ok_plain; [done|done|]. intros name. by eapply accepts_grows. }
    eapply wpu_conseq; [by eapply Hk|]. intros [] a'' (stk' & H1 & H2). by eapply ended_accepted.
  - intros a' e Ha' He. eapply wpu_err; [done|]. intros a'' Ha'' Hd. eapply ended_told; [done..|]. by left.
Qed.

(** The operation, and a word about it. *)
Lemma wpu_op_say {A} n m g d stk (c : stM (Pager.t D) StoreError A) (f : A -> answer) o (s : A -> bytes) a :
  ~ may_lose (D:=D) -> still n m g d stk a -> stack_ok d stk -> hd_plain stk -> g + 1 < 2 ^ 64 ->
  permitted d o -> (forall P, run_op o P = (x ← c; mret (f x)) P) -> (forall name, o <> StoreApi.DropTable name) ->
  wpu (ask_or_err c (fun x => say (s x))) (fun _ => ended n g d (Some o)) a.
Proof.
  intros Hl Ha Hs Hp Hg Hperm Hrun Hno. eapply wpu_op; [done..|]. intros x m' g' d' a' Ha' Hs'.
  eapply wpu_say; [done|]. intros a'' Ha''. by exists stk.
Qed.

(** ** Modals *)

Section Modals.
Context (n : Z) (m : medium) (g : Z) (d : database) (Hl : ~ may_lose (D:=D)) (Hg : g + 1 < 2 ^ 64).
Context (stk : list (Screen (H:=H))) (Hstk : stack_ok d stk) (Hplain : hd_plain stk).

Lemma resolve_prompt_ok action text a : still n m g d stk a ->
  (forall o, prompt_op action text = Some o -> permitted d o) ->
  wpu (resolve_prompt action text) (fun _ => ended n g d (prompt_op action text)) a.
Proof using Hl Hg Hstk Hplain.
  intros Ha Hp. destruct action; cbn [resolve_prompt prompt_op] in *; try by eapply wpu_ret, ended_none.
  - eapply (wpu_op n m g d stk _ (fun _ => Done)); [done..|by apply Hp|done|done|].
    intros [] m' g' d' a' Ha' Hs'. eapply wpu_bind, wpu_say; [done|]. intros a1 H1.
    eapply wpu_push; [done|]. intros a2 H2 _. eexists. split; [exact H2|]. by apply push_plain.
  - destruct text; [eapply wpu_say; [done|]; intros; by eapply ended_none|].
    eapply wpu_push; [done|]. intros a' Ha' _. eapply ended_none; [done|]. apply push_plain; try done.
    cbn. left. lia.
  - destruct text; [eapply wpu_say; [done|]; intros; by eapply ended_none|].
    eapply (wpu_op_say n m g d stk _ (fun _ => Done)); [done..|by apply Hp|done|done].
  - destruct (width_of text); [|eapply wpu_say; [done|]; intros; by eapply ended_none].
    eapply (wpu_op_say n m g d stk _ (fun _ => Done)); [done..|by apply Hp|done|done].
Qed.

Lemma resolve_pick_ok action choice a : still n m g d stk a ->
  (forall o, pick_op action choice = Some o -> permitted d o) ->
  wpu (resolve_pick action choice) (fun _ => ended n g d (pick_op action choice)) a.
Proof using Hl Hg Hstk Hplain.
  intros Ha Hp. destruct action; cbn [resolve_pick pick_op] in *; try by eapply wpu_ret, ended_none.
  - eapply (wpu_op_say n m g d stk _ (fun _ => Done)); [done..|by apply Hp|done|done].
  - eapply (wpu_op_say n m g d stk _ (fun _ => Done)); [done..|by apply Hp|done|done].
  - apply wpu_bind. eapply wpu_list_tables; [done..|]. intros a1 H1. eapply wpu_push; [done|]. intros a2 H2 _.
    eapply ended_none; [done|]. apply push_plain; try done. cbn.
    destruct (TableInfo.name <$> spec_list_tables d); [by right|left; cbn; lia].
  - apply wpu_bind. eapply wpu_get_table; [done..|]. intros a1 H1.
    set (cols := from_option _ [] _). destruct cols as [|c cols].
    { eapply wpu_say; [done|]; intros; by eapply ended_none. }
    eapply wpu_push; [done|]. intros a2 H2 _. eapply ended_none; [done|]. apply push_plain; try done. cbn. left. lia.
  - eapply (wpu_op_say n m g d stk _ (fun _ => Done)); [done..|by apply Hp|done|done].
Qed.

(** [Shutdown] apart, which powers the machine off. *)
Lemma resolve_confirm_ok action a : still n m g d stk a -> action <> Shutdown ->
  (forall o, confirm_op action = Some o -> permitted d o) ->
  wpu (resolve_confirm action) (fun _ => ended n g d (confirm_op action)) a.
Proof using Hl Hg Hstk Hplain.
  intros Ha Hns Hp. destruct action; cbn [resolve_confirm confirm_op] in *; try by eapply wpu_ret, ended_none.
  - done.
  - eapply (wpu_op_say n m g d stk _ (fun _ => Done)); [done..|by apply Hp|done|done].
  - apply wpu_bind. eapply (wpu_ask_op n m g d stk _ (fun _ => Done) (StoreApi.DropTable table));
      [done..|by apply Hp|done| |].
    + intros a' m' g' d' [] Ha' Hacc Hnext. apply wpu_bind. eapply wpu_say; [done|]. intros a1 H1.
      eapply (wpu_pop_to_list _ _ _ _ d); [done..|]. intros a2 k H2 _. by eapply (ended_accepted _ _ _ _ _ _ [List k]).
    + intros a' e Ha' He. eapply wpu_err; [done|]. intros a'' Ha'' Hd. eapply ended_told; [done..|]. by left.
  - eapply (wpu_op_say n m g d stk _ (fun _ => Done)); [done..|by apply Hp|done|done].
  - apply wpu_bind. eapply wpu_say; [done|]. intros a1 H1. apply wpu_bind. cbn. apply wpu_bind. cbn.
    apply wpu_bind. eapply wpu_on_hw; [done|]. intros [report st] a2 H2. apply wpu_bind. eapply wpu_say; [done|].
    intros a3 H3. apply wpu_bind. eapply (wpu_pop_to_list _ _ _ _ d); [done..|]. intros a4 k H4 _.
    eapply wpu_push; [done|]. intros a5 H5 _. by eapply ended_none.
Qed.

End Modals.

(** An edit of a text within its bounds. *)
Lemma edited e tc : edit_ok e -> caret_ok tc -> short tc.1 -> exists tc', do_edit e tc = Val tc' /\ caret_ok tc'.
Proof.
  intros He Hc Hs. destruct (do_edit_ok (fun _ => True) e tc He Hc) as (tc' & E & Hc' & _);
    [unfold short in Hs; lia|done|by apply Forall_true|]. by exists tc'.
Qed.

(** The screen below a screen that is not the list. *)
Lemma below_ok d s rest : stack_ok d (s :: rest) -> is_list s = false -> plain (H:=H) s = true ->
  stack_ok d rest /\ hd_plain rest /\ exists below rest', rest = below :: rest'.
Proof.
  intros Hs Hl Hp. destruct rest as [|below rest]; [cbn in Hs; congruence|]. split_and!.
  - by eapply stack_ok_tail.
  - intros s' [= <-]. by eapply plain_below.
  - by eexists _, _.
Qed.

Section ModalKeys.
Context (n : Z) (m : medium) (g : Z) (d : database) (Hl : ~ may_lose (D:=D)) (Hg : g + 1 < 2 ^ 64).
Context (rest : list (Screen (H:=H))).

Lemma key_prompt_ok title buf caret action k a :
  let s := Prompt title buf caret action in
  stack_ok d (s :: rest) -> still n m g d (s :: rest) a -> key_ok k -> short buf ->
  (forall o, key_op d s k = Some o -> permitted d o) ->
  wpu (key_prompt k title buf caret action) (fun _ => ended n g d (key_op d s k)) a.
Proof using Hl Hg.
  intros s Hs Ha Hk Hb Hp.
  destruct (below_ok d s rest Hs eq_refl eq_refl) as (Hr & Hpl & below & rest' & ->).
  assert (Hc : caret_ok (buf, caret)) by apply Hs.
  assert (Hedit : forall e, edit_ok e ->
    wpu ('(buf, caret) ← pure (do_edit e (buf, caret)); put_top (Prompt title buf caret action))
      (fun _ => ended n g d None) a).
  { intros e He. destruct (edited e (buf, caret) He Hc Hb) as ([buf' caret'] & E & Hc'). apply wpu_bind.
    eapply wpu_pure; [exact E|]. eapply wpu_put_top; [done|]. intros a' Ha' _. eapply ended_none; [done|].
    by eapply stack_ok_put. }
  assert (Hpop : wpu pop (fun _ => ended n g d None) a).
  { eapply wpu_pop; [done|]. intros a' Ha' _. by eapply ended_none. }
  destruct k; cbn [key_prompt key_op] in *; try by eapply wpu_ret, ended_none.
  - by apply (Hedit (EInsert c)).
  - apply wpu_bind. eapply wpu_pop; [done|]. intros a' Ha' _. by eapply resolve_prompt_ok.
  - done.
  - by apply (Hedit EBackspace).
  - by apply (Hedit ELeft).
  - by apply (Hedit ERight).
  - by apply (Hedit EHome).
  - by apply (Hedit EEnd).
  - by apply (Hedit EDelete).
Qed.

Lemma step_sel_lt k sel len : (sel < len)%nat -> (step_sel k sel len < len)%nat.
Proof.
  intros Hlt. unfold step_sel. destruct k; try done.
  - destruct (0 <? sel)%nat; lia.
  - by destruct (Nat.ltb_spec (sel + 1) len); [lia|].
Qed.

Lemma key_pick_ok title options sel action k a :
  let s := Pick title options sel action in
  stack_ok d (s :: rest) -> still n m g d (s :: rest) a ->
  (forall o, key_op d s k = Some o -> permitted d o) ->
  wpu (key_pick k title options sel action) (fun _ => ended n g d (key_op d s k)) a.
Proof using Hl Hg.
  intros s Hs Ha Hp.
  destruct (below_ok d s rest Hs eq_refl eq_refl) as (Hr & Hpl & below & rest' & ->).
  assert (Hsel : (sel < length options)%nat \/ options = []) by apply Hs.
  assert (Hmove : wpu (put_top (Pick title options (step_sel k sel (length options)) action))
    (fun _ => ended n g d None) a).
  { eapply wpu_put_top; [done|]. intros a' Ha' _. eapply ended_none; [done|].
    eapply stack_ok_put; [done..| |done]. destruct Hsel as [Hlt| ->]; [|by right]. left. by apply step_sel_lt. }
  subst s. destruct k; cbn [key_pick key_op] in *; try exact Hmove.
  - destruct (Nat.ltb_spec 0 (length options)) as [Hlt|Hge].
    + destruct Hsel as [Hsel| ->]; [|cbn in Hlt; lia]. destruct (lookup_lt_is_Some_2 _ _ Hsel) as [x Hx].
      rewrite Hx in *. cbn [mbind option_bind] in *. apply wpu_bind. eapply wpu_lift; [done|]. apply wpu_bind.
      eapply wpu_pop; [done|]. intros a' Ha' _. by eapply resolve_pick_ok.
    + destruct options; [|cbn in Hge; lia]. by eapply wpu_ret, ended_none.
  - eapply wpu_pop; [done|]. intros a' Ha' _. by eapply ended_none.
Qed.

Lemma key_confirm_ok msg action k a :
  let s := Confirm msg action in
  stack_ok d (s :: rest) -> still n m g d (s :: rest) a -> ~ (k = Ps2.Enter /\ action = Shutdown) ->
  (forall o, key_op d s k = Some o -> permitted d o) ->
  wpu (key_confirm k action) (fun _ => ended n g d (key_op d s k)) a.
Proof using Hl Hg.
  intros s Hs Ha Hns Hp.
  destruct (below_ok d s rest Hs eq_refl eq_refl) as (Hr & Hpl & below & rest' & ->).
  destruct k; cbn [key_confirm key_op] in *; try by eapply wpu_ret, ended_none.
  - apply wpu_bind. eapply wpu_pop; [done|]. intros a' Ha' _. eapply resolve_confirm_ok; naive_solver.
  - eapply wpu_pop; [done|]. intros a' Ha' _. by eapply ended_none.
Qed.

End ModalKeys.

End Keys.
