(* ===== verification/UiDispatch.v ===== *)
(** * The screens of data and schema

    [dispatch] over a store at rest: the screen it puts back and the one it
    opens are well-formed, and it runs the operation [key_op] names. *)

From stdpp Require Import gmap.
From S2P Require Import Prelude Types Bignum Value ValueFacts Codec Schema Block Journal JournalFacts.
From S2P Require Import Pager PagerFacts Store Database Integrity Edits StoreFacts Heap Refinement.
From S2P Require Import Navigation Transactions Operations StoreRuns EditRefine StoreApi.
From S2P Require Import Ps2 UiText UiTextFacts Builder BuilderFacts App Screens Ui UiFacts Wellformed UiModals.
Import Store Text App Screens Ui.

Section Keys.
Context {D H : Type} `{!BlockDevice D, !DeviceLaws D, !Hardware H}.
Abbreviation app := (App.t (D := D) (H := H)) (only parsing).
Abbreviation M := (stM app Stop) (only parsing).
Implicit Types (a : app) (n g : Z) (m : medium) (d : database).

Lemma map_o_total {E A B} (f : A -> outcome E B) l : (forall x, exists y, f x = Val y) -> exists ys, map_o f l = Val ys.
Proof.
  intros Hf. induction l as [|x l [ys IH]]; [by eexists|]. destruct (Hf x) as [y Ey]. cbn. rewrite Ey, IH. by eexists.
Qed.

(** ** How a dispatch ends *)

Definition nav_ok (d : database) (stk : list (Screen (H:=H))) (nav : Nav (H:=H)) : Prop :=
  match nav with NavPush s => stack_ok d (s :: stk) | _ => True end.

Definition dispatched n g d (o : option op) (r : Screen (H:=H) * Nav (H:=H)) a' : Prop :=
  exists (m' : medium) g' d' rest, still n m' g' d' (List 0 :: rest) a' /\ stack_ok d' (r.1 :: rest) /\
    nav_ok d' (r.1 :: rest) r.2 /\ next_state g d g' d' /\
    match o with
    | None => d' = d
    | Some o => r.2 = NavNone /\ ((exists ans, accepts d o ans d') \/
        (d' = d /\ exists e, (refuses d o e \/ e = OutOfSpace) /\ describes (D:=D) (H:=H) e (status a')))
    end.

Lemma dispatched_same n m g d rest r a : still n m g d (List 0 :: rest) a -> stack_ok d (r.1 :: rest) ->
  nav_ok d (r.1 :: rest) r.2 -> dispatched n g d None r a.
Proof. intros Ha Hs Hn. exists m, g, d, rest. split_and!; try done. by right. Qed.

(** The screen goes back, and the stack moves. *)
Lemma navigated n g d o r a : dispatched n g d o r a ->
  wpu (_ ← put_top r.1; navigate r.2) (fun _ => ended n g d o) a.
Proof.
  destruct r as [scr nav]. cbn [fst snd]. intros (m' & g' & d' & rest & Ha & Hs & Hnav & Hnext & Ho).
  apply wpu_bind. eapply wpu_put_top; [done|]. intros a1 H1 Est.
  assert (Hend : nav = NavNone -> ended n g d o a1).
  { intros ->. destruct o as [o|].
    - destruct Ho as [_ [[ans Ho]|(-> & e & He & Hd)]]; [by eapply ended_accepted|].
      destruct Hnext as [->|[-> _]].
      + destruct (still_at _ _ _ _ _ _ H1 Hs). exists m', (g + 1), d. split_and!; [done|done|by left|].
        right. split; [done|]. exists e. split; [done|]. left. by rewrite Est.
      + eapply ended_told; [done..|]. left. by rewrite Est.
    - subst d'. destruct (still_at _ _ _ _ _ _ H1 Hs). exists m', g', d. by split_and!. }
  assert (Hnone : nav <> NavNone -> o = None) by (intros Hne; destruct o; [by destruct Ho|done]).
  assert (Hstk : forall stk a2, still n m' g' d' stk a2 -> stack_ok d' stk -> o = None -> ended n g d o a2).
  { intros stk a2 H2 Hs2 ->. destruct (still_at _ _ _ _ _ _ H2 Hs2). exists m', g', d'. by split_and!. }
  destruct nav; cbn [navigate].
  - by apply wpu_ret, Hend.
  - apply wpu_bind. eapply wpu_say; [done|]. intros a2 H2. eapply wpu_pop_any; [done..|].
    intros a3 stk' H3 Hs3. eapply Hstk; [done..|]. by apply Hnone.
  - eapply wpu_push; [done|]. intros a2 H2 _. eapply Hstk; [done..|]. by apply Hnone.
  - apply wpu_bind. eapply wpu_say; [done|]. intros a2 H2. eapply (wpu_pop_to_list _ _ _ _ d'); [done..|].
    intros a3 k H3 _. eapply Hstk; [done|done|]. by apply Hnone.
Qed.

(** The operation of a screen without an editor below. *)
Lemma wpu_screen_op {A B} n m g d scr rest (c : stM (Pager.t D) StoreError A) (f : A -> answer) o
    (k : A + StoreError -> M B) (h : B -> Screen (H:=H)) a :
  ~ may_lose (D:=D) -> still n m g d (List 0 :: rest) a -> stack_ok d (scr :: rest) -> plain scr = true ->
  g + 1 < 2 ^ 64 -> permitted d o -> (forall P, run_op o P = (x ← c; mret (f x)) P) ->
  (forall name, o <> StoreApi.DropTable name) ->
  (forall b d', stack_ok d' (scr :: rest) -> stack_ok d' (h b :: rest)) ->
  (forall x m' g' d' a', still n m' g' d' (List 0 :: rest) a' ->
     wpu (k (inl x)) (fun _ => still n m' g' d' (List 0 :: rest)) a') ->
  (forall e a', still n m g d (List 0 :: rest) a' ->
     wpu (k (inr e)) (fun _ a'' => still n m g d (List 0 :: rest) a'' /\ describes (D:=D) (H:=H) e (status a'')) a') ->
  wpu (r ← ask c; k r) (fun b => dispatched n g d (Some o) (h b, NavNone)) a.
Proof.
  intros Hl Ha Hs Hp Hg Hperm Hrun Hno Hh HV HF. apply wpu_bind.
  eapply (wpu_ask_op n m g d (List 0 :: rest)); [done..| |].
  - intros a' m' g' d' x Ha' Hacc Hnext. eapply wpu_conseq; [by eapply HV|]. intros b a2 H2.
    assert (Hs' : stack_ok d' (scr :: rest)).
    { eapply stack_ok_plain; [done|by intros s [= <-]|]. intros name. by eapply accepts_grows. }
    exists m', g', d', rest. split_and!; [done|by apply Hh|done|done|done|]. left. by eexists.
  - intros a' e Ha' He. eapply wpu_conseq; [by eapply HF|]. intros b a2 [H2 Hd].
    exists m, g, d, rest. split_and!; [done|by apply Hh|done|by right|done|]. right. split; [done|]. by exists e.
Qed.

Lemma clamp_lt sel k : (0 < k)%nat -> (clamp_sel sel k < k)%nat.
Proof. unfold clamp_sel. lia. Qed.

(** A plain screen over a plain one. *)
Lemma push_over d s scr rest : stack_ok d (scr :: rest) -> plain scr = true -> plain s = true -> is_list s = false ->
  screen_ok d s -> stack_ok (H:=H) d (s :: scr :: rest).
Proof. intros. apply push_plain; try done. by intros s' [= <-]. Qed.

(** ** The targets of a row view *)

Section Looking.
Context (n : Z) (m : medium) (g : Z) (d : database) (Hl : ~ may_lose (D:=D)).
Context (stk : list (Screen (H:=H))).
Abbreviation still := (still n m g d stk).

Lemma arrow_label_ok fk table id a : still a -> live_id d table id ->
  wpu (arrow_label fk table id) (fun _ => still) a.
Proof using Hl.
  intros Ha Hid. apply wpu_bind. eapply wpu_follow; [done..|apply live_valid; [apply Ha|done]|]. intros a1 H1.
  destruct (ok _) as [[to [|[x trow] l]]|]; [by apply wpu_ret| |by apply wpu_ret].
  apply wpu_bind. eapply wpu_get_table; [done..|]. intros a2 H2. destruct (table_of d to) as [t|]; [|by apply wpu_ret].
  destruct (label_val t trow) as [s Hs]. apply wpu_bind. by eapply wpu_pure; [|apply wpu_ret].
Qed.

Lemma outgoing_ok t table id r fk a : still a -> live_id d table id ->
  wpu (outgoing t table id r fk) (fun _ => still) a.
Proof using Hl.
  intros Ha Hid. unfold outgoing. destruct (_ ≫= _); [|by apply wpu_ret]. apply wpu_bind.
  eapply wpu_conseq; [by apply arrow_label_ok|]. intros x a1 H1. by apply wpu_ret.
Qed.

Lemma incoming_ok table id ref a : still a -> live_id d table id -> wpu (incoming table id ref) (fun _ => still) a.
Proof using Hl.
  intros Ha Hid. destruct ref as [[[tbl fkname] rid] r]. apply wpu_bind. eapply wpu_get_table; [done..|].
  intros a1 H1. apply wpu_bind. eapply wpu_get_table; [done..|]. intros a2 H2.
  destruct (table_of d tbl) as [ot|]; [|by apply wpu_ret]. destruct (table_of d table); [|by apply wpu_ret].
  destruct (List.find _ _) as [fk|]; [|by apply wpu_ret]. apply wpu_bind.
  eapply wpu_get_row; [done..|apply live_valid; [apply Ha|done]|]. intros a3 H3.
  destruct (ok _) as [srow|]; [|by apply wpu_ret]. apply wpu_bind. eapply wpu_get_table; [done..|].
  intros a4 H4. destruct (_ ≫= _) as [v|]; [|by apply wpu_ret].
  destruct (label_val ot r) as [s Hs]. apply wpu_bind. by eapply wpu_pure; [|apply wpu_ret].
Qed.

Lemma nav_targets_ok table id a : still a -> live_id d table id -> wpu (nav_targets table id) (fun _ => still) a.
Proof using Hl.
  intros Ha Hid. apply wpu_bind. eapply wpu_get_table; [done..|]. intros a1 H1.
  assert (Hlive : valid_id d table id) by (apply live_valid; [apply Ha|done]).
  assert (Hinc : forall (out : list (bytes * (bytes * bytes * Value.t))) a', still a' ->
    wpu (refs ← ask_ok (referencing_rows table id); inc ← for_collect (default [] refs) (incoming table id);
         mret (out ++ concat inc)) (fun _ => still) a').
  { intros out a' Ha'. apply wpu_bind. eapply wpu_referencing; [done..|]. intros a2 H2. apply wpu_bind.
    eapply (wpu_collect _ still (fun _ _ => True)); [done| |intros; by apply wpu_ret].
    intros x a3 _ H3. eapply wpu_conseq; [by apply incoming_ok|done]. }
  apply wpu_bind. destruct (table_of d table) as [t|]; [|by apply wpu_ret, Hinc].
  apply wpu_bind. eapply wpu_get_row; [done..|]. intros a2 H2. destruct (ok _) as [r|]; [|by apply wpu_ret, Hinc].
  apply wpu_bind. eapply (wpu_collect _ still (fun _ _ => True)); [done| |intros; by apply wpu_ret, Hinc].
  intros x a3 _ H3. eapply wpu_conseq; [by apply outgoing_ok|done].
Qed.

End Looking.

Section Dispatch.
Context (n : Z) (m : medium) (g : Z) (d : database) (Hl : ~ may_lose (D:=D)) (Hg : g + 1 < 2 ^ 64).
Context (rest : list (Screen (H:=H))).
Abbreviation still := (still n m g d (List 0 :: rest)).
Abbreviation quiet := (fun r => dispatched n g d None r) (only parsing).

Lemma list_hw_ok k sel a : still a -> stack_ok d (List sel :: rest) ->
  wpu (list_hw k) (fun nav a' => still a' /\ nav_ok d (List sel :: rest) nav) a.
Proof.
  intros Ha Hs. apply wpu_bind. eapply wpu_on_hw; [done|]. intros [s st] a1 H1.
  assert (Hend : forall a', still a' ->
    wpu (mret (match s with Some s => NavPush (HwS s) | None => NavNone end))
      (fun nav a' => still a' /\ nav_ok d (List sel :: rest) nav) a').
  { intros a' Ha'. apply wpu_ret. split; [done|]. destruct s; [|done]. by apply push_over. }
  apply wpu_bind. destruct st; [eapply wpu_say; [done|]; intros; by apply Hend|by apply Hend].
Qed.

Lemma dispatch_list_ok sel k a : still a -> stack_ok d (List sel :: rest) ->
  wpu (dispatch_list sel k) quiet a.
Proof using Hl.
  intros Ha Hs. unfold dispatch_list. apply wpu_bind. eapply wpu_list_tables; [done..|]. intros a1 H1.
  cbn [unwrap_or]. set (tables := spec_list_tables d). set (sel' := clamp_sel sel (length tables)).
  assert (Hs' : forall i, stack_ok d (List i :: rest)) by (intros i; by eapply stack_ok_put).
  assert (Hend : forall c, wpu c (fun nav a' => still a' /\ nav_ok d (List sel :: rest) nav) a1 ->
    wpu (nav ← c; mret (List (step_sel k sel' (length tables)), nav)) quiet a1).
  { intros c Hc. apply wpu_bind. eapply wpu_conseq; [exact Hc|]. intros nav a2 [H2 Hn]. apply wpu_ret.
    eapply dispatched_same; [done|apply Hs'|]. destruct nav as [| |s|]; try done.
    destruct Hn as (N1 & N2 & N3 & _). split_and!; [done|done|by destruct s|apply Hs']. }
  assert (Hquiet : wpu (mret NavNone) (fun nav a' => still a' /\ nav_ok d (List sel :: rest) nav) a1) by done.
  assert (Hpush : forall s, plain s = true -> is_list s = false -> screen_ok d s ->
    wpu (mret (NavPush s)) (fun nav a' => still a' /\ nav_ok d (List sel :: rest) nav) a1).
  { intros s H2 H3 H4. apply wpu_ret. split; [done|]. by apply push_over. }
  apply Hend. destruct k; try exact Hquiet.
  - repeat (match goal with |- wpu (if ?b then _ else _) _ _ => destruct b end); try exact Hquiet;
      [by apply Hpush; try done; cbn; split..|by apply list_hw_ok].
  - destruct (Nat.ltb_spec 0 (length tables)) as [Hlt|]; [|exact Hquiet].
    destruct (lookup_lt_is_Some_2 tables sel' (clamp_lt _ _ Hlt)) as [x Hx].
    apply wpu_bind. eapply wpu_lift; [by rewrite Hx|]. by apply Hpush.
Qed.

Lemma license_lines_val text : exists ls, license_lines text = Val ls.
Proof.
  unfold license_lines. destruct (map_o_total (fun src => Text.wrap src 88) (lines text)) as [ls ->]; [|by eexists].
  intros src. unfold Text.wrap, Text.chunks. destruct (chars src); by eexists.
Qed.

Lemma about_lines_val : exists ls, about_lines = Val ls.
Proof.
  unfold about_lines. destruct (license_lines_val hw_project_license) as [p ->], (license_lines_val hw_font_license) as [f ->].
  by eexists.
Qed.

Lemma dispatch_about_ok top k a : still a -> stack_ok d (About top :: rest) ->
  wpu (dispatch_about top k) quiet a.
Proof.
  intros Ha Hs. unfold dispatch_about. destruct about_lines_val as [all Eall]. apply wpu_bind.
  eapply wpu_pure; [exact Eall|]. apply wpu_bind. eapply wpu_visible_rows; [done|]. intros vis.
  apply wpu_ret. eapply dispatched_same; [done|..]; [by destruct k; eapply stack_ok_put|by destruct k].
Qed.

Lemma dispatch_hw_ok s k a : still a -> stack_ok d (HwS s :: rest) -> wpu (dispatch_hw s k) quiet a.
Proof.
  intros Ha Hs. apply wpu_bind. eapply wpu_on_hw; [done|]. intros [[s' nav] st] a1 H1.
  assert (Hs' : stack_ok d (HwS s' :: rest)) by (by eapply stack_ok_put).
  assert (Hend : forall a', still a' -> wpu (mret (HwS s', of_hw nav)) quiet a').
  { intros a' Ha'. apply wpu_ret. eapply dispatched_same; [done..|]. destruct nav; try done; by apply push_over. }
  apply wpu_bind. destruct st; [eapply wpu_say; [done|]; intros; by apply Hend|by apply Hend].
Qed.

(** ** The browser *)

Lemma open_field_ok existing p : (forall r, existing = Some r -> Forall cell_ok r) -> field_ok (open_field existing p).
Proof.
  intros Hr. destruct p as [ci c]. unfold open_field, field_ok. destruct existing as [r|]; cbn [mbind option_bind].
  2: by split.
  destruct (r !! ci) as [[v|]|] eqn:E; [|by split..]. cbn. apply display_field_ok.
  assert (Hv : cell_ok (Some v)) by (eapply Forall_lookup_1; [by apply Hr|done]). apply Hv.
Qed.

(** The editor that opens: the columns of the table, the cells of the row. *)
Definition editor_of (table : bytes) (oid : option RowId.t) (t : Table.t) : Editor.t :=
  Editor.mk table oid (Table.columns t)
    (open_field (id ← oid; ok (answered (spec_get_row d table id))) <$> enumerate (Table.columns t)) 0 None.

Lemma open_editor_spec table oid a : still a -> (forall id, oid = Some id -> live_id d table id) ->
  wpu (open_editor table oid) (fun s a' => still a' /\
    s = (EditorScreen ∘ editor_of table oid) <$> table_of d table) a.
Proof using Hl.
  intros Ha Hid. apply wpu_bind. eapply wpu_ask_read; [done..| |apply spec_get_table_no_abort|].
  { intros σ L Hr. by apply (returns_get_table n m σ L d). }
  intros a1 H1. unfold table_of. destruct (spec_get_table d table) as [t|e| |] eqn:Et; cbn [answered].
  2-4: apply wpu_bind; eapply wpu_err; [done|]; intros a2 H2 _; by apply wpu_ret.
  apply wpu_bind. destruct oid as [id|].
  - eapply wpu_get_row; [done|done|apply live_valid; [apply H1|by apply Hid]|]. intros a2 H2. by apply wpu_ret.
  - apply wpu_ret. by apply wpu_ret.
Qed.

Lemma open_editor_ok table oid a : still a -> (forall id, oid = Some id -> live_id d table id) ->
  wpu (open_editor table oid) (fun s a' => still a' /\
    forall s', s = Some s' -> exists ed, s' = EditorScreen ed /\ editor_ok d ed) a.
Proof using Hl.
  intros Ha Hid. eapply wpu_conseq; [by apply open_editor_spec|]. intros s a' [Ha' ->]. split; [done|].
  destruct (table_of d table) as [t|] eqn:Et; [|done]. intros s' [= <-]. eexists. split; [done|].
  destruct (table_of_some d table t Et) as (u & Hu & En & Eu).
  split; cbn; [exists u; unfold dt_cols; by rewrite Eu| | |lia|done].
  - rewrite length_fmap. unfold enumerate. rewrite length_zip, length_seq. lia.
  - apply Forall_fmap, Forall_true. intros p. apply open_field_ok. intros r Hr.
    destruct oid as [id|]; [|done]. cbn in Hr.
    destruct (row_read d table id r) as (_ & _ & _ & _ & ?); [apply Ha'|eapply holds_fits, Ha'|by apply Hid|done|done].
Qed.

Lemma row_id_ok table filter sort i a : still a -> (i < length (spec_rows d table filter sort))%nat ->
  wpu (row_id table filter sort i) (fun id a' => still a' /\ live_id d table id) a.
Proof using Hl.
  intros Ha Hi. apply wpu_bind. eapply wpu_cached_rows; [done..|]. intros a1 H1.
  destruct (lookup_lt_is_Some_2 _ _ Hi) as [p Hp]. apply wpu_bind. eapply wpu_lift; [by rewrite Hp|].
  apply wpu_ret. split; [done|]. eapply spec_rows_live. by eapply list_elem_of_lookup_2.
Qed.

Lemma browser_order_ok table i col filter sort a : still a ->
  wpu (browser_order table i col filter sort) (fun _ => still) a.
Proof using Hl.
  intros Ha. apply wpu_bind. eapply wpu_cached_rows; [done..|]. intros a1 H1. apply wpu_bind.
  destruct (fst <$> _).
  - apply wpu_bind. eapply wpu_cached_rows; [done..|]. intros a2 H2. apply wpu_ret, wpu_bind.
    eapply wpu_say; [done|]. intros a3 H3. by apply wpu_ret.
  - apply wpu_ret, wpu_bind. eapply wpu_say; [done|]. intros a3 H3. by apply wpu_ret.
Qed.

(** What the browser opens. *)
Definition opens_over (s : Screen (H:=H)) : Prop :=
  (plain s = true /\ is_list s = false \/ exists ed, s = EditorScreen ed) /\ screen_ok d s.
Definition nav_over (nav : Nav (H:=H)) : Prop :=
  match nav with NavPush s => opens_over s | _ => True end.

Lemma opened_over table row col top filter sort nav :
  stack_ok d (Browser table row col top filter sort :: rest) -> nav_over nav ->
  nav_ok d (Browser table row col top filter sort :: rest) nav.
Proof.
  intros Hs Hn. destruct nav; try done. destruct Hn as [[[Hp Hi]|[ed ->]] Hok]; [by apply push_over|].
  by apply stack_ok_push; [..|intros below rest' [= <- <-]].
Qed.

Lemma browser_char_ok table row col nrows ncols filter sort c a : still a ->
  nrows = length (spec_rows d table filter sort) -> ((0 < nrows)%nat -> (row < nrows)%nat) ->
  wpu (browser_char table row col nrows ncols filter sort c) (fun r a' => still a' /\ nav_over r.2) a.
Proof using Hl.
  intros Ha -> Hrow. unfold browser_char.
  assert (Hquiet : forall (r : nat) (s : option (nat * bool)), wpu (mret (r, s, NavNone)) (fun r a' => still a' /\ nav_over r.2) a) by done.
  assert (Hopen : forall oid a0, still a0 -> (forall id, oid = Some id -> live_id d table id) ->
    wpu (s ← open_editor table oid; mret (row, sort, opened s)) (fun r a' => still a' /\ nav_over r.2) a0).
  { intros oid a0 H0 Hid. apply wpu_bind. eapply wpu_conseq; [by apply open_editor_ok|]. intros s a1 [H1 Hs].
    apply wpu_ret. split; [done|]. destruct s as [s|]; [|done]. destruct (Hs s eq_refl) as (ed & -> & Hed).
    cbn. split; [right; by exists ed|done]. }
  destruct (key_in (str "o") c && _).
  { apply wpu_bind. eapply wpu_conseq; [by apply browser_order_ok|]. intros [r s] a1 H1. by apply wpu_ret. }
  destruct (key_in (str "i") c); [by apply Hopen|].
  destruct (key_in (str "u") c && _) eqn:Eu.
  { apply andb_true_iff in Eu as [_ Hn%Nat.ltb_lt]. apply wpu_bind. eapply wpu_conseq; [apply row_id_ok; auto|].
    intros id a1 [H1 Hid]. apply Hopen; [done|]. by intros ? [= <-]. }
  destruct (key_in (str "d") c && _) eqn:Ed.
  { apply andb_true_iff in Ed as [_ Hn%Nat.ltb_lt]. apply wpu_bind. eapply wpu_conseq; [apply row_id_ok; auto|].
    intros id a1 [H1 Hid]. apply wpu_ret. split; [done|]. split; [by left|done]. }
  destruct (key_in (str "s") c); [|apply Hquiet]. apply wpu_ret. split; [done|]. split; [by left|done].
Qed.

Lemma dispatch_browser_ok table row col top filter sort k a : still a ->
  stack_ok d (Browser table row col top filter sort :: rest) ->
  wpu (dispatch_browser table row col top filter sort k) quiet a.
Proof using Hl.
  intros Ha Hs. unfold dispatch_browser. apply wpu_bind. eapply wpu_get_table; [done..|]. intros a1 H1.
  set (ncols := from_option _ _ _). apply wpu_bind. eapply wpu_cached_rows; [done..|]. intros a2 H2.
  set (nrows := length _). apply wpu_bind. eapply wpu_visible_rows; [done|]. intros vis.
  assert (Hend : forall c, wpu c (fun r a' => still a' /\ nav_over r.2) a2 ->
    wpu ('(row, sort, nav) ← c; mret (Browser table row (browser_col k (clamp_sel col ncols) ncols)
      (scroll top row vis) filter sort, nav)) quiet a2).
  { intros c Hc. apply wpu_bind. eapply wpu_conseq; [exact Hc|]. intros [[r s] nav] a3 [H3 Hn]. apply wpu_ret.
    assert (Hb : forall r c t f s, stack_ok d (Browser table r c t f s :: rest)) by (intros; by eapply stack_ok_put).
    eapply dispatched_same; [done|apply Hb|]. by apply opened_over. }
  assert (Hquiet : forall (r : nat) (s : option (nat * bool)) (nav : Nav (H:=H)), match nav with NavPush _ => False | _ => True end ->
    wpu (mret (r, s, nav)) (fun r a' => still a' /\ nav_over r.2) a2).
  { intros r s nav Hnav. apply wpu_ret. split; [done|]. by destruct nav. }
  assert (Hrow : (0 < nrows)%nat -> (clamp_sel row nrows < nrows)%nat) by apply clamp_lt.
  apply Hend. destruct k; try by apply Hquiet.
  - by apply browser_char_ok.
  - destruct (Nat.ltb_spec 0 nrows); [|by apply Hquiet]. apply wpu_bind.
    eapply wpu_conseq; [apply row_id_ok; auto|]. intros id a3 [H3 Hid]. apply wpu_ret. split; [done|].
    split; [by left|done].
Qed.

(** ** The row view *)

Lemma dispatch_rowview_ok table id sel k a : still a -> stack_ok d (RowView table id sel :: rest) ->
  wpu (dispatch_rowview table id sel k) quiet a.
Proof using Hl.
  intros Ha Hs. assert (Hid : live_id d table id).
  { destruct rest; [done|]. by destruct Hs as (_ & ? & _). }
  apply wpu_bind. eapply wpu_conseq; [by apply nav_targets_ok|]. intros navs a1 H1.
  set (sel' := clamp_sel sel (length navs)).
  assert (Hs' : forall i, stack_ok d (RowView table id i :: rest)) by (intros; by eapply stack_ok_put).
  assert (Hend : forall i nav, match nav with NavPush _ => False | _ => True end ->
    quiet (RowView table id i, nav) a1).
  { intros i nav Hn. eapply dispatched_same; [exact H1|apply Hs'|by destruct nav]. }
  apply wpu_bind. destruct k; try by apply wpu_ret, wpu_ret, Hend.
  destruct (Nat.ltb_spec 0 (length navs)) as [Hlt|]; [|by apply wpu_ret, wpu_ret, Hend].
  destruct (lookup_lt_is_Some_2 navs sel' (clamp_lt _ _ Hlt)) as [[lbl [[tbl col] v]] Hx].
  apply wpu_bind. eapply wpu_lift; [by rewrite Hx|]. apply wpu_ret, wpu_ret.
  eapply dispatched_same; [exact H1|apply Hs'|]. by apply push_over.
Qed.

(** ** The schema *)

Lemma key_in_eq x c : key_in [x] c = true -> c = x.
Proof. unfold key_in. cbn. rewrite orb_false_r. by intros ->%Z.eqb_eq. Qed.

Lemma sel_col_ok t sel (Q : Column.t -> app -> Prop) a c : t ≫= (fun t => Table.columns t !! sel) = Some c -> Q c a ->
  wpu (sel_col t sel) Q a.
Proof.
  intros E HQ. destruct t as [t|]; [|done]. cbn in E.
  apply wpu_bind. eapply wpu_lift; [done|]. eapply wpu_lift; [by rewrite E|done].
Qed.

Lemma pick_columns_ok table title action a : still a ->
  wpu (pick_columns table title action)
    (fun s a' => still a' /\ plain s = true /\ is_list s = false /\ screen_ok d s) a.
Proof using Hl.
  intros Ha. apply wpu_bind. eapply wpu_get_table; [done..|]. intros a1 H1. apply wpu_ret.
  split_and!; [done..|]. cbn. destruct (from_option _ _ _); [by right|left; cbn; lia].
Qed.

Section Schema.
Context (table : bytes) (t := table_of d table) (len := from_option (fun t => length (Table.columns t)) 0%nat t).
Context (sel0 : nat) (sel := clamp_sel sel0 len) (Hs : stack_ok d (SchemaScreen table sel0 :: rest)).

Abbreviation schema_ends o := (fun (r : nat * Nav (H:=H)) a' => dispatched n g d o (SchemaScreen table r.1, r.2) a').

Lemma schema_over i d' : stack_ok (H:=H) d' (SchemaScreen table sel0 :: rest) -> stack_ok d' (SchemaScreen table i :: rest).
Proof. intros ?. by eapply stack_ok_put. Qed.

Lemma schema_look o i nav a : still a -> o = None ->
  match nav with NavPush s => plain s = true /\ is_list s = false /\ screen_ok d s | _ => True end ->
  schema_ends o (i, nav) a.
Proof using Hs.
  intros Ha -> Hn. pose proof (schema_over i d Hs) as Hs'. eapply dispatched_same; [done..|].
  destruct nav as [| |s|]; try done. destruct Hn as (H1 & H2 & H3). by apply push_over.
Qed.

Lemma schema_col : (0 < len)%nat -> exists c, (t ≫= fun t => Table.columns t !! sel) = Some c.
Proof.
  intros Hn. pose proof (clamp_lt sel0 len Hn) as Hlt. fold sel in Hlt. unfold len in *.
  destruct t as [t'|]; [|cbn in Hn; lia]. cbn in *. by apply lookup_lt_is_Some_2.
Qed.

Lemma schema_col_ok a c : still a -> (t ≫= fun t => Table.columns t !! sel) = Some c -> TableFacts.column_ok c.
Proof.
  intros Ha Hc. unfold t in Hc. destruct (table_of d table) as [t'|] eqn:Et; [|done]. cbn in Hc.
  destruct (table_of_some _ _ _ Et) as (u & [i Hi]%list_elem_of_lookup & _ & <-).
  destruct (holds_fits _ _ _ _ _ (st_holds _ _ _ _ _ _ Ha) i u Hi) as [Hok _].
  eapply Forall_lookup_1; [apply Hok|exact Hc].
Qed.

Lemma move_sel_ok to dir a : still a -> (0 < len)%nat ->
  (forall c, (t ≫= fun t => Table.columns t !! sel) = Some c ->
     edit_fits d (MoveColumn table (Column.name c) to)) ->
  wpu (move_sel table t sel to dir)
    (fun i => dispatched n g d (c ← (t ≫= fun t => Table.columns t !! sel);
       Some (Edit (MoveColumn table (Column.name c) to))) (SchemaScreen table i, NavNone)) a.
Proof using Hl Hg Hs.
  intros Ha Hn Hp. destruct (schema_col Hn) as [c Hc]. apply wpu_bind. eapply sel_col_ok; [exact Hc|].
  rewrite Hc. cbn [mbind option_bind].
  eapply (wpu_screen_op n m g d (SchemaScreen table sel0) rest _ (fun _ => Done) _ _ (fun i => SchemaScreen table i));
    [done..|by apply Hp|done|done|by intros; apply schema_over| |].
  - intros x m' g' d' a' Ha'. apply wpu_bind. eapply wpu_say; [done|]. intros a2 H2. by apply wpu_ret.
  - intros e a' Ha'. apply wpu_bind. eapply wpu_err; [done|]. intros a2 H2 Hd. by apply wpu_ret.
Qed.

(** The other keys only look. *)
Lemma schema_op_none c : key_in (str "u") c && (0 <? len)%nat = false ->
  key_in (str ",") c && (2 <=? len)%nat && (0 <? sel)%nat = false ->
  key_in (str ".") c && (2 <=? len)%nat && (sel + 1 <? len)%nat = false -> schema_op table t sel0 c = None.
Proof.
  intros E1 E2 E3. unfold schema_op. fold len. fold sel.
  destruct (t ≫= fun t => Table.columns t !! sel) as [x|] eqn:Ex; [|done]. cbn [mbind option_bind].
  assert (Hn : (0 <? len)%nat = true).
  { apply Nat.ltb_lt. unfold len. destruct t; [|done]. cbn in *. apply lookup_lt_Some in Ex. lia. }
  rewrite Hn, andb_true_r in E1. by rewrite E1, E2, E3.
Qed.

Lemma schema_op_eq c x : (t ≫= fun t => Table.columns t !! sel) = Some x ->
  schema_op table t sel0 c =
    if key_in (str "u") c then Some (Edit (SetUnique table (Column.name x) (negb (Column.unique x))))
    else if key_in (str ",") c && (2 <=? len)%nat && (0 <? sel)%nat
    then Some (Edit (MoveColumn table (Column.name x) (sel - 1)))
    else if key_in (str ".") c && (2 <=? len)%nat && (sel + 1 <? len)%nat
    then Some (Edit (MoveColumn table (Column.name x) (sel + 1)))
    else None.
Proof. intros Hx. unfold schema_op. fold len. fold sel. by rewrite Hx. Qed.

Lemma schema_char_ok c a : still a -> (forall o, schema_op table t sel0 c = Some o -> permitted d o) ->
  wpu (schema_char table t len sel c) (schema_ends (schema_op table t sel0 c)) a.
Proof using Hl Hg Hs.
  intros Ha Hp. unfold schema_char.
  assert (Hpush : forall b s, key_in [b] c = true -> schema_op table t sel0 b = None ->
    plain s = true /\ is_list s = false /\ screen_ok d s ->
    wpu (mret (sel, NavPush s)) (schema_ends (schema_op table t sel0 c)) a).
  { intros b s ->%key_in_eq E Hok. apply wpu_ret. by apply schema_look. }
  assert (Hcol : forall b (f : Column.t -> Screen (H:=H)), key_in [b] c && (0 <? len)%nat = true ->
    schema_op table t sel0 b = None ->
    (forall x, TableFacts.column_ok x -> plain (f x) = true /\ is_list (f x) = false /\ screen_ok d (f x)) ->
    wpu (col ← sel_col t sel; mret (sel, NavPush (f col))) (schema_ends (schema_op table t sel0 c)) a).
  { intros b f [Hb Hn%Nat.ltb_lt]%andb_true_iff E Hok. destruct (schema_col Hn) as [x Hx]. apply wpu_bind.
    eapply sel_col_ok; [exact Hx|]. apply (Hpush b); [done..|]. apply Hok. by eapply schema_col_ok. }
  assert (Hnone : forall b, b <> 117 -> b <> 44 -> b <> 46 -> schema_op table t sel0 b = None).
  { intros b H1 H2 H3. apply schema_op_none; unfold key_in; cbn;
      rewrite (proj2 (Z.eqb_neq _ _)) by done; done. }
  destruct (key_in (str "a") c) eqn:Ea; [by apply (Hpush 97); [|apply Hnone|]|].
  destruct (key_in (str "x") c && _) eqn:Ex; [by apply (Hcol 120 (fun col => Confirm _ _)); [|apply Hnone|]|].
  destruct (key_in (str "r") c && _) eqn:Er.
  { apply (Hcol 114 (fun col => Prompt _ _ _ _)); [done|by apply Hnone|]. intros x [Hx _]. split_and!; [done|done|].
    apply caret_end, Hx. }
  destruct (key_in (str "w") c && _) eqn:Ew.
  { apply (Hcol 119 (fun col => Prompt _ _ _ _)); [done|by apply Hnone|]. intros x [_ Hx]. split_and!; [done|done|].
    apply caret_end. destruct (Column.display_width x) as [w|]; [|done]. apply utf8_valid_ascii, fmt_u64_ascii.
    cbn in Hx. lia. }
  destruct (key_in (str "u") c && _) eqn:Eu.
  { apply andb_true_iff in Eu as [Hc%key_in_eq Hn%Nat.ltb_lt]. change (c = 117) in Hc. subst c. destruct (schema_col Hn) as [x Hx].
    pose proof (schema_op_eq 117 x Hx : _ = Some (Edit (SetUnique table (Column.name x) (negb (Column.unique x))))) as E.
    rewrite E in *.
    apply wpu_bind. eapply sel_col_ok; [exact Hx|]. apply wpu_bind.
    eapply (wpu_screen_op n m g d (SchemaScreen table sel0) rest _ (fun _ => Done) _ _
      (fun _ => SchemaScreen table sel)); [done..|by apply Hp|done|done|by intros; apply schema_over| |].
    - intros y m' g' d' a' Ha'. eapply wpu_say; [done|]. by intros.
    - intros e a' Ha'. eapply wpu_err; [done|]. by intros. }
  destruct (key_in (str ",") c && _ && _) eqn:Ecomma.
  { pose proof Ecomma as E. apply andb_true_iff in E as [[Hc%key_in_eq H2%Nat.leb_le]%andb_true_iff _].
    change (c = 44) in Hc. subst c.
    destruct (schema_col ltac:(lia)) as [x Hx]. pose proof (schema_op_eq 44 x Hx) as E. rewrite Ecomma in E.
    change (key_in (str "u") 44) with false in E. cbv iota in E. rewrite E in *. apply wpu_bind.
    eapply wpu_conseq; [apply move_sel_ok; [done|lia|]|].
    - intros y Hy. rewrite Hx in Hy. injection Hy as <-. exact (Hp _ eq_refl).
    - rewrite Hx. cbn [mbind option_bind]. intros i a' Hi. apply wpu_ret, Hi. }
  destruct (key_in (str ".") c && _ && _) eqn:Edot.
  { pose proof Edot as E. apply andb_true_iff in E as [[Hc%key_in_eq H2%Nat.leb_le]%andb_true_iff _].
    change (c = 46) in Hc. subst c.
    destruct (schema_col ltac:(lia)) as [x Hx]. pose proof (schema_op_eq 46 x Hx) as E. rewrite Ecomma, Edot in E.
    change (key_in (str "u") 46) with false in E. cbv iota in E. rewrite E in *. apply wpu_bind.
    eapply wpu_conseq; [apply move_sel_ok; [done|lia|]|].
    - intros y Hy. rewrite Hx in Hy. injection Hy as <-. exact (Hp _ eq_refl).
    - rewrite Hx. cbn [mbind option_bind]. intros i a' Hi. apply wpu_ret, Hi. }
  pose proof (schema_op_none c Eu Ecomma Edot) as E. rewrite E.
  assert (Hplain : forall i nav, match nav with NavPush s => plain s = true /\ is_list s = false /\ screen_ok d s | _ => True end ->
    wpu (mret (i, nav)) (schema_ends None) a) by (intros i nav Hn; apply wpu_ret; by apply schema_look).
  destruct (key_in (str "k") c).
  { apply wpu_bind. eapply wpu_conseq; [by apply pick_columns_ok|]. intros s a1 [H1 Hok]. apply wpu_ret. by apply schema_look. }
  destruct (key_in (str "K") c).
  { apply Hplain. destruct (from_option (fun t => ForeignKey.name <$> Table.fks t) [] t) as [|f fs]; [done|]. split_and!; [done|done|]. left. cbn. lia. }
  destruct (key_in (str "D") c); [by apply Hplain|].
  destruct (key_in (str "R") c); by apply Hplain.
Qed.


Lemma dispatch_schema_ok k a : still a ->
  (forall o, key_op d (SchemaScreen table sel0) k = Some o -> permitted d o) ->
  wpu (dispatch_schema table sel0 k) (dispatched n g d (key_op d (SchemaScreen table sel0) k)) a.
Proof using Hl Hg Hs.
  intros Ha Hp. apply wpu_bind. eapply wpu_get_table; [done..|]. intros a1 H1. apply wpu_bind. fold t len sel.
  assert (Hend : forall i nav, match nav with NavPush _ => False | _ => True end ->
    schema_ends None (i, nav) a1) by (intros i nav Hn; apply schema_look; [done|done|by destruct nav]).
  destruct k; cbn [key_op] in *; try by apply wpu_ret, wpu_ret, Hend.
  eapply wpu_conseq; [by apply schema_char_ok|]. intros [i nav] a2 H2. apply wpu_ret, H2.
Qed.

End Schema.

(** ** The label columns *)

Lemma dispatch_refcols_ok table order sel k a : still a -> stack_ok d (RefCols table order sel :: rest) ->
  (forall o, key_op d (RefCols table order sel) k = Some o -> permitted d o) ->
  wpu (dispatch_refcols table order sel k) (dispatched n g d (key_op d (RefCols table order sel) k)) a.
Proof using Hl Hg.
  intros Ha Hs Hp. apply wpu_bind. eapply wpu_get_table; [done..|]. intros a1 H1. cbn [key_op] in *.
  unfold refcols_op in *. set (cols := from_option col_names [] (table_of d table)) in *. cbv zeta in Hp |- *.
  set (sel' := if (0 <? length cols)%nat then _ else _) in *.
  destruct (refcols_key k (cols !! sel') order) as [order' commit] eqn:Ek.
  assert (Hs' : forall d' i, stack_ok d' (RefCols table order sel :: rest) -> stack_ok d' (RefCols table order' i :: rest))
    by (intros; by eapply stack_ok_put).
  destruct commit.
  - assert (match k with Ps2.Esc => NavPop | _ => NavNone end = NavNone (H:=H)) as -> by (by destruct k).
    apply wpu_bind.
    eapply (wpu_screen_op n m g d (RefCols table order sel) rest _ (fun _ => Done) _ _
      (fun _ => RefCols table order' (step_sel k sel' (length cols)))); [done..|by apply Hp|done|done|by auto| |].
    + intros y m' g' d' a' Ha'. eapply wpu_say; [done|]. by intros.
    + intros e a' Ha'. eapply wpu_err; [done|]. by intros.
  - apply wpu_bind, wpu_ret, wpu_ret. eapply dispatched_same; [done|by apply Hs'|by destruct k].
Qed.

End Dispatch.

(** ** The foreign-key picker *)

(** The text of a field set, as a picker and a builder do. *)
Lemma filled_ok d ed i text : editor_ok d ed -> utf8_valid text = true -> (i < length (Editor.fields ed))%nat ->
  editor_ok d (Editor.with_focus i (Editor.with_error None
    (Editor.with_fields (fill_field i text (Editor.fields ed)) ed))).
Proof.
  intros [H1 H2 H3 H4 H5] Hv Hi. split; cbn; [done| | |lia|done].
  - unfold fill_field. by rewrite length_insert.
  - apply Forall_insert; [done|]. by apply caret_end.
Qed.

(** Another editor of the same columns below. *)
Lemma editor_below d s ed ed' rest : stack_ok (H:=H) d (s :: EditorScreen ed :: rest) ->
  editor_ok d ed' -> Editor.cols ed' = Editor.cols ed -> stack_ok (H:=H) d (s :: EditorScreen ed' :: rest).
Proof.
  intros (H1 & H2 & H3 & H4) Hed E. split_and!; [done|done| |].
  - destruct s; try done. cbn in *. by rewrite E.
  - eapply stack_ok_put; [done|done|done|]. intros below. by destruct below.
Qed.

Section Picker.
Context (n : Z) (m : medium) (g : Z) (d : database) (Hl : ~ may_lose (D:=D)).
Context (ed : Editor.t) (rest : list (Screen (H:=H))).
Abbreviation stk ed := (List 0 :: EditorScreen ed :: rest).

(** The editor below keeps its columns. *)
Definition edited_below a' : Prop := exists ed', still n m g d (stk ed') a' /\ editor_ok d ed' /\ Editor.cols ed' = Editor.cols ed.

Lemma refuse_ok msg a : still n m g d (stk ed) a -> editor_ok d ed ->
  wpu (refuse msg) (fun _ => edited_below) a.
Proof. intros Ha Hed. apply wpu_bind. eapply wpu_say; [done|]. intros a' Ha'. apply wpu_ret. by exists ed. Qed.

Lemma fk_select_ok i id to_table to_col a : still n m g d (stk ed) a -> editor_ok d ed -> live_id d to_table id ->
  wpu (fk_select i id to_table to_col) (fun _ => edited_below) a.
Proof using Hl.
  intros Ha Hed Hid. apply wpu_bind. eapply wpu_get_table; [done..|]. intros a1 H1.
  destruct (table_of d to_table) as [t|]; [|by apply refuse_ok].
  destruct (Table.column_index t to_col) as [ci|]; [|by apply refuse_ok].
  apply wpu_bind. eapply wpu_get_row; [done..|apply live_valid; [apply Ha|done]|]. intros a2 H2.
  destruct (ok _) as [r|] eqn:Er; [|by apply refuse_ok].
  destruct (r !! ci) as [[v|]|] eqn:Ev; [|by apply refuse_ok..].
  destruct (row_read d to_table id r) as (_ & _ & _ & _ & Hr); [apply H2|eapply holds_fits, H2|done|done|].
  assert (Hv : cell_ok (Some v)) by (eapply Forall_lookup_1; done).
  unfold wpu, fill_editor. rewrite (st_stack _ _ _ _ _ _ H2). cbn [nearest_editor].
  destruct (Editor.fields ed !! i) as [f|] eqn:Ef; [|by exists ed].
  eexists. split; [by eapply still_set_stack|]. split; [|done].
  apply filled_ok; [done|by apply ValueFacts.display_utf8, Hv|]. by eapply lookup_lt_Some.
Qed.

Lemma dispatch_fk_pick_ok i from_col to_table to_col rows sel top k a :
  still n m g d (stk ed) a -> stack_ok d (FkPick i from_col to_table to_col rows sel top :: EditorScreen ed :: rest) ->
  wpu (dispatch_fk_pick i from_col to_table to_col rows sel top k) (dispatched n g d None) a.
Proof using Hl.
  intros Ha Hs. unfold dispatch_fk_pick. apply wpu_bind. eapply wpu_visible_rows; [done|]. intros vis.
  set (sel1 := if (length rows <=? sel)%nat then _ else _). destruct (fk_pick_move _ _ _ _ _) as [sel' top'].
  assert (Hed : editor_ok d ed) by (destruct Hs as (_ & _ & _ & Hs); destruct rest; [done|by destruct Hs as (_ & ? & _)]).
  assert (Hrows : Forall (fun p : RowId.t * bytes => live_id d to_table p.1) rows) by apply Hs.
  assert (Hs' : forall ed', editor_ok d ed' -> Editor.cols ed' = Editor.cols ed ->
    stack_ok d (FkPick i from_col to_table to_col rows sel' top' :: EditorScreen ed' :: rest)).
  { intros ed' H1 H2. eapply editor_below; [|done|done]. eapply stack_ok_put; [exact Hs|done|done|]. by intros below. }
  assert (Hend : forall nav a', match nav with NavPush _ => False | _ => True end -> edited_below a' ->
    dispatched n g d None (FkPick i from_col to_table to_col rows sel' top', nav) a').
  { intros nav a' Hn (ed' & H1 & H2 & H3). eapply dispatched_same; [exact H1|by apply Hs'|by destruct nav]. }
  apply wpu_bind. assert (Hsame : edited_below a) by (by exists ed).
  destruct k; try by apply wpu_ret, wpu_ret, Hend.
  destruct (Nat.ltb_spec 0 (length rows)) as [Hlt|]; [|by apply wpu_ret, wpu_ret, Hend].
  assert (Hsel : (sel1 < length rows)%nat) by (unfold sel1; destruct (Nat.leb_spec (length rows) sel); lia).
  destruct (lookup_lt_is_Some_2 _ _ Hsel) as [p Hp]. apply wpu_bind. eapply wpu_lift; [by rewrite Hp|].
  apply wpu_bind. eapply wpu_conseq; [apply fk_select_ok; [done|done|by eapply Forall_lookup_1 in Hrows]|].
  intros done_ a' Ha'. apply wpu_ret, wpu_ret, Hend; [by destruct done_|done].
Qed.

End Picker.

End Keys.
