(* ===== verification/UiEditor.v ===== *)
(** * The value builder and the row editor

    The keys of the two screens that make a row, over a store at rest: they
    never abort, what they show stays well-formed, and only saving touches the
    database. *)

From stdpp Require Import gmap.
From S2P Require Import Prelude Types Bignum Value ValueFacts Codec Schema Block Journal JournalFacts.
From S2P Require Import Pager PagerFacts Store Database Integrity Edits StoreFacts Heap Refinement.
From S2P Require Import Navigation Transactions Operations StoreRuns EditRefine StoreApi.
From S2P Require Import Ps2 UiText UiTextFacts Builder BuilderFacts App Screens Ui UiFacts Wellformed UiModals UiDispatch.
From S2P Require Rtc RtcFacts.
Import Store Text App Screens Ui.

Section Keys.
Context {D H : Type} `{!BlockDevice D, !DeviceLaws D, !Hardware H}.
Abbreviation app := (App.t (D := D) (H := H)) (only parsing).
Abbreviation M := (stM app Stop) (only parsing).
Implicit Types (a : app) (n g : Z) (m : medium) (d : database) (ed : Editor.t).

Lemma field_load_from v b : FieldBuilder.field (FieldBuilder.load_from v b) = FieldBuilder.field b.
Proof. destruct v; cbn [FieldBuilder.load_from]; try done; by destruct (FieldBuilder.split_number _) as [[] ?]. Qed.

Lemma field_fill_now now b : FieldBuilder.field (FieldBuilder.fill_now now b).2 = FieldBuilder.field b.
Proof. by destruct now. Qed.

Lemma field_fill_next b : FieldBuilder.field (FieldBuilder.fill_next b).2 = FieldBuilder.field b.
Proof.
  unfold FieldBuilder.fill_next. destruct (FieldBuilder.next_value b); [|done].
  by destruct (FieldBuilder.split_number _) as [[] ?].
Qed.

Lemma seeded_ok i c f : field_ok f -> exists b, seeded i c f = Val b /\ builder_ok b /\
  FieldBuilder.field b = i /\ FieldBuilder.ty b = Column.ty c.
Proof.
  intros [Hv _]. unfold seeded. set (b0 := FieldBuilder.new i (Column.name c) (Column.ty c)).
  assert (H0 : exists b, Val b0 = Val (E:=unit) b /\ builder_ok b /\ FieldBuilder.field b = i /\
    FieldBuilder.ty b = Column.ty c) by (exists b0; split_and!; [done|apply builder_new_ok|done..]).
  destruct (_ && _); [|done]. destruct (ValueFacts.value_parse_total (Column.ty c) (Field.value f) Hv) as [N1 N2].
  destruct (Value.parse (Column.ty c) (Field.value f)) as [v|e| |] eqn:E; [|done..].
  destruct (ValueFacts.parse_spec _ _ _ Hv E) as [Hw _]. eexists. split; [done|].
  split_and!; [by apply load_from_ok, builder_new_ok|by rewrite field_load_from|by rewrite load_from_ty].
Qed.

(** ** The next value of a key *)

Lemma max_value_elem l v : max_value l = Some v -> v ∈ l.
Proof.
  unfold max_value. destruct l as [|x l]; [done|]. intros [= <-].
  assert (Hf : forall l x, foldl (fun y v => match Value.cmp y v with Gt => y | _ => v end) x l ∈ x :: l).
  { clear. induction l as [|y l IH]; intros x; [left|]. cbn [foldl]. specialize (IH (match Value.cmp x y with Gt => x | _ => y end)).
    apply elem_of_cons in IH as [IH|IH]; [|by right; right]. rewrite IH. destruct (Value.cmp x y); [right; left|right; left|left]. }
  apply Hf.
Qed.

(** A text a builder may offer for a column of type [ty]. *)
Definition next_ok (ty : Ty.t) (n : bytes) : Prop :=
  exists v, is_key v /\ ValueFacts.wf v /\ Value.type_of v = ty /\ n = Value.display v.

Lemma with_next_ok (o : option bytes) b : builder_ok b -> (forall t, o = Some t -> next_ok (FieldBuilder.ty b) t) ->
  builder_ok (FieldBuilder.with_next o b).
Proof. intros [H1 H2 H3 _] Hn. by split. Qed.

Section Reads.
Context (n : Z) (m : medium) (g : Z) (d : database) (Hl : ~ may_lose (D:=D)) (stk : list (Screen (H:=H))).
Abbreviation still := (still n m g d stk).

(** The columns of a table are found again. *)
Lemma same_table u u' : integrity d -> u ∈ d -> u' ∈ d -> dt_name u = dt_name u' -> u = u'.
Proof.
  intros Hd [i Hi]%list_elem_of_lookup [j Hj]%list_elem_of_lookup E.
  assert (i = j) as -> by (eapply (names_inj d); [apply Hd|done|done|done]). congruence.
Qed.

Lemma next_unique_ok u ci c a : still a -> u ∈ d -> dt_cols u !! ci = Some c ->
  wpu (next_unique_value (dt_name u) ci (Column.ty c))
    (fun r a' => still a' /\ forall t, r = Some t -> next_ok (Column.ty c) t) a.
Proof using Hl.
  intros Ha Hu Hc. unfold next_unique_value. destruct (_ && _) eqn:Ety; [by apply wpu_ret|].
  apply wpu_bind. eapply wpu_ask_ok_read; [done..| |apply spec_scan_no_abort|].
  { intros σ L Hr. by apply (returns_scan n m σ L d). }
  intros a1 H1. apply wpu_ret. split; [done|]. destruct (spec_scan d (dt_name u)) as [rows|e| |] eqn:Es; try done.
  cbn. intros t [= <-].
  assert (Hone : next_ok (Column.ty c) (str "1")).
  { apply andb_false_iff in Ety as [E|E]; apply negb_false_iff, bool_decide_eq_true in E; rewrite E.
    - exists (Value.Integer (BigInt.from_parts false (BigUint.mk [1]))). split_and!; [done| |done|done].
      cbn. split; [|done]. split; [by repeat constructor|done].
    - exists (Value.Unsigned (BigUint.mk [1])). split_and!; [done| |done|done].
      cbn. split; [by repeat constructor|done]. }
  destruct (max_value _) as [v|] eqn:Em; [|done]. apply max_value_elem in Em.
  apply list_elem_of_omap in Em as ([id r] & Hin & Hcell). cbn in Hcell.
  destruct (scan_read d (dt_name u) rows id r) as (u' & Hu' & En & Ht & Hr & _); [apply H1|eapply holds_fits, H1|done|done|].
  pose proof (same_table u' u (st_integrity _ _ _ _ _ _ H1) Hu' Hu En) as ->.
  assert (Hty : Value.type_of v = Column.ty c /\ ValueFacts.wf v).
  { unfold cell_at in Hcell. destruct (r !! ci) as [x|] eqn:Ex; [|done]. cbn in Hcell. subst x.
    destruct (Forall2_lookup_lr _ _ _ _ _ _ Ht Hc Ex). split; [done|].
    by apply (Forall_lookup_1 _ _ _ _ Hr Ex). }
  destruct Hty as [Hty Hw]. destruct v as [i|x| | | | | | |]; try done; cbn in Hw.
  - exists (Value.Integer (BigInt.succ i)). split_and!; [done|by apply BigIntFacts.bigint_succ_value|done|done].
  - exists (Value.Unsigned (BigUint.succ x)). split_and!; [done|by apply BigUintFacts.biguint_succ_value|done|done].
Qed.

End Reads.

(** ** Opening a builder *)

Section Open.
Context (n : Z) (m : medium) (g : Z) (d : database) (Hl : ~ may_lose (D:=D)).
Context (ed : Editor.t) (rest : list (Screen (H:=H))).
Context (Hs : stack_ok d (EditorScreen ed :: rest)).
Abbreviation still := (still n m g d (EditorScreen ed :: rest)).
Abbreviation quiet := (fun _ => ended n g d None) (only parsing).

Lemma editor_there : editor_ok d ed.
Proof using Hs. destruct rest; [done|]. by destruct Hs as (_ & ? & _). Qed.

Lemma told_quiet e a : still a -> wpu (err e) quiet a.
Proof using Hs. intros Ha. eapply wpu_err; [done|]. intros a' Ha' _. by eapply ended_none. Qed.

Lemma over_editor s a : still a -> is_list s = false -> screen_ok d s -> over s (EditorScreen ed) ->
  wpu (push s) quiet a.
Proof using Hs.
  intros Ha H1 H2 H3. eapply wpu_push; [done|]. intros a' Ha' _. eapply ended_none; [done|].
  by split_and!.
Qed.

Lemma open_fk_picker_ok i from_col to_table to_col a : still a ->
  wpu (open_fk_picker i from_col to_table to_col) quiet a.
Proof using Hl Hs.
  intros Ha. apply wpu_bind. eapply wpu_scan; [done..|]. intros a1 H1.
  destruct (spec_scan d to_table) as [rows|e| |] eqn:Es; cbn [answered]; try by apply told_quiet.
  apply wpu_bind. eapply wpu_ask_read; [done..| |apply spec_get_table_no_abort|].
  { intros σ L Hr. by apply (returns_get_table n m σ L d). }
  intros a2 H2. destruct (spec_get_table d to_table) as [t|e| |]; cbn [answered]; try by apply told_quiet.
  apply wpu_bind. eapply (wpu_collect _ still (fun p q => p.1 = q.1)); [done| |].
  { intros [id r] a3 Hin H3. destruct (label_val t r) as [l El]. apply wpu_bind.
    eapply wpu_pure; [exact El|]. by apply wpu_ret. }
  intros fk_rows a3 Hrows H3. destruct fk_rows as [|q fk_rows].
  { eapply wpu_say; [done|]. intros a4 H4. by eapply ended_none. }
  apply over_editor; [done..| |done]. cbn. apply Forall_forall. intros p' Hp'.
  apply list_elem_of_lookup in Hp' as [k Hk].
  destruct (Forall2_lookup_r _ _ _ _ _ Hrows Hk) as ([id r] & Hk' & <-).
  apply list_elem_of_lookup_2 in Hk'. destruct (scan_rows _ _ _ _ _ Es Hk') as (u & r0 & Hu & <- & Hr & _).
  by eapply row_live.
Qed.

Lemma open_builder_ok i a : still a -> (i < length (Editor.cols ed))%nat -> wpu (open_builder ed i) quiet a.
Proof using Hl Hs.
  intros Ha Hi. pose proof editor_there as Hed. destruct (lookup_lt_is_Some_2 _ _ Hi) as [c Hc].
  apply wpu_bind. eapply wpu_lift; [by rewrite Hc|]. apply wpu_bind. eapply wpu_get_table; [done..|]. intros a1 H1.
  destruct (_ ≫= _) as [fk|]; [by apply open_fk_picker_ok|].
  destruct (lookup_lt_is_Some_2 (Editor.fields ed) i) as [f Hf]; [by rewrite (eo_fields _ _ Hed)|].
  apply wpu_bind. eapply wpu_lift; [by rewrite Hf|].
  destruct (seeded_ok i c f) as (b & Eb & Hb & Hbi & Hbt); [by eapply Forall_lookup_1; [apply Hed|]|].
  apply wpu_bind. eapply wpu_pure; [exact Eb|].
  assert (Hend : forall b' a', still a' -> builder_ok b' -> FieldBuilder.field b' = i -> wpu (push (Builder b')) quiet a').
  { intros b' a' Ha' Hb' Hi'. apply over_editor; [done..|]. cbn. by rewrite Hi'. }
  apply wpu_bind. destruct (_ && _); [|by apply wpu_ret, Hend].
  destruct (eo_cols _ _ Hed) as (u & Hu & En & Ecols).
  apply wpu_bind. rewrite <- En. eapply wpu_conseq; [eapply (next_unique_ok n m g d Hl _ u); [done..|by rewrite Ecols]|].
  intros o a2 [H2 Ho]. apply wpu_ret, Hend; [done| |done]. apply with_next_ok; [done|]. by rewrite Hbt.
Qed.

End Open.

(** ** The keys of the builder *)

Section BuilderKeys.
Context (n : Z) (m : medium) (g : Z) (d : database).
Context (Hclock : forall r (h : H), is_byte (hw_clock r h).1).
Context (ed : Editor.t) (rest : list (Screen (H:=H))).

Lemma rtc_now_ok stk (Q : option Rtc.Rtc.t -> app -> Prop) a : still n m g d stk a ->
  (forall o a', still n m g d stk a' -> (forall c, o = Some c -> RtcFacts.clock_bytes c) -> Q o a') -> wpu rtc_now Q a.
Proof using Hclock.
  intros Ha HQ. unfold wpu, rtc_now. destruct (RtcFacts.now_total hw_clock (hw a) Hclock) as (o & h' & -> & Ho).
  cbn. apply HQ; [by apply still_set_hw|]. intros c Hc. apply (Ho c Hc).
Qed.

Lemma builder_put b b' : stack_ok d (Builder b :: EditorScreen ed :: rest) -> builder_ok b' ->
  FieldBuilder.field b' = FieldBuilder.field b -> stack_ok (H:=H) d (Builder b' :: EditorScreen ed :: rest).
Proof.
  intros Hs Hb E. eapply stack_ok_put; [exact Hs|done|done|]. intros below. by destruct below; cbn; rewrite ?E.
Qed.

Lemma commit_builder_ok b a : still n m g d (Builder b :: EditorScreen ed :: rest) a ->
  stack_ok d (Builder b :: EditorScreen ed :: rest) -> wpu (commit_builder b) (fun _ => ended n g d None) a.
Proof.
  intros Ha Hs. assert (Hb : builder_ok b) by apply Hs. apply wpu_bind.
  eapply wpu_put_top; [done|]. intros a1 H1 _.
  pose proof (compose_valid b Hb) as Hv. destruct (ValueFacts.value_parse_total (FieldBuilder.ty b) _ Hv) as [N1 N2].
  destruct (Value.parse _ _) as [v|e| |] eqn:E; [| |done..].
  - destruct (ValueFacts.parse_spec _ _ _ Hv E) as [Hw _]. apply wpu_bind. eapply wpu_pop; [done|]. intros a2 H2 _.
    apply wpu_bind. eapply wpu_get_top; [done|done|]. apply wpu_bind. eapply wpu_put_top; [done|]. intros a3 H3 _.
    eapply wpu_say; [done|]. intros a4 H4. eapply ended_none; [done|]. cbn [set_field].
    assert (Hed : editor_ok d ed) by (destruct Hs as (_ & _ & _ & Hs); destruct rest; [done|by destruct Hs as (_ & ? & _)]).
    assert (Hi : (FieldBuilder.field b < length (Editor.cols ed))%nat) by apply Hs.
    destruct (lookup_lt_is_Some_2 (Editor.fields ed) (FieldBuilder.field b)) as [f Hf]; [by rewrite (eo_fields _ _ Hed)|].
    rewrite Hf. eapply stack_ok_tail, editor_below; [exact Hs| |done].
    apply filled_ok; [done|by apply ValueFacts.display_utf8|]. by eapply lookup_lt_Some.
  - apply wpu_bind. eapply wpu_describe; [done|]. intros msg a2 H2 _. eapply wpu_put_top; [done|]. intros a3 H3 _.
    eapply ended_none; [done|]. eapply builder_put; [done|by apply with_error_ok|done].
Qed.

Lemma key_builder_ok b k a : still n m g d (Builder b :: EditorScreen ed :: rest) a ->
  stack_ok d (Builder b :: EditorScreen ed :: rest) -> builder_short b -> key_ok k ->
  wpu (key_builder k b) (fun _ => ended n g d None) a.
Proof using Hclock.
  intros Ha Hs Hshort Hk. assert (Hb : builder_ok b) by apply Hs.
  destruct (on_key_ok k b Hb Hshort Hk) as (b1 & w & E & Hb1 & _ & Ef & _). unfold key_builder.
  apply wpu_bind. eapply wpu_pure; [exact E|]. apply wpu_bind. eapply wpu_put_top; [done|]. intros a1 H1 _.
  pose proof (builder_put b b1 Hs Hb1 Ef) as Hs1.
  assert (Hput : forall b2 a' (Q : unit -> app -> Prop), still n m g d (Builder b1 :: EditorScreen ed :: rest) a' ->
    builder_ok b2 -> FieldBuilder.field b2 = FieldBuilder.field b1 ->
    (forall a'', still n m g d (Builder b2 :: EditorScreen ed :: rest) a'' ->
       stack_ok d (Builder b2 :: EditorScreen ed :: rest) -> Q tt a'') -> wpu (put_top (Builder b2)) Q a').
  { intros b2 a' Q Ha' Hb2 E2 HQ. eapply wpu_put_top; [done|]. intros a2 H2 _. apply HQ; [done|]. by eapply builder_put. }
  destruct w.
  - by eapply wpu_ret, ended_none.
  - eapply wpu_pop; [done|]. intros a2 H2 _. eapply ended_none; [done|]. apply Hs1.
  - by apply commit_builder_ok.
  - apply wpu_bind. eapply rtc_now_ok; [done|]. intros now a2 H2 Hnow.
    pose proof (fill_now_ok now b1 Hnow Hb1) as Hf. pose proof (field_fill_now now b1) as Ef2.
    destruct (FieldBuilder.fill_now now b1) as [[] b2]; cbn [snd] in Hf, Ef2; apply wpu_bind.
    + eapply Hput; [done|by apply with_error_ok|done|]. intros a3 H3 Hs3. eapply wpu_say; [done|].
      intros a4 H4. by eapply ended_none.
    + eapply Hput; [done..|]. intros a3 H3 Hs3. eapply wpu_say; [done|]. intros a4 H4. by eapply ended_none.
  - pose proof (fill_next_ok b1 Hb1) as Hf. pose proof (field_fill_next b1) as Ef2.
    destruct (FieldBuilder.fill_next b1) as [[] b2]; cbn [snd] in Hf, Ef2.
    + apply wpu_bind. eapply Hput; [done|by apply with_error_ok|done|]. intros a3 H3 Hs3. eapply wpu_say; [done|].
      intros a4 H4. by eapply ended_none.
    + eapply Hput; [done..|]. intros a3 H3 Hs3. by eapply ended_none.
Qed.

End BuilderKeys.

(** ** The keys of the editor *)

Lemma on_field_ok d f ed : editor_ok d ed ->
  (forall x, x ∈ Editor.fields ed -> field_ok x -> exists x', f x = Val x' /\ field_ok x') ->
  exists ed', on_field f ed = Val ed' /\ editor_ok d ed' /\ Editor.cols ed' = Editor.cols ed.
Proof.
  intros Hed Hf. unfold on_field. destruct (Nat.ltb_spec (Editor.focus ed) (length (Editor.cols ed))) as [Hlt|]; [|by exists ed].
  destruct (lookup_lt_is_Some_2 (Editor.fields ed) (Editor.focus ed)) as [x Hx]; [by rewrite (eo_fields _ _ Hed)|].
  rewrite Hx. cbn [or_panic mbind outcome_bind].
  destruct (Hf x) as (x' & E & Hx'); [by eapply list_elem_of_lookup_2|by eapply Forall_lookup_1; [apply Hed|]|].
  rewrite E. eexists. split; [done|]. destruct Hed as [H1 H2 H3 H4 H5]. split; [|done].
  split; cbn; [done|by rewrite length_insert|by apply Forall_insert|done|done].
Qed.

Lemma edit_text_ok e x : edit_ok e -> field_ok x -> short (Field.value x) ->
  exists x', edit_text (fun t i => do_edit e (t, i)) x = Val x' /\ field_ok x'.
Proof.
  intros He Hx Hs. destruct (edited e (Field.value x, Field.caret x) He Hx Hs) as ([v c] & E & Hc).
  unfold edit_text. rewrite E. by eexists.
Qed.

Lemma move_caret_ok e f x : edit_ok e -> field_ok x -> short (Field.value x) ->
  (forall t c, do_edit e (t, c) = (c' ← f t c; Val (t, c'))) -> exists x', move_caret f x = Val x' /\ field_ok x'.
Proof.
  intros He Hx Hs Hf. destruct (edited e (Field.value x, Field.caret x) He Hx Hs) as (tc & E & Hc).
  rewrite Hf in E. unfold move_caret. destruct (f (Field.value x) (Field.caret x)); try done. injection E as <-. by eexists.
Qed.

Lemma edit_key_ok d k ed : editor_ok d ed -> screen_short (H:=H) (EditorScreen ed) -> key_ok k ->
  exists ed', edit_key k ed = Val ed' /\ editor_ok d ed' /\ Editor.cols ed' = Editor.cols ed.
Proof.
  intros Hed Hs Hk. cbn in Hs. rewrite Forall_forall in Hs.
  assert (Hstay : exists ed', Val (E:=unit) ed = Val ed' /\ editor_ok d ed' /\ Editor.cols ed' = Editor.cols ed) by by exists ed.
  assert (Hfocus : forall i, exists ed', Val (E:=unit) (Editor.with_focus (i mod (length (Editor.cols ed) + 2))%nat ed) = Val ed' /\
    editor_ok d ed' /\ Editor.cols ed' = Editor.cols ed).
  { intros i. eexists. split; [done|]. split; [|done]. destruct Hed as [H1 H2 H3 H4 H5]. split; cbn; try done.
    pose proof (Nat.mod_upper_bound i (length (Editor.cols ed) + 2)). lia. }
  destruct k; cbn [edit_key]; try exact Hstay; try apply Hfocus.
  - apply on_field_ok; [done|]. intros x Hx Hok. apply (edit_text_ok (EInsert c)); auto.
  - apply on_field_ok; [done|]. intros x Hx Hok. apply (edit_text_ok EBackspace); try done. auto.
  - apply on_field_ok; [done|]. intros x Hx Hok. apply (move_caret_ok ELeft); try done. auto.
  - apply on_field_ok; [done|]. intros x Hx Hok. apply (move_caret_ok ERight); try done. auto.
  - apply on_field_ok; [done|]. intros x Hx Hok. apply (move_caret_ok EHome); try done. auto.
  - apply on_field_ok; [done|]. intros x Hx Hok. apply (move_caret_ok EEnd); try done. auto.
  - destruct (Editor.cols ed !! Editor.focus ed) as [c|]; [|done]. destruct (Column.nullable c); [|done].
    apply on_field_ok; [done|]. intros x Hx Hok. by eexists.
Qed.

Section EditorKeys.
Context (n : Z) (m : medium) (g : Z) (d : database) (Hl : ~ may_lose (D:=D)) (Hg : g + 1 < 2 ^ 64).
Context (rest : list (Screen (H:=H))).
Abbreviation still := (still n m g d (List 0 :: rest)).

(** The cells are those of [fields_cells]. *)
Definition same_cells (r r' : list cell + (nat * bytes)) : Prop :=
  match r, r' with inl x, inl y => x = y | inr _, inr _ => True | _, _ => False end.

Lemma field_cells_ok cols : forall pre fields a, still a -> length fields = length cols -> Forall field_ok fields ->
  wpu (field_cells (zip (seq (length pre) (length cols)) cols) (pre ++ fields))
    (fun r a' => still a' /\ same_cells r (fields_cells (length pre) cols fields)) a.
Proof.
  induction cols as [|c cols IH]; intros pre fields a Ha Hlen Hok.
  { apply wpu_ret. destruct fields; [done|]. by cbn in Hlen. }
  destruct fields as [|f fields]; [by cbn in Hlen|]. apply Forall_cons in Hok as [Hf Hok].
  cbn [length seq zip zip_with field_cells fields_cells]. apply wpu_bind.
  eapply wpu_lift; [by rewrite lookup_app_r, Nat.sub_diag by lia|]. apply wpu_bind.
  eapply (wpu_conseq _ _ (fun r a' => still a' /\ match r, field_cell c f with
    | inl x, inl y => x = y | inr _, inr _ => True | _, _ => False end)).
  { unfold field_cell. destruct (Field.is_null f); [apply wpu_ret; by destruct (Column.nullable c)|].
    destruct (ValueFacts.value_parse_total (Column.ty c) (Field.value f) (proj1 Hf)) as [N1 N2].
    destruct (Value.parse _ _) as [v|e| |]; [by apply wpu_ret| |done..].
    destruct e; try by apply wpu_ret.
    all: apply wpu_bind; eapply wpu_describe; [done|]; intros msg a1 H1 _; by apply wpu_ret. }
  intros [x|e] a1 [H1 Hx].
  - destruct (field_cell c f) as [y|]; [|done]. subst y. apply wpu_bind.
    specialize (IH (pre ++ [f]) fields a1 H1). rewrite length_app, <- app_assoc in IH. cbn in IH.
    rewrite Nat.add_1_r in IH. eapply wpu_conseq; [apply IH; [by injection Hlen|done]|].
    intros r a2 [H2 Hr]. apply wpu_ret. split; [done|].
    destruct r as [xs|], (fields_cells _ cols fields); try done. cbn in *. by subst.
  - destruct (field_cell c f); [done|]. by apply wpu_ret.
Qed.

Lemma saved ed cells a : still a -> stack_ok d (EditorScreen ed :: rest) -> sized d (save_op ed cells) ->
  wpu (res ← save ed cells;
       match res with
       | inl _ => _ ← say (str "saved"); pop
       | inr e =>
           t ← ask_ok (get_table (Editor.table ed));
           let idx := column_for_error (Editor.cols ed) (from_option Table.fks [] t) e in
           m ← describe e;
           put_top (EditorScreen (Editor.with_error (Some (idx, m)) ed))
       end) (fun _ => ended n g d (Some (save_op ed cells))) a.
Proof using Hl Hg.
  intros Ha Hs Hsz.
  assert (Hrest : exists below rest', rest = below :: rest' /\ stack_ok d rest /\ hd_plain rest /\ editor_ok d ed).
  { destruct rest as [|below rest']; [done|]. destruct Hs as (_ & Hed & Ho & Hs'). exists below, rest'.
    split_and!; [done|done| |done]. intros s [= <-]. by destruct below. }
  destruct Hrest as (below & rest' & Er & Hs' & Hpl & Hed).
  assert (Hperm : permitted d (save_op ed cells)).
  { unfold save_op in *. destruct (Editor.id ed) as [id|] eqn:Eid; [|done]. split; [|done].
    apply live_valid; [apply Ha|]. by apply (eo_id _ _ Hed). }
  assert (HF : forall a' e, still a' -> refuses d (save_op ed cells) e \/ e = OutOfSpace ->
    wpu (t ← ask_ok (get_table (Editor.table ed));
         let idx := column_for_error (Editor.cols ed) (from_option Table.fks [] t) e in
         m ← describe e; put_top (EditorScreen (Editor.with_error (Some (idx, m)) ed)))
      (fun _ => ended n g d (Some (save_op ed cells))) a').
  { intros a' e Ha' He. apply wpu_bind. eapply wpu_get_table; [done..|]. intros a1 H1. cbv zeta. apply wpu_bind.
    eapply wpu_describe; [done|]. intros msg a2 H2 Hd. eapply wpu_put_top; [done|]. intros a3 H3 _.
    eapply ended_told; [exact H3| |exact He|].
    - eapply stack_ok_put; [exact Hs|done| |]; [|intros b; by destruct b]. destruct Hed as [? ? ? ? ?]. by split.
    - right. eexists _, _, _, msg. split; [apply H3|]. done. }
  assert (HV : forall a' m' g' d' ans, holds n m' (store a') g' d' /\ integrity d' /\ cache_ok g' d' (row_cache a') /\ stack a' = List 0 :: rest ->
    accepts d (save_op ed cells) ans d' -> next_state g d g' d' ->
    wpu (_ ← say (str "saved"); pop) (fun _ => ended n g d (Some (save_op ed cells))) a').
  { intros a' m' g' d' ans (B1 & B2 & B3 & B4) Hacc Hnext. apply wpu_bind.
    eapply (wpu_say n m' g' d' (List 0 :: rest)); [by split|]. intros a1 H1.
    rewrite Er in H1. eapply wpu_pop; [exact H1|]. intros a2 H2 _. rewrite <- Er in H2. eapply ended_accepted; [exact H2| |done|exact Hacc].
    eapply stack_ok_plain; [exact Hs'|done|]. intros name. eapply accepts_grows; [exact Hacc|].
    unfold save_op. by destruct (Editor.id ed). }
  apply wpu_bind. unfold save, save_op in *. destruct (Editor.id ed) as [id|].
  - eapply (wpu_ask_op n m g d (List 0 :: rest) _ (fun _ => Done)); [done..| |].
    + intros a' m' g' d' [] [B1 B2 B3 B4] Hacc Hnext. by eapply HV.
    + intros a' e Ha' He. by apply HF.
  - apply wpu_bind. eapply (wpu_ask_op n m g d (List 0 :: rest) _ Inserted); [done..| |].
    + intros a' m' g' d' x [B1 B2 B3 B4] Hacc Hnext. apply wpu_ret. by eapply HV.
    + intros a' e Ha' He. apply wpu_ret. by apply HF.
Qed.

Lemma commit_editor_ok ed a : UiFacts.still n m g d (EditorScreen ed :: rest) a -> stack_ok d (EditorScreen ed :: rest) ->
  Editor.focus ed <> (length (Editor.cols ed) + 1)%nat -> (forall o, editor_op ed = Some o -> sized d o) ->
  wpu (commit_editor ed) (fun _ => ended n g d (editor_op ed)) a.
Proof using Hl Hg.
  intros Ha Hs Hf Hp. apply wpu_bind. eapply wpu_put_top; [done|]. intros a1 H1 _. cbv zeta.
  assert (Hed : editor_ok d ed) by (destruct rest; [done|by destruct Hs as (_ & ? & _)]).
  assert (Hput : forall x, stack_ok d (EditorScreen (Editor.with_error x ed) :: rest)).
  { intros x. eapply stack_ok_put; [exact Hs|done| |]; [|intros b; by destruct b]. destruct Hed as [? ? ? ? ?]. by split. }
  apply wpu_bind. eapply wpu_conseq; [apply (field_cells_ok (Editor.cols ed) []); [exact H1|apply Hed|apply Hed]|].
  unfold editor_op in *. rewrite (proj2 (Nat.eqb_neq _ _) Hf) in *. cbn [length] in *. intros r a2 [H2 Hr].
  change (same_cells r (fields_cells 0 (Editor.cols ed) (Editor.fields ed))) in Hr.
  destruct r as [cells|e], (fields_cells 0 (Editor.cols ed) (Editor.fields ed)) as [cells'|e']; try done.
  - cbn in Hr. subst cells'. apply (saved (Editor.with_error None ed) cells a2 H2 (Hput None)). by apply Hp.
  - eapply wpu_put_top; [exact H2|]. intros a3 H3 _. eapply ended_none; [done|]. apply Hput.
Qed.

Lemma key_editor_ok k ed a : UiFacts.still n m g d (EditorScreen ed :: rest) a -> stack_ok d (EditorScreen ed :: rest) ->
  screen_short (H:=H) (EditorScreen ed) -> key_ok k -> (forall o, key_op d (EditorScreen ed) k = Some o -> sized d o) ->
  wpu (key_editor k ed) (fun _ => ended n g d (key_op d (EditorScreen ed) k)) a.
Proof using Hl Hg.
  intros Ha Hs Hshort Hk Hp.
  assert (Hed : editor_ok d ed) by (destruct rest; [done|by destruct Hs as (_ & ? & _)]).
  assert (Hedit : wpu (ed ← pure (edit_key k ed); put_top (EditorScreen ed)) (fun _ => ended n g d None) a).
  { destruct (edit_key_ok d k ed Hed Hshort Hk) as (ed' & E & Hed' & _). apply wpu_bind. eapply wpu_pure; [exact E|].
    eapply wpu_put_top; [done|]. intros a1 H1 _. eapply ended_none; [done|].
    eapply stack_ok_put; [exact Hs|done|done|]. intros b; by destruct b. }
  assert (Hpop : wpu pop (fun _ => ended n g d None) a).
  { eapply wpu_pop_any; [done..|]. intros a' stk' Ha' Hs'. by eapply ended_none. }
  destruct k; cbn [key_editor key_op] in *; try exact Hedit.
  - destruct (Nat.eqb_spec (Editor.focus ed) (length (Editor.cols ed) + 1)) as [E|Hne].
    + unfold editor_op. rewrite E, Nat.eqb_refl. exact Hpop.
    + by apply commit_editor_ok.
  - exact Hpop.
  - destruct (Nat.ltb_spec (Editor.focus ed) (length (Editor.cols ed))); [|by eapply wpu_ret, ended_none].
    by eapply open_builder_ok.
Qed.

End EditorKeys.

End Keys.
