(* ===== verification/UiKeys.v ===== *)
(** * Events

    Keys and the mouse over a store at rest, one by one and in any order: what
    the user may do, and what the database is after. *)

From stdpp Require Import gmap.
From S2P Require Import Prelude Types Bignum Value ValueFacts Codec Schema Block Journal JournalFacts.
From S2P Require Import Pager PagerFacts Store Database Integrity Edits StoreFacts Heap Refinement.
From S2P Require Import Navigation Transactions Operations StoreRuns EditRefine StoreApi.
From S2P Require Import Ps2 UiText UiTextFacts Builder BuilderFacts App Screens Ui.
From S2P Require Import UiFacts Wellformed UiModals UiDispatch UiEditor.
Import Store Text App Screens Ui.

Section Events.
Context {D H : Type} `{!BlockDevice D, !DeviceLaws D, !Hardware H}.
Abbreviation app := (App.t (D := D) (H := H)) (only parsing).
Implicit Types (a : app) (n g : Z) (m : medium) (d : database) (s : Screen (H:=H)).

(** An application over a store at rest, every screen of it well-formed. *)
Definition shown n m g d a : Prop := still n m g d (stack a) a /\ stack_ok d (stack a).

Lemma boot_shown n m (P : Pager.t D) g d guid lba (h : H) : holds n m P g d -> integrity d ->
  shown n m g d (boot P guid lba h).
Proof. by intros Hh Hi. Qed.

(** ** Keys *)

(** What the user may do: texts of a length a machine holds, values and names
    that fit their encodings.  Switching off is not for a session. *)
Record fair_key d s (k : Ps2.Key) : Prop := {
  fk_key : key_ok k;
  fk_short : screen_short s;
  fk_on msg : ~ (k = Ps2.Enter /\ s = Confirm msg Shutdown);
  fk_sized o : key_op d s k = Some o -> sized d o
}.

(** Only an editor writes rows, and only a confirmation deletes one. *)
Lemma key_op_plain d s k o : plain s = true -> key_op d s k = Some o ->
  match o with
  | Insert _ _ | Update _ _ _ => False
  | Delete t id => exists msg, s = Confirm msg (DeleteRow t id)
  | _ => True
  end.
Proof.
  intros Hp Ho. destruct s; try done; cbn [key_op] in Ho.
  - destruct k; try done. unfold schema_op in Ho. apply bind_Some in Ho as (x & _ & Ho).
    destruct (key_in (str "u") c); [by injection Ho as <-|]. destruct (key_in (str ",") c && _ && _); [by injection Ho as <-|].
    destruct (key_in (str ".") c && _ && _); [by injection Ho as <-|done].
  - unfold refcols_op in Ho. destruct (refcols_key _ _ _) as [order' []]; [by injection Ho as <-|done].
  - destruct k; try done. unfold prompt_op in Ho. destruct action; try done; [by injection Ho as <-| |].
    + destruct buf; [done|by injection Ho as <-].
    + destruct (width_of buf); [by injection Ho as <-|done].
  - destruct k; try done. apply bind_Some in Ho as (x & _ & Ho). destruct action; try done; by injection Ho as <-.
  - destruct k; try done. destruct action; try done; injection Ho as <-; try done. by eexists.
Qed.

Lemma key_ends n m g d s rest k a : ~ may_lose (D:=D) -> (forall r (h : H), is_byte (hw_clock r h).1) ->
  g + 1 < 2 ^ 64 -> still n m g d (s :: rest) a -> stack_ok d (s :: rest) -> fair_key d s k ->
  wpu (on_key k) (fun _ => ended n g d (key_op d s k)) a.
Proof.
  intros Hl Hclock Hg Ha Hs [Hk Hshort Hon Hp].
  assert (Hperm : plain s = true -> forall o, key_op d s k = Some o -> permitted d o).
  { intros Hpl o Ho. specialize (Hp o Ho). pose proof (key_op_plain _ _ _ _ Hpl Ho) as Hkind.
    destruct o; try done. destruct Hkind as [msg ->]. apply live_valid; [apply Ha|].
    destruct rest; [done|]. by destruct Hs as (_ & ? & _). }
  assert (Hdispatch : wpu (dispatch s k) (dispatched n g d (key_op d s k)) (set_stack (List 0 :: rest) a) ->
    wpu (_ ← put_top (List 0); '(restored, nav) ← dispatch s k; _ ← put_top restored; navigate nav)
      (fun _ => ended n g d (key_op d s k)) a).
  { intros Hd. apply wpu_bind. unfold wpu, put_top at 1. rewrite (st_stack _ _ _ _ _ _ Ha).
    apply wpu_bind. eapply wpu_conseq; [exact Hd|]. intros [scr nav] a1 H1. by apply navigated in H1. }
  assert (H0 : still n m g d (List 0 :: rest) (set_stack (List 0 :: rest) a)) by (by eapply still_set_stack).
  unfold on_key. apply wpu_bind. eapply wpu_get_top; [done|done|]. destruct s; cbn [on_key].
  - apply Hdispatch. by eapply dispatch_list_ok.
  - apply Hdispatch. by eapply dispatch_browser_ok.
  - apply Hdispatch. by eapply dispatch_rowview_ok.
  - by eapply key_editor_ok.
  - destruct rest as [|below rest']; [done|]. pose proof Hs as (_ & _ & Ho & _). destruct below; try done.
    by eapply key_builder_ok.
  - apply Hdispatch. eapply dispatch_schema_ok; [done..|]. by apply Hperm.
  - apply Hdispatch. eapply dispatch_refcols_ok; [done..|]. by apply Hperm.
  - eapply key_prompt_ok; [done..|]. by apply Hperm.
  - eapply key_pick_ok; [done..|]. by apply Hperm.
  - eapply key_confirm_ok; [done..| |by apply Hperm]. intros [-> ->]. by eapply Hon.
  - apply Hdispatch. by eapply dispatch_about_ok.
  - destruct rest as [|below rest']; [done|]. pose proof Hs as (_ & _ & Ho & _). destruct below; try done.
    apply Hdispatch. by eapply dispatch_fk_pick_ok.
  - apply Hdispatch. by eapply dispatch_hw_ok.
Qed.

(** ** The mouse *)

(** What an event does to the cursor of the screen on top, and the key it is. *)
Definition aim a (e : Ps2.Event) : option nat * option Ps2.Key :=
  match e with
  | Ps2.KeyEvent k => (None, Some k)
  | Ps2.RightClick => (None, Some Ps2.Esc)
  | Ps2.MouseMove _ _ => (None, None)
  | Ps2.Click x y =>
      if y <? BODY_TOP then (None, None) else
      match nth_z (hitmap a) ((y - BODY_TOP) / CELL_H) with
      | None => (None, None)
      | Some r =>
          match cr_hit r with
          | HNone => (None, None)
          | Focus i => (Some (Z.to_nat i), None)
          | Activate i => (Some (Z.to_nat i), Some Ps2.Enter)
          | Shortcuts => (None, if BODY_X <=? x then shortcut_at (cr_text r) ((x - BODY_X) / CELL_W) else None)
          end
      end
  end.
Definition aimed (c : option nat) s : Screen := match c with Some i => with_sel i s | None => s end.

(** The operation an event asks for. *)
Definition event_op d a (e : Ps2.Event) : option op :=
  match stack a, (aim a e).2 with
  | s :: _, Some k => key_op d (aimed (aim a e).1 s) k
  | _, _ => None
  end.

(** The last frame listed what is there. *)
Definition fair d a (e : Ps2.Event) : Prop :=
  forall s rest, stack a = s :: rest ->
    (forall i, (aim a e).1 = Some i -> screen_ok d (with_sel i s)) /\
    (forall k, (aim a e).2 = Some k -> fair_key d (aimed (aim a e).1 s) k).

Lemma cursor_ok d i s rest : stack_ok d (s :: rest) -> screen_ok d (with_sel i s) -> stack_ok d (with_sel i s :: rest).
Proof.
  intros Hs Hok. eapply stack_ok_put; [exact Hs|by destruct s|done|]. intros below Ho.
  destruct s; try exact Ho; by destruct below.
Qed.

Lemma set_cursor_ok n m g d i s rest (Q : unit -> app -> Prop) a : still n m g d (s :: rest) a ->
  (forall a', still n m g d (with_sel i s :: rest) a' -> Q tt a') -> wpu (set_cursor i) Q a.
Proof.
  intros Ha HQ. apply wpu_bind. eapply wpu_get_top; [done|done|]. eapply wpu_put_top; [done|]. intros a' Ha' _. by apply HQ.
Qed.

Lemma event_ends n m g d e a : ~ may_lose (D:=D) -> (forall r (h : H), is_byte (hw_clock r h).1) ->
  g + 1 < 2 ^ 64 -> shown n m g d a -> fair d a e ->
  wpu (on_event e) (fun _ => ended n g d (event_op d a e)) a.
Proof.
  intros Hl Hclock Hg [Ha Hs] Hf. destruct (stack a) as [|s rest] eqn:Est; [done|].
  destruct (Hf s rest Est) as [Hc Hk]. unfold event_op. rewrite Est.
  assert (Hkey : forall k, (aim a e).1 = None -> (aim a e).2 = Some k ->
    wpu (on_key k) (fun _ => ended n g d (key_op d (aimed (aim a e).1 s) k)) a).
  { intros k Ec Ek. specialize (Hk k Ek). rewrite Ec in *. by eapply key_ends. }
  assert (Hnone : wpu (mret tt) (fun _ => ended n g d None) a) by (by eapply wpu_ret, ended_none).
  destruct e as [k|x y|x y|]; cbn [on_event].
  - by apply Hkey.
  - done.
  - unfold on_click. cbn [aim] in *. destruct (y <? BODY_TOP); [done|]. apply wpu_bind. cbn.
    destruct (nth_z (hitmap a) _) as [r|]; [|done]. destruct (cr_hit r) as [|i|i|]; cbn [fst snd] in *.
    + done.
    + eapply set_cursor_ok; [done|]. intros a' Ha'. eapply ended_none; [done|]. by apply cursor_ok; [|apply Hc].
    + apply wpu_bind. eapply set_cursor_ok; [done|]. intros a' Ha'.
      eapply key_ends; [done..| |by apply Hk]. by apply cursor_ok; [|apply Hc].
    + destruct (BODY_X <=? x); [|done]. destruct (shortcut_at _ _) as [k|]; [|done]. by apply Hkey.
  - by apply Hkey.
Qed.

(** ** Sessions *)

(** Every event of the run is fair when its turn comes. *)
Fixpoint fair_session d a (es : list Ps2.Event) : Prop :=
  match es with
  | [] => True
  | e :: es => fair d a e /\
      forall a' d', on_event e a = (Val tt, a') -> outcome_ok d (event_op d a e) d' a' -> fair_session d' a' es
  end.

(** The two ways to be fair, of a key and of an event that asks for nothing. *)
Lemma fair_key_event d a k s rest : stack a = s :: rest -> fair_key d s k -> fair d a (Ps2.KeyEvent k).
Proof. intros E Hk s' rest' E'. rewrite E in E'. injection E' as <- <-. split; [done|]. by intros k' [= <-]. Qed.

Lemma fair_next d a e es : fair d a e -> event_op d a e = None -> fair_session d (on_event e a).2 es ->
  fair_session d a (e :: es).
Proof. intros Hf E Hes. split; [done|]. intros a' d' Ea Ho. rewrite E in Ho. cbn in Ho. subst d'. by rewrite Ea in Hes. Qed.

Lemma outcome_history d o d' a : outcome_ok d o d' a -> exists l, history d l d' /\ l.*1 = match o with Some o => [o] | None => [] end.
Proof.
  destruct o as [o|]; cbn.
  - intros [[ans Ha]|(-> & e & He & _)].
    + exists [(o, Val ans)]. split; [|done]. eapply hist_accepted; [done|constructor].
    + exists [(o, Fail e)]. split; [|done]. eapply hist_refused; [done|constructor].
  - intros ->. exists []. split; [constructor|done].
Qed.

Lemma history_app d l1 d1 l2 d2 : history d l1 d1 -> history d1 l2 d2 -> history d (l1 ++ l2) d2.
Proof. induction 1; intros H2; [done| |]; cbn; econstructor; eauto. Qed.

Lemma session_ends n es : ~ may_lose (D:=D) -> (forall r (h : H), is_byte (hw_clock r h).1) ->
  forall m g d a, shown n m g d a -> g + len es < 2 ^ 64 -> fair_session d a es ->
  exists a' m' g' d' l, for_each es on_event a = (Val tt, a') /\ shown n m' g' d' a' /\ g <= g' <= g + len es /\
    history d l d' /\ len l <= len es.
Proof.
  intros Hl Hclock. induction es as [|e es IH]; intros m g d a Ha Hg Hf.
  { exists a, m, g, d, []. split_and!; [done|done|cbn; lia|cbn; lia|constructor|done]. }
  destruct Hf as [Hf Hrest]. cbn [length] in Hg.
  destruct (wpu_val _ _ _ (event_ends n m g d e a Hl Hclock ltac:(lia) Ha Hf)) as ([] & a1 & E & m1 & g1 & d1 & H1 & H2 & Hn & Ho).
  assert (Hg1 : g <= g1 <= g + 1) by (destruct Hn as [->|[-> _]]; lia).
  destruct (IH m1 g1 d1 a1) as (a2 & m2 & g2 & d2 & l & E2 & H3 & Hg2 & Hl2 & Hlen); [done|lia|by apply Hrest|].
  destruct (outcome_history _ _ _ _ Ho) as (l1 & Hl1 & El1).
  exists a2, m2, g2, d2, (l1 ++ l). split_and!; [|done|lia|cbn [length]; lia|by eapply history_app|].
  - cbn. unfold mbind, stM_bind. by rewrite E, E2.
  - assert (length l1 <= 1)%nat by (rewrite <- (length_fmap fst), El1; destruct (event_op d a e); cbn; lia).
    rewrite length_app. cbn [length]. lia.
Qed.

End Events.
