(* ===== verification/Listing.v ===== *)
(** * The order of the browser

    The rows the browser lists, and the stable insertion sort it puts them in
    order with: sorted, a permutation, rows that compare equal in the order
    they had. *)

From Stdlib Require Import Sorted.
From stdpp Require Import gmap.
From S2P Require Import Prelude Types Bignum Value ValueFacts Codec Schema Block Journal JournalFacts.
From S2P Require Import Pager PagerFacts Store Database Integrity Edits StoreFacts Heap Refinement.
From S2P Require Import Navigation Transactions Operations StoreRuns EditRefine StoreApi.
From S2P Require Import App UiFacts Wellformed.
Import Store App.

(** ** A stable sort *)

Section Sorting.
Context {A : Type} (cmp : A -> A -> comparison) (P : A -> Prop).
Context (Hflip : forall x y, P x -> P y -> cmp y x = CompOpp (cmp x y)).
Context (Htrans : forall x y z, P x -> P y -> P z -> cmp x y <> Gt -> cmp y z <> Gt -> cmp x z <> Gt).

Lemma sort_insert_perm x l : sort_insert cmp x l ≡ₚ x :: l.
Proof using Type.
  induction l as [|y l IH]; [done|]. cbn. destruct (cmp x y); [done..|]. rewrite IH. constructor.
Qed.

Lemma sort_by_perm l : sort_by cmp l ≡ₚ l.
Proof using Type. induction l as [|x l IH]; [done|]. cbn. rewrite sort_insert_perm. by constructor. Qed.

Lemma sort_insert_sorted x l : P x -> Forall P l -> StronglySorted (fun a b => cmp a b <> Gt) l ->
  StronglySorted (fun a b => cmp a b <> Gt) (sort_insert cmp x l).
Proof using Hflip Htrans.
  intros Hx Hl Hs. induction Hs as [|y l Hs IH Hy]; [by repeat constructor|].
  apply Forall_cons in Hl as [Py Hl]. cbn.
  assert (Hhead : cmp x y <> Gt -> StronglySorted (fun a b => cmp a b <> Gt) (x :: y :: l)).
  { intros Hxy. constructor; [by constructor|]. constructor; [done|].
    apply Forall_forall. intros z Hz. rewrite Forall_forall in Hy, Hl. apply (Htrans x y z); auto. }
  destruct (cmp x y) eqn:E; [by apply Hhead..|]. constructor; [by apply IH|].
  assert (Hyx : cmp y x <> Gt) by (rewrite Hflip, E by done; done).
  rewrite sort_insert_perm. by constructor.
Qed.

Lemma sort_by_sorted l : Forall P l -> StronglySorted (fun a b => cmp a b <> Gt) (sort_by cmp l).
Proof using Hflip Htrans.
  induction 1 as [|x l Hx Hl IH]; [constructor|].
  change (sort_by cmp (x :: l)) with (sort_insert cmp x (sort_by cmp l)). apply sort_insert_sorted; [done| |done].
  by rewrite sort_by_perm.
Qed.

Definition same (x y : A) : bool := match cmp x y with Eq => true | _ => false end.

Lemma sort_insert_stable p x l : P p -> P x -> Forall P l ->
  List.filter (same p) (sort_insert cmp x l) = List.filter (same p) (x :: l).
Proof using Hflip Htrans.
  intros Hp Hx Hl. induction Hl as [|y l Hy Hl IH]; [done|]. cbn [sort_insert].
  destruct (cmp x y) eqn:E; [done..|]. cbn [List.filter] in *. rewrite IH.
  destruct (same p x) eqn:Ex, (same p y) eqn:Ey; try done. exfalso. unfold same in *.
  destruct (cmp p x) eqn:E1; try done. destruct (cmp p y) eqn:E2; try done.
  apply (Htrans x p y); try done; [|by rewrite E2]. by rewrite Hflip, E1.
Qed.

Lemma sort_by_stable p l : P p -> Forall P l -> List.filter (same p) (sort_by cmp l) = List.filter (same p) l.
Proof using Hflip Htrans.
  intros Hp. induction 1 as [|x l Hx Hl IH]; [done|].
  change (sort_by cmp (x :: l)) with (sort_insert cmp x (sort_by cmp l)). rewrite sort_insert_stable; [|done|done|by rewrite sort_by_perm].
  cbn [List.filter]. by rewrite IH.
Qed.

End Sorting.

(** ** Rows *)

Definition sound_row (p : RowId.t * row) : Prop := Forall cell_ok p.2.

Lemma cell_wf p ci v : sound_row p -> cell_at p.2 ci = Some v -> ValueFacts.wf v.
Proof.
  unfold cell_at. intros Hp H. destruct (p.2 !! ci) as [c|] eqn:E; [|done]. subst c.
  by destruct (Forall_lookup_1 _ _ _ _ Hp E).
Qed.

Lemma cmp_rows_flip ci asc p q : sound_row p -> sound_row q -> cmp_rows ci asc q p = CompOpp (cmp_rows ci asc p q).
Proof.
  intros Hp Hq. unfold cmp_rows. destruct (cell_at p.2 ci) as [x|] eqn:Ex, (cell_at q.2 ci) as [y|] eqn:Ey; try done.
  pose proof (cell_wf _ _ _ Hp Ex). pose proof (cell_wf _ _ _ Hq Ey).
  destruct asc; by apply (ord_antisym (wf:=ValueFacts.wf)).
Qed.

Lemma value_le_trans x y z : ValueFacts.wf x -> ValueFacts.wf y -> ValueFacts.wf z ->
  Value.cmp x y <> Gt -> Value.cmp y z <> Gt -> Value.cmp x z <> Gt.
Proof.
  intros Hx Hy Hz H1 H2. destruct (Value.cmp x y) eqn:E1; [| |done].
  - assert (x = y) as -> by (by apply (ord_eq (wf:=ValueFacts.wf))). done.
  - destruct (Value.cmp y z) eqn:E2; [| |done].
    + assert (y = z) as <- by (by apply (ord_eq (wf:=ValueFacts.wf))). by rewrite E1.
    + assert (Value.cmp x z = Lt) as -> by (by apply (ord_trans (wf:=ValueFacts.wf) x y z)). done.
Qed.

Lemma cmp_rows_trans ci asc p q r : sound_row p -> sound_row q -> sound_row r ->
  cmp_rows ci asc p q <> Gt -> cmp_rows ci asc q r <> Gt -> cmp_rows ci asc p r <> Gt.
Proof.
  intros Hp Hq Hr. unfold cmp_rows.
  destruct (cell_at p.2 ci) as [x|] eqn:Ex, (cell_at q.2 ci) as [y|] eqn:Ey, (cell_at r.2 ci) as [z|] eqn:Ez; try done.
  pose proof (cell_wf _ _ _ Hp Ex). pose proof (cell_wf _ _ _ Hq Ey). pose proof (cell_wf _ _ _ Hr Ez).
  destruct asc; [by apply value_le_trans|]. intros Hxy Hyz. by apply (value_le_trans z y x).
Qed.

(** ** What is listed *)

Lemma listed_sound d table filter sort : integrity d -> EditRefine.fits d ->
  Forall sound_row (spec_rows d table filter sort).
Proof.
  intros Hd Hf. apply Forall_forall. intros [id r] Hin.
  destruct (spec_rows_scanned _ _ _ _ _ Hin) as (l & Hl & Hin').
  by destruct (scan_read d table l id r Hd Hf Hl Hin') as (_ & _ & _ & _ & ? & _).
Qed.

(** The rows in storage order, and those that pass the filter. *)
Definition scanned (d : database) (table : bytes) : list (RowId.t * row) :=
  match spec_scan d table with Val l => l | _ => [] end.
Definition passes (d : database) (table : bytes) (filter : option (bytes * Value.t)) (p : RowId.t * row) : bool :=
  match '(col, v) ← filter; t ← table_of d table; ci ← Table.column_index t col; Some (ci, v) with
  | Some (ci, v) => bool_decide (cell_at p.2 ci = Some v)
  | None => true
  end.

Lemma filter_true {A} (l : list A) : List.filter (fun _ => true) l = l.
Proof. induction l as [|x l IH]; [done|]. cbn. by rewrite IH. Qed.

Lemma spec_rows_base d table filter : spec_rows d table filter None = List.filter (passes d table filter) (scanned d table).
Proof.
  unfold spec_rows, passes, table_of, scanned. destruct filter as [[col v]|]; cbn [mbind option_bind]; [|by rewrite filter_true].
  destruct (spec_get_table d table) as [t| | |]; cbn [answered ok mbind option_bind]; try by rewrite filter_true.
  destruct (Table.column_index t col); cbn [mbind option_bind]; [done|by rewrite filter_true].
Qed.

Lemma spec_rows_sort d table filter ci asc :
  spec_rows d table filter (Some (ci, asc)) = sort_by (cmp_rows ci asc) (spec_rows d table filter None).
Proof. done. Qed.

(** NULLs come last in either direction. *)
Lemma nulls_last ci asc l i j p q v : StronglySorted (fun a b => cmp_rows ci asc a b <> Gt) l ->
  l !! i = Some p -> l !! j = Some q -> cell_at p.2 ci = None -> cell_at q.2 ci = Some v -> (j < i)%nat.
Proof.
  intros Hs Hp Hq Np Nq. destruct (Nat.lt_trichotomy i j) as [Hlt|[->|Hlt]]; [|congruence|done].
  exfalso. revert i j Hp Hq Hlt. induction Hs as [|y l Hs IH Hy]; intros i j Hp Hq Hlt; [done|].
  destruct j as [|j]; [lia|]. destruct i as [|i].
  - injection Hp as ->. cbn in Hq. pose proof (Forall_lookup_1 _ _ _ _ Hy Hq) as Hle. cbn beta in Hle.
    apply Hle. unfold cmp_rows. by rewrite Np, Nq.
  - apply (IH i j); [done|done|lia].
Qed.
