(* ===== verification/Editing.v ===== *)
(** * A row read and saved again

    A row that is stored passes its own update, which leaves the database as it
    was; and the editor of a row holds that row. *)

From stdpp Require Import gmap.
From S2P Require Import Prelude Types Bignum Value ValueFacts Codec Schema Block Journal JournalFacts.
From S2P Require Import Pager PagerFacts Store Database Integrity Edits StoreFacts Heap Refinement.
From S2P Require Import Navigation Transactions Operations StoreRuns EditRefine StoreApi.
From S2P Require Import Ps2 UiText UiTextFacts Builder BuilderFacts App Screens Ui UiFacts Wellformed UiModals UiDispatch.
Import Store Text App Screens Ui.

(** ** The update *)

Section Update.
Context (d : database) (i : nat) (t : dtable) (id : RowId.t) (r : row).
Context (Hd : integrity d) (Hi : d !! i = Some t) (Hid : 0 <= RowId.slot id) (Hr : get_slot t id = Val r).

Lemma stored : (id, r) ∈ dt_rows t.
Proof using Hid Hr.
  destruct (get_slot_val t id r Hid Hr) as (x & y & E & _). rewrite E. apply elem_of_app. right. left.
Qed.

Lemma stored_typed : Forall2 typed (dt_cols t) r.
Proof using Hd Hi Hid Hr. eapply (ti_typed _ _ (in_tables _ Hd i t Hi)), stored. Qed.

Lemma stored_only r' : (id, r') ∈ dt_rows t -> r' = r.
Proof using Hd Hi Hid Hr.
  intros Hin. pose proof (live_nodup _ (ti_pages _ _ (in_tables _ Hd i t Hi))) as Hnd. fold (dt_rows t) in Hnd.
  destruct (proj1 (list_elem_of_lookup _ _) Hin) as [a Ha].
  destruct (proj1 (list_elem_of_lookup _ _) stored) as [b Hb].
  assert (a = b) as ->; [|congruence]. eapply NoDup_lookup; [exact Hnd|..]; by rewrite list_lookup_fmap, ?Ha, ?Hb.
Qed.

Lemma stored_cell ci c : dt_cols t !! ci = Some c ->
  @lookup nat (option Value.t) (list cell) (@list_lookup cell) ci r = Some (cell_at r ci).
Proof using Hd Hi Hid Hr.
  intros Hc. unfold cell_at. destruct (Forall2_lookup_l _ _ _ _ _ stored_typed Hc) as (x & Hx & _). by rewrite Hx.
Qed.

Lemma keeps_unique ci c : dt_cols t !! ci = Some c -> spec_check_unique t ci c r (Some id) = Val tt.
Proof using Hd Hi Hid Hr.
  intros Hc. unfold spec_check_unique. destruct (Column.unique c) eqn:Eu; [|done]. cbn [negb].
  rewrite (stored_cell ci c Hc). cbn [or_panic mbind outcome_bind]. destruct (cell_at r ci) as [v|] eqn:Ev; [|done].
  rewrite (proj2 (existsb_false _ _)); [done|]. intros [id' r'] Hin.
  destruct (bool_decide (cell_at r' ci = Some v)) eqn:E; [|by rewrite andb_false_r].
  apply bool_decide_eq_true in E. rewrite andb_true_r. apply negb_false_iff, bool_decide_eq_true. f_equal.
  eapply (ti_unique _ _ (in_tables _ Hd i t Hi) ci c Hc Eu id' id r' r v); [done|apply stored|done|done].
Qed.

Lemma keeps_fk fk : fk ∈ Table.fks (dt_schema t) -> spec_check_fk d i t r (Some id) fk = Val tt.
Proof using Hd Hi Hid Hr.
  intros Hfk. destruct (ti_fks _ _ (in_tables _ Hd i t Hi) fk Hfk) as (j & ci & tci & u & [F1 F2 F3 F4 _ F5]).
  unfold spec_check_fk. rewrite F1. cbn [ok_or mbind outcome_bind].
  destruct (TableFacts.column_index_some _ _ _ F1) as (c & Hc & _).
  rewrite (stored_cell ci c Hc). cbn [or_panic mbind outcome_bind]. destruct (cell_at r ci) as [v|] eqn:Ev; [|done].
  rewrite <- F3, (find_table_name d j u) by (done || apply Hd). cbn [mbind outcome_bind]. unfold table_at. rewrite F2.
  cbn [or_panic mbind outcome_bind]. rewrite F4. cbn [ok_or mbind outcome_bind].
  destruct (F5 id r v stored Ev) as (id' & r' & Hin & Hv).
  assert (existsb _ (dt_rows u) = true) as ->; [|done].
  apply existsb_exists. exists (id', r'). split; [by apply list_elem_of_In|].
  apply bool_decide_eq_true. destruct (Nat.eqb_spec j i) as [->|]; [|done]. rewrite Hi in F2. injection F2 as <-.
  cbn [andb]. case_bool_decide as E; [|done]. injection E as ->. by rewrite <- (stored_only r' Hin).
Qed.

Lemma keeps_references : spec_restrict d (dt_name t) t i id (changed_key r r) = Val tt.
Proof using Hd Hi.
  apply each_o_val. intros [j u] Hu%elem_of_enumerate. apply each_o_val. intros fk Hfk.
  destruct (str_eqb (ForeignKey.to_table fk) (dt_name t)) eqn:E; [|done]. apply str_eqb_eq in E. cbn [negb].
  destruct (ti_fks _ _ (in_tables _ Hd j u Hu) fk Hfk) as (k & ci & tci & w & [_ F2 F3 F4 _ _]).
  assert (k = i) as -> by (eapply (names_inj d); [apply Hd|done|done|congruence]).
  rewrite Hi in F2. injection F2 as <-. rewrite F4. cbn [or_panic mbind outcome_bind]. unfold changed_key.
  destruct (cell_at r tci) as [v|] eqn:Ev; [|done]. by rewrite bool_decide_eq_true_2.
Qed.

(** Updating a row to itself is accepted and leaves the database as it is. *)
Lemma update_same : spec_update d (dt_name t) id r = Val d.
Proof using Hd Hi Hid Hr.
  unfold spec_update. rewrite (find_table_name d i t) by (done || apply Hd). cbn [mbind outcome_bind].
  unfold table_at. rewrite Hi. cbn [or_panic mbind outcome_bind].
  assert (Hlen : length r = length (dt_cols t)) by (by symmetry; eapply Forall2_length, stored_typed).
  assert (spec_validate d i t r (Some id) = Val tt) as ->.
  { unfold spec_validate. rewrite Hlen, Nat.eqb_refl. cbn [negb].
    rewrite (proj2 (check_cells_typed _ _ Hlen) stored_typed). cbn [mbind outcome_bind].
    assert (each_o (fun '(ci, c) => spec_check_unique t ci c r (Some id)) (enumerate (dt_cols t)) = Val tt) as ->.
    { apply each_o_val. intros [ci c] Hc%elem_of_enumerate. by apply keeps_unique. }
    cbn [mbind outcome_bind]. apply each_o_val. intros fk Hfk. by apply keeps_fk. }
  cbn [mbind outcome_bind]. rewrite Hr. cbn [mbind outcome_bind]. rewrite (typed_fit t r stored_typed), keeps_references.
  cbn [mbind outcome_bind]. f_equal.
  destruct (get_slot_pages t id r Hid Hr) as (k & p & l & j & Hk & Hj & -> & _ & Hset). rewrite Hset.
  rewrite (list_insert_id l j) by done. rewrite (list_insert_id (dt_pages t) k) by done.
  apply list_insert_id. rewrite Hi. by destruct t.
Qed.

End Update.

(** The table and the slot that a read of a row comes from. *)
Lemma row_stored d name id t r : integrity d -> live_id d name id ->
  spec_get_table d name = Val t -> spec_get_row d name id = Val r ->
  exists i u, d !! i = Some u /\ dt_name u = name /\ dt_schema u = t /\ get_slot u id = Val r.
Proof.
  intros Hd [Hid _] Ht Hr. unfold spec_get_table, spec_get_row in *.
  destruct (find_table d name) as [i|e| |] eqn:Ei; [|done..].
  destruct (find_table_val _ _ _ Ei) as (u & Hu & En). cbn [mbind outcome_bind] in *. unfold table_at in *. rewrite Hu in *.
  cbn [or_panic mbind outcome_bind] in *. injection Ht as Et.
  destruct (get_slot u id) as [r0|e| |] eqn:Eg; [|done..]. cbn [mbind outcome_bind] in Hr. injection Hr as <-.
  exists i, u. split_and!; [done..|]. by rewrite (typed_fit u r0 (stored_typed d i u id r0 Hd Hu Hid Eg)).
Qed.

(** ** The editor *)

(** The fields of a row read back as the row. *)
Lemma fields_back cols r : Forall2 typed cols r -> Forall cell_ok r -> forall k pre, length pre = k ->
  fields_cells k cols (open_field (Some (pre ++ r)) <$> zip (seq k (length cols)) cols) = inl r.
Proof.
  induction 1 as [|c x cols r Hcx Hr IH]; intros Hok k pre Hk; [done|].
  apply Forall_cons in Hok as [Hx Hok]. cbn [length seq zip zip_with fmap list_fmap fields_cells].
  assert (Hf : field_cell c (open_field (Some (pre ++ x :: r)) (k, c)) = inl x).
  { unfold open_field, field_cell. cbn [mbind option_bind]. rewrite list_lookup_middle by done.
    destruct x as [v|]; cbn in Hcx |- *; [|by rewrite Hcx].
    rewrite <- Hcx. by rewrite ValueFacts.value_parse_display by apply Hx. }
  rewrite Hf. specialize (IH Hok (S k) (pre ++ [x])). rewrite <- app_assoc in IH. cbn in IH.
  change (list_fmap _ _ ?f ?l) with (f <$> l). unfold zip in IH |- *. rewrite IH; [done|].
  rewrite length_app. cbn. lia.
Qed.
