(* ===== verification/SessionTheorems.v ===== *)
(** * Using the store through its screens

    The theorems about the whole interface over a store at rest: what an event
    does to the database, what a session of them does, and what the browser
    and the editor show of it. *)

From Stdlib Require Import Sorted.
From stdpp Require Import gmap.
From S2P Require Import Prelude Types Bignum Value ValueFacts Codec Schema Block Journal JournalFacts.
From S2P Require Import Pager PagerFacts Store Database Integrity Edits StoreFacts Heap Refinement.
From S2P Require Import Navigation Transactions Operations StoreRuns EditRefine StoreApi StoreSample.
From S2P Require Import Ps2 UiText UiTextFacts Builder BuilderFacts Framebuffer App Screens Ui.
From S2P Require Import UiFacts Wellformed UiModals UiDispatch UiEditor UiKeys Listing Editing.
Import Store Text App Screens Ui.

(** ** A machine for the witnesses *)

(** No hardware screens, a display of 768 lines, and a clock that stands still. *)
#[local] Instance plain_machine : Hardware unit := {|
  HwScreen := unit;
  hw_open k h := ((None, None), h);
  hw_key s k h := ((s, HwPop, None), h);
  hw_cursor i s := s;
  hw_install slot lba guid h := ((tt, []), h);
  hw_height h := Some 768;
  hw_msc_error h := (None, h);
  hw_clock r h := (0, h);
  hw_frame s st h := (Text.mk_frame [] Framebuffer.C_BG_LIST [] st [] None, h);
  hw_width h := Some 1024;
  hw_version := str "0.1";
  hw_project_license := str "MIT";
  hw_font_license := str "OFL"
|}.

Definition company_boot : App.t (D:=SteadyDisk.t) (H:=unit) := boot company_steady [] 0 tt.

(** ** Events *)




(** ** Sessions *)

(** A session from the start of the interface.  Whatever keys and clicks
    come, in any order, every event returns; the stack stays well-formed, the
    database keeps its integrity, and it is the outcome of a history of
    operations, at most one an event, each accepted or refused as the
    specification of the store says. *)
Theorem sessions_run {D H} `{!BlockDevice D, !DeviceLaws D, !Hardware H} n m (P : Pager.t D) g d guid lba (h : H) es :
  ~ may_lose (D:=D) -> (forall r (h : H), is_byte (hw_clock r h).1) ->
  holds n m P g d -> integrity d -> g + len es < 2 ^ 64 -> fair_session d (boot P guid lba h) es ->
  exists a' m' g' d' l, for_each es on_event (boot P guid lba h) = (Val tt, a') /\
    shown n m' g' d' a' /\ integrity d' /\ history d l d' /\ len l <= len es.
Proof.
  intros Hl Hclock Hh Hi Hg Hf.
  destruct (session_ends n es Hl Hclock m g d _ (boot_shown n m P g d guid lba h Hh Hi) Hg Hf)
    as (a' & m' & g' & d' & l & E & Ha & _ & Hl' & Hlen).
  exists a', m', g', d', l. split_and!; [done|done|apply Ha|done|done].
Qed.

(** A row typed into the table of [company]. *)
Definition typing : list Ps2.Event :=
  [Ps2.KeyEvent Ps2.Enter; Ps2.KeyEvent (Ps2.Char 105); Ps2.KeyEvent (Ps2.Char 98);
   Ps2.KeyEvent (Ps2.Char 111); Ps2.KeyEvent (Ps2.Char 98); Ps2.KeyEvent Ps2.Enter].

Ltac typed :=
  eapply fair_key_event; [vm_compute; reflexivity|];
  split; [by first [exact I|left; lia]
         |cbn [screen_short]; repeat (apply Forall_cons; split; [vm_compute; reflexivity|]); by constructor
         |by intros msg [_ ?]|intros o Ho; vm_compute in Ho].

Lemma sessions_run_witness :
  spec_insert company staff [Some (Value.Str (str "bob")); None] = Val (0%nat, mk_dtable staff_schema [(2050, [Some ann])]) /\
  exists a' m' g' d' l, for_each typing on_event company_boot = (Val tt, a') /\
    shown company_n m' g' d' a' /\ integrity d' /\ history company l d' /\ len l <= len typing.
Proof.
  split; [reflexivity|].
  apply (sessions_run company_n company_m company_steady 7 company [] 0 tt typing);
    [by intros ?|done|exact steady_holds|exact company_integrity|done|].
  unfold typing. do 5 (apply fair_next; [by typed|vm_compute; reflexivity|]).
  split; [|done]. typed. injection Ho as <-. split; [|done]. repeat constructor.
Defined.

(** ** The browser *)

(** C15: the rows the browser lists, cached or not.  They are the rows of the
    table whose column holds the value of the filter, in storage order, or
    sorted on the chosen column, ascending or descending: a permutation in
    which rows that compare equal keep their order and those with a NULL come
    last in either direction.  A list kept from before a change is never shown,
    and listing changes nothing. *)
Theorem browser_lists {D H} `{!BlockDevice D, !DeviceLaws D, !Hardware H} n m g d stk (a : App.t (D:=D) (H:=H))
    table filter sort :
  ~ may_lose (D:=D) -> still n m g d stk a ->
  let kept := List.filter (passes d table filter) (scanned d table) in
  exists rs a', cached_rows table filter sort a = (Val rs, a') /\ still n m g d stk a' /\ rs ≡ₚ kept /\
    match sort with
    | None => rs = kept
    | Some (ci, asc) =>
        StronglySorted (fun p q => cmp_rows ci asc p q <> Gt) rs /\
        (forall p, p ∈ rs -> List.filter (same (cmp_rows ci asc) p) rs = List.filter (same (cmp_rows ci asc) p) kept) /\
        (forall i j p q v, rs !! i = Some p -> rs !! j = Some q ->
           cell_at p.2 ci = None -> cell_at q.2 ci = Some v -> (j < i)%nat)
    end.
Proof.
  intros Hl Ha kept.
  destruct (wpu_val (cached_rows table filter sort)
    (fun rs a' => rs = spec_rows d table filter sort /\ still n m g d stk a') a) as (rs & a' & E & -> & Ha').
  { by eapply wpu_cached_rows. }
  exists (spec_rows d table filter sort), a'. split_and!; [done|done| |].
  - destruct sort as [[ci asc]|]; [rewrite spec_rows_sort, sort_by_perm|]; by rewrite spec_rows_base.
  - destruct sort as [[ci asc]|]; [|apply spec_rows_base]. rewrite spec_rows_sort, spec_rows_base.
    assert (Hs : Forall sound_row kept).
    { unfold kept. rewrite <- spec_rows_base. apply listed_sound; [apply Ha|eapply holds_fits, Ha]. }
    pose proof (sort_by_sorted (cmp_rows ci asc) sound_row (cmp_rows_flip ci asc) (cmp_rows_trans ci asc) kept Hs) as Hsort.
    split_and!; [done| |intros i j p q v; by apply nulls_last with (asc:=asc)].
    intros p Hp. apply (sort_by_stable _ sound_row (cmp_rows_flip ci asc) (cmp_rows_trans ci asc)); [|done].
    rewrite sort_by_perm in Hp. rewrite Forall_forall in Hs. by apply Hs.
Qed.

Lemma browser_lists_witness :
  let kept := List.filter (passes company staff None) (scanned company staff) in
  exists rs a', cached_rows staff None (Some (0%nat, true)) company_boot = (Val rs, a') /\
    still company_n company_m 7 company [List 0] a' /\ rs ≡ₚ kept /\
    StronglySorted (fun p q => cmp_rows 0 true p q <> Gt) rs /\
    (forall p, p ∈ rs -> List.filter (same (cmp_rows 0 true) p) rs = List.filter (same (cmp_rows 0 true) p) kept) /\
    (forall i j p q v, rs !! i = Some p -> rs !! j = Some q ->
       cell_at p.2 0 = None -> cell_at q.2 0 = Some v -> (j < i)%nat).
Proof.
  apply (browser_lists company_n company_m 7 company [List 0] company_boot staff None (Some (0%nat, true)));
    [by intros ?|]. split; [exact steady_holds|exact company_integrity|done|done].
Defined.

(** ** The editor *)

(** C16: the editor opened on a stored row shows that row: saving it untouched
    asks the store to write back the very cells that were read, which is
    accepted and leaves the database as it is. *)
Theorem editor_keeps_row {D H} `{!BlockDevice D, !DeviceLaws D, !Hardware H} n m g d rest (a : App.t (D:=D) (H:=H))
    table id t r :
  ~ may_lose (D:=D) -> still n m g d (List 0 :: rest) a -> live_id d table id ->
  spec_get_table d table = Val t -> spec_get_row d table id = Val r ->
  exists ed a', open_editor table (Some id) a = (Val (Some (EditorScreen ed)), a') /\
    still n m g d (List 0 :: rest) a' /\ Editor.cols ed = Table.columns t /\
    editor_op ed = Some (Update table id r) /\ spec_update d table id r = Val d.
Proof.
  intros Hl Ha Hid Ht Hr.
  destruct (wpu_val _ _ _ (open_editor_spec n m g d Hl rest table (Some id) a Ha ltac:(by intros ? [= <-])))
    as (s & a' & E & Ha' & ->).
  destruct (row_stored d table id t r) as (i & u & Hi & <- & <- & Hg); [apply Ha|done..|].
  assert (Htyped : Forall2 typed (dt_cols u) r) by (eapply (stored_typed d i); [apply Ha|done|apply Hid|done]).
  assert (Hcells : Forall cell_ok r).
  { apply (holds_fits _ _ _ _ _ (st_holds _ _ _ _ _ _ Ha) i u Hi) with (id:=id). by eapply stored; [apply Hid|]. }
  unfold table_of in E. rewrite Ht in E. cbn in E. eexists _, a'. split; [exact E|]. split; [done|]. split; [done|]. split.
  - unfold editor_op, editor_of. cbn [Editor.focus Editor.cols Editor.fields mbind option_bind].
    rewrite Nat.add_1_r. cbn [Nat.eqb]. rewrite Hr. cbn [answered ok].
    pose proof (fields_back (dt_cols u) r Htyped Hcells 0 [] eq_refl) as Hf. cbn [app] in Hf.
    unfold enumerate, dt_cols in *. by rewrite Hf.
  - eapply update_same; [apply Ha|done|apply Hid|done].
Qed.

Lemma editor_keeps_row_witness :
  exists ed a', open_editor staff (Some (RowId.mk 2050 0)) company_boot = (Val (Some (EditorScreen ed)), a') /\
    still company_n company_m 7 company [List 0] a' /\ Editor.cols ed = staff_cols /\
    editor_op ed = Some (Update staff (RowId.mk 2050 0) ann) /\
    spec_update company staff (RowId.mk 2050 0) ann = Val company.
Proof.
  apply (editor_keeps_row company_n company_m 7 company [] company_boot staff (RowId.mk 2050 0) staff_schema ann);
    [by intros ?|split; [exact steady_holds|exact company_integrity|done|done]| |done|done].
  split; [done|]. exists (mk_dtable staff_schema [(2050, [Some ann])]). split; [left|]. split; [done|]. left.
Defined.
