(* ===== verification/FramebufferFacts.v ===== *)
(** * What drawing does to a buffer

    A pixel write is a pure [plot]; every drawing operation is a sequence of
    plots, so it never aborts, keeps the buffer's length and leaves the bytes
    no pixel owns alone.  Two buffers that differ only in pixels a sequence
    covers become equal. *)

From S2P Require Import Prelude UiText Font Framebuffer.
Import Font Framebuffer.

(** ** Values without an abort *)

Definition gives {A} (r : outcome unit A) (Q : A -> Prop) : Prop :=
  match r with Val a => Q a | _ => False end.

Lemma gives_bind {A B} (r : outcome unit A) (f : A -> outcome unit B) R Q :
  gives r R -> (forall a, R a -> gives (f a) Q) -> gives (r ≫= f) Q.
Proof. destruct r; cbn; auto. Qed.

Lemma gives_mono {A} (r : outcome unit A) (R Q : A -> Prop) :
  gives r R -> (forall a, R a -> Q a) -> gives r Q.
Proof. destruct r; cbn; auto. Qed.

Lemma gives_val {A} (r : outcome unit A) Q : gives r Q -> exists a, r = Val a /\ Q a.
Proof. destruct r; cbn; eauto; done. Qed.

Lemma gives_fold {A S} (f : S -> A -> outcome unit S) (I : S -> Prop) l : forall s,
  I s -> (forall s x, x ∈ l -> I s -> gives (f s x) I) -> gives (fold_o f s l) I.
Proof.
  induction l as [|x l IH]; intros s Hs Hf; [done|]. cbn [fold_o].
  apply (gives_bind _ _ I); [apply Hf; [left|done]|].
  intros s' Hs'. apply IH; [done|]. intros s0 y Hy. apply Hf. by right.
Qed.

(** ** Arithmetic in bounds *)

Lemma add_usize_val a b : a + b < 2 ^ 64 -> add_u64 (E:=unit) a b = Val (a + b).
Proof. intros H. unfold add_u64. by rewrite (proj2 (Z.ltb_lt _ _)). Qed.
Lemma mul_usize_val a b : a * b < 2 ^ 64 -> mul_u64 (E:=unit) a b = Val (a * b).
Proof. intros H. unfold mul_u64. by rewrite (proj2 (Z.ltb_lt _ _)). Qed.
Lemma add_u32_val a b : a + b < 2 ^ 32 -> add_u32 a b = Val (a + b).
Proof. intros H. unfold add_u32. by rewrite (proj2 (Z.ltb_lt _ _)). Qed.
Lemma mul_u32_val a b : a * b < 2 ^ 32 -> mul_u32 a b = Val (a * b).
Proof. intros H. unfold mul_u32. by rewrite (proj2 (Z.ltb_lt _ _)). Qed.
Lemma sub_uint_val a b : b <= a -> sub_uint a b = Val (a - b).
Proof. intros H. unfold sub_uint. by rewrite (proj2 (Z.leb_le _ _)). Qed.
Lemma div_uint_val a b : b <> 0 -> div_uint a b = Val (a / b).
Proof. intros H. unfold div_uint. by rewrite (proj2 (Z.eqb_neq _ _)). Qed.

Lemma elem_of_range a b x : x ∈ range a b <-> a <= x < b.
Proof. unfold range. rewrite elem_of_seqZ. lia. Qed.

(** ** Colours *)

Definition is_rgb (c : Rgb) : Prop :=
  let '(r, g, b) := c in is_byte r /\ is_byte g /\ is_byte b.

Lemma as_u8_byte x : is_byte (as_u8 x).
Proof. unfold is_byte, as_u8. pose proof (Z.mod_pos_bound x (2 ^ 8)). lia. Qed.

Lemma lerp_mix_val d n x y : 0 < d < 2 ^ 24 -> 0 <= n <= d -> is_byte x -> is_byte y ->
  gives (lerp_mix d n x y) is_byte.
Proof.
  intros Hd Hn Hx Hy. unfold is_byte, lerp_mix in *.
  rewrite sub_uint_val by lia. cbn [mbind outcome_bind].
  rewrite mul_u32_val by nia. cbn [mbind outcome_bind].
  rewrite mul_u32_val by nia. cbn [mbind outcome_bind].
  rewrite add_u32_val by nia. cbn [mbind outcome_bind].
  rewrite div_uint_val by lia. apply as_u8_byte.
Qed.

Lemma lerp_val a b num den : is_rgb a -> is_rgb b -> 0 <= num -> 0 <= den < 2 ^ 24 ->
  gives (lerp a b num den) is_rgb.
Proof.
  destruct a as [[ar ag] ab], b as [[br bg] bb]. intros (? & ? & ?) (? & ? & ?) Hn Hd. unfold lerp.
  assert (E1 : as_u32 (Z.max den 1) = Z.max den 1) by (unfold as_u32; apply Z.mod_small; lia).
  assert (E2 : as_u32 (Z.min num den) = Z.min num den) by (unfold as_u32; apply Z.mod_small; lia).
  rewrite E1, E2.
  assert (Hm : forall x y, is_byte x -> is_byte y ->
    gives (lerp_mix (Z.max den 1) (Z.min num den) x y) is_byte) by (intros; apply lerp_mix_val; auto; lia).
  eapply gives_bind; [by apply Hm|]. intros r Hr.
  eapply gives_bind; [by apply Hm|]. intros g Hg.
  eapply gives_bind; [by apply Hm|]. intros v Hv. by cbn.
Qed.

(** ** A pixel write *)

Record geometry (i : FbInfo) : Prop := {
  geo_w : 0 <= width i < 2 ^ 24;
  geo_h : 0 <= height i < 2 ^ 24;
  geo_p : 0 <= pitch i < 2 ^ 32;
  geo_b : 3 <= bpp i < 256
}.

Definition offset (i : FbInfo) (x y : Z) : Z := y * pitch i + x * bpp i.

Lemma pixel_at_val i x y : geometry i -> 0 <= x < width i -> 0 <= y < height i ->
  pixel_at i x y = Val (offset i x y, offset i x y + bpp i).
Proof.
  intros [] Hx Hy. unfold pixel_at, offset.
  rewrite mul_usize_val by nia. cbn [mbind outcome_bind].
  rewrite mul_usize_val by nia. cbn [mbind outcome_bind].
  rewrite add_usize_val by nia. cbn [mbind outcome_bind].
  rewrite add_usize_val by nia. done.
Qed.

Lemma offset_pos i x y : geometry i -> 0 <= x -> 0 <= y -> 0 <= offset i x y.
Proof. intros [] ? ?. unfold offset. nia. Qed.

(** The pixel is on the screen and in the buffer. *)
Definition visible (i : FbInfo) (n x y : Z) : bool :=
  (x <? width i) && (y <? height i) && (offset i x y + bpp i <=? n).

Definition channels (i : FbInfo) (c : Rgb) : bytes :=
  let '(r, g, b) := c in if bgr i then [b; g; r] else [r; g; b].

Lemma channels_length i c : length (channels i c) = 3%nat.
Proof. destruct c as [[r g] b]. unfold channels. by destruct (bgr i). Qed.

Definition plot (i : FbInfo) (b : bytes) (p : Z * Z * Rgb) : bytes :=
  let '(x, y, c) := p in
  if visible i (len b) x y
  then take (Z.to_nat (offset i x y)) b ++ channels i c ++ drop (Z.to_nat (offset i x y + 3)) b
  else b.

(** The write of pixel [(x, y)] in a buffer of [n] bytes reaches byte [k]. *)
Definition covers (i : FbInfo) (n : Z) (p : Z * Z * Rgb) (k : nat) : Prop :=
  let '(x, y, _) := p in
  visible i n x y = true /\ offset i x y <= Z.of_nat k < offset i x y + 3.

Lemma plot_length i b p : geometry i -> (0 <= p.1.1 /\ 0 <= p.1.2) -> length (plot i b p) = length b.
Proof.
  destruct p as [[x y] c]. cbn. intros Hg [Hx Hy]. destruct (visible i (len b) x y) eqn:E; [|done].
  unfold visible in E. bools. pose proof (offset_pos i x y Hg Hx Hy). pose proof (geo_b i Hg).
  rewrite !length_app, channels_length, length_take, length_drop. lia.
Qed.

Lemma put_val i b x y c : geometry i -> 0 <= x -> 0 <= y -> put b i x y c = Val (plot i b (x, y, c)).
Proof.
  intros Hg Hx Hy. unfold put, plot, visible. rewrite (Z.leb_antisym x), (Z.leb_antisym y).
  destruct (Z.ltb_spec x (width i)), (Z.ltb_spec y (height i)); cbn [negb orb andb]; try done.
  rewrite pixel_at_val by done. cbn [mbind outcome_bind]. rewrite Z.ltb_antisym.
  destruct (Z.leb_spec (offset i x y + bpp i) (len b)); cbn [negb]; [|done].
  pose proof (geo_b i Hg). pose proof (offset_pos i x y Hg Hx Hy).
  rewrite (proj2 (Z.ltb_ge _ _)) by lia.
  destruct c as [[r g] v]. unfold splice, channels. destruct (bgr i); cbn [length];
    rewrite (proj2 (Z.leb_le _ _)), (proj2 (Z.leb_le _ _)) by lia; reflexivity.
Qed.

Lemma plot_covered i b x y c k : geometry i -> 0 <= x -> 0 <= y -> covers i (len b) (x, y, c) k ->
  plot i b (x, y, c) !! k = channels i c !! (k - Z.to_nat (offset i x y))%nat.
Proof.
  intros Hg Hx Hy [Hv Hk]. unfold plot. rewrite Hv. unfold visible in Hv. bools.
  pose proof (geo_b i Hg). pose proof (offset_pos i x y Hg Hx Hy).
  assert (Hl : length (take (Z.to_nat (offset i x y)) b) = Z.to_nat (offset i x y))
    by (rewrite length_take; lia).
  rewrite lookup_app_r by lia. rewrite Hl.
  by rewrite lookup_app_l by (rewrite channels_length; lia).
Qed.

Lemma plot_outside i b x y c k : geometry i -> 0 <= x -> 0 <= y -> ~ covers i (len b) (x, y, c) k ->
  plot i b (x, y, c) !! k = b !! k.
Proof.
  intros Hg Hx Hy Hk. unfold plot. destruct (visible i (len b) x y) eqn:E; [|done].
  assert (Hk' : ~ (offset i x y <= Z.of_nat k < offset i x y + 3)) by (intros H; by apply Hk).
  unfold visible in E. bools. pose proof (geo_b i Hg). pose proof (offset_pos i x y Hg Hx Hy).
  destruct (Nat.lt_ge_cases k (Z.to_nat (offset i x y))).
  - rewrite lookup_app_l by (rewrite length_take; lia). by rewrite lookup_take_lt.
  - rewrite lookup_app_r by (rewrite length_take; lia). rewrite length_take.
    rewrite lookup_app_r by (rewrite channels_length; lia). rewrite channels_length, lookup_drop.
    f_equal. lia.
Qed.

(** ** Sequences of pixel writes *)

Definition on_grid (p : Z * Z * Rgb) : Prop := 0 <= p.1.1 /\ 0 <= p.1.2 /\ is_rgb p.2.

Definition plots (i : FbInfo) (b : bytes) (l : list (Z * Z * Rgb)) : bytes := foldl (plot i) b l.

Section Plots.
Context (i : FbInfo) (Hg : geometry i).

Lemma plots_app b l l' : plots i b (l ++ l') = plots i (plots i b l) l'.
Proof. unfold plots. by rewrite foldl_app. Qed.

Lemma plots_length l : forall b, Forall on_grid l -> length (plots i b l) = length b.
Proof.
  induction l as [|p l IH]; intros b Hl; [done|]. apply Forall_cons in Hl as [(? & ? & ?) Hl].
  cbn. change (foldl (plot i) (plot i b p) l) with (plots i (plot i b p) l).
  rewrite IH by done. by apply plot_length.
Qed.

(** Bytes no write reaches stay. *)
Lemma plots_outside l k : forall b, Forall on_grid l ->
  (forall p, p ∈ l -> ~ covers i (len b) p k) -> plots i b l !! k = b !! k.
Proof.
  induction l as [|p l IH]; intros b Hl Hk; [done|]. apply Forall_cons in Hl as [(Hx & Hy & Hc) Hl].
  destruct p as [[x y] c]. cbn in Hx, Hy.
  change (plots i b ((x, y, c) :: l)) with (plots i (plot i b (x, y, c)) l).
  rewrite IH; [|done|].
  - apply plot_outside; try done. apply Hk. left.
  - intros q Hq. rewrite plot_length by done. apply Hk. by right.
Qed.

(** Buffers that agree wherever no write reaches end up equal. *)
Lemma plots_agree l : forall b b', Forall on_grid l -> length b = length b' ->
  (forall k, (forall p, p ∈ l -> ~ covers i (len b) p k) -> b !! k = b' !! k) ->
  plots i b l = plots i b' l.
Proof.
  induction l as [|p l IH]; intros b b' Hl Hb Hk.
  - apply list_eq. intros k. apply Hk. intros p Hp. by apply elem_of_nil in Hp.
  - apply Forall_cons in Hl as [(Hx & Hy & Hc) Hl]. destruct p as [[x y] c]. cbn in Hx, Hy.
    change (plots i (plot i b (x, y, c)) l = plots i (plot i b' (x, y, c)) l).
    assert (L : length (plot i b (x, y, c)) = length b) by (by apply plot_length).
    assert (L' : length (plot i b' (x, y, c)) = length b') by (by apply plot_length).
    apply IH; [done|by rewrite L, L'|]. intros k H. rewrite L in H.
    destruct (decide (covers i (len b) (x, y, c) k)) as [Hc'|Hc'].
    + rewrite !plot_covered; auto. by rewrite <- Hb.
    + rewrite !plot_outside; auto; [|by rewrite <- Hb].
      apply Hk. intros q [->|Hq]%elem_of_cons; auto.
Qed.

Lemma channels_bytes c : is_rgb c -> is_bytes (channels i c).
Proof.
  destruct c as [[r g] b]. intros (? & ? & ?). unfold channels. destruct (bgr i); by rewrite !Forall_cons, Forall_nil.
Qed.

Lemma plots_bytes l : forall b, Forall on_grid l -> is_bytes b -> is_bytes (plots i b l).
Proof.
  induction l as [|p l IH]; intros b Hl Hb; [done|]. apply Forall_cons in Hl as [(Hx & Hy & Hc) Hl].
  destruct p as [[x y] c]. apply IH; [done|]. unfold plot. destruct (visible _ _ _ _); [|done].
  rewrite !Forall_app. split_and!; [by apply Forall_take|by apply channels_bytes|by apply Forall_drop].
Qed.

(** A loop of writes whose places and colours do not depend on the buffer. *)
Lemma fold_plots {A} (f : bytes -> A -> outcome unit bytes) (g : A -> list (Z * Z * Rgb)) l : forall s,
  (forall x s, x ∈ l -> f s x = Val (plots i s (g x))) ->
  fold_o f s l = Val (plots i s (concat (g <$> l))).
Proof.
  induction l as [|x l IH]; intros s Hf; [done|]. cbn [fold_o]. rewrite Hf by left.
  cbn [mbind outcome_bind fmap list_fmap concat]. rewrite plots_app. apply IH. intros y s' Hy. apply Hf. by right.
Qed.

End Plots.
