(* ===== verification/DisplayFacts.v ===== *)
(** * What the drawing operations do

    Every drawing operation ends, whatever it draws over, and changes the
    scene by a sequence of pixel writes and nothing else of the display. *)

From S2P Require Import Prelude UiText UiTextFacts Font Framebuffer FramebufferFacts.
Import Font Framebuffer.

(** Coordinates and sizes far from the end of [usize]. *)
Definition sane (z : Z) : Prop := 0 <= z < 2 ^ 62.
Ltac sane := unfold sane, saturating_sub in *; lia.

(** Computes the checked sums of a goal whose bounds are in reach. *)
Ltac calc :=
  repeat (first [rewrite !add_usize_val by sane | rewrite !mul_usize_val by sane | rewrite !sub_uint_val by sane
                | rewrite !add_u32_val by sane]; cbn [mbind outcome_bind]).

(** ** Loops that draw *)

Definition drawn (i : FbInfo) (b b' : bytes) : Prop :=
  exists l, Forall on_grid l /\ b' = plots i b l.

Lemma drawn_refl i b : drawn i b b.
Proof. exists []. split; [by apply Forall_nil_2|done]. Qed.
Lemma drawn_trans i a b c : drawn i a b -> drawn i b c -> drawn i a c.
Proof.
  intros (l & Hl & ->) (l' & Hl' & ->). exists (l ++ l'). split; [by apply Forall_app|].
  symmetry. apply plots_app.
Qed.
Lemma drawn_length i b b' : geometry i -> drawn i b b' -> length b' = length b.
Proof. intros Hg (l & Hl & ->). by apply plots_length. Qed.
Lemma drawn_bytes i b b' : drawn i b b' -> is_bytes b -> is_bytes b'.
Proof. intros (l & Hl & ->) Hb. by apply plots_bytes. Qed.

Definition paints (i : FbInfo) (f : bytes -> outcome unit bytes) : Prop :=
  forall s, is_bytes s -> gives (f s) (drawn i s).

Section Scene.
Context (i : FbInfo) (Hg : geometry i).

Lemma paints_put x y c : 0 <= x -> 0 <= y -> is_rgb c -> paints i (fun s => put s i x y c).
Proof.
  intros Hx Hy Hc s Hs. rewrite put_val by done. exists [(x, y, c)].
  split; [apply Forall_singleton; by repeat split|done].
Qed.

Lemma paints_same : paints i Val.
Proof. intros s Hs. apply drawn_refl. Qed.

Lemma paints_fold {A} (f : bytes -> A -> outcome unit bytes) l :
  (forall x, x ∈ l -> paints i (fun s => f s x)) -> paints i (fun s => fold_o f s l).
Proof.
  intros Hf s Hs. eapply gives_mono; [apply (gives_fold f (fun s' => is_bytes s' /\ drawn i s s'))|].
  - split; [done|apply drawn_refl].
  - intros s1 x Hx [H1 H2]. eapply gives_mono; [by apply (Hf x Hx)|]. intros s2 H3.
    split; [by eapply drawn_bytes|by eapply drawn_trans].
  - by intros s' [_ H].
Qed.

Lemma paints_bind {A} (r : outcome unit A) (P : A -> Prop) (f : bytes -> A -> outcome unit bytes) :
  gives r P -> (forall a, P a -> paints i (fun s => f s a)) -> paints i (fun s => a ← r; f s a).
Proof. intros Hr Hf s Hs. eapply gives_bind; [done|]. intros a Ha. by apply Hf. Qed.

Lemma paints_seq (f g : bytes -> outcome unit bytes) :
  paints i f -> paints i g -> paints i (fun s => s' ← f s; g s').
Proof.
  intros Hf Hg' s Hs. eapply gives_bind; [by apply Hf|]. intros s1 H1.
  eapply gives_mono; [apply Hg'; by eapply drawn_bytes|]. intros s2 H2. by eapply drawn_trans.
Qed.

End Scene.

(** ** Operations of the display *)

Record atlas_ok (a : GlyphAtlas) : Prop := {
  ao_cols : cols a = 16;
  ao_rows : rows_ a = 7;
  ao_cw : 0 < cellw a < 2 ^ 32;
  ao_ch : 0 < cellh a < 2 ^ 32;
  ao_cell : cellw a * cellh a < 2 ^ 24;
  ao_w : a_w a = 16 * cellw a;
  ao_cov : len (cov a) = a_w a * (7 * cellh a) /\ is_bytes (cov a);
  ao_filled : length (filled a) = 112%nat
}.

Definition atlas_fine (a : option GlyphAtlas) : Prop := forall a', a = Some a' -> atlas_ok a'.

Record good (d : Display) : Prop := {
  good_info : geometry (info d);
  good_scene : is_bytes (scene d);
  good_atlas : atlas_fine (atlas d)
}.

(** The scene is drawn on, the rest is kept. *)
Definition stage (d d' : Display) : Prop :=
  exists s, d' = with_scene s d /\ drawn (info d) (scene d) s.

Lemma stage_refl d : stage d d.
Proof. exists (scene d). split; [by destruct d|apply drawn_refl]. Qed.
Lemma stage_trans a b c : stage a b -> stage b c -> stage a c.
Proof.
  intros (s & -> & H1) (s' & -> & H2). exists s'. split; [done|]. by eapply drawn_trans.
Qed.
Lemma stage_good d d' : good d -> stage d d' -> good d'.
Proof. intros [] (s & -> & H). split; [done| |done]. by eapply drawn_bytes. Qed.
Lemma stage_info d d' : stage d d' -> info d' = info d.
Proof. by intros (s & -> & _). Qed.
Lemma stage_length d d' : good d -> stage d d' -> length (scene d') = length (scene d).
Proof. intros [] (s & -> & H). by eapply drawn_length. Qed.

Lemma stage_bind d0 d (r : outcome unit Display) k :
  good d0 -> stage d0 d -> (good d -> gives r (stage d)) ->
  (forall d', stage d0 d' -> gives (k d') (stage d0)) -> gives (r ≫= k) (stage d0).
Proof.
  intros H0 H1 Hr Hk. eapply gives_bind; [apply Hr; by eapply stage_good|].
  intros d' Hd. apply Hk. by eapply stage_trans.
Qed.

Lemma stage_last d0 d (r : outcome unit Display) :
  good d0 -> stage d0 d -> (good d -> gives r (stage d)) -> gives r (stage d0).
Proof.
  intros H0 H1 Hr. eapply gives_mono; [apply Hr; by eapply stage_good|].
  intros d' Hd. by eapply stage_trans.
Qed.

Lemma draw_stage d f : good d -> paints (info d) f -> gives (draw d f) (stage d).
Proof.
  intros [] Hf. unfold draw. eapply gives_bind; [by apply Hf|]. intros s Hs. by exists s.
Qed.

Ltac rgb := cbn; unfold is_byte; lia.

(** The operations but the last of a sequence, and the last. *)
Ltac stage_next tac :=
  eapply stage_bind; [eassumption|first [eassumption|apply stage_refl]|intros ?; tac|intros ? ?]; cbn beta.
Ltac stage_end tac :=
  eapply stage_last; [eassumption|first [eassumption|apply stage_refl]|intros ?; tac].

(** ** Rectangles and bitmaps *)

Lemma fill_rect_stage d x y w h c : good d -> sane x -> sane y -> sane w -> sane h -> is_rgb c ->
  gives (fill_rect d x y w h c) (stage d).
Proof.
  intros Hd Hx Hy Hw Hh Hc. unfold sane in *. apply draw_stage; [done|].
  calc. apply paints_fold. intros yy Hyy%elem_of_range.
  apply paints_fold. intros xx Hxx%elem_of_range.
  apply paints_put; [apply Hd|lia|lia|done].
Qed.

Ltac fill := apply fill_rect_stage; [assumption|sane..|first [assumption|rgb]].

Lemma stroke_rect_stage d x y w h t c : good d -> sane (x + w) -> sane (y + h) -> 0 <= x -> 0 <= y ->
  0 <= w -> 0 <= h -> sane t -> is_rgb c -> gives (stroke_rect d x y w h t c) (stage d).
Proof.
  intros Hd Hxw Hyh Hx Hy Hw Hh Ht Hc. unfold stroke_rect. destruct (_ || _); [apply stage_refl|].
  stage_next fill. calc.
  stage_next fill. stage_next fill. calc. stage_end fill.
Qed.

Lemma fill_grad_rect_stage d x y w h top bot : good d -> sane x -> sane y -> sane w -> 0 <= h < 2 ^ 24 ->
  is_rgb top -> is_rgb bot -> gives (fill_grad_rect d x y w h top bot) (stage d).
Proof.
  intros Hd Hx Hy Hw Hh Ht Hb. apply draw_stage; [done|].
  assert (Hl : forall yy, yy ∈ range 0 h -> 0 <= yy < h) by (intros yy; by rewrite elem_of_range).
  revert Hl. generalize (range 0 h) as yys.
  induction yys as [|yy yys IH]; intros Hl; [apply paints_same|]. cbn [grad_rows].
  assert (Hyy : 0 <= yy < h) by (apply Hl; left).
  calc.
  destruct (height (info d) <=? y + yy); [apply paints_same|].
  destruct (gives_val _ _ (lerp_val top bot yy (saturating_sub h 1) Ht Hb (proj1 Hyy) ltac:(sane)))
    as (c & -> & Hc).
  cbn [mbind outcome_bind]. calc.
  apply paints_seq; [|apply IH; intros ? ?; apply Hl; by right].
  apply paints_fold. intros xx Hxx%elem_of_range. apply paints_put; [apply Hd|sane..|done].
Qed.

Lemma corner_emblem_stage d x y a m dm fx fy : good d -> sane x -> sane y -> is_rgb a -> is_rgb m ->
  is_rgb dm -> gives (corner_emblem d x y a m dm fx fy) (stage d).
Proof.
  intros Hd Hx Hy Ha Hm Hdm. apply draw_stage; [done|].
  apply paints_fold. intros ry Hry%elem_of_range. apply paints_fold. intros rx Hrx%elem_of_range.
  cbv zeta. destruct (tile_at FRAME_CORNER ry rx =? 0); [apply paints_same|].
  apply paints_fold. intros sy Hsy%elem_of_range. apply paints_fold. intros sx Hsx%elem_of_range.
  change EMBLEM_N with 16 in *. change SCALE with 2 in *.
  set (c := match tile_at _ _ _ with 3 => a | _ => _ end).
  assert (Hc : is_rgb c) by (unfold c; by repeat case_match). clearbody c.
  set (cx := if fx then _ else rx). set (cy := if fy then _ else ry).
  assert (0 <= cx < 16) by (unfold cx; destruct fx; lia).
  assert (0 <= cy < 16) by (unfold cy; destruct fy; lia).
  clearbody cx cy. calc. apply paints_put; [apply Hd|sane|sane|done].
Qed.

(** ** Glyphs *)

Lemma face_glyph_paints i g x y top bot scale den : geometry i -> sane x -> sane y ->
  (length g <= 8)%nat -> 0 <= scale < 2 ^ 8 -> 0 <= den < 2 ^ 24 -> is_rgb top -> is_rgb bot ->
  paints i (face_glyph i g x y top bot scale den).
Proof.
  intros Hi Hx Hy Hg Hs Hden Ht Hb. apply paints_fold. intros [row bits] Hrow.
  assert (Hr : (row < 8)%nat).
  { unfold enumerate in Hrow. apply elem_of_zip_l, elem_of_seq in Hrow. lia. }
  apply paints_fold. intros col Hcol%elem_of_range. change GLYPH_W with 8 in *.
  destruct (Z.testbit bits col); [|apply paints_same].
  apply paints_fold. intros sy Hsy%elem_of_range.
  assert (Hpy : 0 <= Z.of_nat row * scale + sy < 2 ^ 12) by nia.
  cbv zeta. destruct (gives_val _ _ (lerp_val top bot _ den Ht Hb (proj1 Hpy) Hden)) as (c & -> & Hc).
  cbn [mbind outcome_bind]. apply paints_fold. intros sx Hsx%elem_of_range.
  assert (Hcs : 0 <= col * scale < 2 ^ 12) by nia.
  calc.
  apply paints_put; [done|sane..|done].
Qed.

Definition rows_of (t : list (list Z)) : bool := forallb (fun g => (length g <=? 8)%nat) t.

Lemma nth_z_glyph t n : rows_of t = true -> 0 <= n < len t ->
  gives (or_panic (nth_z t n)) (fun g => (length g <= 8)%nat).
Proof.
  intros Ht Hn. unfold nth_z. destruct (lookup_lt_is_Some_2 t (Z.to_nat n)) as [g Hl]; [lia|].
  rewrite Hl. cbn. unfold rows_of in Ht. rewrite forallb_forall in Ht.
  apply Nat.leb_le, Ht, list_elem_of_In, list_elem_of_lookup. by exists (Z.to_nat n).
Qed.

Lemma body_glyph_gives ch : gives (body_glyph ch) (fun g => (length g <= 8)%nat).
Proof.
  unfold body_glyph. destruct ((32 <=? ch) && (ch <? 127)) eqn:E.
  - bools. apply nth_z_glyph; [reflexivity|]. change (len BASIC) with 95. lia.
  - cbn. repeat case_match; cbn; lia.
Qed.

Lemma glyph_gives font ch : gives (glyph font ch) (fun g => (length g <= 8)%nat).
Proof.
  destruct font; [apply body_glyph_gives|]. cbn [glyph]. unfold display_glyph.
  set (c := if _ && _ then ch - 0x20 else ch).
  destruct ((0x41 <=? c) && (c <=? 0x5A)) eqn:E1.
  { bools. apply nth_z_glyph; [reflexivity|]. change (len DISP_AZ) with 26. lia. }
  destruct ((0x30 <=? c) && (c <=? 0x39)) eqn:E2.
  { bools. apply nth_z_glyph; [reflexivity|]. change (len DISP_09) with 10. lia. }
  clearbody c. pose proof (body_glyph_gives ch).
  repeat (case_match; try (cbn; lia)); assumption.
Qed.

(** ** The glyph atlas *)

(** A loop whose steps are counted. *)
Lemma gives_count {A S} (f : S -> A -> outcome unit S) (I : Z -> S -> Prop) l : forall k s,
  I k s -> (forall j s x, k <= j < k + len l -> x ∈ l -> I j s -> gives (f s x) (I (j + 1))) ->
  gives (fold_o f s l) (I (k + len l)).
Proof.
  induction l as [|x l IH]; intros k s Hs Hf; cbn [fold_o length].
  - by rewrite Z.add_0_r.
  - eapply gives_bind; [apply (Hf k); [cbn [length]; lia|left|done]|]. intros s' Hs'.
    replace (k + Z.of_nat (Datatypes.S (length l))) with (k + 1 + len l) by lia. apply IH; [done|].
    intros j s0 y Hj Hy. apply Hf; [cbn [length]; lia|by right].
Qed.

Lemma range_length a b : a <= b -> len (range a b) = b - a.
Proof. intros H. unfold range. rewrite length_seqZ. lia. Qed.

Lemma nth_z_byte l k : is_bytes l -> 0 <= k < len l -> gives (or_panic (nth_z l k)) is_byte.
Proof.
  intros Hl Hk. unfold nth_z. destruct (lookup_lt_is_Some_2 l (Z.to_nat k)) as [v Hv]; [lia|].
  rewrite Hv. by apply (proj1 (Forall_lookup _ _) Hl (Z.to_nat k)).
Qed.

(** A block of [h] rows of [w] bytes sums to what fits a [u32]. *)
Lemma block_sum (l : list Z) (at_ : Z -> Z -> Z) x0 x1 y0 y1 :
  is_bytes l -> x0 <= x1 -> y0 <= y1 -> (x1 - x0) * (y1 - y0) < 2 ^ 24 ->
  (forall x y, x0 <= x < x1 -> y0 <= y < y1 -> 0 <= at_ y x < len l) ->
  gives (fold_o (fun acc yy => fold_o (fun '(sum, n) xx =>
      v ← or_panic (nth_z l (at_ yy xx));
      sum' ← add_u32 sum v;
      n' ← add_u32 n 1;
      Val (sum', n')) acc (range x0 x1)) (0, 0) (range y0 y1))
    (fun '(sum, n) => 0 <= sum <= 255 * n /\ n = (x1 - x0) * (y1 - y0)).
Proof.
  intros Hl Hx Hy Hb Hat.
  set (I := fun k '(sum, n) => 0 <= sum <= 255 * n /\ n = (x1 - x0) * k).
  eapply gives_mono; [apply (gives_count _ I (range y0 y1) 0 (0, 0)); [cbn; lia|]|].
  2: { intros [sum n] (H1 & E). rewrite range_length in E by done. split; [done|]. rewrite E. f_equal. }
  rewrite range_length by done. intros j [sum n] yy Hj Hyy%elem_of_range (Hs & Hn).
  set (J := fun k '(sum, n) => 0 <= sum <= 255 * n /\ n = (x1 - x0) * j + k).
  eapply gives_mono; [apply (gives_count _ J (range x0 x1) 0 (sum, n)); [cbn; lia|]|].
  2: { intros [s' n'] (H1 & E). rewrite range_length in E by done. cbn. split; [done|nia]. }
  rewrite range_length by done. intros k [s' n'] xx Hk Hxx%elem_of_range (Hs' & Hn').
  eapply gives_bind; [apply nth_z_byte; [done|by apply Hat]|]. unfold is_byte. intros v Hv.
  assert ((x1 - x0) * j + k < 2 ^ 24) by nia.
  rewrite add_u32_val by lia. cbn [mbind outcome_bind]. rewrite add_u32_val by lia.
  cbn [mbind outcome_bind gives J]. lia.
Qed.

Lemma get_px_gives b i x y : geometry i -> is_bytes b -> 0 <= x < width i -> 0 <= y < height i ->
  gives (get_px b i x y) is_rgb.
Proof.
  intros Hg Hb Hx Hy. unfold get_px. rewrite pixel_at_val by done. cbn [mbind outcome_bind].
  pose proof (geo_b i Hg). pose proof (offset_pos i x y Hg (proj1 Hx) (proj1 Hy)).
  destruct (Z.ltb_spec (len b) (offset i x y + bpp i)); [rgb|].
  eapply gives_bind; [apply nth_z_byte; [done|lia]|]. intros c0 B0.
  eapply gives_bind; [apply nth_z_byte; [done|lia]|]. intros c1 B1.
  eapply gives_bind; [apply nth_z_byte; [done|lia]|]. intros c2 B2. cbn. by destruct (bgr i).
Qed.

(** The span of a source cell under a box, within the cell. *)
Lemma span_gives k cell box : 0 < cell < 2 ^ 32 -> 0 <= k < box -> box < 2 ^ 24 ->
  gives (span k cell box) (fun '(a, b) => 0 <= a < b /\ b <= cell).
Proof.
  intros Hc Hk Hb. unfold span. rewrite mul_usize_val by nia. cbn [mbind outcome_bind].
  rewrite mul_usize_val by nia. cbn [mbind outcome_bind gives].
  assert (0 <= k * cell / box < cell).
  { split; [apply Z.div_pos; nia|]. apply Z.div_lt_upper_bound; nia. }
  lia.
Qed.

Section Atlas.
Context (i : FbInfo) (Hg : geometry i) (a : GlyphAtlas) (Ha : atlas_ok a).

Lemma atlas_pixel_paints cx cy x py bw sy0 sy1 color tx :
  0 <= cx < 16 -> 0 <= cy < 7 -> sane x -> 0 <= py < height i -> 0 <= tx < bw -> bw < 2 ^ 24 ->
  0 <= sy0 < sy1 -> sy1 <= cellh a -> is_rgb color ->
  paints i (fun s => atlas_pixel i a (cx * cellw a) (cy * cellh a) x py bw sy0 sy1 color s tx).
Proof.
  intros Hcx Hcy Hx Hpy Htx Hbw Hs0 Hs1 Hc s Hs. destruct Ha. destruct ao_cov0 as [Hcl Hcb].
  eapply gives_bind; [by apply (span_gives tx (cellw a) bw)|]. intros [sx0 sx1] (Hx0 & Hx1).
  eapply gives_bind; [apply (block_sum (cov a) (fun yy xx => (cy * cellh a + yy) * a_w a + (cx * cellw a + xx)))|];
    [done|lia|lia|nia| |].
  { intros xx yy Hxx Hyy. rewrite Hcl, ao_w0.
    assert (0 <= cx * cellw a + xx < 16 * cellw a) by nia.
    assert (0 <= cy * cellh a + yy < 7 * cellh a) by nia. nia. }
  intros [sum n] (Hsum & Hn). cbv zeta. destruct (_ =? 0); [apply drawn_refl|].
  calc. destruct (Z.leb_spec (width i) (x + tx)); [apply drawn_refl|].
  eapply gives_bind; [apply get_px_gives; try done; sane|]. intros bg Hbg.
  eapply gives_bind; [apply (lerp_val bg color); try done; apply Z.div_pos; lia|]. intros c Hc'.
  by apply paints_put; [done|sane|lia| |].
Qed.

Lemma atlas_rows_paints cx cy x y bw bh top bot den tys :
  0 <= cx < 16 -> 0 <= cy < 7 -> sane x -> sane y -> bw < 2 ^ 24 -> bh < 2 ^ 24 -> 0 <= den < 2 ^ 24 ->
  is_rgb top -> is_rgb bot -> (forall ty, ty ∈ tys -> 0 <= ty < bh) ->
  paints i (fun s => atlas_rows i a (cx * cellw a) (cy * cellh a) x y bw bh top bot den s tys).
Proof.
  intros Hcx Hcy Hx Hy Hbw Hbh Hden Ht Hb Hl. induction tys as [|ty tys IH]; [apply paints_same|].
  intros s Hs. cbn [atlas_rows]. assert (Hty : 0 <= ty < bh) by (apply Hl; left).
  eapply gives_bind; [apply (span_gives ty (cellh a) bh); try done; apply Ha|]. intros [sy0 sy1] (H0 & H1).
  eapply gives_bind; [apply (lerp_val top bot ty den); try done; lia|]. intros color Hc.
  calc. destruct (Z.leb_spec (height i) (y + ty)); [apply drawn_refl|].
  revert s Hs. apply paints_seq; [|apply IH; intros ? ?; apply Hl; by right].
  apply paints_fold. intros tx Htx%elem_of_range. apply atlas_pixel_paints; try done; sane.
Qed.

Lemma paint_atlas_glyph_paints cell x y bw bh top bot :
  0 <= cell < 112 -> sane x -> sane y -> bw < 2 ^ 24 -> 0 <= bh < 2 ^ 24 -> is_rgb top -> is_rgb bot ->
  paints i (fun s => paint_atlas_glyph s i a cell x y bw bh top bot).
Proof.
  intros Hcell Hx Hy Hbw Hbh Ht Hb. unfold paint_atlas_glyph. rewrite (ao_cols a Ha).
  assert (0 <= cell mod 16 < 16) by lia. assert (0 <= cell / 16 < 7) by lia.
  pose proof (ao_cw a Ha). pose proof (ao_ch a Ha).
  rewrite mul_usize_val by nia. cbn [mbind outcome_bind]. rewrite mul_usize_val by nia. cbn [mbind outcome_bind].
  apply atlas_rows_paints; try done; [lia|sane|]. intros ty. by rewrite elem_of_range.
Qed.

Lemma atlas_hit_gives lookup :
  gives (atlas_hit a lookup) (fun o => forall cell, o = Some cell -> 0 <= cell < 112).
Proof.
  unfold atlas_hit. destruct (atlas_cell lookup) as [cell|] eqn:E; [|done].
  assert (Hc : 0 <= cell).
  { revert E. unfold atlas_cell. destruct (_ && _) eqn:E1; [bools; intros [= <-]; lia|].
    intros E. repeat case_match; simplify_eq; lia. }
  rewrite (ao_cols a Ha), (ao_rows a Ha). destruct (Z.ltb_spec cell (16 * 7)); [|done].
  pose proof (ao_filled a Ha) as Hf. unfold nth_z.
  destruct (lookup_lt_is_Some_2 (filled a) (Z.to_nat cell)) as [v Hv]; [lia|]. rewrite Hv. cbn.
  intros c. destruct (v || _); [|done]. intros [= <-]. lia.
Qed.

End Atlas.

(** ** Text *)

Lemma paint_glyph_stage d x y ch top bot font scale : good d -> sane x -> sane y ->
  0 <= scale < 2 ^ 8 -> is_rgb top -> is_rgb bot ->
  gives (paint_glyph d x y ch top bot font scale) (stage d).
Proof.
  intros Hd Hx Hy Hs Ht Hb. unfold paint_glyph. cbv zeta.
  set (lookup := if _ && _ then _ else ch).
  clearbody lookup.
  apply (gives_bind _ _ (fun o => forall a cell, o = Some (a, cell) -> atlas_ok a /\ 0 <= cell < 112)).
  - unfold atlas_choice. destruct (atlas d) as [a|] eqn:Ea; [|done].
    pose proof (good_atlas d Hd a Ea) as Ha. eapply gives_bind; [apply (atlas_hit_gives a Ha)|].
    intros [cell|] Hc; [|done]. intros a' c [= <- <-]. split; [done|by apply Hc].
  - change GLYPH_W with 8. change GLYPH_H with 8. intros [[a cell]|] Ho.
    + destruct (Ho a cell eq_refl) as [Ha Hc]. apply draw_stage; [done|].
      apply (paint_atlas_glyph_paints (info d) (good_info d Hd) a Ha); try done; lia.
    + eapply gives_bind; [apply glyph_gives|]. intros g Hg. apply draw_stage; [done|].
      apply face_glyph_paints; try done; [apply Hd|sane].
Qed.

(** A character is at least a byte. *)
Lemma chars_length s : (length (chars s) <= length s)%nat.
Proof.
  induction s as [|b s IH]; [done|]. cbn [chars]. destruct (chars s) as [|c cs]; [cbn; lia|].
  destruct (head_is_cont c); cbn in *; lia.
Qed.

(** Text that starts and ends in reach. *)
Definition staged (d : Display) (r : Z * Display) : Prop := stage d r.2.

Lemma run_text_stage glyph_at adv d x s :
  good d -> 0 <= x -> 0 <= adv -> x + len s * adv < 2 ^ 62 ->
  (forall d x ch, good d -> sane x -> gives (glyph_at d x ch) (stage d)) ->
  gives (run_text glyph_at adv d x s) (staged d).
Proof.
  intros Hd Hx Ha Hend Hg. unfold run_text.
  assert (Hc : x + len (chars s) * adv < 2 ^ 62) by (pose proof (chars_length s); nia).
  set (I := fun k '(cx, d') => cx = x + k * adv /\ stage d d').
  eapply gives_mono; [apply (gives_count _ I (chars s) 0 (x, d)); [split; [lia|apply stage_refl]|]|].
  2: { intros [cx d'] [_ H]. exact H. }
  intros j [cx d1] ch Hj _ (-> & H1).
  eapply gives_bind; [apply Hg; [by eapply stage_good|unfold sane; nia]|]. intros d2 H2.
  rewrite add_usize_val by nia. cbn. split; [lia|by eapply stage_trans].
Qed.

Lemma draw_text_stage d x y s fg font : good d -> 0 <= x -> x + len s * 16 < 2 ^ 62 -> sane y ->
  is_rgb fg -> gives (draw_text d x y s fg font) (staged d).
Proof.
  intros Hd Hx Hs Hy Hc. apply run_text_stage; try done. intros. by apply paint_glyph_stage.
Qed.

Lemma draw_text_grad_stage d x y s top bot font scale : good d -> 0 <= x -> 0 <= scale < 2 ^ 8 ->
  x + len s * (8 * scale) < 2 ^ 62 -> sane y -> is_rgb top -> is_rgb bot ->
  gives (draw_text_grad d x y s top bot font scale) (staged d).
Proof.
  intros Hd Hx Hsc Hs Hy Ht Hb. apply run_text_stage; try done; [change GLYPH_W with 8; lia|].
  intros. by apply paint_glyph_stage.
Qed.

Lemma text_bind {A} d0 d (r : outcome unit (Z * Display)) (k : Z * Display -> outcome unit A) Q : good d0 -> stage d0 d ->
  (good d -> gives r (staged d)) -> (forall x d', stage d0 d' -> gives (k (x, d')) Q) ->
  gives (r ≫= k) Q.
Proof.
  intros H0 H1 Hr Hk. eapply gives_bind; [apply Hr; by eapply stage_good|].
  intros [x d'] Hd. apply Hk. eapply stage_trans; [done|exact Hd].
Qed.

Lemma haloed_stage text o d x y n : good d -> 0 <= x -> 0 <= o -> sane (x + o + n) -> 0 <= n ->
  0 <= y -> sane (y + o) ->
  (forall d x' y' halo, good d -> 0 <= x' <= x + o -> sane y' -> gives (text d x' y' halo) (staged d)) ->
  gives (haloed text o d x y) (stage d).
Proof.
  intros Hd Hx Ho Hn Hn0 Hy Hyo Ht. unfold haloed. calc.
  eapply text_bind; [done|apply stage_refl|intros; apply Ht; [done|lia|sane]|]. intros _ d1 H1.
  eapply text_bind; [done|exact H1|intros; apply Ht; [done|sane|sane]|]. intros _ d2 H2.
  eapply text_bind; [done|exact H2|intros; apply Ht; [done|lia|sane]|]. intros _ d3 H3.
  eapply text_bind; [done|exact H3|intros; apply Ht; [done|lia|sane]|]. intros _ d4 H4.
  eapply text_bind; [done|exact H4|intros; apply Ht; [done|lia|sane]|]. intros _ d5 H5. exact H5.
Qed.

Lemma draw_text_glow_stage d x y s fg glow font : good d -> 0 <= x -> x + len s * 16 < 2 ^ 60 ->
  0 <= y < 2 ^ 60 -> is_rgb fg -> is_rgb glow -> gives (draw_text_glow d x y s fg glow font) (stage d).
Proof.
  intros Hd Hx Hs Hy Hf Hgl. apply (haloed_stage _ _ _ _ _ (len s * 16)); try done; try sane.
  intros. apply draw_text_stage; try done; try lia. by destruct halo.
Qed.

Lemma draw_text_glow_grad_stage d x y s top bot glow font scale : good d -> 0 <= x -> 0 <= scale < 2 ^ 8 ->
  x + len s * (8 * scale) < 2 ^ 60 -> 0 <= y < 2 ^ 60 -> is_rgb top -> is_rgb bot -> is_rgb glow ->
  gives (draw_text_glow_grad d x y s top bot glow font scale) (stage d).
Proof.
  intros Hd Hx Hsc Hs Hy Ht Hb Hgl. apply (haloed_stage _ _ _ _ _ (len s * (8 * scale))); try done; try sane.
  intros. destruct halo; apply draw_text_grad_stage; try done; lia.
Qed.
