(* ===== verification/Compositing.v ===== *)
(** * Backgrounds and the pointer

    Composing a background writes every pixel with a colour that does not
    depend on what was there, so two scenes that only differ in pixels compose
    to the same one, which is what the cache of backgrounds relies on.  The
    pointer covers only bytes that restoring its rectangle copies back. *)

From S2P Require Import Prelude UiText Font Framebuffer FramebufferFacts DisplayFacts.
Import Font Framebuffer.

(** ** Scenes that differ only in pixels *)

Definition zeros (n : nat) : bytes := replicate n 0.

(** Bytes no pixel owns are as the buffer was allocated. *)
Record clean (i : FbInfo) (n : nat) (s : bytes) : Prop := {
  clean_length : length s = n;
  clean_bytes : is_bytes s;
  clean_rest : forall k, (forall p, on_grid p -> ~ covers i (Z.of_nat n) p k) -> s !! k = zeros n !! k
}.

Definition everywhere (i : FbInfo) (l : list (Z * Z * Rgb)) : Prop :=
  forall x y, 0 <= x < width i -> 0 <= y < height i -> exists c, (x, y, c) ∈ l.

Section Clean.
Context (i : FbInfo) (Hg : geometry i) (n : nat).

Lemma zeros_clean : clean i n (zeros n).
Proof.
  split; [by apply length_replicate| |done]. apply Forall_replicate. unfold is_byte. lia.
Qed.

Lemma plots_clean l s : Forall on_grid l -> clean i n s -> clean i n (plots i s l).
Proof.
  intros Hl []. split; [by rewrite plots_length|by apply plots_bytes|].
  intros k Hk. rewrite plots_outside; [by apply clean_rest0|done|done|].
  intros p Hp. rewrite clean_length0. apply Hk. by apply (proj1 (Forall_forall _ _) Hl).
Qed.

Lemma drawn_clean s s' : drawn i s s' -> clean i n s -> clean i n s'.
Proof. intros (l & Hl & ->). by apply plots_clean. Qed.

Lemma everywhere_same l s s' : Forall on_grid l -> everywhere i l -> clean i n s -> clean i n s' ->
  plots i s l = plots i s' l.
Proof.
  intros Hl He [] []. apply plots_agree; [done|done|congruence|]. intros k Hk.
  rewrite clean_rest0, clean_rest1; [done| |]; intros [[x y] c] (Hx & Hy & _) [Hv Hc].
  all: assert (Hxy : x < width i /\ y < height i) by (unfold visible in Hv; bools; lia).
  all: destruct (He x y) as [c' Hc']; [cbn in *; lia..|].
  all: apply (Hk _ Hc'); split; [by rewrite clean_length0|done].
Qed.

End Clean.

(** ** Composing a background *)

(** The writes of an operation that does not look at the scene. *)
Definition writes (i : FbInfo) (f : bytes -> outcome unit bytes) (l : list (Z * Z * Rgb)) : Prop :=
  Forall on_grid l /\ forall s, f s = Val (plots i s l).

Lemma concat_grid {A} (g : A -> list (Z * Z * Rgb)) l :
  (forall x, x ∈ l -> Forall on_grid (g x)) -> Forall on_grid (concat (g <$> l)).
Proof.
  induction l as [|x l IH]; intros H; [by apply Forall_nil_2|]. cbn. apply Forall_app.
  split; [apply H; left|apply IH; intros y Hy; apply H; by right].
Qed.

(** A loop writes what its steps write. *)
Lemma writes_fold {A} i (f : bytes -> A -> outcome unit bytes) (P : A -> list (Z * Z * Rgb) -> Prop) l :
  (forall x, x ∈ l -> exists w, writes i (fun s => f s x) w /\ P x w) ->
  exists w, writes i (fun s => fold_o f s l) w /\ (forall x, x ∈ l -> exists v, P x v /\ forall p, p ∈ v -> p ∈ w).
Proof.
  induction l as [|x l IH]; intros H.
  - exists []. split; [split; [by apply Forall_nil_2|done]|]. intros x Hx. by apply elem_of_nil in Hx.
  - destruct (H x) as (v & [Hv Ev] & Pv); [left|].
    destruct IH as (w & [Hw Ew] & Pw); [intros y Hy; apply H; by right|].
    exists (v ++ w). split; [split|].
    + by apply Forall_app.
    + intros s. cbn [fold_o]. rewrite Ev. cbn [mbind outcome_bind]. rewrite Ew. by rewrite plots_app.
    + intros y [->|Hy]%elem_of_cons.
      * exists v. split; [done|]. intros p Hp. apply elem_of_app. by left.
      * destruct (Pw y Hy) as (v' & P' & Hin). exists v'. split; [done|]. intros p Hp.
        apply elem_of_app. right. by apply Hin.
Qed.

Lemma writes_put i x y c : geometry i -> 0 <= x -> 0 <= y -> is_rgb c ->
  writes i (fun s => put s i x y c) [(x, y, c)].
Proof.
  intros Hg Hx Hy Hc. split; [apply Forall_singleton; by repeat split|].
  intros s. by rewrite put_val.
Qed.

(** A row of pixels. *)
Lemma writes_row i y (color : Z -> outcome unit Rgb) : geometry i -> 0 <= y ->
  (forall x, 0 <= x < width i -> gives (color x) is_rgb) ->
  exists w, writes i (fun s => fold_o (fun s x => c ← color x; put s i x y c) s (range 0 (width i))) w /\
    forall x, 0 <= x < width i -> exists c, (x, y, c) ∈ w.
Proof.
  intros Hg Hy Hc.
  destruct (writes_fold i (fun s x => c ← color x; put s i x y c) (fun x w => exists c, (x, y, c) ∈ w) (range 0 (width i)))
    as (w & Hw & Pw).
  - intros x Hx%elem_of_range. destruct (gives_val _ _ (Hc x Hx)) as (c & -> & Hrgb).
    exists [(x, y, c)]. split; [apply writes_put; done || lia|]. exists c. by left.
  - exists w. split; [done|]. intros x Hx. destruct (Pw x) as (v & [c Hc'] & Hin).
    + by apply elem_of_range.
    + exists c. by apply Hin.
Qed.

(** All rows. *)
Lemma writes_rows i (f : bytes -> Z -> outcome unit bytes) :
  (forall y, 0 <= y < height i -> exists w, writes i (fun s => f s y) w /\
    forall x, 0 <= x < width i -> exists c, (x, y, c) ∈ w) ->
  exists w, writes i (fun s => fold_o f s (range 0 (height i))) w /\ everywhere i w.
Proof.
  intros H.
  destruct (writes_fold i f (fun y w => forall x, 0 <= x < width i -> exists c, (x, y, c) ∈ w) (range 0 (height i)))
    as (w & Hw & Pw).
  - intros y Hy%elem_of_range. by apply H.
  - exists w. split; [done|]. intros x y Hx Hy. destruct (Pw y) as (v & Pv & Hin).
    + by apply elem_of_range.
    + destruct (Pv x Hx) as [c Hc]. exists c. by apply Hin.
Qed.

Lemma backdrop_color_gives top bottom denom y : is_rgb top -> is_rgb bottom -> 0 < denom < 2 ^ 24 ->
  0 <= y <= denom -> gives (backdrop_color top bottom denom y) is_rgb.
Proof.
  destruct top as [[tr tg] tb], bottom as [[br bg] bb]. intros (? & ? & ?) (? & ? & ?) Hd Hy.
  unfold backdrop_color.
  assert (L : forall a b, is_byte a -> is_byte b ->
    gives (m ← sub_uint denom y; p ← mul_u32 a m; q ← mul_u32 b y; s ← add_u32 p q; div_uint s denom) (fun _ => True)).
  { unfold is_byte. intros a b Ha Hb. rewrite sub_uint_val by lia. cbn [mbind outcome_bind].
    rewrite mul_u32_val by nia. cbn [mbind outcome_bind]. rewrite mul_u32_val by nia. cbn [mbind outcome_bind].
    rewrite add_u32_val by nia. cbn [mbind outcome_bind]. by rewrite div_uint_val by lia. }
  cbv zeta. eapply gives_bind; [by apply L|]. intros r _. eapply gives_bind; [by apply L|]. intros g _.
  eapply gives_bind; [by apply L|]. intros b _. cbn. split_and!; apply as_u8_byte.
Qed.

Lemma backdrop_writes i top bottom : geometry i -> is_rgb top -> is_rgb bottom ->
  exists w, writes i (fun s => fold_o (fun s y =>
      c ← backdrop_color top bottom (as_u32 (Z.max (height i) 2 - 1)) (as_u32 y);
      fold_o (fun s x => put s i x y c) s (range 0 (width i))) s (range 0 (height i))) w /\ everywhere i w.
Proof.
  intros Hg Ht Hb. apply writes_rows. intros y Hy. pose proof (geo_h i Hg).
  assert (E1 : as_u32 (Z.max (height i) 2 - 1) = Z.max (height i) 2 - 1) by (apply Z.mod_small; lia).
  assert (E2 : as_u32 y = y) by (apply Z.mod_small; lia). rewrite E1, E2.
  destruct (gives_val _ _ (backdrop_color_gives top bottom (Z.max (height i) 2 - 1) y Ht Hb ltac:(lia) ltac:(lia)))
    as (c & -> & Hc).
  cbn [mbind outcome_bind].
  destruct (writes_row i y (fun _ => Val c) Hg (proj1 Hy)) as (w & Hw & Pw); [done|]. by exists w.
Qed.

Lemma star_color_rgb v : is_rgb (star_color v).
Proof. unfold star_color. repeat case_match; rgb. Qed.

Lemma starfield_writes i : geometry i -> 0 < width i -> 0 < height i -> forall l seed,
  exists w seed', Forall on_grid w /\ forall s,
    fold_o (fun '(seed, s) _ =>
      let s1 := lcg seed in
      let s2 := lcg s1 in
      let s3 := lcg s2 in
      s' ← put s i (s1 mod width i) (s2 mod height i) (star_color s3);
      Val (s3, s')) (seed, s) (l : list Z) = Val (seed', plots i s w).
Proof.
  intros Hg Hw Hh. induction l as [|x l IH]; intros seed.
  - exists [], seed. split; [by apply Forall_nil_2|done].
  - set (p := (lcg seed mod width i, lcg (lcg seed) mod height i, star_color (lcg (lcg (lcg seed))))).
    destruct (IH (lcg (lcg (lcg seed)))) as (w & seed' & Hw' & E). exists (p :: w), seed'. split.
    + apply Forall_cons. split; [|done]. split_and!; cbn; [apply Z.mod_pos_bound; lia..|apply star_color_rgb].
    + intros s. cbn [fold_o]. cbv zeta.
      rewrite put_val by (done || apply Z.mod_pos_bound; lia). cbn [mbind outcome_bind]. by rewrite E.
Qed.

(** ** Bitmaps *)

Record image_ok (img : OwnedImage) : Prop := {
  img_w : 0 < w img < 2 ^ 32;
  img_h : 0 < h img < 2 ^ 32;
  img_len : w img * h img * 4 <= len (rgba img) < 2 ^ 64
}.

Lemma sample_gives k n total : 0 <= k < total -> total < 2 ^ 24 -> 0 < n < 2 ^ 32 ->
  gives (sample k n total) (fun '(i0, i1, f) => 0 <= i0 < n /\ 0 <= i1 < n).
Proof.
  intros Hk Ht Hn. unfold sample. rewrite mul_usize_val by nia. cbn [mbind outcome_bind].
  rewrite mul_usize_val by nia. cbn [mbind outcome_bind gives].
  assert (H1 : 0 <= k * n * 256 / total < n * 256).
  { split; [apply Z.div_pos; nia|]. apply Z.div_lt_upper_bound; nia. }
  assert (H2 : 0 <= as_u32 (k * n * 256 / total) <= k * n * 256 / total).
  { unfold as_u32. split; [apply Z.mod_pos_bound; lia|apply Z.mod_le; lia]. }
  rewrite Z.shiftr_div_pow2 by lia. change (2 ^ 8) with 256.
  assert (0 <= as_u32 (k * n * 256 / total) / 256 < n).
  { split; [apply Z.div_pos; lia|]. apply Z.div_lt_upper_bound; lia. }
  lia.
Qed.

Lemma bilinear_gives px W H y0 y1 x0 x1 fx fy k :
  W * H * 4 <= len px -> 0 < W -> 0 <= y0 < H -> 0 <= y1 < H -> 0 <= x0 < W -> 0 <= x1 < W -> 0 <= k < 4 ->
  gives (bilinear px (y0 * W) (y1 * W) x0 x1 fx fy k) (fun _ => True).
Proof.
  intros Hl HW Hy0 Hy1 Hx0 Hx1 Hk.
  assert (L : forall y x, 0 <= y < H -> 0 <= x < W -> gives (at_px px (y * W) x k) (fun _ => True)).
  { intros y x Hy Hx. unfold at_px, nth_z.
    assert (0 <= y * W + x < W * H) by nia.
    destruct (lookup_lt_is_Some_2 px (Z.to_nat ((y * W + x) * 4 + k))) as [v ->]; [lia|done]. }
  unfold bilinear. eapply gives_bind; [by apply L|]. intros a _. eapply gives_bind; [by apply L|]. intros b _.
  eapply gives_bind; [by apply L|]. intros c _. eapply gives_bind; [by apply L|]. done.
Qed.

Lemma tinted_rgb tint r g b : is_rgb (tinted tint r g b).
Proof. unfold tinted. destruct tint as [[[tr tg] tb]|]; cbn; split_and!; apply as_u8_byte. Qed.

Lemma image_bytes_val a b : 0 <= a -> 0 <= b -> a * b * 4 < 2 ^ 64 -> image_bytes a b = Val (a * b * 4).
Proof.
  intros Ha Hb H. unfold image_bytes. rewrite mul_usize_val by lia. cbn [mbind outcome_bind].
  by rewrite mul_usize_val.
Qed.

Section Blit.
Context (i : FbInfo) (Hg : geometry i) (img : OwnedImage) (Hi : image_ok img) (tint : option Rgb).

Lemma blit_row_writes xmap y : 0 <= y < height i ->
  (forall dx x0 x1 fx, (dx, (x0, x1, fx)) ∈ enumerate xmap -> 0 <= x0 < w img /\ 0 <= x1 < w img) ->
  exists v, writes i (fun s => blit_row i img tint xmap s y) v /\
    forall dx m, (dx, m) ∈ enumerate xmap -> exists c, (Z.of_nat dx, y, c) ∈ v.
Proof.
  intros Hy Hx. destruct Hi as [Hw Hh [Hl Hl']]. pose proof (geo_h i Hg).
  destruct (gives_val _ _ (sample_gives y (h img) (height i) Hy ltac:(lia) Hh)) as ([[y0 y1] fy] & E & Hy0 & Hy1).
  set (g := fun (s : bytes) '(dx, (x0, x1, fx)) =>
    r ← bilinear (rgba img) (y0 * w img) (y1 * w img) x0 x1 fx fy 0;
    gr ← bilinear (rgba img) (y0 * w img) (y1 * w img) x0 x1 fx fy 1;
    b ← bilinear (rgba img) (y0 * w img) (y1 * w img) x0 x1 fx fy 2;
    put s i (Z.of_nat dx) y (tinted tint r gr b)).
  destruct (writes_fold i g (fun '(dx, _) v => exists c, (Z.of_nat dx, y, c) ∈ v) (enumerate xmap)) as (v & [Hv Ev] & Pv).
  - intros [dx [[x0 x1] fx]] Hin. destruct (Hx _ _ _ _ Hin) as [Hx0 Hx1]. unfold g.
    assert (L : forall k, 0 <= k < 4 -> gives (bilinear (rgba img) (y0 * w img) (y1 * w img) x0 x1 fx fy k) (fun _ => True)).
    { intros k Hk. apply (bilinear_gives _ (w img) (h img)); done || lia. }
    destruct (gives_val _ _ (L 0 ltac:(lia))) as (r & -> & _), (gives_val _ _ (L 1 ltac:(lia))) as (gr & -> & _),
      (gives_val _ _ (L 2 ltac:(lia))) as (b & -> & _). cbn [mbind outcome_bind].
    eexists. split; [apply writes_put; [done|lia|lia|apply tinted_rgb]|]. eexists. by left.
  - exists v. split; [split; [done|]|].
    + intros s. unfold blit_row. rewrite E. cbn [mbind outcome_bind].
      rewrite mul_usize_val by nia. cbn [mbind outcome_bind]. rewrite mul_usize_val by nia. cbn [mbind outcome_bind].
      exact (Ev s).
    + intros dx m Hin. destruct (Pv _ Hin) as (v' & [c Hc] & Hsub). exists c. by apply Hsub.
Qed.

Lemma map_o_gives {A B} (f : A -> outcome unit B) (P : B -> Prop) l :
  (forall x, x ∈ l -> gives (f x) P) -> gives (map_o f l) (fun bs => length bs = length l /\ Forall P bs).
Proof.
  induction l as [|x l IH]; intros Hf; [split; [done|by apply Forall_nil_2]|]. cbn [map_o].
  eapply gives_bind; [apply Hf; left|]. intros b Hb.
  eapply gives_bind; [apply IH; intros y Hy; apply Hf; by right|]. intros bs [Hl Hbs]. cbn.
  split; [by rewrite Hl|by apply Forall_cons].
Qed.

Lemma blit_writes : 0 < width i -> 0 < height i ->
  exists v, writes i (fun s => blit_stretch s i img tint) v /\ everywhere i v.
Proof.
  intros Hw0 Hh0. destruct Hi as [Hw Hh [Hl Hl']]. pose proof (geo_w i Hg).
  destruct (gives_val _ _ (map_o_gives (fun dx => sample dx (w img) (width i))
    (fun '(i0, i1, f) => 0 <= i0 < w img /\ 0 <= i1 < w img) (range 0 (width i))
    ltac:(intros dx Hdx%elem_of_range; apply sample_gives; done || lia))) as (xmap & E & Hlen & Hmap).
  pose proof (range_length 0 (width i) ltac:(lia)) as Hr.
  destruct (writes_rows i (blit_row i img tint xmap)) as (v & [Hv Ev] & Pv).
  - intros y Hy. destruct (blit_row_writes xmap y Hy) as (v & Hv & Pv).
    + intros dx x0 x1 fx Hin%elem_of_zip_r. by apply (proj1 (Forall_forall _ _) Hmap) in Hin.
    + exists v. split; [done|]. intros x Hx.
      destruct (lookup_lt_is_Some_2 xmap (Z.to_nat x)) as [m Hm]; [lia|].
      destruct (Pv (Z.to_nat x) m) as [c Hc].
      * apply list_elem_of_lookup. exists (Z.to_nat x). unfold enumerate. rewrite lookup_zip_with, lookup_seq_lt by lia.
        by rewrite Hm.
      * exists c. by rewrite Z2Nat.id in Hc by lia.
  - exists v. split; [split; [done|]|done]. intros s. unfold blit_stretch.
    rewrite (proj2 (Z.eqb_neq (w img) 0)), (proj2 (Z.eqb_neq (h img) 0)) by lia. cbn [orb].
    rewrite image_bytes_val by lia. cbn [mbind outcome_bind]. rewrite (proj2 (Z.ltb_ge _ _)) by lia.
    rewrite (proj2 (Z.eqb_neq (width i) 0)), (proj2 (Z.eqb_neq (height i) 0)) by lia. cbn [orb].
    rewrite E. cbn [mbind outcome_bind]. apply Ev.
Qed.

End Blit.

(** ** The background of a view *)

Definition image_fine (o : option OwnedImage) : Prop := forall img, o = Some img -> image_ok img.

(** The displays that draw with the same geometry and bitmaps. *)
Record alike (d0 d : Display) : Prop := {
  al_info : info d = info d0;
  al_backgrounds : backgrounds d = backgrounds d0;
  al_shared : bg_shared d = bg_shared d0;
  al_atlas : atlas d = atlas d0
}.

Lemma compose_writes d0 tint : geometry (info d0) -> 0 < width (info d0) -> 0 < height (info d0) ->
  Forall image_fine (backgrounds d0) -> image_fine (bg_shared d0) -> is_rgb tint ->
  exists l, Forall on_grid l /\ everywhere (info d0) l /\
    forall d, alike d0 d -> compose d C_BG_TOP tint = Val (with_scene (plots (info d0) (scene d) l) d).
Proof.
  intros Hg Hw Hh Hb Hs Ht. set (i := info d0) in *.
  assert (Hslot : image_fine (nth (slot_for tint) (backgrounds d0) None)).
  { destruct (nth_in_or_default (slot_for tint) (backgrounds d0) None) as [Hin| ->]; [|done].
    rewrite <- list_elem_of_In in Hin. by apply (proj1 (Forall_forall _ _) Hb). }
  destruct (nth (slot_for tint) (backgrounds d0) None) as [img|] eqn:E1.
  { destruct (blit_writes i Hg img (Hslot img eq_refl) None Hw Hh) as (l & [Hl El] & He).
    exists l. split_and!; try done. intros d [Hi Hbk _ _]. unfold compose, draw.
    rewrite Hbk, E1, Hi. fold i. by rewrite El. }
  destruct (bg_shared d0) as [img|] eqn:E2.
  { destruct (blit_writes i Hg img (Hs img eq_refl) (Some (norm_hue tint)) Hw Hh) as (l & [Hl El] & He).
    exists l. split_and!; try done. intros d [Hi Hbk Hsh _]. unfold compose, draw.
    rewrite Hbk, E1, Hsh, E2, Hi. fold i. by rewrite El. }
  destruct (backdrop_writes i C_BG_TOP tint Hg ltac:(rgb) Ht) as (l & [Hl El] & He).
  destruct (starfield_writes i Hg Hw Hh (range 0 160) 0x9E3779B9) as (w & seed & Hw' & Ew).
  exists (l ++ w). split_and!; [by apply Forall_app| |].
  - intros x y Hx Hy. destruct (He x y Hx Hy) as [c Hc]. exists c. apply elem_of_app. by left.
  - intros d [Hi Hbk Hsh _]. unfold compose. rewrite Hbk, E1, Hsh, E2.
    unfold backdrop, draw at 1. rewrite Hi. fold i. rewrite El. cbn [mbind outcome_bind].
    unfold starfield. cbn [info with_scene]. rewrite Hi. fold i.
    rewrite (proj2 (Z.eqb_neq (width i) 0)), (proj2 (Z.eqb_neq (height i) 0)) by lia. cbn [orb].
    unfold draw. cbn [scene with_scene]. rewrite Ew. cbn [mbind outcome_bind]. by rewrite plots_app.
Qed.

(** ** The pointer *)

(** The pixels of the pointer at a position. *)
Definition pointer (p : Z * Z) : list (Z * Z * Rgb) :=
  concat ((fun ry => concat ((fun rx =>
    match cursor_color (tile_at CURSOR ry rx) with
    | Some c => [(p.1 + rx, p.2 + ry, c)]
    | None => []
    end) <$> range 0 CURSOR_W)) <$> range 0 CURSOR_H).

Lemma cursor_color_rgb v c : cursor_color v = Some c -> is_rgb c.
Proof. unfold cursor_color. intros H. repeat case_match; simplify_eq; rgb. Qed.

(** Each pixel of the pointer is in its rectangle. *)
Lemma pointer_inside p q : q ∈ pointer p ->
  exists rx ry c, 0 <= rx < 16 /\ 0 <= ry < 24 /\ q = (p.1 + rx, p.2 + ry, c) /\ is_rgb c.
Proof.
  unfold pointer. rewrite list_elem_of_In, in_concat. intros (row & Hrow & Hq).
  rewrite <- list_elem_of_In in Hrow. apply list_elem_of_fmap in Hrow as (ry & -> & Hry%elem_of_range).
  apply in_concat in Hq as (cell & Hcell & Hq). rewrite <- list_elem_of_In in Hcell.
  apply list_elem_of_fmap in Hcell as (rx & -> & Hrx%elem_of_range).
  destruct (cursor_color _) as [c|] eqn:E; [|done]. destruct Hq as [<-|[]].
  exists rx, ry, c. split_and!; try done; [apply Hrx..|apply Hry|apply Hry|]. by eapply cursor_color_rgb.
Qed.

Lemma pointer_grid p : 0 <= p.1 -> 0 <= p.2 -> Forall on_grid (pointer p).
Proof.
  intros Hx Hy. apply Forall_forall. intros q (rx & ry & c & Hrx & Hry & -> & Hc)%pointer_inside.
  split_and!; cbn; [lia|lia|done].
Qed.

Definition at_screen (p : Z * Z) : Prop := sane p.1 /\ sane p.2.

Lemma paint_cursor_eq d p : geometry (info d) -> at_screen p -> cursor_at d = Some p ->
  paint_cursor d = Val (with_fb (plots (info d) (fb d) (pointer p)) d).
Proof.
  destruct p as [cx cy]. intros Hg [Hx Hy] Hc. cbn in Hx, Hy. unfold paint_cursor, pointer. rewrite Hc. cbn [fst snd].
  rewrite (fold_plots (info d) _ (fun ry => concat ((fun rx =>
    match cursor_color (tile_at CURSOR ry rx) with
    | Some c => [(cx + rx, cy + ry, c)]
    | None => []
    end) <$> range 0 CURSOR_W))); [done|].
  intros ry b Hry%elem_of_range. change CURSOR_H with 24 in Hry.
  apply (fold_plots (info d) (fun b rx => match cursor_color (tile_at CURSOR ry rx) with
    | None => Val b
    | Some c => px ← add_u64 cx rx; py ← add_u64 cy ry; put b (info d) px py c
    end)).
  intros rx s Hrx%elem_of_range. change CURSOR_W with 16 in Hrx.
  destruct (cursor_color _) as [c|]; [|done]. calc. apply put_val; [done|sane|sane].
Qed.

(** The bytes restoring the rectangle at a position copies back. *)
Definition under (i : FbInfo) (n : Z) (p : Z * Z) (k : nat) : Prop :=
  exists rx ry, 0 <= rx < 16 /\ 0 <= ry < 24 /\ visible i n (p.1 + rx) (p.2 + ry) = true /\
    offset i (p.1 + rx) (p.2 + ry) <= Z.of_nat k < offset i (p.1 + rx) (p.2 + ry) + bpp i.

Lemma pointer_under i n p q k : geometry i -> q ∈ pointer p -> covers i n q k -> under i n p k.
Proof.
  intros Hg (rx & ry & c & Hrx & Hry & -> & _)%pointer_inside [Hv Hk]. exists rx, ry.
  pose proof (geo_b i Hg). split_and!; try done; lia.
Qed.

(** A step that copies the bytes [P] from the scene [s] and leaves the others. *)
Definition restores (s : bytes) (P : nat -> Prop) (f : bytes -> outcome unit bytes) : Prop :=
  forall b, length b = length s ->
    gives (f b) (fun b' => length b' = length s /\ forall k, b' !! k = s !! k \/ (~ P k /\ b' !! k = b !! k)).

Lemma restores_fold {A} s (P : A -> nat -> Prop) (f : bytes -> A -> outcome unit bytes) l :
  (forall x, x ∈ l -> restores s (P x) (fun b => f b x)) ->
  restores s (fun k => exists x, x ∈ l /\ P x k) (fun b => fold_o f b l).
Proof.
  induction l as [|x l IH]; intros H b Hb.
  - cbn. split; [done|]. intros k. right. split; [|done]. intros (x & Hx & _). by apply elem_of_nil in Hx.
  - cbn [fold_o]. eapply gives_bind; [by apply (H x); [left|]|]. intros b1 [Hb1 H1].
    eapply gives_mono; [apply IH; [intros y Hy; apply H; by right|done]|]. intros b2 [Hb2 H2].
    split; [done|]. intros k. destruct (H2 k) as [?|[Hn E]]; [by left|].
    destruct (H1 k) as [E1|[Hn1 E1]]; [left; congruence|]. right. split; [|congruence].
    intros (y & [->|Hy]%elem_of_cons & Hp); [done|]. apply Hn. by exists y.
Qed.

Lemma restores_pixel i s x y : geometry i -> 0 <= x -> 0 <= y -> x < width i -> y < height i ->
  restores s (fun k => visible i (len s) x y = true /\ offset i x y <= Z.of_nat k < offset i x y + bpp i)
    (fun b => '(o, e) ← pixel_at i x y;
              if e <=? len b then src ← slice s o e; splice b o src else Val b).
Proof.
  intros Hg Hx Hy Hw Hh b Hb. rewrite pixel_at_val by done. cbn [mbind outcome_bind].
  pose proof (offset_pos i x y Hg Hx Hy). pose proof (geo_b i Hg). set (o := offset i x y) in *.
  rewrite Hb. destruct (Z.leb_spec (o + bpp i) (len s)).
  - unfold slice. rewrite !(proj2 (Z.leb_le _ _)) by lia. cbn [andb mbind outcome_bind].
    unfold splice. rewrite length_take, length_drop.
    replace (Z.of_nat (Z.to_nat (o + bpp i - o) `min` (length s - Z.to_nat o))) with (bpp i) by lia.
    rewrite !(proj2 (Z.leb_le _ _)) by lia. cbn [andb gives]. split.
    + rewrite !length_app, !length_take, !length_drop. lia.
    + intros k. destruct (decide (o <= Z.of_nat k < o + bpp i)) as [Hk|Hk].
      * left. rewrite lookup_app_r by (rewrite length_take; lia). rewrite length_take.
        rewrite lookup_app_l by (rewrite length_take, length_drop; lia).
        rewrite lookup_take_lt by lia. rewrite lookup_drop. f_equal. lia.
      * right. split; [by intros [_ ?]|]. destruct (Z.lt_ge_cases (Z.of_nat k) o).
        -- rewrite lookup_app_l by (rewrite length_take; lia). by rewrite lookup_take_lt by lia.
        -- rewrite lookup_app_r by (rewrite length_take; lia). rewrite length_take.
           rewrite lookup_app_r by (rewrite length_take, length_drop; lia). rewrite length_take, length_drop, lookup_drop.
           f_equal. lia.
  - cbn. split; [done|]. intros k. right. split; [|done]. intros [Hv _]. unfold visible in Hv. bools. lia.
Qed.

Lemma restores_none s P : (forall k, ~ P k) -> restores s P Val.
Proof. intros H b Hb. cbn. split; [done|]. intros k. right. by split. Qed.

Lemma restore_gives d p : geometry (info d) -> at_screen p -> length (fb d) = length (scene d) ->
  exists b, restore_cursor_bg d p.1 p.2 = Val (with_fb b d) /\ length b = length (scene d) /\
    forall k, b !! k = scene d !! k \/ (~ under (info d) (len (scene d)) p k /\ b !! k = fb d !! k).
Proof.
  destruct p as [ox oy]. cbn [fst snd]. intros Hg [Hx Hy] Hl. cbn [fst snd] in Hx, Hy. set (i := info d) in *. set (s := scene d) in *.
  set (P := fun ry rx k => visible i (len s) (ox + rx) (oy + ry) = true /\
    offset i (ox + rx) (oy + ry) <= Z.of_nat k < offset i (ox + rx) (oy + ry) + bpp i).
  assert (L : restores s (fun k => exists ry, ry ∈ range 0 CURSOR_H /\ exists rx, rx ∈ range 0 CURSOR_W /\ P ry rx k)
    (fun b => fold_o (fun b ry =>
      py ← add_u64 oy ry;
      if height i <=? py then Val b else
      fold_o (fun b rx =>
        px ← add_u64 ox rx;
        if width i <=? px then Val b else
        '(o, e) ← pixel_at i px py;
        if e <=? len b then src ← slice s o e; splice b o src else Val b) b (range 0 CURSOR_W)) b (range 0 CURSOR_H))).
  { apply (restores_fold s (fun ry k => exists rx, rx ∈ range 0 CURSOR_W /\ P ry rx k)). intros ry Hry%elem_of_range. change CURSOR_H with 24 in Hry. calc.
    destruct (Z.leb_spec (height i) (oy + ry)).
    - apply restores_none. intros k (rx & _ & Hv & _). unfold visible in Hv. bools. lia.
    - apply (restores_fold s (fun rx k => P ry rx k)). intros rx Hrx%elem_of_range.
      change CURSOR_W with 16 in Hrx. calc. destruct (Z.leb_spec (width i) (ox + rx)).
      + apply restores_none. intros k (Hv & _). unfold visible in Hv. bools. lia.
      + apply restores_pixel; try done; sane. }
  destruct (gives_val _ _ (L (fb d) Hl)) as (b & E & Hb & Hk).
  exists b. split; [unfold restore_cursor_bg; fold i s; by rewrite E|]. split; [done|].
  intros k. destruct (Hk k) as [?|[Hn ?]]; [by left|]. right. split; [|done].
  intros (rx & ry & Hrx & Hry & Hv & Ho). apply Hn. exists ry. split; [by apply elem_of_range|].
  exists rx. split; [by apply elem_of_range|]. by split.
Qed.

(** Restoring what the pointer covers brings the scene back. *)
Lemma restore_pointer d p : geometry (info d) -> at_screen p -> fb d = plots (info d) (scene d) (pointer p) ->
  restore_cursor_bg d p.1 p.2 = Val (with_fb (scene d) d).
Proof.
  intros Hg Hp Hf. destruct Hp as [Hx Hy].
  assert (Hgr : Forall on_grid (pointer p)) by (apply pointer_grid; sane).
  destruct (restore_gives d p) as (b & -> & Hb & Hk); [done..|by rewrite Hf, plots_length|].
  do 2 f_equal. apply list_eq. intros k. destruct (Hk k) as [?|[Hn E]]; [done|].
  rewrite E, Hf, plots_outside; [done..|]. intros q Hq Hc. apply Hn. by eapply pointer_under.
Qed.

Lemma copy_scene_eq d : length (fb d) = length (scene d) -> copy_scene d = with_fb (scene d) d.
Proof.
  intros H. unfold copy_scene. rewrite H, Nat.min_id, firstn_all, <- H, drop_all. by rewrite app_nil_r.
Qed.

Lemma present_eq d p : geometry (info d) -> at_screen p -> length (fb d) = length (scene d) ->
  present d p = Val (with_fb (plots (info d) (scene d) (pointer p)) (with_cursor (Some p) d)).
Proof.
  intros Hg Hp Hl. unfold present. rewrite copy_scene_eq by done. by rewrite (paint_cursor_eq _ p).
Qed.

(** The screen is the scene under the pointer. *)
Definition presented (d : Display) (p : Z * Z) : Prop :=
  cursor_at d = Some p /\ at_screen p /\ fb d = plots (info d) (scene d) (pointer p).

Lemma move_presented d p q : geometry (info d) -> presented d p -> at_screen q ->
  move_cursor d q.1 q.2 = Val (with_fb (plots (info d) (scene d) (pointer q)) (with_cursor (Some q) d)).
Proof.
  destruct p as [ox oy], q as [x y]. cbn [fst snd]. intros Hg (Hc & Hp & Hf) Hq. unfold move_cursor. rewrite Hc.
  case_bool_decide as E.
  - simplify_eq. rewrite <- Hf, <- Hc. by destruct d.
  - pose proof (restore_pointer d (ox, oy) Hg Hp Hf) as E1. cbn [fst snd] in E1. rewrite E1. cbn [mbind outcome_bind]. by rewrite (paint_cursor_eq _ (x, y)).
Qed.
