(* ===== verification/Render.v ===== *)
(** * Drawing a frame

    The drawing half of [render] in [kernel/src/ui.rs], with the notices of
    [shutdown], the boot trace and the fatal notice of [kernel/src/main.rs],
    and the installation of the embedded bitmaps in [kernel/src/assets.rs].
    Each runs in one critical section of the display; the frame, the readout
    and the pointer are gathered before it. *)

From S2P Require Import Prelude UiText Png Font Framebuffer App.
Import Font Framebuffer Text.

Module Render.

Definition MARGIN : Z := CELL_W.
Abbreviation TOPBAR_H := App.TOPBAR_H (only parsing).
Abbreviation BOTBAR_H := App.BOTBAR_H (only parsing).
Abbreviation PANEL_X := App.PANEL_X (only parsing).
Abbreviation PANEL_Y := App.PANEL_Y (only parsing).
Abbreviation BODY_X := App.BODY_X (only parsing).
Abbreviation BODY_TOP := App.BODY_TOP (only parsing).

(** ** The embedded assets

    The files the build embeds, by slot, the shared background and the font. *)

Record Assets := mk_assets { slots : list (option bytes); shared : option bytes; font_png : option bytes }.

(** What is decoded is installed; what does not decode is skipped. *)
Definition with_decoded (asset : option bytes) (d : Display)
    (install : Display -> Png.Image -> outcome unit Display) : outcome unit Display :=
  match asset with
  | None => Val d
  | Some bs =>
      match Png.decode bs with
      | Val img => install d img
      | Fail _ => Val d
      | Panic => Panic
      | NoFuel => NoFuel
      end
  end.

Definition load_background (asset : option bytes) (slot : nat) (d : Display) : outcome unit Display :=
  with_decoded asset d (fun d img => set_background d slot (Png.width img) (Png.height img) (Png.rgba img)).

Definition install (a : Assets) (d : Display) : outcome unit Display :=
  d ← load_background (nth 0 (slots a) None) 0 d;
  d ← load_background (nth 1 (slots a) None) 1 d;
  d ← load_background (nth 2 (slots a) None) 2 d;
  d ← load_background (nth 3 (slots a) None) 3 d;
  d ← load_background (nth 4 (slots a) None) 4 d;
  d ← with_decoded (shared a) d (fun d img => set_shared_bg d (Png.width img) (Png.height img) (Png.rgba img));
  with_decoded (font_png a) d (fun d img => set_atlas d (Png.width img) (Png.height img) (Png.rgba img)).

(** ** A frame *)

(** The readout under version [ver], [per] ticks a microsecond and the time stamp [tsc]. *)
Definition hud_readout (ver : bytes) (per tsc : Z) : bytes :=
  if per =? 0 then str "TABLESOS v" ++ ver ++ str " // SYS ONLINE"
  else
    let secs := tsc / Z.max (Z.min (per * 1000000) (2 ^ 64 - 1)) 1 in
    str "TABLESOS v" ++ ver ++ str " // T+" ++ fmt_u64 secs ++ str "s // ONLINE".

Definition title_bar (d : Display) (title readout : bytes) : outcome unit Display :=
  let w := width (info d) in
  d ← fill_grad_rect d 0 0 w TOPBAR_H C_BAR C_BAR_LO;
  rw ← mul_u64 (count readout) CELL_W;
  mrw ← add_u64 MARGIN rw;
  let tele_x := saturating_sub w mrw in
  let tele_y := (TOPBAR_H - CELL_H) / 2 in
  need ← add_u64 rw (2 * MARGIN);
  '(_, d) ← (if need <? w
             then draw_text_grad d tele_x tele_y readout C_TELE_TOP C_TELE_BOT Font.Display SCALE
             else Val (0, d));
  tn ← mul_u64 (count title) GLYPH_W;
  tn3 ← mul_u64 tn 3;
  t1 ← add_u64 BODY_X tn3;
  tend ← add_u64 t1 CELL_W;
  let ts := if tend <? tele_x then 3 else SCALE in
  let th := GLYPH_H * ts in
  let ttl_y := saturating_sub TOPBAR_H th / 2 in
  d ← fill_rect d PANEL_X (saturating_sub ttl_y 2) 5 (th + 4) C_ACCENT2;
  d ← draw_text_glow_grad d BODY_X ttl_y title C_TITLE_TOP C_TITLE_BOT C_GLOW Font.Display ts;
  d ← fill_rect d 0 (TOPBAR_H - 2) w 2 C_ACCENT;
  fill_rect d 0 TOPBAR_H w 1 C_GLOW.

Definition panel_w (d : Display) : Z := saturating_sub (width (info d)) (2 * PANEL_X).
Definition panel_h (d : Display) : Z := saturating_sub (height (info d)) (PANEL_Y + BOTBAR_H + 4).

Definition content_panel (d : Display) : outcome unit Display :=
  let pw := panel_w d in
  let ph := panel_h d in
  d ← stroke_rect d PANEL_X PANEL_Y pw ph 1 C_PANEL_EDGE;
  let em := EMBLEM_PX in
  ex1 ← sub_uint (PANEL_X + pw) em;
  ey1 ← sub_uint (PANEL_Y + ph) em;
  d ← corner_emblem d PANEL_X PANEL_Y C_ACCENT C_CELL_SEL C_GLOW false false;
  d ← corner_emblem d ex1 PANEL_Y C_ACCENT C_CELL_SEL C_GLOW true false;
  d ← corner_emblem d PANEL_X ey1 C_ACCENT C_CELL_SEL C_GLOW false true;
  d ← corner_emblem d ex1 ey1 C_ACCENT C_CELL_SEL C_GLOW true true;
  let ncx := PANEL_X + pw / 2 in
  let ncy := PANEL_Y + ph / 2 in
  ncx3 ← sub_uint ncx 3;
  ncy3 ← sub_uint ncy 3;
  bottom ← sub_uint (PANEL_Y + ph) 2;
  right ← sub_uint (PANEL_X + pw) 2;
  d ← fill_rect d ncx3 (PANEL_Y - 1) 7 3 C_ACCENT2;
  d ← fill_rect d ncx3 bottom 7 3 C_ACCENT2;
  d ← fill_rect d (PANEL_X - 1) ncy3 3 7 C_ACCENT2;
  fill_rect d right ncy3 3 7 C_ACCENT2.

Definition line_color (k : LineKind) : Rgb :=
  match k with
  | Normal => C_FG
  | Dim => C_DIM
  | Selected => C_FG
  | Error => C_ERR
  | Accent => C_ACCENT
  end.

Definition is_kind (k k' : LineKind) : bool :=
  match k, k' with
  | Normal, Normal | Dim, Dim | Selected, Selected | Error, Error | Accent, Accent => true
  | _, _ => false
  end.

Definition selection_bar (d : Display) (y : Z) : outcome unit Display :=
  let bx := PANEL_X + 3 in
  let bw := saturating_sub (panel_w d) 6 in
  d ← fill_rect d bx (y - 2) bw (CELL_H + 2) C_SEL;
  d ← fill_rect d bx (y - 2) 3 (CELL_H + 2) C_ACCENT;
  fill_rect d bx (y - 2) bw 1 C_CELL_SEL.

Definition highlight (li : nat) (y : Z) (d : Display) (hl : Z * Z * Z * Rgb) : outcome unit Display :=
  let '(hl_li, cx, cw, hl_color) := hl in
  if hl_li =? Z.of_nat li then
    ccx ← mul_u64 cx CELL_W;
    hx ← add_u64 BODY_X ccx;
    hw ← mul_u64 cw CELL_W;
    let hh := CELL_H + 2 in
    d ← fill_rect d hx (y - 2) hw hh hl_color;
    stroke_rect d hx (y - 2) hw hh 2 C_CELL_SEL
  else Val d.

Definition caret (li : nat) (y : Z) (cursor : option (Z * Z)) (d : Display) : outcome unit Display :=
  match cursor with
  | Some (cl, cc) =>
      if cl =? Z.of_nat li then
        ccx ← mul_u64 cc CELL_W;
        cx ← add_u64 BODY_X ccx;
        fill_rect d cx y SCALE CELL_H C_FG
      else Val d
  | None => Val d
  end.

Definition body_line (hls : list (Z * Z * Z * Rgb)) (cursor : option (Z * Z)) (acc : Z * Display)
    (l : nat * TextLine) : outcome unit (Z * Display) :=
  let '(y, d) := acc in
  let '(li, line) := l in
  d ← (if is_kind (kind line) Selected then selection_bar d y else Val d);
  d ← fold_o (highlight li y) d hls;
  '(_, d) ← (if is_kind (kind line) Accent then
               d ← fill_rect d (PANEL_X + 4) (y + 1) 3 (CELL_H - 3) C_ACCENT2;
               draw_text_grad d BODY_X y (text line) C_HEAD_TOP C_HEAD_BOT Font.Display SCALE
             else draw_text d BODY_X y (text line) (line_color (kind line)) Body);
  d ← caret li y cursor d;
  y' ← add_u64 y CELL_H;
  Val (y', d).

Definition status_bar (d : Display) (status : bytes) : outcome unit Display :=
  let w := width (info d) in
  sy ← sub_uint (height (info d)) BOTBAR_H;
  d ← fill_grad_rect d 0 sy w BOTBAR_H C_BAR_LO C_BAR;
  d ← fill_rect d 0 sy w 2 C_ACCENT;
  d ← fill_rect d 0 (sy + 2) w 1 C_GLOW;
  let st_y := sy + (BOTBAR_H - CELL_H) / 2 + 1 in
  d ← fill_rect d BODY_X (st_y + 4) 8 8 C_ACCENT2;
  '(_, d) ← draw_text_grad d (BODY_X + CELL_W) st_y status C_STAT_TOP C_STAT_BOT Font.Display SCALE;
  Val d.

(** Everything of the frame above its background. *)
Definition chrome (d : Display) (f : Frame) (cursor : option (Z * Z)) (readout : bytes) : outcome unit Display :=
  d ← title_bar d (title f) readout;
  d ← content_panel d;
  '(_, d) ← fold_o (body_line (cell_hls f) cursor) (BODY_TOP, d) (enumerate (body f));
  status_bar d (status f).

(** The caret shows in the lit phase of its blinking. *)
Definition render (d : Display) (f : Frame) (cursor_on : bool) (readout : bytes) (mouse : Z * Z)
    : outcome unit Display :=
  d ← paint_background d C_BG_TOP (bg f);
  d ← chrome d f (if cursor_on then cursor f else None) readout;
  present d mouse.

Definition draw_cursor (d : Display) (x y : Z) : outcome unit Display := move_cursor d x y.

(** ** Notices *)

Definition boot_status (d : Display) (y : Z) (msg : bytes) : outcome unit Display :=
  '(_, d) ← draw_text d 40 y msg C_FG Body;
  Val (blit d).


Definition fatal (d : Display) (y : Z) (msg : bytes) : outcome unit Display :=
  y10 ← add_u64 y 10;
  d ← draw_text_glow d 40 y10 (str "TABLESOS — CANNOT START") C_ERR C_GLOW Font.Display;
  y38 ← add_u64 y 38;
  '(_, d) ← draw_text d 40 y38 msg C_FG Body;
  Val (blit d).

(** The two notices of [shutdown]: going down, and powered down but for the switch. *)
Definition shutting_down (d : Display) : outcome unit Display :=
  let '(w, h) := (width (info d), height (info d)) in
  d ← fill_rect d 0 0 w h C_BAR;
  let x := MARGIN * 2 in
  y ← sub_uint (h / 2) CELL_H;
  d ← draw_text_glow d x y (str "TABLESOS - SHUTTING DOWN") C_FG C_GLOW Font.Display;
  '(_, d) ← draw_text d x (h / 2 + CELL_H) (str "Powering off...") C_DIM Body;
  Val (blit d).

Definition safe_to_turn_off (d : Display) (why : bytes) : outcome unit Display :=
  let '(w, h) := (width (info d), height (info d)) in
  d ← fill_rect d 0 0 w h C_BAR;
  let x := MARGIN * 2 in
  y ← sub_uint (h / 2) CELL_H;
  d ← draw_text_glow d x y (str "IT IS NOW SAFE TO TURN OFF YOUR COMPUTER") C_FG C_GLOW Font.Display;
  '(_, d) ← draw_text d x (h / 2 + CELL_H) (str "Automatic power-off is unavailable on this machine.") C_DIM Body;
  '(_, d) ← draw_text d x (h / 2 + CELL_H * 2) why C_DIM Body;
  Val (blit d).

End Render.
