(* ===== verification/RenderFacts.v ===== *)
(** * A frame is drawn whatever it holds

    On a mode the kernel accepts, the chrome of every frame whose texts and
    coordinates fit the address space is drawn without an abort, on the scene
    alone. *)

From S2P Require Import Prelude UiText Png PngFacts PngDecode Font Framebuffer FramebufferFacts DisplayFacts App Render.
Import Font Framebuffer Text Render.

(** The modes [main] accepts. *)
Record accepted (i : FbInfo) : Prop := {
  acc_geo : geometry i;
  acc_w : 1024 <= width i;
  acc_h : 720 <= height i
}.

(** Below the size of the address space. *)
Definition fits (z : Z) : Prop := 0 <= z < 2 ^ 48.
Definition text_fits (s : bytes) : Prop := len s < 2 ^ 48.

Definition hl_fits (hl : Z * Z * Z * Rgb) : Prop :=
  let '(_, cx, cw, c) := hl in fits cx /\ fits cw /\ is_rgb c.

Record frame_fits (f : Frame) : Prop := {
  ff_title : text_fits (title f);
  ff_status : text_fits (status f);
  ff_body : len (body f) < 2 ^ 48 /\ Forall (fun l => text_fits (text l)) (body f);
  ff_hls : Forall hl_fits (cell_hls f);
  ff_cursor : forall cl cc, cursor f = Some (cl, cc) -> fits cc
}.

(** Opens the layout constants. *)
Ltac layout :=
  change TOPBAR_H with 40 in *; change BOTBAR_H with 28 in *; change PANEL_X with 8 in *;
  change PANEL_Y with 46 in *; change BODY_X with 22 in *; change BODY_TOP with 86 in *;
  change MARGIN with 16 in *; change CELL_W with 16 in *; change CELL_H with 16 in *;
  change EMBLEM_PX with 32 in *; change SCALE with 2 in *; change GLYPH_W with 8 in *;
  change GLYPH_H with 8 in *; unfold text_fits, fits in *.

Lemma count_bound s : 0 <= count s <= len s.
Proof. unfold count. pose proof (chars_length s). lia. Qed.

(** One operation, by its lemma. *)
Ltac op :=
  first [ apply fill_rect_stage; [assumption|sane..|first [assumption|rgb]]
        | apply fill_grad_rect_stage; [assumption|sane..|rgb|rgb]
        | apply stroke_rect_stage; [assumption|sane..|rgb]
        | apply corner_emblem_stage; [assumption|sane|sane|rgb..]
        | apply draw_text_grad_stage; [assumption|sane|sane|sane|sane|rgb|rgb]
        | apply draw_text_glow_grad_stage; [assumption|sane|sane|sane|sane|rgb..]
        | apply draw_text_stage; [assumption|sane|sane|sane|first [assumption|rgb]]
        | apply draw_text_glow_stage; [assumption|sane|sane|sane|rgb..] ].
Ltac next d H := eapply stage_bind; [eassumption|first [eassumption|apply stage_refl]|intros ?; op|intros d H]; cbn beta.
Ltac ending := eapply stage_last; [eassumption|first [eassumption|apply stage_refl]|intros ?; op].

Section Chrome.
Context (d0 : Display) (H0 : good d0) (Hi : accepted (info d0)).

Lemma title_bar_stage d t r : stage d0 d -> text_fits t -> text_fits r ->
  gives (title_bar d t r) (stage d0).
Proof.
  intros Hd Ht Hr. unfold title_bar. cbv zeta. rewrite (stage_info d0 d Hd).
  pose proof (geo_w _ (acc_geo _ Hi)). pose proof (acc_w _ Hi).
  pose proof (count_bound t). pose proof (count_bound r). layout.
  next d1 K1. calc.
  eapply (gives_bind _ _ (fun r => stage d0 r.2)).
  - destruct (_ <? _); [|exact K1]. eapply gives_mono.
    + apply draw_text_grad_stage; [by eapply stage_good|sane|sane|sane|sane|rgb|rgb].
    + intros [x d2] K2. eapply stage_trans; [exact K1|exact K2].
  - intros [x d2] K2. calc. cbn [snd] in K2.
    set (ts := if _ <? _ then 3 else 2). assert (Hts : ts = 2 \/ ts = 3) by (unfold ts; destruct (_ <? _); lia).
    clearbody ts. unfold saturating_sub. destruct Hts as [-> | ->].
    all: next d3 K3; next d4 K4; next d5 K5; ending.
Qed.

Lemma content_panel_stage d : stage d0 d -> gives (content_panel d) (stage d0).
Proof.
  intros Hd. unfold content_panel, panel_w, panel_h. rewrite (stage_info d0 d Hd). layout.
  pose proof (geo_w _ (acc_geo _ Hi)). pose proof (geo_h _ (acc_geo _ Hi)).
  pose proof (acc_w _ Hi). pose proof (acc_h _ Hi).
  set (pw := saturating_sub (width (info d0)) (2 * 8)). set (ph := saturating_sub (height (info d0)) _).
  assert (1000 <= pw < 2 ^ 24) by (unfold pw; sane). assert (600 <= ph < 2 ^ 24) by (unfold ph; sane).
  clearbody pw ph. cbv zeta. next d1 K1. calc.
  next d2 K2. next d3 K3. next d4 K4. next d5 K5.
  next d6 K6. next d7 K7. next d8 K8. ending.
Qed.

Lemma selection_bar_stage d y : stage d0 d -> 2 <= y < 2 ^ 60 -> gives (selection_bar d y) (stage d0).
Proof.
  intros Hd Hy. unfold selection_bar, panel_w. rewrite (stage_info d0 d Hd). layout.
  pose proof (geo_w _ (acc_geo _ Hi)). pose proof (acc_w _ Hi). cbv zeta.
  next d1 K1. next d2 K2. ending.
Qed.

Lemma highlight_stage d li y hl : stage d0 d -> 2 <= y < 2 ^ 60 -> hl_fits hl ->
  gives (highlight li y d hl) (stage d0).
Proof.
  destruct hl as [[[hli cx] cw] c]. intros Hd Hy (Hx & Hw & Hc). unfold highlight. layout.
  destruct (_ =? _); [|exact Hd]. calc. next d1 K1. ending.
Qed.

Lemma caret_stage d li y cur : stage d0 d -> 0 <= y < 2 ^ 60 ->
  (forall cl cc, cur = Some (cl, cc) -> fits cc) -> gives (caret li y cur d) (stage d0).
Proof.
  intros Hd Hy Hc. unfold caret. destruct cur as [[cl cc]|]; [|exact Hd].
  pose proof (Hc cl cc eq_refl). layout. destruct (_ =? _); [|exact Hd]. calc. ending.
Qed.

Lemma status_bar_stage d s : stage d0 d -> text_fits s -> gives (status_bar d s) (stage d0).
Proof.
  intros Hd Hs. unfold status_bar. rewrite (stage_info d0 d Hd). layout.
  pose proof (geo_w _ (acc_geo _ Hi)). pose proof (geo_h _ (acc_geo _ Hi)).
  pose proof (acc_w _ Hi). pose proof (acc_h _ Hi). cbv zeta. calc.
  next d1 K1. next d2 K2. next d3 K3. next d4 K4.
  eapply text_bind; [done|exact K4|intros; op|]. intros _ d5 K5. exact K5.
Qed.

Lemma body_line_stage hls cur y d li l : stage d0 d -> 2 <= y < 2 ^ 60 -> Forall hl_fits hls ->
  (forall cl cc, cur = Some (cl, cc) -> fits cc) -> text_fits (text l) ->
  gives (body_line hls cur (y, d) (li, l)) (fun r => r.1 = y + 16 /\ stage d0 r.2).
Proof.
  intros Hd Hy Hh Hc Ht. unfold body_line.
  apply (gives_bind _ _ (stage d0)).
  { destruct (is_kind _ _); [by apply selection_bar_stage|exact Hd]. }
  intros d1 K1. apply (gives_bind _ _ (stage d0)).
  { apply gives_fold; [done|]. intros d2 hl Hin K2. apply highlight_stage; [done..|].
    by apply (proj1 (Forall_forall _ _) Hh). }
  intros d2 K2. layout. apply (gives_bind _ _ (fun r => stage d0 r.2)).
  { destruct (is_kind _ _).
    - eapply (gives_bind _ _ (stage d0)); [eapply stage_last; [done|exact K2|intros; op]|].
      intros d3 K3. eapply gives_mono; [apply draw_text_grad_stage|].
      1: by eapply stage_good. 1-4: sane. 1-2: rgb.
      intros r Kr. eapply stage_trans; [exact K3|exact Kr].
    - eapply gives_mono; [apply draw_text_stage|].
      1: by eapply stage_good. 1-3: sane. 1: by destruct (kind l); rgb.
      intros r Kr. eapply stage_trans; [exact K2|exact Kr]. }
  intros [x d3] K3. cbn [snd] in K3. eapply gives_bind; [apply (caret_stage d3 li y cur); [done|lia|done]|].
  intros d4 K4. calc. by split.
Qed.

Lemma chrome_stage d f cur r : stage d0 d -> frame_fits f -> text_fits r ->
  (forall cl cc, cur = Some (cl, cc) -> fits cc) -> gives (chrome d f cur r) (stage d0).
Proof.
  intros Hd Hf Hr Hc. destruct Hf as [Ht Hs [Hn Hb] Hh _]. unfold chrome.
  eapply gives_bind; [by apply title_bar_stage|]. intros d1 K1.
  eapply gives_bind; [by apply content_panel_stage|]. intros d2 K2.
  apply (gives_bind _ _ (fun r => stage d0 r.2)); [|intros [y d3] K3; by apply status_bar_stage].
  set (I := fun k '(y, d') => y = 86 + 16 * k /\ stage d0 d').
  assert (Hl : len (enumerate (body f)) = len (body f)).
  { unfold enumerate. rewrite length_zip_with, length_seq. lia. }
  eapply gives_mono; [apply (gives_count _ I (enumerate (body f)) 0); [by split|]|by intros [y d3] [_ H]].
  intros j [y d3] [li l] Hj Hin (-> & K3).
  eapply gives_mono; [apply body_line_stage; try done; [lia|]|].
  - apply elem_of_zip_r in Hin. by apply (proj1 (Forall_forall _ _) Hb).
  - intros [y d4] [E K4]. cbn in E, K4. split; [lia|done].
Qed.

End Chrome.
