(* ===== verification/Canvas.v ===== *)
(** * What drawing depends on

    Drawing looks at the scene, the geometry and the glyph atlas of a display
    and at nothing else: on two displays that share them it draws the same.  In
    particular the hardware buffer, the pointer and the caches do not matter. *)

From S2P Require Import Prelude UiText Font Framebuffer App Render.
Import Font Framebuffer Text Render.

(** The canvas of [d] in the display [e]. *)
Definition onto (e d : Display) : Display :=
  mk_display (fb e) (scene d) (info d) (cursor_at e) (backgrounds e) (bg_shared e) (atlas d) (bg_cache e).
Definition onto_text (e : Display) (r : Z * Display) : Z * Display := (r.1, onto e r.2).

Lemma blind_bind {A B} (fe : A -> A) (ge : B -> B) (r r' : outcome unit A) k k' :
  r' = fe <$> r -> (forall a, k' (fe a) = ge <$> k a) -> (r' ≫= k') = ge <$> (r ≫= k).
Proof. intros -> H. destruct r; cbn; [apply H|done..]. Qed.

(** A step that does not look at the display. *)
Lemma blind_const {A B} (ge : B -> B) (r : outcome unit A) k k' :
  (forall a, k' a = ge <$> k a) -> (r ≫= k') = ge <$> (r ≫= k).
Proof. intros H. destruct r; cbn; [apply H|done..]. Qed.

Lemma blind_fold {A S} (fe : S -> S) (f f' : S -> A -> outcome unit S) l : forall s,
  (forall s x, f' (fe s) x = fe <$> f s x) -> fold_o f' (fe s) l = fe <$> fold_o f s l.
Proof.
  induction l as [|x l IH]; intros s H; [done|]. cbn [fold_o].
  apply (blind_bind fe); [apply H|]. intros s'. by apply IH.
Qed.

Section Blind.
Context (e : Display).

Lemma draw_blind d f : draw (onto e d) f = onto e <$> draw d f.
Proof. unfold draw. cbn [scene onto]. by destruct (f (scene d)). Qed.

Lemma fill_rect_blind d x y w h c : fill_rect (onto e d) x y w h c = onto e <$> fill_rect d x y w h c.
Proof. apply draw_blind. Qed.

Lemma fill_grad_rect_blind d x y w h t b :
  fill_grad_rect (onto e d) x y w h t b = onto e <$> fill_grad_rect d x y w h t b.
Proof. apply draw_blind. Qed.

Lemma corner_emblem_blind d x y a m dm fx fy :
  corner_emblem (onto e d) x y a m dm fx fy = onto e <$> corner_emblem d x y a m dm fx fy.
Proof. apply draw_blind. Qed.

Lemma stroke_rect_blind d x y w h t c : stroke_rect (onto e d) x y w h t c = onto e <$> stroke_rect d x y w h t c.
Proof.
  unfold stroke_rect. destruct (_ || _); [done|].
  apply (blind_bind (onto e)); [apply fill_rect_blind|]. intros d1. apply blind_const. intros yb.
  apply (blind_bind (onto e)); [apply fill_rect_blind|]. intros d2.
  apply (blind_bind (onto e)); [apply fill_rect_blind|]. intros d3. apply blind_const. intros xr.
  apply fill_rect_blind.
Qed.

Lemma paint_glyph_blind d x y ch t b font sc :
  paint_glyph (onto e d) x y ch t b font sc = onto e <$> paint_glyph d x y ch t b font sc.
Proof.
  unfold paint_glyph. cbv zeta. cbn [atlas info onto]. apply blind_const. intros [[a cell]|].
  - apply draw_blind.
  - apply blind_const. intros g. apply draw_blind.
Qed.

Lemma run_text_blind g adv d x s : (forall d x ch, g (onto e d) x ch = onto e <$> g d x ch) ->
  run_text g adv (onto e d) x s = onto_text e <$> run_text g adv d x s.
Proof.
  intros Hg. apply (blind_fold (onto_text e) _ _ (chars s) (x, d)). intros [cx d'] ch.
  apply (blind_bind (onto e)); [apply Hg|]. intros d2. by apply blind_const.
Qed.

Lemma draw_text_blind d x y s c font : draw_text (onto e d) x y s c font = onto_text e <$> draw_text d x y s c font.
Proof. apply run_text_blind. intros. apply paint_glyph_blind. Qed.

Lemma draw_text_grad_blind d x y s t b font sc :
  draw_text_grad (onto e d) x y s t b font sc = onto_text e <$> draw_text_grad d x y s t b font sc.
Proof. apply run_text_blind. intros. apply paint_glyph_blind. Qed.

Lemma haloed_blind text o d x y :
  (forall d x y b, text (onto e d) x y b = onto_text e <$> text d x y b) ->
  haloed text o (onto e d) x y = onto e <$> haloed text o d x y.
Proof.
  intros Ht. unfold haloed. apply blind_const. intros xo.
  apply (blind_bind (onto_text e)); [apply Ht|]. intros [? d1].
  apply (blind_bind (onto_text e)); [apply Ht|]. intros [? d2]. apply blind_const. intros yo.
  apply (blind_bind (onto_text e)); [apply Ht|]. intros [? d3].
  apply (blind_bind (onto_text e)); [apply Ht|]. intros [? d4].
  apply (blind_bind (onto_text e)); [apply Ht|]. by intros [? d5].
Qed.

Lemma draw_text_glow_blind d x y s c g font :
  draw_text_glow (onto e d) x y s c g font = onto e <$> draw_text_glow d x y s c g font.
Proof. apply haloed_blind. intros. apply draw_text_blind. Qed.

Lemma draw_text_glow_grad_blind d x y s t b g font sc :
  draw_text_glow_grad (onto e d) x y s t b g font sc = onto e <$> draw_text_glow_grad d x y s t b g font sc.
Proof. apply haloed_blind. intros ? ? ? []; apply draw_text_grad_blind. Qed.

(** One step of a sequence. *)
Ltac blind := first
  [ apply fill_rect_blind | apply fill_grad_rect_blind | apply corner_emblem_blind | apply stroke_rect_blind
  | apply draw_text_blind | apply draw_text_grad_blind | apply draw_text_glow_blind
  | apply draw_text_glow_grad_blind | reflexivity ].
Ltac step := cbv zeta; first
  [ apply blind_const; intros ?
  | apply (blind_bind (onto e)); [blind|intros ?]
  | apply (blind_bind (onto_text e)); [blind|intros [? ?]; unfold onto_text; cbn [fst snd]] ].

Lemma title_bar_blind d t r : title_bar (onto e d) t r = onto e <$> title_bar d t r.
Proof.
  unfold title_bar. cbn [info onto]. step. step. step. step.
  apply (blind_bind (onto_text e)).
  { destruct (_ <? _); [apply draw_text_grad_blind|done]. }
  intros [? d1]. unfold onto_text. cbn [fst snd]. repeat step. blind.
Qed.

Lemma content_panel_blind d : content_panel (onto e d) = onto e <$> content_panel d.
Proof. unfold content_panel, panel_w, panel_h. cbn [info onto]. repeat step. blind. Qed.

Lemma status_bar_blind d s : status_bar (onto e d) s = onto e <$> status_bar d s.
Proof. unfold status_bar. cbn [info onto]. repeat step. done. Qed.

Lemma body_line_blind hls cur y d l :
  body_line hls cur (y, onto e d) l = onto_text e <$> body_line hls cur (y, d) l.
Proof.
  destruct l as [li l]. unfold body_line.
  apply (blind_bind (onto e)).
  { destruct (is_kind _ _); [|done]. unfold selection_bar, panel_w. cbn [info onto]. repeat step. blind. }
  intros d1. apply (blind_bind (onto e)).
  { apply (blind_fold (onto e)). intros d2 [[[hli cx] cw] c]. unfold highlight.
    destruct (_ =? _); [|done]. repeat step. blind. }
  intros d2. apply (blind_bind (onto_text e)).
  { destruct (is_kind _ _); [|blind]. step. blind. }
  intros [? d3]. unfold onto_text at 1. cbn [fst snd]. apply (blind_bind (onto e)).
  { unfold caret. destruct cur as [[cl cc]|]; [|done]. destruct (_ =? _); [|done]. repeat step. blind. }
  intros d4. by apply blind_const.
Qed.

Lemma chrome_blind d f cur r : chrome (onto e d) f cur r = onto e <$> chrome d f cur r.
Proof.
  unfold chrome. apply (blind_bind (onto e)); [apply title_bar_blind|]. intros d1.
  apply (blind_bind (onto e)); [apply content_panel_blind|]. intros d2.
  apply (blind_bind (onto_text e)).
  { apply (blind_fold (onto_text e) _ _ (enumerate (body f)) (BODY_TOP, d2)). intros [y d3] l. apply body_line_blind. }
  intros [y d3]. apply status_bar_blind.
Qed.

End Blind.
