(* ===== verification/Screenful.v ===== *)
(** * The display between critical sections

    What every critical section of the display keeps: the bitmaps installed at
    boot, clean scenes, and caches that hold what composing would give.  Under
    it each step ends, and a rendered frame depends on the frame alone. *)

From S2P Require Import Prelude UiText Png PngFacts PngDecode Font Framebuffer FramebufferFacts DisplayFacts.
From S2P Require Import Compositing Canvas App Render RenderFacts.
Import Font Framebuffer Text Render.

(** ** Steps *)

(** A critical section of the display. *)
Inductive step :=
  | Render (f : Frame) (cursor_on : bool) (readout : bytes) (mouse : Z * Z)
  | Move (x y : Z)
  | BootStatus (y : Z) (msg : bytes)
  | Fatal (y : Z) (msg : bytes)
  | ShuttingDown
  | SafeToTurnOff (why : bytes).

Definition run_step (d : Display) (s : step) : outcome unit Display :=
  match s with
  | Render f on readout mouse => render d f on readout mouse
  | Move x y => draw_cursor d x y
  | BootStatus y msg => boot_status d y msg
  | Fatal y msg => fatal d y msg
  | ShuttingDown => shutting_down d
  | SafeToTurnOff why => safe_to_turn_off d why
  end.

(** The tints of the screens. *)
Definition tints : list Rgb := [C_BG_LIST; C_BG_BROWSER; C_BG_ROW; C_BG_EDIT; C_BG_SCHEMA].

Definition step_fits (s : step) : Prop :=
  match s with
  | Render f _ readout mouse => frame_fits f /\ bg f ∈ tints /\ text_fits readout /\ at_screen mouse
  | Move x y => at_screen (x, y)
  | BootStatus y msg | Fatal y msg => 0 <= y < 2 ^ 56 /\ text_fits msg
  | ShuttingDown => True
  | SafeToTurnOff why => text_fits why
  end.

(** ** The invariant *)

(** What boot leaves: an accepted mode and bitmaps of the sizes they claim. *)
Record equipped (d : Display) : Prop := {
  eq_mode : accepted (info d);
  eq_backgrounds : Forall image_fine (backgrounds d);
  eq_shared : image_fine (bg_shared d);
  eq_atlas : atlas_fine (atlas d)
}.

(** The composed background of a view on the bitmaps of [d0]. *)
Definition view (d0 : Display) (n : nat) (tint : Rgb) (b : bytes) : Prop :=
  compose (with_scene (zeros n) d0) C_BG_TOP tint = Val (with_scene b d0).

Record settled (d0 : Display) (n : nat) (d : Display) : Prop := {
  st_alike : alike d0 d;
  st_fb : length (fb d) = n;
  st_clean : clean (info d0) n (scene d);
  st_cursor : forall p, cursor_at d = Some p -> at_screen p;
  st_slots : length (bg_cache d) = 5%nat;
  st_cache : forall tint b, tint ∈ tints -> nth (slot_for tint) (bg_cache d) None = Some b -> view d0 n tint b
}.

(** What a frame looks like on the bitmaps of [d0]. *)
Definition picture (d0 : Display) (n : nat) (f : Frame) (on : bool) (readout : bytes) (s : bytes) : Prop :=
  exists b dc, view d0 n (bg f) b /\
    chrome (with_scene b d0) f (if on then cursor f else None) readout = Val dc /\ scene dc = s.

Lemma view_functional d0 n tint b b' : view d0 n tint b -> view d0 n tint b' -> b = b'.
Proof. unfold view. intros H H'. rewrite H in H'. by injection H'. Qed.

Lemma picture_functional d0 n f on r s s' : picture d0 n f on r s -> picture d0 n f on r s' -> s = s'.
Proof.
  intros (b & dc & Hv & Hc & <-) (b' & dc' & Hv' & Hc' & <-).
  rewrite (view_functional _ _ _ _ _ Hv' Hv) in Hc'. congruence.
Qed.

Lemma tint_rgb tint : tint ∈ tints -> is_rgb tint.
Proof. intros H. repeat (apply elem_of_cons in H as [->|H]; [rgb|]). by apply elem_of_nil in H. Qed.

Lemma tint_slot_inj t t' : t ∈ tints -> t' ∈ tints -> slot_for t = slot_for t' -> t = t'.
Proof.
  intros H H' E.
  repeat (apply elem_of_cons in H as [->|H]; [|try by apply elem_of_nil in H]);
  repeat (apply elem_of_cons in H' as [->|H']; [|try by apply elem_of_nil in H']); done.
Qed.

Lemma tint_slot_bound t : (slot_for t < 5)%nat.
Proof. unfold slot_for. repeat case_bool_decide; lia. Qed.

Section Settled.
Context (d0 : Display) (H0 : equipped d0) (n : nat).

Let i := info d0.
Local Lemma Hg : geometry i. Proof. apply H0. Qed.

Lemma settled_good d : settled d0 n d -> good d.
Proof.
  intros [[Hi _ _ Ha] _ [_ Hb _] _ _ _]. split; [rewrite Hi; apply Hg|done|]. rewrite Ha. apply H0.
Qed.

Lemma settled_mode d : settled d0 n d -> accepted (info d).
Proof. intros [[Hi _ _ _] _ _ _ _ _]. rewrite Hi. apply H0. Qed.

Lemma settled_stage d d' : settled d0 n d -> stage d d' -> settled d0 n d'.
Proof.
  intros [Ha Hf Hc Hp Hs Hv] (s & -> & Hd). rewrite (al_info _ _ Ha) in Hd.
  split; try done; [by destruct Ha|]. by apply (drawn_clean _ Hg _ _ _ Hd).
Qed.

Lemma settled_blit d : settled d0 n d -> settled d0 n (blit d).
Proof.
  intros [Ha Hf Hc Hp Hs Hv]. unfold blit.
  rewrite copy_scene_eq by (rewrite Hf; symmetry; apply Hc).
  split; try done; [by destruct Ha|]. cbn. apply Hc.
Qed.

(** *** The background *)

Lemma view_writes tint : tint ∈ tints ->
  exists l, Forall on_grid l /\ view d0 n tint (plots i (zeros n) l) /\
    forall d, alike d0 d -> clean i n (scene d) ->
      compose d C_BG_TOP tint = Val (with_scene (plots i (zeros n) l) d).
Proof.
  intros Ht. pose proof (acc_w _ (eq_mode _ H0)). pose proof (acc_h _ (eq_mode _ H0)).
  destruct (compose_writes d0 tint) as (l & Hl & He & El); try apply H0; try (fold i; apply Hg); try lia; [by apply tint_rgb|].
  exists l. split_and!; [done| |].
  - unfold view. rewrite El by (by split). done.
  - intros d Ha Hc. rewrite El by done. do 2 f_equal. fold i.
    apply (everywhere_same i Hg n); try done. apply zeros_clean.
Qed.

Lemma paint_background_settled d tint : settled d0 n d -> tint ∈ tints ->
  exists b c, paint_background d C_BG_TOP tint = Val (with_cache c (with_scene b d)) /\
    view d0 n tint b /\ settled d0 n (with_cache c (with_scene b d)).
Proof.
  intros Hd Ht. destruct Hd as [Ha Hf Hc Hp Hs Hv].
  destruct (view_writes tint Ht) as (l & Hl & Hvl & El). set (b := plots i (zeros n) l) in *.
  assert (Hcb : clean i n b) by (apply (plots_clean i Hg); [done|apply zeros_clean]).
  assert (Hfresh : (d' ← compose d C_BG_TOP tint;
      Val (with_cache (<[slot_for tint := Some (scene d')]> (bg_cache d')) d')) =
      Val (with_cache (<[slot_for tint := Some b]> (bg_cache d)) (with_scene b d))).
  { by rewrite El. }
  assert (Hset : settled d0 n (with_cache (<[slot_for tint := Some b]> (bg_cache d)) (with_scene b d))).
  { split; try done; cbn [bg_cache with_cache].
    - by destruct Ha.
    - by rewrite length_insert.
    - intros tint' b' Ht' E. destruct (decide (slot_for tint' = slot_for tint)) as [Es|Es].
      + apply tint_slot_inj in Es as ->; [|done..]. rewrite nth_lookup, list_lookup_insert_eq in E.
        * cbn in E. by injection E as <-.
        * rewrite Hs. apply tint_slot_bound.
      + apply (Hv tint' b' Ht'). by rewrite nth_lookup, list_lookup_insert_ne, <- nth_lookup in E. }
  unfold paint_background. destruct (nth (slot_for tint) (bg_cache d) None) as [cached|] eqn:E.
  - destruct (len cached =? len (scene d)); [|exists b; eexists; by rewrite Hfresh].
    pose proof (Hv tint cached Ht E) as Hvc. rewrite (view_functional _ _ _ _ _ Hvc Hvl) in *.
    exists b, (bg_cache d). split; [by destruct d|]. split; [done|]. split; try done. by destruct Ha.
  - exists b. eexists. by rewrite Hfresh.
Qed.

(** *** A frame *)

Lemma render_settled d f on r m : settled d0 n d -> step_fits (Render f on r m) ->
  exists d', render d f on r m = Val d' /\ settled d0 n d' /\ presented d' m /\ picture d0 n f on r (scene d').
Proof.
  intros Hd (Hf & Hbg & Hr & Hm). unfold render.
  destruct (paint_background_settled d (bg f) Hd Hbg) as (b & c & -> & Hv & H1). cbn [mbind outcome_bind].
  set (d1 := with_cache c (with_scene b d)) in *. set (cur := if on then cursor f else None).
  assert (Hcur : forall cl cc, cur = Some (cl, cc) -> fits cc).
  { unfold cur. destruct on; [apply Hf|done]. }
  destruct (gives_val _ _ (chrome_stage d1 (settled_good _ H1) (settled_mode _ H1) d1 f cur r (stage_refl d1) Hf Hr Hcur))
    as (d2 & E2 & H2).
  pose proof (settled_stage _ _ H1 H2) as S2. pose proof S2 as [Ha Hfb Hcl _ _ _]. rewrite E2. cbn [mbind outcome_bind].
  assert (G2 : geometry (info d2)) by (rewrite (al_info _ _ Ha); apply Hg).
  rewrite (present_eq d2 m) by (done || rewrite Hfb; symmetry; apply Hcl).
  set (d3 := with_fb _ _). exists d3. split_and!; [done| | |].
  - destruct S2. split; try done.
    + by destruct Ha.
    + unfold d3. cbn [fb with_fb]. rewrite plots_length; [apply Hcl|done|]. apply pointer_grid; apply Hm.
    + unfold d3. cbn. by intros p [= <-].
  - unfold d3, presented. by cbn.
  - exists b. assert (Eo : d1 = onto d1 (with_scene b d0)).
    { destruct Hd as [[Ei _ _ Ea] _ _ _ _ _]. unfold d1, onto. cbn. by rewrite <- Ei, <- Ea. }
    rewrite Eo, chrome_blind in E2. destruct (chrome (with_scene b d0) f cur r) as [dc| | |] eqn:Ec; try done.
    exists dc. split; [done|]. split; [done|]. cbn in E2. injection E2 as E2. unfold d3. cbn [scene with_fb with_cursor]. by rewrite <- E2.
Qed.

(** *** The pointer *)

Lemma move_settled d x y : settled d0 n d -> at_screen (x, y) ->
  exists d', move_cursor d x y = Val d' /\ settled d0 n d'.
Proof.
  intros Hd Hq. pose proof Hd as [Ha Hf Hc Hp Hs Hv]. pose proof (good_info _ (settled_good _ Hd)) as G.
  assert (Hset : forall b, length b = n ->
    settled d0 n (with_fb (plots (info d) b (pointer (x, y))) (with_cursor (Some (x, y)) d))).
  { intros b Hb. split; try done; [by destruct Ha| |cbn; by intros p [= <-]].
    cbn [fb with_fb]. rewrite plots_length; [done|done|]. apply pointer_grid; apply Hq. }
  unfold move_cursor. destruct (cursor_at d) as [[ox oy]|] eqn:E.
  - case_bool_decide; [by exists d|].
    destruct (restore_gives d (ox, oy)) as (b & Eb & Hb & _); [done|by apply Hp|rewrite Hf; symmetry; apply Hc|].
    cbn [fst snd] in Eb. rewrite Eb. cbn [mbind outcome_bind]. rewrite (paint_cursor_eq _ (x, y)) by done.
    eexists. split; [done|]. cbn [fb with_fb with_cursor]. apply (Hset b). rewrite Hb. apply Hc.
  - rewrite (paint_cursor_eq _ (x, y)) by done. eexists. split; [done|]. by apply (Hset (fb d)).
Qed.

(** *** Notices *)

(** Drawing on the scene and copying it. *)
Lemma notice_settled d (r : outcome unit Display) (k : Display -> outcome unit Display) : settled d0 n d ->
  gives r (stage d) -> (forall d', k d' = Val (blit d')) -> exists d', (r ≫= k) = Val d' /\ settled d0 n d'.
Proof.
  intros Hd Hr Hk. destruct (gives_val _ _ Hr) as (d' & -> & H'). exists (blit d'). split; [apply Hk|].
  apply settled_blit. by eapply settled_stage.
Qed.

Lemma gives_settled d r : settled d0 n d -> gives r (fun d' => exists d1, stage d d1 /\ d' = blit d1) ->
  exists d', r = Val d' /\ settled d0 n d'.
Proof.
  intros Hd Hr. destruct (gives_val _ _ Hr) as (d' & E & d1 & H1 & ->). exists (blit d1). split; [done|].
  apply settled_blit. by eapply settled_stage.
Qed.

Lemma boot_status_settled d y msg : settled d0 n d -> step_fits (BootStatus y msg) ->
  exists d', boot_status d y msg = Val d' /\ settled d0 n d'.
Proof.
  intros Hd [Hy Hm]. apply (gives_settled d _ Hd). pose proof (settled_good _ Hd). layout. unfold boot_status.
  eapply text_bind; [eassumption|apply stage_refl|intros ?; op|]. intros _ d1 K1. by exists d1.
Qed.

Lemma fatal_settled d y msg : settled d0 n d -> step_fits (Fatal y msg) ->
  exists d', fatal d y msg = Val d' /\ settled d0 n d'.
Proof.
  intros Hd [Hy Hm]. apply (gives_settled d _ Hd). pose proof (settled_good _ Hd) as Gd. layout. unfold fatal.
  assert (Hl : len (str "TABLESOS — CANNOT START") < 100) by (by vm_compute).
  calc. eapply (gives_bind _ _ (stage d)); [op|]. intros d1 K1. calc.
  eapply text_bind; [exact Gd|exact K1|intros ?; op|]. intros _ d2 K2. by exists d2.
Qed.

Lemma shutting_down_settled d : settled d0 n d -> exists d', shutting_down d = Val d' /\ settled d0 n d'.
Proof.
  intros Hd. apply (gives_settled d _ Hd). pose proof (settled_good _ Hd) as Gd.
  pose proof (settled_mode _ Hd) as [[Hw Hh _ _] Hw' Hh']. unfold shutting_down. layout.
  set (s1 := str "TABLESOS - SHUTTING DOWN"). assert (Hs1 : len s1 < 100) by (by vm_compute). clearbody s1.
  set (s2 := str "Powering off..."). assert (Hs2 : len s2 < 100) by (by vm_compute). clearbody s2.
  eapply (gives_bind _ _ (stage d)); [op|]. intros d1 K1. cbv zeta. calc.
  eapply (gives_bind _ _ (stage d)); [eapply stage_last; [exact Gd|exact K1|intros ?; op]|]. intros d2 K2.
  eapply text_bind; [exact Gd|exact K2|intros ?; op|]. intros _ d3 K3. by exists d3.
Qed.

Lemma safe_to_turn_off_settled d why : settled d0 n d -> text_fits why ->
  exists d', safe_to_turn_off d why = Val d' /\ settled d0 n d'.
Proof.
  intros Hd Hy. apply (gives_settled d _ Hd). pose proof (settled_good _ Hd) as Gd.
  pose proof (settled_mode _ Hd) as [[Hw Hh _ _] Hw' Hh']. unfold safe_to_turn_off. layout.
  set (s1 := str "IT IS NOW SAFE TO TURN OFF YOUR COMPUTER"). assert (Hs1 : len s1 < 100) by (by vm_compute). clearbody s1.
  set (s2 := str "Automatic power-off is unavailable on this machine."). assert (Hs2 : len s2 < 100) by (by vm_compute). clearbody s2.
  eapply (gives_bind _ _ (stage d)); [op|]. intros d1 K1. cbv zeta. calc.
  eapply (gives_bind _ _ (stage d)); [eapply stage_last; [exact Gd|exact K1|intros ?; op]|]. intros d2 K2.
  eapply text_bind; [exact Gd|exact K2|intros ?; op|]. intros _ d3 K3.
  eapply text_bind; [exact Gd|exact K3|intros ?; op|]. intros _ d4 K4. by exists d4.
Qed.

(** *** Every step *)

Lemma run_step_settled d s : settled d0 n d -> step_fits s -> exists d', run_step d s = Val d' /\ settled d0 n d'.
Proof.
  intros Hd Hs. destruct s as [f on r m|x y|y msg|y msg| |why]; cbn [run_step].
  - destruct (render_settled d f on r m Hd Hs) as (d' & E & H & _). by exists d'.
  - by apply move_settled.
  - by apply boot_status_settled.
  - by apply fatal_settled.
  - by apply shutting_down_settled.
  - by apply safe_to_turn_off_settled.
Qed.

Lemma run_steps_settled l : forall d, settled d0 n d -> Forall step_fits l ->
  exists d', fold_o run_step d l = Val d' /\ settled d0 n d'.
Proof.
  induction l as [|s l IH]; intros d Hd Hl; [by exists d|]. apply Forall_cons in Hl as [Hs Hl].
  destruct (run_step_settled d s Hd Hs) as (d1 & E & H1). cbn [fold_o]. rewrite E. by apply IH.
Qed.

End Settled.
