(* ===== verification/DisplayTheorems.v ===== *)
(** * The display

    Installing what the build embeds ends and leaves a display that is ready
    to draw: every bitmap has the size it claims, the atlas covers its grid
    and nothing is cached.  What the screen shows: the last frame rendered,
    whatever was drawn before it, under the pointer where it last moved; a
    pointer that leaves no trail; and rectangles that paint their pixels and
    no other. *)

From S2P Require Import Prelude UiText Png PngFacts PngDecode PngTheorems Font Framebuffer FramebufferFacts.
From S2P Require Import DisplayFacts Compositing App Render RenderFacts Screenful.
Import Font Framebuffer Text Render.

(** ** The files *)

(** A file of bytes whose header does not overflow the decoder and whose
    picture has fewer than [bound] pixels. *)
Record asset_ok (bound : Z) (file : bytes) : Prop := {
  as_bytes : is_bytes file;
  as_length : len file < 2 ^ 48;
  as_header : ~ oversized file;
  as_pixels : forall img, Png.decode file = Val img -> Png.width img * Png.height img < bound
}.

Definition optional {A} (P : A -> Prop) (o : option A) : Prop := forall a, o = Some a -> P a.

Record assets_ok (a : Assets) : Prop := {
  ok_slots : Forall (optional (asset_ok (2 ^ 48))) (slots a);
  ok_shared : optional (asset_ok (2 ^ 48)) (shared a);
  ok_font : optional (asset_ok (2 ^ 24)) (font_png a)
}.

(** ** The display while installing *)

Record ready (i : FbInfo) (n : nat) (d : Display) : Prop := {
  rd_info : info d = i;
  rd_fb : length (fb d) = n;
  rd_scene : scene d = zeros n;
  rd_cursor : cursor_at d = None;
  rd_backgrounds : Forall image_fine (backgrounds d);
  rd_shared : image_fine (bg_shared d);
  rd_atlas : atlas_fine (atlas d);
  rd_cache : bg_cache d = [None; None; None; None; None]
}.

Lemma init_ready buffer i : ready i (length buffer) (init buffer i).
Proof. split; try done. by repeat (apply Forall_cons; split); [..|apply Forall_nil_2]. Qed.

Lemma none_insert k : (<[k := None]> [None; None; None; None; None] : list (option bytes)) = [None; None; None; None; None].
Proof. by do 6 (destruct k as [|k]; [done|]). Qed.

Section Install.
Context (i : FbInfo) (n : nat).

(** A picture of the decoder, as the setters receive it. *)
Definition picture_ok (bound : Z) (img : Png.Image) : Prop :=
  0 < Png.width img < 2 ^ 32 /\ 0 < Png.height img < 2 ^ 32 /\
  len (Png.rgba img) = Png.width img * Png.height img * 4 /\ is_bytes (Png.rgba img) /\
  Png.width img * Png.height img < bound.

Lemma picture_image bound img : bound <= 2 ^ 48 -> picture_ok bound img ->
  image_ok (mk_owned (Png.width img) (Png.height img) (Png.rgba img)) /\
  image_bytes (Png.width img) (Png.height img) = Val (len (Png.rgba img)).
Proof.
  intros Hb (Hw & Hh & Hl & _ & Hp). split; [split; cbn; lia|]. rewrite image_bytes_val by lia. by rewrite Hl.
Qed.

Lemma with_decoded_ready bound asset d install : ready i n d -> optional (asset_ok bound) asset ->
  (forall img, picture_ok bound img -> gives (install d img) (ready i n)) ->
  gives (with_decoded asset d install) (ready i n).
Proof.
  intros Hd Ha Hi. unfold with_decoded. destruct asset as [bs|]; [|done].
  destruct (Ha bs eq_refl) as [Hb Hl Ho Hp]. pose proof (decode_decoded bs Hb Hl) as Hdec.
  destruct (Png.decode bs) as [img| | |] eqn:E; cbn in *; try done.
  apply Hi. destruct Hdec as (Hw & Hh & Hlen & Hbytes). by repeat split; try apply Hw; try apply Hh; auto.
Qed.

Lemma load_background_ready asset slot d : ready i n d -> optional (asset_ok (2 ^ 48)) asset ->
  gives (load_background asset slot d) (ready i n).
Proof.
  intros Hd Ha. apply (with_decoded_ready (2 ^ 48)); [done..|]. intros img Hp.
  destruct (picture_image (2 ^ 48) img ltac:(lia) Hp) as [Hi E]. unfold set_background.
  destruct (slot <? 5)%nat; [|done]. rewrite E. cbn [mbind outcome_bind]. rewrite Z.leb_refl. cbn [gives].
  destruct Hd. split; try done; cbn.
  - apply Forall_insert; [done|]. by intros ? [= <-].
  - rewrite rd_cache0. apply none_insert.
Qed.

Lemma set_shared_ready d img : ready i n d -> picture_ok (2 ^ 48) img ->
  gives (set_shared_bg d (Png.width img) (Png.height img) (Png.rgba img)) (ready i n).
Proof.
  intros Hd Hp. destruct (picture_image (2 ^ 48) img ltac:(lia) Hp) as [Hi E]. unfold set_shared_bg.
  rewrite E. cbn [mbind outcome_bind]. rewrite Z.leb_refl. cbn [gives].
  destruct Hd. split; try done. by intros ? [= <-].
Qed.

(** *** The atlas *)

Lemma cell_filled_gives cov w cw ch cy cx : is_bytes cov -> 0 <= cw -> 0 <= ch -> cw * ch < 2 ^ 24 ->
  (forall y x, 0 <= y < ch -> 0 <= x < cw -> 0 <= (cy * ch + y) * w + (cx * cw + x) < len cov) ->
  gives (cell_filled cov w cw ch cy cx) (fun _ => True).
Proof.
  intros Hc Hw Hh Hb Hat. unfold cell_filled.
  apply (gives_bind _ _ (fun _ => True)); [|done].
  set (I := fun k s => 0 <= s <= 255 * (cw * k)).
  eapply gives_mono; [apply (gives_count _ I (range 0 ch) 0 0); [unfold I; lia|]|done].
  rewrite range_length by done. intros j s y Hj Hy%elem_of_range Hs.
  set (J := fun k s => 0 <= s <= 255 * (cw * j + k)).
  eapply gives_mono; [apply (gives_count _ J (range 0 cw) 0 s); [unfold J, I in *; lia|]|].
  2: { rewrite range_length by done. unfold I, J. intros s' Hs'. nia. }
  rewrite range_length by done. intros k s' x Hk Hx%elem_of_range Hs'. unfold J in *.
  eapply gives_bind; [apply nth_z_byte; [done|by apply Hat]|]. unfold is_byte. intros v Hv.
  assert (cw * j + k < 2 ^ 24) by nia. rewrite add_u32_val by lia. cbn. lia.
Qed.

Lemma set_atlas_ready d img : ready i n d -> picture_ok (2 ^ 24) img ->
  gives (set_atlas d (Png.width img) (Png.height img) (Png.rgba img)) (ready i n).
Proof.
  intros Hd Hp. destruct (picture_image (2 ^ 24) img ltac:(lia) Hp) as [_ E].
  destruct Hp as (Hw & Hh & Hl & Hb & Hn). unfold set_atlas. set (W := Png.width img) in *. set (H := Png.height img) in *.
  destruct (_ || _) eqn:Edim; [done|].
  apply orb_false_elim in Edim as [Edim H2%negb_false_iff%Z.eqb_eq].
  apply orb_false_elim in Edim as [_ H1%negb_false_iff%Z.eqb_eq].
  rewrite E. cbn [mbind outcome_bind]. rewrite Z.ltb_irrefl.
  assert (EW : W = 16 * (W / 16)) by lia. assert (EH : H = 7 * (H / 7)) by lia.
  set (cw := W / 16) in *. set (ch := H / 7) in *. assert (0 < cw /\ 0 < ch) by lia.
  apply (gives_bind _ _ (fun cov => length cov = length (range 0 (W * H)) /\ is_bytes cov)).
  { apply map_o_gives. intros k Hk%elem_of_range.
    eapply gives_bind; [apply nth_z_byte; [done|lia]|]. intros r Hr.
    eapply gives_bind; [apply nth_z_byte; [done|lia]|]. intros g Hgr.
    eapply gives_bind; [apply nth_z_byte; [done|lia]|]. intros b Hbl. cbn. unfold is_byte in *. lia. }
  intros cov [Hcl Hcb]. pose proof (range_length 0 (W * H) ltac:(nia)) as Hr.
  apply (gives_bind _ _ (fun fl => length fl = 112%nat)).
  { apply gives_fold; [done|]. intros fl cy Hcy%elem_of_range Hfl.
    apply gives_fold; [done|]. intros fl' cx Hcx%elem_of_range Hfl'.
    apply (gives_bind _ _ (fun _ => True)); [|intros f _; cbn; by rewrite length_insert].
    apply cell_filled_gives; [done|lia|lia|nia|]. intros y x Hy Hx. rewrite Hcl, Hr.
    assert (0 <= cx * cw + x < W) by nia. assert (0 <= cy * ch + y < H) by nia. nia. }
  intros fl Hfl. cbn [gives]. destruct Hd. split; try done. cbn. intros a [= <-].
  split; cbn; try done; [lia|lia|nia|]. split; [|done]. rewrite Hcl, Hr. nia.
Qed.

Lemma slot_optional a k : assets_ok a -> optional (asset_ok (2 ^ 48)) (nth k (slots a) None).
Proof.
  intros Ha. destruct (nth_in_or_default k (slots a) None) as [Hin| ->]; [|done].
  rewrite <- list_elem_of_In in Hin. by apply (proj1 (Forall_forall _ _) (ok_slots a Ha)).
Qed.

Lemma install_ready a d : assets_ok a -> ready i n d -> gives (install a d) (ready i n).
Proof.
  intros Ha Hd. unfold install.
  eapply gives_bind; [apply load_background_ready; [exact Hd|by apply slot_optional]|]. intros d1 K1.
  eapply gives_bind; [apply load_background_ready; [exact K1|by apply slot_optional]|]. intros d2 K2.
  eapply gives_bind; [apply load_background_ready; [exact K2|by apply slot_optional]|]. intros d3 K3.
  eapply gives_bind; [apply load_background_ready; [exact K3|by apply slot_optional]|]. intros d4 K4.
  eapply gives_bind; [apply load_background_ready; [exact K4|by apply slot_optional]|]. intros d5 K5.
  eapply gives_bind; [apply (with_decoded_ready (2 ^ 48)); [exact K5|apply Ha|]|].
  { intros img. by apply set_shared_ready. }
  intros d6 K6. apply (with_decoded_ready (2 ^ 24)); [exact K6|apply Ha|]. intros img. by apply set_atlas_ready.
Qed.

(** The display boot leaves is equipped and settled. *)
Lemma ready_equipped d : accepted i -> ready i n d -> equipped d.
Proof. intros Hi []. split; [by rewrite rd_info0|done..]. Qed.

Lemma ready_settled d : ready i n d -> settled d n d.
Proof.
  intros []. split; try done.
  - rewrite rd_scene0. apply zeros_clean.
  - by rewrite rd_cursor0.
  - by rewrite rd_cache0.
  - intros tint b Ht. rewrite rd_cache0. pose proof (tint_slot_bound tint).
    destruct (slot_for tint) as [|[|[|[|[|k]]]]]; done || lia.
Qed.

End Install.

(** ** Moving the pointer *)

Definition move_to (d : Display) (q : Z * Z) : outcome unit Display := move_cursor d q.1 q.2.

(** Where the pointer is after its moves. *)
Definition ends_at (p : Z * Z) (moves : list (Z * Z)) : Z * Z := default p (last moves).

Lemma ends_at_cons p q moves : ends_at p (q :: moves) = ends_at q moves.
Proof. unfold ends_at. rewrite last_cons. by destruct (last moves). Qed.

Lemma moves_presented moves : forall d p, geometry (info d) -> presented d p -> Forall at_screen moves ->
  let q := ends_at p moves in
  fold_o move_to d moves = Val (with_fb (plots (info d) (scene d) (pointer q)) (with_cursor (Some q) d)).
Proof.
  induction moves as [|q moves IH]; intros d p Hg Hp Hm; cbn zeta.
  - destruct Hp as (Hc & _ & Hf). cbn. rewrite <- Hf, <- Hc. by destruct d.
  - apply Forall_cons in Hm as [Hq Hm]. cbn [fold_o].
    pose proof (move_presented d p q Hg Hp Hq) as E. change (move_cursor d q.1 q.2) with (move_to d q) in E. rewrite E. cbn [mbind outcome_bind].
    rewrite (IH _ q) by (done || by split_and!). by rewrite ends_at_cons.
Qed.

Lemma moves_steps moves d : fold_o run_step d ((fun q => Move q.1 q.2) <$> moves) = fold_o move_to d moves.
Proof.
  revert d. induction moves as [|q moves IH]; intros d; [done|]. cbn [fmap list_fmap fold_o].
  change (run_step d (Move q.1 q.2)) with (move_to d q). destruct (move_to d q); cbn; done.
Qed.

Lemma fold_o_app {A} (f : Display -> A -> outcome unit Display) l l' : forall d,
  fold_o f d (l ++ l') = d' ← fold_o f d l; fold_o f d' l'.
Proof.
  induction l as [|x l IH]; intros d; [done|]. cbn [app fold_o]. destruct (f d x); cbn; done.
Qed.

(** ** The screen *)

(** C11: after boot has installed its bitmaps, and after any sequence of
    frames, pointer moves, boot lines and notices, rendering a frame and then
    moving the pointer along any path ends without an abort, and the hardware
    buffer is byte for byte what rendering that frame on the freshly booted
    display, with the pointer at the end of the path, shows: no earlier frame,
    cached background or pointer position leaves a trace.  The mode is one
    [main] accepts and the texts of the frames fit the address space. *)
Theorem screen_shows_last_frame (a : Assets) (buffer : bytes) (i : FbInfo) (before : list step)
    (f : Frame) (on : bool) (readout : bytes) (mouse : Z * Z) (moves : list (Z * Z)) :
  accepted i -> assets_ok a -> Forall step_fits before -> step_fits (Render f on readout mouse) ->
  Forall at_screen moves ->
  exists d0 d d', install a (init buffer i) = Val d0 /\
    fold_o run_step d0 (before ++ Render f on readout mouse :: ((fun q => Move q.1 q.2) <$> moves)) = Val d /\
    run_step d0 (Render f on readout (ends_at mouse moves)) = Val d' /\
    fb d = fb d'.
Proof.
  intros Hi Ha Hb Hf Hm.
  destruct (gives_val _ _ (install_ready i (length buffer) a _ Ha (init_ready buffer i))) as (d0 & E0 & R0).
  pose proof (ready_equipped i _ _ Hi R0) as Eq0. pose proof (ready_settled i _ _ R0) as S0.
  destruct (run_steps_settled d0 Eq0 _ before d0 S0 Hb) as (d1 & E1 & S1).
  destruct (render_settled d0 Eq0 _ d1 f on readout mouse S1 Hf) as (d2 & E2 & S2 & P2 & V2).
  assert (Hlast : at_screen (ends_at mouse moves)).
  { unfold ends_at. destruct (last moves) as [q|] eqn:El; [|by apply Hf].
    apply (proj1 (Forall_forall _ _) Hm). apply last_Some_elem_of in El. done. }
  destruct (render_settled d0 Eq0 _ d0 f on readout (ends_at mouse moves) S0) as (d3 & E3 & S3 & P3 & V3).
  { destruct Hf as (? & ? & ? & ?). by split_and!. }
  pose proof (good_info _ (settled_good d0 Eq0 _ d2 S2)) as G2.
  eexists d0, _, d3. split; [done|]. split.
  - rewrite fold_o_app, E1. cbn [mbind outcome_bind fold_o run_step]. rewrite E2. cbn [mbind outcome_bind].
    rewrite moves_steps. by apply (moves_presented moves d2 mouse).
  - split; [done|]. cbn [fb with_fb]. destruct P3 as (_ & _ & ->).
    rewrite (picture_functional _ _ _ _ _ _ _ V2 V3).
    by rewrite (al_info _ _ (st_alike _ _ _ S2)), (al_info _ _ (st_alike _ _ _ S3)).
Qed.

(** Presenting a scene and then moving the pointer along any path leaves
    the display, hardware buffer included, exactly as presenting the scene
    with the pointer at the end of the path would. *)
Theorem pointer_leaves_no_trail (d : Display) (p : Z * Z) (moves : list (Z * Z)) :
  geometry (info d) -> length (fb d) = length (scene d) -> at_screen p -> Forall at_screen moves ->
  exists d', (d1 ← present d p; fold_o move_to d1 moves) = Val d' /\ present d (ends_at p moves) = Val d'.
Proof.
  intros Hg Hl Hp Hm. rewrite (present_eq d p) by done. cbn [mbind outcome_bind].
  assert (Hlast : at_screen (ends_at p moves)).
  { unfold ends_at. destruct (last moves) as [q|] eqn:El; [|done].
    apply (proj1 (Forall_forall _ _) Hm). by apply last_Some_elem_of in El. }
  rewrite (present_eq d (ends_at p moves)) by done.
  rewrite (moves_presented moves _ p); [|done|by split_and!|done]. eexists. by split.
Qed.

(** ** Rectangles *)

(** The pixels of a screen do not overlap and all lie in the buffer. *)
Record laid_out (i : FbInfo) (n : nat) : Prop := {
  lo_geo : geometry i;
  lo_pitch : width i * bpp i <= pitch i;
  lo_size : pitch i * height i <= Z.of_nat n
}.

Section Pixels.
Context (i : FbInfo) (n : nat) (Hi : laid_out i n).

Lemma laid_visible x y : 0 <= x < width i -> 0 <= y < height i -> visible i (Z.of_nat n) x y = true.
Proof.
  intros Hx Hy. destruct Hi as [[] Hp Hs]. unfold visible, offset.
  rewrite !(proj2 (Z.ltb_lt _ _)) by lia. rewrite (proj2 (Z.leb_le _ _)); [done|]. nia.
Qed.

Lemma laid_apart x y x' y' : 0 <= x < width i -> 0 <= y -> 0 <= x' < width i -> 0 <= y' ->
  (x, y) <> (x', y') -> offset i x y + 3 <= offset i x' y' \/ offset i x' y' + 3 <= offset i x y.
Proof.
  intros Hx Hy Hx' Hy' Hne. destruct Hi as [[] Hp Hs]. unfold offset.
  assert (y < y' \/ y' < y \/ (y = y' /\ x < x') \/ (y = y' /\ x' < x)) as [H|[H|[[-> H]|[-> H]]]].
  { destruct (Z.lt_total y y') as [?|[->|?]]; [lia| |lia].
    destruct (Z.lt_total x x') as [?|[->|?]]; [lia|done|lia]. }
  all: [> left | right | left | right]; nia.
Qed.

(** What a pixel holds after writes of one colour. *)
Lemma plots_colour c l b x y : length b = n -> is_rgb c -> 0 <= x < width i -> 0 <= y < height i ->
  (forall q, q ∈ l -> q.2 = c /\ 0 <= q.1.1 < width i /\ 0 <= q.1.2 < height i) ->
  forall k, offset i x y <= Z.of_nat k < offset i x y + 3 ->
  plots i b l !! k =
    if decide ((x, y, c) ∈ l) then channels i c !! (k - Z.to_nat (offset i x y))%nat else b !! k.
Proof.
  intros Hb Hc Hx Hy Hl k Hk. pose proof (lo_geo _ _ Hi) as Hg.
  induction l as [|q l IH] using rev_ind.
  { rewrite decide_False by apply not_elem_of_nil. done. }
  assert (Hl' : forall q, q ∈ l -> q.2 = c /\ 0 <= q.1.1 < width i /\ 0 <= q.1.2 < height i).
  { intros q' Hq'. apply Hl. apply elem_of_app. by left. }
  destruct (Hl q) as (Eq & Hqx & Hqy); [apply elem_of_app; right; by left|].
  destruct q as [[qx qy] qc]. cbn in Eq, Hqx, Hqy. subst qc.
  assert (Hgrid : Forall on_grid l).
  { apply Forall_forall. intros [[px py] pc] Hp. destruct (Hl' _ Hp) as (E & ? & ?). cbn in *. subst. by split_and!; cbn; try lia. }
  assert (Hlen : length (plots i b l) = n) by (by rewrite plots_length).
  rewrite plots_app. cbn [plots foldl].
  change (foldl (plot i) (plots i b l) [(qx, qy, c)]) with (plot i (plots i b l) (qx, qy, c)).
  destruct (decide ((qx, qy) = (x, y))) as [E|E].
  - injection E as Ex Ey. subst qx qy. rewrite plot_covered; try done; try lia.
    + by rewrite decide_True by (apply elem_of_app; right; by left).
    + split; [rewrite Hlen; by apply laid_visible|done].
  - rewrite plot_outside; try done; try lia.
    + rewrite IH by done. destruct (decide ((x, y, c) ∈ l)) as [Hin|Hin].
      * by rewrite decide_True by (apply elem_of_app; by left).
      * rewrite decide_False; [done|]. intros [?|[E'|[]%elem_of_nil]%elem_of_cons]%elem_of_app; [done|]. congruence.
    + intros [_ Hk']. pose proof (laid_apart x y qx qy). lia || (destruct (laid_apart x y qx qy); try done; lia).
Qed.

Lemma get_px_eq b x y v : length b = n -> is_rgb v -> 0 <= x < width i -> 0 <= y < height i ->
  (forall k, offset i x y <= Z.of_nat k < offset i x y + 3 ->
    b !! k = channels i v !! (k - Z.to_nat (offset i x y))%nat) -> get_px b i x y = Val v.
Proof.
  intros Hb Hv Hx Hy Hk. pose proof (lo_geo _ _ Hi) as Hg. unfold get_px. rewrite pixel_at_val by done. cbn [mbind outcome_bind].
  pose proof (offset_pos i x y Hg (proj1 Hx) (proj1 Hy)) as Ho.
  pose proof (laid_visible x y Hx Hy) as Hvis. unfold visible in Hvis. bools.
  rewrite (proj2 (Z.ltb_ge _ _)) by lia. unfold nth_z. rewrite !Hk by lia.
  replace (Z.to_nat (offset i x y) - Z.to_nat (offset i x y))%nat with 0%nat by lia.
  replace (Z.to_nat (offset i x y + 1) - Z.to_nat (offset i x y))%nat with 1%nat by lia.
  replace (Z.to_nat (offset i x y + 2) - Z.to_nat (offset i x y))%nat with 2%nat by lia.
  destruct v as [[r g] bl]. unfold channels. by destruct (bgr i).
Qed.

End Pixels.

(** The pixels of a rectangle on the screen. *)
Definition rect_pixels (i : FbInfo) (x y w h : Z) (c : Rgb) : list (Z * Z * Rgb) :=
  concat ((fun yy => concat ((fun xx => [(xx, yy, c)]) <$> range x (Z.min (x + w) (width i))))
    <$> range y (Z.min (y + h) (height i))).

Definition in_rect (x y w h px py : Z) : bool := (x <=? px) && (px <? x + w) && (y <=? py) && (py <? y + h).

Lemma elem_of_rect i x y w h c q : q ∈ rect_pixels i x y w h c <->
  q.2 = c /\ x <= q.1.1 < Z.min (x + w) (width i) /\ y <= q.1.2 < Z.min (y + h) (height i).
Proof.
  unfold rect_pixels. rewrite list_elem_of_In, in_concat. split.
  - intros (row & Hrow & Hq). rewrite <- list_elem_of_In in Hrow.
    apply list_elem_of_fmap in Hrow as (yy & -> & Hyy%elem_of_range).
    apply in_concat in Hq as (cell & Hcell & Hq). rewrite <- list_elem_of_In in Hcell.
    apply list_elem_of_fmap in Hcell as (xx & -> & Hxx%elem_of_range). destruct Hq as [<-|[]]. done.
  - destruct q as [[px py] pc]. cbn. intros (-> & Hx & Hy).
    eexists. rewrite <- list_elem_of_In. split.
    + apply list_elem_of_fmap. exists py. split; [done|]. by apply elem_of_range.
    + apply in_concat. exists [(px, py, c)]. rewrite <- list_elem_of_In. split; [|by left].
      apply list_elem_of_fmap. exists px. split; [done|]. by apply elem_of_range.
Qed.

Lemma fill_rect_eq d x y w h c : geometry (info d) -> sane x -> sane y -> sane w -> sane h ->
  fill_rect d x y w h c = Val (with_scene (plots (info d) (scene d) (rect_pixels (info d) x y w h c)) d).
Proof.
  intros Hg Hx Hy Hw Hh. unfold fill_rect, draw. calc. unfold rect_pixels.
  rewrite (fold_plots (info d) _ (fun yy => concat ((fun xx => [(xx, yy, c)]) <$> range x (Z.min (x + w) (width (info d))))));
    [done|].
  intros yy s Hyy%elem_of_range.
  apply (fold_plots (info d) (fun s xx => put s (info d) xx yy c)). intros xx s' Hxx%elem_of_range.
  rewrite put_val by (done || sane). done.
Qed.

(** On a mode whose pixels are laid out apart in the buffer, filling a
    rectangle ends, gives each pixel of the screen inside it the colour, and
    leaves every other pixel, and the rest of the display, as they were; the
    part of the rectangle off the screen is clipped. *)
Theorem fill_rect_exact (d : Display) (x y w h : Z) (c : Rgb) :
  laid_out (info d) (length (scene d)) -> is_bytes (scene d) -> is_rgb c ->
  sane x -> sane y -> sane w -> sane h ->
  exists s, fill_rect d x y w h c = Val (with_scene s d) /\ length s = length (scene d) /\
    forall px py, 0 <= px < width (info d) -> 0 <= py < height (info d) ->
      get_px s (info d) px py =
        if in_rect x y w h px py then Val c else get_px (scene d) (info d) px py.
Proof.
  intros Hi Hb Hc Hx Hy Hw Hh. set (i := info d) in *. pose proof (lo_geo _ _ Hi) as Hg.
  eexists. split; [by apply fill_rect_eq|]. fold i. set (l := rect_pixels _ _ _ _ _ _).
  assert (Hl : forall q, q ∈ l -> q.2 = c /\ 0 <= q.1.1 < width i /\ 0 <= q.1.2 < height i).
  { intros q (E & ? & ?)%elem_of_rect. split_and!; try done; sane. }
  assert (Hgrid : Forall on_grid l).
  { apply Forall_forall. intros [[px py] pc] Hp. destruct (Hl _ Hp) as (E & ? & ?). cbn in *. subst.
    split_and!; cbn; done || lia. }
  assert (Hlen : length (plots i (scene d) l) = length (scene d)) by (by apply plots_length).
  split; [done|]. intros px py Hpx Hpy.
  pose proof (plots_colour i _ Hi c l (scene d) px py eq_refl Hc Hpx Hpy Hl) as Hk.
  destruct (in_rect x y w h px py) eqn:Ein.
  - unfold in_rect in Ein. rewrite !andb_true_iff, !Z.leb_le, !Z.ltb_lt in Ein.
    apply (get_px_eq i (length (scene d))); try done. intros k Hr. rewrite Hk by done.
    rewrite decide_True; [done|]. apply elem_of_rect. cbn. split; [done|lia].
  - destruct (gives_val _ _ (get_px_gives (scene d) i px py Hg Hb Hpx Hpy)) as (v & Ev & Hv).
    assert (Hout : (px, py, c) ∉ l).
    { intros (_ & H1 & H2)%elem_of_rect. cbn in H1, H2.
      assert (E : in_rect x y w h px py = true); [|congruence]. unfold in_rect.
      by rewrite !(proj2 (Z.leb_le _ _)), !(proj2 (Z.ltb_lt _ _)) by lia. }
    unfold get_px. rewrite pixel_at_val by done. cbn [mbind outcome_bind]. rewrite Hlen.
    pose proof (offset_pos i px py Hg (proj1 Hpx) (proj1 Hpy)) as Ho. unfold nth_z.
    rewrite !Hk by lia. by rewrite !decide_False by done.
Qed.

(** ** Witnesses *)

Definition sample_mode : FbInfo := mk_info 1024 768 4096 4 true.

Lemma sample_mode_accepted : accepted sample_mode.
Proof. by repeat split. Qed.

Lemma pixel_file_ok : asset_ok (2 ^ 48) pixel_file.
Proof.
  split.
  - apply Forall_forall. intros b Hb.
    assert (Hall : forallb (fun b => (0 <=? b) && (b <? 256)) pixel_file = true) by (by vm_compute).
    rewrite forallb_forall in Hall. apply list_elem_of_In, Hall in Hb. unfold is_byte. bools. lia.
  - by vm_compute.
  - intros (c & ch & E & E' & H).
    assert (Ew : Png.ck_width c = 1 /\ Png.ck_height c = 1).
    { assert (F : (fun r => match r with Val c => (Png.ck_width c, Png.ck_height c) | _ => (0, 0) end)
        (Png.read_chunks (length pixel_file) pixel_file 8 Png.no_chunks) = (1, 1)) by (by vm_compute).
      cbv beta in F. rewrite E in F. by injection F. }
    destruct Ew as [E1 E2]. rewrite E1, E2 in H. assert (ch <= 4).
    { revert E'. unfold Png.channels_of. intros E'. repeat case_match; simplify_eq; lia. }
    lia.
  - intros img E.
    assert (F : (fun r => match r with Val img => (Png.width img, Png.height img) | _ => (0, 0) end)
      (Png.decode pixel_file) = (1, 1)) by (by vm_compute).
    cbv beta in F. rewrite E in F. injection F as -> ->. lia.
Qed.

(** A shared background and one of its own for the second view. *)
Definition sample_assets : Assets := mk_assets [None; Some pixel_file] (Some pixel_file) None.

Lemma sample_assets_ok : assets_ok sample_assets.
Proof.
  split.
  - apply Forall_cons. split; [done|]. apply Forall_cons. split; [|by apply Forall_nil_2].
    intros a [= <-]. apply pixel_file_ok.
  - intros a [= <-]. apply pixel_file_ok.
  - done.
Qed.

(** The table list with one table under the cursor, and a prompt. *)
Definition sample_list : Frame :=
  mk_frame (str "TableList") C_BG_LIST
    [line (str "[Enter] open") Dim; mk_line (str "people") Selected (Activate 0); line (str "rows") Accent]
    (str "ready") [(1, 2, 10, C_CELL_SEL_FILL)] None.
Definition sample_prompt : Frame :=
  mk_frame (str "Prompt") C_BG_BROWSER [line (str "Name") Normal; line (str "bad name") Error] [] [] (Some (0, 3)).

Lemma sample_frames_fit : frame_fits sample_list /\ frame_fits sample_prompt.
Proof.
  split; split; cbn [title status body cell_hls cursor sample_list sample_prompt].
  1, 2, 6, 7: by vm_compute.
  - split; [by vm_compute|]. by repeat (apply Forall_cons; split; [by vm_compute|]).
  - apply Forall_cons. split; [|by apply Forall_nil_2]. split; [by vm_compute|]. split; [by vm_compute|rgb].
  - done.
  - split; [by vm_compute|]. by repeat (apply Forall_cons; split; [by vm_compute|]).
  - by apply Forall_nil_2.
  - intros cl cc [= <- <-]. by vm_compute.
Qed.

Definition sample_buffer : bytes := replicate (Z.to_nat 3145728) 7.

Lemma screen_shows_last_frame_witness :
  exists d0 d d', install sample_assets (init sample_buffer sample_mode) = Val d0 /\
    fold_o run_step d0
      ([BootStatus 30 (str "loading"); Render sample_prompt true (str "T+1s") (3, 3); Move 500 400] ++
       Render sample_list false (str "T+2s") (500, 400) :: ((fun q => Move q.1 q.2) <$> [(510, 390); (1020, 767)])) = Val d /\
    run_step d0 (Render sample_list false (str "T+2s") (ends_at (500, 400) [(510, 390); (1020, 767)])) = Val d' /\
    fb d = fb d'.
Proof.
  destruct sample_frames_fit as [F1 F2].
  apply (screen_shows_last_frame sample_assets sample_buffer sample_mode).
  - apply sample_mode_accepted.
  - apply sample_assets_ok.
  - apply Forall_cons. split; [by vm_compute|]. apply Forall_cons. split.
    + split; [exact F2|]. split; [right; left|]. by split; [vm_compute|split; vm_compute].
    + apply Forall_cons. split; [by split; vm_compute|by apply Forall_nil_2].
  - split; [exact F1|]. split; [left|]. by split; [vm_compute|split; vm_compute].
  - apply Forall_cons. split; [by split; vm_compute|]. apply Forall_cons. split; [by split; vm_compute|by apply Forall_nil_2].
Defined.

(** A 20 by 26 display whose hardware buffer holds garbage. *)
Definition small_mode : FbInfo := mk_info 20 26 80 4 true.
Definition small_display : Display :=
  mk_display (replicate 2080 9) (replicate 2080 50) small_mode None [] None None [].

Lemma pointer_leaves_no_trail_witness :
  exists d', (d1 ← present small_display (3, 3); fold_o move_to d1 [(7, 9); (15, 1)]) = Val d' /\
    present small_display (ends_at (3, 3) [(7, 9); (15, 1)]) = Val d'.
Proof.
  apply (pointer_leaves_no_trail small_display (3, 3) [(7, 9); (15, 1)]).
  - by repeat split.
  - by vm_compute.
  - by split; vm_compute.
  - apply Forall_cons. split; [by split; vm_compute|]. apply Forall_cons. split; [by split; vm_compute|by apply Forall_nil_2].
Defined.

Lemma fill_rect_exact_witness :
  exists s, fill_rect small_display 15 20 10 3 C_ERR = Val (with_scene s small_display) /\
    length s = length (scene small_display) /\
    forall px py, 0 <= px < width small_mode -> 0 <= py < height small_mode ->
      get_px s small_mode px py =
        if in_rect 15 20 10 3 px py then Val C_ERR else get_px (scene small_display) small_mode px py.
Proof.
  apply (fill_rect_exact small_display 15 20 10 3 C_ERR).
  - split; [by repeat split|by vm_compute|by vm_compute].
  - apply Forall_replicate. by split; vm_compute.
  - by split_and!; vm_compute.
  - by split; vm_compute.
  - by split; vm_compute.
  - by split; vm_compute.
  - by split; vm_compute.
Defined.
