(* ===== verification/Frames.v ===== *)
(** * The frame of each screen

    [build_frame] and the [frame_*] of [kernel/src/ui.rs]: what each screen
    shows of the store, the lines a click can hit, and the loop of [run] that
    drains the input and repaints.  [hitmap] is recorded by every render; the
    drawing of the frame is in [Render]. *)

From stdpp Require Import gmap.
From S2P Require Import Prelude Types Bignum Value Codec Schema Block Journal Pager Store Ps2 UiText Builder App Screens Ui.
From S2P Require Import Framebuffer.

Module Frames.
Import Store Text App Screens Ui.

(** ** Formatting *)

(** [{:<n}] and [{:>n}] *)
Definition spaces (n : Z) : bytes := replicate (Z.to_nat n) 32.
Definition pad_right (s : bytes) (n : Z) : bytes := s ++ spaces (n - count s).
Definition pad_left (s : bytes) (n : Z) : bytes := spaces (n - count s) ++ s.

Definition bar (s : bytes) : TextLine := with_hit Shortcuts (line s Dim).
Definition blank : TextLine := line [] Normal.
Definition lit (b : bool) (k : LineKind) : LineKind := if b then Selected else k.
Definition row_kind (i sel : nat) : LineKind := lit (i =? sel)%nat Normal.
Definition null_text : bytes := str "NULL".
(** Two double quotes. *)
Definition empty_text : bytes := [34; 34].

Definition BUILDER_WRAP : Z := 60.
Definition HEAD : Z := 17.

Section Machine.
Context {D H : Type} `{!BlockDevice D, !Hardware H}.
Abbreviation app := (App.t (D := D) (H := H)) (only parsing).
Abbreviation M := (stM app Stop) (only parsing).
Abbreviation Screen := (App.Screen (H := H)) (only parsing).

(** ** The table list and the browser *)

Definition table_line (sel i : nat) (t : TableInfo.t) : TextLine :=
  with_hit (Activate (Z.of_nat i))
    (line (pad_right (TableInfo.name t) 28 ++ str " " ++ pad_left (fmt_u64 (TableInfo.columns t)) 3 ++
           str " cols  " ++ pad_left (fmt_u64 (TableInfo.rows t)) 8 ++ str " rows") (row_kind i sel)).

Definition frame_list (status : bytes) : M Frame :=
  s ← get_top;
  let sel := match s with List sel => sel | _ => 0%nat end in
  r ← ask list_tables;
  let tables := unwrap_or [] r in
  mret (mk_frame (str "TablesOS — Table List") Framebuffer.C_BG_LIST
    ([bar (str "Tables  [↑↓] select  [Enter] open  [c]reate  [d]rives  [p]ci  [n]ew OS on USB  [a]bout  [s]hutdown");
      blank] ++
     (match tables with [] => [line (str "(no tables yet — press 'c' to create one)") Dim] | _ => [] end) ++
     imap (table_line sel) tables)
    status [] None).

Definition content_w (widths : list Z) (ci : nat) : Z := default DEFAULT_COL_W (widths !! ci).

Definition sort_mark (sort : option (nat * bool)) (ci : nat) : bytes :=
  match sort with
  | Some (sc, asc) => if (sc =? ci)%nat then if asc then str " ↑" else str " ↓" else []
  | None => []
  end.

Definition header_cell (t : Table.t) (widths : list Z) (sort : option (nat * bool)) (c : nat * Column.t) :
    outcome unit bytes :=
  let '(ci, c) := c in
  let fk_mark := if existsb (fun f => str_eqb (ForeignKey.from_col f) (Column.name c)) (Table.fks t) then str "*" else [] in
  cell_pad (Column.name c ++ fk_mark ++ sort_mark sort ci) (content_w widths ci).

(** The labels of the rows a foreign key can refer to, by the text of the key. *)
Definition label_map (target : Table.t) (trows : list (RowId.t * list cell)) (tci : nat) :
    outcome unit (gmap bytes bytes) :=
  fold_o (fun m '(_, trow) =>
    match cell_at trow tci with
    | Some key => l ← Table.reference_label target trow; Val (<[Value.display key := l]> m)
    | None => Val m
    end) ∅ trows.

Definition fk_cell_label (t : Table.t) (fk : ForeignKey.t) : M (list (nat * gmap bytes bytes)) :=
  match Table.column_index t (ForeignKey.from_col fk) with
  | None => mret []
  | Some fci =>
      target ← ask_ok (get_table (ForeignKey.to_table fk));
      trows ← ask_ok (scan (ForeignKey.to_table fk));
      m ← match target, trows with
        | Some target, Some trows =>
            match Table.column_index target (ForeignKey.to_col fk) with
            | Some tci => pure (label_map target trows tci)
            | None => mret ∅
            end
        | _, _ => mret ∅
        end;
      mret [(fci, m)]
  end.

Definition cell_text (labels : list (nat * gmap bytes bytes)) (ci : nat) (c : cell) : bytes :=
  match c with
  | None => null_text
  | Some (Value.Str []) => empty_text
  | Some v =>
      match List.find (fun p : nat * gmap bytes bytes => (p.1 =? ci)%nat) labels with
      | Some (_, m) => default (Value.display v) (m !! Value.display v)
      | None => Value.display v
      end
  end.

Definition row_line (labels : list (nat * gmap bytes bytes)) (widths : list Z) (row : nat)
    (r : nat * (RowId.t * list cell)) : outcome unit TextLine :=
  let '(vi, (_, cells)) := r in
  parts ← map_o (fun '(ci, c) => cell_pad (cell_text labels ci c) (content_w widths ci)) (enumerate cells);
  Val (with_hit (Activate (Z.of_nat vi)) (line (concat parts) (row_kind vi row))).

(** The columns before [col], each with its gap. *)
Definition col_x (widths : list Z) (col : nat) : Z :=
  foldr Z.add 0 ((fun ci => content_w widths ci + 1) <$> seq 0 col).

Definition frame_browser (status : bytes) : M Frame :=
  s ← get_top;
  match s with
  | Browser table row col top filter sort =>
      schema ← ask_ok (get_table table);
      let widths := from_option (fun t => default DEFAULT_COL_W ∘ Column.display_width <$> Table.columns t) [] schema in
      hdr ← match schema with
        | Some t => cells ← pure (map_o (header_cell t widths sort) (enumerate (Table.columns t)));
                    mret [line (concat cells) Accent]
        | None => mret []
        end;
      labels ← match schema with
        | Some t => l ← for_collect (Table.fks t) (fk_cell_label t); mret (concat l)
        | None => mret []
        end;
      vis ← visible_rows;
      rows ← cached_rows table filter sort;
      let shown := take vis (drop top (enumerate rows)) in
      rls ← pure (map_o (row_line labels widths row) shown);
      let pre := bar (str "[↑↓←→] cell  [PgUp/Dn] page  [Enter] row  [i]nsert [u]pdate [d]elete  [o]rder  [s]chema  [Esc] back") :: hdr in
      let hl li := (li, col_x widths col, content_w widths col + 1, Framebuffer.C_CELL_SEL_FILL) in
      let hdr_hl := match hdr with [] => [] | _ => [hl 1] end in
      let row_hl := match position (fun p : nat * (RowId.t * list cell) => (p.1 =? row)%nat) shown with
        | Some k => [hl (len pre + Z.of_nat k)]
        | None => []
        end in
      let title := match filter with
        | Some (c, v) => str "Browser — " ++ table ++ str "  (filtered: " ++ c ++ str " = " ++ trunc (Value.display v) 24 ++ str ")"
        | None => str "Browser — " ++ table
        end in
      mret (mk_frame title Framebuffer.C_BG_BROWSER
        (pre ++ rls ++ (match rows with [] => [line (str "(no rows)") Dim] | _ => [] end))
        status (hdr_hl ++ row_hl) None)
  | _ => pure Panic
  end.

(** ** The row view *)

Definition value_lines (labels : list (nat * bytes)) (row : list cell) (c : nat * Column.t) :
    outcome unit (list TextLine) :=
  let '(ci, c) := c in
  let val := match cell_at row ci with Some v => Value.display v | None => null_text end in
  let fk_note := match List.find (fun p : nat * bytes => (p.1 =? ci)%nat) labels with
    | Some (_, l) => str "  → " ++ l
    | None => []
    end in
  chunks ← wrap val 70;
  Val (imap (fun li chunk =>
    let label := match li with O => Column.name c ++ str " (" ++ Ty.name (Column.ty c) ++ str "): " | _ => str "    " end in
    let note := match li with O => fk_note | _ => [] end in
    line (label ++ chunk ++ note) Normal) chunks).

Definition frame_rowview (status : bytes) : M Frame :=
  s ← get_top;
  match s with
  | RowView table id sel =>
      t ← ask_ok (get_table table);
      row ← ask_ok (get_row table id);
      labels ← fk_field_labels table id;
      values ← match t, row with
        | Some t, Some row => l ← pure (map_o (value_lines labels row) (enumerate (Table.columns t))); mret (concat l)
        | _, _ => mret []
        end;
      targets ← nav_targets table id;
      mret (mk_frame (str "Row View — " ++ table) Framebuffer.C_BG_ROW
        ([bar (str "[↑↓] target  [Enter] navigate  [Esc] back"); blank] ++ values ++
         [blank; line (str "Relationships / Referenced by:") Accent] ++
         imap (fun i (p : bytes * (bytes * bytes * Value.t)) =>
           with_hit (Activate (Z.of_nat i)) (line p.1 (row_kind i sel))) targets)
        status [] None)
  | _ => pure Panic
  end.

(** ** The row editor *)

(** The lines so far and the caret. *)
Definition editor_line (ed : Editor.t) (acc : list TextLine * option (Z * Z)) (p : nat * Column.t) :
    outcome unit (list TextLine * option (Z * Z)) :=
  let '(body, cur) := acc in
  let '(i, c) := p in
  f ← or_panic (Editor.fields ed !! i);
  let focused := (Editor.focus ed =? i)%nat in
  let nullbox := if Column.nullable c then if Field.is_null f then str "[x] NULL" else str "[ ] NULL" else str "        " in
  let shown := if Field.is_null f then [] else Field.value f in
  let prefix := pad_right (Column.name c) 16 ++ str " " ++ pad_right (Ty.name (Column.ty c)) 14 ++ str " " ++ nullbox ++ str " : " in
  '(view, cur) ← (if focused then
    '(v, col) ← field_view shown (Field.caret f) 48;
    Val (v, Some (len body, count prefix + col))
  else Val (trunc shown 48, cur));
  let body := body ++ [with_hit (Focus (Z.of_nat i)) (line (prefix ++ view) (lit focused Normal))] in
  let body := match Editor.error ed with
    | Some (ei, msg) => if (ei =? i)%nat then body ++ [line (str "    ⮡ " ++ msg) Text.Error] else body
    | None => body
    end in
  Val (body, cur).

Definition frame_editor (status : bytes) : M Frame :=
  s ← get_top;
  match s with
  | EditorScreen ed =>
      let nfields := length (Editor.cols ed) in
      let pre := [bar (str "[Tab/↑↓] field  [←→] caret  [Home/End]  type to edit  [Del] NULL  [PgDn] builder  [Enter] OK  [Esc] cancel"); blank] in
      '(body, cur) ← pure (fold_o (editor_line ed) (pre, None) (enumerate (Editor.cols ed)));
      let what := match Editor.id ed with Some _ => str "Update" | None => str "Insert" end in
      mret (mk_frame (str "Row Editor (" ++ what ++ str ") — " ++ Editor.table ed) Framebuffer.C_BG_EDIT
        (body ++
         [blank;
          with_hit (Activate (Z.of_nat nfields)) (line (str "[ OK ]") (lit (Editor.focus ed =? nfields)%nat Accent));
          with_hit (Activate (Z.of_nat nfields + 1)) (line (str "[ Cancel ]") (lit (Editor.focus ed =? nfields + 1)%nat Normal))])
        status [] cur)
  | _ => pure Panic
  end.

(** ** The value builder *)

Definition builder_part (b : FieldBuilder.t) (acc : list TextLine * option (Z * Z)) (p : nat * PartField.t) :
    outcome unit (list TextLine * option (Z * Z)) :=
  let '(body, cur) := acc in
  let '(i, f) := p in
  let focused := FieldBuilder.focus b =? Z.of_nat i in
  let kind := lit focused Normal in
  let hit := Focus (Z.of_nat i) in
  if PartId.is_sign (PartField.id f) then
    let shown := if PartField.neg f then str "-" else str "+" in
    Val (body ++ [with_hit hit (line (pad_right (PartField.label f) 14 ++ str " : " ++ shown) kind)],
         if focused then Some (len body, HEAD + count shown) else cur)
  else
    let prefix := if bool_decide (PartField.id f = PartId.Year) && PartField.neg f then str "-" else [] in
    chunks ← wrap (prefix ++ PartField.buf f) BUILDER_WRAP;
    let cur :=
      if focused then
        let pos := count prefix + PartField.caret f in
        let '(chunk_i, col) :=
          if len chunks <=? pos / BUILDER_WRAP then (len chunks - 1, BUILDER_WRAP)
          else (pos / BUILDER_WRAP, pos mod BUILDER_WRAP) in
        Some (len body + chunk_i, HEAD + col)
      else cur in
    Val (body ++ imap (fun ci chunk =>
      let head := match ci with O => pad_right (PartField.label f) 14 ++ str " : " | _ => spaces HEAD end in
      with_hit hit (line (head ++ chunk) kind)) chunks, cur).

Definition builder_hint (b : FieldBuilder.t) : bytes :=
  if FieldBuilder.has_now b then
    str "[Tab/↑↓] field  [←→ Home/End] caret  type to edit  [n] = current value  [Enter] OK  [Esc] cancel"
  else if FieldBuilder.has_next b then
    str "[Tab/↑↓] field  [←→ Home/End] caret  type to edit  [n] = max+1  [Enter] OK  [Esc] cancel"
  else str "[Tab/↑↓] field  [←→ Home/End] caret  type to edit  [Enter] OK  [Esc] cancel".

Definition button (b : FieldBuilder.t) (i : Z) (label : bytes) (k : LineKind) : TextLine :=
  with_hit (Activate i) (line label (lit (FieldBuilder.focus b =? i) k)).

Definition frame_builder (status : bytes) : M Frame :=
  s ← get_top;
  match s with
  | App.Builder b =>
      let pre := [bar (builder_hint b);
        line (str "Editing '" ++ FieldBuilder.col_name b ++ str "' (" ++ Ty.name (FieldBuilder.ty b) ++ str ")") Accent; blank] in
      '(body, cur) ← pure (fold_o (builder_part b) (pre, None) (enumerate (FieldBuilder.fields b)));
      preview ← pure (wrap (FieldBuilder.compose b) BUILDER_WRAP);
      mret (mk_frame
        (str "Field builder — " ++ FieldBuilder.col_name b ++ str " (" ++ Ty.name (FieldBuilder.ty b) ++ str ")")
        Framebuffer.C_BG_EDIT
        (body ++ [blank] ++
         imap (fun ci chunk => line ((match ci with O => str "Preview: " | _ => str "         " end) ++ chunk) Dim) preview ++
         (match FieldBuilder.error b with Some msg => [line (str "⮡ " ++ msg) Text.Error] | None => [] end) ++ [blank] ++
         (match FieldBuilder.now_index b with Some ni => [button b ni (str "[ Now ]") Accent] | None => [] end) ++
         (match FieldBuilder.next_index b with
          | Some xi =>
              [button b xi (match FieldBuilder.next_value b with
                            | Some v => str "[ Next: " ++ v ++ str " ]" | None => str "[ Next ]" end) Accent]
          | None => []
          end) ++
         [button b (FieldBuilder.ok_index b) (str "[ OK ]") Accent;
          button b (FieldBuilder.cancel_index b) (str "[ Cancel ]") Normal])
        status [] cur)
  | _ => pure Panic
  end.

(** ** The schema editor *)

Definition schema_line (sel i : nat) (c : Column.t) : TextLine :=
  let width := match Column.display_width c with Some w => fmt_u64 w | None => str "default" end in
  with_hit (Focus (Z.of_nat i))
    (line (pad_right (Column.name c) 20 ++ str " " ++ pad_right (Ty.name (Column.ty c)) 14 ++ str " " ++
           (if Column.nullable c then str "NULL    " else str "NOT NULL") ++ str " " ++
           pad_right (if Column.unique c then str "UNIQUE" else []) 6 ++ str " w:" ++ width) (row_kind i sel)).

Definition fk_line (f : ForeignKey.t) : TextLine :=
  line (str "  " ++ ForeignKey.name f ++ str " : " ++ ForeignKey.from_col f ++ str " → " ++
        ForeignKey.to_table f ++ str "." ++ ForeignKey.to_col f) Normal.

Definition frame_schema (status : bytes) : M Frame :=
  s ← get_top;
  match s with
  | SchemaScreen table sel =>
      t ← ask_ok (get_table table);
      mret (mk_frame (str "Schema Editor — " ++ table) Framebuffer.C_BG_SCHEMA
        ([bar (str "[a]dd [r]ename [x]drop col [u]niq [w]idth [,/.] reorder [k]add fk [K]drop fk [R]ef cols [D]rop table [Esc]back");
          blank] ++
         match t with
         | Some t =>
             imap (schema_line sel) (Table.columns t) ++ [blank; line (str "Foreign keys:") Accent] ++
             (match Table.fks t with [] => [line (str "  (none)") Dim] | _ => [] end) ++ (fk_line <$> Table.fks t)
         | None => []
         end)
        status [] None)
  | _ => pure Panic
  end.

Definition refcol_line (order : list bytes) (sel i : nat) (c : Column.t) : TextLine :=
  let mark := match position (str_eqb (Column.name c)) order with
    | Some p => str "[" ++ fmt_u64 (Z.of_nat p + 1) ++ str "]"
    | None => str "[ ]"
    end in
  with_hit (Activate (Z.of_nat i))
    (line (pad_right mark 4 ++ str " " ++ pad_right (Column.name c) 20 ++ str " " ++ Ty.name (Column.ty c)) (row_kind i sel)).

Definition label_preview (order : list bytes) (t : option Table.t) : outcome unit bytes :=
  match order, t with
  | _ :: _, _ => Val (join (str " ") order)
  | [], Some t =>
      names ← map_o (fun ci => c ← or_panic (Table.columns t !! ci); Val (Column.name c)) (Table.ref_col_indices t);
      Val (match names with [] => str "(no columns)" | _ => str "(auto) " ++ join (str " ") names end)
  | [], None => Val []
  end.

Definition frame_refcols (status : bytes) : M Frame :=
  s ← get_top;
  match s with
  | RefCols table order sel =>
      t ← ask_ok (get_table table);
      preview ← pure (label_preview order t);
      mret (mk_frame (str "Reference Columns — " ++ table) Framebuffer.C_BG_SCHEMA
        ([bar (str "[↑↓] column  [Enter/Space] toggle  [,/.] reorder  [c]lear  [Esc] back"); blank;
          line (str "Reference columns — this row's label wherever it is referenced elsewhere.") Accent; blank] ++
         (match t with Some t => imap (refcol_line order sel) (Table.columns t) | None => [] end) ++
         [blank; line (str "Label order: " ++ preview) Accent])
        status [] None)
  | _ => pure Panic
  end.

(** ** The small screens *)

Definition frame_prompt (status : bytes) : M Frame :=
  s ← get_top;
  match s with
  | Prompt title buf caret _ =>
      mret (mk_frame (str "Input") Framebuffer.C_BG_LIST
        [blank; line title Accent; line (str "> " ++ buf) Normal; blank;
         bar (str "[←→ Home/End] move   [Enter] accept   [Esc] cancel")]
        status [] (Some (2, 2 + caret)))
  | _ => pure Panic
  end.

Definition frame_pick (status : bytes) : M Frame :=
  s ← get_top;
  match s with
  | Pick title options sel _ =>
      mret (mk_frame (str "Pick") Framebuffer.C_BG_SCHEMA
        ([line title Accent; bar (str "[↑↓] select  [Enter] choose  [Esc] cancel"); blank] ++
         imap (fun i o => with_hit (Activate (Z.of_nat i)) (line o (row_kind i sel))) options)
        status [] None)
  | _ => pure Panic
  end.

Definition frame_confirm (status : bytes) : M Frame :=
  s ← get_top;
  match s with
  | Confirm msg _ =>
      mret (mk_frame (str "Confirm") Framebuffer.C_BG_ROW
        [blank; line msg Text.Error; blank; bar (str "[Enter] = confirm     [Esc] = cancel  (default: cancel)")]
        status [] None)
  | _ => pure Panic
  end.

Definition frame_fk_pick (status : bytes) : M Frame :=
  s ← get_top;
  match s with
  | FkPick _ from_col to_table to_col rows sel top =>
      vis ← visible_rows;
      let visible := Nat.max vis 1 in
      mret (mk_frame (str "FK Picker — " ++ to_table) Framebuffer.C_BG_EDIT
        ([bar (str "[↑↓] select  [PgUp/Dn] page  [Enter] pick  [Esc] cancel"); blank;
          line (str "Pick a " ++ to_table ++ str " for '" ++ from_col ++ str "' (references " ++ to_col ++ str ")") Accent; blank] ++
         ((fun p : nat * (RowId.t * bytes) =>
            with_hit (Activate (Z.of_nat p.1)) (line p.2.2 (row_kind p.1 sel))) <$> take visible (drop top (enumerate rows))) ++
         (match rows with [] => [line (str "(no rows to pick from)") Dim] | _ => [] end))
        status [] None)
  | _ => pure Panic
  end.

Definition frame_about (status : bytes) : M Frame :=
  s ← get_top;
  match s with
  | About top =>
      vis ← visible_rows;
      all ← pure about_lines;
      mret (mk_frame (str "About / Licenses") Framebuffer.C_BG_SCHEMA
        ([bar (str "[↑↓ PgUp/PgDn] scroll   [Esc] back"); blank] ++ take vis (drop (Z.to_nat top) all))
        status [] None)
  | _ => pure Panic
  end.

(** ** Rendering *)

Definition body_cols : M Z :=
  h ← gets hw;
  mret (saturating_sub (default 0 (hw_width h)) (BODY_X + PANEL_X + CELL_W) / CELL_W).

Definition build_frame : M Frame :=
  st ← gets status;
  stk ← gets stack;
  frame ← match stk with
    | [] | List _ :: _ => frame_list st
    | Browser _ _ _ _ _ _ :: _ => frame_browser st
    | RowView _ _ _ :: _ => frame_rowview st
    | EditorScreen _ :: _ => frame_editor st
    | SchemaScreen _ _ :: _ => frame_schema st
    | Prompt _ _ _ _ :: _ => frame_prompt st
    | Pick _ _ _ _ :: _ => frame_pick st
    | Confirm _ _ :: _ => frame_confirm st
    | FkPick _ _ _ _ _ _ _ :: _ => frame_fk_pick st
    | App.Builder _ :: _ => frame_builder st
    | RefCols _ _ _ :: _ => frame_refcols st
    | About _ :: _ => frame_about st
    | HwS s :: _ => on_hw (hw_frame s st)
    end;
  cols ← body_cols;
  mret (wrap_shortcut_bars frame cols).

(** What a click on a line can hit: its text is kept for the hint bars. *)
Definition click_row (l : TextLine) : ClickRow :=
  mk_click (hit l) (match hit l with Shortcuts => text l | _ => [] end).

Definition set_hitmap (m : list ClickRow) (a : app) : app :=
  mk_app (store a) (stack a) (status a) (booted_sys_guid a) (data_lba a) m (row_cache a) (hw a).

(** The frame to draw. *)
Definition render : M Frame :=
  f ← build_frame;
  _ ← modify (set_hitmap (click_row <$> body f));
  mret f.

(** ** The loop of [run] *)

Definition repaints (e : Ps2.Event) : bool := match e with Ps2.MouseMove _ _ => false | _ => true end.

(** A turn applies the events that are queued and repaints once, also when the
    caret's half-period has passed ([blink]) on a text field. *)
Definition turn (t : list Ps2.Event * bool) : M unit :=
  let '(es, blink) := t in
  _ ← for_each es on_event;
  text ← gets has_text_cursor;
  if existsb repaints es || (blink && text) then _ ← render; mret tt else mret tt.

Definition run (ts : list (list Ps2.Event * bool)) : M unit :=
  _ ← render;
  for_each ts turn.

End Machine.
End Frames.
