(* ===== verification/FrameFacts.v ===== *)
(** * What the frames show

    Building the frame of a well-formed screen over a store at rest never
    aborts and changes nothing of the store or the stack; every line it makes
    clickable names an item of the screen, and every key a click on a hint bar
    can name is a character.  So after a render the mouse is as safe as the
    keyboard. *)

From stdpp Require Import gmap.
From S2P Require Import Prelude Types Bignum Value ValueFacts Codec Schema Block Journal JournalFacts.
From S2P Require Import Pager PagerFacts Store Database Integrity Edits StoreFacts Heap Refinement.
From S2P Require Import Navigation Transactions Operations StoreRuns EditRefine StoreApi.
From S2P Require Import Ps2 UiText UiTextFacts Builder BuilderFacts Framebuffer App Screens Ui.
From S2P Require Import UiFacts Wellformed UiModals UiDispatch UiEditor UiKeys Screenful Frames.
Import Store Text App Screens Ui Frames.

(** ** Characters on hint bars *)

Lemma uchar_scalar c : uchar c -> scalar (decode_utf8 c).
Proof.
  intros [(b0 & tl & -> & Hb & Htl) H]. unfold scalar. cbn [utf8_valid] in H.
  destruct ((0 <=? b0) && (b0 <? 128)) eqn:E0.
  { rewrite (utf8_conts tl H Htl). cbn. bools. lia. }
  destruct tl as [|b1 tl]; [done|]. apply Forall_cons in Htl as [Hb1 Htl].
  destruct ((194 <=? b0) && (b0 <=? 223)) eqn:E1.
  { apply andb_true_iff in H as [_ H]. rewrite (utf8_conts tl H Htl). cbn. unfold is_cont in *. bools. lia. }
  destruct tl as [|b2 tl]; [done|]. apply Forall_cons in Htl as [Hb2 Htl].
  destruct ((224 <=? b0) && (b0 <=? 239)) eqn:E2.
  { apply andb_true_iff in H as [[H1 _]%andb_true_iff H]. rewrite (utf8_conts tl H Htl). cbn [decode_utf8].
    unfold is_cont in *. destruct (Z.eqb_spec b0 224), (Z.eqb_spec b0 237); bools; lia. }
  destruct tl as [|b3 tl]; [done|]. apply Forall_cons in Htl as [Hb3 Htl].
  destruct ((240 <=? b0) && (b0 <=? 244)) eqn:E3; [|done].
  apply andb_true_iff in H as [[[H1 _]%andb_true_iff _]%andb_true_iff H]. cbn [decode_utf8].
  unfold is_cont in *. destruct (Z.eqb_spec b0 240), (Z.eqb_spec b0 244); bools; lia.
Qed.

Lemma scan_tok_uchars cs : Forall uchar cs -> exists ts, Forall uchar ts /\ (scan_tok cs).1 = concat ts.
Proof.
  induction 1 as [|c cs Hc _ (ts & Hts & E)]; [by exists []|]. cbn [scan_tok].
  case_bool_decide; [by exists []|]. destruct (scan_tok cs) as [tok n]. cbn in *. subst tok.
  exists (c :: ts). split; [by apply Forall_cons|done].
Qed.

Lemma key_for_token_ok tok k : utf8_valid tok = true -> key_for_token tok = Some k -> key_ok k.
Proof.
  intros Hv. unfold key_for_token.
  repeat (case_bool_decide; cbn [orb]; [by intros [= <-]; try (left; lia)|]).
  pose proof (utf8_chars tok Hv) as Hc. destruct (chars tok) as [|c [|]]; try done.
  case_bool_decide; [done|]. intros [= <-]. apply Forall_cons in Hc as [Hc _]. by apply uchar_scalar.
Qed.

Lemma shortcut_loop_ok fuel : forall cs i cc k, Forall uchar cs -> shortcut_loop fuel cs i cc = Some k -> key_ok k.
Proof.
  induction fuel as [|fuel IH]; intros cs i cc k Hcs; [by destruct cs|].
  destruct cs as [|c cs]; [done|]. cbn [shortcut_loop]. pose proof Hcs as [_ Htl]%Forall_cons.
  destruct (negb _); [by apply IH|].
  destruct (scan_tok_uchars cs Htl) as (ts & Hts & E). destruct (scan_tok cs) as [tok n]. cbn in E. subst tok. cbv zeta.
  destruct (_ && _); [apply key_for_token_ok; by apply utf8_concat|]. apply IH. by apply Forall_drop.
Qed.

Lemma shortcut_ok t cc k : utf8_valid t = true -> shortcut_at t cc = Some k -> key_ok k.
Proof. intros Hv. apply shortcut_loop_ok. by apply utf8_chars. Qed.

(** ** Lines *)

(** A hint bar is text. *)
Definition bar_ok (l : TextLine) : Prop := hit l = Shortcuts -> utf8_valid (text l) = true.

(** Wrapping a hint bar only cuts it. *)
Lemma wrap_options_valid s m : utf8_valid s = true -> Forall (fun l => utf8_valid l = true) (wrap_options s m).
Proof.
  intros Hv. destruct (decide (split_options s = [])) as [E|E].
  { unfold wrap_options. rewrite E. cbn. by apply Forall_singleton. }
  destruct (wrap_options_spec s m Hv E) as (gs & -> & Ec & _). pose proof (split_options_ok s Hv) as Hok.
  rewrite <- Ec in Hok. clear Ec. induction gs as [|g gs IH]; [by apply Forall_nil_2|].
  cbn in Hok. apply Forall_app in Hok as [Hg Hgs]. cbn [map]. apply Forall_cons. split; [by apply join2_valid|by apply IH].
Qed.

Lemma Forall_imap_intro {A B} (P : B -> Prop) (f : nat -> A -> B) l :
  (forall i x, l !! i = Some x -> P (f i x)) -> Forall P (imap f l).
Proof.
  intros H. apply Forall_lookup. intros i y Hy. rewrite list_lookup_imap in Hy.
  destruct (l !! i) as [x|] eqn:E; [|done]. cbn in Hy. injection Hy as <-. by apply H.
Qed.

Section Frames.
Context {D H : Type} `{!BlockDevice D, !DeviceLaws D, !Hardware H}.
Abbreviation app := (App.t (D := D) (H := H)) (only parsing).
Implicit Types (a : app) (n g : Z) (m : medium) (d : database) (s : Screen (H:=H)) (f : Frame).

(** A line a click can follow on the screen [s]. *)
Definition line_ok d s (l : TextLine) : Prop :=
  match hit l with
  | Focus i | Activate i => screen_ok d (with_sel (Z.to_nat i) s)
  | Shortcuts => utf8_valid (text l) = true
  | HNone => True
  end.

Record tidy d s f : Prop := {
  td_bg : bg f ∈ tints;
  td_lines : Forall (line_ok d s) (body f)
}.

(** The cursor may be on any item. *)
Definition anywhere d s : Prop := forall i, screen_ok d (with_sel i s).

Lemma anywhere_line d s l : anywhere d s -> bar_ok l -> line_ok d s l.
Proof. intros Ha Hb. unfold line_ok. destruct (hit l) eqn:E; auto. Qed.

Lemma anywhere_tidy d s f : anywhere d s -> bg f ∈ tints -> Forall bar_ok (body f) -> tidy d s f.
Proof. intros Ha Hbg Hb. split; [done|]. eapply Forall_impl; [exact Hb|]. intros l. by apply anywhere_line. Qed.

Lemma wrap_tidy d s f c : tidy d s f -> tidy d s (wrap_shortcut_bars f c).
Proof.
  intros [Hbg Hl]. unfold wrap_shortcut_bars. destruct (_ || _); [by split|].
  destruct (reflow_loop_spec c (body f) 0) as (extra & -> & _). split; [done|]. cbn [body].
  clear Hbg. induction Hl as [|l ls Hl _ IH]; [by apply Forall_nil_2|]. cbn [map concat]. apply Forall_app. split; [|done].
  unfold reflow. destruct (is_bar l) eqn:E; [|by apply Forall_singleton].
  unfold is_bar in E. apply bool_decide_eq_true in E. unfold line_ok in Hl. rewrite E in Hl.
  apply Forall_fmap. eapply Forall_impl; [by apply wrap_options_valid|]. done.
Qed.

(** *** Clicks *)

(** The recorded targets are those of a tidy frame. *)
Definition targets d a : Prop := forall s rest, stack a = s :: rest ->
  exists f, tidy d s f /\ hitmap a = click_row <$> body f.

Lemma click_aim d a s rest x y : targets d a -> stack a = s :: rest ->
  (forall i, (aim a (Ps2.Click x y)).1 = Some i -> screen_ok d (with_sel i s)) /\
  (forall k, (aim a (Ps2.Click x y)).2 = Some k -> key_ok k).
Proof.
  intros Ht Es. destruct (Ht s rest Es) as (f & [_ Hl] & Eh). unfold aim. rewrite Eh.
  destruct (y <? BODY_TOP); [by split|]. unfold nth_z. rewrite list_lookup_fmap.
  destruct (body f !! _) as [l|] eqn:E; [|by split]. cbn [fmap option_fmap option_map click_row cr_hit cr_text].
  pose proof (proj1 (Forall_lookup _ _) Hl _ _ E) as Hok. unfold line_ok in Hok.
  destruct (hit l); cbn [fst snd]; [by split| | |].
  - by split; [intros ? [= <-]|].
  - by split; [intros ? [= <-]|intros ? [= <-]].
  - split; [done|]. destruct (BODY_X <=? x); [|done]. intros k. by apply shortcut_ok.
Qed.

(** What is left for the user to respect, on top of a fresh frame. *)
Record modest d s (k : Ps2.Key) : Prop := {
  mo_short : screen_short s;
  mo_on msg : ~ (k = Ps2.Enter /\ s = Confirm msg Shutdown);
  mo_sized o : key_op d s k = Some o -> sized d o
}.

Definition considerate d a (e : Ps2.Event) : Prop :=
  (forall k, e = Ps2.KeyEvent k -> key_ok k) /\
  forall s rest k, stack a = s :: rest -> (aim a e).2 = Some k -> modest d (aimed (aim a e).1 s) k.

Lemma considerate_fair d a e : targets d a -> considerate d a e -> fair d a e.
Proof.
  intros Ht [Hk Hm] s rest Es. destruct e as [k|x y|x y|].
  - split; [done|]. intros k' Ek. destruct (Hm s rest k' Es Ek). cbn in Ek. injection Ek as <-. split; auto.
  - by split.
  - destruct (click_aim d a s rest x y Ht Es) as [H1 H2]. split; [done|]. intros k Ek.
    destruct (Hm s rest k Es Ek). split; auto.
  - split; [done|]. intros k Ek. destruct (Hm s rest k Es Ek). cbn in Ek. injection Ek as <-. by split.
Qed.

(** Only a click needs a frame. *)
Lemma key_fair d a e : (forall x y, e <> Ps2.Click x y) -> considerate d a e -> fair d a e.
Proof.
  intros Hc [Hk Hm] s rest Es. destruct e as [k|x y|x y|]; [|by split|by destruct (Hc x y)|].
  - split; [done|]. intros k' Ek. destruct (Hm s rest k' Es Ek). cbn in Ek. injection Ek as <-. split; auto.
  - split; [done|]. intros k Ek. destruct (Hm s rest k Es Ek). cbn in Ek. injection Ek as <-. by split.
Qed.

End Frames.
