(* ===== verification/FrameBuilds.v ===== *)
(** * Every frame is built

    Each [frame_*] on its screen, over a store at rest: it returns, the store
    and the stack are as they were, and its lines are safe to click. *)

From stdpp Require Import gmap.
From S2P Require Import Prelude Types Bignum Value ValueFacts Codec Schema Block Journal JournalFacts.
From S2P Require Import Pager PagerFacts Store Database Integrity Edits StoreFacts Heap Refinement.
From S2P Require Import Navigation Transactions Operations StoreRuns EditRefine StoreApi.
From S2P Require Import Ps2 UiText UiTextFacts Builder BuilderFacts Framebuffer App Screens Ui.
From S2P Require Import UiFacts Wellformed UiModals UiDispatch UiEditor UiKeys Screenful Frames FrameFacts.
Import Store Text App Screens Ui Frames.

(** ** Loops that return *)

Lemma map_o_forall {E A B} (f : A -> outcome E B) (P : B -> Prop) l :
  (forall x, x ∈ l -> exists y, f x = Val y /\ P y) -> exists ys, map_o f l = Val ys /\ Forall P ys.
Proof.
  intros Hf. induction l as [|x l IH]; [by exists []|].
  destruct (Hf x) as (y & Ey & Hy); [left|]. destruct IH as (ys & Eys & Hys); [intros z Hz; apply Hf; by right|].
  exists (y :: ys). cbn. rewrite Ey. cbn. rewrite Eys. split; [done|by apply Forall_cons].
Qed.

Lemma fold_o_forall {E A S} (f : S -> A -> outcome E S) (P : S -> Prop) l : forall s, P s ->
  (forall s x, x ∈ l -> P s -> exists s', f s x = Val s' /\ P s') -> exists s', fold_o f s l = Val s' /\ P s'.
Proof.
  induction l as [|x l IH]; intros s Hs Hf; [by exists s|].
  destruct (Hf s x) as (s1 & E1 & H1); [left|done|]. destruct (IH s1 H1) as (s2 & E2 & H2).
  { intros s' y Hy. apply Hf. by right. }
  exists s2. cbn. rewrite E1. cbn. by rewrite E2.
Qed.

Lemma wrap_total s k : k <> 0 -> exists ls, wrap s k = Val ls.
Proof.
  intros Hk. unfold wrap, chunks. rewrite (proj2 (Z.eqb_neq k 0)) by done. destruct (chars s); by eexists.
Qed.

Lemma cell_pad_total s w : w < 2 ^ 16 -> exists out, cell_pad s w = Val out.
Proof.
  intros Hw. unfold cell_pad, add_u64. rewrite (proj2 (Z.ltb_lt _ _)) by lia. by eexists.
Qed.

Lemma content_w_bound widths ci : Forall (fun w => w < 2 ^ 16) widths -> content_w widths ci < 2 ^ 16.
Proof.
  intros Hw. unfold content_w. destruct (widths !! ci) as [w|] eqn:E; [|done].
  by apply (proj1 (Forall_lookup _ _) Hw ci).
Qed.

(** Goals about lines that name no hint, and about the literal hints. *)
Ltac bar_line := let E := fresh in intros E; first [discriminate E | reflexivity].
Ltac lines_ok :=
  cbn [body];
  repeat first [ apply Forall_app; split | apply Forall_cons; split | apply Forall_nil_2
               | apply Forall_imap_intro; intros ]; try bar_line.
Ltac tint := cbn [bg]; unfold tints; rewrite !elem_of_cons; tauto.

Section Builds.
Context {D H : Type} `{!BlockDevice D, !DeviceLaws D, !Hardware H}.
Abbreviation app := (App.t (D := D) (H := H)) (only parsing).
Abbreviation Screen := (App.Screen (H := H)) (only parsing).
Implicit Types (a : app).
Context (n : Z) (m : medium) (g : Z) (d : database) (Hl : ~ may_lose (D:=D)) (rest : list Screen).
Abbreviation still s := (still n m g d (s :: rest)).
Abbreviation built s := (fun f a' => still s a' /\ tidy d s f) (only parsing).

Ltac top := unfold wpu, get_top; match goal with Ha : UiFacts.still _ _ _ _ _ ?a |- context [stack ?a] => rewrite (st_stack _ _ _ _ _ _ Ha) end.
Ltac on_top := apply wpu_bind; eapply wpu_get_top; [eassumption|reflexivity|]; cbv beta iota zeta.
Ltac done_frame Ha := apply wpu_ret; split; [exact Ha|].

Lemma frame_list_built sel st a : still (List sel) a -> wpu (frame_list st) (built (List sel)) a.
Proof using Hl.
  intros Ha. unfold frame_list. on_top. apply wpu_bind. eapply wpu_list_tables; [done..|]. intros a1 H1.
  cbn [unwrap_or]. done_frame H1. apply anywhere_tidy; [done|tint|]. lines_ok.
  destruct (spec_list_tables d); lines_ok.
Qed.

(** *** The browser *)

Lemma table_widths name t : (exists a s, UiFacts.still n m g d s a) -> table_of d name = Some t ->
  Forall (fun w => w < 2 ^ 16) (default DEFAULT_COL_W ∘ Column.display_width <$> Table.columns t).
Proof.
  intros (a & s & Ha) Et. destruct (table_of_some _ _ _ Et) as (u & [i Hi]%list_elem_of_lookup & _ & <-).
  destruct (holds_fits _ _ _ _ _ (st_holds _ _ _ _ _ _ Ha) i u Hi) as [Hok _].
  apply Forall_fmap. eapply Forall_impl; [apply Hok|]. intros c [_ Hw]. cbn. unfold TableFacts.width_ok in Hw.
  destruct (Column.display_width c); cbn; [lia|done].
Qed.

Lemma label_map_total target trows tci : exists mp, label_map target trows tci = Val mp.
Proof.
  destruct (fold_o_forall (fun m '(_, trow) =>
    match cell_at trow tci with
    | Some key => l ← Table.reference_label target trow; Val (<[Value.display key := l]> m)
    | None => Val m
    end) (fun _ => True) trows (∅ : gmap bytes bytes)) as (mp & E & _); [done| |by exists mp].
  intros mp [id trow] _ _. destruct (cell_at trow tci); [|by eexists].
  destruct (label_val target trow) as [l ->]. by eexists.
Qed.

Lemma fk_cell_label_ok s t fk a : still s a -> wpu (fk_cell_label t fk) (fun _ => still s) a.
Proof using Hl.
  intros Ha. unfold fk_cell_label. destruct (Table.column_index _ _); [|by apply wpu_ret].
  apply wpu_bind. eapply wpu_get_table; [done..|]. intros a1 H1.
  apply wpu_bind, wpu_bind. eapply wpu_scan; [done..|]. intros a2 H2. apply wpu_ret, wpu_bind.
  assert (Hnone : wpu (mret (∅ : gmap bytes bytes)) (fun _ => still s) a2) by by apply wpu_ret.
  eapply (wpu_conseq _ _ (fun _ => still s)).
  - destruct (table_of d _) as [u|]; [|done]. destruct (ok _) as [rs|]; [|done].
    destruct (Table.column_index u _) as [tci|]; [|done].
    destruct (label_map_total u rs tci) as [mp E]. by eapply wpu_pure.
  - intros mp a3 H3. by apply wpu_ret.
Qed.

Lemma frame_browser_built table row col top filter sort st a :
  still (Browser table row col top filter sort) a ->
  wpu (frame_browser st) (built (Browser table row col top filter sort)) a.
Proof using Hl.
  intros Ha. unfold frame_browser. set (scr := Browser _ _ _ _ _ _). on_top.
  apply wpu_bind. eapply wpu_get_table; [done..|]. intros a1 H1.
  set (widths := from_option _ [] (table_of d table)).
  assert (Hw : Forall (fun w => w < 2 ^ 16) widths).
  { unfold widths. destruct (table_of d table) as [t|] eqn:Et; [|by apply Forall_nil_2].
    eapply table_widths; [|exact Et]. by eexists _, _. }
  apply wpu_bind. eapply (wpu_conseq _ _ (fun hdr a' => still scr a' /\ Forall bar_ok hdr)).
  { destruct (table_of d table) as [t|]; [|apply wpu_ret; split; [done|by apply Forall_nil_2]]. apply wpu_bind.
    destruct (map_o_forall (header_cell t widths sort) (fun _ => True) (enumerate (Table.columns t))) as (cells & E & _).
    { intros [ci c] _. unfold header_cell.
      destruct (cell_pad_total (Column.name c ++ (if existsb (fun f => str_eqb (ForeignKey.from_col f) (Column.name c)) (Table.fks t) then str "*" else []) ++ sort_mark sort ci)
        (content_w widths ci) (content_w_bound _ _ Hw)) as [o ->]. by eexists. }
    eapply wpu_pure; [exact E|]. apply wpu_ret. split; [done|]. lines_ok. }
  intros hdr a2 [H2 Hhdr]. apply wpu_bind. eapply (wpu_conseq _ _ (fun _ => still scr)).
  { destruct (table_of d table) as [t|]; [|by apply wpu_ret]. apply wpu_bind.
    eapply (wpu_collect _ (still scr) (fun _ _ => True)); [done| |intros; by apply wpu_ret].
    intros fk a3 _ H3. eapply wpu_conseq; [by apply (fk_cell_label_ok scr)|done]. }
  intros labels a3 H3. apply wpu_bind. eapply wpu_visible_rows; [done|]. intros vis.
  apply wpu_bind. eapply wpu_cached_rows; [done..|]. intros a4 H4. set (rs := spec_rows _ _ _ _).
  apply wpu_bind.
  destruct (map_o_forall (row_line labels widths row) bar_ok (take vis (drop top (enumerate rs)))) as (rls & E & Hrls).
  { intros [vi [id cells]] _. unfold row_line.
    destruct (map_o_forall (fun '(ci, c) => cell_pad (cell_text labels ci c) (content_w widths ci)) (fun _ => True) (enumerate cells))
      as (parts & -> & _).
    { intros [ci c] _. destruct (cell_pad_total (cell_text labels ci c) (content_w widths ci) (content_w_bound _ _ Hw)) as [o ->]. by eexists. }
    eexists. split; [done|]. bar_line. }
  eapply wpu_pure; [exact E|]. done_frame H4. apply anywhere_tidy; [done|tint|]. lines_ok; [done..|].
  destruct rs; lines_ok.
Qed.

(** *** The row view *)

Lemma fk_field_labels_ok s table id a : still s a -> live_id d table id ->
  wpu (fk_field_labels table id) (fun _ => still s) a.
Proof using Hl.
  intros Ha Hid. unfold fk_field_labels. apply wpu_bind. eapply wpu_get_table; [done..|]. intros a1 H1.
  destruct (table_of d table) as [t|]; [|by apply wpu_ret]. apply wpu_bind.
  eapply (wpu_collect _ (still s) (fun _ _ => True)); [done| |intros; by apply wpu_ret].
  intros fk a2 _ H2. eapply (wpu_conseq _ _ (fun _ => still s)); [|done]. unfold fk_field_label.
  destruct (Table.column_index _ _); [|by apply wpu_ret]. apply wpu_bind.
  eapply wpu_follow; [done..|apply live_valid; [apply Ha|done]|]. intros a3 H3.
  destruct (ok _) as [[to [|[x trow] l]]|]; [by apply wpu_ret| |by apply wpu_ret].
  apply wpu_bind. eapply wpu_get_table; [done..|]. intros a4 H4. destruct (table_of d to) as [u|]; [|by apply wpu_ret].
  destruct (label_val u trow) as [l' E]. apply wpu_bind. by eapply wpu_pure; [|apply wpu_ret].
Qed.

Lemma frame_rowview_built table id sel st a : still (RowView table id sel) a -> live_id d table id ->
  wpu (frame_rowview st) (built (RowView table id sel)) a.
Proof using Hl.
  intros Ha Hid. unfold frame_rowview. set (scr := RowView _ _ _). on_top.
  apply wpu_bind. eapply wpu_get_table; [done..|]. intros a1 H1.
  apply wpu_bind. eapply wpu_get_row; [done..|apply live_valid; [apply H1|done]|]. intros a2 H2.
  apply wpu_bind. eapply wpu_conseq; [by apply (fk_field_labels_ok scr)|]. intros labels a3 H3. cbv beta in H3.
  apply wpu_bind. eapply (wpu_conseq _ _ (fun ls a' => still scr a' /\ Forall bar_ok ls)).
  { assert (Hnil : wpu (mret []) (fun ls a' => still scr a' /\ Forall bar_ok ls) a3) by (apply wpu_ret; split; [done|by apply Forall_nil_2]).
    destruct (table_of d table) as [t|]; [|done]. destruct (ok _) as [r|]; [|done]. apply wpu_bind.
    destruct (map_o_forall (value_lines labels r) (Forall bar_ok) (enumerate (Table.columns t))) as (ls & E & Hls).
    { intros [ci c] _. unfold value_lines.
      destruct (wrap_total (match cell_at r ci with Some v => Value.display v | None => null_text end) 70) as [chunks ->]; [done|].
      eexists. split; [done|]. lines_ok. }
    eapply wpu_pure; [exact E|]. apply wpu_ret. split; [done|]. by apply Forall_concat. }
  intros values a4 [H4 Hv]. apply wpu_bind. eapply wpu_conseq; [by apply nav_targets_ok|]. intros navs a5 H5.
  done_frame H5. apply anywhere_tidy; [by intros i|tint|]. lines_ok. done.
Qed.

(** *** The editor and the builder *)

Lemma editor_line_ok ed acc p : editor_ok d ed -> screen_short (H:=H) (EditorScreen ed) ->
  (p.1 < length (Editor.cols ed))%nat -> Forall (line_ok d (EditorScreen (H:=H) ed)) acc.1 ->
  exists acc', editor_line ed acc p = Val acc' /\ Forall (line_ok d (EditorScreen (H:=H) ed)) acc'.1.
Proof.
  destruct acc as [body cur], p as [i c]. cbn [fst]. intros [Hc Hf Hcar Hfoc Hid] Hs Hi Hb. unfold editor_line.
  destruct (lookup_lt_is_Some_2 (Editor.fields ed) i) as [f Ef]; [lia|]. rewrite Ef. cbn [or_panic mbind outcome_bind].
  pose proof (Forall_lookup_1 _ _ _ _ Hcar Ef) as [Hv Hcr]. pose proof (Forall_lookup_1 _ _ _ _ Hs Ef) as Hsh. cbn [fst snd] in Hv, Hcr.
  set (shown := if Field.is_null f then [] else Field.value f).
  assert (Hshown : utf8_valid shown = true /\ count shown < 2 ^ 63) by (unfold shown; destruct (Field.is_null f); [done|by split]).
  destruct (field_view_spec shown (Field.caret f) 48) as (x1 & v & x2 & col & _ & Ev & _); [apply Hshown|apply Hcr|done|lia|].
  assert (Hend : forall view (cur' : option (Z * Z)), exists acc',
    (let body := body ++ [with_hit (Focus (Z.of_nat i)) (line ((pad_right (Column.name c) 16 ++ str " " ++ pad_right (Ty.name (Column.ty c)) 14 ++ str " " ++
        (if Column.nullable c then if Field.is_null f then str "[x] NULL" else str "[ ] NULL" else str "        ") ++ str " : ") ++ view)
        (lit (Editor.focus ed =? i)%nat Normal))] in
     let body := match Editor.error ed with
       | Some (ei, msg) => if (ei =? i)%nat then body ++ [line (str "    ⮡ " ++ msg) Text.Error] else body
       | None => body end in
     Val (E:=unit) (body, cur')) = Val acc' /\ Forall (line_ok d (EditorScreen (H:=H) ed)) acc'.1).
  { intros view cur'. eexists. split; [reflexivity|]. cbn [fst].
    assert (H1 : Forall (line_ok d (EditorScreen (H:=H) ed)) (body ++ [with_hit (Focus (Z.of_nat i))
      (line ((pad_right (Column.name c) 16 ++ str " " ++ pad_right (Ty.name (Column.ty c)) 14 ++ str " " ++
        (if Column.nullable c then if Field.is_null f then str "[x] NULL" else str "[ ] NULL" else str "        ") ++ str " : ") ++ view)
        (lit (Editor.focus ed =? i)%nat Normal))])).
    { apply Forall_app. split; [done|]. apply Forall_singleton. cbn. rewrite Nat2Z.id. split; cbn; try done; lia. }
    destruct (Editor.error ed) as [[ei msg]|]; [|done]. destruct (ei =? i)%nat; [|done].
    apply Forall_app. split; [done|]. by apply Forall_singleton. }
  cbv zeta. destruct (Editor.focus ed =? i)%nat; [rewrite Ev; cbn [mbind outcome_bind]|]; apply Hend.
Qed.

Lemma elem_of_enumerate_l {A} (l : list A) p : p ∈ enumerate l -> (p.1 < length l)%nat.
Proof. destruct p as [i x]. intros Hin. unfold enumerate in Hin. apply elem_of_zip_l, elem_of_seq in Hin. cbn. lia. Qed.

Lemma frame_editor_built ed st a : still (EditorScreen ed) a -> editor_ok d ed -> screen_short (H:=H) (EditorScreen ed) ->
  wpu (frame_editor st) (built (EditorScreen ed)) a.
Proof.
  intros Ha Hed Hs. unfold frame_editor. on_top. apply wpu_bind.
  set (pre := [bar _; blank]).
  destruct (fold_o_forall (editor_line ed) (fun acc => Forall (line_ok d (EditorScreen (H:=H) ed)) acc.1)
    (enumerate (Editor.cols ed)) (pre, None)) as ([body cur] & E & Hb).
  { cbn. apply Forall_cons. split; [reflexivity|]. by apply Forall_singleton. }
  { intros acc p Hp Hacc. apply editor_line_ok; try done. by apply elem_of_enumerate_l. }
  eapply wpu_pure; [exact E|]. done_frame Ha. split; [tint|]. cbn [Text.body]. apply Forall_app. split; [exact Hb|].
  destruct Hed. apply Forall_cons. split; [done|]. apply Forall_cons. split.
  - cbn. rewrite Nat2Z.id. split; cbn; try done; lia.
  - apply Forall_singleton. cbn. replace (Z.to_nat (Z.of_nat (length (Editor.cols ed)) + 1)) with (length (Editor.cols ed) + 1)%nat by lia.
    split; cbn; try done; lia.
Qed.

Lemma builder_part_ok b acc p : Forall bar_ok acc.1 -> exists acc', builder_part b acc p = Val acc' /\ Forall bar_ok acc'.1.
Proof.
  destruct acc as [body cur], p as [i f]. cbn [fst]. intros Hb. unfold builder_part. cbv zeta.
  destruct (PartId.is_sign _).
  { eexists. split; [reflexivity|]. cbn. apply Forall_app. split; [done|]. lines_ok. }
  destruct (wrap_total ((if bool_decide (PartField.id f = PartId.Year) && PartField.neg f then str "-" else []) ++ PartField.buf f) BUILDER_WRAP)
    as [chunks E]; [done|]. rewrite E. cbn [mbind outcome_bind]. eexists. split; [reflexivity|]. cbn [fst].
  apply Forall_app. split; [done|]. lines_ok.
Qed.

Lemma builder_hint_valid b : utf8_valid (builder_hint b) = true.
Proof. unfold builder_hint. destruct (FieldBuilder.has_now b), (FieldBuilder.has_next b); reflexivity. Qed.

Lemma frame_builder_built b st a : still (App.Builder b) a -> builder_ok b ->
  wpu (frame_builder st) (built (App.Builder b)) a.
Proof.
  intros Ha Hok. unfold frame_builder. on_top. apply wpu_bind.
  set (pre := _ :: _ :: [blank]).
  destruct (fold_o_forall (builder_part b) (fun acc => Forall bar_ok acc.1) (enumerate (FieldBuilder.fields b)) (pre, None))
    as ([body cur] & E & Hb).
  { cbn. apply Forall_cons. split; [intros _; apply builder_hint_valid|]. lines_ok. }
  { intros acc p _. apply builder_part_ok. }
  eapply wpu_pure; [exact E|]. destruct (wrap_total (FieldBuilder.compose b) BUILDER_WRAP) as [preview Ep]; [done|].
  apply wpu_bind. eapply wpu_pure; [exact Ep|]. done_frame Ha.
  apply anywhere_tidy; [|tint|].
  - intros i. destruct Hok. split; try done. cbn. lia.
  - lines_ok; [exact Hb|..].
    + by destruct (FieldBuilder.error b); lines_ok.
    + by destruct (FieldBuilder.now_index b); lines_ok.
    + by destruct (FieldBuilder.next_index b); lines_ok.
Qed.

(** *** The schema *)

Lemma frame_schema_built table sel st a : still (SchemaScreen table sel) a ->
  wpu (frame_schema st) (built (SchemaScreen table sel)) a.
Proof using Hl.
  intros Ha. unfold frame_schema. on_top. apply wpu_bind. eapply wpu_get_table; [done..|]. intros a1 H1.
  done_frame H1. apply anywhere_tidy; [done|tint|]. lines_ok.
  destruct (table_of d table) as [t|]; lines_ok; [by destruct (Table.fks t); lines_ok|].
  apply Forall_fmap, Forall_true. intros fk. bar_line.
Qed.

Lemma label_preview_total order t : exists p, label_preview order t = Val p.
Proof.
  destruct order; [|by eexists]. destruct t as [t|]; [|by eexists]. unfold label_preview.
  destruct (map_o_forall (E:=unit) (fun ci => c ← or_panic (Table.columns t !! ci); Val (Column.name c)) (fun _ => True) (Table.ref_col_indices t))
    as (names & E & _); [|rewrite E; by eexists].
  intros ci Hci. pose proof (proj1 (Forall_forall _ _) (TableFacts.ref_col_indices_valid t) ci Hci) as Hlt. cbv beta in Hlt.
  destruct (lookup_lt_is_Some_2 (Table.columns t) ci) as [c ->]; [done|]. by eexists.
Qed.

Lemma frame_refcols_built table order sel st a : still (RefCols table order sel) a ->
  wpu (frame_refcols st) (built (RefCols table order sel)) a.
Proof using Hl.
  intros Ha. unfold frame_refcols. on_top. apply wpu_bind. eapply wpu_get_table; [done..|]. intros a1 H1.
  destruct (label_preview_total order (table_of d table)) as [p E]. apply wpu_bind. eapply wpu_pure; [exact E|].
  done_frame H1. apply anywhere_tidy; [done|tint|]. lines_ok. destruct (table_of d table) as [t|]; lines_ok.
Qed.

(** *** The small screens *)

Lemma frame_prompt_built title buf caret act st a : still (Prompt title buf caret act) a ->
  caret_ok (buf, caret) -> wpu (frame_prompt st) (built (Prompt title buf caret act)) a.
Proof. intros Ha Hc. unfold frame_prompt. on_top. done_frame Ha. apply anywhere_tidy; [by intros i|tint|]. lines_ok. Qed.

Lemma frame_pick_built title options sel act st a : still (Pick title options sel act) a ->
  wpu (frame_pick st) (built (Pick title options sel act)) a.
Proof.
  intros Ha. unfold frame_pick. on_top. done_frame Ha. split; [tint|]. cbn [body].
  do 3 (apply Forall_cons; split; [done|]). apply Forall_imap_intro. intros i o Ho. cbn. left. rewrite Nat2Z.id.
  by eapply lookup_lt_Some.
Qed.

Lemma frame_confirm_built msg act st a : still (Confirm msg act) a -> screen_ok (H:=H) d (Confirm msg act) ->
  wpu (frame_confirm st) (built (Confirm msg act)) a.
Proof. intros Ha Hc. unfold frame_confirm. on_top. done_frame Ha. apply anywhere_tidy; [by intros i|tint|]. lines_ok. Qed.

Lemma frame_fk_pick_built fi fc tt tc rows sel top st a : still (FkPick fi fc tt tc rows sel top) a ->
  screen_ok (H:=H) d (FkPick fi fc tt tc rows sel top) ->
  wpu (frame_fk_pick st) (built (FkPick fi fc tt tc rows sel top)) a.
Proof.
  intros Ha Hc. unfold frame_fk_pick. on_top. apply wpu_bind. eapply wpu_visible_rows; [done|]. intros vis.
  done_frame Ha. apply anywhere_tidy; [by intros i|tint|]. lines_ok.
  - apply Forall_fmap, Forall_true. intros p. bar_line.
  - destruct rows; lines_ok.
Qed.

(** Only hint bars are clickable text, and the licenses are none. *)
Lemma about_lines_plain ls : about_lines (H:=H) = Val ls -> Forall bar_ok ls.
Proof.
  assert (L : forall t l, license_lines t = Val l -> Forall bar_ok l).
  { intros t l. unfold license_lines. destruct (map_o _ _) as [cs| | |]; cbn; try done. intros [= <-].
    apply Forall_fmap, Forall_true. intros c. bar_line. }
  unfold about_lines. destruct (license_lines hw_project_license) as [p| | |] eqn:Ep; cbn [mbind outcome_bind]; try done.
  destruct (license_lines hw_font_license) as [f| | |] eqn:Ef; cbn [mbind outcome_bind]; try done.
  intros [= <-]. pose proof (L _ _ Ep). pose proof (L _ _ Ef). lines_ok; done.
Qed.

Lemma frame_about_built top st a : still (About top) a -> wpu (frame_about st) (built (About top)) a.
Proof.
  intros Ha. unfold frame_about. on_top. apply wpu_bind. eapply wpu_visible_rows; [done|]. intros vis.
  destruct about_lines_val as [ls E]. apply wpu_bind. eapply wpu_pure; [exact E|]. done_frame Ha.
  apply anywhere_tidy; [by intros i|tint|]. lines_ok. by apply Forall_take, Forall_drop, about_lines_plain.
Qed.

End Builds.
