(* ===== verification/RunTheorems.v ===== *)
(** * The interface as it runs

    The loop of [run] over a store at rest: every frame is built, every click
    lands on what the last frame showed, and the machine stays usable.  A
    click queued behind a key has no such frame. *)

From stdpp Require Import gmap.
From S2P Require Import Prelude Types Bignum Value ValueFacts Codec Schema Block Journal JournalFacts.
From S2P Require Import Pager PagerFacts Store Database Integrity Edits StoreFacts Heap Refinement.
From S2P Require Import Navigation Transactions Operations StoreRuns EditRefine StoreApi StoreSample.
From S2P Require Import Ps2 UiText UiTextFacts Builder BuilderFacts Framebuffer App Screens Ui.
From S2P Require Import UiFacts Wellformed UiModals UiDispatch UiEditor UiKeys Screenful Frames FrameFacts FrameBuilds.
From S2P Require Import SessionTheorems.
Import Store Text App Screens Ui Frames.

Section Running.
Context {D H : Type} `{!BlockDevice D, !DeviceLaws D, !Hardware H}.
Abbreviation app := (App.t (D := D) (H := H)) (only parsing).
Implicit Types (a : app) (n g : Z) (m : medium) (d : database).

(** The frames of the screens that stand for the hardware are drawn on a
    background of the interface, and their hint bars are text. *)
Definition plain_frames : Prop := forall (s : HwScreen (H:=H)) st (h : H),
  bg (hw_frame s st h).1 ∈ tints /\ Forall bar_ok (body (hw_frame s st h).1).

(** The screen on top can be drawn. *)
Definition drawable a : Prop := forall s rest, stack a = s :: rest -> screen_short s.

Lemma build_frame_built n m g d a s rest : ~ may_lose (D:=D) -> plain_frames -> shown n m g d a -> drawable a ->
  stack a = s :: rest ->
  wpu build_frame (fun f a' => still n m g d (s :: rest) a' /\ tidy d s f) a.
Proof.
  intros Hl Hp [Ha Hs] Hd E. specialize (Hd s rest E). rewrite E in Ha, Hs.
  assert (Hok : screen_ok d s).
  { cbn in Hs. destruct rest; [by destruct s|apply Hs]. }
  unfold build_frame. apply wpu_bind. unfold gets at 1, wpu. cbn beta iota zeta.
  apply wpu_bind. unfold gets at 1, wpu. cbn beta iota zeta. rewrite E.
  apply wpu_bind. eapply (wpu_conseq _ _ (fun f a' => still n m g d (s :: rest) a' /\ tidy d s f)).
  - destruct s; cbn beta iota;
      first [by apply frame_list_built | by apply frame_browser_built | by apply frame_rowview_built
            |by apply frame_editor_built | by apply frame_schema_built | by apply frame_refcols_built
            |by apply frame_prompt_built | by apply frame_pick_built | by apply frame_confirm_built
            |by apply frame_fk_pick_built | by apply frame_builder_built | by apply frame_about_built|idtac].
    unfold wpu, on_hw. destruct (hw_frame s (status a) (hw a)) as [f h] eqn:Ef.
    pose proof (Hp s (status a) (hw a)) as [Hbg Hb]. rewrite Ef in *. split; [by apply still_set_hw|].
    by apply anywhere_tidy.
  - intros f a' [Ha' Hf]. apply wpu_bind. unfold body_cols. apply wpu_bind.
    unfold gets at 1, wpu. cbn beta iota zeta. cbn [mret stM_ret]. split; [done|by apply wrap_tidy].
Qed.

Lemma render_ends n m g d a : ~ may_lose (D:=D) -> plain_frames -> shown n m g d a -> drawable a ->
  wpu render (fun f a' => shown n m g d a' /\ targets d a') a.
Proof.
  intros Hl Hp Ha Hd. destruct (stack a) as [|s rest] eqn:E; [by destruct Ha as [_ Hs]; rewrite E in Hs|].
  apply wpu_bind. eapply wpu_conseq; [by eapply build_frame_built|]. intros f a' [Ha' Hf].
  apply wpu_bind. cbn. pose proof (st_stack _ _ _ _ _ _ Ha') as E'. destruct Ha as [_ Hs]. rewrite E in Hs. split.
  - split; cbn; rewrite E'; [by destruct Ha'|done].
  - intros s' rest' Es. cbn in Es. rewrite E' in Es. injection Es as <- <-. by exists f.
Qed.

(** ** Turns *)

(** Of the events queued for one repaint only the first that is not a motion
    of the mouse is a click. *)
Definition clicks_first (es : list Ps2.Event) : Prop :=
  Forall (fun e => forall x y, e <> Ps2.Click x y) (tail (List.filter repaints es)).

(** The events respect the screens they meet, and then [Q]. *)
Fixpoint considerate_events d a (es : list Ps2.Event) (Q : database -> app -> Prop) : Prop :=
  match es with
  | [] => Q d a
  | e :: es => considerate d a e /\
      forall a' d', on_event e a = (Val tt, a') -> outcome_ok d (event_op d a e) d' a' -> considerate_events d' a' es Q
  end.

Fixpoint considerate_run d a (ts : list (list Ps2.Event * bool)) : Prop :=
  match ts with
  | [] => True
  | t :: ts => clicks_first t.1 /\ considerate_events d a t.1 (fun d1 a1 => drawable a1 /\
      forall a2, turn t a = (Val tt, a2) -> considerate_run d1 a2 ts)
  end.

Lemma outcome_none d d' a : outcome_ok d None d' a -> d' = d.
Proof. done. Qed.

(** The events of a turn: the targets stand until the first event that counts. *)
Lemma events_end n es (Q : database -> app -> Prop) : ~ may_lose (D:=D) -> (forall r (h : H), is_byte (hw_clock r h).1) ->
  forall m g d a, shown n m g d a -> g + len es < 2 ^ 64 ->
  considerate_events d a es Q ->
  (targets d a /\ clicks_first es \/ Forall (fun e => forall x y, e <> Ps2.Click x y) es) ->
  exists a' m' g' d' l, for_each es on_event a = (Val tt, a') /\ shown n m' g' d' a' /\ g <= g' <= g + len es /\
    history d l d' /\ len l <= len es /\ Q d' a' /\ (existsb repaints es = false -> targets d a -> targets d' a').
Proof.
  intros Hl Hclock. induction es as [|e es IH]; intros m g d a Ha Hg Hc Ht.
  { exists a, m, g, d, []. split_and!; [done|done|cbn; lia|cbn; lia|constructor|done|done|done]. }
  destruct Hc as [Hc Hrest]. cbn [length] in Hg.
  assert (Hf : fair d a e).
  { destruct Ht as [[Ht _]|Hk]; [by apply considerate_fair|]. apply Forall_cons in Hk as [Hk _]. by apply key_fair. }
  destruct (wpu_val _ _ _ (event_ends n m g d e a Hl Hclock ltac:(lia) Ha Hf)) as ([] & a1 & E & m1 & g1 & d1 & H1 & H2 & Hn & Ho).
  assert (Hg1 : g <= g1 <= g + 1) by (destruct Hn as [->|[-> _]]; lia).
  assert (Hmove : repaints e = false -> a1 = a /\ d1 = d).
  { destruct e; try done. intros _. cbn in E. injection E as <-. split; [done|]. unfold event_op in Ho.
    by destruct (stack a). }
  destruct (IH m1 g1 d1 a1) as (a2 & m2 & g2 & d2 & l & E2 & H3 & Hg2 & Hl2 & Hlen & HQ & Hkeep); [done|lia|by apply Hrest| |].
  { destruct Ht as [[Ht Hfirst]|Hk]; [|right; by apply Forall_cons in Hk as [_ Hk]].
    destruct (repaints e) eqn:Er.
    - right. unfold clicks_first in Hfirst. cbn [List.filter] in Hfirst. rewrite Er in Hfirst. cbn [tail] in Hfirst.
      apply Forall_forall. intros e' He' x y ->. rewrite Forall_forall in Hfirst.
      apply (Hfirst (Ps2.Click x y)) with (x:=x) (y:=y); [|done]. apply list_elem_of_In, filter_In. split; [by apply list_elem_of_In|done].
    - left. destruct (Hmove eq_refl) as [-> ->]. split; [done|]. unfold clicks_first in *. cbn [List.filter] in Hfirst. by rewrite Er in Hfirst. }
  destruct (outcome_history _ _ _ _ Ho) as (l1 & Hl1 & El1).
  exists a2, m2, g2, d2, (l1 ++ l). split_and!; [|done|lia|cbn [length]; lia|by eapply history_app| |done|].
  - cbn. unfold mbind, stM_bind. by rewrite E, E2.
  - assert (length l1 <= 1)%nat by (rewrite <- (length_fmap fst), El1; destruct (event_op d a e); cbn; lia).
    rewrite length_app. cbn [length]. lia.
  - cbn [existsb]. intros [Er Ees]%orb_false_iff Htg. apply Hkeep; [done|]. by destruct (Hmove Er) as [-> ->].
Qed.

Lemma turn_ends n es blink (Q : database -> app -> Prop) m g d a :
  ~ may_lose (D:=D) -> (forall r (h : H), is_byte (hw_clock r h).1) -> plain_frames ->
  shown n m g d a -> targets d a -> g + len es < 2 ^ 64 -> clicks_first es ->
  considerate_events d a es (fun d1 a1 => drawable a1 /\ forall a2, turn (es, blink) a = (Val tt, a2) -> Q d1 a2) ->
  exists a' m' g' d' l, turn (es, blink) a = (Val tt, a') /\ shown n m' g' d' a' /\ targets d' a' /\
    g <= g' <= g + len es /\ history d l d' /\ len l <= len es /\ Q d' a'.
Proof.
  intros Hl Hclock Hp Ha Ht Hg Hf Hc.
  destruct (events_end n es _ Hl Hclock m g d a Ha Hg Hc (or_introl (conj Ht Hf)))
    as (a1 & m1 & g1 & d1 & l & E & H1 & Hg1 & Hh & Hlen & [Hd HQ] & Hkeep).
  destruct (existsb repaints es || (blink && has_text_cursor a1)) eqn:Er.
  - destruct (wpu_val _ _ _ (render_ends n m1 g1 d1 a1 Hl Hp H1 Hd)) as (f & a2 & E2 & H2 & H2t).
    assert (Et : turn (es, blink) a = (Val tt, a2)).
    { unfold turn, mbind, stM_bind. rewrite E. unfold gets. cbv beta iota zeta. rewrite Er. by rewrite E2. }
    exists a2, m1, g1, d1, l. split_and!; try done; try lia. by apply HQ.
  - assert (Et : turn (es, blink) a = (Val tt, a1)).
    { unfold turn, mbind, stM_bind. rewrite E. unfold gets. cbv beta iota zeta. by rewrite Er. }
    apply orb_false_iff in Er as [Er _].
    exists a1, m1, g1, d1, l. split_and!; try done; try lia; [by apply Hkeep|by apply HQ].
Qed.

Lemma turns_end n ts : ~ may_lose (D:=D) -> (forall r (h : H), is_byte (hw_clock r h).1) -> plain_frames ->
  forall m g d a, shown n m g d a -> targets d a -> g + len (concat ts.*1) < 2 ^ 64 -> considerate_run d a ts ->
  exists a' m' g' d' l, for_each ts turn a = (Val tt, a') /\ shown n m' g' d' a' /\ targets d' a' /\
    history d l d' /\ len l <= len (concat ts.*1).
Proof.
  intros Hl Hclock Hp. induction ts as [|[es blink] ts IH]; intros m g d a Ha Ht Hg Hc.
  { exists a, m, g, d, []. split_and!; [done|exact Ha|exact Ht|constructor|done]. }
  cbn [fmap list_fmap fst concat] in *. rewrite length_app in *. destruct Hc as [Hf Hc].
  destruct (turn_ends n es blink (fun d1 a2 => considerate_run d1 a2 ts) m g d a) as
    (a1 & m1 & g1 & d1 & l1 & E1 & H1 & H1t & Hg1 & Hh1 & Hlen1 & Hr1); try done; [lia|].
  destruct (IH m1 g1 d1 a1) as (a2 & m2 & g2 & d2 & l2 & E2 & H2 & H2t & Hh2 & Hlen2); try done; [lia|].
  exists a2, m2, g2, d2, (l1 ++ l2). split_and!; [|exact H2|exact H2t|by eapply history_app|rewrite length_app; lia].
  cbn [for_each]. unfold mbind, stM_bind. by rewrite E1, E2.
Qed.

(** Ways to be considerate. *)
Lemma considerate_aim d a e s rest c o : stack a = s :: rest -> aim a e = (c, o) ->
  (forall k, e = Ps2.KeyEvent k -> key_ok k) -> (forall k, o = Some k -> modest d (aimed c s) k) -> considerate d a e.
Proof.
  intros E Ea Hk Hm. split; [done|]. intros s' rest' k. rewrite E, Ea. intros [= <- <-]. apply Hm.
Qed.

Lemma drawable_top a s rest : stack a = s :: rest -> screen_short s -> drawable a.
Proof. intros E Hs s' rest'. rewrite E. by intros [= <- <-]. Qed.

Lemma considerate_next d a e es (Q : database -> app -> Prop) : considerate d a e -> event_op d a e = None ->
  considerate_events d (on_event e a).2 es Q -> considerate_events d a (e :: es) Q.
Proof. intros Hc E Hes. split; [done|]. intros a' d' Ea Ho. rewrite E in Ho. cbn in Ho. subst d'. by rewrite Ea in Hes. Qed.

Lemma considerate_weaken (Q Q' : database -> app -> Prop) es : (forall d a, Q d a -> Q' d a) ->
  forall d a, considerate_events d a es Q -> considerate_events d a es Q'.
Proof.
  intros HQ. induction es as [|e es IH]; intros d a; [apply HQ|]. intros [Hc Hes]. split; [done|].
  intros a' d' E Ho. apply IH. by apply Hes.
Qed.

Lemma considerate_turn d a t ts : clicks_first t.1 ->
  considerate_events d a t.1 (fun d1 a1 => drawable a1 /\ considerate_run d1 (turn t a).2 ts) ->
  considerate_run d a (t :: ts).
Proof.
  intros Hf Hc. split; [done|]. eapply considerate_weaken; [|exact Hc]. intros d1 a1 [Hd Hr].
  split; [done|]. intros a2 E. by rewrite E in Hr.
Qed.
End Running.

(** ** Sessions *)

(** C10: the interface as [run] drives it, from its first frame.  However the
    keys, clicks and motions of the mouse are cut into turns, each ended by a
    repaint, as long as no click is queued behind another event of its turn:
    every event returns and every frame is built; at the end the stack is
    well-formed and every line that can be clicked is one of the screen on
    top, the database keeps its integrity, and it is the outcome of a history
    of operations, at most one an event, each accepted or refused as the
    specification of the store says. *)
Theorem ui_runs {D H} `{!BlockDevice D, !DeviceLaws D, !Hardware H} n m (P : Pager.t D) g d guid lba (h : H) ts :
  ~ may_lose (D:=D) -> (forall r (h : H), is_byte (hw_clock r h).1) -> plain_frames (H:=H) ->
  holds n m P g d -> integrity d -> g + len (concat ts.*1) < 2 ^ 64 ->
  considerate_run d (render (boot P guid lba h)).2 ts ->
  exists a' m' g' d' l, run ts (boot P guid lba h) = (Val tt, a') /\
    shown n m' g' d' a' /\ targets d' a' /\ integrity d' /\ history d l d' /\ len l <= len (concat ts.*1).
Proof.
  intros Hl Hclock Hp Hh Hi Hg Hc. pose proof (boot_shown n m P g d guid lba h Hh Hi) as Hb.
  destruct (wpu_val _ _ _ (render_ends n m g d _ Hl Hp Hb ltac:(by intros ? ? [= <- <-]))) as (f & a & E & Ha & Ht).
  rewrite E in Hc. destruct (turns_end n ts Hl Hclock Hp m g d a Ha Ht Hg Hc) as (a' & m' & g' & d' & l & Er & H1 & H2 & H3 & H4).
  exists a', m', g', d', l. split_and!; try done; [|apply H1].
  unfold run, mbind, stM_bind. by rewrite E.
Qed.

#[local] Existing Instance plain_machine.

(** A row typed into the table of [company], opened with the mouse. *)
Definition pressed (k : Ps2.Key) : list Ps2.Event * bool := ([Ps2.KeyEvent k], false).
Definition pointing : list (list Ps2.Event * bool) :=
  [([Ps2.MouseMove 100 140; Ps2.Click 100 (BODY_TOP + 3 * CELL_H)], false); pressed (Ps2.Char 105);
   ([], true); ([Ps2.KeyEvent (Ps2.Char 98); Ps2.KeyEvent (Ps2.Char 111); Ps2.KeyEvent (Ps2.Char 98)], false);
   pressed Ps2.Enter].

Ltac minded :=
  eapply considerate_aim; [vm_compute; reflexivity|vm_compute; reflexivity
    |intros ? E; first [discriminate E|injection E as <-; first [exact I|left; lia]]
    |intros ? E; first [discriminate E|injection E as <-; split;
       [cbn [screen_short aimed with_sel]; first [exact I|repeat (apply Forall_cons; split; [vm_compute; reflexivity|]); by constructor]
       |by intros ? [_ ?]|intros o Ho; vm_compute in Ho]]].
Ltac drawn :=
  split; [eapply drawable_top; [vm_compute; reflexivity|]; cbn [screen_short];
    first [exact I|repeat (apply Forall_cons; split; [vm_compute; reflexivity|]); by constructor]|].
Ltac first_click := apply Forall_forall; intros ? He; vm_compute in He; set_solver.

Lemma ui_runs_witness :
  spec_insert company staff [Some (Value.Str (str "bob")); None] = Val (0%nat, mk_dtable staff_schema [(2050, [Some ann])]) /\
  exists a' m' g' d' l, run pointing company_boot = (Val tt, a') /\
    shown company_n m' g' d' a' /\ targets d' a' /\ integrity d' /\ history company l d' /\
    len l <= len (concat pointing.*1).
Proof.
  split; [reflexivity|].
  apply (ui_runs company_n company_m company_steady 7 company [] 0 tt pointing);
    [by intros ?|done|intros s st []; split; [left|by apply Forall_nil_2]|exact steady_holds|exact company_integrity|done|].
  unfold pointing, pressed.
  apply considerate_turn; [first_click|]. do 2 (apply considerate_next; [by minded|vm_compute; reflexivity|]). drawn.
  apply considerate_turn; [first_click|]. apply considerate_next; [by minded|vm_compute; reflexivity|]. drawn.
  apply considerate_turn; [first_click|]. drawn.
  apply considerate_turn; [first_click|]. do 3 (apply considerate_next; [by minded|vm_compute; reflexivity|]). drawn.
  apply considerate_turn; [first_click|]. split.
  - minded. injection Ho as <-. split; [|done]. by repeat constructor.
  - intros a' d' E _. apply (f_equal snd) in E. cbn [snd] in E. subst a'. by drawn.
Defined.

(** ** A click behind a key *)

(** C17: a click that resolves to a line of an earlier screen.  The loop
    applies every queued event before it repaints, so the targets may be those
    of the previous screen; when the line is an item beyond the options of
    the picker now on top, the kernel aborts. *)
Theorem stale_click_aborts {D H} `{!BlockDevice D, !Hardware H} (a : App.t (D:=D) (H:=H)) x y i title options sel act rest :
  aim a (Ps2.Click x y) = (Some i, Some Ps2.Enter) -> stack a = Pick title options sel act :: rest ->
  options <> [] -> (length options <= i)%nat ->
  (on_event (Ps2.Click x y) a).1 = Panic.
Proof.
  intros Ea Es Ho Hi. cbn [on_event]. unfold on_click. cbn [aim] in Ea. destruct (y <? BODY_TOP); [done|].
  unfold gets, mbind, stM_bind. cbv beta iota zeta.
  destruct (nth_z (hitmap a) _) as [r|]; [|done]. destruct (cr_hit r) as [|z|z|]; try done. injection Ea as <-.
  unfold set_cursor, mbind, stM_bind, get_top. rewrite Es. cbv beta iota zeta.
  unfold put_top. rewrite Es. cbv beta iota zeta. unfold on_key, mbind, stM_bind, get_top.
  cbn [stack set_stack with_sel]. cbv beta iota zeta. unfold key_pick. destruct options as [|o os]; [done|].
  cbn [length]. unfold lift, mbind, stM_bind. by rewrite (lookup_ge_None_2 (o :: os)).
Qed.

(** The picker of a column of [company], Enter, and a click on the second
    column behind it: the picker of tables that Enter opened has one row. *)
Definition picking : list (list Ps2.Event * bool) :=
  [pressed Ps2.Enter; pressed (Ps2.Char 115); pressed (Ps2.Char 107)].
Definition second_row : Ps2.Event := Ps2.Click 100 (BODY_TOP + 4 * CELL_H).
Definition company_picking : App.t (D:=SteadyDisk.t) (H:=unit) :=
  (on_event (Ps2.KeyEvent Ps2.Enter) (run picking company_boot).2).2.

Lemma stale_click_aborts_witness :
  (run (picking ++ [pressed Ps2.Enter; ([second_row], false)]) company_boot).1 = Val tt /\
  (run (picking ++ [([Ps2.KeyEvent Ps2.Enter; second_row], false)]) company_boot).1 = Panic /\
  (on_event second_row company_picking).1 = Panic.
Proof.
  split; [vm_compute; reflexivity|]. split; [vm_compute; reflexivity|].
  eapply (stale_click_aborts company_picking); [vm_compute; reflexivity|vm_compute; reflexivity|done|].
  cbn. lia.
Defined.
