(* ===== verification/Acpi.v ===== *)
(** * Powering the machine off

    [kernel/src/acpi.rs]: the search of the firmware's tables for the sleep
    ports and the sleep types of the soft-off state, and the port writes that
    cut the power.  Physical memory is a function from addresses to bytes, of
    which the boot loader maps the first 4 GiB: a read beyond them faults,
    which is [Panic].  The chipset behind the ports is an interface; every port
    access and delay is logged.  Serial output is left out. *)

From S2P Require Import Prelude.

Module Acpi.

(** ** Physical memory *)

Definition PHYS_LIMIT : Z := 0x100000000.
Definition SLP_EN : Z := Z.shiftl 1 13.
Definition SCI_EN : Z := 1.
Definition RSDP_SIG : bytes := str "RSD PTR ".

(** The fields of the FADT that matter. *)
Record Fadt := mk_fadt { smi_cmd : Z; acpi_enable : Z; pm1a_cnt : Z; pm1b_cnt : Z; dsdt : Z }.
Definition with_pm1a (x : Z) (f : Fadt) : Fadt := mk_fadt (smi_cmd f) (acpi_enable f) x (pm1b_cnt f) (dsdt f).
Definition with_pm1b (x : Z) (f : Fadt) : Fadt := mk_fadt (smi_cmd f) (acpi_enable f) (pm1a_cnt f) x (dsdt f).
Definition with_dsdt (x : Z) (f : Fadt) : Fadt := mk_fadt (smi_cmd f) (acpi_enable f) (pm1a_cnt f) (pm1b_cnt f) x.

Record S5 := mk_s5 { s5_a : Z; s5_b : Z }.

(** Within the mapped window; the sum is checked. *)
Definition readable (pa len : Z) : bool :=
  negb (pa =? 0) && ((pa + len <? 2 ^ 64) && (pa + len <=? PHYS_LIMIT)).

Section Memory.
Context (mem : Z -> byte).

Definition rd_u8 (pa : Z) : outcome unit Z :=
  if (0 <=? pa) && (pa <? PHYS_LIMIT) then Val (mem pa) else Panic.
(** An unaligned read of [n] bytes. *)
Definition rd (n : Z) (pa : Z) : outcome unit Z :=
  bs ← map_o rd_u8 (seqZ pa n); Val (of_le_bytes bs).
Definition rd_u16 : Z -> outcome unit Z := rd 2.
Definition rd_u32 : Z -> outcome unit Z := rd 4.
Definition rd_u64 : Z -> outcome unit Z := rd 8.

Definition checksum_ok (pa len : Z) : outcome unit bool :=
  if negb (readable pa len) then Val false else
  sum ← fold_o (fun sum i => b ← rd_u8 (pa + i); Val (as_u8 (sum + b))) 0 (seqZ 0 len);
  Val (sum =? 0).

(** Whether the bytes [sig] lie at [pa]; the first that differs ends it. *)
Fixpoint matches (pa : Z) (sig : bytes) : outcome unit bool :=
  match sig with
  | [] => Val true
  | c :: sig => b ← rd_u8 pa; if b =? c then matches (pa + 1) sig else Val false
  end.

(** ** The root pointer *)

Fixpoint scan_loop (fuel : nat) (pa end_ : Z) : outcome unit (option Z) :=
  match fuel with
  | O => NoFuel
  | S fuel =>
      if pa + 20 <=? end_ then
        sig_ok ← matches pa RSDP_SIG;
        ok ← (if sig_ok : bool then checksum_ok pa 20 else Val false);
        if ok : bool then Val (Some pa) else scan_loop fuel (pa + 16) end_
      else Val None
  end.
Definition scan_rsdp (start end_ : Z) : outcome unit (option Z) :=
  let pa := Z.ldiff start 0xF in
  scan_loop (Z.to_nat (end_ - pa)) pa end_.

Definition find_rsdp : outcome unit (option Z) :=
  seg ← rd_u16 0x40E;
  let ebda := Z.shiftl seg 4 in
  r ← (if (0x400 <=? ebda) && (ebda <? 0xA0000) then scan_rsdp ebda (ebda + 0x400) else Val None);
  match r with
  | Some p => Val (Some p)
  | None => scan_rsdp 0xE0000 0x100000
  end.

(** ** The tables *)

(** The root table and the size of its entries. *)
Definition root_sdt (rsdp : Z) : outcome unit (Z * Z) :=
  revision ← rd_u8 (rsdp + 15);
  let rsdt := r ← rd_u32 (rsdp + 16); Val (r, 4) in
  if 2 <=? revision then
    xsdt ← rd_u64 (rsdp + 24);
    if readable xsdt 36 then Val (xsdt, 8) else rsdt
  else rsdt.

Definition sdt_entry {S} (f : S -> bytes -> Z -> outcome unit S) (root entry_size : Z) (s : S) (i : Z) : outcome unit S :=
  let ent := root + 36 + i * entry_size in
  table ← (if entry_size =? 8 then rd_u64 ent else rd_u32 ent);
  if negb (readable table 36) then Val s else
  sig ← map_o rd_u8 (seqZ table 4);
  f s sig table.

(** The closure [f] with the state [s] it captures. *)
Definition for_each_sdt {S} (f : S -> bytes -> Z -> outcome unit S) (s : S) : outcome unit S :=
  r ← find_rsdp;
  match r with
  | None => Val s
  | Some rsdp =>
      '(root, entry_size) ← root_sdt rsdp;
      len ← (if readable root 36 then rd_u32 (root + 4) else Val 0);
      if (len <? 36) || negb (readable root len) then Val s else
      let count := Z.min ((len - 36) / entry_size) 1024 in
      fold_o (sdt_entry f root entry_size) s (seqZ 0 count)
  end.

Definition gas_io_port (pa : Z) : outcome unit (option Z) :=
  space ← rd_u8 pa;
  addr ← rd_u64 (pa + 4);
  Val (if (space =? 1) && (negb (addr =? 0) && (addr <=? 0xFFFF)) then Some addr else None).

Definition parse_fadt (pa : Z) : outcome unit Fadt :=
  len ← rd_u32 (pa + 4);
  smi ← rd_u32 (pa + 48);
  en ← rd_u8 (pa + 52);
  a ← rd_u32 (pa + 64);
  b ← rd_u32 (pa + 68);
  ds ← rd_u32 (pa + 40);
  let f := mk_fadt smi en a b ds in
  f ← (if 148 <=? len then x ← rd_u64 (pa + 140); Val (if readable x 36 then with_dsdt x f else f) else Val f);
  f ← (if 184 <=? len then p ← gas_io_port (pa + 172); Val (from_option (fun p => with_pm1a p f) f p) else Val f);
  if 196 <=? len then p ← gas_io_port (pa + 184); Val (from_option (fun p => with_pm1b p f) f p) else Val f.

(** ** The soft-off state *)

(** A small AML integer at [q], behind an optional BytePrefix, and the address after it. *)
Definition read_aml_byte (q end_ : Z) : outcome unit (option Z * Z) :=
  if end_ <=? q then Val (None, q) else
  b ← rd_u8 q;
  let q := if b =? 0x0A then q + 1 else q in
  if end_ <=? q then Val (None, q) else
  v ← rd_u8 q;
  Val (Some v, q + 1).

Definition parse_s5_package (q end_ : Z) : outcome unit (option S5) :=
  if end_ <=? q then Val None else
  lead ← rd_u8 q;
  let q := q + (Z.shiftr lead 6 + 2) in
  '(a, q) ← read_aml_byte q end_;
  match a with
  | None => Val None
  | Some a =>
      '(b, _) ← read_aml_byte q end_;
      Val (Some (mk_s5 a (default 0 b)))
  end.

Fixpoint s5_loop (fuel : nat) (table p end_ : Z) : outcome unit (option S5) :=
  match fuel with
  | O => NoFuel
  | S fuel =>
      if p + 4 <=? end_ then
        is_s5 ← matches p (str "_S5_");
        if is_s5 : bool then
          b1 ← rd_u8 (p - 1);
          b2 ← (if table + 2 <=? p then rd_u8 (p - 2) else Val 0);
          let name_ok := (b1 =? 0x08) || ((b1 =? 92) && (b2 =? 0x08)) in
          pkg_op ← (if p + 4 <? end_ then b ← rd_u8 (p + 4); Val (b =? 0x12) else Val false);
          if name_ok && pkg_op then parse_s5_package (p + 5) end_ else s5_loop fuel table (p + 1) end_
        else s5_loop fuel table (p + 1) end_
      else Val None
  end.

Definition find_s5 (table : Z) : outcome unit (option S5) :=
  if negb (readable table 36) then Val None else
  len ← rd_u32 (table + 4);
  if (len <? 36) || negb (readable table len) then Val None else
  s5_loop (Z.to_nat len) table (table + 36) (table + len).

(** What [poweroff] keeps of the tables: the last FADT and at most eight SSDTs. *)
Definition collect (s : option Fadt * list Z) (sig : bytes) (addr : Z) : outcome unit (option Fadt * list Z) :=
  let '(fadt, ssdts) := s in
  if bool_decide (sig = str "FACP") then f ← parse_fadt addr; Val (Some f, ssdts)
  else if bool_decide (sig = str "SSDT") && (length ssdts <? 8)%nat then Val (fadt, ssdts ++ [addr])
  else Val (fadt, ssdts).

(** The DSDT, then the SSDTs, until one has the package. *)
Fixpoint find_first (tables : list Z) : outcome unit (option S5) :=
  match tables with
  | [] => Val None
  | t :: ts => r ← find_s5 t; match r with Some s => Val (Some s) | None => find_first ts end
  end.

End Memory.

(** ** The chipset *)

Class Chipset (H : Type) := {
  inw : Z -> H -> Z * H;
  outb : Z -> Z -> H -> H;
  outw : Z -> Z -> H -> H;
  delay_ms : Z -> H -> H
}.

Inductive Io := Inw (port value : Z) | Outb (port value : Z) | Outw (port value : Z) | Delay (ms : Z).

Record Machine {H} := mk_machine { log : list Io; chip : H }.
Arguments Machine H : clear implicits.
Arguments mk_machine {H} _ _.

Section Ports.
Context {H : Type} `{!Chipset H}.
Abbreviation M := (stM (Machine H) unit) (only parsing).

Definition read_port (port : Z) : M Z := fun m =>
  let '(v, h) := inw port (chip m) in (Val v, mk_machine (log m ++ [Inw port v]) h).
Definition write_u8 (port v : Z) : M unit :=
  modify (fun m => mk_machine (log m ++ [Outb port v]) (outb port v (chip m))).
Definition write_u16 (port v : Z) : M unit :=
  modify (fun m => mk_machine (log m ++ [Outw port v]) (outw port v (chip m))).
Definition pause (ms : Z) : M unit :=
  modify (fun m => mk_machine (log m ++ [Delay ms]) (delay_ms ms (chip m))).

(** Up to [tries] looks at SCI_EN, 10 ms apart. *)
Fixpoint wait_sci (tries : nat) (pm1a : Z) : M unit :=
  match tries with
  | O => mret tt
  | S tries =>
      v ← read_port pm1a;
      if Z.land v SCI_EN =? 0 then _ ← pause 10; wait_sci tries pm1a else mret tt
  end.

Definition enable_acpi (f : Fadt) : M unit :=
  if (pm1a_cnt f =? 0) || (0xFFFF <? pm1a_cnt f) then mret tt else
  v ← read_port (pm1a_cnt f);
  if negb (Z.land v SCI_EN =? 0) then mret tt else
  if (smi_cmd f =? 0) || (0xFFFF <? smi_cmd f) || (acpi_enable f =? 0) then mret tt else
  _ ← write_u8 (smi_cmd f) (acpi_enable f);
  wait_sci 300 (pm1a_cnt f).

Definition sleep_value (typ : Z) : Z := Z.lor (Z.shiftl (Z.land typ 7) 10) SLP_EN.

(** The reason the machine is still on. *)
Definition poweroff (mem : Z -> byte) : M bytes :=
  '(fadt, ssdts) ← lift (for_each_sdt mem (collect mem) (None, []));
  match fadt with
  | None => mret (str "no FADT")
  | Some fadt =>
      s5 ← lift (find_first mem (dsdt fadt :: ssdts));
      match s5 with
      | None => mret (str "no _S5_")
      | Some s5 =>
          if (pm1a_cnt fadt =? 0) || (0xFFFF <? pm1a_cnt fadt) then mret (str "no PM1a port") else
          _ ← enable_acpi fadt;
          _ ← write_u16 (pm1a_cnt fadt) (sleep_value (s5_a s5));
          _ ← (if negb (pm1b_cnt fadt =? 0) && (pm1b_cnt fadt <=? 0xFFFF)
               then write_u16 (pm1b_cnt fadt) (sleep_value (s5_b s5)) else mret tt);
          _ ← pause 100;
          mret (str "PM1 write ignored")
      end
  end.

End Ports.
End Acpi.
