(* ===== verification/AcpiTheorems.v ===== *)
(** * The soft-off

    The searches of [Acpi] against declarative ones: the root pointer is the
    first valid one of the areas searched, the tables are the readable entries
    of its root table, the soft-off package is the first of an AML table.
    Powering off reads nothing beyond the mapped window and ends, and where the
    firmware describes the soft-off state it is what the chipset is told. *)

From S2P Require Import Prelude Acpi.
Import Acpi.

Section Memory.
Context (mem : Z -> byte) (Hmem : forall pa, is_byte (mem pa)).

(** ** Reads *)

(** The bytes at an address, and the number they are. *)
Definition region (pa n : Z) : bytes := mem <$> seqZ pa n.
Definition le (n pa : Z) : Z := of_le_bytes (region pa n).

Lemma region_cons pa n : 0 < n -> region pa n = mem pa :: region (pa + 1) (n - 1).
Proof. intros Hn. unfold region. rewrite seqZ_cons by done. cbn. by rewrite <- Z.sub_1_r, Z.add_1_r. Qed.
Lemma region_length pa n : length (region pa n) = Z.to_nat n.
Proof. unfold region. by rewrite length_fmap, length_seqZ. Qed.
Lemma region_bytes pa n : is_bytes (region pa n).
Proof using Hmem. unfold region. apply Forall_fmap, Forall_true. intros x. apply Hmem. Qed.
Lemma le_bound n pa : 0 <= n -> 0 <= le n pa < 256 ^ n.
Proof using Hmem.
  intros Hn. pose proof (of_le_bytes_bound _ (region_bytes pa n)) as Hb. rewrite region_length, Z2Nat.id in Hb by done. done.
Qed.

Lemma readable_spec pa n : readable pa n = true <-> pa <> 0 /\ pa + n <= PHYS_LIMIT.
Proof. unfold readable, PHYS_LIMIT. rewrite !andb_true_iff, negb_true_iff, Z.eqb_neq, Z.ltb_lt, Z.leb_le. lia. Qed.

Lemma rd_u8_val pa : 0 <= pa < PHYS_LIMIT -> rd_u8 mem pa = Val (mem pa).
Proof. intros H. unfold rd_u8. by rewrite (proj2 (Z.leb_le _ _)), (proj2 (Z.ltb_lt _ _)) by lia. Qed.

Lemma bytes_val pa n : 0 <= pa -> pa + n <= PHYS_LIMIT -> map_o (rd_u8 mem) (seqZ pa n) = Val (region pa n).
Proof.
  intros Hpa Hn. assert (H : Forall (fun x => 0 <= x < PHYS_LIMIT) (seqZ pa n)).
  { apply Forall_forall. intros x Hx. apply elem_of_seqZ in Hx. lia. }
  unfold region. induction H as [|x l Hx _ IH]; [done|]. cbn [map_o]. by rewrite rd_u8_val, IH.
Qed.

Lemma rd_val n pa : 0 <= pa -> pa + n <= PHYS_LIMIT -> rd mem n pa = Val (le n pa).
Proof. intros Hpa Hn. unfold rd. by rewrite bytes_val. Qed.

Lemma matches_val sig : forall pa, 0 <= pa -> pa + len sig <= PHYS_LIMIT ->
  matches mem pa sig = Val (bool_decide (region pa (len sig) = sig)).
Proof.
  induction sig as [|c sig IH]; intros pa Hpa Hn; [done|]. cbn [matches length] in *. rewrite rd_u8_val by lia.
  cbn [mbind outcome_bind]. rewrite region_cons by lia. replace (Z.of_nat (S (length sig)) - 1) with (len sig) by lia.
  destruct (Z.eqb_spec (mem pa) c) as [->|Hc].
  - rewrite IH by lia. f_equal. apply bool_decide_ext. split; [by intros ->|by intros [=]].
  - f_equal. symmetry. apply bool_decide_eq_false. by intros [=].
Qed.

(** ** The root pointer *)

Definition sum (l : bytes) : Z := foldr Z.add 0 l.
Definition valid_rsdp (p : Z) : bool :=
  bool_decide (region p 8 = RSDP_SIG) && (sum (region p 20) mod 256 =? 0).

Lemma checksum_val pa n : 0 < pa -> 0 <= n -> pa + n <= PHYS_LIMIT ->
  checksum_ok mem pa n = Val (sum (region pa n) mod 256 =? 0).
Proof.
  intros Hpa Hn Hl. unfold checksum_ok. rewrite (proj2 (readable_spec pa n)) by lia. cbn [negb].
  assert (Hs : forall l s, Forall (fun i => 0 <= pa + i < PHYS_LIMIT) l ->
    fold_o (E:=unit) (fun sum i => b ← rd_u8 mem (pa + i); Val (as_u8 (sum + b))) (s mod 256) l =
    Val ((s + sum ((fun i => mem (pa + i)) <$> l)) mod 256)).
  { intros l. induction l as [|i l IH]; intros s Hall; [by rewrite Z.add_0_r|]. apply Forall_cons in Hall as [Hi Hall].
    cbn [fold_o]. rewrite rd_u8_val by done. cbn [mbind outcome_bind]. replace (as_u8 (s mod 256 + mem (pa + i))) with ((s + mem (pa + i)) mod 256)
      by (symmetry; apply Zplus_mod_idemp_l). rewrite IH by done. do 2 f_equal. cbn [fmap list_fmap sum foldr]. unfold sum. lia. }
  change 0 with (0 mod 256) at 1. rewrite (Hs _ 0).
  - cbn [mbind outcome_bind]. replace ((fun i => mem (pa + i)) <$> seqZ 0 n) with (region pa n); [done|].
    unfold region. rewrite <- (Z.add_0_r pa) at 1. by rewrite <- (fmap_add_seqZ pa 0), <- list_fmap_compose.
  - apply Forall_forall. intros i Hi. apply elem_of_seqZ in Hi. lia.
Qed.

(** The candidates of an area, 16 bytes apart. *)
Definition positions (pa end_ : Z) : list Z := (fun k => pa + 16 * k) <$> seqZ 0 ((end_ - pa - 20) / 16 + 1).

Lemma positions_cons pa end_ : pa + 20 <= end_ -> positions pa end_ = pa :: positions (pa + 16) end_.
Proof.
  intros H. unfold positions. rewrite seqZ_cons by lia. cbn [fmap list_fmap]. f_equal; [lia|].
  replace ((end_ - (pa + 16) - 20) / 16 + 1) with (Z.pred ((end_ - pa - 20) / 16 + 1)) by lia.
  rewrite <- (fmap_add_seqZ 1 0). rewrite <- list_fmap_compose. apply list_fmap_ext. intros i x _. cbn. lia.
Qed.
Lemma positions_nil pa end_ : end_ < pa + 20 -> positions pa end_ = [].
Proof. intros H. unfold positions. by rewrite seqZ_nil by lia. Qed.

Lemma scan_loop_val fuel : forall pa end_, 0 < pa -> end_ <= PHYS_LIMIT -> end_ - pa <= Z.of_nat fuel ->
  (0 < fuel)%nat -> scan_loop mem fuel pa end_ = Val (List.find valid_rsdp (positions pa end_)).
Proof.
  induction fuel as [|fuel IH]; intros pa end_ Hpa He Hf H0; [lia|]. cbn [scan_loop].
  destruct (Z.leb_spec (pa + 20) end_) as [Hle|Hgt]; [|by rewrite positions_nil by lia].
  rewrite matches_val by (cbn; lia). cbn [mbind outcome_bind]. rewrite positions_cons by done. cbn [List.find].
  unfold valid_rsdp at 1. change (len RSDP_SIG) with 8. rewrite checksum_val by lia.
  destruct (bool_decide (region pa 8 = RSDP_SIG)); cbn [andb mbind outcome_bind].
  - destruct (_ =? 0); [done|]. apply IH; lia.
  - apply IH; lia.
Qed.

(** Where the root pointer may be. *)
Definition searched : list Z :=
  let ebda := Z.shiftl (le 2 0x40E) 4 in
  (if (0x400 <=? ebda) && (ebda <? 0xA0000) then positions ebda (ebda + 0x400) else []) ++ positions 0xE0000 0x100000.

Lemma find_app (P : Z -> bool) l l' : List.find P (l ++ l') = match List.find P l with Some x => Some x | None => List.find P l' end.
Proof. induction l as [|x l IH]; [done|]. cbn. by destruct (P x). Qed.

Lemma scan_rsdp_val start end_ : Z.ldiff start 0xF = start -> 0 < start < end_ -> end_ <= PHYS_LIMIT ->
  scan_rsdp mem start end_ = Val (List.find valid_rsdp (positions start end_)).
Proof. intros E Hs He. unfold scan_rsdp. rewrite E. cbv zeta. apply scan_loop_val; lia. Qed.

Lemma paragraph_aligned x : Z.ldiff (Z.shiftl x 4) 0xF = Z.shiftl x 4.
Proof.
  apply Z.bits_inj'. intros i Hi. rewrite Z.ldiff_spec, Z.shiftl_spec by done. change 0xF with (Z.ones 4).
  destruct (Z.ltb_spec i 4); [by rewrite Z.testbit_neg_r by lia|].
  rewrite Z.ones_spec_high by lia. by rewrite andb_true_r.
Qed.

Lemma find_rsdp_val : find_rsdp mem = Val (List.find valid_rsdp searched).
Proof using Hmem.
  unfold find_rsdp, rd_u16. rewrite rd_val by (unfold PHYS_LIMIT; lia). cbn [mbind outcome_bind].
  unfold searched. cbv zeta. rewrite find_app. pose proof (paragraph_aligned (le 2 0x40E)) as Ea.
  rewrite (scan_rsdp_val 0xE0000 0x100000) by (done || (unfold PHYS_LIMIT; lia)).
  set (e := Z.shiftl (le 2 0x40E) 4) in *. clearbody e.
  destruct ((0x400 <=? e) && (e <? 0xA0000)) eqn:E; [|reflexivity].
  apply andb_true_iff in E as [E1%Z.leb_le E2%Z.ltb_lt].
  rewrite scan_rsdp_val by (exact Ea || (unfold PHYS_LIMIT; lia)). cbn [mbind outcome_bind].
  destruct (List.find valid_rsdp (positions e (e + 0x400))); reflexivity.
Qed.

(** ** The tables *)

Lemma valid_positions x : x ∈ searched -> 0x400 <= x <= 0x100000.
Proof.
  unfold searched, positions. cbv zeta. intros [Hx|Hx]%elem_of_app.
  - destruct ((0x400 <=? _) && _) eqn:E; [|by apply elem_of_nil in Hx]. apply andb_true_iff in E as [E1%Z.leb_le E2%Z.ltb_lt].
    apply list_elem_of_fmap in Hx as (k & -> & Hk%elem_of_seqZ). lia.
  - apply list_elem_of_fmap in Hx as (k & -> & Hk%elem_of_seqZ). lia.
Qed.

(** The root table of a root pointer and the size of its entries. *)
Definition root_of (rsdp : Z) : Z * Z :=
  let rsdt := (le 4 (rsdp + 16), 4) in
  if 2 <=? mem (rsdp + 15) then
    let xsdt := le 8 (rsdp + 24) in if readable xsdt 36 then (xsdt, 8) else rsdt
  else rsdt.

Lemma root_sdt_val p : 0x400 <= p <= 0x100000 -> root_sdt mem p = Val (root_of p).
Proof.
  intros Hp. unfold root_sdt, rd_u32, rd_u64, root_of. rewrite rd_u8_val by (unfold PHYS_LIMIT; lia).
  rewrite !rd_val by (unfold PHYS_LIMIT; lia). cbn [mbind outcome_bind]. cbv zeta.
  destruct (2 <=? _); [|done]. by destruct (readable _ _).
Qed.

Lemma root_of_spec p root es : root_of p = (root, es) -> 0 <= root /\ (es = 4 \/ es = 8).
Proof using Hmem.
  unfold root_of. cbv zeta. pose proof (le_bound 4 (p + 16)). pose proof (le_bound 8 (p + 24)).
  destruct (2 <=? _); [destruct (readable _ _)|]; intros [= <- <-]; lia.
Qed.

(** The tables the root table lists: the entries, at most 1024, that are mapped. *)
Definition entries (root es : Z) : list Z :=
  (fun i => le es (root + 36 + i * es)) <$> seqZ 0 (Z.min ((le 4 (root + 4) - 36) / es) 1024).
Definition sdts : list Z :=
  match List.find valid_rsdp searched with
  | None => []
  | Some rsdp =>
      let '(root, es) := root_of rsdp in
      if readable root 36 && ((36 <=? le 4 (root + 4)) && readable root (le 4 (root + 4)))
      then List.filter (fun t => readable t 36) (entries root es) else []
  end.

Lemma sdt_entry_val {S} (f : S -> bytes -> Z -> outcome unit S) root es s i :
  0 <= root + 36 + i * es -> es = 4 \/ es = 8 -> root + 36 + i * es + es <= PHYS_LIMIT ->
  let t := le es (root + 36 + i * es) in
  sdt_entry mem f root es s i = if readable t 36 then f s (region t 4) t else Val s.
Proof using Hmem.
  intros H0 He Hl t. unfold sdt_entry, rd_u64, rd_u32. cbv zeta.
  assert (E : (if es =? 8 then rd mem 8 (root + 36 + i * es) else rd mem 4 (root + 36 + i * es)) = Val t).
  { destruct He as [-> | ->]; cbn [Z.eqb Pos.eqb]; apply rd_val; lia. }
  rewrite E. cbn [mbind outcome_bind]. destruct (readable t 36) eqn:Er; cbn [negb]; [|done].
  apply readable_spec in Er. pose proof (le_bound es (root + 36 + i * es)). by rewrite bytes_val by lia.
Qed.

Lemma entries_fold {S} (f : S -> bytes -> Z -> outcome unit S) root es l : forall s,
  es = 4 \/ es = 8 -> Forall (fun i => 0 <= root + 36 + i * es /\ root + 36 + i * es + es <= PHYS_LIMIT) l ->
  fold_o (sdt_entry mem f root es) s l =
  fold_o (fun s t => f s (region t 4) t) s (List.filter (fun t => readable t 36) ((fun i => le es (root + 36 + i * es)) <$> l)).
Proof using Hmem.
  intros s He Hl. revert s. induction Hl as [|i l [Hi Hl] _ IH]; intros s; [done|].
  cbn [fold_o fmap list_fmap List.filter]. rewrite sdt_entry_val by done. cbv zeta.
  destruct (readable _ 36); cbn [mbind outcome_bind fold_o]; [|apply IH].
  destruct (f _ _ _); cbn [mbind outcome_bind]; [apply IH|done..].
Qed.

(** Every table listed is visited once, in order. *)
Lemma for_each_sdt_val {S} (f : S -> bytes -> Z -> outcome unit S) s :
  for_each_sdt mem f s = fold_o (fun s t => f s (region t 4) t) s sdts.
Proof using Hmem.
  unfold for_each_sdt, sdts. rewrite find_rsdp_val. cbn [mbind outcome_bind].
  destruct (List.find valid_rsdp searched) as [p|] eqn:Ep; [|done].
  apply List.find_some in Ep as [Hp _]. apply list_elem_of_In, valid_positions in Hp. rewrite root_sdt_val by done.
  cbn [mbind outcome_bind]. destruct (root_of p) as [root es] eqn:Er. destruct (root_of_spec _ _ _ Er) as [Hr He].
  destruct (readable root 36) eqn:E36; cbn [andb]; [|done]. apply readable_spec in E36.
  unfold rd_u32. rewrite rd_val by lia. cbn [mbind outcome_bind]. set (n := le 4 (root + 4)).
  destruct (Z.ltb_spec n 36) as [Hn|Hn]; [by rewrite (proj2 (Z.leb_gt _ _)) by done|].
  rewrite (proj2 (Z.leb_le _ _)) by done. cbn [orb andb].
  destruct (readable root n) eqn:En; cbn [negb]; [|done]. apply readable_spec in En.
  cbv zeta. unfold entries. fold n. apply entries_fold; [done|].
  apply Forall_forall. intros i Hi. apply elem_of_seqZ in Hi. destruct He as [-> | ->]; lia.
Qed.

(** ** The FADT *)

Definition gas_of (pa : Z) : option Z :=
  if (mem pa =? 1) && (negb (le 8 (pa + 4) =? 0) && (le 8 (pa + 4) <=? 0xFFFF)) then Some (le 8 (pa + 4)) else None.

(** Its fields, the extended ones preferred where the table has them. *)
Definition fadt_of (pa : Z) : Fadt :=
  let n := le 4 (pa + 4) in
  mk_fadt (le 4 (pa + 48)) (mem (pa + 52))
    (default (le 4 (pa + 64)) (if 184 <=? n then gas_of (pa + 172) else None))
    (default (le 4 (pa + 68)) (if 196 <=? n then gas_of (pa + 184) else None))
    (if (148 <=? n) && readable (le 8 (pa + 140)) 36 then le 8 (pa + 140) else le 4 (pa + 40)).

Lemma gas_val pa : 0 <= pa -> pa + 12 <= PHYS_LIMIT -> gas_io_port mem pa = Val (gas_of pa).
Proof. intros H0 H1. unfold gas_io_port, rd_u64. by rewrite rd_u8_val, rd_val by lia. Qed.

Lemma parse_fadt_val pa : 0 <= pa -> pa + 196 <= PHYS_LIMIT -> parse_fadt mem pa = Val (fadt_of pa).
Proof.
  intros H0 H1. unfold parse_fadt, rd_u32, rd_u64. rewrite !rd_val, !rd_u8_val, !gas_val by lia. cbn [mbind outcome_bind].
  unfold fadt_of. cbv zeta.
  destruct (148 <=? _); cbn [andb mbind outcome_bind]; [destruct (readable _ _)|];
    (destruct (184 <=? _); cbn [mbind outcome_bind]; [destruct (gas_of (pa + 172))|]);
    (destruct (196 <=? _); cbn [mbind outcome_bind]; [destruct (gas_of (pa + 184))|]); reflexivity.
Qed.

(** No FADT so close to the end of the window that its fields lie beyond it. *)
Definition fadts_mapped : Prop :=
  forall t, 0 <= t -> PHYS_LIMIT < t + 196 -> t + 36 <= PHYS_LIMIT -> region t 4 <> str "FACP".

Definition has_sig (sig : bytes) (t : Z) : bool := bool_decide (region t 4 = sig).

Lemma collect_val fadt ss t : fadts_mapped -> 0 <= t -> t + 36 <= PHYS_LIMIT ->
  collect mem (fadt, ss) (region t 4) t =
  Val (if has_sig (str "FACP") t then (Some (fadt_of t), ss)
       else if has_sig (str "SSDT") t && (length ss <? 8)%nat then (fadt, ss ++ [t]) else (fadt, ss)).
Proof.
  intros Hm H0 Ht. unfold collect, has_sig. case_bool_decide as E.
  - rewrite parse_fadt_val; [done|done|]. destruct (Z.le_gt_cases (t + 196) PHYS_LIMIT); [done|]. by destruct (Hm t).
  - by destruct (_ && _).
Qed.

Lemma sigs_differ t : has_sig (str "FACP") t = true -> has_sig (str "SSDT") t = false.
Proof. unfold has_sig. rewrite bool_decide_eq_true, bool_decide_eq_false. by intros ->. Qed.

Lemma collect_fold ts : fadts_mapped -> Forall (fun t => 0 <= t /\ t + 36 <= PHYS_LIMIT) ts -> forall fadt ss,
  fold_o (fun s t => collect mem s (region t 4) t) (fadt, ss) ts =
  Val (match last (List.filter (has_sig (str "FACP")) ts) with Some t => Some (fadt_of t) | None => fadt end,
       ss ++ take (8 - length ss) (List.filter (has_sig (str "SSDT")) ts)).
Proof.
  intros Hm Hts. induction Hts as [|t ts [Ht0 Ht] _ IH]; intros fadt ss.
  { cbn. by rewrite take_nil, app_nil_r. }
  cbn [fold_o List.filter]. rewrite collect_val by done. destruct (has_sig (str "FACP") t) eqn:E.
  - rewrite (sigs_differ t E). cbn [mbind outcome_bind]. rewrite IH.
    rewrite last_cons. by destruct (last _).
  - destruct (has_sig (str "SSDT") t) eqn:E'; cbn [andb]; [|apply IH].
    destruct (Nat.ltb_spec (length ss) 8); cbn [mbind outcome_bind]; rewrite IH.
    + rewrite length_app, <- app_assoc. cbn [length].
      by replace (8 - length ss)%nat with (S (8 - (length ss + 1)))%nat by lia.
    + by replace (8 - length ss)%nat with 0%nat by lia.
Qed.

(** ** The soft-off package *)

(** A name [_S5_] that a NameOp introduces, its root prefix optional, and a
    PackageOp follows. *)
Definition s5_at (table end_ p : Z) : bool :=
  bool_decide (region p 4 = str "_S5_") &&
  (((mem (p - 1) =? 0x08) || ((mem (p - 1) =? 92) && ((if table + 2 <=? p then mem (p - 2) else 0) =? 0x08))) &&
   ((p + 4 <? end_) && (mem (p + 4) =? 0x12))).

Lemma s5_loop_val fuel : forall table p end_, 0 < table < p -> end_ <= PHYS_LIMIT -> end_ - p < Z.of_nat fuel ->
  (0 < fuel)%nat ->
  s5_loop mem fuel table p end_ =
  match List.find (s5_at table end_) (seqZ p (end_ - p - 3)) with
  | Some h => parse_s5_package mem (h + 5) end_
  | None => Val None
  end.
Proof.
  induction fuel as [|fuel IH]; intros table p end_ Hp He Hf H0; [lia|]. cbn [s5_loop].
  destruct (Z.leb_spec (p + 4) end_) as [Hle|Hgt]; [|by rewrite seqZ_nil by lia].
  rewrite matches_val by (cbn; lia). change (len (str "_S5_")) with 4. cbn [mbind outcome_bind].
  rewrite seqZ_cons by lia. cbn [List.find]. rewrite <- Z.add_1_r. replace (Z.pred (end_ - p - 3)) with (end_ - (p + 1) - 3) by lia.
  assert (Hnext : s5_loop mem fuel table (p + 1) end_ =
    match List.find (s5_at table end_) (seqZ (p + 1) (end_ - (p + 1) - 3)) with
    | Some h => parse_s5_package mem (h + 5) end_
    | None => Val None
    end) by (apply IH; lia).
  unfold s5_at at 1. destruct (bool_decide (region p 4 = str "_S5_")); cbn [andb]; [|done].
  rewrite (rd_u8_val (p - 1)) by lia. cbn [mbind outcome_bind].
  assert (E2 : (if table + 2 <=? p then rd_u8 mem (p - 2) else Val 0) = Val (if table + 2 <=? p then mem (p - 2) else 0)).
  { destruct (table + 2 <=? p); [|done]. apply rd_u8_val. lia. }
  rewrite E2. cbn [mbind outcome_bind]. cbv zeta.
  assert (E4 : (if p + 4 <? end_ then b ← rd_u8 mem (p + 4); Val (b =? 0x12) else Val false) =
    Val ((p + 4 <? end_) && (mem (p + 4) =? 0x12))).
  { destruct (Z.ltb_spec (p + 4) end_); [|done]. by rewrite rd_u8_val by lia. }
  rewrite E4. cbn [mbind outcome_bind]. match goal with |- (if ?b then _ else _) = _ => by destruct b end.
Qed.

Lemma read_aml_byte_total q end_ : 0 <= q -> end_ <= PHYS_LIMIT ->
  exists v q', read_aml_byte mem q end_ = Val (v, q') /\ q <= q'.
Proof.
  intros Hq He. unfold read_aml_byte. destruct (Z.leb_spec end_ q); [by exists None, q|].
  rewrite rd_u8_val by lia. cbn [mbind outcome_bind]. cbv zeta.
  set (q1 := if mem q =? 0x0A then q + 1 else q). assert (q <= q1) by (unfold q1; destruct (_ =? _); lia).
  destruct (Z.leb_spec end_ q1); [by exists None, q1|]. rewrite rd_u8_val by lia. cbn [mbind outcome_bind].
  exists (Some (mem q1)), (q1 + 1). split; [done|lia].
Qed.

Lemma parse_s5_total q end_ : 0 <= q -> end_ <= PHYS_LIMIT -> exists r, parse_s5_package mem q end_ = Val r.
Proof.
  intros Hq He. unfold parse_s5_package. destruct (Z.leb_spec end_ q); [by eexists|].
  rewrite rd_u8_val by lia. cbn [mbind outcome_bind]. cbv zeta.
  assert (0 <= Z.shiftr (mem q) 6) by (apply Z.shiftr_nonneg, Hmem).
  destruct (read_aml_byte_total (q + (Z.shiftr (mem q) 6 + 2)) end_) as (a & q' & -> & Hq'); [lia|done|].
  cbn [mbind outcome_bind]. destruct a; [|by eexists].
  destruct (read_aml_byte_total q' end_) as (b & q'' & -> & _); [lia|done|]. by eexists.
Qed.

(** The package of a table, if it has one. *)
Definition s5_place (table : Z) : option Z :=
  let n := le 4 (table + 4) in
  if readable table 36 && ((36 <=? n) && readable table n)
  then List.find (s5_at table (table + n)) (seqZ (table + 36) (n - 39)) else None.

Lemma find_s5_val table : 0 <= table ->
  find_s5 mem table =
  match s5_place table with
  | Some h => parse_s5_package mem (h + 5) (table + le 4 (table + 4))
  | None => Val None
  end.
Proof using Hmem.
  intros Ht. unfold find_s5, s5_place. cbv zeta. destruct (readable table 36) eqn:E; cbn [negb andb]; [|done].
  apply readable_spec in E. unfold rd_u32. rewrite rd_val by lia. cbn [mbind outcome_bind]. set (n := le 4 (table + 4)).
  destruct (Z.ltb_spec n 36); [by rewrite (proj2 (Z.leb_gt _ _)) by done|]. rewrite (proj2 (Z.leb_le _ _)) by done.
  cbn [orb andb]. destruct (readable table n) eqn:En; cbn [negb]; [|done]. apply readable_spec in En.
  rewrite s5_loop_val by lia. by replace (table + n - (table + 36) - 3) with (n - 39) by lia.
Qed.

Lemma find_s5_total table : 0 <= table -> exists r, find_s5 mem table = Val r.
Proof using Hmem.
  intros Ht. rewrite find_s5_val by done. destruct (s5_place table) as [h|] eqn:E; [|by eexists].
  unfold s5_place in E. cbv zeta in E. destruct (_ && _) eqn:Eb; [|done].
  apply andb_true_iff in Eb as [_ [_ Hr%readable_spec]%andb_true_iff].
  apply List.find_some in E as [Hh _]. apply list_elem_of_In, elem_of_seqZ in Hh. apply parse_s5_total; lia.
Qed.

Lemma find_first_total ts : Forall (fun t => 0 <= t) ts -> exists r, find_first mem ts = Val r.
Proof using Hmem.
  induction 1 as [|t ts Ht _ (r & IH)]; [by eexists|]. cbn [find_first].
  destruct (find_s5_total t Ht) as [[s|] ->]; [by eexists|]. by exists r.
Qed.

(** A small integer in AML: a byte, or a byte behind a BytePrefix. *)
Definition aml_int (v : Z) (enc : bytes) : Prop := enc = [v] /\ v <> 0x0A \/ enc = [0x0A; v].

(** The bytes [bs] lie at [pa]. *)
Definition lies (pa : Z) (bs : bytes) : Prop := region pa (len bs) = bs.

Lemma lies_cons pa b bs : lies pa (b :: bs) <-> mem pa = b /\ lies (pa + 1) bs.
Proof.
  unfold lies. cbn [length]. rewrite region_cons by lia. replace (Z.of_nat (S (length bs)) - 1) with (len bs) by lia.
  split; [by intros [= -> ->]|by intros [-> ->]].
Qed.

Lemma lies_app pa l l' : lies pa (l ++ l') <-> lies pa l /\ lies (pa + len l) l'.
Proof.
  revert pa. induction l as [|b l IH]; intros pa; cbn [app].
  - cbn [length]. rewrite Z.add_0_r. unfold lies at 2. cbn. tauto.
  - rewrite !lies_cons, IH. cbn [length]. replace (pa + 1 + len l) with (pa + Z.of_nat (S (length l))) by lia. tauto.
Qed.

Lemma read_aml_byte_val v enc q end_ : aml_int v enc -> lies q enc -> 0 <= q -> q + len enc <= end_ -> end_ <= PHYS_LIMIT ->
  read_aml_byte mem q end_ = Val (Some v, q + len enc).
Proof.
  intros Ha Hl Hq He Hw. unfold read_aml_byte. destruct Ha as [[-> Hv]| ->]; cbn [length] in *.
  - apply lies_cons in Hl as [E _]. rewrite (proj2 (Z.leb_gt _ _)), rd_u8_val, E by lia. cbn [mbind outcome_bind]. cbv zeta.
    rewrite (proj2 (Z.eqb_neq v _)) by done. rewrite (proj2 (Z.leb_gt _ _)) by lia. by rewrite rd_u8_val, E by lia.
  - apply lies_cons in Hl as [E [E' _]%lies_cons]. rewrite (proj2 (Z.leb_gt _ _)), rd_u8_val, E by lia. cbn [mbind outcome_bind].
    cbv zeta. cbn [Z.eqb Pos.eqb]. rewrite (proj2 (Z.leb_gt _ _)), rd_u8_val, E' by lia. cbn [mbind outcome_bind].
    by replace (q + 1 + 1) with (q + Z.of_nat 2) by lia.
Qed.

(** The body of the package: its length in one to four bytes, the number of
    its elements, and the two sleep types. *)
Definition s5_body (a b : Z) (bs : bytes) : Prop := exists lead ext count ea eb rest,
  bs = lead :: ext ++ count :: ea ++ eb ++ rest /\ len ext = Z.shiftr lead 6 /\ aml_int a ea /\ aml_int b eb.

Lemma parse_s5_val a b bs q end_ : s5_body a b bs -> lies q bs -> 0 <= q -> q + len bs = end_ -> end_ <= PHYS_LIMIT ->
  parse_s5_package mem q end_ = Val (Some (mk_s5 a b)).
Proof.
  intros (lead & ext & count & ea & eb & rest & -> & Hx & Ha & Hb) Hl Hq He Hw.
  apply lies_cons in Hl as [E [_ [_ [Hea [Heb _]%lies_app]%lies_app]%lies_cons]%lies_app].
  repeat (cbn [length] in He; rewrite length_app in He). cbn [length] in He. unfold parse_s5_package.
  rewrite (proj2 (Z.leb_gt _ _)), rd_u8_val, E by lia. cbn [mbind outcome_bind]. cbv zeta.
  replace (q + (Z.shiftr lead 6 + 2)) with (q + 1 + len ext + 1) by lia.
  rewrite (read_aml_byte_val a ea) by (done || lia). cbn [mbind outcome_bind].
  by rewrite (read_aml_byte_val b eb) by (done || lia).
Qed.
End Memory.

Section Ports.
Context {H : Type} `{!Chipset H}.
Implicit Types (m : Machine H) (l : list Io).

(** SCI_EN as a port shows it. *)
Definition acpi_mode (v : Z) : Prop := Z.land v SCI_EN <> 0.

(** Waiting for the mode: at most 300 looks, 10 ms after each one in vain. *)
Definition polled (tries : nat) (port : Z) l : Prop := exists vs seen,
  l = concat ((fun v => [Inw port v; Delay 10]) <$> vs) ++ seen /\ Forall (fun v => ~ acpi_mode v) vs /\
  ((seen = [] /\ length vs = tries) \/ (exists v, seen = [Inw port v] /\ acpi_mode v) /\ (length vs < tries)%nat).

(** Switching to ACPI mode: a look, and the enable command with the wait where
    the mode is off and the firmware has the command. *)
Definition switched (f : Fadt) l : Prop := exists v,
  (l = [Inw (pm1a_cnt f) v] /\
     (acpi_mode v \/ ~ (0 < smi_cmd f <= 0xFFFF) \/ acpi_enable f = 0)) \/
  (~ acpi_mode v /\ exists q, l = Inw (pm1a_cnt f) v :: Outb (smi_cmd f) (acpi_enable f) :: q /\ polled 300 (pm1a_cnt f) q).

Lemma wait_sci_ends tries port : forall m,
  exists h l, wait_sci tries port m = (Val tt, mk_machine (log m ++ l) h) /\ polled tries port l.
Proof.
  induction tries as [|tries IH]; intros m.
  { exists (chip m), []. cbn. rewrite app_nil_r. split; [by destruct m|]. exists [], []. split_and!; [done|done|by left]. }
  cbn [wait_sci]. unfold mbind, stM_bind, read_port. destruct (inw port (chip m)) as [v h].
  destruct (Z.eqb_spec (Z.land v SCI_EN) 0) as [E|E].
  - unfold pause, modify. cbn [log chip].
    destruct (IH (mk_machine ((log m ++ [Inw port v]) ++ [Delay 10]) (delay_ms 10 h))) as (h' & l & -> & vs & seen & -> & Hvs & Hs).
    eexists h', _. cbn [log]. rewrite <- !app_assoc. split; [done|]. exists (v :: vs), seen. split_and!; [done| |].
    + apply Forall_cons. split; [|done]. unfold acpi_mode. lia.
    + cbn [length]. destruct Hs as [[-> <-]|[Hs Hlt]]; [by left|right]. split; [done|lia].
  - exists h, [Inw port v]. split; [done|]. exists [], [Inw port v]. split_and!; [done|done|]. right. split; [by exists v|cbn; lia].
Qed.

Lemma enable_acpi_ends f m : 0 <= smi_cmd f -> 0 < pm1a_cnt f <= 0xFFFF ->
  exists h l, enable_acpi f m = (Val tt, mk_machine (log m ++ l) h) /\ switched f l.
Proof.
  intros Hs0 Hp. unfold enable_acpi. rewrite (proj2 (Z.eqb_neq _ _)), (proj2 (Z.ltb_ge _ _)) by lia. cbn [orb].
  unfold mbind, stM_bind, read_port. destruct (inw (pm1a_cnt f) (chip m)) as [v h].
  destruct (Z.eqb_spec (Z.land v SCI_EN) 0) as [E|E]; cbn [negb].
  2: { exists h, [Inw (pm1a_cnt f) v]. split; [done|]. exists v. left. split; [done|by left]. }
  destruct ((smi_cmd f =? 0) || (0xFFFF <? smi_cmd f) || (acpi_enable f =? 0)) eqn:Es.
  - exists h, [Inw (pm1a_cnt f) v]. split; [done|]. exists v. left. split; [done|right].
    rewrite !orb_true_iff, !Z.eqb_eq, Z.ltb_lt in Es. destruct Es as [[Es|Es]|Es]; [left; lia|left; lia|by right].
  - unfold write_u8, modify. cbn [log chip].
    destruct (wait_sci_ends 300 (pm1a_cnt f)
      (mk_machine ((log m ++ [Inw (pm1a_cnt f) v]) ++ [Outb (smi_cmd f) (acpi_enable f)]) (outb (smi_cmd f) (acpi_enable f) h)))
      as (h' & q & -> & Hq).
    eexists h', _. cbn [log]. rewrite <- !app_assoc. split; [done|]. exists v. right. split; [unfold acpi_mode; lia|by exists q].
Qed.

(** The value that enters the sleep state of type [t]. *)
Definition sleep_type (t : Z) : Z := (t mod 8) * 2 ^ 10 + 2 ^ 13.

Lemma sleep_value_eq t : sleep_value t = sleep_type t.
Proof.
  unfold sleep_value, sleep_type. change 7 with (Z.ones 3). rewrite Z.land_ones by done. change (2 ^ 3) with 8.
  pose proof (Z.mod_pos_bound t 8 eq_refl). set (r := t mod 8) in *. clearbody r.
  assert (r = 0 \/ r = 1 \/ r = 2 \/ r = 3 \/ r = 4 \/ r = 5 \/ r = 6 \/ r = 7) as E by lia.
  by repeat destruct E as [->|E]; subst.
Qed.

(** What the soft-off of a machine with the FADT [f] does on its ports. *)
Definition soft_off (f : Fadt) (a b : Z) l : Prop := exists q,
  switched f q /\
  l = q ++ Outw (pm1a_cnt f) (sleep_type a) ::
    (if decide (0 < pm1b_cnt f <= 0xFFFF) then [Outw (pm1b_cnt f) (sleep_type b)] else []) ++ [Delay 100].
End Ports.

Section Poweroff.
Context {H : Type} `{!Chipset H} (mem : Z -> byte) (Hmem : forall pa, is_byte (mem pa)).
Context (Hfit : fadts_mapped mem) (m : Machine H).

Definition facps : list Z := List.filter (has_sig mem (str "FACP")) (sdts mem).
(** The tables searched for the package of the soft-off state. *)
Definition aml_tables (f : Fadt) : list Z := dsdt f :: take 8 (List.filter (has_sig mem (str "SSDT")) (sdts mem)).

Lemma sdts_mapped : Forall (fun t => 0 <= t /\ t + 36 <= PHYS_LIMIT) (sdts mem).
Proof using Hmem.
  unfold sdts. destruct (List.find _ _) as [p|]; [|by apply Forall_nil_2]. destruct (root_of mem p) as [root es] eqn:E.
  destruct (root_of_spec mem Hmem _ _ _ E) as [_ He]. destruct (_ && _); [|by apply Forall_nil_2].
  apply Forall_forall. intros t [Hin Ht]%list_elem_of_In%List.filter_In. apply readable_spec in Ht.
  apply list_elem_of_In, list_elem_of_fmap in Hin as (i & -> & _). split; [|lia]. apply le_bound; [done|lia].
Qed.

Lemma tables_collected : for_each_sdt mem (collect mem) (None, []) =
  Val (fadt_of mem <$> last facps, take 8 (List.filter (has_sig mem (str "SSDT")) (sdts mem))).
Proof using Hmem Hfit.
  rewrite for_each_sdt_val, collect_fold by (done || apply sdts_mapped). unfold facps.
  by destruct (last _).
Qed.

Lemma fadt_bounds pa : let f := fadt_of mem pa in 0 <= smi_cmd f /\ 0 <= pm1a_cnt f /\ 0 <= pm1b_cnt f /\ 0 <= dsdt f.
Proof using Hmem.
  cbn. assert (Hg : forall (b : bool) p x, 0 <= x -> 0 <= default x (if b then gas_of mem p else None)).
  { intros b p x Hx. destruct b; [|done]. unfold gas_of. destruct (_ && _); [|done]. cbn. by apply le_bound. }
  split_and!; [by apply le_bound|apply Hg; by apply le_bound|apply Hg; by apply le_bound|].
  destruct (_ && _); by apply le_bound.
Qed.

Lemma aml_tables_mapped pa : Forall (fun t => 0 <= t) (aml_tables (fadt_of mem pa)).
Proof using Hmem.
  apply Forall_cons. split; [apply fadt_bounds|]. apply Forall_take, Forall_forall.
  intros t [Ht _]%list_elem_of_In%List.filter_In. pose proof sdts_mapped as Hs. rewrite Forall_forall in Hs.
  apply (Hs t). by apply list_elem_of_In.
Qed.

(** The writes, once everything is known. *)
Lemma poweroff_known pa s5 : last facps = Some pa -> find_first mem (aml_tables (fadt_of mem pa)) = Val (Some s5) ->
  0 < pm1a_cnt (fadt_of mem pa) <= 0xFFFF ->
  exists h l, poweroff mem m = (Val (str "PM1 write ignored"), mk_machine (log m ++ l) h) /\
    soft_off (fadt_of mem pa) (s5_a s5) (s5_b s5) l.
Proof using Hmem Hfit.
  intros Hl Hs Hp. pose proof (fadt_bounds pa) as (Hb1 & _ & Hb2 & _). set (f := fadt_of mem pa) in *.
  unfold poweroff, lift. unfold mbind at 1, stM_bind at 1. rewrite tables_collected, Hl. cbn [fmap option_fmap option_map].
  fold f. unfold mbind at 1, stM_bind at 1. change (dsdt f :: _) with (aml_tables f). rewrite Hs. cbv beta iota.
  rewrite (proj2 (Z.eqb_neq _ _)), (proj2 (Z.ltb_ge _ _)) by lia. cbn [orb].
  unfold mbind at 1, stM_bind at 1. destruct (enable_acpi_ends f m Hb1 Hp) as (h & q & -> & Hq).
  unfold write_u16, pause, modify, mbind, stM_bind. cbn [log chip]. rewrite !sleep_value_eq.
  destruct (decide (0 < pm1b_cnt f <= 0xFFFF)) as [Hd|Hd].
  - rewrite (proj2 (Z.eqb_neq _ _)), (proj2 (Z.leb_le _ _)) by lia. cbn [negb andb log chip].
    rewrite <- !app_assoc. eexists _, _. split; [reflexivity|]. exists q. by rewrite decide_True.
  - assert (E : negb (pm1b_cnt f =? 0) && (pm1b_cnt f <=? 0xFFFF) = false).
    { apply andb_false_iff. rewrite negb_false_iff, Z.eqb_eq, Z.leb_gt. lia. }
    rewrite E. unfold mret, stM_ret. cbn [log chip]. rewrite <- !app_assoc. eexists _, _. split; [reflexivity|]. exists q. by rewrite decide_False.
Qed.

(** The reasons to give up before anything is written. *)
Definition undescribed (r : bytes) : Prop := r = str "no FADT" \/ r = str "no _S5_" \/ r = str "no PM1a port".

Lemma poweroff_cases :
  (exists r, poweroff mem m = (Val r, m) /\ undescribed r) \/
  (exists pa s5, last facps = Some pa /\ find_first mem (aml_tables (fadt_of mem pa)) = Val (Some s5) /\
     0 < pm1a_cnt (fadt_of mem pa) <= 0xFFFF).
Proof using Hmem Hfit.
  unfold poweroff, lift. unfold mbind at 1, stM_bind at 1. rewrite tables_collected.
  destruct (last facps) as [pa|]; cbn [fmap option_fmap option_map].
  2: { left. eexists. split; [done|by left]. }
  unfold mbind at 1, stM_bind at 1. change (dsdt (fadt_of mem pa) :: _) with (aml_tables (fadt_of mem pa)).
  destruct (find_first_total mem Hmem _ (aml_tables_mapped pa)) as [[s5|] Es].
  - pose proof (fadt_bounds pa) as (_ & Hb & _).
    destruct (decide (0 < pm1a_cnt (fadt_of mem pa) <= 0xFFFF)) as [Hp|Hp]; [right; by exists pa, s5|].
    left. exists (str "no PM1a port"). split; [|by right; right]. rewrite Es. cbv beta iota.
    assert (E : (pm1a_cnt (fadt_of mem pa) =? 0) || (0xFFFF <? pm1a_cnt (fadt_of mem pa)) = true).
    { rewrite orb_true_iff, Z.eqb_eq, Z.ltb_lt. lia. }
    by rewrite E.
  - left. exists (str "no _S5_"). rewrite Es. split; [done|by right; left].
Qed.
End Poweroff.

Lemma find_first_val mem (Hmem : forall pa, is_byte (mem pa)) before t after h a b bs :
  Forall (fun t => 0 <= t) (before ++ t :: after) -> Forall (fun t => s5_place mem t = None) before ->
  s5_place mem t = Some h -> lies mem (h + 5) bs -> h + 5 + len bs = t + le mem 4 (t + 4) -> s5_body a b bs ->
  find_first mem (before ++ t :: after) = Val (Some (mk_s5 a b)).
Proof.
  intros H0 Hb Ht Hl He Hbs. induction Hb as [|u before Hu _ IH]; cbn [app find_first] in *.
  - apply Forall_cons in H0 as [H0 _]. rewrite find_s5_val by done. rewrite Ht.
    unfold s5_place in Ht. cbv zeta in Ht. destruct (_ && _) eqn:Eb; [|done].
    apply andb_true_iff in Eb as [_ [_ Hr%readable_spec]%andb_true_iff].
    apply List.find_some in Ht as [Hh _]. apply list_elem_of_In, elem_of_seqZ in Hh.
    rewrite (parse_s5_val mem a b bs) by (done || lia). done.
  - apply Forall_cons in H0 as [Hu0 H0]. rewrite find_s5_val, Hu by done. cbn [mbind outcome_bind]. by apply IH.
Qed.

(** ** Theorems *)

(** C39: powering off ends, whatever the firmware's tables hold, when no FADT
    lies so close to 4 GiB that its fields are not mapped: no read faults, no
    loop runs on.  It answers a reason; a machine that does not describe the
    soft-off is not touched, and otherwise the ports see the switch to ACPI
    mode (with at most 300 looks), one sleep write to each PM1 port and the
    final wait, and nothing else. *)
Theorem poweroff_returns {H} `{!Chipset H} (mem : Z -> byte) (m : Machine H) :
  (forall pa, is_byte (mem pa)) -> fadts_mapped mem ->
  exists r h l, poweroff mem m = (Val r, mk_machine (log m ++ l) h) /\
    (l = [] /\ undescribed r \/
     r = str "PM1 write ignored" /\
     exists pa s5, last (facps mem) = Some pa /\ soft_off (fadt_of mem pa) (s5_a s5) (s5_b s5) l).
Proof.
  intros Hmem Hfit. destruct (poweroff_cases mem Hmem Hfit m) as [(r & E & Hr)|(pa & s5 & El & Es & Hp)].
  - exists r, (chip m), []. rewrite app_nil_r. split; [by destruct m|by left].
  - destruct (poweroff_known mem Hmem Hfit m pa s5 El Es Hp) as (h & l & E & Hl).
    exists (str "PM1 write ignored"), h, l. split; [done|right]. split; [done|by exists pa, s5].
Qed.

(** C38: where the firmware describes the soft-off, the machine is told it.  The
    last FADT of the root table gives the ports; of the DSDT and the SSDTs the
    first with an [_S5_] package gives the sleep types, however the package
    encodes its length and its integers.  Then, after the switch to ACPI mode,
    PM1a is written its type with SLP_EN set, and so is PM1b where there is
    one. *)
Theorem poweroff_sleeps {H} `{!Chipset H} (mem : Z -> byte) (m : Machine H) pa before t after h a b bs :
  (forall pa, is_byte (mem pa)) -> fadts_mapped mem -> last (facps mem) = Some pa ->
  0 < pm1a_cnt (fadt_of mem pa) <= 0xFFFF ->
  aml_tables mem (fadt_of mem pa) = before ++ t :: after -> Forall (fun t => s5_place mem t = None) before ->
  s5_place mem t = Some h -> lies mem (h + 5) bs -> h + 5 + len bs = t + le mem 4 (t + 4) -> s5_body a b bs ->
  exists c l, poweroff mem m = (Val (str "PM1 write ignored"), mk_machine (log m ++ l) c) /\
    soft_off (fadt_of mem pa) a b l.
Proof.
  intros Hmem Hfit El Hp Et Hb Ht Hl He Hbs. apply (poweroff_known mem Hmem Hfit m pa (mk_s5 a b)); [done| |done].
  pose proof (aml_tables_mapped mem Hmem pa) as H0. rewrite Et in *. by eapply find_first_val.
Qed.

(** ** Sample firmware *)

(** The bytes of a table with its header. *)
Definition sdt (sig : bytes) (body : bytes) : bytes :=
  sig ++ le_bytes 4 (36 + len body) ++ replicate 28 0 ++ body.

Definition aml : bytes := [0x10; 0x20; 0x08] ++ str "_S5_" ++ [0x12; 0x07; 0x04; 0x0A; 0x05; 0x01; 0; 0].
Definition fadt_body : bytes :=
  replicate 4 0 ++ le_bytes 4 0x3000 ++ replicate 4 0 ++ le_bytes 4 0xB2 ++ [0xF1] ++ replicate 11 0 ++
  le_bytes 4 0x604 ++ le_bytes 4 0 ++ replicate 44 0.
(** The root pointer, its checksum made right, of a root table at 0x1000. *)
Definition rsdp_bytes (root : Z) : bytes :=
  let bs := RSDP_SIG ++ [0; 0; 0; 0; 0; 0; 0; 0] ++ le_bytes 4 root in
  RSDP_SIG ++ [(- sum bs) mod 256; 0; 0; 0; 0; 0; 0; 0] ++ le_bytes 4 root.

(** A memory of segments, in its first megabyte. *)
Definition image (segments : list (Z * bytes)) (pa : Z) : byte :=
  if (0 <=? pa) && (pa <? 0x100000) then
    match List.find (fun s => (s.1 <=? pa) && (pa <? s.1 + len s.2)) segments with
    | Some s => default 0 (nth_z s.2 (pa - s.1)) mod 256
    | None => 0
    end
  else 0.

Lemma image_bytes segments pa : is_byte (image segments pa).
Proof. unfold image, is_byte. destruct (_ && _); [|lia]. destruct (List.find _ _); lia. Qed.

Lemma image_fits segments : fadts_mapped (image segments).
Proof.
  intros t Ht Hhi _. unfold PHYS_LIMIT in Hhi. rewrite region_cons by lia. unfold image at 1.
  rewrite (proj2 (Z.ltb_ge t _)) by lia. by rewrite andb_false_r.
Qed.

Definition firmware : Z -> byte := image
  [(0xE0000, rsdp_bytes 0x1000); (0x1000, sdt (str "RSDT") (le_bytes 4 0x2000)); (0x2000, sdt (str "FACP") fadt_body);
   (0x3000, sdt (str "DSDT") aml)].

(** A chipset that enters ACPI mode at the third look after the command. *)
#[local] Instance slow_chipset : Chipset nat := {|
  inw port n := (if (3 <=? n)%nat then 1 else 0, if (1 <=? n)%nat then S n else n);
  outb port v n := 1%nat;
  outw port v n := n;
  delay_ms ms n := n
|}.
Definition powered : Machine nat := mk_machine [] 0%nat.

(** The same, but for a root table that lists an FADT of which only the header is mapped. *)
Definition last_header : bytes := str "FACP" ++ le_bytes 4 116 ++ replicate 28 0.
Definition broken_firmware (pa : Z) : byte :=
  if PHYS_LIMIT - 36 <=? pa then default 0 (nth_z last_header (pa - (PHYS_LIMIT - 36))) else
  image [(0xE0000, rsdp_bytes 0x1000); (0x1000, sdt (str "RSDT") (le_bytes 4 (PHYS_LIMIT - 36)))] pa.

Lemma poweroff_returns_witness :
  (poweroff broken_firmware powered).1 = Panic /\
  exists r h l, poweroff firmware powered = (Val r, mk_machine (log powered ++ l) h) /\
    (l = [] /\ undescribed r \/
     r = str "PM1 write ignored" /\
     exists pa s5, last (facps firmware) = Some pa /\ soft_off (fadt_of firmware pa) (s5_a s5) (s5_b s5) l).
Proof.
  split; [vm_compute; reflexivity|]. apply poweroff_returns; [apply image_bytes|apply image_fits].
Defined.

Lemma poweroff_sleeps_witness :
  log (poweroff firmware powered).2 =
    [Inw 0x604 0; Outb 0xB2 0xF1; Inw 0x604 0; Delay 10; Inw 0x604 0; Delay 10; Inw 0x604 1;
     Outw 0x604 (sleep_type 5); Delay 100] /\
  exists c l, poweroff firmware powered = (Val (str "PM1 write ignored"), mk_machine (log powered ++ l) c) /\
    soft_off (fadt_of firmware 0x2000) 5 1 l.
Proof.
  split; [vm_compute; reflexivity|].
  apply (poweroff_sleeps firmware powered 0x2000 [] 0x3000 [] (0x3000 + 39) 5 1 (drop 8 aml));
    [apply image_bytes|apply image_fits|vm_compute; reflexivity|vm_compute; split; [reflexivity|by intros ?]
    |vm_compute; reflexivity|constructor|vm_compute; reflexivity|vm_compute; reflexivity|vm_compute; reflexivity|].
  exists 0x07, [], 0x04, [0x0A; 0x05], [0x01], [0; 0].
  split; [reflexivity|]. split; [reflexivity|]. split; [by right|left; by split].
Defined.
