(* ===== verification/Ata.v ===== *)
(** * The disk driver

    [kernel/src/ata.rs]: the driver of the boot disk, LBA28 programmed I/O on
    the primary master with its status polled, as a [BlockDevice]; the read-only
    queries of the four IDE slots; and what the first sector of a disk says.
    The ports are an interface.  A wait that gives up after millions of looks
    is iterated by a binary counter. *)

From S2P Require Import Prelude Types Block UiText.

Module Ata.

Definition BASE : Z := 0x1F0.
Definition CTRL : Z := 0x3F6.
Definition DRIVE_MASTER_LBA : Z := 0xE0.
Definition ST_BSY : Z := 0x80.
Definition ST_DRDY : Z := 0x40.
Definition ST_DRQ : Z := 0x08.
Definition ST_ERR : Z := 0x01.
Definition SECONDARY_BASE : Z := 0x170.
Definition SECONDARY_CTRL : Z := 0x376.
(** The looks at the status before giving up, one more than [spins] may count. *)
Definition POLL_LOOKS : positive := 10000001.
Definition SLOT_LOOKS : positive := 500001.

(** Eight- and sixteen-bit ports. *)
Class Ports (H : Type) := {
  in8 : Z -> H -> Z * H;
  out8 : Z -> Z -> H -> H;
  in16 : Z -> H -> Z * H;
  out16 : Z -> Z -> H -> H
}.

(** Whether the bits [mask] of [s] are not all clear. *)
Definition has (s mask : Z) : bool := negb (Z.land s mask =? 0).

Section Driver.
Context {H : Type} `{!Ports H}.
Abbreviation IO := (stM H StoreError) (only parsing).

Definition inb (port : Z) : IO Z := fun h => let '(v, h) := in8 port h in (Val v, h).
Definition outb (port v : Z) : IO unit := modify (out8 port v).
Definition inw (port : Z) : IO Z := fun h => let '(v, h) := in16 port h in (Val v, h).
Definition outw (port v : Z) : IO unit := modify (out16 port v).

(** Four looks at the status, 400 ns. *)
Definition pause (base : Z) : IO unit := for_each (seq 0 4) (fun _ => _ ← inb (base + 7); mret tt).

(** The body of a loop until it gives an answer, [n] times at most. *)
Fixpoint spin {A} (n : positive) (body : IO (option A)) : IO (option A) :=
  let again (m : positive) := r ← spin m body; match r with Some x => mret (Some x) | None => spin m body end in
  match n with
  | xH => body
  | xO m => again m
  | xI m => r ← body; match r with Some x => mret (Some x) | None => again m end
  end.

(** ** The bound driver *)

Definition poll_look : IO (option (outcome StoreError unit)) :=
  s ← inb (BASE + 7);
  if has s ST_ERR then _ ← inb (BASE + 1); mret (Some (Fail Io))
  else if negb (has s ST_BSY) && has s ST_DRQ then mret (Some (Val tt))
  else if negb (has s ST_BSY) && has s ST_DRDY then mret (Some (Val tt))
  else mret None.
Definition poll : IO unit :=
  _ ← pause BASE;
  r ← spin POLL_LOOKS poll_look;
  lift (default (Fail Io) r).

Definition select (lba count : Z) : IO unit :=
  _ ← outb (BASE + 6) (Z.lor DRIVE_MASTER_LBA (as_u8 (Z.land (Z.shiftr lba 24) 0x0F)));
  _ ← pause BASE;
  _ ← outb (BASE + 2) count;
  _ ← outb (BASE + 3) (as_u8 lba);
  _ ← outb (BASE + 4) (as_u8 (Z.shiftr lba 8));
  outb (BASE + 5) (as_u8 (Z.shiftr lba 16)).

Definition word_bytes (w : Z) : bytes := [as_u8 w; as_u8 (Z.shiftr w 8)].

(** The data of a sector, a word for every two bytes of the buffer. *)
Definition read_words (base : Z) (n : nat) : IO bytes :=
  bs ← for_collect (seq 0 n) (fun _ => w ← inw base; mret (word_bytes w));
  mret (concat bs).

Fixpoint words (bs : bytes) : list Z :=
  match bs with
  | b0 :: b1 :: bs => Z.lor b0 (Z.shiftl b1 8) :: words bs
  | _ => []
  end.

Definition read_boot_sector (buf : bytes) : IO bytes :=
  if negb (len buf =? SECTOR) then lift (Fail Io) else
  _ ← select 0 1;
  _ ← outb (BASE + 7) 0x20;
  _ ← poll;
  read_words BASE 256.

Definition flush_look : IO (option (outcome StoreError unit)) :=
  s ← inb (BASE + 7);
  if negb (has s ST_BSY) then mret (Some (if has s ST_ERR then Fail Io else Val tt)) else mret None.
Definition cache_flush : IO unit :=
  _ ← outb (BASE + 7) 0xE7;
  r ← spin POLL_LOOKS flush_look;
  lift (default (Fail Io) r).

(** The volume begins at [base] and has [sectors] sectors. *)
Record t := mk { base : Z; sectors : Z; ports : H }.

Definition read_at (base sectors lba : Z) (buf : bytes) : IO bytes :=
  if negb (len buf =? SECTOR) || (sectors <=? lba) then lift (Fail Io) else
  a ← lift (add_u64 base lba);
  _ ← select a 1;
  _ ← outb (BASE + 7) 0x20;
  _ ← poll;
  read_words BASE 256.

Definition write_at (base sectors lba : Z) (buf : bytes) : IO unit :=
  if negb (len buf =? SECTOR) || (sectors <=? lba) then lift (Fail Io) else
  a ← lift (add_u64 base lba);
  _ ← select a 1;
  _ ← outb (BASE + 7) 0x30;
  _ ← poll;
  _ ← for_each (words buf) (outw BASE);
  cache_flush.

Definition on_ports {A} (c : Z -> Z -> IO A) : stM t StoreError A := fun a =>
  let '(r, h) := c (base a) (sectors a) (ports a) in (r, mk (base a) (sectors a) h).

#[global] Instance device : BlockDevice t := {
  sector_count := sectors;
  read_sector lba buf := on_ports (fun base sectors => read_at base sectors lba buf);
  write_sector lba buf := on_ports (fun base sectors => write_at base sectors lba buf);
  flush := on_ports (fun _ _ => cache_flush)
}.

(** IDENTIFY on the primary master: the sectors of the disk it reports. *)
Definition identify : IO (option Z) :=
  _ ← outb CTRL 0;
  _ ← outb (BASE + 6) DRIVE_MASTER_LBA;
  _ ← pause BASE;
  _ ← outb (BASE + 2) 0;
  _ ← outb (BASE + 3) 0;
  _ ← outb (BASE + 4) 0;
  _ ← outb (BASE + 5) 0;
  _ ← outb (BASE + 7) 0xEC;
  s ← inb (BASE + 7);
  if s =? 0 then mret None else
  _ ← poll;
  id ← for_collect (seq 0 256) (fun _ => inw BASE);
  mret (Some (Z.lor (nth 60 id 0) (Z.shiftl (nth 61 id 0) 16))).

(** An error of the poll is an absent disk too. *)
Definition probe (b : Z) (h : H) : outcome unit (option t) * H :=
  match identify h with
  | (Val (Some total), h) => (Val (Some (mk b (saturating_sub total b) h)), h)
  | (Val None, h) | (Fail _, h) => (Val None, h)
  | (Panic, h) => (Panic, h)
  | (NoFuel, h) => (NoFuel, h)
  end.

(** ** The four slots *)

Definition slot_look (base : Z) : IO (option bool) :=
  s ← inb (base + 7);
  if s =? 0xFF then mret (Some false)
  else if has s ST_ERR then _ ← inb (base + 1); mret (Some false)
  else if negb (has s ST_BSY) && has s ST_DRQ then mret (Some true)
  else mret None.

Definition identify_slot (base ctrl : Z) (slave : bool) : IO (option (list Z)) :=
  _ ← outb ctrl 0;
  _ ← outb (base + 6) (if slave then 0xB0 else 0xA0);
  _ ← pause base;
  s ← inb (base + 7);
  if s =? 0xFF then mret None else
  _ ← outb (base + 2) 0;
  _ ← outb (base + 3) 0;
  _ ← outb (base + 4) 0;
  _ ← outb (base + 5) 0;
  _ ← outb (base + 7) 0xEC;
  s ← inb (base + 7);
  if s =? 0 then mret None else
  ok ← spin SLOT_LOOKS (slot_look base);
  if default false ok then id ← for_collect (seq 0 256) (fun _ => inw base); mret (Some id) else mret None.

Definition read_sector_at (base : Z) (slave : bool) (lba : Z) : IO (option bytes) :=
  _ ← outb (base + 6) (Z.lor (if slave then 0xF0 else 0xE0) (as_u8 (Z.land (Z.shiftr lba 24) 0x0F)));
  _ ← pause base;
  _ ← outb (base + 2) 1;
  _ ← outb (base + 3) (as_u8 lba);
  _ ← outb (base + 4) (as_u8 (Z.shiftr lba 8));
  _ ← outb (base + 5) (as_u8 (Z.shiftr lba 16));
  _ ← outb (base + 7) 0x20;
  ok ← spin SLOT_LOOKS (slot_look base);
  if default false ok then bs ← read_words base 256; mret (Some bs) else mret None.
End Driver.
Arguments t H : clear implicits.

(** ** The first sector *)

Record Partition := mk_partition { bootable : bool; type_byte : Z; start_lba : Z; part_sectors : Z }.

Inductive MbrInfo :=
  | TablesOs (version data_loc_lba stage2_lba stage2_sectors kernel_lba kernel_sectors kernel_load kernel_entry : Z)
             (sys_guid : bytes)
  | Partitioned (parts : list Partition)
  | Blank
  | Unknown
  | Unreadable.

(** [from_le_bytes] of a part of the sector. *)
Definition le_at (s : bytes) (i j : Z) : outcome unit Z := bs ← slice s i j; Val (of_le_bytes bs).
Definition byte_at (s : bytes) (i : Z) : outcome unit Z := or_panic (nth_z s i).

Definition partition (s : bytes) (i : nat) : outcome unit (list Partition) :=
  let off := 0x1BE + Z.of_nat i * 16 in
  type_byte ← byte_at s (off + 4);
  if type_byte =? 0 then Val [] else
  flag ← byte_at s off;
  start_lba ← le_at s (off + 8) (off + 12);
  n ← le_at s (off + 12) (off + 16);
  Val [mk_partition (flag =? 0x80) type_byte start_lba n].

Definition parse_tables_os (s : bytes) : outcome unit MbrInfo :=
  version ← le_at s 0x1B8 0x1BA;
  data_loc_lba ← le_at s 0x1BC 0x1C4;
  stage2_lba ← le_at s 0x1C4 0x1C8;
  stage2_sectors ← le_at s 0x1C8 0x1CA;
  kernel_lba ← le_at s 0x1CC 0x1D0;
  kernel_sectors ← le_at s 0x1D0 0x1D4;
  kernel_load ← le_at s 0x1D4 0x1D8;
  kernel_entry ← le_at s 0x1D8 0x1DC;
  sys_guid ← slice s 0x1DC 0x1EC;
  Val (TablesOs version data_loc_lba stage2_lba stage2_sectors kernel_lba kernel_sectors kernel_load kernel_entry sys_guid).

Definition parse_mbr (s : bytes) : outcome unit MbrInfo :=
  if len s <? 512 then Val Unreadable else
  b510 ← byte_at s 510;
  b511 ← byte_at s 511;
  let boot_sig := (b510 =? 0x55) && (b511 =? 0xAA) in
  magic ← slice s 0x1B0 0x1B8;
  if bool_decide (magic = str "TBLSBOOT") && boot_sig then parse_tables_os s
  else if negb boot_sig then Val (if forallb (fun b => b =? 0) s then Blank else Unknown)
  else
    parts ← map_o (partition s) (seq 0 4);
    Val (match concat parts with [] => Unknown | ps => Partitioned ps end).

(** ** A slot as the Drives screen shows it *)

Record DriveInfo := mk_drive {
  slot : bytes; present : bool; model : bytes; serial : bytes; firmware : bytes; lba28_sectors : Z; lba48_sectors : Z;
  boot_sig_ok : bool; mbr : MbrInfo; booted : bool
}.

Fixpoint trim_spaces (rev : bytes) : bytes := match rev with 32 :: rev => trim_spaces rev | _ => rev end.
(** The printable bytes of the words, the high byte first, less trailing spaces. *)
Definition read_id_string (id : list Z) (start n_words : Z) : outcome unit bytes :=
  ws ← slice id start (start + n_words);
  let s := List.filter (fun b => (32 <=? b) && (b <=? 126)) (concat ((fun w => [as_u8 (Z.shiftr w 8); as_u8 w]) <$> ws)) in
  Val (rev (trim_spaces (rev s))).

Definition is_booted (m : MbrInfo) (guid : bytes) : bool :=
  match m with TablesOs _ _ _ _ _ _ _ _ g => bool_decide (g = guid) | _ => false end.

Section Slots.
Context {H : Type} `{!Ports H}.
Abbreviation IO := (stM H StoreError) (only parsing).

Definition pure {A} (o : outcome unit A) : IO A :=
  lift (match o with Val a => Val a | Fail _ | Panic => Panic | NoFuel => NoFuel end).

Definition probe_one (base ctrl : Z) (slave : bool) (name guid : bytes) : IO DriveInfo :=
  id ← identify_slot base ctrl slave;
  match id with
  | None => mret (mk_drive name false [] [] [] 0 0 false Unknown false)
  | Some id =>
      model ← pure (read_id_string id 27 20);
      serial ← pure (read_id_string id 10 10);
      firmware ← pure (read_id_string id 23 4);
      let lba28 := Z.lor (nth 60 id 0) (Z.shiftl (nth 61 id 0) 16) in
      let lba48 := Z.lor (Z.lor (Z.lor (nth 100 id 0) (Z.shiftl (nth 101 id 0) 16)) (Z.shiftl (nth 102 id 0) 32))
                     (Z.shiftl (nth 103 id 0) 48) in
      sec0 ← read_sector_at base slave 0;
      '(m, sig) ← pure (match sec0 with
        | Some s => b510 ← byte_at s 510; b511 ← byte_at s 511; m ← parse_mbr s;
                    Val (m, (b510 =? 0x55) && (b511 =? 0xAA))
        | None => Val (Unreadable, false)
        end);
      mret (mk_drive name true model serial firmware lba28 lba48 sig m (is_booted m guid))
  end.

Definition slots : list (Z * Z * bool * bytes) :=
  [(BASE, CTRL, false, str "primary master"); (BASE, CTRL, true, str "primary slave");
   (SECONDARY_BASE, SECONDARY_CTRL, false, str "secondary master"); (SECONDARY_BASE, SECONDARY_CTRL, true, str "secondary slave")].

Definition enumerate_drives (guid : bytes) : IO (list DriveInfo) :=
  for_collect slots (fun '(base, ctrl, slave, name) => probe_one base ctrl slave name guid).
End Slots.

(** ** Texts of the Drives screen *)

Definition partition_type_name (t : Z) : bytes :=
  str (match t with
  | 0x01 => "FAT12" | 0x04 => "FAT16 <32M" | 0x05 => "Extended (CHS)" | 0x06 => "FAT16" | 0x07 => "NTFS/exFAT"
  | 0x0B => "FAT32 (CHS)" | 0x0C => "FAT32 (LBA)" | 0x0E => "FAT16 (LBA)" | 0x0F => "Extended (LBA)"
  | 0x11 => "Hidden FAT12" | 0x16 => "Hidden FAT16" | 0x17 => "Hidden NTFS" | 0x1B => "Hidden FAT32"
  | 0x82 => "Linux swap" | 0x83 => "Linux" | 0x85 => "Linux extended" | 0x8E => "Linux LVM" | 0xA5 => "FreeBSD"
  | 0xA8 => "macOS UFS" | 0xAF => "macOS HFS+" | 0xEE => "GPT protective" | 0xEF => "EFI System" | 0xFD => "Linux RAID"
  | _ => "unknown"
  end).

Definition saturating_mul (a b : Z) : Z := Z.min (a * b) (2 ^ 64 - 1).
Definition two_digits (n : Z) : bytes := if n <? 10 then 48 :: fmt_u64 n else fmt_u64 n.
Definition hundredths (n : Z) (unit : bytes) : bytes := fmt_u64 (n / 100) ++ str "." ++ two_digits (n mod 100) ++ unit.
Definition human_size_sectors (sectors : Z) : bytes :=
  let b := saturating_mul sectors SECTOR in
  if 2 ^ 30 <=? b then hundredths (Z.shiftr (saturating_mul b 100) 30) (str " GiB")
  else if 2 ^ 20 <=? b then hundredths (Z.shiftr (saturating_mul b 100) 20) (str " MiB")
  else if 2 ^ 10 <=? b then fmt_u64 (Z.shiftr b 10) ++ str " KiB"
  else fmt_u64 b ++ str " B".

Definition hex_byte (b : Z) : bytes := [Text.hex_digit (Z.shiftr b 4); Text.hex_digit (Z.land b 15)].
Definition fmt_guid (g : bytes) : bytes :=
  concat (imap (fun i b => (if (i =? 8)%nat then [32] else []) ++ hex_byte b) g).

End Ata.
