(* ===== verification/AtaTheorems.v ===== *)
(** * The driver is a disk

    What the ATA standard says of a drive on these ports, as the laws of an
    interface: the registers it latches, the phases of a command and what the
    status shows in each.  On such a drive each wait of the driver ends, the
    driver answers every sequence of requests as an ideal disk does that
    starts where the volume starts, and touches no sector outside the volume. *)

From S2P Require Import Prelude Types Block UiText Ata.
Import Ata.

(** ** Waiting *)

Section Spin.
Context {H : Type}.
Abbreviation IO := (stM H StoreError) (only parsing).

(** The body up to [n] times, one by one. *)
Fixpoint looks {A} (n : nat) (body : IO (option A)) : IO (option A) :=
  match n with
  | O => mret None
  | S n => r ← body; match r with Some x => mret (Some x) | None => looks n body end
  end.

Lemma looks_add {A} (body : IO (option A)) n k h :
  looks (n + k) body h = (r ← looks n body; match r with Some x => mret (Some x) | None => looks k body end) h.
Proof.
  revert h. induction n as [|n IH]; intros h; [done|]. cbn [Nat.add looks]. unfold mbind, stM_bind in *.
  by destruct (body h) as [[[x|]| | |] h1].
Qed.

Lemma spin_looks {A} (body : IO (option A)) p : forall h, spin p body h = looks (Pos.to_nat p) body h.
Proof.
  assert (Hagain : forall m, (forall h, spin m body h = looks (Pos.to_nat m) body h) -> forall h,
    (r ← spin m body; match r with Some x => mret (Some x) | None => spin m body end) h =
    looks (Pos.to_nat m + Pos.to_nat m) body h).
  { intros m IH h. rewrite looks_add. unfold mbind, stM_bind. rewrite IH.
    by destruct (looks _ body h) as [[[x|]| | |] h1]. }
  induction p as [p IH|p IH|]; intros h; cbn [spin].
  - replace (Pos.to_nat p~1) with (S (Pos.to_nat p + Pos.to_nat p)) by lia. cbn [looks]. unfold mbind at 1 3, stM_bind at 1 3.
    destruct (body h) as [[[x|]| | |] h1]; [done|by apply Hagain|done..].
  - replace (Pos.to_nat p~0) with (Pos.to_nat p + Pos.to_nat p)%nat by lia. by apply Hagain.
  - change (Pos.to_nat 1) with 1%nat. cbn. unfold mbind, stM_bind. by destruct (body h) as [[[x|]| | |] h1].
Qed.
End Spin.

(** ** What a drive is *)

Module Drive.
(** The task file: the device register, the sector count, the address. *)
Record Task := mk_task { device : Z; count : Z; lba0 : Z; lba1 : Z; lba2 : Z }.

(** What a command that has been accepted comes to. *)
Inductive After := Rest | Give (ws : list Z) | Take (lba : Z).

(** Idle; busy for [k] more looks at the status after the next; with words to
    be read; with words expected for a sector. *)
Inductive Phase :=
  | Idle
  | Busy (k : nat) (a : After)
  | Giving (ws : list Z)
  | Taking (lba : Z) (got : list Z).

Record t := mk { task : Task; phase : Phase; disk : medium; capacity : Z }.

Definition with_task (x : Task) (d : t) : t := mk x (phase d) (disk d) (capacity d).
Definition with_phase (p : Phase) (d : t) : t := mk (task d) p (disk d) (capacity d).
Definition with_disk (m : medium) (d : t) : t := mk (task d) (phase d) m (capacity d).

Definition settle (a : After) : Phase :=
  match a with Rest => Idle | Give ws => Giving ws | Take lba => Taking lba [] end.
Definition busy (k : nat) (a : After) : Phase := match k with O => settle a | S k => Busy k a end.

(** A look at the status. *)
Definition looked (d : t) : t := match phase d with Busy k a => with_phase (busy k a) d | _ => d end.
Definition shows (p : Phase) (s : Z) : Prop :=
  has s ST_ERR = false /\
  match p with
  | Idle => has s ST_BSY = false /\ has s ST_DRDY = true
  | Busy _ _ => has s ST_BSY = true
  | Giving _ | Taking _ _ => has s ST_BSY = false /\ has s ST_DRQ = true
  end.

(** The sector the task file addresses, on the master in LBA mode. *)
Definition address (x : Task) : Z :=
  Z.lor (Z.lor (lba0 x) (Z.shiftl (lba1 x) 8)) (Z.lor (Z.shiftl (lba2 x) 16) (Z.shiftl (Z.land (device x) 0x0F) 24)).
Definition set_register (r v : Z) (x : Task) : Task :=
  if r =? 2 then mk_task (device x) v (lba0 x) (lba1 x) (lba2 x)
  else if r =? 3 then mk_task (device x) (count x) v (lba1 x) (lba2 x)
  else if r =? 4 then mk_task (device x) (count x) (lba0 x) v (lba2 x)
  else if r =? 5 then mk_task (device x) (count x) (lba0 x) (lba1 x) v
  else mk_task v (count x) (lba0 x) (lba1 x) (lba2 x).

(** The words of a sector, and the bytes of words. *)
Definition bytes_of (ws : list Z) : bytes := concat (word_bytes <$> ws).
End Drive.
Import Drive.

(** A drive on the primary ports.  No command keeps it
    busy for ten million looks, and a command written while it is busy is
    ignored. *)
Class AtaLaws (H : Type) `{!Ports H} := {
  view : H -> Drive.t;
  law_status h : shows (phase (view h)) (in8 (BASE + 7) h).1 /\ view (in8 (BASE + 7) h).2 = looked (view h);
  law_register h r v : 2 <= r <= 6 -> phase (view h) = Idle ->
    view (out8 (BASE + r) v h) = with_task (set_register r v (task (view h))) (view h);
  law_give h : phase (view h) = Idle -> count (task (view h)) = 1 -> Z.land (device (task (view h))) 0xF0 = DRIVE_MASTER_LBA ->
    address (task (view h)) < capacity (view h) ->
    exists k, (k < Pos.to_nat POLL_LOOKS)%nat /\
      view (out8 (BASE + 7) 0x20 h) = with_phase (busy k (Give (words (disk (view h) (address (task (view h))))))) (view h);
  law_take h : phase (view h) = Idle -> count (task (view h)) = 1 -> Z.land (device (task (view h))) 0xF0 = DRIVE_MASTER_LBA ->
    address (task (view h)) < capacity (view h) ->
    exists k, (k < Pos.to_nat POLL_LOOKS)%nat /\
      view (out8 (BASE + 7) 0x30 h) = with_phase (busy k (Take (address (task (view h))))) (view h);
  law_cache h : phase (view h) = Idle ->
    exists k, (k < Pos.to_nat POLL_LOOKS)%nat /\ view (out8 (BASE + 7) 0xE7 h) = with_phase (busy k Rest) (view h);
  law_control h : view (out8 CTRL 0 h) = view h;
  law_identify h : phase (view h) = Idle -> device (task (view h)) = DRIVE_MASTER_LBA ->
    exists k id, (k < Pos.to_nat POLL_LOOKS)%nat /\ length id = 256%nat /\
      Z.lor (nth 60 id 0) (Z.shiftl (nth 61 id 0) 16) = capacity (view h) /\
      view (out8 (BASE + 7) 0xEC h) = with_phase (busy k (Give id)) (view h);
  law_ignored h k : phase (view h) = Busy k Rest -> view (out8 (BASE + 7) 0xE7 h) = view h;
  law_word h w ws : phase (view h) = Giving (w :: ws) ->
    (in16 BASE h).1 = w /\ view (in16 BASE h).2 = with_phase (match ws with [] => Idle | _ => Giving ws end) (view h);
  law_taken h lba got v : phase (view h) = Taking lba got -> 0 <= v < 2 ^ 16 ->
    if (length got =? 255)%nat
    then exists k, (k < Pos.to_nat POLL_LOOKS)%nat /\
      view (out16 BASE v h) = with_phase (busy k Rest) (with_disk (upd (disk (view h)) lba (bytes_of (got ++ [v]))) (view h))
    else view (out16 BASE v h) = with_phase (Taking lba (got ++ [v])) (view h)
}.

(** ** The driver's steps *)

Section Steps.
Context {H : Type} `{!Ports H, !AtaLaws H}.
Abbreviation IO := (stM H StoreError) (only parsing).
Implicit Types (h : H) (d : Drive.t).

(** From the drive [d] the code ends with a value and a drive as [Q] says. *)
Definition drives {A} (c : IO A) (Q : A -> Drive.t -> Prop) d : Prop :=
  forall h, view h = d -> exists x h', c h = (Val x, h') /\ Q x (view h').

Lemma drives_ret {A} (x : A) (Q : A -> Drive.t -> Prop) d : Q x d -> drives (mret x) Q d.
Proof. intros HQ h <-. by exists x, h. Qed.
Lemma drives_bind {A B} (c : IO A) (f : A -> IO B) Q d : drives c (fun x => drives (f x) Q) d -> drives (c ≫= f) Q d.
Proof.
  intros Hc h Hh. destruct (Hc h Hh) as (x & h1 & E & H1). destruct (H1 h1 eq_refl) as (y & h2 & E2 & H2).
  exists y, h2. split; [|done]. unfold mbind, stM_bind. by rewrite E.
Qed.
Lemma drives_conseq {A} (c : IO A) (Q Q' : A -> Drive.t -> Prop) d :
  drives c Q' d -> (forall x d', Q' x d' -> Q x d') -> drives c Q d.
Proof. intros Hc HQ h Hh. destruct (Hc h Hh) as (x & h' & E & H'). exists x, h'. split; [done|by apply HQ]. Qed.

Lemma drives_status Q d : (forall s, shows (phase d) s -> Q s (looked d)) -> drives (inb (BASE + 7)) Q d.
Proof.
  intros HQ h <-. destruct (law_status h) as [Hs Hv]. unfold inb. destruct (in8 (BASE + 7) h) as [s h'].
  exists s, h'. split; [done|]. cbn in Hv. rewrite Hv. by apply HQ.
Qed.

Lemma drives_register r v (Q : unit -> Drive.t -> Prop) d : 2 <= r <= 6 -> phase d = Idle ->
  Q tt (with_task (set_register r v (task d)) d) -> drives (outb (BASE + r) v) Q d.
Proof.
  intros Hr Hp HQ h <-. exists tt, (out8 (BASE + r) v h). split; [done|]. by rewrite law_register.
Qed.

(** Looks while nothing is going on, and while the drive is busy. *)
Fixpoint waited (n : nat) d : Drive.t := match n with O => d | S n => waited n (looked d) end.
Lemma waited_settled n d : looked d = d -> waited n d = d.
Proof. intros E. induction n; [done|]. cbn. by rewrite E. Qed.
Lemma waited_busy n k a d : exists k', (k' <= k)%nat /\
  waited n (with_phase (busy k a) d) = with_phase (busy k' a) d.
Proof.
  revert k. induction n as [|n IH]; intros k; [by exists k|]. cbn [waited]. destruct k as [|k].
  - exists 0%nat. split; [done|]. rewrite <- (waited_settled n (with_phase (settle a) d)) at 2; [by destruct a|by destruct a].
  - destruct (IH k) as (k' & Hk & E). exists k'. split; [lia|]. done.
Qed.

Lemma drives_pause (Q : unit -> Drive.t -> Prop) d : Q tt (waited 4 d) -> drives (pause BASE) Q d.
Proof.
  intros HQ. unfold pause. cbn [seq for_each].
  do 4 (apply drives_bind, drives_bind, drives_status; intros ? _; apply drives_ret). by apply drives_ret.
Qed.

Lemma idle_settled d : phase d = Idle -> looked d = d.
Proof. intros E. unfold looked. by rewrite E. Qed.

(** A loop that looks until a busy drive settles. *)
Lemma looks_settle {A} (look : IO (option A)) x a d :
  (forall k, drives look (fun r d' => r = None /\ d' = with_phase (busy k a) d) (with_phase (Busy k a) d)) ->
  drives look (fun r d' => r = Some x /\ d' = with_phase (settle a) d) (with_phase (settle a) d) ->
  forall n k, (k < n)%nat ->
  drives (looks n look) (fun r d' => r = Some x /\ d' = with_phase (settle a) d) (with_phase (busy k a) d).
Proof.
  intros Hbusy Hdone n. induction n as [|n IH]; intros k Hk; [lia|]. cbn [looks]. apply drives_bind.
  destruct k as [|k].
  - eapply drives_conseq; [exact Hdone|]. intros r d' [-> ->]. by apply drives_ret.
  - eapply drives_conseq; [apply Hbusy|]. intros r d' [-> ->]. apply IH. lia.
Qed.

Lemma drives_spin {A} p (c : IO (option A)) Q d : drives (looks (Pos.to_nat p) c) Q d -> drives (spin p c) Q d.
Proof. intros Hc h Hh. rewrite spin_looks. by apply Hc. Qed.

Lemma poll_look_busy k a d : drives poll_look (fun r d' => r = None /\ d' = with_phase (busy k a) d) (with_phase (Busy k a) d).
Proof.
  apply drives_bind, drives_status. intros s [He Hb]. cbn in Hb. rewrite He, Hb. cbn [negb andb]. by apply drives_ret.
Qed.
Lemma poll_look_settled a d : drives poll_look (fun r d' => r = Some (Val tt) /\ d' = with_phase (settle a) d) (with_phase (settle a) d).
Proof.
  apply drives_bind, drives_status. intros s [He Hs]. rewrite He.
  destruct a; cbn in Hs; destruct Hs as [-> ->]; cbn [negb andb]; [destruct (has s ST_DRQ)|..]; by apply drives_ret.
Qed.

(** Waiting for a command to settle. *)
Lemma drives_poll k a (Q : unit -> Drive.t -> Prop) d : (k < Pos.to_nat POLL_LOOKS)%nat ->
  Q tt (with_phase (settle a) d) -> drives poll Q (with_phase (busy k a) d).
Proof.
  intros Hk HQ. apply drives_bind, drives_pause. destruct (waited_busy 4 k a d) as (k' & Hk' & ->).
  apply drives_bind. eapply drives_conseq.
  - apply drives_spin, (looks_settle poll_look (Val tt) a d); [intros ?; apply poll_look_busy|apply poll_look_settled|lia].
  - intros r d' [-> ->]. by apply drives_ret.
Qed.

Lemma flush_look_busy k d : drives flush_look (fun r d' => r = None /\ d' = with_phase (busy k Rest) d) (with_phase (Busy k Rest) d).
Proof. apply drives_bind, drives_status. intros s [He Hb]. cbn in Hb. rewrite Hb. cbn [negb]. by apply drives_ret. Qed.
Lemma flush_look_settled d : drives flush_look (fun r d' => r = Some (Val tt) /\ d' = with_phase Idle d) (with_phase Idle d).
Proof. apply drives_bind, drives_status. intros s [He [Hb _]]. rewrite Hb, He. cbn [negb]. by apply drives_ret. Qed.

Lemma drives_settled k (Q : unit -> Drive.t -> Prop) d : (k < Pos.to_nat POLL_LOOKS)%nat -> Q tt (with_phase Idle d) ->
  drives (r ← spin POLL_LOOKS flush_look; lift (default (Fail Io) r)) Q (with_phase (busy k Rest) d).
Proof.
  intros Hk HQ. apply drives_bind. eapply drives_conseq.
  - apply drives_spin, (looks_settle flush_look (Val tt) Rest d); [intros ?; apply flush_look_busy|apply flush_look_settled|done].
  - intros r d' [-> ->]. by apply drives_ret.
Qed.

Lemma drives_out port v (Q : unit -> Drive.t -> Prop) d :
  (forall h, view h = d -> Q tt (view (out8 port v h))) -> drives (outb port v) Q d.
Proof. intros HQ h Hh. exists tt, (out8 port v h). split; [done|by apply HQ]. Qed.

(** A flush, also one that a drive busy with a write ignores. *)
Lemma drives_flush k (Q : unit -> Drive.t -> Prop) d : (k < Pos.to_nat POLL_LOOKS)%nat -> Q tt (with_phase Idle d) ->
  drives cache_flush Q (with_phase (busy k Rest) d).
Proof.
  intros Hk HQ. apply drives_bind, drives_out. intros h Hh. destruct k as [|k].
  - destruct (law_cache h) as (k' & Hk' & ->); [by rewrite Hh|]. rewrite Hh. by apply (drives_settled k').
  - rewrite (law_ignored h k) by (by rewrite Hh). rewrite Hh. by apply (drives_settled (S k)).
Qed.

(** ** Addresses *)

Lemma address_select lba : 0 <= lba < 2 ^ 28 ->
  address (mk_task (Z.lor DRIVE_MASTER_LBA (as_u8 (Z.land (Z.shiftr lba 24) 0x0F))) 1 (as_u8 lba)
    (as_u8 (Z.shiftr lba 8)) (as_u8 (Z.shiftr lba 16))) = lba.
Proof.
  intros Hl. unfold address. cbn [lba0 lba1 lba2 device]. rewrite !Z.shiftr_div_pow2 by done.
  change 0x0F with (Z.ones 4). rewrite !Z.land_ones by done. unfold as_u8.
  set (r := (lba / 2 ^ 24) mod 2 ^ 4). assert (Hr : 0 <= r < 16) by (unfold r; lia).
  assert (Ed : Z.lor DRIVE_MASTER_LBA (r mod 2 ^ 8) mod 2 ^ 4 = r).
  { rewrite (Z.mod_small r) by lia. clearbody r.
    assert (H16 : forallb (fun r => Z.lor DRIVE_MASTER_LBA r mod 2 ^ 4 =? r) (seqZ 0 16) = true) by reflexivity.
    rewrite forallb_forall in H16. apply Z.eqb_eq, H16, list_elem_of_In, elem_of_seqZ. lia. }
  rewrite Ed, Z.lor_assoc.
  rewrite (lor_shiftl_add (lba mod 2 ^ 8) _ 8) by lia.
  rewrite (lor_shiftl_add _ ((lba / 2 ^ 16) mod 2 ^ 8) 16) by lia.
  rewrite (lor_shiftl_add _ r 24) by lia. unfold r. lia.
Qed.

(** Selecting a sector, and the register that names the master in LBA mode. *)
Lemma device_select x : Z.land (Z.lor DRIVE_MASTER_LBA (as_u8 (Z.land x 0x0F))) 0xF0 = DRIVE_MASTER_LBA.
Proof.
  change 0x0F with (Z.ones 4). rewrite Z.land_ones by done. unfold as_u8. set (r := x mod 2 ^ 4).
  assert (Hr : 0 <= r < 16) by (unfold r; lia). rewrite Z.mod_small by lia. clearbody r.
  assert (H16 : forallb (fun r => Z.land (Z.lor DRIVE_MASTER_LBA r) 0xF0 =? DRIVE_MASTER_LBA) (seqZ 0 16) = true) by reflexivity.
  rewrite forallb_forall in H16. apply Z.eqb_eq, H16, list_elem_of_In, elem_of_seqZ. lia.
Qed.

Lemma drives_select lba (Q : unit -> Drive.t -> Prop) d : phase d = Idle -> 0 <= lba < 2 ^ 28 ->
  (forall x, address x = lba -> count x = 1 -> Z.land (device x) 0xF0 = DRIVE_MASTER_LBA -> Q tt (with_task x d)) ->
  drives (select lba 1) Q d.
Proof.
  intros Hp Hl HQ. unfold select. apply drives_bind, drives_register; [lia|done|].
  apply drives_bind, drives_pause. rewrite waited_settled by (by apply idle_settled).
  do 3 (apply drives_bind, drives_register; [lia|done|]). apply drives_register; [lia|done|].
  apply HQ; [by apply address_select|done|apply device_select].
Qed.

(** ** The words of a sector *)

Lemma words_cons b0 b1 bs : words (b0 :: b1 :: bs) = Z.lor b0 (Z.shiftl b1 8) :: words bs.
Proof. done. Qed.

Lemma words_spec n : forall bs, length bs = (2 * n)%nat -> is_bytes bs ->
  bytes_of (words bs) = bs /\ length (words bs) = n /\ Forall (fun w => 0 <= w < 2 ^ 16) (words bs).
Proof.
  induction n as [|n IH]; intros bs Hlen Hbs; [by destruct bs|].
  destruct bs as [|b0 [|b1 bs]]; try (cbn in Hlen; lia). rewrite words_cons.
  apply Forall_cons in Hbs as [H0 [H1 Hbs]%Forall_cons]. unfold is_byte in H0, H1.
  destruct (IH bs) as (E1 & E2 & E3); [cbn in Hlen; lia|done|]. rewrite lor_shiftl_add by lia.
  split_and!; [|cbn; lia|apply Forall_cons; split; [lia|done]].
  unfold bytes_of in *. cbn [fmap list_fmap concat]. rewrite E1. unfold word_bytes, as_u8. rewrite Z.shiftr_div_pow2 by done.
  cbn [app]. f_equal; [lia|]. f_equal. lia.
Qed.

Lemma sector_words bs : len bs = SECTOR -> is_bytes bs ->
  bytes_of (words bs) = bs /\ length (words bs) = 256%nat /\ Forall (fun w => 0 <= w < 2 ^ 16) (words bs).
Proof. intros Hl Hbs. apply words_spec; [unfold SECTOR in Hl; lia|done]. Qed.

Definition giving (ws : list Z) : Phase := match ws with [] => Idle | _ => Giving ws end.

Lemma drives_words ws : forall s (Q : list bytes -> Drive.t -> Prop) d, Q (word_bytes <$> ws) (with_phase Idle d) ->
  drives (for_collect (seq s (length ws)) (fun _ => w ← inw BASE; mret (word_bytes w))) Q (with_phase (giving ws) d).
Proof.
  induction ws as [|w ws IH]; intros s Q d HQ; cbn [length seq for_collect]; [by apply drives_ret|].
  apply drives_bind, drives_bind. intros h Hh. destruct (law_word h w ws) as [Ew Ev]; [by rewrite Hh|].
  unfold inw. destruct (in16 BASE h) as [v h']. cbn in Ew, Ev. subst v. exists w, h'. split; [done|].
  apply drives_ret, drives_bind. rewrite Ev, Hh. apply (IH (S s) _ d). by apply drives_ret.
Qed.

Lemma drives_id ws : forall s (Q : list Z -> Drive.t -> Prop) d, Q ws (with_phase Idle d) ->
  drives (for_collect (seq s (length ws)) (fun _ => inw BASE)) Q (with_phase (giving ws) d).
Proof.
  induction ws as [|w ws IH]; intros s Q d HQ; cbn [length seq for_collect]; [by apply drives_ret|].
  apply drives_bind. intros h Hh. destruct (law_word h w ws) as [Ew Ev]; [by rewrite Hh|].
  unfold inw. destruct (in16 BASE h) as [v h']. cbn in Ew, Ev. subst v. exists w, h'. split; [done|].
  apply drives_bind. rewrite Ev, Hh. apply (IH (S s) _ d). by apply drives_ret.
Qed.

(** The status that says there is no disk is never that of one. *)
Lemma shows_present p s : shows p s -> p <> Idle -> (s =? 0) = false.
Proof. intros [_ Hs] Hp. apply Z.eqb_neq. intros ->. destruct p; [done|by cbn in Hs|by destruct Hs..]. Qed.

Lemma drives_identify (Q : option Z -> Drive.t -> Prop) d : phase d = Idle ->
  (forall x, Q (Some (capacity d)) (with_task x d)) -> drives identify Q d.
Proof.
  destruct d as [task0 ? m n]. cbn [phase capacity with_task disk task]. intros -> HQ. unfold identify.
  apply drives_bind, drives_out. intros h Hh. rewrite law_control, Hh. clear h Hh.
  apply drives_bind, drives_register; [lia|done|]. apply drives_bind, drives_pause. rewrite waited_settled by done.
  do 4 (apply drives_bind, drives_register; [lia|done|]).
  apply drives_bind, drives_out. intros h Hh.
  destruct (law_identify h) as (k & id & Hk & Hid & Ec & ->); rewrite ?Hh; [done|done|]. rewrite Hh in Ec. cbn [capacity] in Ec. clear h Hh.
  apply drives_bind, drives_status. intros s Hs. rewrite (shows_present _ _ Hs) by (by destruct k). clear s Hs.
  match goal with |- drives _ _ (looked (with_phase _ ?x)) => set (d := x) end. destruct (waited_busy 1 k (Give id) d) as (k' & Hk' & E). cbn [waited] in E. rewrite E.
  apply drives_bind, drives_poll; [lia|]. cbn [settle]. apply drives_bind.
  replace (Giving id) with (giving id) by (by destruct id). rewrite <- Hid. apply drives_id, drives_ret. rewrite Ec. apply HQ.
Qed.

Lemma drives_read_words ws (Q : bytes -> Drive.t -> Prop) d : length ws = 256%nat -> Q (bytes_of ws) (with_phase Idle d) ->
  drives (read_words BASE 256) Q (with_phase (Giving ws) d).
Proof.
  intros Hn HQ. unfold read_words. rewrite <- Hn. apply drives_bind.
  replace (Giving ws) with (giving ws) by (by destruct ws). apply drives_words. by apply drives_ret.
Qed.

Lemma drives_write_words ws : forall got lba (Q : unit -> Drive.t -> Prop) d, ws <> [] ->
  (length got + length ws = 256)%nat -> Forall (fun w => 0 <= w < 2 ^ 16) ws ->
  (forall k, (k < Pos.to_nat POLL_LOOKS)%nat ->
     Q tt (with_phase (busy k Rest) (with_disk (upd (disk d) lba (bytes_of (got ++ ws))) d))) ->
  drives (for_each ws (outw BASE)) Q (with_phase (Taking lba got) d).
Proof.
  induction ws as [|w ws IH]; intros got lba Q d Hne Hn Hws HQ; [done|]. apply Forall_cons in Hws as [Hw Hws].
  cbn [for_each length] in *. apply drives_bind. intros h Hh. exists tt, (out16 BASE w h). split; [done|].
  pose proof (law_taken h lba got w ltac:(by rewrite Hh) Hw) as Ht. destruct (Nat.eqb_spec (length got) 255) as [El|El].
  - destruct ws; [|cbn in Hn; lia]. destruct Ht as (k & Hk & ->). rewrite Hh. apply drives_ret. by apply (HQ k).
  - rewrite Ht, Hh. apply (IH (got ++ [w]) lba _ d).
    + intros ->. cbn in Hn. lia.
    + rewrite length_app. cbn. lia.
    + done.
    + intros k Hk. rewrite <- app_assoc. by apply HQ.
Qed.
End Steps.

(** ** Requests *)

Inductive request := Read (lba : Z) | Write (lba : Z) (buf : bytes) | Flush.

Definition good (r : request) : Prop :=
  match r with
  | Read lba => 0 <= lba
  | Write lba buf => 0 <= lba /\ len buf = SECTOR /\ is_bytes buf
  | Flush => True
  end.

(** The buffer a read fills. *)
Definition blank_sector : bytes := replicate 512 0.

Section Serve.
Context {D : Type} `{!BlockDevice D}.

(** The sector read, or nothing. *)
Definition serve (r : request) : stM D StoreError bytes :=
  match r with
  | Read lba => read_sector lba blank_sector
  | Write lba buf => _ ← write_sector lba buf; mret []
  | Flush => _ ← flush; mret []
  end.

Fixpoint serves (rs : list request) (d : D) : list (outcome StoreError bytes) * D :=
  match rs with
  | [] => ([], d)
  | r :: rs => let '(o, d) := serve r d in let '(os, d) := serves rs d in (o :: os, d)
  end.
End Serve.

#[local] Arguments blank_sector : simpl never.
#[local] Arguments read_at : simpl never.
#[local] Arguments write_at : simpl never.
#[local] Arguments cache_flush : simpl never.

(** ** One request *)

Section Driver.
Context {H : Type} `{!Ports H, !AtaLaws H}.
Implicit Types (a : Ata.t H) (d : Drive.t).

(** A drive at rest whose sectors are sectors. *)
Record sound d : Prop := {
  so_idle : phase d = Idle;
  so_capacity : capacity d <= 2 ^ 28;
  so_sectors l : 0 <= l < capacity d -> len (disk d l) = SECTOR /\ is_bytes (disk d l)
}.

Record ready a : Prop := {
  re_sound : sound (view (ports a));
  re_base : 0 <= base a;
  re_sectors : 0 <= sectors a;
  re_fits : base a + sectors a <= capacity (view (ports a))
}.

(** The volume as an ideal disk. *)
Definition ideal a : SteadyDisk.t := SteadyDisk.mk (sectors a) (fun l => disk (view (ports a)) (base a + l)).

Lemma add_lba b n lba d : sound d -> 0 <= b -> b + n <= capacity d -> 0 <= lba < n ->
  add_u64 (E:=StoreError) b lba = Val (b + lba) /\ 0 <= b + lba < 2 ^ 28.
Proof. intros Hd Hb Hn Hl. pose proof (so_capacity d Hd). unfold add_u64. rewrite (proj2 (Z.ltb_lt _ _)) by lia. split; [done|lia]. Qed.

Lemma drives_lift {A} (x : A) (Q : A -> Drive.t -> Prop) d : Q x d -> drives (lift (Val x)) Q d.
Proof. apply (drives_ret x). Qed.

(** The drive after a request, up to its task file. *)
Definition same_but_task (d d' : Drive.t) (m : medium) : Prop := phase d' = Idle /\ disk d' = m /\ capacity d' = capacity d.

Lemma read_drives b n lba d : sound d -> 0 <= b -> b + n <= capacity d -> 0 <= lba < n ->
  drives (read_at b n lba blank_sector) (fun bs d' => bs = disk d (b + lba) /\ same_but_task d d' (disk d)) d.
Proof.
  intros Hd Hb Hn Hl. destruct (add_lba b n lba d Hd Hb Hn Hl) as [Ea Ha]. unfold read_at.
  change (len blank_sector =? SECTOR) with true. rewrite (proj2 (Z.leb_gt _ _)) by lia. cbn [negb orb].
  apply drives_bind. rewrite Ea. apply drives_lift, drives_bind, drives_select; [apply Hd|done|]. intros x Ex Ec Em.
  apply drives_bind, drives_out. intros h Hh.
  destruct (law_give h) as (k & Hk & ->); rewrite ?Hh; [apply Hd|done|done|cbn; lia|]. cbn [task with_task disk]. rewrite Ex.
  apply drives_bind, drives_poll; [done|]. cbn [settle].
  destruct (so_sectors d Hd (b + lba)) as [Hlen Hbs]; [lia|]. destruct (sector_words _ Hlen Hbs) as (Ew & En & _).
  apply drives_read_words; [done|]. split; [done|]. by split_and!.
Qed.

Lemma write_drives b n lba buf d : sound d -> 0 <= b -> b + n <= capacity d -> 0 <= lba < n -> len buf = SECTOR -> is_bytes buf ->
  drives (write_at b n lba buf) (fun _ d' => same_but_task d d' (upd (disk d) (b + lba) buf)) d.
Proof.
  intros Hd Hb Hn Hl Hlen Hbs. destruct (add_lba b n lba d Hd Hb Hn Hl) as [Ea Ha]. unfold write_at.
  rewrite (proj2 (Z.eqb_eq _ _) Hlen), (proj2 (Z.leb_gt _ _)) by lia. cbn [negb orb].
  apply drives_bind. rewrite Ea. apply drives_lift, drives_bind, drives_select; [apply Hd|done|]. intros x Ex Ec Em.
  apply drives_bind, drives_out. intros h Hh.
  destruct (law_take h) as (k & Hk & ->); rewrite ?Hh; [apply Hd|done|done|cbn; lia|]. cbn [task with_task]. rewrite Ex.
  apply drives_bind, drives_poll; [done|]. cbn [settle]. destruct (sector_words buf Hlen Hbs) as (Ew & En & Hw).
  apply drives_bind, (drives_write_words (words buf) []); [by intros E; rewrite E in En|done|done|].
  intros k' Hk'. apply drives_flush; [done|]. cbn [app]. rewrite Ew. by split_and!.
Qed.

Lemma flush_drives d : sound d -> drives cache_flush (fun _ d' => same_but_task d d' (disk d)) d.
Proof.
  intros Hd h Hh. apply (drives_flush 0 (fun _ d' => same_but_task d d' (disk d)) d); [unfold POLL_LOOKS; lia|by split_and!|].
  rewrite Hh. cbn [busy settle]. rewrite <- (so_idle d Hd). by destruct d.
Qed.

(** ** Sequences *)

Lemma sound_after d d' m : sound d -> same_but_task d d' m ->
  (forall l, 0 <= l < capacity d -> len (m l) = SECTOR /\ is_bytes (m l)) -> sound d'.
Proof. intros Hd (Hp & Hm & Hc) Hl. split; [done|rewrite Hc; apply Hd|]. intros l. rewrite Hc, Hm. apply Hl. Qed.

Lemma ready_after a h' m : ready a -> same_but_task (view (ports a)) (view h') m ->
  (forall l, 0 <= l < capacity (view (ports a)) -> len (m l) = SECTOR /\ is_bytes (m l)) ->
  ready (Ata.mk (base a) (sectors a) h').
Proof.
  intros [Hs Hb Hn Hf] Hd Hl. split; cbn; [by eapply sound_after|done|done|]. destruct Hd as (_ & _ & ->). done.
Qed.

(** What a request does to the sectors of the whole drive. *)
Definition effect a (r : request) : medium :=
  match r with
  | Write lba buf => if lba <? sectors a then upd (disk (view (ports a))) (base a + lba) buf else disk (view (ports a))
  | _ => disk (view (ports a))
  end.

Lemma serve_ready a r : ready a -> good r ->
  exists a', serve r a = ((serve r (ideal a)).1, a') /\ ready a' /\ base a' = base a /\ sectors a' = sectors a /\
    capacity (view (ports a')) = capacity (view (ports a)) /\ disk (view (ports a')) = effect a r.
Proof.
  intros Ha Hr. pose proof Ha as [Hs Hb Hn Hf]. destruct r as [lba|lba buf|]; cbn [serve good effect] in *.
  - cbn. unfold on_ports. destruct (Z.leb_spec (sectors a) lba) as [Hout|Hin].
    + exists a. unfold read_at. rewrite (proj2 (Z.leb_le _ _)) by done. rewrite orb_true_r. by destruct a.
    + destruct (read_drives (base a) (sectors a) lba _ Hs Hb Hf ltac:(lia) (ports a) eq_refl) as (bs & h' & -> & -> & Hd).
      eexists. split; [reflexivity|]. cbn. split; [eapply ready_after; [done|exact Hd|apply Hs]|].
      destruct Hd as (_ & -> & ->). done.
  - destruct Hr as (H0 & Hlen & Hbs). cbn. unfold mbind, stM_bind, on_ports, mret, stM_ret. cbn.
    destruct (Z.leb_spec (sectors a) lba) as [Hout|Hin].
    + exists a. unfold write_at. rewrite (proj2 (Z.leb_le _ _)), (proj2 (Z.ltb_ge _ _)) by done. rewrite orb_true_r. by destruct a.
    + destruct (write_drives (base a) (sectors a) lba buf _ Hs Hb Hf ltac:(lia) Hlen Hbs (ports a) eq_refl) as ([] & h' & -> & Hd).
      rewrite (proj2 (Z.ltb_lt _ _)) by done. eexists. split; [reflexivity|]. cbn. split.
      * eapply ready_after; [done|exact Hd|]. intros l Hl. unfold upd. destruct (l =? _); [done|by apply Hs].
      * destruct Hd as (_ & -> & ->). done.
  - cbn. unfold mbind, stM_bind, on_ports, mret, stM_ret.
    destruct (flush_drives _ Hs (ports a) eq_refl) as ([] & h' & -> & Hd). eexists. split; [reflexivity|]. cbn.
    split; [eapply ready_after; [done|exact Hd|apply Hs]|]. destruct Hd as (_ & -> & ->). done.
Qed.

(** Two ideal disks of the same size and sectors. *)
Definition meets (u v : SteadyDisk.t) : Prop := SteadyDisk.size u = SteadyDisk.size v /\ meq (SteadyDisk.mem u) (SteadyDisk.mem v).
#[local] Instance meets_trans : Transitive meets.
Proof. intros u v w [E1 M1] [E2 M2]. split; [congruence|]. intros l. by rewrite M1. Qed.

Lemma serve_meets u v r : meets u v -> (serve r u).1 = (serve r v).1 /\ meets (serve r u).2 (serve r v).2.
Proof.
  intros [E M]. destruct r as [lba|lba buf|]; cbn; unfold mbind, stM_bind; cbn; rewrite ?E.
  - destruct (_ <=? lba); cbn; [done|]. by rewrite M.
  - destruct (_ <=? lba); cbn; [done|]. split; [done|]. split; [done|]. intros l. cbn. unfold upd. by destruct (l =? lba).
  - done.
Qed.

(** The ideal disk does the same to its own. *)
Lemma ideal_after a a' r : good r -> base a' = base a -> sectors a' = sectors a ->
  disk (view (ports a')) = effect a r ->
  meets (serve r (ideal a)).2 (ideal a').
Proof.
  intros Hr Eb En Ed. unfold ideal. rewrite Eb, En, Ed. destruct r as [lba|lba buf|]; cbn.
  - by destruct (sectors a <=? lba).
  - unfold mbind, stM_bind. cbn. rewrite Z.leb_antisym. destruct (lba <? sectors a); cbn; [|done].
    split; [done|]. intros l. cbn. unfold upd. by replace (base a + l =? base a + lba) with (l =? lba) by lia.
  - done.
Qed.

Definition outside a (l : Z) : Prop := l < base a \/ base a + sectors a <= l.

Lemma effect_outside a r l : good r -> outside a l -> effect a r l = disk (view (ports a)) l.
Proof.
  intros Hr Hl. destruct r as [|lba buf|]; cbn in *; [done| |done]. destruct Hr as (H0 & _).
  destruct (Z.ltb_spec lba (sectors a)); [|done]. unfold upd, outside in *. by rewrite (proj2 (Z.eqb_neq _ _)) by lia.
Qed.

(** The answers to a sequence are those of an ideal disk, which ends as the volume does. *)
Lemma serves_ready rs : forall a v, ready a -> Forall good rs -> meets v (ideal a) ->
  exists a', serves rs a = ((serves rs v).1, a') /\ ready a' /\ base a' = base a /\ meets (serves rs v).2 (ideal a') /\
    forall l, outside a l -> disk (view (ports a')) l = disk (view (ports a)) l.
Proof.
  induction rs as [|r rs IH]; intros a v Ha Hrs Hv; [by exists a|]. apply Forall_cons in Hrs as [Hr Hrs].
  destruct (serve_ready a r Ha Hr) as (a1 & E1 & Ha1 & Eb & En & _ & Ed).
  destruct (serve_meets v (ideal a) r Hv) as [Eo Hv1].
  destruct (IH a1 (serve r v).2 Ha1 Hrs) as (a2 & E2 & Ha2 & Eb2 & Hv2 & Hout).
  { etrans; [exact Hv1|]. by apply ideal_after. }
  exists a2. cbn [serves]. rewrite E1, E2. destruct (serve r v) as [o v1]. cbn in *. subst o.
  destruct (serves rs v1) as [os v2]. split_and!; [done|done|congruence|done|]. intros l Hl.
  rewrite Hout by (by unfold outside; rewrite Eb, En). rewrite Ed. by apply effect_outside.
Qed.

(** ** Finding the disk *)

Lemma probe_ready b h : sound (view h) -> 0 <= b <= capacity (view h) ->
  exists a h', probe b h = (Val (Some a), h') /\ ready a /\ base a = b /\ sectors a = capacity (view h) - b /\
    disk (view (ports a)) = disk (view h).
Proof.
  intros Hs Hb. unfold probe.
  destruct (drives_identify (fun r d' => r = Some (capacity (view h)) /\ exists x, d' = with_task x (view h)) (view h)
    ltac:(apply Hs) ltac:(intros x; split; [done|by exists x]) h eq_refl) as (r & h' & -> & -> & x & Ex).
  eexists _, _. split; [reflexivity|]. cbn. unfold saturating_sub. rewrite Z.max_r by lia.
  split_and!; [|done..|by rewrite Ex]. split; cbn; rewrite ?Ex; cbn; [|lia..]. by destruct Hs.
Qed.
End Driver.

(** The volume that begins at sector [b] of a drive. *)
Definition volume (b : Z) (d : Drive.t) : SteadyDisk.t := SteadyDisk.mk (capacity d - b) (fun l => disk d (b + l)).

(** ** A drive

    It is busy for two looks after every command and after the last word of a
    sector. *)

Module Sample.
Definition status (p : Phase) : Z := match p with Idle => 0x50 | Busy _ _ => 0x80 | Giving _ | Taking _ _ => 0x58 end.
Definition identity (n : Z) : list Z := replicate 60 0 ++ [n mod 2 ^ 16; Z.shiftr n 16] ++ replicate 194 0.
Definition accepted (v : Z) (d : Drive.t) : After :=
  if v =? 0x20 then Give (words (disk d (address (task d))))
  else if v =? 0x30 then Take (address (task d))
  else if v =? 0xEC then Give (identity (capacity d)) else Rest.

#[export] Instance drive_ports : Ports Drive.t := {
  in8 port d := if port =? BASE + 7 then (status (phase d), looked d) else (0, d);
  out8 port v d :=
    match phase d with
    | Idle =>
        if port =? BASE + 7 then with_phase (Busy 1 (accepted v d)) d
        else if (BASE + 2 <=? port) && (port <=? BASE + 6) then with_task (set_register (port - BASE) v (task d)) d
        else d
    | _ => d
    end;
  in16 port d :=
    match phase d with Giving (w :: ws) => (w, with_phase (giving ws) d) | _ => (0, d) end;
  out16 port v d :=
    match phase d with
    | Taking lba got =>
        if (length got =? 255)%nat
        then with_phase (Busy 1 Rest) (with_disk (upd (disk d) lba (bytes_of (got ++ [v]))) d)
        else with_phase (Taking lba (got ++ [v])) d
    | _ => d
    end
}.

Lemma two_looks : (2 < Pos.to_nat POLL_LOOKS)%nat.
Proof. unfold POLL_LOOKS. lia. Qed.

#[export] Instance drive_laws : AtaLaws Drive.t.
Proof.
  refine {| view d := d |}.
  - intros d. cbn. by destruct (phase d) as [| | |] eqn:E.
  - intros d r v Hr Hp. cbn. rewrite Hp, (proj2 (Z.eqb_neq _ _)), !(proj2 (Z.leb_le _ _)) by (unfold BASE; lia).
    cbn [andb]. by replace (BASE + r - BASE) with r by lia.
  - intros d Hp _ _ _. exists 2%nat. split; [apply two_looks|]. cbn. by rewrite Hp.
  - intros d Hp _ _ _. exists 2%nat. split; [apply two_looks|]. cbn. by rewrite Hp.
  - intros d Hp. exists 2%nat. split; [apply two_looks|]. cbn. by rewrite Hp.
  - intros d. cbn. by destruct (phase d).
  - intros d Hp _. exists 2%nat, (identity (capacity d)). split_and!; [apply two_looks|done| |cbn; by rewrite Hp].
    unfold identity. cbn [replicate app nth]. by rewrite <- Z.land_ones, <- Z.ldiff_ones_r, Z.lor_comm, Z.lor_ldiff_and.
  - intros d k Hp. cbn. by rewrite Hp.
  - intros d w ws Hp. cbn. by rewrite Hp.
  - intros d lba got v Hp _. cbn. rewrite Hp. destruct (_ =? _)%nat; [|done]. exists 2%nat. split; [apply two_looks|done].
Defined.

(** Nine sectors, the [l]-th filled with [l]. *)
Definition drive : Drive.t := Drive.mk (mk_task 0 0 0 0 0) Idle (fun l => replicate 512 (l mod 256)) 9.

Lemma drive_sound : sound drive.
Proof.
  split; [done|cbn; lia|]. intros l Hl. split; unfold drive; cbn [disk]; [unfold len; by rewrite length_replicate|].
  apply Forall_replicate. unfold is_byte. lia.
Qed.
End Sample.
Import Sample.

(** ** The property *)

(** C22: a disk found through IDENTIFY is answered for as a disk should be:
    the driver's own [probe] succeeds on a drive of the ATA standard at rest,
    and from there every sequence of reads, writes and flushes of the volume,
    in range or not, gets the answers an ideal disk gives whose sectors are
    those of the volume, ends with the volume's sectors as that disk has them
    and leaves every sector in front of the volume, the boot code and the
    kernel, as it was. *)
Theorem driver_is_disk {H : Type} `{!Ports H, !AtaLaws H} (h : H) (b : Z) (rs : list request)
  (Hs : sound (view h)) (Hb : 0 <= b <= capacity (view h)) (Hrs : Forall good rs) :
  exists a h' a', probe b h = (Val (Some a), h') /\
    serves rs a = ((serves rs (volume b (view h))).1, a') /\
    (forall l, disk (view (ports a')) (b + l) = SteadyDisk.mem (serves rs (volume b (view h))).2 l) /\
    (forall l, l < b -> disk (view (ports a')) l = disk (view h) l).
Proof.
  destruct (probe_ready b h Hs Hb) as (a & h' & Ep & Ha & Eb & En & Ed).
  destruct (serves_ready rs a (volume b (view h)) Ha Hrs) as (a' & Es & _ & Eb' & [_ Hm] & Hout).
  { unfold ideal, volume. split; cbn; [by rewrite En|]. intros l. by rewrite Eb, Ed. }
  exists a, h', a'. split_and!; [done|done| |].
  - intros l. rewrite Hm. cbn. by rewrite Eb', Eb.
  - intros l Hl. rewrite Hout, Ed; [done|]. left. lia.
Qed.

(** A volume of six sectors: a sector is written and read back, the sector
    after the last is refused. *)
Definition sample_requests : list request := [Write 1 (replicate 512 7); Read 1; Read 6; Flush; Read 0].

Lemma driver_is_disk_witness :
  exists (a : Ata.t Drive.t) h' a', probe 3 Sample.drive = (Val (Some a), h') /\
    serves sample_requests a = ([Val []; Val (replicate 512 7); Fail Io; Val []; Val (replicate 512 3)], a') /\
    (forall l, l < 3 -> disk (ports a') l = replicate 512 (l mod 256)).
Proof.
  destruct (driver_is_disk Sample.drive 3 sample_requests) as (a & h' & a' & Ep & Es & _ & Hout).
  - exact Sample.drive_sound.
  - cbn. lia.
  - apply Forall_cons. split; [split; [lia|split; [done|apply Forall_replicate; unfold is_byte; lia]]|].
    by repeat (apply Forall_cons; split; [first [exact I|unfold good; lia]|]).
  - exists a, h', a'. split; [exact Ep|]. split; [rewrite Es; f_equal; vm_compute; reflexivity|]. exact Hout.
Defined.
