(* ===== verification/AtaSurvey.v ===== *)
(** * The drives screen only looks

    The enumeration of the four slots on ports that keep a log, whatever is
    behind them. *)

From S2P Require Import Prelude Types Block UiText Ata.
Import Ata.

Module Survey.

Inductive event := Out8 (port v : Z) | Out16 (port v : Z).

(** Ports that log what is written to them. *)
Record logged (H : Type) := mk { log : list event; behind : H }.
Arguments mk {H}.
Arguments log {H}.
Arguments behind {H}.

#[export] Instance ports {H} `{!Ports H} : Ports (logged H) := {
  in8 p h := let '(v, x) := in8 p (behind h) in (v, mk (log h) x);
  out8 p v h := mk (Out8 p v :: log h) (out8 p v (behind h));
  in16 p h := let '(v, x) := in16 p (behind h) in (v, mk (log h) x);
  out16 p v h := mk (Out16 p v :: log h) (out16 p v (behind h))
}.

(** No command but IDENTIFY and READ SECTORS, no data, no port but those of
    the two controllers. *)
Definition harmless (e : event) : bool :=
  match e with
  | Out8 p v =>
      if (p =? BASE + 7) || (p =? SECONDARY_BASE + 7) then (v =? 0xEC) || (v =? 0x20)
      else ((BASE + 2 <=? p) && (p <=? BASE + 6)) || ((SECONDARY_BASE + 2 <=? p) && (p <=? SECONDARY_BASE + 6))
           || (p =? CTRL) || (p =? SECONDARY_CTRL)
  | Out16 _ _ => false
  end.

Section Quiet.
Context {H : Type} `{!Ports H}.
Abbreviation IO := (stM (logged H) StoreError) (only parsing).

(** Ends with a value as [Q] says and adds only harmless events to the log. *)
Definition quiet {A} (c : IO A) (Q : A -> Prop) : Prop :=
  forall h, exists x h' es, c h = (Val x, h') /\ log h' = es ++ log h /\ Forall harmless es /\ Q x.

Lemma quiet_ret {A} (x : A) (Q : A -> Prop) : Q x -> quiet (mret x) Q.
Proof. intros HQ h. exists x, h, []. by split_and!. Qed.
Lemma quiet_bind {A B} (c : IO A) (f : A -> IO B) R Q : quiet c R -> (forall x, R x -> quiet (f x) Q) -> quiet (c ≫= f) Q.
Proof.
  intros Hc Hf h. destruct (Hc h) as (x & h1 & es1 & E1 & L1 & F1 & HR). destruct (Hf x HR h1) as (y & h2 & es2 & E2 & L2 & F2 & HQ).
  exists y, h2, (es2 ++ es1). unfold mbind, stM_bind. rewrite E1. split; [done|]. rewrite L2, L1, app_assoc.
  split; [done|]. split; [by apply Forall_app|done].
Qed.
Lemma quiet_mono {A} (c : IO A) (R Q : A -> Prop) : quiet c R -> (forall x, R x -> Q x) -> quiet c Q.
Proof. intros Hc HQ h. destruct (Hc h) as (x & h' & es & ? & ? & ? & ?). exists x, h', es. split_and!; auto. Qed.

Lemma quiet_inb p : quiet (inb p) (fun _ => True).
Proof. intros h. unfold inb. cbn. destruct (in8 p (behind h)) as [v x]. by exists v, (mk (log h) x), []. Qed.
Lemma quiet_inw p : quiet (inw p) (fun _ => True).
Proof. intros h. unfold inw. cbn. destruct (in16 p (behind h)) as [v x]. by exists v, (mk (log h) x), []. Qed.
Lemma quiet_outb p v : harmless (Out8 p v) = true -> quiet (outb p v) (fun _ => True).
Proof.
  intros Hh h. exists tt, (out8 p v h), [Out8 p v]. split_and!; try done. apply Forall_cons. split; [by apply Is_true_eq_left|done].
Qed.

Lemma quiet_pause base : quiet (pause base) (fun _ => True).
Proof.
  unfold pause. induction (seq 0 4) as [|i l IH]; cbn [for_each]; [by apply quiet_ret|].
  apply (quiet_bind _ _ (fun _ => True)); [|intros ? _; exact IH].
  eapply quiet_bind; [apply quiet_inb|]. intros ? _. by apply quiet_ret.
Qed.

Lemma quiet_spin {A} n (body : IO (option A)) : quiet body (fun _ => True) -> quiet (spin n body) (fun _ => True).
Proof.
  intros Hb. assert (Hagain : forall m, quiet (spin m body) (fun _ => True) ->
    quiet (r ← spin m body; match r with Some x => mret (Some x) | None => spin m body end) (fun _ => True)).
  { intros m Hm. eapply quiet_bind; [exact Hm|]. intros [x|] _; [by apply quiet_ret|done]. }
  induction n as [m IH|m IH|]; cbn [spin]; [|by apply Hagain|done].
  eapply quiet_bind; [exact Hb|]. intros [x|] _; [by apply quiet_ret|by apply Hagain].
Qed.

Lemma quiet_collect {A B} (l : list A) (f : A -> IO B) (P : A -> B -> Prop) :
  (forall x, x ∈ l -> quiet (f x) (P x)) -> quiet (for_collect l f) (Forall2 P l).
Proof.
  induction l as [|x l IH]; intros Hf; cbn [for_collect]; [by apply quiet_ret|].
  eapply quiet_bind; [apply Hf; left|]. intros y Hy. eapply quiet_bind; [apply IH; intros z Hz; apply Hf; by right|].
  intros ys Hys. apply quiet_ret. by constructor.
Qed.

(** ** The first sector parses *)

Definition parses {A} (o : outcome unit A) (Q : A -> Prop) : Prop := exists x, o = Val x /\ Q x.

Lemma parses_bind {A B} (o : outcome unit A) (f : A -> outcome unit B) R Q :
  parses o R -> (forall x, R x -> parses (f x) Q) -> parses (o ≫= f) Q.
Proof. intros (x & -> & Hx) Hf. by apply Hf. Qed.
Lemma parses_slice {A} (l : list A) i j : 0 <= i <= j -> j <= len l -> parses (slice l i j) (fun _ => True).
Proof.
  intros Hi Hj. unfold slice. rewrite !(proj2 (Z.leb_le _ _)) by lia. eexists. by split.
Qed.
Lemma parses_le s i j : 0 <= i <= j -> j <= len s -> parses (le_at s i j) (fun _ => True).
Proof. intros Hi Hj. eapply parses_bind; [by apply parses_slice|]. intros bs _. eexists. by split. Qed.
Lemma parses_byte s i : 0 <= i < len s -> parses (byte_at s i) (fun _ => True).
Proof.
  intros Hi. unfold byte_at, nth_z. 
  assert (Hs : is_Some (s !! Z.to_nat i)) by (apply lookup_lt_is_Some; lia). destruct Hs as [b ->].
  by exists b.
Qed.

(** The binds of a parser whose reads are in range. *)
Ltac parse := repeat (eapply parses_bind; [first [apply parses_byte|apply parses_le|apply parses_slice]; lia|intros ? _]).

Lemma parses_partition s i : 512 <= len s -> (i < 4)%nat -> parses (partition s i) (fun _ => True).
Proof.
  intros Hs Hi. unfold partition. parse. destruct (_ =? 0); [by eexists|]. parse. by eexists.
Qed.

Lemma parses_map {A B} (f : A -> outcome unit B) (l : list A) :
  (forall x, x ∈ l -> parses (f x) (fun _ => True)) -> parses (map_o f l) (fun _ => True).
Proof.
  induction l as [|x l IH]; intros Hf; cbn [map_o]; [by eexists|].
  eapply parses_bind; [apply Hf; left|]. intros y _.
  eapply parses_bind; [apply IH; intros z Hz; apply Hf; by right|]. intros ys _. by eexists.
Qed.

Lemma parses_mbr s : parses (parse_mbr s) (fun _ => True).
Proof.
  unfold parse_mbr. destruct (Z.ltb_spec (len s) 512) as [|Hs]; [by eexists|]. parse.
  destruct (_ && _); [unfold parse_tables_os; parse; by eexists|]. destruct (negb _); [by eexists|].
  eapply parses_bind; [apply parses_map; intros i Hi%elem_of_seq; apply parses_partition; lia|]. intros ps _. by eexists.
Qed.

Lemma parses_id_string id start n : 0 <= start -> 0 <= n -> start + n <= len id -> parses (read_id_string id start n) (fun _ => True).
Proof. intros Hs Hn Hl. unfold read_id_string. eapply parses_bind; [apply parses_slice; lia|]. intros ws _. by eexists. Qed.

Lemma quiet_pure {A} (o : outcome unit A) (Q : A -> Prop) : parses o Q -> quiet (pure o) Q.
Proof. intros (x & -> & HQ). by apply quiet_ret. Qed.

(** ** A slot *)

Lemma quiet_words base n : quiet (read_words base n) (fun bs => length bs = (2 * n)%nat).
Proof.
  unfold read_words. eapply quiet_bind.
  - apply (quiet_collect _ _ (fun _ bs => length bs = 2%nat)). intros i _.
    eapply quiet_bind; [apply quiet_inw|]. intros w _. by apply quiet_ret.
  - intros bss Hb. apply quiet_ret. rewrite <- (length_seq n 0). set (l := seq 0 n) in *. clearbody l.
    induction Hb as [|i bs l bss Hbs _ IH]; [done|]. cbn [concat length]. rewrite length_app. lia.
Qed.

(** The controllers of the four slots. *)
Definition controller (base ctrl : Z) : Prop := (base = BASE /\ ctrl = CTRL) \/ (base = SECONDARY_BASE /\ ctrl = SECONDARY_CTRL).

Lemma quiet_register base ctrl r v : controller base ctrl -> 2 <= r <= 6 -> quiet (outb (base + r) v) (fun _ => True).
Proof.
  intros Hc Hr. apply quiet_outb. assert (Hr' : r = 2 \/ r = 3 \/ r = 4 \/ r = 5 \/ r = 6) by lia.
  destruct Hc as [[-> _]|[-> _]]; by destruct Hr' as [->|[->|[->|[->| ->]]]].
Qed.
Lemma quiet_control base ctrl v : controller base ctrl -> quiet (outb ctrl v) (fun _ => True).
Proof. intros [[_ ->]|[_ ->]]; by apply quiet_outb. Qed.
Lemma quiet_command base ctrl v : controller base ctrl -> v = 0xEC \/ v = 0x20 -> quiet (outb (base + 7) v) (fun _ => True).
Proof. intros [[-> _]|[-> _]] [->| ->]; by apply quiet_outb. Qed.

Lemma quiet_slot_look base : quiet (slot_look base) (fun _ => True).
Proof.
  unfold slot_look. eapply quiet_bind; [apply quiet_inb|]. intros s _. destruct (s =? 0xFF); [by apply quiet_ret|].
  destruct (has s ST_ERR); [eapply quiet_bind; [apply quiet_inb|]; intros ? _; by apply quiet_ret|].
  destruct (_ && _); by apply quiet_ret.
Qed.

(** The binds of a sequence of port accesses. *)
Ltac hush Hc :=
  repeat (eapply quiet_bind;
    [first [by eapply quiet_control; exact Hc | eapply quiet_register; [exact Hc|lia] | eapply quiet_command; [exact Hc|lia]
           | apply quiet_pause | apply quiet_inb | apply quiet_spin, quiet_slot_look]|intros ? _]).

Lemma quiet_identify base ctrl slave : controller base ctrl ->
  quiet (identify_slot base ctrl slave) (fun r => match r with Some id => length id = 256%nat | None => True end).
Proof.
  intros Hc. unfold identify_slot. hush Hc. destruct (_ =? 0xFF); [by apply quiet_ret|].
  hush Hc. destruct (_ =? 0); [by apply quiet_ret|]. hush Hc.
  destruct (default false _); [|by apply quiet_ret]. eapply quiet_bind.
  - apply (quiet_collect _ _ (fun _ _ => True)). intros i _. apply quiet_inw.
  - intros id Hid%Forall2_length. apply quiet_ret. by rewrite <- Hid, length_seq.
Qed.

Lemma quiet_sector base ctrl slave lba : controller base ctrl ->
  quiet (read_sector_at base slave lba) (fun r => match r with Some s => length s = 512%nat | None => True end).
Proof.
  intros Hc. unfold read_sector_at. hush Hc. destruct (default false _); [|by apply quiet_ret].
  eapply quiet_bind; [apply quiet_words|]. intros s Hs. by apply quiet_ret.
Qed.

(** The disk of these first sectors carries the GUID. *)
Definition carries (m : MbrInfo) (guid : bytes) : Prop :=
  match m with TablesOs _ _ _ _ _ _ _ _ g => g = guid | _ => False end.

(** What is said of a slot. *)
Record tells (name guid : bytes) (d : DriveInfo) : Prop := {
  te_slot : slot d = name;
  te_booted : booted d = true -> present d = true /\ carries (mbr d) guid;
  te_absent : present d = false -> d = mk_drive name false [] [] [] 0 0 false Unknown false
}.

Lemma quiet_probe base ctrl slave name guid : controller base ctrl ->
  quiet (probe_one base ctrl slave name guid) (tells name guid).
Proof.
  intros Hc. unfold probe_one. eapply quiet_bind; [by apply quiet_identify|]. intros [id|] Hid; [|by apply quiet_ret].
  do 3 (eapply quiet_bind; [apply quiet_pure, parses_id_string; lia|intros ? _]).
  eapply quiet_bind; [by eapply quiet_sector|]. intros sec0 Hs. eapply quiet_bind.
  - apply quiet_pure. instantiate (1 := fun _ => True). destruct sec0 as [s|]; [|by eexists].
    eapply parses_bind; [apply parses_byte; lia|intros ? _].
    eapply parses_bind; [apply parses_byte; lia|intros ? _].
    eapply parses_bind; [apply parses_mbr|]. intros m _. by eexists.
  - intros [m sig] _. apply quiet_ret. split; cbn; [done| |done]. unfold is_booted, carries.
    destruct m; try done. intros Hg. split; [done|]. by apply bool_decide_eq_true in Hg.
Qed.
End Quiet.

End Survey.
Import Survey.

(** C40: whatever is behind the ports - no drives, broken ones, any first
    sectors - the enumeration ends without an abort and reports the four slots
    in their order.  It wrote to the registers of the two controllers only, no
    command but IDENTIFY and READ SECTORS and no data.  A slot reported as the
    booted disk is one whose first sector carries the boot GUID, and a slot
    that did not answer is reported empty. *)
Theorem enumeration_only_looks {H : Type} `{!Ports H} (h : logged H) (guid : bytes) :
  exists ds h' es, enumerate_drives guid h = (Val ds, h') /\
    log h' = es ++ log h /\ Forall harmless es /\
    Forall2 (fun name d => tells name guid d)
      [str "primary master"; str "primary slave"; str "secondary master"; str "secondary slave"] ds.
Proof.
  assert (Hq : quiet (enumerate_drives guid)
    (Forall2 (fun '(_, _, _, name) d => tells name guid d) (slots : list (Z * Z * bool * bytes)))).
  { apply quiet_collect. intros [[[base ctrl] slave] name] Hin. apply quiet_probe.
    unfold slots in Hin. unfold controller. set_solver. }
  destruct (Hq h) as (ds & h' & es & E & L & F & T). exists ds, h', es. split_and!; [done..|].
  change (Forall2 (fun name d => tells name guid d) (snd <$> slots) ds). apply Forall2_fmap_l. eapply Forall2_impl; [exact T|].
  by intros [[[? ?] ?] ?].
Qed.
